(* ===== verification/_CoqProject ===== *)
-Q . S2P
Prelude.v
Crypto.v
Wire.v
Script.v
TxCodec.v
Witness.v
Pow.v
Activation.v
Anchors.v
Constants.v
Merkle.v
Header.v
AuxPow.v
Difficulty.v
BtcTx.v
Spv.v
Spend.v
Ledger.v
Claims.v
Mempool.v
Dominance.v
Penalty.v
Adaptive.v
Proposer.v
Ticket.v
Candidate.v
Puzzle.v
Finality.v
Admission.v
AdmissionCache.v
Roles.v
Registration.v
Receipt.v
Chain.v
BlockWire.v
PoawxRules.v
PoawxChain.v
Reorg.v
ReorgSafety.v
ReorgAtomic.v
PoawxReorg.v
Agreement.v
Settlement.v
Templates.v
Payout.v
Funding.v
Dispute.v
Resolver.v
Protocol.v
Payloads.v
BtcWire.v
Reputation.v
Sybil.v
Peers.v
