(* ===== verification/Prelude.v ===== *)
(** * Irium: a verified model of the consensus core, the settlement service and the wire

    Irium ([src/]) is a proof-of-work currency written in Rust.  Its node
    keeps a chain of blocks and the set of unspent outputs the chain leaves,
    accepts merged-mined blocks, and carries header relays of Bitcoin and
    Litecoin with which swaps across the chains are settled.  On top of it
    the node settles agreements: money locked on the chain that is paid out or
    back by what attestors prove.  This library models the part of the node
    that decides what is valid, who is paid, what is said to other nodes and
    which of them are let in, and proves what makes it correct.

    ** The parts and the files that model them

    - [Prelude] (this file): outcomes of Rust computations ([res], with a
      panic as an outcome of its own), integers at their width, byte lists,
      little-endian numbers, slices, and the tactics the other files share.
    - [Crypto]: SHA-256, RIPEMD-160, scrypt and ECDSA, code of third-party
      crates, are the operations of the class [Crypto]; the class
      [CryptoLaws] has the widths of the digests and nothing else.
    - [Script], [TxCodec], [Witness] ([src/src/tx.rs]): output scripts,
      transactions and input witnesses, their encoders and parsers.
    - [Pow] ([pow.rs]), [Activation] ([activation.rs]), [Constants]
      ([constants.rs]): compact targets, fork heights, emission.
    - [Merkle], [Header] ([block.rs]), [AuxPow] ([auxpow.rs]): Merkle trees,
      block headers and merged mining.
    - [Difficulty] ([chain.rs]): retargeting, median time and work.
    - [BtcTx] ([btc_tx_parse.rs]), [Spv] ([btc_spv.rs], [ltc_spv.rs]): the
      reader of foreign transactions and the two header relays.
    - [Spend], [Ledger], [Chain] ([chain.rs]): who may spend an output, what a
      block does to the unspent outputs, and how blocks are connected to the
      chain and disconnected from it.  [Claims] holds what is proved of the
      foreign payments with which a block claims outputs.
    - [Anchors] ([anchors.rs]), [Reorg] ([chain.rs], [poawx_proposer.rs]):
      checkpoints, and the entry point [process_block] with its orphan pool,
      the choice between branches and the switch to another branch.
      [ReorgSafety] and [ReorgAtomic] hold what is proved of it for any PoAW-X
      that keeps the laws of the class [ReorgAtomic.PoawxLaws]; [PoawxReorg]
      proves that the running PoAW-X keeps them.
    - [Mempool] ([mempool.rs], [chain.rs]): the transactions that wait for a
      block, their rank, the limits, the file.
    - PoAW-X, the extension that shares a block's reward among roles
      ([poawx*.rs]), a file for each part: [Wire], the readers its codecs
      share, each codec an instance of the class [Wire.Wire]; [Proposer] and
      [Registration], the lottery for the next block and the keys in it;
      [Ticket], [Candidate], [Puzzle], what a role has to show; [Admission],
      [AdmissionCache], which candidates there are; [Finality], votes, quorums
      and fraud proofs; [Dominance], [Penalty], [Adaptive], the state that
      weighs, slashes and tightens; [Roles], [Receipt], [BlockWire], the split
      of the reward and what a block carries; [PoawxRules], [PoawxChain]
      ([chain.rs]), the checks of a block and the state they keep.

    - Settlement ([settlement.rs], [bin/iriumd.rs]): [Agreement], agreements,
      their validation and hash, and the outputs that name them on the chain;
      [Settlement], the proofs of attestors, the policies that judge them and
      the two stores; [Templates], the policies offered ready made; [Payout],
      the handlers of the node that store, judge and pay, as steps of its
      state; [Funding], the locked outputs of an agreement, how they are found
      again and spent.
    - Disputes ([settlement.rs], [bin/iriumd.rs]): [Dispute], the signed messages
      and the transaction that anchors one; [Resolver], the disputes of a node as
      records in memory and on disk, each handler an action on the node that may
      fail half way, and histories of requests, messages, blocks and restarts.

    - The wire ([protocol.rs], [p2p.rs]): [Protocol], messages, their frames and
      the reader of a stream; [Payloads], the payloads, each an instance of the
      class [Payloads.Payload] with laws that say what of it arrives.  [BtcWire]
      ([p2p_wire.rs], [btc_p2p.rs], [ltc_p2p.rs]): the session with a foreign
      node that fetches headers for the relays.
    - Admission of peers: [Reputation] ([reputation.rs], [rate_limiter.rs]),
      scores, the file of peers, the budget of requests; [Sybil] ([sybil.rs],
      [p2p.rs]), the challenge of the handshake and the answer to it; [Peers]
      ([p2p.rs]), who is banned, who may be dialled, the hashes seen lately.

    They interact as in the code: [Chain.connect_block] validates a header
    with [Header], [Merkle], [Difficulty], [Pow] and [AuxPow] and applies the
    transactions with [Ledger]; [Ledger] checks each input with [Spend], which
    parses scripts and witnesses with [Script] and [Witness], hashes the
    encoding of [TxCodec] and looks payments up in the relays of [Spv].
    [Reorg.process_block] drives [Chain]: it connects, disconnects and files
    blocks, and nothing else changes the chain.  [Chain] takes PoAW-X as the
    class [Chain.Poawx] of the calls it makes; [PoawxChain.poawx_running] is
    the instance with the checks of [PoawxRules] and [PoawxChain], and
    [Chain.poawx_off] the one without.  The node-wide cache of admissions is
    an argument of the running instance.  [Payout] runs [Settlement] on the
    stores of the node; [Funding] makes scripts and witnesses with [Script] and
    [Witness] and is held against the check of the chain in [Spend].  [Resolver]
    answers with the messages and the anchors of [Dispute], whose transactions go
    through [Ledger] to the [Mempool]; its answer gates the spends of [Funding].
    [Sybil.answer_challenge] reads a message of [Protocol] and counts the answer
    in [Reputation], and the banned peers of [Reputation] set the difficulty that
    [Sybil] asks for; nothing ties the headers of [BtcWire] to a relay but the
    batches of transactions that [Spv] takes.

    ** How the code is translated

    A function of the code is a function here, with the state it mutates
    passed in and out; [Result] and [Option] are [res] with [Err], and an
    index, slice or unwrap that fails is [Panic], so that the absence of
    panics is a theorem.  Integers are [Z], with [as_u8], [wadd64] and the
    like where the code casts or wraps (the release profile wraps on
    overflow).  [HashMap]s are [gmap]s.  The environment, the clock and the
    activation heights are arguments.

    ** What is shown

    - The chain: in every reachable state the coins are at most what was
      issued and that is at most the cap, blocks are linked and the total work
      is theirs; a connected block extends the tip validly; disconnecting
      undoes connecting.
    - The node: whatever blocks it is sent in whatever order, these invariants
      hold and the orphan pool stays bounded; a reorganisation that succeeds
      leaves the wanted branch and cuts off no finalized block, one that fails
      leaves the chain as it was and PoAW-X, running, in a state that weighs,
      queues and elects alike; the search for the fork ends.
    - The ledger: a block creates no coins but its subsidy, spends no coin
      twice, claims with no output of a foreign payment twice, and its undo
      record restores the ledger; fees are exact.
    - Spending: an accepted input satisfies the policy of its output (a
      specification of its own, [Spend.policy]); a signature commits to the
      transaction; the check does not panic but for one reader.
    - The relays: consistency is an invariant, a batch is undone exactly, and
      validation ends.
    - Codecs: round trips in both directions for scripts, transactions,
      witnesses, headers, merged-mining proofs and header batches.
    - Difficulty and emission: bounds, fixed points and the exact height at
      which the emission meets the cap.
    - The mempool: its invariant over any history, who is displaced by whom,
      the rate limit, the file.
    - PoAW-X, piece by piece: what is signed and ground is accepted, what is
      accepted is proved; every codec is faithful and every root binds;
      finality is accountable; rewards are split exactly; weights, penalties
      and registrations are undone with their block.
    - PoAW-X in the chain: a coinbase pays exactly what it should, the queue
      of registrations is first in first out so that no producer can keep a
      key out, a block's proposer is the one whose turn it is; and on the main
      network no block at height 50,000 or above can be accepted.
    - Settlement: release and refund exclude each other, a release is earned
      by enough distinct attestors and final, a refund that is due is final;
      every payment to the payee that the node builds, after any requests, is
      earned by stored proofs or granted by a rule whose deadline has come; what
      an escrow template decides on proofs with identifiers of their own; what the payments add up to; the legs
      of an agreement are worth it and are found again; and a spend the node
      builds for a leg passes the check of the chain.
    - Disputes: what the node keeps of a dispute is well formed, signed and filed
      under its agreement, after any requests, messages, blocks and restarts; the
      resolver whose turn it is decides, the decision stays and the money follows
      it; silence opens the way to the fallback; a restart forgets nothing; and
      two things never work, registering as a resolver and getting an anchor into
      the mempool.
    - The wire: a message arrives as it was sent, and so does every payload with a
      format of its own; for the ones that carry JSON serde is what the laws say
      it is; no input makes the
      reader panic, but for the header message of a foreign node, whose count is
      allocated before it is checked; the headers a session yields were checked
      against their checksum and come after a handshake.
    - Admission: scores stay in range whatever the file said, what is recorded
      of a connection is not what its host is judged by, and a steady client can
      starve; the least solution of a challenge is found, and none is needed; the
      cache of hashes is its latest entries, a host that fails often enough is
      banned for the configured time, and one is dialled once at a time.
    - Where the code does not do what it means to, a closed theorem shows it
      on a concrete input.

    ** Bounds and fuel

    Loops of the code that run over data are structural.  Three others are not: the
    Merkle level loop has the number of leaves as fuel, the walk back to the
    start of a retarget window has the length of the window, and the search
    for a fork has the height of the new tip; each is shown to end within it.
    [Reorg.process_block] calls itself for the orphans of a block; its fuel
    bounds the depth of the calls, and the theorems hold for every fuel.
    The session of [BtcWire] has the code's own budgets of messages; the readers
    of its headers and of UTF-8 take a byte or more in every step and have the
    length of the input as fuel.

    ** Not modelled

    The verifiable random function, ECDSA and the digests are code of
    third-party crates and enter as the classes [Candidate.Vrf] and [Crypto];
    so do hexadecimal and Base58 ([Agreement.Hex], [Funding.Base58]) and the
    JSON forms that are hashed and signed ([Agreement.AgreementJson],
    [Settlement.ProofJson], [Dispute.DisputeJson]).  So do serde's JSON for payloads
    ([Payloads.Serde]) and, where a model needs one, the sockets and the clock
    as arguments.  The JSON file of a dispute is the record itself: no step of
    [Resolver] prints or parses it.  The tasks of the network layer that gossip, synchronise and
    keep the directory of peers ([p2p.rs], [network.rs]), storage, the wallet,
    the other HTTP handlers and the mining pool are input/output around this
    core and are left out; of the settlement service, bundles, audit
    records and share packages, which are reports. *)

From Stdlib Require Import ZArith Lia.
From stdpp Require Export base tactics numbers list strings gmap.

#[global] Open Scope Z_scope.

(** ** Outcomes of Rust computations

    [Ok] and [Err] are the two constructors of [Result]; [Panic] is the third
    outcome a Rust function has: an index or a slice out of range, an
    [expect] that fails.  A function that returns [Option] is modelled with
    [E := unit], so [Err tt] stands for [None]. *)
Inductive res (E A : Type) : Type :=
| Ok (a : A)
| Err (e : E)
| Panic.

Arguments Ok {E A} a.
Arguments Err {E A} e.
Arguments Panic {E A}.

Abbreviation opt A := (res unit A).
Abbreviation NoneR := (Err tt).

#[export] Instance res_ret {E} : MRet (res E) := @Ok E.

#[export] Instance res_bind {E} : MBind (res E) := fun A B f m =>
  match m with
  | Ok a => f a
  | Err e => Err e
  | Panic => Panic
  end.

#[export] Instance res_fmap {E} : FMap (res E) := fun A B f m =>
  match m with
  | Ok a => Ok (f a)
  | Err e => Err e
  | Panic => Panic
  end.

#[export] Instance res_eq_dec {E A} `{EqDecision E, EqDecision A} :
  EqDecision (res E A).
Proof. solve_decision. Defined.

Lemma Ok_inj {E A} (a b : A) : @Ok E A a = Ok b -> a = b.
Proof. by intros [=]. Qed.

(** [opt.ok_or(e)] / [map_err]: change the error of an outcome. *)
Definition map_err {E E' A} (f : E -> E') (m : res E A) : res E' A :=
  match m with
  | Ok a => Ok a
  | Err e => Err (f e)
  | Panic => Panic
  end.

(** An [option] read as an outcome, with the error for [None]. *)
Definition ok_or {E A} (o : option A) (e : E) : res E A :=
  match o with Some a => Ok a | None => Err e end.

Definition is_ok {E A} (m : res E A) : bool :=
  match m with Ok _ => true | _ => false end.

(** ** Machine integers: a [w]-bit unsigned value is a [Z] in range *)
Definition U8_MAX : Z := 255.
Definition U16_MAX : Z := 65535.
Definition U32_MAX : Z := 4294967295.
Definition U64_MAX : Z := 18446744073709551615.
Definition I64_MAX : Z := 9223372036854775807.

Definition u8 (v : Z) : Prop := 0 <= v < 2 ^ 8.
Definition u16 (v : Z) : Prop := 0 <= v < 2 ^ 16.
Definition u32 (v : Z) : Prop := 0 <= v < 2 ^ 32.
Definition u64 (v : Z) : Prop := 0 <= v < 2 ^ 64.

(** [n as u8], [n as u16], [n as u32], [n as u64]: truncating casts. *)
Definition as_u8 (v : Z) : Z := v mod 2 ^ 8.
Definition as_u16 (v : Z) : Z := v mod 2 ^ 16.
Definition as_u32 (v : Z) : Z := v mod 2 ^ 32.
Definition as_u64 (v : Z) : Z := v mod 2 ^ 64.
(** [n as i64] of a [u64]. *)
Definition as_i64 (v : Z) : Z := (v + 2 ^ 63) mod 2 ^ 64 - 2 ^ 63.

Definition sat_sub (a b : Z) : Z := Z.max 0 (a - b).
Definition sat_add32 (a b : Z) : Z := Z.min U32_MAX (a + b).
Definition sat_add64 (a b : Z) : Z := Z.min U64_MAX (a + b).
Definition sat_mul64 (a b : Z) : Z := Z.min U64_MAX (a * b).
(** [a + b] on [usize]/[u64] in a release build: wrap-around. *)
Definition wadd64 (a b : Z) : Z := (a + b) mod 2 ^ 64.
(** [a + b] on [i64] in a release build. *)
Definition wadd_i64 (a b : Z) : Z := as_i64 (a + b).
Definition checked_add64 (a b : Z) : option Z :=
  if a + b <=? U64_MAX then Some (a + b) else None.

(** ** Byte strings *)
Abbreviation bytes := (list Z).

Definition len {A} (s : list A) : Z := Z.of_nat (length s).

Definition wf_bytes (s : bytes) : Prop := Forall u8 s.
(** [[u8; n]]: a byte array of [n] bytes. *)
Definition arr (n : Z) (s : bytes) : Prop := len s = n /\ wf_bytes s.

Definition zeros (n : nat) : bytes := replicate n 0.

Definition beqb (a b : bytes) : bool := bool_decide (a = b).

(** A byte-string literal [b"..."]. *)
Definition byte_string (s : string) : bytes := (Z.of_N ∘ Ascii.N_of_ascii) <$> String.list_ascii_of_string s.

(** Comparison of byte arrays ([<] on [[u8; 32]]), first difference decides. *)
Fixpoint bytes_ltb (a b : bytes) : bool :=
  match a, b with
  | [], [] => false
  | [], _ => true
  | _, [] => false
  | x :: a, y :: b => if x <? y then true else if y <? x then false else bytes_ltb a b
  end.

(** [s[i]]: panics out of range. *)
Definition idx {E A} (s : list A) (i : Z) : res E A :=
  if i <? 0 then Panic
  else match s !! Z.to_nat i with Some b => Ok b | None => Panic end.

(** [&s[a..b]]: panics when [a > b] or [b] is past the end. *)
Definition slice {E A} (s : list A) (a b : Z) : res E (list A) :=
  if (0 <=? a) && (a <=? b) && (b <=? len s)
  then Ok (take (Z.to_nat (b - a)) (drop (Z.to_nat a) s))
  else Panic.

(** [s.get(i)?] in a function that returns [Option]. *)
Definition get_opt {A} (s : list A) (i : Z) : opt A :=
  match s !! Z.to_nat i with
  | Some b => if 0 <=? i then Ok b else NoneR
  | None => NoneR
  end.

(** [v.to_le_bytes()] for an [n]-byte integer, and [from_le_bytes]. *)
Fixpoint le_bytes (n : nat) (v : Z) : bytes :=
  match n with
  | O => []
  | S n => v mod 2 ^ 8 :: le_bytes n (v / 2 ^ 8)
  end.

Fixpoint le_val (s : bytes) : Z :=
  match s with
  | [] => 0
  | b :: s => b + 2 ^ 8 * le_val s
  end.

Definition be_bytes (n : nat) (v : Z) : bytes := rev (le_bytes n v).
Definition be_val (s : bytes) : Z := le_val (rev s).

(** ** Lemmas on lengths *)
Section lengths.
Context {A : Type}.
Implicit Types s t : list A.

Lemma len_nil : len (@nil A) = 0.
Proof. done. Qed.

Lemma len_cons x s : len (x :: s) = 1 + len s.
Proof. unfold len; simpl; lia. Qed.

Lemma len_app s t : len (s ++ t) = len s + len t.
Proof. unfold len; rewrite length_app; lia. Qed.

Lemma len_rev s : len (rev s) = len s.
Proof. unfold len; by rewrite length_rev. Qed.

Lemma len_nonneg s : 0 <= len s.
Proof. unfold len; lia. Qed.

Lemma len_0_nil s : len s = 0 -> s = [].
Proof. destruct s; [done|]; rewrite len_cons; pose proof (len_nonneg s); lia. Qed.
End lengths.

Lemma len_map {A B} (f : A -> B) (s : list A) : len (f <$> s) = len s.
Proof. unfold len; by rewrite length_fmap. Qed.

Lemma length_le_bytes n v : length (le_bytes n v) = n.
Proof. revert v; induction n; intros; cbn [le_bytes length]; congruence. Qed.

Lemma len_le_bytes n v : len (le_bytes n v) = Z.of_nat n.
Proof. unfold len; by rewrite length_le_bytes. Qed.

Lemma len_le_bytes2 v : len (le_bytes 2 v) = 2.
Proof. apply len_le_bytes. Qed.
Lemma len_le_bytes4 v : len (le_bytes 4 v) = 4.
Proof. apply len_le_bytes. Qed.
Lemma len_le_bytes8 v : len (le_bytes 8 v) = 8.
Proof. apply len_le_bytes. Qed.

Lemma len_zeros n : len (zeros n) = Z.of_nat n.
Proof. unfold len, zeros; by rewrite length_replicate. Qed.

Create Rewrite HintDb lens.
#[export] Hint Rewrite @len_nil @len_cons @len_app @len_rev @len_map
  len_le_bytes2 len_le_bytes4 len_le_bytes8 len_zeros : lens.

(** Arithmetic side goals about lengths: expand every [len], then [lia]. *)
Ltac pose_len_nonneg :=
  repeat match goal with
  | |- context [len ?s] =>
      lazymatch goal with
      | _ : 0 <= len s |- _ => fail
      | _ => pose proof (len_nonneg s)
      end
  end.
Ltac len_lia := autorewrite with lens; pose_len_nonneg; lia.

(** ** Indexing and slicing *)
Section slices.
Context {E A : Type}.
Implicit Types s t : list A.

Lemma slice_Ok_inv s a b x :
  @slice E A s a b = Ok x ->
  0 <= a <= b /\ b <= len s /\ x = take (Z.to_nat (b - a)) (drop (Z.to_nat a) s).
Proof. unfold slice; case_match eqn:Hc; [|done]. intros [= <-]. repeat split; lia. Qed.

Lemma slice_Ok_len s a b x : @slice E A s a b = Ok x -> len x = b - a.
Proof.
  intros (?&?&->)%slice_Ok_inv.
  unfold len in *. rewrite length_take, length_drop. lia.
Qed.

Lemma slice_in s a b : 0 <= a <= b -> b <= len s -> exists x, @slice E A s a b = Ok x /\ len x = b - a.
Proof.
  intros Ha Hb. unfold slice.
  replace ((0 <=? a) && (a <=? b) && (b <=? len s)) with true by lia.
  eexists; split; [done|].
  unfold len in *. rewrite length_take, length_drop. lia.
Qed.

Lemma slice_all s a b : a = 0 -> b = len s -> @slice E A s a b = Ok s.
Proof.
  intros -> ->. unfold slice. pose proof (len_nonneg s).
  replace ((0 <=? 0) && (0 <=? len s) && (len s <=? len s)) with true by lia.
  simpl. f_equal. apply take_ge. unfold len. lia.
Qed.

Lemma slice_here s t a b : a = 0 -> b = len s -> @slice E A (s ++ t) a b = Ok s.
Proof.
  intros -> ->. unfold slice. rewrite len_app.
  pose proof (len_nonneg s). pose proof (len_nonneg t).
  replace ((0 <=? 0) && (0 <=? len s) && (len s <=? len s + len t)) with true by lia.
  f_equal. rewrite drop_0. replace (Z.to_nat (len s - 0)) with (length s) by (unfold len; lia).
  by rewrite take_app_length.
Qed.

Lemma slice_skip s t a b :
  len s <= a -> @slice E A (s ++ t) a b = slice t (a - len s) (b - len s).
Proof.
  intros Ha. unfold slice. rewrite len_app.
  pose proof (len_nonneg s).
  replace ((0 <=? a) && (a <=? b) && (b <=? len s + len t))
    with ((0 <=? a - len s) && (a - len s <=? b - len s) && (b - len s <=? len t)) by lia.
  case_match; [|done]. f_equal. f_equal; [lia|].
  unfold len in *. rewrite drop_app_ge by lia. f_equal. lia.
Qed.

Lemma slice_cat s a b c x y :
  @slice E A s a b = Ok x -> @slice E A s b c = Ok y -> @slice E A s a c = Ok (x ++ y).
Proof.
  intros (?&?&->)%slice_Ok_inv (?&?&->)%slice_Ok_inv. unfold slice.
  replace ((0 <=? a) && (a <=? c) && (c <=? len s)) with true by lia.
  f_equal. replace (Z.to_nat (c - a)) with (Z.to_nat (b - a) + Z.to_nat (c - b))%nat by lia.
  rewrite <- take_take_drop. f_equal. rewrite drop_drop. do 2 f_equal. lia.
Qed.

Lemma slice_full_inv s b x : @slice E A s 0 b = Ok x -> b = len s -> x = s.
Proof. intros H ->. rewrite slice_all in H by done. congruence. Qed.

Lemma idx_Ok_inv s i x : @idx E A s i = Ok x -> 0 <= i < len s /\ s !! Z.to_nat i = Some x.
Proof.
  unfold idx. case_match eqn:Hi; [done|]. case_match eqn:Hl; [|done]. intros [= ->].
  split; [|done]. apply lookup_lt_Some in Hl. unfold len. lia.
Qed.

Lemma idx_in s i : 0 <= i < len s -> exists x, @idx E A s i = Ok x.
Proof.
  intros Hi. unfold idx. destruct (i <? 0) eqn:?; [lia|].
  destruct (lookup_lt_is_Some_2 s (Z.to_nat i)) as [x ->]; [unfold len in *; lia|eauto].
Qed.

Lemma idx_skip s t i : len s <= i -> @idx E A (s ++ t) i = idx t (i - len s).
Proof.
  intros Hi. unfold idx. pose proof (len_nonneg s).
  replace (i <? 0) with (i - len s <? 0) by lia. case_match; [done|].
  unfold len in *. rewrite lookup_app_r by lia.
  replace (Z.to_nat i - length s)%nat with (Z.to_nat (i - Z.of_nat (length s))) by lia.
  done.
Qed.

Lemma idx_here x t i : i = 0 -> @idx E A ([x] ++ t) i = Ok x.
Proof. by intros ->. Qed.

Lemma idx_one x i : i = 0 -> @idx E A [x] i = Ok x.
Proof. by intros ->. Qed.

Lemma idx_slice s i j x : @idx E A s i = Ok x -> j = i + 1 -> @slice E A s i j = Ok [x].
Proof.
  intros [Hi Hl]%idx_Ok_inv ->. unfold slice.
  replace ((0 <=? i) && (i <=? i + 1) && (i + 1 <=? len s)) with true by lia.
  f_equal. replace (Z.to_nat (i + 1 - i)) with 1%nat by lia.
  rewrite (drop_S _ _ _ Hl). done.
Qed.

Lemma slice_idx s i x : @slice E A s i (i + 1) = Ok [x] -> @idx E A s i = Ok x.
Proof.
  intros Hs. pose proof (slice_Ok_inv _ _ _ _ Hs) as (?&?&_).
  destruct (idx_in s i) as [y Hy]; [lia|].
  rewrite (idx_slice _ _ _ _ Hy eq_refl) in Hs. congruence.
Qed.

Lemma slice_Forall (P : A -> Prop) s a b x :
  @slice E A s a b = Ok x -> Forall P s -> Forall P x.
Proof. intros (_&_&->)%slice_Ok_inv ?. by apply Forall_take, Forall_drop. Qed.

Lemma idx_Forall (P : A -> Prop) s i x : @idx E A s i = Ok x -> Forall P s -> P x.
Proof. intros [_ Hl]%idx_Ok_inv Hs. by eapply Forall_lookup_1. Qed.
End slices.

Lemma get_opt_Ok_idx {A} (s : list A) i x : get_opt s i = Ok x -> @idx unit A s i = Ok x.
Proof.
  unfold get_opt, idx. destruct (s !! Z.to_nat i) eqn:Hl; [|done].
  destruct (0 <=? i) eqn:Hi; [|done]. intros [= ->].
  by replace (i <? 0) with false by lia.
Qed.

Lemma get_opt_idx {A} (s : list A) i x : @idx unit A s i = Ok x -> get_opt s i = Ok x.
Proof.
  intros [Hi Hl]%idx_Ok_inv. unfold get_opt. rewrite Hl.
  by replace (0 <=? i) with true by lia.
Qed.

Lemma get_opt_no_panic {A} (s : list A) i : get_opt s i <> Panic.
Proof. unfold get_opt. by repeat case_match. Qed.

(** ** Little- and big-endian integers *)
Lemma wf_le_bytes n v : wf_bytes (le_bytes n v).
Proof.
  revert v; induction n as [|n IH]; intros v; constructor; [|apply IH].
  unfold u8. apply Z.mod_pos_bound. lia.
Qed.

Lemma le_val_bytes n v : 0 <= v < 2 ^ (8 * Z.of_nat n) -> le_val (le_bytes n v) = v.
Proof.
  revert v; induction n as [|n IH]; intros v Hv.
  { simpl in *. lia. }
  cbn [le_bytes le_val]. rewrite IH.
  - rewrite Z.add_comm. symmetry. apply Z.div_mod. lia.
  - split; [apply Z.div_pos; lia|].
    apply Z.div_lt_upper_bound; [lia|].
    rewrite <- Z.pow_add_r by lia. replace (8 + 8 * Z.of_nat n) with (8 * Z.of_nat (S n)) by lia. lia.
Qed.

Lemma le_val_bound s : wf_bytes s -> 0 <= le_val s < 2 ^ (8 * len s).
Proof.
  induction 1 as [|b s Hb _ IH]; [done|]. rewrite len_cons.
  replace (8 * (1 + len s)) with (8 + 8 * len s) by lia.
  rewrite Z.pow_add_r by (pose proof (len_nonneg s); lia).
  cbn [le_val]. unfold u8 in Hb. nia.
Qed.

Lemma le_bytes_val s : wf_bytes s -> le_bytes (length s) (le_val s) = s.
Proof.
  induction 1 as [|b s Hb _ IH]; [done|]. cbn [length le_bytes le_val].
  unfold u8 in Hb. f_equal.
  - rewrite Z.mul_comm, Z.mod_add by lia. apply Z.mod_small. lia.
  - rewrite Z.mul_comm, Z.div_add by lia. rewrite Z.div_small by lia. by rewrite Z.add_0_l.
Qed.

Lemma le_bytes_val_n n s : arr (Z.of_nat n) s -> le_bytes n (le_val s) = s.
Proof.
  intros [Hl Hw]. rewrite <- (le_bytes_val s Hw) at 2. f_equal. unfold len in Hl. lia.
Qed.

Lemma le_val_u16 v : u16 v -> le_val (le_bytes 2 v) = v.
Proof. intros; by apply le_val_bytes. Qed.
Lemma le_val_u32 v : u32 v -> le_val (le_bytes 4 v) = v.
Proof. intros; by apply le_val_bytes. Qed.
Lemma le_val_u64 v : u64 v -> le_val (le_bytes 8 v) = v.
Proof. intros; by apply le_val_bytes. Qed.

(** Executable checks of the byte-string predicates, for concrete inputs. *)
Definition wf_bytesb (s : bytes) : bool := forallb (fun b => (0 <=? b) && (b <? 256)) s.

Lemma wf_bytes_check s : wf_bytesb s = true -> wf_bytes s.
Proof.
  unfold wf_bytesb, wf_bytes. rewrite forallb_forall, Forall_forall. intros H b Hb.
  apply list_elem_of_In, H in Hb. unfold u8. lia.
Qed.

Lemma arr_check n s : (len s =? n) && wf_bytesb s = true -> arr n s.
Proof. intros [? ?]%andb_true_iff. split; [lia | by apply wf_bytes_check]. Qed.

(** A decidable property of a byte, by evaluation on the 256 bytes. *)
Lemma u8_forall (P : Z -> bool) : forallb P (seqZ 0 256) = true -> forall v, u8 v -> P v = true.
Proof.
  intros H v Hv. rewrite forallb_forall in H. apply H.
  apply list_elem_of_In, elem_of_seqZ. unfold u8 in Hv. lia.
Qed.

Lemma as_u16_small v : 0 <= v < 65536 -> as_u16 v = v.
Proof. intros. by apply Z.mod_small. Qed.
Lemma as_u32_small v : 0 <= v < 4294967296 -> as_u32 v = v.
Proof. intros. by apply Z.mod_small. Qed.
Lemma as_u8_small v : 0 <= v <= 255 -> as_u8 v = v.
Proof. intros; apply Z.mod_small; lia. Qed.

#[global] Arguments le_bytes : simpl never.
#[global] Arguments le_val : simpl never.

(** ** The order of byte arrays *)
Lemma bytes_ltb_irrefl a : bytes_ltb a a = false.
Proof. induction a as [|x a IH]; cbn; [done|]. by rewrite Z.ltb_irrefl. Qed.

Lemma bytes_ltb_trans a : forall b c, bytes_ltb a b = true -> bytes_ltb b c = true -> bytes_ltb a c = true.
Proof.
  induction a as [|x a IH]; intros [|y b] [|z c]; cbn; try done.
  repeat case_match; try done; try lia. apply IH.
Qed.

Lemma bytes_ltb_total a : forall b, bytes_ltb a b = false -> bytes_ltb b a = false -> a = b.
Proof.
  induction a as [|x a IH]; intros [|y b]; cbn; try done.
  repeat case_match; try done; try lia. intros H1 H2. f_equal; [lia|by apply IH].
Qed.

Lemma bytes_ltb_asym a b : bytes_ltb a b = true -> bytes_ltb b a = false.
Proof.
  intros H. destruct (bytes_ltb b a) eqn:E; [|done]. pose proof (bytes_ltb_trans _ _ _ H E) as C.
  by rewrite bytes_ltb_irrefl in C.
Qed.

(** ** Tactics for parsers

    [parse_step] evaluates the leftmost slice or index of the goal when the
    buffer is a concatenation of fields of known length; [bind_simpl] reduces
    the monad around it. *)
Ltac solve_slice :=
  first
    [ apply slice_here; len_lia
    | apply slice_all; len_lia
    | rewrite slice_skip by len_lia; solve_slice ].
Ltac solve_idx :=
  first
    [ apply idx_here; len_lia
    | apply idx_one; len_lia
    | rewrite idx_skip by len_lia; solve_idx ].
Ltac bind_simpl := cbn [mbind res_bind mret res_ret fmap res_fmap map_err ok_or].
Ltac eval_slice s a b :=
  let H := fresh in
  eassert (slice s a b = Ok _) as H by solve_slice; rewrite H; clear H.
Ltac eval_idx s i :=
  let H := fresh in
  eassert (idx s i = Ok _) as H by solve_idx; rewrite H; clear H.
Ltac parse_step :=
  match goal with
  | |- context [mbind _ (@slice ?E ?A ?s ?a ?b)] =>
      let H := fresh in
      eassert (@slice E A s a b = Ok _) as H by solve_slice; rewrite H; clear H
  | |- context [mbind _ (@idx ?E ?A ?s ?i)] =>
      let H := fresh in
      eassert (@idx E A s i = Ok _) as H by solve_idx; rewrite H; clear H
  | |- context [mbind _ (@get_opt ?A ?s ?i)] =>
      let H := fresh in
      eassert (@get_opt A s i = Ok _) as H by (apply get_opt_idx; solve_idx);
      rewrite H; clear H
  end; bind_simpl.

(** Decide a boolean test of the goal by arithmetic. *)
Ltac test_lia b :=
  first
    [ replace b with true by len_lia
    | replace b with false by len_lia ].
Ltac if_lia :=
  match goal with
  | |- context [if ?b then _ else _] =>
      lazymatch type of b with bool => test_lia b end
  end; cbv iota.

(** [no_panic] proves that a parser does not panic: every read is shown to be
    in range by arithmetic, every test is split. *)
Ltac no_panic_read m :=
  lazymatch m with
  | @slice ?E ?A ?s ?a ?b =>
      let H := fresh in
      destruct (@slice_in E A s a b) as (? & H & ?); [lia | lia | rewrite H; clear H]
  | @idx ?E ?A ?s ?i =>
      let H := fresh in
      destruct (@idx_in E A s i) as (? & H); [lia | rewrite H]
  | @get_opt ?A ?s ?i =>
      let H := fresh in
      destruct (@get_opt A s i) eqn:H;
      [apply get_opt_Ok_idx in H | done | by apply get_opt_no_panic in H]
  | mbind _ ?m' => no_panic_read m'
  | if ?b then _ else _ => destruct b eqn:?
  end.
Ltac no_panic_step :=
  lazymatch goal with
  | |- ?m <> Panic => no_panic_read m
  end; bind_simpl; cbv zeta.
Ltac no_panic := repeat first [done | no_panic_step].

(** [invert_parser H] splits [H : parser s = Ok o] into its reads and tests. *)
Ltac invert_parser_step H :=
  match type of H with
  | mbind _ ?m = Ok _ =>
      destruct m eqn:?; [bind_simpl_in H | discriminate H | discriminate H]
  | (if ?b then _ else _) = Ok _ => destruct b eqn:?; try discriminate H
  | (let _ := _ in _) = Ok _ => cbv zeta in H
  | (let '(_, _) := ?p in _) = Ok _ => destruct p eqn:?
  | (match ?p with (_, _) => _ end) = Ok _ => destruct p eqn:?
  end
with bind_simpl_in H := cbn [mbind res_bind mret res_ret fmap res_fmap map_err ok_or] in H.
Ltac invert_parser H := repeat (invert_parser_step H).

(** Consecutive reads of one buffer are the buffer. *)
Ltac glue_read :=
  first [ eassumption | eapply idx_slice; [eassumption | reflexivity] ].
Ltac glue :=
  eapply (slice_full_inv (E := unit));
  [ repeat first [ glue_read | eapply slice_cat; [glue_read | ] ] | lia ].

Lemma slice_arr {E} s a b x n :
  wf_bytes s -> @slice E Z s a b = Ok x -> b - a = n -> arr n x.
Proof.
  intros Hw Hs <-. split; [by eapply slice_Ok_len | by eapply slice_Forall].
Qed.

Lemma idx_u8 {E} s i x : wf_bytes s -> @idx E Z s i = Ok x -> u8 x.
Proof. intros Hw Hs. by eapply idx_Forall. Qed.

Lemma arr_le_val n s : arr n s -> 0 <= le_val s < 2 ^ (8 * n).
Proof. intros [<- ?]. by apply le_val_bound. Qed.

(** A byte that passed an equality test is that constant. *)
Ltac subst_tags :=
  repeat match goal with
  | H : negb (?b =? ?c) = false |- _ =>
      is_var b; assert (b = c) by lia; subst b; clear H
  end.

Ltac arr_solve :=
  cbn -[le_val];
  lazymatch goal with
  | |- arr _ ?x => eapply slice_arr; [eassumption | eassumption | lia]
  | |- u8 ?x => eapply idx_u8; eassumption
  | |- u64 (le_val ?x) =>
      apply (arr_le_val 8); eapply slice_arr; [eassumption | eassumption | lia]
  | |- u32 (le_val ?x) =>
      apply (arr_le_val 4); eapply slice_arr; [eassumption | eassumption | lia]
  end.

(** The re-encoding of what a parser read, as the buffer it read. *)
Ltac glue_fields :=
  rewrite ?(le_bytes_val_n 8), ?(le_bytes_val_n 4), ?(le_bytes_val_n 2) by arr_solve; glue.

(** Decidable facts about concrete values. *)
Ltac decided := apply (bool_decide_unpack _); vm_compute; exact I.

(** Concrete well-formedness goals, by evaluation. *)
Ltac wf_compute :=
  repeat match goal with
  | |- _ /\ _ => split
  | |- Forall _ [] => constructor
  | |- Forall _ (_ :: _) => constructor
  | |- arr _ _ => apply arr_check; vm_compute; reflexivity
  | |- wf_bytes _ => apply wf_bytes_check; vm_compute; reflexivity
  | |- u8 _ => vm_compute; split; congruence
  | |- u32 _ => vm_compute; split; congruence
  | |- u64 _ => vm_compute; split; congruence
  | |- _ <= _ => vm_compute; congruence
  | |- _ < _ => vm_compute; reflexivity
  end.

(** ** Maps built by a loop of insertions *)
Section insertions.
Context {K V : Type} `{Countable K}.
Implicit Types (m : gmap K V) (l : list (K * V)).

Lemma foldl_insert_list l : NoDup l.*1 -> forall m, (forall k, k ∈ l.*1 -> m !! k = None) ->
  foldl (fun m kv => <[kv.1 := kv.2]> m) m l = list_to_map l ∪ m.
Proof.
  induction l as [|[k e] l IH]; intros Hn m Hm; cbn; [by rewrite map_empty_union|].
  apply NoDup_cons in Hn as [Hk Hn]. rewrite IH; [|done|].
  - rewrite <- insert_union_l, <- insert_union_r; [done|]. by apply not_elem_of_list_to_map_1.
  - intros k' Hk'. rewrite lookup_insert_ne by (intros ->; done). apply Hm. cbn. by right.
Qed.

(** Inserting the entries of a map, in whatever order, gives the map. *)
Lemma foldl_insert_perm m l :
  l ≡ₚ map_to_list m -> foldl (fun m kv => <[kv.1 := kv.2]> m) ∅ l = m.
Proof.
  intros Hl. assert (NoDup l.*1) by (rewrite Hl; apply NoDup_fst_map_to_list).
  rewrite foldl_insert_list; [|done | by intros; apply lookup_empty].
  rewrite map_union_empty, <- (list_to_map_to_list m). by apply list_to_map_proper.
Qed.
End insertions.

(** ** Checks: code that ends with the first error *)

(** [if !b { return Err(e) }] *)
Definition ensure {E} (b : bool) (e : E) : res E unit := if b then Ok tt else Err e.

Lemma ensure_ok {E} b (e : E) u : ensure b e = Ok u <-> b = true.
Proof. destruct b, u; cbn; split; by intros. Qed.

(** A loop that ends with the first error. *)
Fixpoint check_all {E A} (f : A -> res E unit) (l : list A) : res E unit :=
  match l with
  | [] => Ok tt
  | a :: l => _ ← f a; check_all f l
  end.

(** A loop that threads a value. *)
Fixpoint fold_res {E A B} (f : B -> A -> res E B) (b : B) (l : list A) : res E B :=
  match l with
  | [] => Ok b
  | a :: l => b ← f b a; fold_res f b l
  end.

Lemma check_all_ok {E A} (f : A -> res E unit) l : check_all f l = Ok tt <-> Forall (fun a => f a = Ok tt) l.
Proof.
  induction l as [|a l IH]; cbn; [split; [constructor | done]|]. rewrite Forall_cons, <- IH.
  destruct (f a) as [[]| |]; cbn [mbind res_bind]; split; naive_solver.
Qed.

(** The next test or read of an accepted computation. *)
Ltac accepted_step H :=
  match type of H with
  | (if ?b then Err _ else _) = Ok _ => destruct b eqn:?; [discriminate H|]
  | (_ ← ok_or ?o _; _) = Ok _ => destruct o eqn:?; [|discriminate H]
  | (_ ← ensure ?b _; _) = Ok _ => destruct b eqn:?; [|discriminate H]
  | (_ ← ?m; _) = Ok _ => destruct m eqn:?; [|discriminate H..]
  end; cbn [mbind res_bind ok_or ensure] in H.
