(* ===== verification/Crypto.v ===== *)
(** * Crypto: the cryptographic crates the node calls

    SHA-256, RIPEMD-160 and scrypt (crates [sha2], [ripemd], [scrypt]) and ECDSA over secp256k1
    (crate [k256]) are not part of the repository: they are the operations of
    the class [Crypto], an argument of every definition that uses them.  What
    the code relies on is the class [CryptoLaws]: a digest is an array of the
    documented width.  Nothing is assumed about collisions or forgery.

    On top of them: [sha256d] and [header_hash] ([src/src/pow.rs]) and
    [hash160] ([src/src/chain.rs]). *)

From Stdlib Require Import Strings.Byte NArith.
From S2P Require Import Prelude.

Class Crypto := {
  sha256 : bytes -> bytes;
  ripemd160 : bytes -> bytes;
  (** crate [scrypt], with Litecoin's parameters *)
  scrypt_hash : bytes -> bytes;
  (** [k256::ecdsa]: a parsed signature and a parsed public key *)
  Signature : Type;
  VerifyingKey : Type;
  Signature_from_der : bytes -> option Signature;
  (** the fixed-width form, 64 bytes *)
  Signature_from_slice : bytes -> option Signature;
  (** [signature.normalize_s().is_some()]: the signature has a high [s] *)
  normalize_s_is_some : Signature -> bool;
  VerifyingKey_from_sec1_bytes : bytes -> option VerifyingKey;
  verify_prehash : VerifyingKey -> bytes -> Signature -> bool
}.

Class CryptoLaws (C : Crypto) : Prop := {
  sha256_arr : forall x, arr 32 (sha256 x);
  ripemd160_arr : forall x, arr 20 (ripemd160 x)
}.

(** Signing, for the parts of the code that sign ([k256::ecdsa::SigningKey]):
    the compressed public key and the 64-byte signature of a digest.  What the
    code relies on: a key's signature verifies under its public key. *)
Class Signer (C : Crypto) := {
  SigningKey : Type;
  public_key : SigningKey -> bytes;
  sign_prehash : SigningKey -> bytes -> bytes
}.

Class SignerLaws {C : Crypto} (S : Signer C) : Prop := {
  public_key_arr sk : arr 33 (public_key sk);
  sign_prehash_arr sk d : arr 32 d -> arr 64 (sign_prehash sk d);
  sign_verifies sk d : arr 32 d -> exists vk sg,
    VerifyingKey_from_sec1_bytes (public_key sk) = Some vk /\
    Signature_from_slice (sign_prehash sk d) = Some sg /\ verify_prehash vk d sg = true
}.

Section derived.
Context `{C : Crypto}.

Definition sha256d (data : bytes) : bytes := sha256 (sha256 data).

Definition header_hash (parts : list bytes) : bytes := sha256d (concat parts).

Definition hash160 (data : bytes) : bytes := ripemd160 (sha256 data).

Context {CL : CryptoLaws C}.

Lemma sha256d_arr x : arr 32 (sha256d x).
Proof. apply sha256_arr. Qed.

Lemma header_hash_arr x : arr 32 (header_hash x).
Proof. apply sha256_arr. Qed.

Lemma hash160_arr x : arr 20 (hash160 x).
Proof. apply ripemd160_arr. Qed.
End derived.

(** ** A concrete instance

    A toy instance on which the definitions run: the digest is a polynomial
    of the input, a signature is accepted when it equals the key (or its last 32
    bytes) followed by the digest. It is used by the concrete examples only. *)
Definition toy_digest (n : nat) (x : bytes) : bytes :=
  let mask := Z.ones (8 * Z.of_nat n) in le_bytes n (fold_left (fun acc b => Z.land (acc * 257 + b + 1) mask) x 5381).

#[export] Instance toy_crypto : Crypto := {|
  sha256 := toy_digest 32;
  ripemd160 := toy_digest 20;
  scrypt_hash := toy_digest 32;
  Signature := bytes;
  VerifyingKey := bytes;
  Signature_from_der := fun der => if len der =? 65 then Some der else None;
  Signature_from_slice := fun raw => if len raw =? 64 then Some raw else None;
  normalize_s_is_some := fun _ => false;
  VerifyingKey_from_sec1_bytes := fun pk => if len pk =? 33 then Some pk else None;
  verify_prehash := fun vk digest sg => beqb sg (vk ++ digest) || beqb sg (drop 1 vk ++ digest)
|}.

Lemma toy_digest_arr n x : arr (Z.of_nat n) (toy_digest n x).
Proof. split; [apply len_le_bytes | apply wf_le_bytes]. Qed.

#[export] Instance toy_crypto_laws : CryptoLaws toy_crypto.
Proof.
  split; [intros x; apply (toy_digest_arr 32) | intros x; apply (toy_digest_arr 20)].
Qed.

(** A toy key is a byte. *)
#[export] Instance toy_signer : Signer toy_crypto := {|
  SigningKey := Byte.byte;
  public_key := fun k => replicate 33 (Z.of_N (Byte.to_N k));
  sign_prehash := fun k d => replicate 32 (Z.of_N (Byte.to_N k)) ++ d
|}.

Lemma toy_key_arr k n : arr (Z.of_nat n) (replicate n (Z.of_N (Byte.to_N k))).
Proof.
  split; [unfold len; by rewrite length_replicate|]. apply Forall_replicate. unfold u8.
  pose proof (Byte.to_N_bounded k). lia.
Qed.

#[export] Instance toy_signer_laws : SignerLaws toy_signer.
Proof.
  split.
  - intros k. apply (toy_key_arr k 33).
  - intros k d [Hl Hw]. destruct (toy_key_arr k 32) as [Hk Hkw]. split; cbn [sign_prehash toy_signer].
    + rewrite len_app, Hk, Hl. done.
    + by apply Forall_app.
  - intros k d [Hl Hw]. destruct (toy_key_arr k 33) as [Hk _], (toy_key_arr k 32) as [Hk' _].
    eexists _, _. cbn [VerifyingKey_from_sec1_bytes Signature_from_slice verify_prehash public_key sign_prehash
      toy_crypto toy_signer]. rewrite Hk, len_app, Hk', Hl. split_and!; [reflexivity..|].
    apply orb_true_iff. right. unfold beqb. by apply bool_decide_eq_true.
Qed.
