(* ===== verification/Wire.v ===== *)
(** * Wire: records of fixed width

    PoAW-X is a family of records with hand-written encoders and decoders
    ([poawx*.rs]).  A decoder walks over its input with an offset: [rd] takes
    the next [n] bytes ([raw[off..off + n]], a panic when they are not there),
    [need] refuses when fewer than [n] bytes are left.  Here the offset is kept
    as the bytes that are still unread.

    [Wire] is what a record offers to the records that contain it, and
    [ExactWire] and [FixedWire] what it promises: writing and reading are
    inverse, a decoder never panics, and a fixed record has its width. *)

From S2P Require Import Prelude.

(** ** Readers *)
Definition rd {E} (n : Z) (raw : bytes) : res E (bytes * bytes) :=
  if (0 <=? n) && (n <=? len raw) then Ok (take (Z.to_nat n) raw, drop (Z.to_nat n) raw) else Panic.

Definition rd_u8 {E} (raw : bytes) : res E (Z * bytes) :=
  match raw with b :: raw => Ok (b, raw) | [] => Panic end.

(** [from_le_bytes] of the next [n] bytes. *)
Definition rd_le {E} (n : Z) (raw : bytes) : res E (Z * bytes) := '(s, raw) ← rd n raw; Ok (le_val s, raw).

Definition need (n : Z) (e : string) (raw : bytes) : res string unit :=
  if len raw <? n then Err e else Ok tt.

Section readers.
Context {E : Type}.

Lemma rd_app n x t : len x = n -> @rd E n (x ++ t) = Ok (x, t).
Proof.
  intros <-. unfold rd. rewrite len_app. pose proof (len_nonneg x). pose proof (len_nonneg t).
  replace (_ && _) with true by lia. unfold len. by rewrite Nat2Z.id, take_app_length, drop_app_length.
Qed.

Lemma rd_le_app n v t : 0 <= v < 2 ^ (8 * Z.of_nat n) -> @rd_le E (Z.of_nat n) (le_bytes n v ++ t) = Ok (v, t).
Proof. intros Hv. unfold rd_le. rewrite rd_app by apply len_le_bytes. cbn. by rewrite le_val_bytes. Qed.

Lemma rd_le2_app v t : u16 v -> @rd_le E 2 (le_bytes 2 v ++ t) = Ok (v, t).
Proof. intros Hv. by apply (rd_le_app 2). Qed.
Lemma rd_le4_app v t : u32 v -> @rd_le E 4 (le_bytes 4 v ++ t) = Ok (v, t).
Proof. intros Hv. by apply (rd_le_app 4). Qed.
Lemma rd_le8_app v t : u64 v -> @rd_le E 8 (le_bytes 8 v ++ t) = Ok (v, t).
Proof. intros Hv. by apply (rd_le_app 8). Qed.

Lemma rd_inv n raw x t : @rd E n raw = Ok (x, t) -> raw = x ++ t /\ len x = n.
Proof.
  unfold rd. destruct (_ && _) eqn:Hb; [|done]. intros [= <- <-]. rewrite take_drop. split; [done|].
  unfold len in *. rewrite length_take. lia.
Qed.

Lemma rd_u8_inv raw b t : @rd_u8 E raw = Ok (b, t) -> raw = [b] ++ t.
Proof. destruct raw; [done|]. by intros [= <- <-]. Qed.

Lemma rd_le_inv n raw v t : @rd_le E n raw = Ok (v, t) ->
  exists x, raw = x ++ t /\ len x = n /\ v = le_val x.
Proof.
  unfold rd_le. destruct (rd n raw) as [[x t']| |] eqn:Hr; [|done|done]. intros [= <- <-].
  apply rd_inv in Hr as [? ?]. by exists x.
Qed.

Lemma rd_in n raw : 0 <= n <= len raw -> exists x t, @rd E n raw = Ok (x, t) /\ len x = n /\ len t = len raw - n.
Proof.
  intros Hn. unfold rd. replace (_ && _) with true by lia. eexists _, _. split; [done|].
  unfold len in *. rewrite length_take, length_drop. lia.
Qed.

Lemma rd_u8_in raw : 1 <= len raw -> exists b t, @rd_u8 E raw = Ok (b, t) /\ len t = len raw - 1.
Proof. destruct raw as [|b t]; [by cbn|]. intros _. exists b, t. rewrite len_cons. split; [done|lia]. Qed.

Lemma rd_le_in n raw : 0 <= n <= len raw -> exists v t, @rd_le E n raw = Ok (v, t) /\ len t = len raw - n.
Proof.
  intros Hn. destruct (rd_in n raw Hn) as (x & t & Hr & _ & Ht). exists (le_val x), t. unfold rd_le. by rewrite Hr.
Qed.
End readers.

Lemma need_ok n e raw : n <= len raw -> need n e raw = Ok tt.
Proof. intros Hn. unfold need. by replace (_ <? _) with false by lia. Qed.
Lemma need_inv n e raw u : need n e raw = Ok u -> n <= len raw.
Proof. unfold need. case_match; [done|]. lia. Qed.

Lemma wf_app s t : wf_bytes (s ++ t) <-> wf_bytes s /\ wf_bytes t.
Proof. apply Forall_app. Qed.

Lemma wf_one z : wf_bytes [z] -> u8 z.
Proof. intros H. by inversion H. Qed.

(** ** Interfaces *)
Class Wire (A : Type) := {
  to_wire : A -> bytes;
  of_wire : bytes -> res string A;
  wire_ok : A -> Prop
}.

Class ExactWire {A} (W : Wire A) : Prop := {
  wire_read a : wire_ok a -> of_wire (to_wire a) = Ok a;
  wire_canonical raw a : wf_bytes raw -> of_wire raw = Ok a -> wire_ok a /\ to_wire a = raw;
  wire_total raw : of_wire raw <> Panic
}.

Class FixedWire {A} (W : Wire A) (n : Z) : Prop := {
  fixed_exact :: ExactWire W;
  fixed_len a : wire_ok a -> len (to_wire a) = n
}.

(** Fixed records one after the other: each is announced by [need]. *)
Fixpoint read_fixed {A} `{W : Wire A} (n : Z) (e : string) (count : nat) (raw : bytes)
    : res string (list A * bytes) :=
  match count with
  | O => Ok ([], raw)
  | S count =>
      _ ← need n e raw;
      '(s, raw) ← rd n raw;
      a ← of_wire s;
      '(xs, raw) ← read_fixed n e count raw;
      Ok (a :: xs, raw)
  end.

(** The same where the length of the input was checked before. *)
Fixpoint read_list {A} `{W : Wire A} (n : Z) (count : nat) (raw : bytes) : res string (list A) :=
  match count with
  | O => Ok []
  | S count =>
      '(s, raw) ← rd n raw;
      a ← of_wire s;
      xs ← read_list n count raw;
      Ok (a :: xs)
  end.

Definition write_all {A} `{W : Wire A} (xs : list A) : bytes := concat (to_wire <$> xs).

Lemma write_all_cons {A} {W : Wire A} a xs : write_all (a :: xs) = to_wire a ++ write_all xs.
Proof. done. Qed.

Section fixed.
Context {A} {W : Wire A} (n : Z) {F : FixedWire W n} (e : string).

Lemma len_write_all xs : Forall wire_ok xs -> len (write_all xs) = n * len xs.
Proof.
  induction 1 as [|a xs Ha _ IH]; [change (0 = n * 0); lia|]. unfold write_all in *. cbn.
  rewrite len_app, (fixed_len a Ha), IH, len_cons. lia.
Qed.

Lemma read_fixed_app xs t : Forall wire_ok xs ->
  read_fixed n e (length xs) (write_all xs ++ t) = Ok (xs, t).
Proof.
  induction 1 as [|a xs Ha _ IH]; [done|]. unfold write_all in *. cbn [read_fixed length fmap list_fmap concat].
  rewrite <- app_assoc.
  pose proof (fixed_len a Ha) as Hn. rewrite need_ok; [cbn [mbind res_bind]|].
  - rewrite rd_app by done. cbn [mbind res_bind]. rewrite (wire_read a Ha). cbn [mbind res_bind]. by rewrite IH.
  - rewrite len_app. pose proof (len_nonneg (concat (to_wire <$> xs) ++ t)). lia.
Qed.

Lemma read_fixed_inv count : forall raw xs t, wf_bytes raw -> read_fixed n e count raw = Ok (xs, t) ->
  length xs = count /\ Forall wire_ok xs /\ raw = write_all xs ++ t /\ wf_bytes t.
Proof.
  induction count as [|count IH]; intros raw xs t Hw H; cbn [read_fixed] in H.
  - injection H as <- <-. split_and!; [done | constructor | done | done].
  - destruct (need n e raw); [cbn in H | done | done].
    destruct (rd n raw) as [[s raw']| |] eqn:Hr; [cbn [mbind res_bind] in H | done | done].
    apply rd_inv in Hr as [-> _]. apply wf_app in Hw as [Hs Hw].
    destruct (of_wire s) as [v| |] eqn:Ha; [cbn [mbind res_bind] in H | done | done].
    destruct (read_fixed n e count raw') as [[xs' t']| |] eqn:Hx; [cbn in H | done | done].
    injection H as <- <-. apply (wire_canonical _ _ Hs) in Ha as [Ha <-].
    destruct (IH _ _ _ Hw Hx) as (<- & Hok & -> & Ht). unfold write_all. cbn.
    rewrite app_assoc. split_and!; [done | by constructor | done | done].
Qed.

Lemma read_list_app xs : Forall wire_ok xs -> read_list n (length xs) (write_all xs) = Ok xs.
Proof.
  induction 1 as [|a xs Ha _ IH]; [done|]. rewrite write_all_cons. cbn [read_list length].
  rewrite rd_app by exact (fixed_len a Ha). cbn [mbind res_bind]. rewrite (wire_read a Ha). cbn [mbind res_bind].
  by rewrite IH.
Qed.

Lemma read_list_inv count : forall raw xs, wf_bytes raw -> len raw = Z.of_nat count * n ->
  read_list n count raw = Ok xs -> Forall wire_ok xs /\ write_all xs = raw /\ length xs = count.
Proof.
  induction count as [|count IH]; intros raw xs Hw Hl H; cbn [read_list] in H.
  - injection H as <-. split_and!; [constructor | symmetry; apply len_0_nil; lia | done].
  - destruct (rd n raw) as [[s raw']| |] eqn:Hr; [cbn [mbind res_bind] in H | done | done].
    apply rd_inv in Hr as [-> Hs]. apply wf_app in Hw as [Hws Hw]. rewrite len_app in Hl.
    destruct (of_wire s) as [v| |] eqn:Ha; [cbn [mbind res_bind] in H | done | done].
    destruct (read_list n count raw') as [vs| |] eqn:Hx; [cbn in H | done | done]. injection H as <-.
    apply (wire_canonical _ _ Hws) in Ha as [Ha <-].
    destruct (IH _ _ Hw ltac:(lia) Hx) as (Hok & Hcat & <-).
    split_and!; [by constructor | by rewrite write_all_cons, Hcat | done].
Qed.

Lemma read_list_total (Hn : 0 <= n) count : forall raw, len raw = Z.of_nat count * n -> read_list n count raw <> Panic.
Proof.
  induction count as [|count IH]; intros raw Hl; [done|]. cbn [read_list].
  destruct (@rd_in string n raw) as (x & t & -> & _ & Ht); [lia|]. cbn [mbind res_bind].
  pose proof (wire_total x). destruct (of_wire x); [cbn [mbind res_bind] | done | done].
  specialize (IH t ltac:(lia)). by destruct (read_list n count t).
Qed.

Lemma read_fixed_total (Hn : 0 <= n) count : forall raw, read_fixed n e count raw <> Panic.
Proof.
  induction count as [|count IH]; intros raw; [done|]. cbn [read_fixed].
  destruct (need n e raw) as [u| |] eqn:Hneed; [|done|by unfold need in Hneed; case_match].
  apply need_inv in Hneed. cbn [mbind res_bind]. destruct (@rd_in string n raw) as (x & t & -> & _); [lia|].
  cbn [mbind res_bind]. pose proof (wire_total x). destruct (of_wire x); [cbn | done | done].
  specialize (IH t). by destruct (read_fixed n e count t) as [[]| |].
Qed.
End fixed.

(** ** Tactics

    [wire_read] shows that a decoder reads what the encoder wrote,
    [wire_inv H] turns [H : decoder raw = Ok a] into the fields of [raw],
    [reads_total] shows that the reads of a decoder are in range. *)
Ltac res_simpl := cbn [mbind res_bind mret res_ret fmap res_fmap map_err ok_or].
Ltac res_simpl_in H := cbn [mbind res_bind mret res_ret fmap res_fmap map_err ok_or] in H.

Ltac read_field :=
  first
    [ rewrite rd_le8_app by assumption | rewrite rd_le4_app by assumption | rewrite rd_le2_app by assumption
    | match goal with |- context [rd_u8 ([?b] ++ ?t)] => change (@rd_u8 ?E ([b] ++ t)) with (@Ok E _ (b, t)) end
    | rewrite rd_app by (first [assumption | len_lia]) ]; res_simpl.

Ltac inv_read H :=
  first
    [ apply rd_u8_inv in H
    | let x := fresh "x" in let Hl := fresh in apply rd_le_inv in H as (x & H & Hl & ->)
    | let Hl := fresh in apply rd_inv in H as [H Hl] ].

Ltac wire_inv_step H :=
  match type of H with
  | mbind _ ?m = Ok _ =>
      let Hm := fresh "Hr" in let p := fresh "p" in
      destruct m as [p| |] eqn:Hm; [res_simpl_in H | discriminate H | discriminate H];
      try (match type of p with (_ * _)%type => destruct p end); try inv_read Hm
  | (if ?b then _ else _) = Ok _ => destruct b eqn:?; try discriminate H
  | (let _ := _ in _) = Ok _ => cbv zeta in H
  | (match ?p with (_, _) => _ end) = Ok _ => destruct p
  end.
Ltac wire_inv H := repeat (wire_inv_step H).

Lemma le_bytes_read n x : len x = Z.of_nat n -> wf_bytes x -> le_bytes n (le_val x) = x.
Proof. intros Hl Hw. by apply le_bytes_val_n. Qed.

(** The fields of the buffer: the bytes left over are none, every field is
    well formed and is written as it was read. *)
Ltac wire_rest :=
  match goal with
  | H : context [len ?t], W : wf_bytes ?t |- _ =>
      is_var t; assert (t = []) by (apply len_0_nil; pose_len_nonneg; lia); subst t; clear W
  end.
Ltac wire_leaf :=
  lazymatch goal with
  | |- u8 ?z => apply wf_one; assumption
  | |- u64 (le_val ?x) => apply (arr_le_val 8); by split
  | |- u32 (le_val ?x) => apply (arr_le_val 4); by split
  | |- u16 (le_val ?x) => apply (arr_le_val 2); by split
  | |- arr _ _ => split; assumption
  end.
Ltac wire_unread :=
  rewrite ?(le_bytes_read 8), ?(le_bytes_read 4), ?(le_bytes_read 2) by assumption.
Ltac wire_split Hw := subst; repeat (apply wf_app in Hw as [? Hw]).

Ltac total_read m :=
  lazymatch m with
  | mbind _ ?m' => total_read m'
  | rd ?n ?raw =>
      let H := fresh in
      destruct (@rd_in string n raw) as (? & ? & H & ? & ?); [lia | rewrite H; clear H]
  | rd_u8 ?raw =>
      let H := fresh in
      destruct (@rd_u8_in string raw) as (? & ? & H & ?); [lia | rewrite H; clear H]
  | rd_le ?n ?raw =>
      let H := fresh in
      destruct (@rd_le_in string n raw) as (? & ? & H & ?); [lia | rewrite H; clear H]
  | (if ?b then _ else _) => destruct b eqn:?
  | @read_list ?A ?W ?n (Z.to_nat ?c) ?raw =>
      let Hn := fresh in pose proof (len_nonneg raw) as Hn;
      let H := fresh in
      pose proof (read_list_total (W := W) n ltac:(lia) (Z.to_nat c) raw ltac:(lia)) as H;
      destruct (@read_list A W n (Z.to_nat c) raw); [clear H | done | done]
  | @of_wire ?A ?W ?s =>
      let H := fresh in
      pose proof (wire_total (W := W) s) as H; destruct (@of_wire A W s); [clear H | done | done]
  end.
Ltac reads_total_step := lazymatch goal with |- ?m <> Panic => total_read m end; res_simpl; cbv zeta.
Ltac reads_total := repeat first [done | reads_total_step].

Ltac eval_width H :=
  lazymatch type of H with _ = ?w => let v := eval vm_compute in w in change w with v in H end.

(** The laws of a record all of whose fields have a fixed width. *)
Ltac fixed_len ser := intros ? []; unfold ser, arr in *; destruct_and?; len_lia.
Ltac fixed_read Hlen ser des :=
  let a := fresh "a" in let Ha := fresh "Ha" in
  intros a Ha; unfold des; rewrite (Hlen a Ha); cbn [negb Z.ltb Z.eqb Z.compare Pos.eqb Pos.compare Pos.compare_cont];
  rewrite <- (app_nil_r (ser a)); unfold ser; rewrite <- ?app_assoc; destruct Ha; unfold arr in *; destruct_and?;
  repeat read_field; destruct a; reflexivity.
Ltac fixed_canonical des ser :=
  let raw := fresh "raw" in let a := fresh "a" in let Hw := fresh "Hw" in let H := fresh "H" in
  let Hl := fresh "Hl" in
  intros raw a Hw H; unfold des in H; wire_inv H; injection H as <-;
  match goal with E : negb (len raw =? _) = false |- _ => apply negb_false_iff, Z.eqb_eq in E; rename E into Hl end;
  eval_width Hl;
  wire_split Hw; autorewrite with lens in Hl; wire_rest;
  split; [constructor; cbn; wire_leaf | unfold ser; cbn -[le_bytes le_val app]; wire_unread; rewrite ?app_nil_r; reflexivity].
Ltac fixed_total des :=
  let raw := fresh "raw" in let E := fresh "E" in
  intros raw; unfold des; destruct (negb (len raw =? _)) eqn:E; [done|];
  apply negb_false_iff, Z.eqb_eq in E;
  eval_width E; reads_total.
