(* ===== verification/Script.v ===== *)
(** * Script: the output scripts of [src/src/tx.rs]

    The output types an Irium transaction can pay to (P2PKH, HTLCv1, MPSOv1,
    the BTC and LTC swap HTLCs and the BTC and LTC swap orders), the encoder
    and the parser of each and the dispatcher [parse_output_encumbrance].
    Every parser indexes its input the way the Rust function does, so an
    index out of range is the outcome [Panic].

    Shown here: no parser panics on any input, each parser inverts its
    encoder, each accepted script is the encoding of what was parsed (one
    script per value: no malleability), and the dispatcher finds every
    encoded output. *)

From S2P Require Import Prelude.

(** ** Constants of the script formats *)
Definition HTLC_V1_SCRIPT_TAG : Z := 0xc0.
Definition HTLC_V1_VERSION : Z := 1.
Definition HTLC_V1_HASHALG_SHA256 : Z := 1.
Definition HTLC_V1_SCRIPT_LEN : Z := 83.

Definition MPSO_V1_TAG : Z := 0xc1.
Definition MPSO_V1_MAX_SCRIPT_SIZE : Z := 640.
Definition MPSO_V1_MAX_WITNESS_SIZE : Z := 768.

Definition HTLC_BTC_SWAP_V1_TAG : Z := 0xc3.
Definition HTLC_BTC_SWAP_V1_VERSION : Z := 1.
Definition HTLC_BTC_SWAP_V1_SCRIPT_LEN : Z := 87.

Definition HTLC_LTC_SWAP_V1_TAG : Z := 0xc7.
Definition HTLC_LTC_SWAP_V1_VERSION : Z := 1.
Definition HTLC_LTC_SWAP_V1_SCRIPT_LEN : Z := 87.

Definition SWAP_ORDER_V1_TAG : Z := 0xc5.
Definition SWAP_ORDER_V1_VERSION : Z := 1.
Definition SWAP_ORDER_DIRECTION_SELL : Z := 0x01.
Definition SWAP_ORDER_DIRECTION_BUY : Z := 0x02.
Definition SWAP_ORDER_SELL_SCRIPT_LEN : Z := 76.
Definition SWAP_ORDER_BUY_SCRIPT_LEN : Z := 108.

Definition LTC_SWAP_ORDER_V1_TAG : Z := 0xc8.
Definition LTC_SWAP_ORDER_V1_VERSION : Z := 1.
Definition LTC_SWAP_ORDER_DIRECTION_SELL : Z := 0x01.
Definition LTC_SWAP_ORDER_DIRECTION_BUY : Z := 0x02.
Definition LTC_SWAP_ORDER_SELL_SCRIPT_LEN : Z := 76.
Definition LTC_SWAP_ORDER_BUY_SCRIPT_LEN : Z := 108.

(** ** Output types *)
Record HtlcV1Output := {
  h1_expected_hash : bytes;
  h1_recipient_pkh : bytes;
  h1_refund_pkh : bytes;
  h1_timeout_height : Z
}.

Record MpsoV1Output := {
  mp_flags : Z;
  mp_claim_n : Z;
  mp_claim_m : Z;
  mp_refund_n : Z;
  mp_refund_m : Z;
  mp_agreement_hash : bytes;
  mp_claim_pubkeys : list bytes;
  mp_refund_pubkeys : list bytes;
  mp_timeout_height : Z;
  mp_optional_hash : option bytes
}.

Record HtlcBtcSwapV1Output := {
  hb_confirmations_required : Z;
  hb_recipient_pkh : bytes;
  hb_refund_pkh : bytes;
  hb_btc_recipient_pkh : bytes;
  hb_btc_amount_sats : Z;
  hb_timeout_height : Z;
  hb_funding_binding : bytes
}.

Record HtlcLtcSwapV1Output := {
  hl_confirmations_required : Z;
  hl_recipient_pkh : bytes;
  hl_refund_pkh : bytes;
  hl_ltc_recipient_pkh : bytes;
  hl_ltc_amount_sats : Z;
  hl_timeout_height : Z;
  hl_funding_binding : bytes
}.

Record SwapOrderOutput := {
  so_direction : Z;
  so_confirmations_required : Z;
  so_irm_amount : Z;
  so_btc_amount_sats : Z;
  so_maker_iriumd_pkh : bytes;
  so_maker_btc_pkh : bytes;
  so_expiry_height : Z;
  so_order_id : bytes;
  so_expected_hash : option bytes
}.

Record LtcSwapOrderOutput := {
  lo_direction : Z;
  lo_confirmations_required : Z;
  lo_irm_amount : Z;
  lo_ltc_amount_sats : Z;
  lo_maker_iriumd_pkh : bytes;
  lo_maker_ltc_pkh : bytes;
  lo_expiry_height : Z;
  lo_order_id : bytes;
  lo_expected_hash : option bytes
}.

Inductive OutputEncumbrance :=
| EncP2pkh (pkh : bytes)
| EncHtlcV1 (o : HtlcV1Output)
| EncMpsoV1 (o : MpsoV1Output)
| EncHtlcBtcSwapV1 (o : HtlcBtcSwapV1Output)
| EncHtlcLtcSwapV1 (o : HtlcLtcSwapV1Output)
| EncSwapOrder (o : SwapOrderOutput)
| EncLtcSwapOrder (o : LtcSwapOrderOutput)
| EncUnknown.

(** ** P2PKH *)
Definition p2pkh_script (pkh : bytes) : bytes :=
  [0x76] ++ [0xa9] ++ [0x14] ++ pkh ++ [0x88] ++ [0xac].

Definition parse_p2pkh_script (script : bytes) : opt bytes :=
  if negb (len script =? 25) then NoneR else
  b0 ← idx script 0;
  b1 ← idx script 1;
  b2 ← idx script 2;
  if negb (b0 =? 0x76) || negb (b1 =? 0xa9) || negb (b2 =? 0x14) then NoneR else
  b23 ← idx script 23;
  b24 ← idx script 24;
  if negb (b23 =? 0x88) || negb (b24 =? 0xac) then NoneR else
  slice script 3 23.

(** ** HTLCv1 *)
Definition encode_htlcv1_script (output : HtlcV1Output) : bytes :=
  [HTLC_V1_SCRIPT_TAG] ++ [HTLC_V1_VERSION] ++ [HTLC_V1_HASHALG_SHA256] ++
  h1_expected_hash output ++
  h1_recipient_pkh output ++
  h1_refund_pkh output ++
  le_bytes 8 (h1_timeout_height output).

Definition parse_htlcv1_script (script : bytes) : opt HtlcV1Output :=
  if negb (len script =? HTLC_V1_SCRIPT_LEN) then NoneR else
  b0 ← idx script 0;
  if negb (b0 =? HTLC_V1_SCRIPT_TAG) then NoneR else
  b1 ← idx script 1;
  if negb (b1 =? HTLC_V1_VERSION) then NoneR else
  b2 ← idx script 2;
  if negb (b2 =? HTLC_V1_HASHALG_SHA256) then NoneR else
  expected_hash ← slice script 3 35;
  recipient_pkh ← slice script 35 55;
  refund_pkh ← slice script 55 75;
  timeout_bytes ← slice script 75 83;
  Ok {| h1_expected_hash := expected_hash;
        h1_recipient_pkh := recipient_pkh;
        h1_refund_pkh := refund_pkh;
        h1_timeout_height := le_val timeout_bytes |}.

(** ** MPSOv1 *)
Definition encode_mpso_script (o : MpsoV1Output) : bytes :=
  [MPSO_V1_TAG] ++ [0x01] ++ [mp_flags o] ++ [0x00] ++
  [mp_claim_n o] ++ [mp_claim_m o] ++ [mp_refund_n o] ++ [mp_refund_m o] ++
  mp_agreement_hash o ++
  concat (mp_claim_pubkeys o) ++
  concat (mp_refund_pubkeys o) ++
  le_bytes 8 (mp_timeout_height o) ++
  match mp_optional_hash o with Some h => h | None => [] end.

(** The loop [for _ in 0..n] that reads [n] compressed public keys. *)
Fixpoint parse_pubkeys (script : bytes) (n : nat) (pos : Z) : opt (list bytes * Z) :=
  match n with
  | O => Ok ([], pos)
  | S n =>
      b ← idx script pos;
      if negb (b =? 0x02) && negb (b =? 0x03) then NoneR else
      pk ← slice script pos (pos + 33);
      '(pks, pos') ← parse_pubkeys script n (pos + 33);
      Ok (pk :: pks, pos')
  end.

(** The two nested loops that reject a repeated key. *)
Fixpoint has_duplicate (pks : list bytes) : bool :=
  match pks with
  | [] => false
  | pk :: pks => existsb (beqb pk) pks || has_duplicate pks
  end.

Definition parse_mpso_script (script : bytes) : opt MpsoV1Output :=
  if len script <? 8 then NoneR else
  b0 ← idx script 0;
  if negb (b0 =? MPSO_V1_TAG) then NoneR else
  b1 ← idx script 1;
  if negb (b1 =? 0x01) then NoneR else
  flags ← idx script 2;
  if negb (Z.land flags 0xFE =? 0) then NoneR else
  b3 ← idx script 3;
  if negb (b3 =? 0x00) then NoneR else
  claim_n ← idx script 4;
  claim_m ← idx script 5;
  refund_n ← idx script 6;
  refund_m ← idx script 7;
  if negb ((1 <=? claim_n) && (claim_n <=? 8)) then NoneR else
  if (claim_m <? 1) || (claim_n <? claim_m) then NoneR else
  if negb ((1 <=? refund_n) && (refund_n <=? 8)) then NoneR else
  if (refund_m <? 1) || (refund_n <? refund_m) then NoneR else
  let secret_gate := negb (Z.land flags 0x01 =? 0) in
  let expected_len :=
    48 + (claim_n + refund_n) * 33 + (if secret_gate then 32 else 0) in
  if negb (len script =? expected_len) then NoneR else
  if MPSO_V1_MAX_SCRIPT_SIZE <? len script then NoneR else
  agreement_hash ← slice script 8 40;
  '(claim_pubkeys, pos) ← parse_pubkeys script (Z.to_nat claim_n) 40;
  '(refund_pubkeys, pos) ← parse_pubkeys script (Z.to_nat refund_n) pos;
  if has_duplicate claim_pubkeys then NoneR else
  if has_duplicate refund_pubkeys then NoneR else
  timeout_bytes ← slice script pos (pos + 8);
  let pos := pos + 8 in
  optional_hash ←
    (if secret_gate
     then h ← slice script pos (pos + 32); Ok (Some h)
     else Ok None);
  Ok {| mp_flags := flags;
        mp_claim_n := claim_n;
        mp_claim_m := claim_m;
        mp_refund_n := refund_n;
        mp_refund_m := refund_m;
        mp_agreement_hash := agreement_hash;
        mp_claim_pubkeys := claim_pubkeys;
        mp_refund_pubkeys := refund_pubkeys;
        mp_timeout_height := le_val timeout_bytes;
        mp_optional_hash := optional_hash |}.

(** ** Swap HTLCs *)
Definition encode_htlc_btc_swap_v1_script (o : HtlcBtcSwapV1Output) : bytes :=
  [HTLC_BTC_SWAP_V1_TAG] ++ [HTLC_BTC_SWAP_V1_VERSION] ++
  [hb_confirmations_required o] ++
  hb_recipient_pkh o ++
  hb_refund_pkh o ++
  hb_btc_recipient_pkh o ++
  le_bytes 8 (hb_btc_amount_sats o) ++
  le_bytes 8 (hb_timeout_height o) ++
  hb_funding_binding o.

Definition parse_htlc_btc_swap_v1_script (script : bytes) : opt HtlcBtcSwapV1Output :=
  if negb (len script =? HTLC_BTC_SWAP_V1_SCRIPT_LEN) then NoneR else
  b0 ← idx script 0;
  if negb (b0 =? HTLC_BTC_SWAP_V1_TAG) then NoneR else
  b1 ← idx script 1;
  if negb (b1 =? HTLC_BTC_SWAP_V1_VERSION) then NoneR else
  confirmations_required ← idx script 2;
  recipient_pkh ← slice script 3 23;
  refund_pkh ← slice script 23 43;
  btc_recipient_pkh ← slice script 43 63;
  amount_bytes ← slice script 63 71;
  timeout_bytes ← slice script 71 79;
  funding_binding ← slice script 79 87;
  Ok {| hb_confirmations_required := confirmations_required;
        hb_recipient_pkh := recipient_pkh;
        hb_refund_pkh := refund_pkh;
        hb_btc_recipient_pkh := btc_recipient_pkh;
        hb_btc_amount_sats := le_val amount_bytes;
        hb_timeout_height := le_val timeout_bytes;
        hb_funding_binding := funding_binding |}.

Definition encode_htlc_ltc_swap_v1_script (o : HtlcLtcSwapV1Output) : bytes :=
  [HTLC_LTC_SWAP_V1_TAG] ++ [HTLC_LTC_SWAP_V1_VERSION] ++
  [hl_confirmations_required o] ++
  hl_recipient_pkh o ++
  hl_refund_pkh o ++
  hl_ltc_recipient_pkh o ++
  le_bytes 8 (hl_ltc_amount_sats o) ++
  le_bytes 8 (hl_timeout_height o) ++
  hl_funding_binding o.

Definition parse_htlc_ltc_swap_v1_script (script : bytes) : opt HtlcLtcSwapV1Output :=
  if negb (len script =? HTLC_LTC_SWAP_V1_SCRIPT_LEN) then NoneR else
  b0 ← idx script 0;
  if negb (b0 =? HTLC_LTC_SWAP_V1_TAG) then NoneR else
  b1 ← idx script 1;
  if negb (b1 =? HTLC_LTC_SWAP_V1_VERSION) then NoneR else
  confirmations_required ← idx script 2;
  recipient_pkh ← slice script 3 23;
  refund_pkh ← slice script 23 43;
  ltc_recipient_pkh ← slice script 43 63;
  amount_bytes ← slice script 63 71;
  timeout_bytes ← slice script 71 79;
  funding_binding ← slice script 79 87;
  Ok {| hl_confirmations_required := confirmations_required;
        hl_recipient_pkh := recipient_pkh;
        hl_refund_pkh := refund_pkh;
        hl_ltc_recipient_pkh := ltc_recipient_pkh;
        hl_ltc_amount_sats := le_val amount_bytes;
        hl_timeout_height := le_val timeout_bytes;
        hl_funding_binding := funding_binding |}.

(** ** Swap orders *)
Definition encode_swap_order_script (o : SwapOrderOutput) : bytes :=
  [SWAP_ORDER_V1_TAG] ++ [SWAP_ORDER_V1_VERSION] ++
  [so_direction o] ++ [so_confirmations_required o] ++
  le_bytes 8 (so_irm_amount o) ++
  le_bytes 8 (so_btc_amount_sats o) ++
  so_maker_iriumd_pkh o ++
  so_maker_btc_pkh o ++
  le_bytes 8 (so_expiry_height o) ++
  so_order_id o ++
  (if so_direction o =? SWAP_ORDER_DIRECTION_BUY
   then match so_expected_hash o with Some h => h | None => [] end
   else []).

Definition parse_swap_order_script (script : bytes) : opt SwapOrderOutput :=
  if negb (len script =? SWAP_ORDER_SELL_SCRIPT_LEN)
     && negb (len script =? SWAP_ORDER_BUY_SCRIPT_LEN) then NoneR else
  b0 ← idx script 0;
  if negb (b0 =? SWAP_ORDER_V1_TAG) then NoneR else
  b1 ← idx script 1;
  if negb (b1 =? SWAP_ORDER_V1_VERSION) then NoneR else
  direction ← idx script 2;
  if negb (direction =? SWAP_ORDER_DIRECTION_SELL)
     && negb (direction =? SWAP_ORDER_DIRECTION_BUY) then NoneR else
  let expects_hash := direction =? SWAP_ORDER_DIRECTION_BUY in
  if expects_hash && negb (len script =? SWAP_ORDER_BUY_SCRIPT_LEN) then NoneR else
  if negb expects_hash && negb (len script =? SWAP_ORDER_SELL_SCRIPT_LEN) then NoneR else
  confirmations_required ← idx script 3;
  irm_amount ← slice script 4 12;
  btc_amount_sats ← slice script 12 20;
  maker_iriumd_pkh ← slice script 20 40;
  maker_btc_pkh ← slice script 40 60;
  expiry_height ← slice script 60 68;
  order_id ← slice script 68 76;
  expected_hash ←
    (if expects_hash
     then h ← slice script 76 108; Ok (Some h)
     else Ok None);
  Ok {| so_direction := direction;
        so_confirmations_required := confirmations_required;
        so_irm_amount := le_val irm_amount;
        so_btc_amount_sats := le_val btc_amount_sats;
        so_maker_iriumd_pkh := maker_iriumd_pkh;
        so_maker_btc_pkh := maker_btc_pkh;
        so_expiry_height := le_val expiry_height;
        so_order_id := order_id;
        so_expected_hash := expected_hash |}.

Definition encode_ltc_swap_order_script (o : LtcSwapOrderOutput) : bytes :=
  [LTC_SWAP_ORDER_V1_TAG] ++ [LTC_SWAP_ORDER_V1_VERSION] ++
  [lo_direction o] ++ [lo_confirmations_required o] ++
  le_bytes 8 (lo_irm_amount o) ++
  le_bytes 8 (lo_ltc_amount_sats o) ++
  lo_maker_iriumd_pkh o ++
  lo_maker_ltc_pkh o ++
  le_bytes 8 (lo_expiry_height o) ++
  lo_order_id o ++
  (if lo_direction o =? LTC_SWAP_ORDER_DIRECTION_BUY
   then match lo_expected_hash o with Some h => h | None => [] end
   else []).

Definition parse_ltc_swap_order_script (script : bytes) : opt LtcSwapOrderOutput :=
  if negb (len script =? LTC_SWAP_ORDER_SELL_SCRIPT_LEN)
     && negb (len script =? LTC_SWAP_ORDER_BUY_SCRIPT_LEN) then NoneR else
  b0 ← idx script 0;
  if negb (b0 =? LTC_SWAP_ORDER_V1_TAG) then NoneR else
  b1 ← idx script 1;
  if negb (b1 =? LTC_SWAP_ORDER_V1_VERSION) then NoneR else
  direction ← idx script 2;
  if negb (direction =? LTC_SWAP_ORDER_DIRECTION_SELL)
     && negb (direction =? LTC_SWAP_ORDER_DIRECTION_BUY) then NoneR else
  let expects_hash := direction =? LTC_SWAP_ORDER_DIRECTION_BUY in
  if expects_hash && negb (len script =? LTC_SWAP_ORDER_BUY_SCRIPT_LEN) then NoneR else
  if negb expects_hash && negb (len script =? LTC_SWAP_ORDER_SELL_SCRIPT_LEN) then NoneR else
  confirmations_required ← idx script 3;
  irm_amount ← slice script 4 12;
  ltc_amount_sats ← slice script 12 20;
  maker_iriumd_pkh ← slice script 20 40;
  maker_ltc_pkh ← slice script 40 60;
  expiry_height ← slice script 60 68;
  order_id ← slice script 68 76;
  expected_hash ←
    (if expects_hash
     then h ← slice script 76 108; Ok (Some h)
     else Ok None);
  Ok {| lo_direction := direction;
        lo_confirmations_required := confirmations_required;
        lo_irm_amount := le_val irm_amount;
        lo_ltc_amount_sats := le_val ltc_amount_sats;
        lo_maker_iriumd_pkh := maker_iriumd_pkh;
        lo_maker_ltc_pkh := maker_ltc_pkh;
        lo_expiry_height := le_val expiry_height;
        lo_order_id := order_id;
        lo_expected_hash := expected_hash |}.

(** ** The dispatcher

    [if let Some(x) = parser(script) { return ... }]: a panic of a parser is
    a panic of the dispatcher. *)
Definition if_let_some {A B} (m : opt A) (some : A -> B) (none : res unit B) : res unit B :=
  match m with
  | Ok a => Ok (some a)
  | Err _ => none
  | Panic => Panic
  end.

Definition parse_output_encumbrance (script : bytes) : res unit OutputEncumbrance :=
  if_let_some (parse_p2pkh_script script) EncP2pkh
  (if_let_some (parse_htlcv1_script script) EncHtlcV1
  (if_let_some (parse_mpso_script script) EncMpsoV1
  (if_let_some (parse_htlc_btc_swap_v1_script script) EncHtlcBtcSwapV1
  (if_let_some (parse_htlc_ltc_swap_v1_script script) EncHtlcLtcSwapV1
  (if_let_some (parse_swap_order_script script) EncSwapOrder
  (if_let_some (parse_ltc_swap_order_script script) EncLtcSwapOrder
  (Ok EncUnknown))))))).

(** ** Well-formed outputs: the Rust types of the fields *)
Definition wf_htlcv1 (o : HtlcV1Output) : Prop :=
  arr 32 (h1_expected_hash o) /\ arr 20 (h1_recipient_pkh o) /\
  arr 20 (h1_refund_pkh o) /\ u64 (h1_timeout_height o).

Definition wf_btc_swap (o : HtlcBtcSwapV1Output) : Prop :=
  u8 (hb_confirmations_required o) /\ arr 20 (hb_recipient_pkh o) /\
  arr 20 (hb_refund_pkh o) /\ arr 20 (hb_btc_recipient_pkh o) /\
  u64 (hb_btc_amount_sats o) /\ u64 (hb_timeout_height o) /\
  arr 8 (hb_funding_binding o).

Definition wf_ltc_swap (o : HtlcLtcSwapV1Output) : Prop :=
  u8 (hl_confirmations_required o) /\ arr 20 (hl_recipient_pkh o) /\
  arr 20 (hl_refund_pkh o) /\ arr 20 (hl_ltc_recipient_pkh o) /\
  u64 (hl_ltc_amount_sats o) /\ u64 (hl_timeout_height o) /\
  arr 8 (hl_funding_binding o).

(** An order carries the hashlock exactly when it buys IRM. *)
Definition wf_order_tail (direction : Z) (h : option bytes) : Prop :=
  (direction = 1 /\ h = None) \/ (direction = 2 /\ exists x, h = Some x /\ arr 32 x).

Definition wf_swap_order (o : SwapOrderOutput) : Prop :=
  wf_order_tail (so_direction o) (so_expected_hash o) /\
  u8 (so_confirmations_required o) /\ u64 (so_irm_amount o) /\
  u64 (so_btc_amount_sats o) /\ arr 20 (so_maker_iriumd_pkh o) /\
  arr 20 (so_maker_btc_pkh o) /\ u64 (so_expiry_height o) /\ arr 8 (so_order_id o).

Definition wf_ltc_swap_order (o : LtcSwapOrderOutput) : Prop :=
  wf_order_tail (lo_direction o) (lo_expected_hash o) /\
  u8 (lo_confirmations_required o) /\ u64 (lo_irm_amount o) /\
  u64 (lo_ltc_amount_sats o) /\ arr 20 (lo_maker_iriumd_pkh o) /\
  arr 20 (lo_maker_ltc_pkh o) /\ u64 (lo_expiry_height o) /\ arr 8 (lo_order_id o).

(** A compressed public key: 33 bytes that start with 2 or 3. *)
Definition wf_pubkey (pk : bytes) : Prop :=
  arr 33 pk /\ exists t, pk = 2 :: t \/ pk = 3 :: t.

Definition wf_mpso (o : MpsoV1Output) : Prop :=
  (mp_flags o = 0 /\ mp_optional_hash o = None \/
   mp_flags o = 1 /\ exists h, mp_optional_hash o = Some h /\ arr 32 h) /\
  1 <= mp_claim_m o <= mp_claim_n o /\ mp_claim_n o <= 8 /\
  1 <= mp_refund_m o <= mp_refund_n o /\ mp_refund_n o <= 8 /\
  arr 32 (mp_agreement_hash o) /\ u64 (mp_timeout_height o) /\
  len (mp_claim_pubkeys o) = mp_claim_n o /\ len (mp_refund_pubkeys o) = mp_refund_n o /\
  Forall wf_pubkey (mp_claim_pubkeys o) /\ Forall wf_pubkey (mp_refund_pubkeys o) /\
  NoDup (mp_claim_pubkeys o) /\ NoDup (mp_refund_pubkeys o).

(** ** No parser panics *)
Lemma parse_p2pkh_script_no_panic s : parse_p2pkh_script s <> Panic.
Proof.
  unfold parse_p2pkh_script. no_panic.
Qed.

Lemma parse_htlcv1_script_no_panic s : parse_htlcv1_script s <> Panic.
Proof. unfold parse_htlcv1_script, HTLC_V1_SCRIPT_LEN. no_panic. Qed.

Lemma parse_htlc_btc_swap_v1_script_no_panic s : parse_htlc_btc_swap_v1_script s <> Panic.
Proof. unfold parse_htlc_btc_swap_v1_script, HTLC_BTC_SWAP_V1_SCRIPT_LEN. no_panic. Qed.

Lemma parse_htlc_ltc_swap_v1_script_no_panic s : parse_htlc_ltc_swap_v1_script s <> Panic.
Proof. unfold parse_htlc_ltc_swap_v1_script, HTLC_LTC_SWAP_V1_SCRIPT_LEN. no_panic. Qed.

Lemma parse_swap_order_script_no_panic s : parse_swap_order_script s <> Panic.
Proof.
  unfold parse_swap_order_script, SWAP_ORDER_SELL_SCRIPT_LEN, SWAP_ORDER_BUY_SCRIPT_LEN.
  no_panic.
Qed.

Lemma parse_ltc_swap_order_script_no_panic s : parse_ltc_swap_order_script s <> Panic.
Proof.
  unfold parse_ltc_swap_order_script, LTC_SWAP_ORDER_SELL_SCRIPT_LEN,
    LTC_SWAP_ORDER_BUY_SCRIPT_LEN.
  no_panic.
Qed.

(** ** Round trips *)

(** Field facts of a well-formed record as hypotheses on lengths and values. *)
Ltac wf_fields :=
  repeat match goal with
  | H : _ /\ _ |- _ => destruct H
  | H : arr _ _ |- _ => destruct H
  end.

(** Run a parser on an encoding: tests by arithmetic, reads by [parse_step]. *)
Ltac run_parser := repeat first [progress cbv zeta | if_lia | parse_step].

Lemma parse_encode_p2pkh pkh :
  arr 20 pkh -> parse_p2pkh_script (p2pkh_script pkh) = Ok pkh.
Proof.
  intros [? _]. unfold parse_p2pkh_script, p2pkh_script. run_parser. solve_slice.
Qed.

Lemma parse_encode_htlcv1 o :
  wf_htlcv1 o -> parse_htlcv1_script (encode_htlcv1_script o) = Ok o.
Proof.
  destruct o; unfold wf_htlcv1; simpl. intros; wf_fields.
  unfold parse_htlcv1_script, encode_htlcv1_script, HTLC_V1_SCRIPT_LEN.
  cbn [h1_expected_hash h1_recipient_pkh h1_refund_pkh h1_timeout_height].
  run_parser. by rewrite le_val_u64.
Qed.

Lemma parse_encode_btc_swap o :
  wf_btc_swap o -> parse_htlc_btc_swap_v1_script (encode_htlc_btc_swap_v1_script o) = Ok o.
Proof.
  destruct o; unfold wf_btc_swap; simpl. intros; wf_fields.
  unfold parse_htlc_btc_swap_v1_script, encode_htlc_btc_swap_v1_script,
    HTLC_BTC_SWAP_V1_SCRIPT_LEN; cbn [hb_confirmations_required hb_recipient_pkh
    hb_refund_pkh hb_btc_recipient_pkh hb_btc_amount_sats hb_timeout_height hb_funding_binding].
  run_parser. by rewrite !le_val_u64.
Qed.

Lemma parse_encode_ltc_swap o :
  wf_ltc_swap o -> parse_htlc_ltc_swap_v1_script (encode_htlc_ltc_swap_v1_script o) = Ok o.
Proof.
  destruct o; unfold wf_ltc_swap; simpl. intros; wf_fields.
  unfold parse_htlc_ltc_swap_v1_script, encode_htlc_ltc_swap_v1_script,
    HTLC_LTC_SWAP_V1_SCRIPT_LEN; cbn [hl_confirmations_required hl_recipient_pkh
    hl_refund_pkh hl_ltc_recipient_pkh hl_ltc_amount_sats hl_timeout_height hl_funding_binding].
  run_parser. by rewrite !le_val_u64.
Qed.

Lemma parse_encode_swap_order o :
  wf_swap_order o -> parse_swap_order_script (encode_swap_order_script o) = Ok o.
Proof.
  destruct o; unfold wf_swap_order, wf_order_tail; simpl.
  unfold parse_swap_order_script, encode_swap_order_script, SWAP_ORDER_SELL_SCRIPT_LEN,
    SWAP_ORDER_BUY_SCRIPT_LEN, SWAP_ORDER_DIRECTION_SELL, SWAP_ORDER_DIRECTION_BUY;
  cbn [so_direction so_confirmations_required so_irm_amount so_btc_amount_sats
    so_maker_iriumd_pkh so_maker_btc_pkh so_expiry_height so_order_id so_expected_hash].
  intros [[[-> ->] | [-> (h & -> & ?)]] ?]; wf_fields; cbn [Z.eqb Pos.eqb];
    run_parser; by rewrite !le_val_u64.
Qed.

Lemma parse_encode_ltc_swap_order o :
  wf_ltc_swap_order o -> parse_ltc_swap_order_script (encode_ltc_swap_order_script o) = Ok o.
Proof.
  destruct o; unfold wf_ltc_swap_order, wf_order_tail; simpl.
  unfold parse_ltc_swap_order_script, encode_ltc_swap_order_script,
    LTC_SWAP_ORDER_SELL_SCRIPT_LEN, LTC_SWAP_ORDER_BUY_SCRIPT_LEN,
    LTC_SWAP_ORDER_DIRECTION_SELL, LTC_SWAP_ORDER_DIRECTION_BUY;
  cbn [lo_direction lo_confirmations_required lo_irm_amount lo_ltc_amount_sats
    lo_maker_iriumd_pkh lo_maker_ltc_pkh lo_expiry_height lo_order_id lo_expected_hash].
  intros [[[-> ->] | [-> (h & -> & ?)]] ?]; wf_fields; cbn [Z.eqb Pos.eqb];
    run_parser; by rewrite !le_val_u64.
Qed.

(** ** Accepted scripts are encodings *)
Lemma encode_parse_p2pkh s pkh :
  wf_bytes s -> parse_p2pkh_script s = Ok pkh -> p2pkh_script pkh = s /\ arr 20 pkh.
Proof.
  intros Hw H. unfold parse_p2pkh_script in H. invert_parser H.
  assert (a = 0x76 /\ a0 = 0xa9 /\ a1 = 0x14 /\ a2 = 0x88 /\ a3 = 0xac)
    as (-> & -> & -> & -> & ->) by lia.
  split; [unfold p2pkh_script; glue | arr_solve].
Qed.

Lemma encode_parse_htlcv1 s o :
  wf_bytes s -> parse_htlcv1_script s = Ok o -> encode_htlcv1_script o = s /\ wf_htlcv1 o.
Proof.
  intros Hw H. unfold parse_htlcv1_script, HTLC_V1_SCRIPT_LEN in H.
  invert_parser H. injection H as <-. subst_tags.
  split; [unfold encode_htlcv1_script; cbn -[app]; glue_fields | unfold wf_htlcv1; split_and!; arr_solve].
Qed.

Lemma encode_parse_btc_swap s o :
  wf_bytes s -> parse_htlc_btc_swap_v1_script s = Ok o ->
  encode_htlc_btc_swap_v1_script o = s /\ wf_btc_swap o.
Proof.
  intros Hw H. unfold parse_htlc_btc_swap_v1_script, HTLC_BTC_SWAP_V1_SCRIPT_LEN in H.
  invert_parser H. injection H as <-. subst_tags.
  split; [unfold encode_htlc_btc_swap_v1_script; cbn -[app]; glue_fields
         | unfold wf_btc_swap; split_and!; arr_solve].
Qed.

Lemma encode_parse_ltc_swap s o :
  wf_bytes s -> parse_htlc_ltc_swap_v1_script s = Ok o ->
  encode_htlc_ltc_swap_v1_script o = s /\ wf_ltc_swap o.
Proof.
  intros Hw H. unfold parse_htlc_ltc_swap_v1_script, HTLC_LTC_SWAP_V1_SCRIPT_LEN in H.
  invert_parser H. injection H as <-. subst_tags.
  split; [unfold encode_htlc_ltc_swap_v1_script; cbn -[app]; glue_fields
         | unfold wf_ltc_swap; split_and!; arr_solve].
Qed.

(** The option tail of an order follows its direction. *)
Lemma order_tail_inv s direction n h :
  wf_bytes s -> len s = n ->
  (if direction =? 2 then x ← slice s 76 108; Ok (Some x) else @Ok unit _ None) = Ok h ->
  direction = 1 \/ direction = 2 -> (direction = 2 -> n = 108) -> (direction = 1 -> n = 76) ->
  wf_order_tail direction h /\
  @slice unit _ s 76 n = Ok (if direction =? 2 then default [] h else []).
Proof.
  intros Hw Hl Ht [-> | ->] Hb Hs; cbn in Ht.
  - injection Ht as <-. split; [left; auto|]. rewrite Hs by done.
    unfold slice. replace ((0 <=? 76) && (76 <=? 76) && (76 <=? len s)) with true by lia. done.
  - invert_parser Ht. injection Ht as <-. split.
    + right. split; [done|]. eexists; split; [done|arr_solve].
    + cbn. by rewrite Hb.
Qed.

Lemma encode_parse_swap_order s o :
  wf_bytes s -> parse_swap_order_script s = Ok o ->
  encode_swap_order_script o = s /\ wf_swap_order o.
Proof.
  intros Hw H. unfold parse_swap_order_script, SWAP_ORDER_SELL_SCRIPT_LEN,
    SWAP_ORDER_BUY_SCRIPT_LEN, SWAP_ORDER_DIRECTION_SELL, SWAP_ORDER_DIRECTION_BUY in H.
  invert_parser H. injection H as <-. subst_tags.
  match goal with H : (if _ then _ else Ok None) = Ok _ |- _ =>
    eapply order_tail_inv in H as [Ht Hs]; [| done | reflexivity | lia | lia | lia] end.
  unfold encode_swap_order_script, SWAP_ORDER_DIRECTION_BUY, wf_swap_order; cbn -[app].
  split; [glue_fields | split_and!; first [done | arr_solve]].
Qed.

Lemma encode_parse_ltc_swap_order s o :
  wf_bytes s -> parse_ltc_swap_order_script s = Ok o ->
  encode_ltc_swap_order_script o = s /\ wf_ltc_swap_order o.
Proof.
  intros Hw H. unfold parse_ltc_swap_order_script, LTC_SWAP_ORDER_SELL_SCRIPT_LEN,
    LTC_SWAP_ORDER_BUY_SCRIPT_LEN, LTC_SWAP_ORDER_DIRECTION_SELL,
    LTC_SWAP_ORDER_DIRECTION_BUY in H.
  invert_parser H. injection H as <-. subst_tags.
  match goal with H : (if _ then _ else Ok None) = Ok _ |- _ =>
    eapply order_tail_inv in H as [Ht Hs]; [| done | reflexivity | lia | lia | lia] end.
  unfold encode_ltc_swap_order_script, LTC_SWAP_ORDER_DIRECTION_BUY, wf_ltc_swap_order;
    cbn -[app].
  split; [glue_fields | split_and!; first [done | arr_solve]].
Qed.

(** ** MPSOv1: the key loops *)
Lemma has_duplicate_NoDup pks : has_duplicate pks = false <-> NoDup pks.
Proof.
  induction pks as [|pk pks IH]; cbn [has_duplicate]; [split; [constructor|done]|].
  rewrite orb_false_iff, NoDup_cons, IH. f_equiv.
  rewrite <- not_true_iff_false, existsb_exists. unfold beqb. split.
  - intros Hn Hin. apply Hn. exists pk. rewrite bool_decide_eq_true.
    split; [by apply list_elem_of_In | done].
  - intros Hn (x & Hin & Hx). apply bool_decide_eq_true in Hx as ->.
    apply Hn. by apply list_elem_of_In.
Qed.

Lemma len_concat_pubkeys pks : Forall wf_pubkey pks -> len (concat pks) = 33 * len pks.
Proof.
  induction 1 as [|pk pks [[Hl _] _] _ IH]; [done|].
  cbn [concat]. rewrite len_app, len_cons, IH. lia.
Qed.

Lemma parse_pubkeys_encoded pre pks post :
  Forall wf_pubkey pks ->
  parse_pubkeys (pre ++ concat pks ++ post) (length pks) (len pre) =
  Ok (pks, len pre + len (concat pks)).
Proof.
  intros Hpks. revert pre. induction Hpks as [|pk pks Hpk Hpks IH]; intros pre.
  { cbn. by rewrite len_nil, Z.add_0_r. }
  destruct Hpk as [[Hl _] (t & Ht)].
  specialize (IH (pre ++ pk)). rewrite <- (app_assoc pre pk), len_app, Hl in IH.
  cbn [concat length parse_pubkeys]. rewrite <- (app_assoc pk).
  assert (exists b, @idx unit _ (pre ++ pk ++ concat pks ++ post) (len pre) = Ok b /\
    negb (b =? 2) && negb (b =? 3) = false) as (b & -> & Hb).
  { rewrite idx_skip, Z.sub_diag by lia. destruct Ht as [-> | ->]; eexists; split; done. }
  bind_simpl. rewrite Hb. parse_step.
  rewrite IH; bind_simpl. do 2 f_equal. rewrite len_app. lia.
Qed.

Lemma parse_pubkeys_inv s n pos pks pos' :
  wf_bytes s -> 0 <= pos <= len s -> parse_pubkeys s n pos = Ok (pks, pos') ->
  pos' = pos + 33 * Z.of_nat n /\ pos' <= len s /\ length pks = n /\ Forall wf_pubkey pks /\
  @slice unit _ s pos pos' = Ok (concat pks).
Proof.
  intros Hw. revert pos pks. induction n as [|n IH]; intros pos pks Hpos H;
    cbn [parse_pubkeys] in H.
  { injection H as <- <-. split_and!; [lia|lia|done|constructor|].
    unfold slice. replace ((0 <=? pos) && (pos <=? pos) && (pos <=? len s)) with true by lia.
    by rewrite Z.sub_diag. }
  invert_parser H. destruct a1 as [pks0 p]. injection H as <- <-.
  pose proof (slice_Ok_inv _ _ _ _ Heqr0) as (? & ? & _).
  apply IH in Heqr1 as (-> & ? & <- & Hpks & Hs); [|lia].
  split_and!; [lia | lia | done | | by eapply slice_cat].
  constructor; [|done]. split; [arr_solve|].
  destruct (@slice_in unit _ s pos (pos + 1)) as (x & Hx & _); [lia | lia |].
  destruct (@slice_in unit _ s (pos + 1) (pos + 33)) as (t & Ht & _); [lia | lia |].
  rewrite (slice_cat _ _ _ _ _ _ (idx_slice _ _ _ _ Heqr eq_refl) Ht) in Heqr0.
  injection Heqr0 as <-. exists t. assert (a = 2 \/ a = 3) as [-> | ->] by lia; auto.
Qed.

Lemma parse_pubkeys_no_panic s n pos :
  0 <= pos -> pos + 33 * Z.of_nat n <= len s ->
  parse_pubkeys s n pos <> Panic /\
  forall pks pos', parse_pubkeys s n pos = Ok (pks, pos') -> pos' = pos + 33 * Z.of_nat n.
Proof.
  revert pos. induction n as [|n IH]; intros pos Hp Hl; cbn [parse_pubkeys].
  { split; [done|]. intros ? ? [= <- <-]. lia. }
  destruct (@idx_in unit _ s pos) as [b ->]; [lia|]. bind_simpl.
  destruct (_ && _); [done|].
  destruct (@slice_in unit _ s pos (pos + 33)) as (pk & -> & _); [lia | lia |]. bind_simpl.
  destruct (IH (pos + 33)) as [Hnp Hpos]; [lia | lia |].
  destruct (parse_pubkeys s n (pos + 33)) as [[pks p]| |]; [|done|done].
  bind_simpl. split; [done|]. intros ? ? [= <- <-]. rewrite (Hpos _ _ eq_refl). lia.
Qed.

Ltac pubkeys_no_panic :=
  match goal with
  | |- mbind _ (parse_pubkeys ?s ?n ?p) <> _ =>
      let Hp := fresh in
      destruct (parse_pubkeys_no_panic s n p) as [? Hp]; [lia | lia |];
      destruct (parse_pubkeys s n p) as [[? ?] | |]; [rewrite (Hp _ _ eq_refl) | done | done];
      bind_simpl
  end.

Lemma parse_mpso_script_no_panic s : parse_mpso_script s <> Panic.
Proof.
  unfold parse_mpso_script, MPSO_V1_MAX_SCRIPT_SIZE.
  repeat first
    [ done
    | match goal with
      | |- context [if negb (Z.land ?x 1 =? 0) then _ else _] => destruct (negb (Z.land x 1 =? 0))
      end
    | pubkeys_no_panic | no_panic_step ].
Qed.

Lemma mpso_flags_cases f : u8 f -> Z.land f 0xFE = 0 -> f = 0 \/ f = 1.
Proof.
  intros Hf Hl.
  pose proof (u8_forall (fun f => implb (Z.land f 0xFE =? 0) ((f =? 0) || (f =? 1)))
    ltac:(vm_compute; reflexivity) f Hf) as H; cbv beta in H.
  rewrite Hl in H. cbn in H. lia.
Qed.

Lemma parse_pubkeys_at pre pks post s n pos :
  Forall wf_pubkey pks -> s = pre ++ concat pks ++ post ->
  Z.of_nat n = len pks -> pos = len pre ->
  parse_pubkeys s n pos = Ok (pks, pos + 33 * len pks).
Proof.
  intros Hk -> Hn ->. replace n with (length pks) by (unfold len in Hn; lia).
  by rewrite parse_pubkeys_encoded, len_concat_pubkeys.
Qed.

Lemma parse_encode_mpso o :
  wf_mpso o -> parse_mpso_script (encode_mpso_script o) = Ok o.
Proof.
  destruct o as [flags cn cm rn rm ah cks rks th oh]; unfold wf_mpso; simpl.
  intros (Hf & ? & ? & ? & ? & [Hah _] & ? & Hcl & Hrl & Hck & Hrk & Hcd & Hrd).
  pose proof (len_concat_pubkeys _ Hck). pose proof (len_concat_pubkeys _ Hrk).
  apply has_duplicate_NoDup in Hcd, Hrd.
  unfold parse_mpso_script, encode_mpso_script, MPSO_V1_MAX_SCRIPT_SIZE; cbn [mp_flags
    mp_claim_n mp_claim_m mp_refund_n mp_refund_m mp_agreement_hash mp_claim_pubkeys
    mp_refund_pubkeys mp_timeout_height mp_optional_hash].
  set (hd := [MPSO_V1_TAG] ++ [1] ++ [flags] ++ [0] ++ [cn] ++ [cm] ++ [rn] ++ [rm] ++ ah).
  assert (len hd = 40) as Hhd by (unfold hd; len_lia).
  assert (forall s post p, s = hd ++ concat cks ++ post -> p = 40 ->
    parse_pubkeys s (Z.to_nat cn) p = Ok (cks, p + 33 * cn)) as Hc.
  { intros s post p -> ->. rewrite <- Hcl.
    eapply (parse_pubkeys_at hd); [done | done | lia | lia]. }
  assert (forall s post p, s = (hd ++ concat cks) ++ concat rks ++ post -> p = 40 + 33 * cn ->
    parse_pubkeys s (Z.to_nat rn) p = Ok (rks, p + 33 * rn)) as Hr.
  { intros s post p -> ->. rewrite <- Hrl.
    eapply (parse_pubkeys_at (hd ++ concat cks)); [done | done | lia | len_lia]. }
  destruct Hf as [[-> ->] | [-> (h & -> & [? _])]]; 
    run_parser; try change (Z.land 0 0xFE) with 0; try change (Z.land 0 1) with 0;
    try change (Z.land 1 0xFE) with 0; try change (Z.land 1 1) with 1; run_parser;
    (erewrite Hc by first [lia | unfold hd; rewrite <- !app_assoc; reflexivity]); bind_simpl;
    (erewrite Hr by first [lia | unfold hd; rewrite <- !app_assoc; reflexivity]); bind_simpl;
    rewrite Hcd, Hrd; run_parser; by rewrite le_val_u64.
Qed.

Lemma encode_parse_mpso s o :
  wf_bytes s -> parse_mpso_script s = Ok o -> encode_mpso_script o = s /\ wf_mpso o.
Proof.
  intros Hw H. unfold parse_mpso_script, MPSO_V1_MAX_SCRIPT_SIZE in H.
  invert_parser H. injection H as <-. subst_tags.
  assert (a1 = 0 \/ a1 = 1) as Hf by (apply mpso_flags_cases; [arr_solve | lia]).
  apply has_duplicate_NoDup in Heqb10, Heqb11. pose proof (len_nonneg s).
  apply parse_pubkeys_inv in Heqr8 as (-> & ? & Hcl & Hck & Hcs); [|done|];
    [|destruct (negb (Z.land a1 1 =? 0)); lia].
  apply parse_pubkeys_inv in Heqr9 as (-> & ? & Hrl & Hrk & Hrs); [|done|lia].
  unfold encode_mpso_script, wf_mpso; cbn -[app].
  destruct Hf as [-> | ->]; [change (Z.land 0 1) with 0 in * | change (Z.land 1 1) with 1 in *];
    cbn [Z.eqb negb] in Heqb8, Heqr11.
  - injection Heqr11 as <-. rewrite app_nil_r.
    split; [glue_fields | split_and!; first [lia | done | unfold len; lia | arr_solve | by left]].
  - invert_parser Heqr11. injection Heqr11 as <-.
    split; [glue_fields | split_and!; first [lia | done | unfold len; lia | arr_solve | idtac]].
    right. split; [done|]. eexists; split; [done | arr_solve].
Qed.

(** ** The dispatcher *)
Lemma parse_output_encumbrance_no_panic s : parse_output_encumbrance s <> Panic.
Proof.
  unfold parse_output_encumbrance, if_let_some.
  pose proof (parse_p2pkh_script_no_panic s). pose proof (parse_htlcv1_script_no_panic s).
  pose proof (parse_mpso_script_no_panic s).
  pose proof (parse_htlc_btc_swap_v1_script_no_panic s).
  pose proof (parse_htlc_ltc_swap_v1_script_no_panic s).
  pose proof (parse_swap_order_script_no_panic s).
  pose proof (parse_ltc_swap_order_script_no_panic s).
  by repeat case_match.
Qed.

Lemma parse_output_encumbrance_total s : exists e, parse_output_encumbrance s = Ok e.
Proof.
  pose proof (parse_output_encumbrance_no_panic s) as Hp. revert Hp.
  unfold parse_output_encumbrance, if_let_some. repeat case_match; eauto; congruence.
Qed.

(** The script an encumbrance stands for, and the Rust types of its fields. *)
Definition encumbrance_script (e : OutputEncumbrance) : option bytes :=
  match e with
  | EncP2pkh pkh => Some (p2pkh_script pkh)
  | EncHtlcV1 o => Some (encode_htlcv1_script o)
  | EncMpsoV1 o => Some (encode_mpso_script o)
  | EncHtlcBtcSwapV1 o => Some (encode_htlc_btc_swap_v1_script o)
  | EncHtlcLtcSwapV1 o => Some (encode_htlc_ltc_swap_v1_script o)
  | EncSwapOrder o => Some (encode_swap_order_script o)
  | EncLtcSwapOrder o => Some (encode_ltc_swap_order_script o)
  | EncUnknown => None
  end.

Definition wf_encumbrance (e : OutputEncumbrance) : Prop :=
  match e with
  | EncP2pkh pkh => arr 20 pkh
  | EncHtlcV1 o => wf_htlcv1 o
  | EncMpsoV1 o => wf_mpso o
  | EncHtlcBtcSwapV1 o => wf_btc_swap o
  | EncHtlcLtcSwapV1 o => wf_ltc_swap o
  | EncSwapOrder o => wf_swap_order o
  | EncLtcSwapOrder o => wf_ltc_swap_order o
  | EncUnknown => True
  end.

(** A parser that accepts has seen its tag in the first byte. *)
Lemma parse_p2pkh_tag s o : parse_p2pkh_script s = Ok o -> @idx unit _ s 0 = Ok 0x76.
Proof. unfold parse_p2pkh_script. intros H. invert_parser H. do 2 f_equal; lia. Qed.
Lemma parse_htlcv1_tag s o :
  parse_htlcv1_script s = Ok o -> @idx unit _ s 0 = Ok HTLC_V1_SCRIPT_TAG.
Proof. unfold parse_htlcv1_script. intros H. invert_parser H. by subst_tags. Qed.
Lemma parse_mpso_tag s o : parse_mpso_script s = Ok o -> @idx unit _ s 0 = Ok MPSO_V1_TAG.
Proof. unfold parse_mpso_script. intros H. invert_parser H. by subst_tags. Qed.
Lemma parse_btc_swap_tag s o :
  parse_htlc_btc_swap_v1_script s = Ok o -> @idx unit _ s 0 = Ok HTLC_BTC_SWAP_V1_TAG.
Proof. unfold parse_htlc_btc_swap_v1_script. intros H. invert_parser H. by subst_tags. Qed.
Lemma parse_ltc_swap_tag s o :
  parse_htlc_ltc_swap_v1_script s = Ok o -> @idx unit _ s 0 = Ok HTLC_LTC_SWAP_V1_TAG.
Proof. unfold parse_htlc_ltc_swap_v1_script. intros H. invert_parser H. by subst_tags. Qed.
Lemma parse_swap_order_tag s o :
  parse_swap_order_script s = Ok o -> @idx unit _ s 0 = Ok SWAP_ORDER_V1_TAG.
Proof. unfold parse_swap_order_script. intros H. invert_parser H. by subst_tags. Qed.

Lemma not_ok_none {A} (m : opt A) : m <> Panic -> (forall a, m <> Ok a) -> m = NoneR.
Proof. destruct m as [a | [] |]; intros Hp Ho; [by destruct (Ho a) | done | done]. Qed.

(** [skip_parsers] steps over the parsers whose tag is not the script's first byte. *)
Ltac skip_parser m np tag :=
  rewrite (not_ok_none m) by
    (first [apply np | intros ? Hskip; apply tag in Hskip; discriminate Hskip]).
Ltac skip_parsers s :=
  unfold parse_output_encumbrance;
  try (skip_parser (parse_p2pkh_script s) parse_p2pkh_script_no_panic parse_p2pkh_tag;
       cbn [if_let_some]);
  try (skip_parser (parse_htlcv1_script s) parse_htlcv1_script_no_panic parse_htlcv1_tag;
       cbn [if_let_some]);
  try (skip_parser (parse_mpso_script s) parse_mpso_script_no_panic parse_mpso_tag;
       cbn [if_let_some]);
  try (skip_parser (parse_htlc_btc_swap_v1_script s) parse_htlc_btc_swap_v1_script_no_panic
         parse_btc_swap_tag; cbn [if_let_some]);
  try (skip_parser (parse_htlc_ltc_swap_v1_script s) parse_htlc_ltc_swap_v1_script_no_panic
         parse_ltc_swap_tag; cbn [if_let_some]);
  try (skip_parser (parse_swap_order_script s) parse_swap_order_script_no_panic
         parse_swap_order_tag; cbn [if_let_some]).

Lemma parse_ltc_swap_order_tag s o :
  parse_ltc_swap_order_script s = Ok o -> @idx unit _ s 0 = Ok LTC_SWAP_ORDER_V1_TAG.
Proof. unfold parse_ltc_swap_order_script. intros H. invert_parser H. by subst_tags. Qed.

(** A script whose first byte is none of the tags is not recognised. *)
Lemma unknown_first_byte b s :
  b ∉ [0x76; HTLC_V1_SCRIPT_TAG; MPSO_V1_TAG; HTLC_BTC_SWAP_V1_TAG; HTLC_LTC_SWAP_V1_TAG;
       SWAP_ORDER_V1_TAG; LTC_SWAP_ORDER_V1_TAG] ->
  parse_output_encumbrance (b :: s) = Ok EncUnknown.
Proof.
  intros Hb. destruct (parse_output_encumbrance_total (b :: s)) as [e He]. rewrite He. f_equal.
  unfold parse_output_encumbrance, if_let_some in He.
  assert (forall t, @idx unit _ (b :: s) 0 = Ok t -> b = t) as Ht by (by intros t [= ->]).
  repeat match type of He with
  | match ?m with _ => _ end = _ => destruct m eqn:Hm; [exfalso; apply Hb | clear Hm | done]
  end; [..|congruence].
  - apply parse_p2pkh_tag, Ht in Hm. subst. set_solver.
  - apply parse_htlcv1_tag, Ht in Hm. subst. set_solver.
  - apply parse_mpso_tag, Ht in Hm. subst. set_solver.
  - apply parse_btc_swap_tag, Ht in Hm. subst. set_solver.
  - apply parse_ltc_swap_tag, Ht in Hm. subst. set_solver.
  - apply parse_swap_order_tag, Ht in Hm. subst. set_solver.
  - apply parse_ltc_swap_order_tag, Ht in Hm. subst. set_solver.
Qed.

Lemma parse_encumbrance_script e s :
  wf_encumbrance e -> encumbrance_script e = Some s -> parse_output_encumbrance s = Ok e.
Proof.
  destruct e as [pkh | o | o | o | o | o | o |]; cbn [wf_encumbrance encumbrance_script];
    intros Hw; [injection 1 as <- .. | done].
  - unfold parse_output_encumbrance. by rewrite parse_encode_p2pkh.
  - skip_parsers (encode_htlcv1_script o). by rewrite parse_encode_htlcv1.
  - skip_parsers (encode_mpso_script o). by rewrite parse_encode_mpso.
  - skip_parsers (encode_htlc_btc_swap_v1_script o). by rewrite parse_encode_btc_swap.
  - skip_parsers (encode_htlc_ltc_swap_v1_script o). by rewrite parse_encode_ltc_swap.
  - skip_parsers (encode_swap_order_script o). by rewrite parse_encode_swap_order.
  - skip_parsers (encode_ltc_swap_order_script o). by rewrite parse_encode_ltc_swap_order.
Qed.

Lemma encumbrance_of_parse s e :
  wf_bytes s -> parse_output_encumbrance s = Ok e ->
  wf_encumbrance e /\ (e <> EncUnknown -> encumbrance_script e = Some s).
Proof.
  intros Hw. unfold parse_output_encumbrance, if_let_some. intros H.
  repeat match goal with
  | H : match ?m with _ => _ end = _ |- _ => destruct m eqn:?; [injection H as <- | | done]
  end; cbn [wf_encumbrance encumbrance_script].
  8: injection H as <-; done.
  all: match goal with
  | Hp : _ = Ok _ |- _ =>
      first [ eapply encode_parse_p2pkh in Hp as [Hs ?] | eapply encode_parse_htlcv1 in Hp as [Hs ?]
            | eapply encode_parse_mpso in Hp as [Hs ?] | eapply encode_parse_btc_swap in Hp as [Hs ?]
            | eapply encode_parse_ltc_swap in Hp as [Hs ?]
            | eapply encode_parse_swap_order in Hp as [Hs ?]
            | eapply encode_parse_ltc_swap_order in Hp as [Hs ?] ]; [|done]
  end; split; [done | intros _; by rewrite Hs].
Qed.

(** Output scripts round-trip: the parser of output scripts reads back every
    well-formed encumbrance from its script; conversely a script it recognises
    is, byte for byte, the encoding of the well-formed encumbrance it returns,
    so no two scripts mean the same; and it returns on every byte string. *)
Theorem encumbrance_roundtrip :
  (forall e s, wf_encumbrance e -> encumbrance_script e = Some s ->
     parse_output_encumbrance s = Ok e) /\
  (forall s e, wf_bytes s -> parse_output_encumbrance s = Ok e ->
     wf_encumbrance e /\ (e <> EncUnknown -> encumbrance_script e = Some s)) /\
  (forall s, exists e, parse_output_encumbrance s = Ok e).
Proof.
  split_and!; [apply parse_encumbrance_script | apply encumbrance_of_parse | ].
  intros s. apply parse_output_encumbrance_total.
Qed.
