(* ===== verification/TxCodec.v ===== *)
(** * TxCodec: transactions and their wire format ([src/src/tx.rs])

    The records [TxInput], [TxOutput] and [Transaction], [serialize] and
    [txid], the Bitcoin-style varint and the wire decoder [decode_full_tx].
    Offsets are [usize] values; the additions of [read_bytes] wrap as they do
    in a release build, since a varint can hold any 64-bit length.

    Shown here: the varint round trip, the round trip of the whole wire
    format for every transaction whose counts and input scripts fit in a byte,
    well-formedness of whatever the decoder accepts, and the exact inputs on
    which the decoder panics or the encoder truncates. *)

From S2P Require Import Prelude Crypto.

Record TxInput := {
  prev_txid : bytes;
  prev_index : Z;
  script_sig : bytes;
  sequence : Z
}.

Record TxOutput := {
  value : Z;
  script_pubkey : bytes
}.

Record Transaction := {
  tx_version : Z;
  tx_inputs : list TxInput;
  tx_outputs : list TxOutput;
  tx_locktime : Z
}.

#[export] Instance TxInput_eq_dec : EqDecision TxInput.
Proof. solve_decision. Defined.
#[export] Instance TxOutput_eq_dec : EqDecision TxOutput.
Proof. solve_decision. Defined.
#[export] Instance Transaction_eq_dec : EqDecision Transaction.
Proof. solve_decision. Defined.

(** ** Encoding *)
Definition write_varint (n : Z) : bytes :=
  if n <? 0xfd then [as_u8 n]
  else if n <=? 0xffff then [0xfd] ++ le_bytes 2 (as_u16 n)
  else if n <=? 0xffffffff then [0xfe] ++ le_bytes 4 (as_u32 n)
  else [0xff] ++ le_bytes 8 n.

Definition serialize_input (i : TxInput) : bytes :=
  [as_u8 (len (prev_txid i))] ++
  prev_txid i ++
  le_bytes 4 (prev_index i) ++
  [as_u8 (len (script_sig i))] ++
  script_sig i ++
  le_bytes 4 (sequence i).

Definition serialize_output (o : TxOutput) : bytes :=
  le_bytes 8 (value o) ++
  write_varint (len (script_pubkey o)) ++
  script_pubkey o.

Definition serialize (tx : Transaction) : bytes :=
  le_bytes 4 (tx_version tx) ++
  [as_u8 (len (tx_inputs tx))] ++
  concat (serialize_input <$> tx_inputs tx) ++
  [as_u8 (len (tx_outputs tx))] ++
  concat (serialize_output <$> tx_outputs tx) ++
  le_bytes 4 (tx_locktime tx).

Definition txid `{Crypto} (tx : Transaction) : bytes :=
  rev (sha256d (serialize tx)).

(** ** Decoding

    A reader takes the buffer and the offset and returns the value read with
    the new offset. *)
Definition read_varint_at {E} (data : bytes) (offset : Z) : res E (option Z * Z) :=
  if len data <=? offset then Ok (None, offset) else
  first ← idx data offset;
  let offset := offset + 1 in
  if first =? 0xff then
    if len data <? offset + 8 then Ok (None, offset) else
    b ← slice data offset (offset + 8);
    Ok (Some (le_val b), offset + 8)
  else if first =? 0xfe then
    if len data <? offset + 4 then Ok (None, offset) else
    b ← slice data offset (offset + 4);
    Ok (Some (le_val b), offset + 4)
  else if first =? 0xfd then
    if len data <? offset + 2 then Ok (None, offset) else
    b ← slice data offset (offset + 2);
    Ok (Some (le_val b), offset + 2)
  else Ok (Some first, offset).

Definition read_u8 (buf : bytes) (off : Z) : res string (Z * Z) :=
  if len buf <=? off then Err "unexpected EOF"%string else
  v ← idx buf off;
  Ok (v, off + 1).

Definition read_u32 (buf : bytes) (off : Z) : res string (Z * Z) :=
  if len buf <? off + 4 then Err "unexpected EOF"%string else
  b ← slice buf off (off + 4);
  Ok (le_val b, off + 4).

Definition read_u64 (buf : bytes) (off : Z) : res string (Z * Z) :=
  if len buf <? off + 8 then Err "unexpected EOF"%string else
  b ← slice buf off (off + 8);
  Ok (le_val b, off + 8).

Definition read_bytes (buf : bytes) (off n : Z) : res string (bytes * Z) :=
  if len buf <? wadd64 off n then Err "unexpected EOF"%string else
  out ← slice buf off (wadd64 off n);
  Ok (out, wadd64 off n).

Definition read_input (raw : bytes) (offset : Z) : res string (TxInput * Z) :=
  '(txid_len, offset) ← read_u8 raw offset;
  '(prev_txid_bytes, offset) ← read_bytes raw offset txid_len;
  if negb (len prev_txid_bytes =? 32) then Err "invalid prev_txid length"%string else
  '(index, offset) ← read_u32 raw offset;
  '(script_len, offset) ← read_u8 raw offset;
  '(sig, offset) ← read_bytes raw offset script_len;
  '(seq, offset) ← read_u32 raw offset;
  Ok ({| prev_txid := prev_txid_bytes; prev_index := index;
         script_sig := sig; sequence := seq |}, offset).

Definition read_output (raw : bytes) (offset : Z) : res string (TxOutput * Z) :=
  '(v, offset) ← read_u64 raw offset;
  '(script_len, offset) ← read_varint_at raw offset;
  script_len ← ok_or script_len "unexpected EOF reading output script_len varint"%string;
  '(script, offset) ← read_bytes raw offset script_len;
  Ok ({| value := v; script_pubkey := script |}, offset).

(** [for _ in 0..count { xs.push(read()?) }] *)
Fixpoint read_many {A} (rd : bytes -> Z -> res string (A * Z)) (n : nat)
    (raw : bytes) (offset : Z) : res string (list A * Z) :=
  match n with
  | O => Ok ([], offset)
  | S n =>
      '(x, offset) ← rd raw offset;
      '(xs, offset) ← read_many rd n raw offset;
      Ok (x :: xs, offset)
  end.

Definition decode_full_tx_at (raw : bytes) (offset : Z) : res string (Transaction * Z) :=
  '(version, offset) ← read_u32 raw offset;
  '(input_count, offset) ← read_u8 raw offset;
  '(inputs, offset) ← read_many read_input (Z.to_nat input_count) raw offset;
  '(output_count, offset) ← read_u8 raw offset;
  '(outputs, offset) ← read_many read_output (Z.to_nat output_count) raw offset;
  '(locktime, offset) ← read_u32 raw offset;
  Ok ({| tx_version := version; tx_inputs := inputs;
         tx_outputs := outputs; tx_locktime := locktime |}, offset).

Definition decode_full_tx (raw : bytes) : res string Transaction :=
  '(tx, offset) ← decode_full_tx_at raw 0;
  if negb (offset =? len raw) then Err "trailing bytes after transaction"%string else
  Ok tx.

(** ** Well-formed transactions

    [wf_*] are the Rust types of the fields; [wire_*] add what the wire format
    can carry: counts and input scripts of at most 255. *)
Definition wf_input (i : TxInput) : Prop :=
  arr 32 (prev_txid i) /\ u32 (prev_index i) /\ wf_bytes (script_sig i) /\ u32 (sequence i).
Definition wire_input (i : TxInput) : Prop := wf_input i /\ len (script_sig i) <= 255.

Definition wf_output (o : TxOutput) : Prop :=
  u64 (value o) /\ wf_bytes (script_pubkey o) /\ u64 (len (script_pubkey o)).

Definition wf_tx (tx : Transaction) : Prop :=
  u32 (tx_version tx) /\ Forall wf_input (tx_inputs tx) /\
  Forall wf_output (tx_outputs tx) /\ u32 (tx_locktime tx).
Definition wire_tx (tx : Transaction) : Prop :=
  u32 (tx_version tx) /\ Forall wire_input (tx_inputs tx) /\ len (tx_inputs tx) <= 255 /\
  Forall wf_output (tx_outputs tx) /\ len (tx_outputs tx) <= 255 /\ u32 (tx_locktime tx).

(** ** Readers invert encoders

    [reads rd enc a]: wherever the encoding [enc] stands in a buffer (of at
    most [isize::MAX] bytes), the reader [rd] at its start returns [a] and the
    offset of its end. *)
Definition reads {E A} (rd : bytes -> Z -> res E (A * Z)) (enc : bytes) (a : A) : Prop :=
  forall pre post, len (pre ++ enc ++ post) < 2 ^ 63 ->
  rd (pre ++ enc ++ post) (len pre) = Ok (a, len pre + len enc).

Lemma reads_bind {E A B} (rd : bytes -> Z -> res E (A * Z))
    (k : A -> bytes -> Z -> res E (B * Z)) e1 e2 a b :
  reads rd e1 a -> reads (k a) e2 b ->
  reads (fun raw off => '(x, off) ← rd raw off; k x raw off) (e1 ++ e2) b.
Proof.
  intros H1 H2 pre post Hl. rewrite <- app_assoc in *. rewrite H1 by done. bind_simpl.
  specialize (H2 (pre ++ e1) post). rewrite <- app_assoc, (len_app pre e1) in H2.
  rewrite H2 by done. rewrite len_app. do 2 f_equal. lia.
Qed.

Lemma reads_ret {E A} (a : A) : @reads E A (fun _ off => Ok (a, off)) [] a.
Proof. intros pre post _. rewrite len_nil. do 2 f_equal. lia. Qed.

Lemma reads_ext {E A} (rd rd' : bytes -> Z -> res E (A * Z)) enc enc' a :
  (forall raw off, rd raw off = rd' raw off) -> enc = enc' -> reads rd enc a -> reads rd' enc' a.
Proof. intros He <- H pre post Hl. rewrite <- He. by apply H. Qed.

Lemma reads_u8 v : reads read_u8 [v] v.
Proof.
  intros pre post _. unfold read_u8. if_lia.
  rewrite idx_skip by lia. rewrite idx_here by lia. done.
Qed.

Lemma reads_u32 v : u32 v -> reads read_u32 (le_bytes 4 v) v.
Proof.
  intros Hv pre post _. unfold read_u32. if_lia. parse_step.
  rewrite le_val_u32, len_le_bytes4 by done. done.
Qed.

Lemma reads_u64 v : u64 v -> reads read_u64 (le_bytes 8 v) v.
Proof.
  intros Hv pre post _. unfold read_u64. if_lia. parse_step.
  rewrite le_val_u64, len_le_bytes8 by done. done.
Qed.

Lemma reads_bytes x n : n = len x -> reads (fun raw off => read_bytes raw off n) x x.
Proof.
  intros -> pre post Hl. unfold read_bytes, wadd64.
  assert (0 <= len pre + len x < 2 ^ 63).
  { rewrite !len_app in Hl. pose proof (len_nonneg pre). pose proof (len_nonneg x).
    pose proof (len_nonneg post). lia. }
  rewrite Z.mod_small by lia. if_lia. by parse_step.
Qed.

Lemma read_varint_here {E} pre n post :
  u64 n -> @read_varint_at E (pre ++ write_varint n ++ post) (len pre) =
           Ok (Some n, len pre + len (write_varint n)).
Proof.
  intros Hn. unfold u64 in Hn. unfold write_varint.
  destruct (n <? 0xfd) eqn:H1; [|destruct (n <=? 0xffff) eqn:H2;
    [|destruct (n <=? 0xffffffff) eqn:H3]]; unfold read_varint_at;
    rewrite <- ?app_assoc; if_lia; parse_step; cbv zeta.
  - rewrite as_u8_small by lia. repeat if_lia. done.
  - repeat if_lia. parse_step. unfold as_u16. rewrite Z.mod_small by lia.
    rewrite le_val_u16 by (unfold u16; lia). do 2 f_equal. len_lia.
  - repeat if_lia. parse_step. unfold as_u32. rewrite Z.mod_small by lia.
    rewrite le_val_u32 by (unfold u32; lia). do 2 f_equal. len_lia.
  - repeat if_lia. parse_step. rewrite le_val_u64 by done. do 2 f_equal. len_lia.
Qed.

Lemma reads_varint {E} n : u64 n -> reads (@read_varint_at E) (write_varint n) (Some n).
Proof. intros Hn pre post _. by apply read_varint_here. Qed.

Lemma len_write_varint n : 1 <= len (write_varint n) <= 9.
Proof.
  unfold write_varint. destruct (n <? 0xfd); [done|]. destruct (n <=? 0xffff); [by split|].
  by destruct (n <=? 0xffffffff).
Qed.

Lemma reads_guard {E A} (b : bool) (e : E) (rd : bytes -> Z -> res E (A * Z)) enc a :
  b = false -> reads rd enc a -> reads (fun raw off => if b then Err e else rd raw off) enc a.
Proof. by intros ->. Qed.

Lemma reads_input i : wire_input i -> reads read_input (serialize_input i) i.
Proof.
  destruct i as [h n sg sq]. unfold wire_input, wf_input, read_input, serialize_input.
  cbn [prev_txid prev_index script_sig sequence]. intros (([Hh _] & Hn & _ & Hs) & Hsg).
  pose proof (len_nonneg sg).
  eapply reads_bind; [apply reads_u8|].
  eapply reads_bind; [apply reads_bytes; rewrite as_u8_small; lia|].
  apply reads_guard; [lia|].
  eapply reads_bind; [by apply reads_u32|].
  eapply reads_bind; [apply reads_u8|].
  eapply reads_bind; [apply reads_bytes; rewrite as_u8_small; lia|].
  rewrite <- (app_nil_r (le_bytes 4 sq)).
  eapply reads_bind; [by apply reads_u32|]. apply reads_ret.
Qed.

Lemma reads_output o : wf_output o -> reads read_output (serialize_output o) o.
Proof.
  destruct o as [v sc]. unfold wf_output, read_output, serialize_output.
  cbn [value script_pubkey]. intros (Hv & _ & Hl).
  eapply reads_bind; [by apply reads_u64|].
  eapply reads_bind; [by apply reads_varint|]. bind_simpl.
  eapply (reads_ext _ _ (sc ++ [])); [reflexivity | apply app_nil_r |].
  eapply reads_bind; [by apply reads_bytes|]. apply reads_ret.
Qed.

Lemma reads_many {A} (rd : bytes -> Z -> res string (A * Z)) (enc : A -> bytes) xs n :
  Forall (fun x => reads rd (enc x) x) xs -> n = length xs ->
  reads (read_many rd n) (concat (enc <$> xs)) xs.
Proof.
  intros H ->. induction H as [|x xs Hx _ IH]; cbn; [apply reads_ret|].
  eapply reads_bind; [apply Hx|]. rewrite <- (app_nil_r (concat _)).
  eapply reads_bind; [apply IH|]. apply reads_ret.
Qed.

Lemma reads_tx tx : wire_tx tx -> reads decode_full_tx_at (serialize tx) tx.
Proof.
  destruct tx as [v ins outs lt]. unfold wire_tx, decode_full_tx_at, serialize.
  cbn [tx_version tx_inputs tx_outputs tx_locktime]. intros (Hv & Hi & Hil & Ho & Hol & Hlt).
  pose proof (len_nonneg ins). pose proof (len_nonneg outs).
  eapply reads_bind; [by apply reads_u32|].
  eapply reads_bind; [apply reads_u8|].
  eapply reads_bind; [eapply reads_many; [eapply Forall_impl; [exact Hi | apply reads_input]|];
    rewrite as_u8_small by lia; unfold len; lia|].
  eapply reads_bind; [apply reads_u8|].
  eapply reads_bind; [eapply reads_many; [eapply Forall_impl; [exact Ho | apply reads_output]|];
    rewrite as_u8_small by lia; unfold len; lia|].
  rewrite <- (app_nil_r (le_bytes 4 lt)).
  eapply reads_bind; [by apply reads_u32|]. apply reads_ret.
Qed.

Lemma decode_serialize_wire tx :
  wire_tx tx -> len (serialize tx) < 2 ^ 63 -> decode_full_tx (serialize tx) = Ok tx.
Proof.
  intros Hw Hl. unfold decode_full_tx.
  pose proof (reads_tx tx Hw [] []) as H. cbn [app] in H. rewrite app_nil_r, len_nil in H.
  rewrite H by done. bind_simpl. by rewrite Z.add_0_l, Z.eqb_refl.
Qed.

(** ** What the decoder accepts *)

(** [sound rd P]: on a well-formed buffer, what [rd] returns satisfies [P] and
    the offset moves forward inside the buffer. *)
Definition sound {E A} (rd : bytes -> Z -> res E (A * Z)) (P : A -> Prop) : Prop :=
  forall raw off a off', wf_bytes raw -> 0 <= off <= len raw ->
  rd raw off = Ok (a, off') -> P a /\ off <= off' <= len raw.

Lemma sound_bind {E A B} (rd : bytes -> Z -> res E (A * Z))
    (k : A -> bytes -> Z -> res E (B * Z)) P Q :
  sound rd P -> (forall a, P a -> sound (k a) Q) ->
  sound (fun raw off => '(x, off) ← rd raw off; k x raw off) Q.
Proof.
  intros H1 H2 raw off b off' Hw Ho H.
  destruct (rd raw off) as [[a o] | |] eqn:Hr; [|discriminate..]. bind_simpl_in H.
  destruct (H1 _ _ _ _ Hw Ho Hr) as [Ha Hoo].
  assert (0 <= o <= len raw) as Ho' by lia.
  destruct (H2 a Ha _ _ _ _ Hw Ho' H) as [? ?]. split; [done | lia].
Qed.

Lemma sound_ret {E A} (a : A) (P : A -> Prop) : P a -> @sound E A (fun _ off => Ok (a, off)) P.
Proof. intros Ha raw off b off' _ ? [= <- <-]. split; [done | lia]. Qed.

Lemma sound_guard {E A} (b : bool) (e : E) (rd : bytes -> Z -> res E (A * Z)) P :
  (b = false -> sound rd P) -> sound (fun raw off => if b then Err e else rd raw off) P.
Proof. destruct b; [by intros _ ? | auto]. Qed.

Lemma sound_u8 : sound read_u8 u8.
Proof.
  intros raw off a off' Hw Ho H. unfold read_u8 in H. invert_parser H. injection H as <- <-.
  pose proof (idx_Ok_inv _ _ _ Heqr) as [? _]. split; [by eapply idx_u8 | lia].
Qed.

Lemma sound_u32 : sound read_u32 u32.
Proof.
  intros raw off a off' Hw Ho H. unfold read_u32 in H. invert_parser H. injection H as <- <-.
  split; [arr_solve | lia].
Qed.

Lemma sound_u64 : sound read_u64 u64.
Proof.
  intros raw off a off' Hw Ho H. unfold read_u64 in H. invert_parser H. injection H as <- <-.
  split; [arr_solve | lia].
Qed.

Lemma sound_bytes n :
  0 <= n -> sound (fun raw off => read_bytes raw off n) (fun x => wf_bytes x /\ len x <= n).
Proof.
  intros Hn raw off a off' Hw Ho H. unfold read_bytes, wadd64 in H. invert_parser H.
  injection H as <- <-. pose proof (slice_Ok_inv _ _ _ _ Heqr) as (? & ? & _).
  pose proof (slice_Ok_len _ _ _ _ Heqr). pose proof (Z.mod_le (off + n) (2 ^ 64)).
  split_and!; [by eapply slice_Forall | lia | lia | lia].
Qed.

Lemma sound_varint {E} : sound (@read_varint_at E) (fun o => forall n, o = Some n -> u64 n).
Proof.
  intros raw off a off' Hw Ho H. unfold read_varint_at in H. invert_parser H;
    injection H as <- <-; (split; [|lia]); intros n Hn; try discriminate Hn; injection Hn as <-.
  - arr_solve.
  - pose proof (arr_le_val 4 a1 ltac:(arr_solve)). unfold u64. lia.
  - pose proof (arr_le_val 2 a1 ltac:(arr_solve)). unfold u64. lia.
  - pose proof (idx_u8 _ _ _ Hw Heqr). unfold u8, u64 in *. lia.
Qed.

Lemma sound_input : sound read_input wire_input.
Proof.
  unfold read_input. eapply sound_bind; [apply sound_u8|]. intros n Hn. unfold u8 in Hn.
  eapply sound_bind; [apply sound_bytes; lia|]. intros h [Hh _].
  apply sound_guard; intros Hl.
  eapply sound_bind; [apply sound_u32|]. intros i Hi.
  eapply sound_bind; [apply sound_u8|]. intros m Hm. unfold u8 in Hm.
  eapply sound_bind; [apply sound_bytes; lia|]. intros sg [Hs Hsl].
  eapply sound_bind; [apply sound_u32|]. intros q Hq.
  apply sound_ret. unfold wire_input, wf_input, arr; cbn. split_and!; done || lia.
Qed.

Lemma sound_output : sound read_output wf_output.
Proof.
  unfold read_output. eapply sound_bind; [apply sound_u64|]. intros v Hv.
  eapply sound_bind; [apply sound_varint|]. intros [n|] Hn; cbn; [|by intros ?].
  specialize (Hn _ eq_refl). unfold u64 in Hn.
  eapply sound_bind; [apply sound_bytes; lia|]. intros sc [Hs Hl]. apply sound_ret.
  unfold wf_output; cbn. split_and!; [done..|]. pose proof (len_nonneg sc). unfold u64. lia.
Qed.

Lemma sound_many {A} (rd : bytes -> Z -> res string (A * Z)) P n :
  sound rd P -> sound (read_many rd n) (fun xs => Forall P xs /\ length xs = n).
Proof.
  intros Hrd. induction n as [|n IH]; [by apply sound_ret|]. cbn [read_many].
  eapply sound_bind; [apply Hrd|]. intros x Hx.
  eapply sound_bind; [apply IH|]. intros xs [Hxs <-]. apply sound_ret. split; [by constructor | done].
Qed.

Lemma sound_tx : sound decode_full_tx_at wire_tx.
Proof.
  unfold decode_full_tx_at. eapply sound_bind; [apply sound_u32|]. intros v Hv.
  eapply sound_bind; [apply sound_u8|]. intros n Hn. unfold u8 in Hn.
  eapply sound_bind; [apply sound_many, sound_input|]. intros ins [Hi Hil].
  eapply sound_bind; [apply sound_u8|]. intros m Hm. unfold u8 in Hm.
  eapply sound_bind; [apply sound_many, sound_output|]. intros outs [Ho Hol].
  eapply sound_bind; [apply sound_u32|]. intros lt Hlt. apply sound_ret.
  unfold wire_tx, len; cbn. split_and!; done || lia.
Qed.

Lemma decode_full_tx_wire raw tx :
  wf_bytes raw -> decode_full_tx raw = Ok tx -> wire_tx tx.
Proof.
  intros Hw H. unfold decode_full_tx in H. invert_parser H. injection H as <-.
  eapply sound_tx in Heqr as [? _]; [done | done |]. pose proof (len_nonneg raw). lia.
Qed.

(** Transactions round-trip: the decoder reads back every transaction whose
    counts and input scripts fit in one byte from its serialization, and it
    returns no other transactions. *)
Theorem tx_codec_roundtrip :
  (forall tx, wire_tx tx -> len (serialize tx) < 2 ^ 63 -> decode_full_tx (serialize tx) = Ok tx) /\
  (forall raw tx, wf_bytes raw -> decode_full_tx raw = Ok tx -> wire_tx tx).
Proof. split; [apply decode_serialize_wire | apply decode_full_tx_wire]. Qed.

(** ** Panics and truncation *)
Lemma read_bytes_spec buf off n :
  0 <= off <= len buf -> len buf < 2 ^ 63 -> u64 n ->
  read_bytes buf off n =
  if 2 ^ 64 <=? off + n then Panic
  else if len buf <? off + n then Err "unexpected EOF"%string
  else Ok (take (Z.to_nat n) (drop (Z.to_nat off) buf), off + n).
Proof.
  intros Ho Hl Hn. unfold u64 in Hn. unfold read_bytes, wadd64.
  destruct (2 ^ 64 <=? off + n) eqn:H1.
  - replace ((off + n) mod 2 ^ 64) with (off + n - 2 ^ 64).
    2:{ symmetry. rewrite <- (Z.mod_unique (off + n) (2 ^ 64) 1 (off + n - 2 ^ 64)); lia. }
    if_lia. unfold slice.
    by replace ((0 <=? off) && (off <=? off + n - 2 ^ 64) && (off + n - 2 ^ 64 <=? len buf))
      with false by lia.
  - rewrite Z.mod_small by lia. destruct (len buf <? off + n) eqn:H2; [done|]. unfold slice.
    replace ((0 <=? off) && (off <=? off + n) && (off + n <=? len buf)) with true by lia.
    bind_simpl. do 3 f_equal. lia.
Qed.

(** A 23-byte message on which the decoder panics: no input, one output whose
    script length is the varint [u64::MAX]. *)
Definition varint_panic_message : bytes :=
  le_bytes 4 1 ++ [0] ++ [1] ++ le_bytes 8 0 ++ [0xff] ++ le_bytes 8 U64_MAX.

(** A short message stops the decoder: the varint that gives the length of an
    output script can hold any 64-bit number, the decoder adds it to its offset
    without a check, and on this 23-byte message the sum wraps around and the
    slice panics instead of returning an error. *)
Theorem decode_full_tx_panics :
  wf_bytes varint_panic_message /\ decode_full_tx varint_panic_message = Panic.
Proof. split; [wf_compute | vm_compute; reflexivity]. Qed.

(** An input script of more than 255 bytes is lost by the wire format. *)
Lemma long_script_sig_undecodable tx raw i :
  wf_bytes raw -> i ∈ tx_inputs tx -> 255 < len (script_sig i) -> decode_full_tx raw <> Ok tx.
Proof.
  intros Hw Hi Hl H. apply decode_full_tx_wire in H as (_ & Hf & _); [|done].
  rewrite Forall_forall in Hf. destruct (Hf i Hi). lia.
Qed.

(** The length byte of a 256-byte input script is 0, so the script is read as
    the rest of the transaction. *)
Definition long_sig_tx : Transaction :=
  {| tx_version := 1;
     tx_inputs := [ {| prev_txid := zeros 32; prev_index := 7;
                       script_sig := le_bytes 4 5 ++ [1] ++ le_bytes 8 1000 ++ [247] ++
                                     replicate 242 0x51;
                       sequence := 0 |} ];
     tx_outputs := []; tx_locktime := 0 |}.
Definition aliased_tx : Transaction :=
  {| tx_version := 1;
     tx_inputs := [ {| prev_txid := zeros 32; prev_index := 7; script_sig := []; sequence := 5 |} ];
     tx_outputs := [ {| value := 1000; script_pubkey := replicate 242 0x51 ++ zeros 5 |} ];
     tx_locktime := 0 |}.

(** The wire encoding is ambiguous: two different transactions, one of them with
    an input script of 256 bytes, have one and the same serialization (so one
    txid), and decoding it gives the other one. *)
Theorem serialize_not_injective :
  wf_tx long_sig_tx /\ wire_tx aliased_tx /\ long_sig_tx <> aliased_tx /\
  serialize long_sig_tx = serialize aliased_tx /\
  decode_full_tx (serialize long_sig_tx) = Ok aliased_tx.
Proof.
  split_and!; [| | done | vm_compute; reflexivity | vm_compute; reflexivity].
  - unfold wf_tx, long_sig_tx, wf_input; cbn [tx_version tx_inputs tx_outputs tx_locktime].
    wf_compute.
  - unfold wire_tx, aliased_tx, wire_input, wf_input, wf_output;
      cbn [tx_version tx_inputs tx_outputs tx_locktime]. wf_compute.
Qed.
