(* ===== verification/Witness.v ===== *)
(** * Witness: the input scripts of [src/src/tx.rs]

    The encoder and the parser of every witness: the legacy P2PKH script, the
    HTLCv1 claim and refund, the MPSOv1 claim and refund (encoders; the
    verifier parses them itself), the BTC and LTC swap HTLC witnesses and the
    BTC and LTC swap-order witnesses.

    Shown here: no witness parser panics, each swap-witness parser inverts its
    encoders, and the proof witness of a realistic Bitcoin payment does not fit
    the one-byte script length of the wire format. *)

From S2P Require Import Prelude Script TxCodec.

Definition HTLC_WITNESS_CLAIM : Z := 1.
Definition HTLC_WITNESS_REFUND : Z := 2.
Definition HTLC_BTC_SWAP_WITNESS_CLAIM : Z := 1.
Definition HTLC_BTC_SWAP_WITNESS_REFUND : Z := 2.
Definition HTLC_LTC_SWAP_WITNESS_CLAIM : Z := 1.
Definition HTLC_LTC_SWAP_WITNESS_REFUND : Z := 2.
Definition SWAP_ORDER_WITNESS_FILL : Z := 0x01.
Definition SWAP_ORDER_WITNESS_CANCEL : Z := 0x02.
Definition SWAP_ORDER_WITNESS_EXPIRE_SWEEP : Z := 0x03.
Definition LTC_SWAP_ORDER_WITNESS_FILL : Z := 0x01.
Definition LTC_SWAP_ORDER_WITNESS_CANCEL : Z := 0x02.
Definition LTC_SWAP_ORDER_WITNESS_EXPIRE_SWEEP : Z := 0x03.

(** ** Witness types *)
Inductive SwapOrderWitness :=
| SoFillSell (sig pubkey taker_iriumd_pkh : bytes) (timeout_height : Z)
| SoFillBuy (sig pubkey : bytes) (irm_timeout_height : Z)
| SoCancel (sig pubkey : bytes)
| SoExpireSweep.

Inductive LtcSwapOrderWitness :=
| LoFillSell (sig pubkey taker_iriumd_pkh : bytes) (timeout_height : Z)
| LoFillBuy (sig pubkey : bytes) (irm_timeout_height : Z)
| LoCancel (sig pubkey : bytes)
| LoExpireSweep.

Inductive HtlcBtcSwapWitness :=
| HbClaim (sig pubkey btc_block_hash : bytes) (btc_merkle_branch : list bytes)
          (btc_merkle_index : Z) (btc_tx_raw : bytes)
| HbRefund (sig pubkey : bytes).

Inductive HtlcLtcSwapWitness :=
| HlClaim (sig pubkey ltc_block_hash : bytes) (ltc_merkle_branch : list bytes)
          (ltc_merkle_index : Z) (ltc_tx_raw : bytes)
| HlRefund (sig pubkey : bytes).

Inductive InputWitness :=
| WitP2pkh (sig pubkey : bytes)
| WitHtlcClaim (sig pubkey preimage : bytes)
| WitHtlcRefund (sig pubkey : bytes)
| WitUnknown.

(** ** Encoders *)

(** [sig.is_empty() || sig.len() > 255 || pubkey.is_empty() || pubkey.len() > 255] *)
Definition bad_len (x : bytes) : bool := (len x =? 0) || (255 <? len x).

(** [push(x.len() as u8); extend_from_slice(x)] *)
Definition push_var (x : bytes) : bytes := [as_u8 (len x)] ++ x.

Definition encode_htlc_btc_swap_claim_witness (sig pubkey btc_block_hash : bytes)
    (btc_merkle_branch : list bytes) (btc_merkle_index : Z) (btc_tx_raw : bytes)
    : option bytes :=
  if bad_len sig then None else
  if bad_len pubkey then None else
  if U16_MAX <? len btc_merkle_branch then None else
  if len btc_tx_raw =? 0 then None else
  Some ([HTLC_BTC_SWAP_WITNESS_CLAIM] ++
        push_var sig ++
        push_var pubkey ++
        btc_block_hash ++
        le_bytes 2 (as_u16 (len btc_merkle_branch)) ++
        concat btc_merkle_branch ++
        le_bytes 4 btc_merkle_index ++
        write_varint (len btc_tx_raw) ++
        btc_tx_raw).

Definition encode_htlc_btc_swap_refund_witness (sig pubkey : bytes) : option bytes :=
  if bad_len sig || bad_len pubkey then None else
  Some ([HTLC_BTC_SWAP_WITNESS_REFUND] ++ push_var sig ++ push_var pubkey).

Definition encode_htlc_ltc_swap_claim_witness (sig pubkey ltc_block_hash : bytes)
    (ltc_merkle_branch : list bytes) (ltc_merkle_index : Z) (ltc_tx_raw : bytes)
    : option bytes :=
  if bad_len sig then None else
  if bad_len pubkey then None else
  if U16_MAX <? len ltc_merkle_branch then None else
  if len ltc_tx_raw =? 0 then None else
  Some ([HTLC_LTC_SWAP_WITNESS_CLAIM] ++
        push_var sig ++
        push_var pubkey ++
        ltc_block_hash ++
        le_bytes 2 (as_u16 (len ltc_merkle_branch)) ++
        concat ltc_merkle_branch ++
        le_bytes 4 ltc_merkle_index ++
        write_varint (len ltc_tx_raw) ++
        ltc_tx_raw).

Definition encode_htlc_ltc_swap_refund_witness (sig pubkey : bytes) : option bytes :=
  if bad_len sig || bad_len pubkey then None else
  Some ([HTLC_LTC_SWAP_WITNESS_REFUND] ++ push_var sig ++ push_var pubkey).

Definition encode_swap_order_fill_sell_witness (sig pubkey taker_iriumd_pkh : bytes)
    (timeout_height : Z) : option bytes :=
  if bad_len sig || bad_len pubkey then None else
  Some ([SWAP_ORDER_WITNESS_FILL] ++ push_var sig ++ push_var pubkey ++
        taker_iriumd_pkh ++ le_bytes 8 timeout_height).

Definition encode_swap_order_fill_buy_witness (sig pubkey : bytes)
    (irm_timeout_height : Z) : option bytes :=
  if bad_len sig || bad_len pubkey then None else
  Some ([SWAP_ORDER_WITNESS_FILL] ++ push_var sig ++ push_var pubkey ++
        le_bytes 8 irm_timeout_height).

Definition encode_swap_order_cancel_witness (sig pubkey : bytes) : option bytes :=
  if bad_len sig || bad_len pubkey then None else
  Some ([SWAP_ORDER_WITNESS_CANCEL] ++ push_var sig ++ push_var pubkey).

Definition encode_swap_order_expire_sweep_witness : bytes :=
  [SWAP_ORDER_WITNESS_EXPIRE_SWEEP].

Definition encode_ltc_swap_order_fill_sell_witness (sig pubkey taker_iriumd_pkh : bytes)
    (timeout_height : Z) : option bytes :=
  if bad_len sig || bad_len pubkey then None else
  Some ([LTC_SWAP_ORDER_WITNESS_FILL] ++ push_var sig ++ push_var pubkey ++
        taker_iriumd_pkh ++ le_bytes 8 timeout_height).

Definition encode_ltc_swap_order_fill_buy_witness (sig pubkey : bytes)
    (irm_timeout_height : Z) : option bytes :=
  if bad_len sig || bad_len pubkey then None else
  Some ([LTC_SWAP_ORDER_WITNESS_FILL] ++ push_var sig ++ push_var pubkey ++
        le_bytes 8 irm_timeout_height).

Definition encode_ltc_swap_order_cancel_witness (sig pubkey : bytes) : option bytes :=
  if bad_len sig || bad_len pubkey then None else
  Some ([LTC_SWAP_ORDER_WITNESS_CANCEL] ++ push_var sig ++ push_var pubkey).

Definition encode_ltc_swap_order_expire_sweep_witness : bytes :=
  [LTC_SWAP_ORDER_WITNESS_EXPIRE_SWEEP].

Definition encode_htlcv1_claim_witness (sig pubkey preimage : bytes) : option bytes :=
  if bad_len sig || bad_len pubkey || bad_len preimage then None else
  Some ([HTLC_WITNESS_CLAIM] ++ push_var sig ++ push_var pubkey ++ push_var preimage).

Definition encode_htlcv1_refund_witness (sig pubkey : bytes) : option bytes :=
  if bad_len sig || bad_len pubkey then None else
  Some ([HTLC_WITNESS_REFUND] ++ push_var sig ++ push_var pubkey).

Definition encode_mpso_claim_witness (bitmap : Z) (sigs : list bytes)
    (preimage : option bytes) : option bytes :=
  if existsb bad_len sigs then None else
  match preimage with
  | Some pre =>
      if (len pre =? 0) || (64 <? len pre) then None
      else Some ([0x01] ++ [bitmap] ++ concat (push_var <$> sigs) ++ push_var pre)
  | None => Some ([0x01] ++ [bitmap] ++ concat (push_var <$> sigs))
  end.

Definition encode_mpso_refund_witness (bitmap : Z) (sigs : list bytes) : option bytes :=
  if existsb bad_len sigs then None else
  Some ([0x02] ++ [bitmap] ++ concat (push_var <$> sigs)).

(** ** Parsers of the swap witnesses *)

(** The loop that reads the [branch_len] 32-byte hashes of a Merkle branch. *)
Fixpoint read_branch (script_sig : bytes) (n : nat) (off : Z) : opt (list bytes * Z) :=
  match n with
  | O => Ok ([], off)
  | S n =>
      h ← slice script_sig off (off + 32);
      '(hs, off) ← read_branch script_sig n (off + 32);
      Ok (h :: hs, off)
  end.

Definition parse_htlc_btc_swap_witness (script_sig : bytes) : opt HtlcBtcSwapWitness :=
  if len script_sig =? 0 then NoneR else
  b0 ← idx script_sig 0;
  if b0 =? HTLC_BTC_SWAP_WITNESS_CLAIM then
    sig_len ← get_opt script_sig 1;
    let off := 2 in
    if (sig_len =? 0) || (len script_sig <? off + sig_len) then NoneR else
    sig ← slice script_sig off (off + sig_len);
    let off := off + sig_len in
    pk_len ← get_opt script_sig off;
    let off := off + 1 in
    if (pk_len =? 0) || (len script_sig <? off + pk_len) then NoneR else
    pubkey ← slice script_sig off (off + pk_len);
    let off := off + pk_len in
    if len script_sig <? off + 32 then NoneR else
    btc_block_hash ← slice script_sig off (off + 32);
    let off := off + 32 in
    if len script_sig <? off + 2 then NoneR else
    branch_len_bytes ← slice script_sig off (off + 2);
    let branch_len := le_val branch_len_bytes in
    let off := off + 2 in
    if 32 <? branch_len then NoneR else
    if len script_sig <? off + branch_len * 32 then NoneR else
    '(btc_merkle_branch, off) ← read_branch script_sig (Z.to_nat branch_len) off;
    if len script_sig <? off + 4 then NoneR else
    index_bytes ← slice script_sig off (off + 4);
    let off := off + 4 in
    '(tx_len, off) ← read_varint_at script_sig off;
    tx_len ← ok_or tx_len tt;
    if (tx_len =? 0) || (1000000 <? tx_len) || negb (off + tx_len =? len script_sig)
    then NoneR else
    btc_tx_raw ← slice script_sig off (off + tx_len);
    Ok (HbClaim sig pubkey btc_block_hash btc_merkle_branch (le_val index_bytes) btc_tx_raw)
  else if b0 =? HTLC_BTC_SWAP_WITNESS_REFUND then
    sig_len ← get_opt script_sig 1;
    let off := 2 in
    if (sig_len =? 0) || (len script_sig <? off + sig_len) then NoneR else
    sig ← slice script_sig off (off + sig_len);
    let off := off + sig_len in
    pk_len ← get_opt script_sig off;
    let off := off + 1 in
    if (pk_len =? 0) || negb (off + pk_len =? len script_sig) then NoneR else
    pubkey ← slice script_sig off (off + pk_len);
    Ok (HbRefund sig pubkey)
  else NoneR.

Definition parse_htlc_ltc_swap_witness (script_sig : bytes) : opt HtlcLtcSwapWitness :=
  if len script_sig =? 0 then NoneR else
  b0 ← idx script_sig 0;
  if b0 =? HTLC_LTC_SWAP_WITNESS_CLAIM then
    sig_len ← get_opt script_sig 1;
    let off := 2 in
    if (sig_len =? 0) || (len script_sig <? off + sig_len) then NoneR else
    sig ← slice script_sig off (off + sig_len);
    let off := off + sig_len in
    pk_len ← get_opt script_sig off;
    let off := off + 1 in
    if (pk_len =? 0) || (len script_sig <? off + pk_len) then NoneR else
    pubkey ← slice script_sig off (off + pk_len);
    let off := off + pk_len in
    if len script_sig <? off + 32 then NoneR else
    ltc_block_hash ← slice script_sig off (off + 32);
    let off := off + 32 in
    if len script_sig <? off + 2 then NoneR else
    branch_len_bytes ← slice script_sig off (off + 2);
    let branch_len := le_val branch_len_bytes in
    let off := off + 2 in
    if 32 <? branch_len then NoneR else
    if len script_sig <? off + branch_len * 32 then NoneR else
    '(ltc_merkle_branch, off) ← read_branch script_sig (Z.to_nat branch_len) off;
    if len script_sig <? off + 4 then NoneR else
    index_bytes ← slice script_sig off (off + 4);
    let off := off + 4 in
    '(tx_len, off) ← read_varint_at script_sig off;
    tx_len ← ok_or tx_len tt;
    if (tx_len =? 0) || (1000000 <? tx_len) || negb (off + tx_len =? len script_sig)
    then NoneR else
    ltc_tx_raw ← slice script_sig off (off + tx_len);
    Ok (HlClaim sig pubkey ltc_block_hash ltc_merkle_branch (le_val index_bytes) ltc_tx_raw)
  else if b0 =? HTLC_LTC_SWAP_WITNESS_REFUND then
    sig_len ← get_opt script_sig 1;
    let off := 2 in
    if (sig_len =? 0) || (len script_sig <? off + sig_len) then NoneR else
    sig ← slice script_sig off (off + sig_len);
    let off := off + sig_len in
    pk_len ← get_opt script_sig off;
    let off := off + 1 in
    if (pk_len =? 0) || negb (off + pk_len =? len script_sig) then NoneR else
    pubkey ← slice script_sig off (off + pk_len);
    Ok (HlRefund sig pubkey)
  else NoneR.

Definition parse_swap_order_witness (script_sig : bytes) (direction : Z)
    : opt SwapOrderWitness :=
  if len script_sig =? 0 then NoneR else
  b0 ← idx script_sig 0;
  if b0 =? SWAP_ORDER_WITNESS_FILL then
    sig_len ← get_opt script_sig 1;
    let off := 2 in
    if (sig_len =? 0) || (len script_sig <? off + sig_len) then NoneR else
    sig ← slice script_sig off (off + sig_len);
    let off := off + sig_len in
    pk_len ← get_opt script_sig off;
    let off := off + 1 in
    if (pk_len =? 0) || (len script_sig <? off + pk_len) then NoneR else
    pubkey ← slice script_sig off (off + pk_len);
    let off := off + pk_len in
    if direction =? SWAP_ORDER_DIRECTION_SELL then
      if negb (off + 20 + 8 =? len script_sig) then NoneR else
      taker_iriumd_pkh ← slice script_sig off (off + 20);
      let off := off + 20 in
      tb ← slice script_sig off (off + 8);
      Ok (SoFillSell sig pubkey taker_iriumd_pkh (le_val tb))
    else if direction =? SWAP_ORDER_DIRECTION_BUY then
      if negb (off + 8 =? len script_sig) then NoneR else
      tb ← slice script_sig off (off + 8);
      Ok (SoFillBuy sig pubkey (le_val tb))
    else NoneR
  else if b0 =? SWAP_ORDER_WITNESS_CANCEL then
    sig_len ← get_opt script_sig 1;
    let off := 2 in
    if (sig_len =? 0) || (len script_sig <? off + sig_len) then NoneR else
    sig ← slice script_sig off (off + sig_len);
    let off := off + sig_len in
    pk_len ← get_opt script_sig off;
    let off := off + 1 in
    if (pk_len =? 0) || negb (off + pk_len =? len script_sig) then NoneR else
    pubkey ← slice script_sig off (off + pk_len);
    Ok (SoCancel sig pubkey)
  else if b0 =? SWAP_ORDER_WITNESS_EXPIRE_SWEEP then
    if negb (len script_sig =? 1) then NoneR else Ok SoExpireSweep
  else NoneR.

Definition parse_ltc_swap_order_witness (script_sig : bytes) (direction : Z)
    : opt LtcSwapOrderWitness :=
  if len script_sig =? 0 then NoneR else
  b0 ← idx script_sig 0;
  if b0 =? LTC_SWAP_ORDER_WITNESS_FILL then
    sig_len ← get_opt script_sig 1;
    let off := 2 in
    if (sig_len =? 0) || (len script_sig <? off + sig_len) then NoneR else
    sig ← slice script_sig off (off + sig_len);
    let off := off + sig_len in
    pk_len ← get_opt script_sig off;
    let off := off + 1 in
    if (pk_len =? 0) || (len script_sig <? off + pk_len) then NoneR else
    pubkey ← slice script_sig off (off + pk_len);
    let off := off + pk_len in
    if direction =? LTC_SWAP_ORDER_DIRECTION_SELL then
      if negb (off + 20 + 8 =? len script_sig) then NoneR else
      taker_iriumd_pkh ← slice script_sig off (off + 20);
      let off := off + 20 in
      tb ← slice script_sig off (off + 8);
      Ok (LoFillSell sig pubkey taker_iriumd_pkh (le_val tb))
    else if direction =? LTC_SWAP_ORDER_DIRECTION_BUY then
      if negb (off + 8 =? len script_sig) then NoneR else
      tb ← slice script_sig off (off + 8);
      Ok (LoFillBuy sig pubkey (le_val tb))
    else NoneR
  else if b0 =? LTC_SWAP_ORDER_WITNESS_CANCEL then
    sig_len ← get_opt script_sig 1;
    let off := 2 in
    if (sig_len =? 0) || (len script_sig <? off + sig_len) then NoneR else
    sig ← slice script_sig off (off + sig_len);
    let off := off + sig_len in
    pk_len ← get_opt script_sig off;
    let off := off + 1 in
    if (pk_len =? 0) || negb (off + pk_len =? len script_sig) then NoneR else
    pubkey ← slice script_sig off (off + pk_len);
    Ok (LoCancel sig pubkey)
  else if b0 =? LTC_SWAP_ORDER_WITNESS_EXPIRE_SWEEP then
    if negb (len script_sig =? 1) then NoneR else Ok LoExpireSweep
  else NoneR.

(** ** Parsers of the HTLCv1 and P2PKH witnesses *)
Definition parse_legacy_p2pkh_witness (script_sig : bytes) : opt InputWitness :=
  if len script_sig <? 2 then NoneR else
  sig_len ← idx script_sig 0;
  if (sig_len =? 0) || (len script_sig <? 1 + sig_len + 1) then NoneR else
  sig ← slice script_sig 1 (1 + sig_len);
  pk_len ← idx script_sig (1 + sig_len);
  let pk_off := 1 + sig_len + 1 in
  if (pk_len =? 0) || negb (len script_sig =? pk_off + pk_len) then NoneR else
  pubkey ← slice script_sig pk_off (pk_off + pk_len);
  Ok (WitP2pkh sig pubkey).

Definition parse_input_witness (script_sig : bytes) : res unit InputWitness :=
  if len script_sig =? 0 then Ok WitUnknown else
  b0 ← idx script_sig 0;
  if b0 =? HTLC_WITNESS_CLAIM then
    if len script_sig <? 4 then Ok WitUnknown else
    sig_len ← idx script_sig 1;
    let sig_off := 2 in
    let pk_len_off := sig_off + sig_len in
    if (sig_len =? 0) || (len script_sig <=? pk_len_off) then Ok WitUnknown else
    sig ← slice script_sig sig_off pk_len_off;
    pk_len ← idx script_sig pk_len_off;
    let pk_off := pk_len_off + 1 in
    let pre_len_off := pk_off + pk_len in
    if (pk_len =? 0) || (len script_sig <=? pre_len_off) then Ok WitUnknown else
    pubkey ← slice script_sig pk_off pre_len_off;
    pre_len ← idx script_sig pre_len_off;
    let pre_off := pre_len_off + 1 in
    if (pre_len =? 0) || negb (pre_off + pre_len =? len script_sig) then Ok WitUnknown else
    preimage ← slice script_sig pre_off (pre_off + pre_len);
    Ok (WitHtlcClaim sig pubkey preimage)
  else if b0 =? HTLC_WITNESS_REFUND then
    if len script_sig <? 3 then Ok WitUnknown else
    sig_len ← idx script_sig 1;
    let sig_off := 2 in
    let pk_len_off := sig_off + sig_len in
    if (sig_len =? 0) || (len script_sig <=? pk_len_off) then Ok WitUnknown else
    sig ← slice script_sig sig_off pk_len_off;
    pk_len ← idx script_sig pk_len_off;
    let pk_off := pk_len_off + 1 in
    if (pk_len =? 0) || negb (pk_off + pk_len =? len script_sig) then Ok WitUnknown else
    pubkey ← slice script_sig pk_off (pk_off + pk_len);
    Ok (WitHtlcRefund sig pubkey)
  else
    match parse_legacy_p2pkh_witness script_sig with
    | Ok w => Ok w
    | Err _ => Ok WitUnknown
    | Panic => Panic
    end.

(** ** No witness parser panics *)
Lemma read_branch_no_panic s n off :
  0 <= off -> off + 32 * Z.of_nat n <= len s ->
  exists hs, read_branch s n off = Ok (hs, off + 32 * Z.of_nat n).
Proof.
  revert off. induction n as [|n IH]; intros off Ho Hl; cbn [read_branch].
  { exists []. do 2 f_equal. lia. }
  destruct (@slice_in unit _ s off (off + 32)) as (h & -> & _); [lia | lia |]. bind_simpl.
  destruct (IH (off + 32)) as [hs ->]; [lia | lia |]. bind_simpl. exists (h :: hs).
  do 2 f_equal. lia.
Qed.

Lemma read_varint_no_panic {E} s off :
  wf_bytes s -> 0 <= off ->
  exists o off', @read_varint_at E s off = Ok (o, off') /\ off <= off' /\
    match o with Some n => 0 <= n | None => True end.
Proof.
  intros Hw Ho. unfold read_varint_at.
  destruct (len s <=? off) eqn:?; [eexists _, _; split_and!; [done | lia | done]|].
  destruct (@idx_in E _ s off) as [b Hb]; [lia|]. rewrite Hb. bind_simpl. cbv zeta.
  pose proof (idx_u8 _ _ _ Hw Hb). unfold u8 in *.
  repeat match goal with
  | |- context [if ?b then _ else _] => destruct b eqn:?
  | |- context [mbind _ (slice s ?a ?b)] =>
      let H := fresh in
      destruct (@slice_in E _ s a b) as (? & H & _); [lia | lia | rewrite H; bind_simpl];
      pose proof (proj1 (le_val_bound _ (slice_Forall _ _ _ _ _ H Hw)))
  | |- _ => eexists _, _; split_and!; [done | lia | cbn; lia]
  end.
Qed.

(** As [no_panic], with the bounds of the bytes that were read as lengths. *)
Ltac pose_read_bounds Hw :=
  repeat match goal with
  | H : @idx ?E _ ?s ?i = Ok ?x |- _ =>
      pose proof (idx_u8 _ _ _ Hw H); pose proof (proj1 (idx_Ok_inv _ _ _ H)); clear H
  end; unfold u8 in *.
Ltac witness_step Hw :=
  lazymatch goal with
  | |- mbind _ (read_branch ?s ?n ?o) <> _ =>
      destruct (read_branch_no_panic s n o) as [? ->]; [lia | lia |]; rewrite Z2Nat.id by lia
  | |- mbind _ (@read_varint_at ?E ?s ?o) <> _ =>
      destruct (@read_varint_no_panic E s o Hw) as ([?|] & ? & -> & ? & ?); [lia | |]; cbv iota in *
  | |- mbind _ (@slice ?E ?A ?s ?a ?b) <> _ =>
      let H := fresh in
      destruct (@slice_in E A s a b) as (? & H & ?); [lia | lia |]; rewrite H;
      pose proof (proj1 (le_val_bound _ (slice_Forall _ _ _ _ _ H Hw))); clear H
  | |- _ => no_panic_step; pose_read_bounds Hw
  end; bind_simpl; cbv zeta.

Ltac witness_no_panic s :=
  let Hw := fresh in
  intros Hw; pose proof (len_nonneg s); repeat first [done | witness_step Hw].

Lemma parse_htlc_btc_swap_witness_no_panic s :
  wf_bytes s -> parse_htlc_btc_swap_witness s <> Panic.
Proof. unfold parse_htlc_btc_swap_witness. witness_no_panic s. Qed.

Lemma parse_htlc_ltc_swap_witness_no_panic s :
  wf_bytes s -> parse_htlc_ltc_swap_witness s <> Panic.
Proof. unfold parse_htlc_ltc_swap_witness. witness_no_panic s. Qed.

Lemma parse_swap_order_witness_no_panic s d :
  wf_bytes s -> parse_swap_order_witness s d <> Panic.
Proof. unfold parse_swap_order_witness. witness_no_panic s. Qed.

Lemma parse_ltc_swap_order_witness_no_panic s d :
  wf_bytes s -> parse_ltc_swap_order_witness s d <> Panic.
Proof. unfold parse_ltc_swap_order_witness. witness_no_panic s. Qed.

Lemma parse_legacy_p2pkh_witness_no_panic s :
  wf_bytes s -> parse_legacy_p2pkh_witness s <> Panic.
Proof. unfold parse_legacy_p2pkh_witness. witness_no_panic s. Qed.

Lemma parse_input_witness_no_panic s : wf_bytes s -> parse_input_witness s <> Panic.
Proof.
  unfold parse_input_witness. intros Hw0.
  pose proof (parse_legacy_p2pkh_witness_no_panic s Hw0). revert Hw0. witness_no_panic s.
  by destruct (parse_legacy_p2pkh_witness s).
Qed.

(** No witness parser panics, on any script. *)
Lemma witness_parsers_no_panic s d :
  wf_bytes s ->
  parse_input_witness s <> Panic /\ parse_htlc_btc_swap_witness s <> Panic /\
  parse_htlc_ltc_swap_witness s <> Panic /\ parse_swap_order_witness s d <> Panic /\
  parse_ltc_swap_order_witness s d <> Panic.
Proof.
  intros Hw. split_and!; auto using parse_input_witness_no_panic, parse_htlc_btc_swap_witness_no_panic,
    parse_htlc_ltc_swap_witness_no_panic, parse_swap_order_witness_no_panic,
    parse_ltc_swap_order_witness_no_panic.
Qed.

(** ** Round trips *)
Lemma bad_len_false x : bad_len x = false -> 1 <= len x <= 255 /\ push_var x = [len x] ++ x.
Proof.
  unfold bad_len, push_var. intros H. pose proof (len_nonneg x).
  rewrite as_u8_small by lia. split; [lia | done].
Qed.

(** Split the length tests of an encoder and expand its length-prefixed fields. *)
Ltac encoder_fields H :=
  repeat match type of H with
  | (if ?b then None else _) = Some _ => destruct b eqn:?; [discriminate H|]
  end; apply (inj Some) in H as <-;
  repeat match goal with H : _ || _ = false |- _ => apply orb_false_iff in H as [? ?] end;
  repeat match goal with
  | Hb : bad_len ?x = false |- _ =>
      apply bad_len_false in Hb as [? Hb]; rewrite ?Hb; clear Hb
  end;
  rewrite <- ?app_assoc.

Lemma parse_encode_htlcv1_claim sig pubkey preimage w :
  encode_htlcv1_claim_witness sig pubkey preimage = Some w ->
  parse_input_witness w = Ok (WitHtlcClaim sig pubkey preimage).
Proof.
  unfold encode_htlcv1_claim_witness. intros Henc. encoder_fields Henc.
  unfold parse_input_witness, HTLC_WITNESS_CLAIM, HTLC_WITNESS_REFUND. run_parser. done.
Qed.

Lemma parse_encode_htlcv1_refund sig pubkey w :
  encode_htlcv1_refund_witness sig pubkey = Some w ->
  parse_input_witness w = Ok (WitHtlcRefund sig pubkey).
Proof.
  unfold encode_htlcv1_refund_witness. intros Henc. encoder_fields Henc.
  unfold parse_input_witness, HTLC_WITNESS_CLAIM, HTLC_WITNESS_REFUND. run_parser. done.
Qed.

Lemma parse_encode_swap_order_fill_sell sig pubkey taker th w :
  arr 20 taker -> u64 th ->
  encode_swap_order_fill_sell_witness sig pubkey taker th = Some w ->
  parse_swap_order_witness w SWAP_ORDER_DIRECTION_SELL = Ok (SoFillSell sig pubkey taker th).
Proof.
  intros [? _] ?. unfold encode_swap_order_fill_sell_witness. intros Henc. encoder_fields Henc.
  unfold parse_swap_order_witness, SWAP_ORDER_WITNESS_FILL, SWAP_ORDER_DIRECTION_SELL.
  run_parser. by rewrite le_val_u64.
Qed.

Lemma parse_encode_swap_order_fill_buy sig pubkey th w :
  u64 th ->
  encode_swap_order_fill_buy_witness sig pubkey th = Some w ->
  parse_swap_order_witness w SWAP_ORDER_DIRECTION_BUY = Ok (SoFillBuy sig pubkey th).
Proof.
  intros ?. unfold encode_swap_order_fill_buy_witness. intros Henc. encoder_fields Henc.
  unfold parse_swap_order_witness, SWAP_ORDER_WITNESS_FILL, SWAP_ORDER_DIRECTION_SELL,
    SWAP_ORDER_DIRECTION_BUY.
  run_parser. by rewrite le_val_u64.
Qed.

Lemma parse_encode_swap_order_cancel sig pubkey d w :
  encode_swap_order_cancel_witness sig pubkey = Some w ->
  parse_swap_order_witness w d = Ok (SoCancel sig pubkey).
Proof.
  unfold encode_swap_order_cancel_witness. intros Henc. encoder_fields Henc.
  unfold parse_swap_order_witness, SWAP_ORDER_WITNESS_FILL, SWAP_ORDER_WITNESS_CANCEL.
  run_parser. done.
Qed.

Lemma parse_encode_ltc_swap_order_fill_sell sig pubkey taker th w :
  arr 20 taker -> u64 th ->
  encode_ltc_swap_order_fill_sell_witness sig pubkey taker th = Some w ->
  parse_ltc_swap_order_witness w LTC_SWAP_ORDER_DIRECTION_SELL =
  Ok (LoFillSell sig pubkey taker th).
Proof.
  intros [? _] ?. unfold encode_ltc_swap_order_fill_sell_witness. intros Henc.
  encoder_fields Henc. unfold parse_ltc_swap_order_witness, LTC_SWAP_ORDER_WITNESS_FILL,
    LTC_SWAP_ORDER_DIRECTION_SELL.
  run_parser. by rewrite le_val_u64.
Qed.

Lemma parse_encode_ltc_swap_order_fill_buy sig pubkey th w :
  u64 th ->
  encode_ltc_swap_order_fill_buy_witness sig pubkey th = Some w ->
  parse_ltc_swap_order_witness w LTC_SWAP_ORDER_DIRECTION_BUY = Ok (LoFillBuy sig pubkey th).
Proof.
  intros ?. unfold encode_ltc_swap_order_fill_buy_witness. intros Henc. encoder_fields Henc.
  unfold parse_ltc_swap_order_witness, LTC_SWAP_ORDER_WITNESS_FILL,
    LTC_SWAP_ORDER_DIRECTION_SELL, LTC_SWAP_ORDER_DIRECTION_BUY.
  run_parser. by rewrite le_val_u64.
Qed.

Lemma parse_encode_ltc_swap_order_cancel sig pubkey d w :
  encode_ltc_swap_order_cancel_witness sig pubkey = Some w ->
  parse_ltc_swap_order_witness w d = Ok (LoCancel sig pubkey).
Proof.
  unfold encode_ltc_swap_order_cancel_witness. intros Henc. encoder_fields Henc.
  unfold parse_ltc_swap_order_witness, LTC_SWAP_ORDER_WITNESS_FILL,
    LTC_SWAP_ORDER_WITNESS_CANCEL.
  run_parser. done.
Qed.

(** *** The Merkle branch and the claim witness *)
Lemma len_concat_hashes hs : Forall (arr 32) hs -> len (concat hs) = 32 * len hs.
Proof.
  induction 1 as [|h hs [Hl _] _ IH]; [done|].
  cbn [concat]. rewrite len_app, len_cons, IH. lia.
Qed.

Lemma read_branch_at pre hs post s n off :
  Forall (arr 32) hs -> s = pre ++ concat hs ++ post -> n = len hs -> off = len pre ->
  read_branch s (Z.to_nat n) off = Ok (hs, off + 32 * len hs).
Proof.
  intros Hhs -> -> ->. unfold len at 1. rewrite Nat2Z.id. revert pre.
  induction Hhs as [|h hs [Hl _] Hhs IH]; intros pre.
  { cbn [concat length read_branch]. rewrite (@len_nil bytes). do 2 f_equal. lia. }
  specialize (IH (pre ++ h)). rewrite <- (app_assoc pre h), (len_app pre), Hl in IH.
  cbn [concat length read_branch]. rewrite <- (app_assoc h). parse_step.
  rewrite IH; bind_simpl. rewrite len_cons. do 2 f_equal. lia.
Qed.

Lemma u16_of_branch (hs : list bytes) : len hs <= 32 -> le_val (le_bytes 2 (as_u16 (len hs))) = len hs.
Proof.
  intros Hl. pose proof (len_nonneg hs). unfold as_u16.
  rewrite Z.mod_small by lia. apply le_val_u16. unfold u16. lia.
Qed.

Lemma read_varint_at_pos {E} pre n post s off :
  u64 n -> s = pre ++ write_varint n ++ post -> off = len pre ->
  @read_varint_at E s off = Ok (Some n, off + len (write_varint n)).
Proof. intros Hn -> ->. by apply read_varint_here. Qed.

Lemma parse_encode_btc_claim sig pubkey bh branch index raw w :
  arr 32 bh -> Forall (arr 32) branch -> len branch <= 32 -> u32 index -> len raw <= 1000000 ->
  encode_htlc_btc_swap_claim_witness sig pubkey bh branch index raw = Some w ->
  parse_htlc_btc_swap_witness w = Ok (HbClaim sig pubkey bh branch index raw).
Proof.
  intros [? _] Hbr ? ? ?. unfold encode_htlc_btc_swap_claim_witness. intros Henc.
  encoder_fields Henc.
  pose proof (len_concat_hashes _ Hbr). pose proof (len_write_varint (len raw)).
  pose proof (len_nonneg raw). pose proof (len_nonneg branch).
  set (hd := [HTLC_BTC_SWAP_WITNESS_CLAIM] ++ [len sig] ++ sig ++ [len pubkey] ++ pubkey ++ bh ++
             le_bytes 2 (as_u16 (len branch))).
  set (hd2 := hd ++ concat branch ++ le_bytes 4 index).
  assert (len hd = 37 + len sig + len pubkey) by (unfold hd; len_lia).
  assert (len hd2 = len hd + 32 * len branch + 4) by (unfold hd2; len_lia).
  unfold parse_htlc_btc_swap_witness, HTLC_BTC_SWAP_WITNESS_CLAIM.
  run_parser. rewrite u16_of_branch by lia. run_parser.
  erewrite (read_branch_at hd branch) by
    first [done | lia | unfold hd; rewrite <- !app_assoc; reflexivity].
  bind_simpl. run_parser.
  erewrite (read_varint_at_pos hd2 (len raw)) by
    first [lia | unfold u64; lia | unfold hd2, hd; rewrite <- !app_assoc; reflexivity].
  bind_simpl. run_parser. by rewrite le_val_u32.
Qed.

Lemma parse_encode_btc_refund sig pubkey w :
  encode_htlc_btc_swap_refund_witness sig pubkey = Some w ->
  parse_htlc_btc_swap_witness w = Ok (HbRefund sig pubkey).
Proof.
  unfold encode_htlc_btc_swap_refund_witness. intros Henc. encoder_fields Henc.
  unfold parse_htlc_btc_swap_witness, HTLC_BTC_SWAP_WITNESS_CLAIM, HTLC_BTC_SWAP_WITNESS_REFUND.
  run_parser. done.
Qed.

Lemma parse_encode_ltc_claim sig pubkey bh branch index raw w :
  arr 32 bh -> Forall (arr 32) branch -> len branch <= 32 -> u32 index -> len raw <= 1000000 ->
  encode_htlc_ltc_swap_claim_witness sig pubkey bh branch index raw = Some w ->
  parse_htlc_ltc_swap_witness w = Ok (HlClaim sig pubkey bh branch index raw).
Proof.
  intros [? _] Hbr ? ? ?. unfold encode_htlc_ltc_swap_claim_witness. intros Henc.
  encoder_fields Henc.
  pose proof (len_concat_hashes _ Hbr). pose proof (len_write_varint (len raw)).
  pose proof (len_nonneg raw). pose proof (len_nonneg branch).
  set (hd := [HTLC_LTC_SWAP_WITNESS_CLAIM] ++ [len sig] ++ sig ++ [len pubkey] ++ pubkey ++ bh ++
             le_bytes 2 (as_u16 (len branch))).
  set (hd2 := hd ++ concat branch ++ le_bytes 4 index).
  assert (len hd = 37 + len sig + len pubkey) by (unfold hd; len_lia).
  assert (len hd2 = len hd + 32 * len branch + 4) by (unfold hd2; len_lia).
  unfold parse_htlc_ltc_swap_witness, HTLC_LTC_SWAP_WITNESS_CLAIM.
  run_parser. rewrite u16_of_branch by lia. run_parser.
  erewrite (read_branch_at hd branch) by
    first [done | lia | unfold hd; rewrite <- !app_assoc; reflexivity].
  bind_simpl. run_parser.
  erewrite (read_varint_at_pos hd2 (len raw)) by
    first [lia | unfold u64; lia | unfold hd2, hd; rewrite <- !app_assoc; reflexivity].
  bind_simpl. run_parser. by rewrite le_val_u32.
Qed.

Lemma parse_encode_ltc_refund sig pubkey w :
  encode_htlc_ltc_swap_refund_witness sig pubkey = Some w ->
  parse_htlc_ltc_swap_witness w = Ok (HlRefund sig pubkey).
Proof.
  unfold encode_htlc_ltc_swap_refund_witness. intros Henc. encoder_fields Henc.
  unfold parse_htlc_ltc_swap_witness, HTLC_LTC_SWAP_WITNESS_CLAIM, HTLC_LTC_SWAP_WITNESS_REFUND.
  run_parser. done.
Qed.

(** ** Abstract view: one codec per witness family

    [swap_order_witness_bytes] and its siblings are what the wallet emits for a
    witness; the parser recovers it. *)
Definition swap_order_witness_bytes (w : SwapOrderWitness) : option bytes :=
  match w with
  | SoFillSell sig pubkey taker th => encode_swap_order_fill_sell_witness sig pubkey taker th
  | SoFillBuy sig pubkey th => encode_swap_order_fill_buy_witness sig pubkey th
  | SoCancel sig pubkey => encode_swap_order_cancel_witness sig pubkey
  | SoExpireSweep => Some encode_swap_order_expire_sweep_witness
  end.

Definition wf_swap_order_witness (d : Z) (w : SwapOrderWitness) : Prop :=
  match w with
  | SoFillSell _ _ taker th => d = SWAP_ORDER_DIRECTION_SELL /\ arr 20 taker /\ u64 th
  | SoFillBuy _ _ th => d = SWAP_ORDER_DIRECTION_BUY /\ u64 th
  | _ => True
  end.

Definition ltc_swap_order_witness_bytes (w : LtcSwapOrderWitness) : option bytes :=
  match w with
  | LoFillSell sig pubkey taker th => encode_ltc_swap_order_fill_sell_witness sig pubkey taker th
  | LoFillBuy sig pubkey th => encode_ltc_swap_order_fill_buy_witness sig pubkey th
  | LoCancel sig pubkey => encode_ltc_swap_order_cancel_witness sig pubkey
  | LoExpireSweep => Some encode_ltc_swap_order_expire_sweep_witness
  end.

Definition wf_ltc_swap_order_witness (d : Z) (w : LtcSwapOrderWitness) : Prop :=
  match w with
  | LoFillSell _ _ taker th => d = LTC_SWAP_ORDER_DIRECTION_SELL /\ arr 20 taker /\ u64 th
  | LoFillBuy _ _ th => d = LTC_SWAP_ORDER_DIRECTION_BUY /\ u64 th
  | _ => True
  end.

Definition btc_swap_witness_bytes (w : HtlcBtcSwapWitness) : option bytes :=
  match w with
  | HbClaim sig pubkey bh branch index raw =>
      encode_htlc_btc_swap_claim_witness sig pubkey bh branch index raw
  | HbRefund sig pubkey => encode_htlc_btc_swap_refund_witness sig pubkey
  end.

Definition wf_btc_swap_witness (w : HtlcBtcSwapWitness) : Prop :=
  match w with
  | HbClaim _ _ bh branch index raw =>
      arr 32 bh /\ Forall (arr 32) branch /\ len branch <= 32 /\ u32 index /\
      len raw <= 1000000
  | HbRefund _ _ => True
  end.

Definition ltc_swap_witness_bytes (w : HtlcLtcSwapWitness) : option bytes :=
  match w with
  | HlClaim sig pubkey bh branch index raw =>
      encode_htlc_ltc_swap_claim_witness sig pubkey bh branch index raw
  | HlRefund sig pubkey => encode_htlc_ltc_swap_refund_witness sig pubkey
  end.

Definition wf_ltc_swap_witness (w : HtlcLtcSwapWitness) : Prop :=
  match w with
  | HlClaim _ _ bh branch index raw =>
      arr 32 bh /\ Forall (arr 32) branch /\ len branch <= 32 /\ u32 index /\
      len raw <= 1000000
  | HlRefund _ _ => True
  end.

(** Swap witnesses round-trip: for the four families of swap witnesses (Bitcoin
    and Litecoin claims and refunds, Bitcoin and Litecoin order fills, cancels
    and sweeps), whatever the wallet encodes for a witness the node's parser
    reads back as that witness. *)
Theorem swap_witness_roundtrip :
  (forall w s, wf_btc_swap_witness w -> btc_swap_witness_bytes w = Some s ->
     parse_htlc_btc_swap_witness s = Ok w) /\
  (forall w s, wf_ltc_swap_witness w -> ltc_swap_witness_bytes w = Some s ->
     parse_htlc_ltc_swap_witness s = Ok w) /\
  (forall d w s, wf_swap_order_witness d w -> swap_order_witness_bytes w = Some s ->
     parse_swap_order_witness s d = Ok w) /\
  (forall d w s, wf_ltc_swap_order_witness d w -> ltc_swap_order_witness_bytes w = Some s ->
     parse_ltc_swap_order_witness s d = Ok w).
Proof.
  split_and!.
  - intros [] s Hb Hs; cbn in Hb, Hs; [destruct Hb as (?&?&?&?&?); by apply parse_encode_btc_claim |
      by apply parse_encode_btc_refund].
  - intros [] s Hl Hs; cbn in Hl, Hs; [destruct Hl as (?&?&?&?&?); by apply parse_encode_ltc_claim |
      by apply parse_encode_ltc_refund].
  - intros d [] s; cbn [wf_swap_order_witness swap_order_witness_bytes].
    + intros (-> & ? & ?). by apply parse_encode_swap_order_fill_sell.
    + intros (-> & ?). by apply parse_encode_swap_order_fill_buy.
    + intros _. apply parse_encode_swap_order_cancel.
    + by intros _ [= <-].
  - intros d [] s; cbn [wf_ltc_swap_order_witness ltc_swap_order_witness_bytes].
    + intros (-> & ? & ?). by apply parse_encode_ltc_swap_order_fill_sell.
    + intros (-> & ?). by apply parse_encode_ltc_swap_order_fill_buy.
    + intros _. apply parse_encode_ltc_swap_order_cancel.
    + by intros _ [= <-].
Qed.

Lemma btc_claim_witness_long sig pubkey bh branch index raw w :
  arr 32 bh -> Forall (arr 32) branch -> 6 <= len branch -> 33 <= len pubkey ->
  encode_htlc_btc_swap_claim_witness sig pubkey bh branch index raw = Some w ->
  255 < len w.
Proof.
  intros [? _] Hbr ? ?. unfold encode_htlc_btc_swap_claim_witness. intros Henc.
  encoder_fields Henc. pose proof (len_concat_hashes _ Hbr).
  pose proof (len_write_varint (len raw)). len_lia.
Qed.

(** The claim of a Bitcoin swap cannot be sent: the witness of a claim with a
    Merkle branch of six levels or more (a Bitcoin block of more than 32
    transactions) is longer than 255 bytes, and since the wire format writes
    the length of an input script in one byte, no message decodes to a
    transaction that carries it. *)
Theorem btc_claim_not_transmittable sig pubkey bh branch index raw w tx i msg :
  arr 32 bh -> Forall (arr 32) branch -> 6 <= len branch -> 33 <= len pubkey ->
  encode_htlc_btc_swap_claim_witness sig pubkey bh branch index raw = Some w ->
  i ∈ tx_inputs tx -> script_sig i = w -> wf_bytes msg ->
  decode_full_tx msg <> Ok tx.
Proof.
  intros Hbh Hbr Hl Hpk Henc Hi Hs Hm. eapply long_script_sig_undecodable; [done | exact Hi |].
  rewrite Hs. by eapply btc_claim_witness_long.
Qed.

Definition long_claim_tx (w : bytes) : Transaction :=
  {| tx_version := 1;
     tx_inputs := [{| prev_txid := zeros 32; prev_index := 0; script_sig := w; sequence := 0 |}];
     tx_outputs := []; tx_locktime := 0 |}.

Lemma btc_claim_not_transmittable_witness :
  let w := default [] (encode_htlc_btc_swap_claim_witness [1] (2 :: replicate 32 7) (zeros 32)
             (replicate 6 (zeros 32)) 0 [1]) in
  decode_full_tx (serialize (long_claim_tx w)) <> Ok (long_claim_tx w).
Proof.
  intros w.
  apply (btc_claim_not_transmittable [1] (2 :: replicate 32 7) (zeros 32) (replicate 6 (zeros 32)) 0 [1]
           w (long_claim_tx w)
           {| prev_txid := zeros 32; prev_index := 0; script_sig := w; sequence := 0 |}).
  - apply arr_check. vm_compute. reflexivity.
  - apply Forall_replicate, arr_check. vm_compute. reflexivity.
  - vm_compute. congruence.
  - vm_compute. congruence.
  - reflexivity.
  - apply list_elem_of_here.
  - reflexivity.
  - apply wf_bytes_check. vm_compute. reflexivity.
Defined.
