(* ===== verification/Pow.v ===== *)
(** * Pow: compact proof-of-work targets ([src/src/pow.rs])

    [Target] is the 32-bit compact encoding of a 256-bit threshold; a
    [BigUint] is a non-negative [Z].  Shown here: decoding inverts encoding on
    canonical compact values, encoding a threshold never makes it easier and
    loses less than one part in 2^15, the difficulty floor only tightens the
    limit, and the two target tests compare the hash read big-endian and
    little-endian. *)

From S2P Require Import Prelude Crypto.

Record Target := { bits : Z }.

#[export] Instance Target_eq_dec : EqDecision Target.
Proof. solve_decision. Defined.

(** [BigUint::to_bytes_be]: no leading zero byte, [[0]] for zero. *)
Definition byte_len (v : Z) : Z := if v =? 0 then 1 else Z.log2 v / 8 + 1.
Definition to_bytes_be (v : Z) : bytes := be_bytes (Z.to_nat (byte_len v)) v.

Definition to_target (t : Target) : Z :=
  let exponent := Z.shiftr (bits t) 24 in
  let mantissa := Z.land (bits t) 0x00ffffff in
  if exponent <=? 3 then Z.shiftr mantissa (8 * (3 - exponent))
  else Z.shiftl mantissa (8 * (exponent - 3)).

(** The last three of the mantissa bytes, padded on the left to three. *)
Definition three_bytes (mantissa_bytes : bytes) : bytes :=
  if 3 <? len mantissa_bytes then drop (length mantissa_bytes - 3) mantissa_bytes
  else if len mantissa_bytes <? 3 then zeros (3 - length mantissa_bytes) ++ mantissa_bytes
  else mantissa_bytes.

Definition from_target (value : Z) : Target :=
  if value =? 0 then {| bits := 0 |} else
  let exponent := as_u32 (len (to_bytes_be value)) in
  let mantissa_big :=
    if exponent <=? 3 then Z.shiftl value (8 * (3 - exponent))
    else Z.shiftr value (8 * (exponent - 3)) in
  let mantissa_bytes := three_bytes (to_bytes_be mantissa_big) in
  let mantissa :=
    Z.lor (Z.lor (Z.shiftl (nth 0 mantissa_bytes 0) 16) (Z.shiftl (nth 1 mantissa_bytes 0) 8))
          (nth 2 mantissa_bytes 0) in
  let '(mantissa, exponent) :=
    if negb (Z.land mantissa 0x00800000 =? 0)
    then (Z.shiftr mantissa 8, exponent + 1)
    else (mantissa, exponent) in
  {| bits := Z.lor (as_u32 (Z.shiftl exponent 24)) (Z.land mantissa 0x00ffffff) |}.

Definition min_difficulty_target (pow_limit : Target) (min_difficulty : Z) : Target :=
  if min_difficulty <=? 1 then pow_limit else
  let target := to_target pow_limit / min_difficulty in
  let target := if target =? 0 then 1 else target in
  from_target target.

Definition meets_target (hash : bytes) (target : Target) : bool :=
  be_val hash <=? to_target target.

Definition meets_target_btc (hash : bytes) (target : Target) : bool :=
  le_val hash <=? to_target target.

(** The tests of the source. *)
Example compact_roundtrip_for_canonical_targets :
  Forall (fun b => from_target (to_target {| bits := b |}) = {| bits := b |})
    [0x1d00ffff; 0x1f00ffff; 0x207fffff; 0x1b0404cb].
Proof. repeat constructor. Qed.

(** ** Compact values as exponent and mantissa *)
Definition compact (e m : Z) : Target := {| bits := e * 2 ^ 24 + m |}.

Lemma lor_disjoint a b k : 0 <= k -> 0 <= b < 2 ^ k -> Z.lor (a * 2 ^ k) b = a * 2 ^ k + b.
Proof.
  intros Hk Hb. symmetry. apply Z.add_nocarry_lor. apply Z.bits_inj'. intros i Hi.
  rewrite Z.land_spec, Z.bits_0. destruct (decide (i < k)).
  - by rewrite Z.mul_pow2_bits_low by lia.
  - destruct (decide (b = 0)) as [-> | Hn]; [by rewrite Z.bits_0, andb_false_r|].
    rewrite (Z.bits_above_log2 b), andb_false_r; [done | lia |].
    apply Z.log2_lt_pow2; [lia|]. pose proof (Z.pow_le_mono_r 2 k i). lia.
Qed.

Lemma to_target_compact e m :
  0 <= e -> 0 <= m < 2 ^ 24 ->
  to_target (compact e m) = if e <=? 3 then m / 2 ^ (8 * (3 - e)) else m * 2 ^ (8 * (e - 3)).
Proof.
  intros He Hm. unfold to_target, compact; cbn [bits].
  assert (Z.shiftr (e * 2 ^ 24 + m) 24 = e) as ->.
  { rewrite Z.shiftr_div_pow2 by lia. rewrite Z.add_comm, Z.div_add by lia.
    rewrite Z.div_small by lia. lia. }
  assert (Z.land (e * 2 ^ 24 + m) 0x00ffffff = m) as ->.
  { change 0x00ffffff with (Z.ones 24). rewrite Z.land_ones by lia.
    rewrite Z.add_comm, Z.mod_add by lia. apply Z.mod_small. lia. }
  destruct (e <=? 3) eqn:?; [apply Z.shiftr_div_pow2 | apply Z.shiftl_mul_pow2]; lia.
Qed.

Lemma byte_len_spec v : 0 < v -> 1 <= byte_len v /\ 2 ^ (8 * (byte_len v - 1)) <= v < 2 ^ (8 * byte_len v).
Proof.
  intros Hv. unfold byte_len. destruct (v =? 0) eqn:?; [lia|].
  pose proof (Z.log2_nonneg v). pose proof (Z.log2_spec v Hv) as [Hlo Hhi].
  assert (0 <= Z.log2 v / 8) by (apply Z.div_pos; lia).
  pose proof (Z.div_mod (Z.log2 v) 8 ltac:(lia)). pose proof (Z.mod_pos_bound (Z.log2 v) 8).
  split; [lia|]. split.
  - etrans; [|exact Hlo]. apply Z.pow_le_mono_r; lia.
  - eapply Z.lt_le_trans; [exact Hhi|]. apply Z.pow_le_mono_r; lia.
Qed.

Lemma byte_len_unique v n : 0 < n -> 2 ^ (8 * (n - 1)) <= v < 2 ^ (8 * n) -> byte_len v = n.
Proof.
  intros Hn [Hl Hh]. assert (0 < v) as Hv.
  { eapply Z.lt_le_trans; [|exact Hl]. apply Z.pow_pos_nonneg; lia. }
  destruct (byte_len_spec v Hv) as (H1 & Hl' & Hh').
  apply Z.le_antisymm; apply Z.le_ngt; intros Hc.
  - pose proof (Z.pow_le_mono_r 2 (8 * n) (8 * (byte_len v - 1))). lia.
  - pose proof (Z.pow_le_mono_r 2 (8 * byte_len v) (8 * (n - 1))). lia.
Qed.

Lemma len_to_bytes_be v : 0 < v -> len (to_bytes_be v) = byte_len v.
Proof.
  intros Hv. unfold to_bytes_be, be_bytes. rewrite len_rev, len_le_bytes.
  pose proof (byte_len_spec v Hv). lia.
Qed.

(** The normalised mantissa of a non-zero value: its three leading bytes. *)
Definition mantissa3 (v : Z) : Z :=
  let n := byte_len v in
  if n <=? 3 then v * 2 ^ (8 * (3 - n)) else v / 2 ^ (8 * (n - 3)).

Lemma mantissa3_bounds v : 0 < v -> 2 ^ 16 <= mantissa3 v < 2 ^ 24.
Proof.
  intros Hv. destruct (byte_len_spec v Hv) as (Hn & Hl & Hh). unfold mantissa3.
  set (n := byte_len v) in *. destruct (n <=? 3) eqn:?.
  - assert (n = 1 \/ n = 2 \/ n = 3) as [-> | [-> | ->]] by lia; cbn in *; lia.
  - assert (0 < 2 ^ (8 * (n - 3))) by (apply Z.pow_pos_nonneg; lia).
    split.
    + apply Z.div_le_lower_bound; [done|]. rewrite <- Z.pow_add_r by lia.
      by replace (8 * (n - 3) + 16) with (8 * (n - 1)) by lia.
    + apply Z.div_lt_upper_bound; [done|]. rewrite <- Z.pow_add_r by lia.
      by replace (8 * (n - 3) + 24) with (8 * n) by lia.
Qed.

Lemma three_bytes_value m :
  2 ^ 16 <= m < 2 ^ 24 ->
  let b := three_bytes (to_bytes_be m) in
  Z.lor (Z.lor (Z.shiftl (nth 0 b 0) 16) (Z.shiftl (nth 1 b 0) 8)) (nth 2 b 0) = m.
Proof.
  intros Hm. cbv zeta. assert (byte_len m = 3) as Hb by (apply byte_len_unique; cbn; lia).
  assert (three_bytes (to_bytes_be m) = to_bytes_be m) as ->.
  { unfold three_bytes. rewrite !len_to_bytes_be, Hb by lia. done. }
  unfold to_bytes_be, be_bytes. rewrite Hb. change (Z.to_nat 3) with 3%nat.
  cbv [le_bytes rev nth app]. rewrite !Z.shiftl_mul_pow2 by lia.
  pose proof (Z.mod_pos_bound m (2 ^ 8) ltac:(lia)).
  pose proof (Z.mod_pos_bound (m / 2 ^ 8) (2 ^ 8) ltac:(lia)).
  pose proof (Z.mod_pos_bound (m / 2 ^ 8 / 2 ^ 8) (2 ^ 8) ltac:(lia)).
  set (x := (m / 2 ^ 8 / 2 ^ 8) mod 2 ^ 8) in *. set (y := (m / 2 ^ 8) mod 2 ^ 8) in *.
  rewrite lor_disjoint by lia.
  replace (x * 2 ^ 16 + y * 2 ^ 8) with ((x * 2 ^ 8 + y) * 2 ^ 8) by lia.
  rewrite lor_disjoint by lia. subst x y. Z.div_mod_to_equations. lia.
Qed.

Lemma top_bit_clear m : 0 <= m < 2 ^ 24 -> (Z.land m 0x00800000 =? 0) = (m <? 2 ^ 23).
Proof.
  intros Hm. change 0x00800000 with (2 ^ 23).
  assert (Z.testbit (Z.land m (2 ^ 23)) 23 = Z.testbit m 23) as Ht.
  { rewrite Z.land_spec, Z.pow2_bits_true by lia. apply andb_true_r. }
  destruct (m <? 2 ^ 23) eqn:Hlt.
  - apply Z.eqb_eq. pose proof (Z.add_lor_land (1 * 2 ^ 23) m) as H.
    rewrite lor_disjoint in H by lia. rewrite Z.land_comm. change (1 * 2 ^ 23) with (2 ^ 23) in H.
    lia.
  - apply Z.eqb_neq. intros H0. rewrite H0, Z.bits_0 in Ht. symmetry in Ht.
    apply Z.testbit_false in Ht; [|lia].
    assert (m / 2 ^ 23 = 1) as Hq by (Z.div_mod_to_equations; lia). rewrite Hq in Ht. done.
Qed.

(** [from_target] in closed form. *)
Lemma from_target_norm v :
  0 < v -> byte_len v <= 254 ->
  from_target v =
  if mantissa3 v <? 2 ^ 23 then compact (byte_len v) (mantissa3 v)
  else compact (byte_len v + 1) (mantissa3 v / 2 ^ 8).
Proof.
  intros Hv Hn. pose proof (byte_len_spec v Hv) as (Hn1 & _).
  pose proof (mantissa3_bounds v Hv) as Hm.
  unfold from_target. destruct (v =? 0) eqn:?; [lia|].
  rewrite len_to_bytes_be by done.
  replace (as_u32 (byte_len v)) with (byte_len v) by (symmetry; apply Z.mod_small; lia).
  cbv zeta.
  assert ((if byte_len v <=? 3 then Z.shiftl v (8 * (3 - byte_len v))
           else Z.shiftr v (8 * (byte_len v - 3))) = mantissa3 v) as ->.
  { unfold mantissa3. destruct (_ <=? 3) eqn:?;
      [apply Z.shiftl_mul_pow2 | apply Z.shiftr_div_pow2]; lia. }
  rewrite three_bytes_value by done. set (m := mantissa3 v) in *.
  rewrite top_bit_clear by lia. unfold compact.
  destruct (m <? 2 ^ 23) eqn:Hlt; cbn [negb]; f_equal; change 0x00ffffff with (Z.ones 24);
    rewrite Z.land_ones by lia; unfold as_u32; rewrite Z.shiftl_mul_pow2 by lia.
  - rewrite !Z.mod_small by lia. apply lor_disjoint; lia.
  - rewrite Z.shiftr_div_pow2 by lia.
    assert (0 <= m / 2 ^ 8 < 2 ^ 16) by (Z.div_mod_to_equations; lia).
    rewrite !Z.mod_small by lia. apply lor_disjoint; lia.
Qed.

(** ** Encoding a threshold and reading it back *)
Lemma compact_exact e m :
  3 <= e <= 254 -> 2 ^ 15 <= m < 2 ^ 23 -> from_target (to_target (compact e m)) = compact e m.
Proof.
  intros He Hm. rewrite to_target_compact by lia.
  remember (2 ^ (8 * (e - 3))) as p eqn:Hp.
  assert (0 < p) by (subst p; apply Z.pow_pos_nonneg; lia).
  assert (e = 3 -> p = 1) as Hp3 by (intros ->; by subst p).
  assert ((if e <=? 3 then m / 2 ^ (8 * (3 - e)) else m * p) = m * p) as ->.
  { destruct (e <=? 3) eqn:?; [|done]. assert (e = 3) as -> by lia.
    rewrite Hp3 by done. cbn. rewrite Z.div_1_r. lia. }
  destruct (decide (2 ^ 16 <= m)).
  - assert (byte_len (m * p) = e) as Hb.
    { apply byte_len_unique; [lia|].
      replace (8 * (e - 1)) with (16 + 8 * (e - 3)) by lia.
      replace (8 * e) with (24 + 8 * (e - 3)) by lia. rewrite !Z.pow_add_r, <- Hp by lia. nia. }
    assert (mantissa3 (m * p) = m) as Hm3.
    { unfold mantissa3. rewrite Hb. destruct (e <=? 3) eqn:?.
      - assert (e = 3) as -> by lia. rewrite Hp3 by done. cbn. lia.
      - rewrite <- Hp. apply Z.div_mul. lia. }
    rewrite from_target_norm, Hm3, Hb by lia. by replace (m <? 2 ^ 23) with true by lia.
  - assert (byte_len (m * p) = e - 1) as Hb.
    { apply byte_len_unique; [lia|].
      replace (8 * (e - 1 - 1)) with (8 + 8 * (e - 3)) by lia.
      replace (8 * (e - 1)) with (16 + 8 * (e - 3)) by lia.
      rewrite !Z.pow_add_r, <- Hp by lia. nia. }
    assert (mantissa3 (m * p) = m * 2 ^ 8) as Hm3.
    { unfold mantissa3. rewrite Hb. destruct (e - 1 <=? 3) eqn:?.
      - assert (e = 3 \/ e = 4) as [-> | ->] by lia; subst p; cbn; lia.
      - replace p with (2 ^ 8 * 2 ^ (8 * (e - 1 - 3))).
        2:{ subst p. rewrite <- Z.pow_add_r by lia. f_equal. lia. }
        rewrite Z.mul_assoc. apply Z.div_mul. apply Z.pow_nonzero; lia. }
    rewrite from_target_norm, Hm3, Hb by lia. replace (m * 2 ^ 8 <? 2 ^ 23) with false by lia.
    rewrite Z.div_mul by lia. f_equal. lia.
Qed.

Lemma from_target_rounds v :
  0 < v -> byte_len v <= 254 ->
  let t := to_target (from_target v) in t <= v /\ 2 ^ 15 * (v - t) < t.
Proof.
  intros Hv Hn. cbv zeta. pose proof (byte_len_spec v Hv) as (Hn1 & Hlo & Hhi).
  pose proof (mantissa3_bounds v Hv) as Hm. rewrite from_target_norm by done.
  set (n := byte_len v) in *.
  destruct (n <=? 3) eqn:Hn3.
  - assert (mantissa3 v = v * 2 ^ (8 * (3 - n))) as Hm3 by (unfold mantissa3; fold n; by rewrite Hn3).
    rewrite Hm3 in *.
    assert (n = 1 \/ n = 2 \/ n = 3) as [E | [E | E]] by lia; rewrite E in *;
      clear Hm3 Hn Hn1 Hn3;
      [ change (2 ^ (8 * (3 - 1))) with 65536 in * | change (2 ^ (8 * (3 - 2))) with 256 in *
      | change (2 ^ (8 * (3 - 3))) with 1 in * ];
      destruct (_ <? 2 ^ 23) eqn:Hlt;
      (rewrite to_target_compact by (Z.div_mod_to_equations; lia));
      cbv [Z.leb Z.compare Z.add Pos.add Pos.succ Pos.compare Pos.compare_cont];
      change (2 ^ (8 * (3 - 1))) with 65536; change (2 ^ (8 * (3 - 2))) with 256;
      change (2 ^ (8 * (3 - 3))) with 1; change (2 ^ (8 * (4 - 3))) with 256;
      Z.div_mod_to_equations; lia.
  - assert (mantissa3 v = v / 2 ^ (8 * (n - 3))) as Hm3 by (unfold mantissa3; fold n; by rewrite Hn3).
    set (p := 2 ^ (8 * (n - 3))) in *. assert (0 < p) by (apply Z.pow_pos_nonneg; lia).
    pose proof (Z.div_mod v p ltac:(lia)). pose proof (Z.mod_pos_bound v p ltac:(lia)).
    rewrite <- Hm3 in *. set (m := mantissa3 v) in *.
    destruct (m <? 2 ^ 23) eqn:Hlt.
    + rewrite to_target_compact by lia. rewrite Hn3. fold p. split; nia.
    + assert (0 <= m / 2 ^ 8 < 2 ^ 24) by (Z.div_mod_to_equations; lia).
      rewrite to_target_compact by lia. replace (n + 1 <=? 3) with false by lia.
      replace (8 * (n + 1 - 3)) with (8 + 8 * (n - 3)) by lia. rewrite Z.pow_add_r by lia. fold p.
      pose proof (Z.div_mod m (2 ^ 8) ltac:(lia)). pose proof (Z.mod_pos_bound m (2 ^ 8) ltac:(lia)).
      set (q := m / 2 ^ 8) in *. set (w := m mod 2 ^ 8) in *.
      assert (2 ^ 15 <= q) by lia.
      assert (0 <= p * w <= p * 255) by (split; [|apply Z.mul_le_mono_nonneg_l]; nia).
      assert (p * m = q * (2 ^ 8 * p) + p * w) as Hpm by nia.
      assert (2 ^ 15 * (2 ^ 8 * p) <= q * (2 ^ 8 * p)) by (apply Z.mul_le_mono_nonneg_r; lia).
      split; lia.
Qed.

Lemma to_target_pos_le v : 0 < v -> byte_len v <= 254 -> 0 < to_target (from_target v) <= v.
Proof. intros Hv Hn. pose proof (from_target_rounds v Hv Hn) as H. cbv zeta in H. lia. Qed.

Lemma byte_len_256 v : 0 < v < 2 ^ 256 -> 1 <= byte_len v <= 32.
Proof.
  intros Hv. pose proof (byte_len_spec v ltac:(lia)) as (? & Hlo & _). split; [lia|].
  destruct (decide (byte_len v <= 32)); [done|].
  pose proof (Z.pow_le_mono_r 2 256 (8 * (byte_len v - 1)) ltac:(lia) ltac:(lia)). lia.
Qed.

(** ** Properties *)

(** A canonical compact target survives the trip through the 256-bit
    threshold: for every exponent from 3 to 254 and every normalised mantissa
    (top bit clear, top byte pair not zero), [from_target] of [to_target] gives
    the same bits back. *)
Theorem compact_roundtrip e m :
  3 <= e <= 254 -> 2 ^ 15 <= m < 2 ^ 23 ->
  from_target (to_target {| bits := e * 2 ^ 24 + m |}) = {| bits := e * 2 ^ 24 + m |}.
Proof. apply compact_exact. Qed.

Lemma compact_roundtrip_witness :
  from_target (to_target {| bits := 0x1d * 2 ^ 24 + 0xffff |}) = {| bits := 0x1d * 2 ^ 24 + 0xffff |}.
Proof. apply (compact_roundtrip 0x1d 0xffff); lia. Defined.

(** Encoding a non-zero 256-bit threshold as a compact target rounds
    down, never to zero, and loses less than one part in 2^15: a block that
    meets the encoded target meets the threshold it was computed from. *)
Theorem from_target_tightens v :
  0 < v < 2 ^ 256 ->
  let t := to_target (from_target v) in 0 < t <= v /\ 2 ^ 15 * (v - t) < t.
Proof.
  intros Hv. pose proof (byte_len_256 v Hv).
  pose proof (from_target_rounds v ltac:(lia) ltac:(lia)) as H'. cbv zeta in *. lia.
Qed.

Lemma from_target_tightens_witness :
  let v := 0x123456789abcdef0 in
  0 < v < 2 ^ 256 /\
  let t := to_target (from_target v) in 0 < t <= v /\ 2 ^ 15 * (v - t) < t.
Proof. intros v. split; [subst v; lia | apply (from_target_tightens v); subst v; lia]. Defined.

Lemma min_difficulty_target_bounds lim d :
  0 < to_target lim < 2 ^ 256 -> 0 <= d ->
  0 < to_target (min_difficulty_target lim d) <= to_target lim.
Proof.
  intros Hl Hd. unfold min_difficulty_target. destruct (d <=? 1) eqn:?; [lia|].
  assert (0 <= to_target lim / d <= to_target lim).
  { split; [apply Z.div_pos; lia | apply Z.div_le_upper_bound; nia]. }
  destruct (to_target lim / d =? 0) eqn:?; [change (to_target (from_target 1)) with 1; lia|].
  pose proof (byte_len_256 (to_target lim / d) ltac:(lia)).
  pose proof (to_target_pos_le (to_target lim / d) ltac:(lia) ltac:(lia)). lia.
Qed.

(** A consensus difficulty floor only tightens the proof-of-work limit:
    the floor target is never zero, never above the limit and, for a floor of
    at least 2, at most the limit divided by the floor (or 1 when that quotient
    is zero). *)
Theorem min_difficulty_target_tightens lim d :
  0 < to_target lim < 2 ^ 256 -> 0 <= d ->
  0 < to_target (min_difficulty_target lim d) <= to_target lim /\
  (2 <= d -> to_target (min_difficulty_target lim d) <= Z.max 1 (to_target lim / d)).
Proof.
  intros Hl Hd. split; [by apply min_difficulty_target_bounds|]. intros Hd2.
  unfold min_difficulty_target. replace (d <=? 1) with false by lia.
  destruct (to_target lim / d =? 0) eqn:?; [change (to_target (from_target 1)) with 1; lia|].
  assert (0 <= to_target lim / d <= to_target lim).
  { split; [apply Z.div_pos; lia | apply Z.div_le_upper_bound; nia]. }
  pose proof (byte_len_256 (to_target lim / d) ltac:(lia)).
  pose proof (to_target_pos_le (to_target lim / d) ltac:(lia) ltac:(lia)). lia.
Qed.

Lemma min_difficulty_target_tightens_witness :
  let lim := {| bits := 0x1d00ffff |} in
  0 < to_target (min_difficulty_target lim 10) <= to_target lim /\
  (2 <= 10 -> to_target (min_difficulty_target lim 10) <= Z.max 1 (to_target lim / 10)).
Proof.
  apply (min_difficulty_target_tightens {| bits := 0x1d00ffff |} 10);
    [split; [reflexivity | vm_compute; reflexivity] | lia].
Defined.
