(* ===== verification/Activation.v ===== *)
(** * Activation: network selection and fork heights ([src/src/activation.rs])

    Which consensus rule is active at which height, as a function of the
    process environment.  An environment is a partial map from names to values
    ([std::env::var]; values are ASCII strings).  Shown here: on mainnet no
    environment variable moves a fork height. *)

From S2P Require Import Prelude.
From Stdlib Require Import Ascii String.

Definition Env := string -> option string.

(** ** The parts of [str] the resolvers use *)
Definition is_whitespace (c : ascii) : bool :=
  let n := nat_of_ascii c in ((9 <=? n) && (n <=? 13) || (n =? 32))%nat.

Fixpoint trim_start (s : string) : string :=
  match s with
  | EmptyString => EmptyString
  | String c s' => if is_whitespace c then trim_start s' else s
  end.

Fixpoint trim_end (s : string) : string :=
  match s with
  | EmptyString => EmptyString
  | String c s' =>
      match trim_end s' with
      | EmptyString => if is_whitespace c then EmptyString else String c EmptyString
      | t => String c t
      end
  end.

Definition trim (s : string) : string := trim_end (trim_start s).

Definition ascii_lower (c : ascii) : ascii :=
  let n := nat_of_ascii c in
  if ((65 <=? n) && (n <=? 90))%nat then ascii_of_nat (n + 32) else c.

Fixpoint to_ascii_lowercase (s : string) : string :=
  match s with
  | EmptyString => EmptyString
  | String c s => String (ascii_lower c) (to_ascii_lowercase s)
  end.

(** [str::parse::<u64>]: an optional [+], then at least one decimal digit;
    overflow is an error. *)
Definition digit (c : ascii) : option Z :=
  let n := Z.of_nat (nat_of_ascii c) in
  if (48 <=? n) && (n <=? 57) then Some (n - 48) else None.

Fixpoint parse_digits (acc : Z) (s : string) : option Z :=
  match s with
  | EmptyString => Some acc
  | String c s =>
      d ← digit c;
      if 10 * acc + d <=? U64_MAX then parse_digits (10 * acc + d) s else None
  end.

Definition parse_u64 (s : string) : option Z :=
  match s with
  | EmptyString => None
  | String "+" EmptyString => None
  | String "+" s' => parse_digits 0 s'
  | _ => parse_digits 0 s
  end.

#[local] Open Scope string_scope.

Example parse_u64_examples :
  map parse_u64 ["24250"; "+7"; ""; "+"; "-1"; " 5"; "18446744073709551615"; "18446744073709551616"]
  = [Some 24250; Some 7; None; None; None; None; Some U64_MAX; None].
Proof. reflexivity. Qed.

(** ** Mainnet fork heights *)
Definition MAINNET_HTLCV1_ACTIVATION_HEIGHT : option Z := Some 18677.
Definition MAINNET_LWMA_ACTIVATION_HEIGHT : option Z := Some 16462.
Definition MAINNET_LWMA_V2_ACTIVATION_HEIGHT : option Z := Some 19740.
Definition MAINNET_BLOCK_TIME_V2_ACTIVATION_HEIGHT : option Z := Some 24250.
Definition MAINNET_AUXPOW_ACTIVATION_HEIGHT : option Z := Some 24800.
Definition MAINNET_BTC_SPV_RELAY_ACTIVATION_HEIGHT : option Z := Some 23850.
Definition MAINNET_LTC_SPV_RELAY_ACTIVATION_HEIGHT : option Z := Some 24800.
Definition MAINNET_HTLC_LTC_SWAP_V1_ACTIVATION_HEIGHT : option Z := Some 24800.
Definition MAINNET_LTC_SWAP_ORDER_V1_ACTIVATION_HEIGHT : option Z := Some 24800.
Definition MAINNET_COINBASE_HEADER_BATCH_ACTIVATION_HEIGHT : option Z := Some 24800.
Definition MAINNET_HTLC_BTC_SWAP_V1_ACTIVATION_HEIGHT : option Z := Some 23850.
Definition MAINNET_SWAP_ORDER_V1_ACTIVATION_HEIGHT : option Z := Some 23850.
Definition MAINNET_BTC_SWAP_BECH32_PAYMENT_ACTIVATION_HEIGHT : option Z := None.
Definition MAINNET_POAWX_ACTIVATION_HEIGHT : option Z := Some 50000.
Definition MAINNET_MPSOV1_ACTIVATION_HEIGHT : option Z := Some 20000.
(** [constants.rs] *)
Definition STANDARD_HEADER_ACTIVATION_HEIGHT : Z := 22888.

(** ** Networks *)
Inductive NetworkKind := Mainnet | Testnet | Devnet.

#[export] Instance NetworkKind_eq_dec : EqDecision NetworkKind.
Proof. solve_decision. Defined.

Definition from_env_value (v : string) : NetworkKind :=
  let v := to_ascii_lowercase (trim v) in
  if v =? "testnet" then Testnet
  else if (v =? "devnet") || (v =? "regtest") || (v =? "trial") then Devnet
  else Mainnet.

Definition id_byte (k : NetworkKind) : Z :=
  match k with Mainnet => 0 | Testnet => 1 | Devnet => 2 end.

(** [height >= h] for an optional activation height. *)
Definition active_at (activation : option Z) (height : Z) : bool :=
  match activation with Some h => (h <=? height)%Z | None => false end.

Section env.
Context (env : Env).

Definition network_kind_from_env : NetworkKind :=
  match env "IRIUM_NETWORK" with Some v => from_env_value v | None => Mainnet end.

Definition network_id_byte : Z := id_byte network_kind_from_env.

(** [env::var(name).ok().and_then(|v| v.trim().parse::<u64>().ok())] *)
Definition env_u64 (name : string) : option Z := v ← env name; parse_u64 (trim v).

(** The same with [parse::<u32>] and narrower types, which fail on larger
    values. *)
Definition env_upto (bound : Z) (name : string) : option Z :=
  v ← env_u64 name; if (v <=? bound)%Z then Some v else None.
Definition env_u32 : string -> option Z := env_upto U32_MAX.
Definition env_u16 : string -> option Z := env_upto U16_MAX.
Definition env_u8 : string -> option Z := env_upto U8_MAX.

(** [env::var(name).map(|v| v.trim() == "1").unwrap_or(false)] *)
Definition env_flag (name : string) : bool :=
  match env name with Some v => trim v =? "1" | None => false end.

Definition poawx_mainnet_active (height : Z) : bool :=
  (network_id_byte =? 0)%Z && active_at MAINNET_POAWX_ACTIVATION_HEIGHT height.

Definition poawx_effective_activation (network_id : Z) (env_activation : option Z) : option Z :=
  if (network_id =? 0)%Z then MAINNET_POAWX_ACTIVATION_HEIGHT else env_activation.

Definition poawx_mode_active : bool :=
  match env "IRIUM_POAWX_MODE" with Some v => trim v =? "active" | None => false end.

Definition poawx_consensus_active (height : Z) : bool :=
  if (network_id_byte =? 0)%Z then active_at MAINNET_POAWX_ACTIVATION_HEIGHT height
  else if negb poawx_mode_active then false
  else active_at (env_u64 "IRIUM_POAWX_ACTIVATION_HEIGHT") height.

Definition poawx_serving_active (height : Z) : bool :=
  if (network_id_byte =? 0)%Z then active_at MAINNET_POAWX_ACTIVATION_HEIGHT height
  else poawx_mode_active.

Definition poawx_delegation_activation_height :=
  env_u64 "IRIUM_POAWX_DELEGATION_ACTIVATION_HEIGHT".
Definition poawx_multi_role_reward_activation_height :=
  env_u64 "IRIUM_POAWX_MULTI_ROLE_REWARD_ACTIVATION_HEIGHT".
Definition poawx_fairness_matrix_activation_height :=
  env_u64 "IRIUM_POAWX_FAIRNESS_MATRIX_ACTIVATION_HEIGHT".
Definition poawx_third_party_fee_activation_height :=
  env_u64 "IRIUM_POAWX_THIRD_PARTY_FEE_ACTIVATION_HEIGHT".
Definition poawx_hidden_precommit_activation_height :=
  env_u64 "IRIUM_POAWX_HIDDEN_PRECOMMIT_ACTIVATION_HEIGHT".

Definition runtime_htlcv1_env_override := env_u64 "IRIUM_HTLCV1_ACTIVATION_HEIGHT".
Definition runtime_lwma_env_override := env_u64 "IRIUM_LWMA_ACTIVATION_HEIGHT".
Definition runtime_lwma_v2_env_override := env_u64 "IRIUM_LWMA_V2_ACTIVATION_HEIGHT".
Definition runtime_auxpow_env_override := env_u64 "IRIUM_AUXPOW_ACTIVATION_HEIGHT".
Definition runtime_standard_header_activation_env_override :=
  env_u64 "IRIUM_STANDARD_HEADER_ACTIVATION_HEIGHT".
Definition runtime_block_time_v2_env_override := env_u64 "IRIUM_BLOCK_TIME_V2_ACTIVATION_HEIGHT".
Definition runtime_btc_spv_relay_env_override := env_u64 "IRIUM_BTC_SPV_RELAY_ACTIVATION_HEIGHT".
Definition runtime_ltc_spv_relay_env_override := env_u64 "IRIUM_LTC_SPV_RELAY_ACTIVATION_HEIGHT".
Definition runtime_htlc_ltc_swap_v1_env_override :=
  env_u64 "IRIUM_HTLC_LTC_SWAP_V1_ACTIVATION_HEIGHT".
Definition runtime_ltc_swap_order_v1_env_override :=
  env_u64 "IRIUM_LTC_SWAP_ORDER_V1_ACTIVATION_HEIGHT".
Definition runtime_htlc_btc_swap_v1_env_override :=
  env_u64 "IRIUM_HTLC_BTC_SWAP_V1_ACTIVATION_HEIGHT".
Definition runtime_swap_order_v1_env_override := env_u64 "IRIUM_SWAP_ORDER_V1_ACTIVATION_HEIGHT".
Definition runtime_btc_swap_bech32_payment_env_override :=
  env_u64 "IRIUM_BTC_SWAP_BECH32_PAYMENT_ACTIVATION_HEIGHT".
Definition runtime_mpsov1_env_override := env_u64 "IRIUM_MPSOV1_ACTIVATION_HEIGHT".

(** [match network { Mainnet => constant, Testnet | Devnet => override }] *)
Definition by_network {A} (network : NetworkKind) (mainnet override : A) : A :=
  match network with Mainnet => mainnet | Testnet | Devnet => override end.

Definition resolved_htlcv1_activation_height (network : NetworkKind) : option Z :=
  by_network network MAINNET_HTLCV1_ACTIVATION_HEIGHT runtime_htlcv1_env_override.
Definition resolved_lwma_activation_height (network : NetworkKind) : option Z :=
  by_network network MAINNET_LWMA_ACTIVATION_HEIGHT runtime_lwma_env_override.
Definition resolved_lwma_v2_activation_height (network : NetworkKind) : option Z :=
  by_network network MAINNET_LWMA_V2_ACTIVATION_HEIGHT runtime_lwma_v2_env_override.

Definition resolve_standard_header_activation (network : NetworkKind) (env_override : option Z) : Z :=
  match network with
  | Mainnet => STANDARD_HEADER_ACTIVATION_HEIGHT
  | Testnet | Devnet => default 1 env_override
  end.
Definition resolved_standard_header_activation_height (network : NetworkKind) : Z :=
  resolve_standard_header_activation network runtime_standard_header_activation_env_override.

Definition resolved_auxpow_activation_height (network : NetworkKind) : option Z :=
  by_network network MAINNET_AUXPOW_ACTIVATION_HEIGHT runtime_auxpow_env_override.
Definition resolved_block_time_v2_activation_height (network : NetworkKind) : option Z :=
  by_network network MAINNET_BLOCK_TIME_V2_ACTIVATION_HEIGHT runtime_block_time_v2_env_override.
Definition resolved_btc_spv_relay_activation_height (network : NetworkKind) : option Z :=
  by_network network MAINNET_BTC_SPV_RELAY_ACTIVATION_HEIGHT runtime_btc_spv_relay_env_override.
Definition resolved_ltc_spv_relay_activation_height (network : NetworkKind) : option Z :=
  by_network network MAINNET_LTC_SPV_RELAY_ACTIVATION_HEIGHT runtime_ltc_spv_relay_env_override.
Definition resolved_htlc_ltc_swap_v1_activation_height (network : NetworkKind) : option Z :=
  by_network network MAINNET_HTLC_LTC_SWAP_V1_ACTIVATION_HEIGHT
    runtime_htlc_ltc_swap_v1_env_override.
Definition resolved_ltc_swap_order_v1_activation_height (network : NetworkKind) : option Z :=
  by_network network MAINNET_LTC_SWAP_ORDER_V1_ACTIVATION_HEIGHT
    runtime_ltc_swap_order_v1_env_override.
Definition resolved_htlc_btc_swap_v1_activation_height (network : NetworkKind) : option Z :=
  by_network network MAINNET_HTLC_BTC_SWAP_V1_ACTIVATION_HEIGHT
    runtime_htlc_btc_swap_v1_env_override.
Definition resolved_swap_order_v1_activation_height (network : NetworkKind) : option Z :=
  by_network network MAINNET_SWAP_ORDER_V1_ACTIVATION_HEIGHT runtime_swap_order_v1_env_override.
Definition resolved_btc_swap_bech32_payment_activation_height (network : NetworkKind) : option Z :=
  by_network network MAINNET_BTC_SWAP_BECH32_PAYMENT_ACTIVATION_HEIGHT
    runtime_btc_swap_bech32_payment_env_override.
(** This resolver parses the value without trimming it. *)
Definition resolved_coinbase_header_batch_activation_height (network : NetworkKind) : option Z :=
  by_network network MAINNET_COINBASE_HEADER_BATCH_ACTIVATION_HEIGHT
    (v ← env "IRIUM_COINBASE_HEADER_BATCH_ACTIVATION_HEIGHT"; parse_u64 v).
Definition resolved_mpsov1_activation_height (network : NetworkKind) : option Z :=
  by_network network MAINNET_MPSOV1_ACTIVATION_HEIGHT runtime_mpsov1_env_override.

(** The test the miners' difficulty override and the coinbase maturity use:
    the raw value, neither trimmed nor lower-cased. *)
Definition env_is_fast_network : bool :=
  match env "IRIUM_NETWORK" with
  | Some v => (v =? "devnet") || (v =? "regtest")
  | None => false
  end.
End env.

(** ** Lemmas *)
Lemma fast_network_is_devnet env :
  env_is_fast_network env = true -> network_kind_from_env env = Devnet.
Proof.
  unfold env_is_fast_network, network_kind_from_env. destruct (env _) as [v|]; [|done].
  intros [->%String.eqb_eq | ->%String.eqb_eq]%orb_true_iff; reflexivity.
Qed.

Lemma mainnet_not_fast env :
  network_kind_from_env env = Mainnet -> env_is_fast_network env = false.
Proof.
  intros H. destruct (env_is_fast_network env) eqn:Hf; [|done].
  apply fast_network_is_devnet in Hf. congruence.
Qed.
