(* ===== verification/Anchors.v ===== *)
(** * Anchors: signed checkpoints ([src/src/anchors.rs])

    [AnchorManager] once it is loaded: looking anchors up and checking blocks
    and tips against them.  Reading the file and checking its signatures with
    [ssh-keygen] is input and output and is left out; what loading guarantees,
    anchors sorted by height, is the invariant [sorted_anchors].  The crate
    [hex] is the parameter [hex_encode] of the callers. *)

From S2P Require Import Prelude Activation.

Record AnchorHeader := {
  an_height : Z;
  an_hash : string;
  an_timestamp : Z;
  an_prev_hash : string
}.

Record AnchorManager := { anchors : list AnchorHeader }.

(** [str::eq_ignore_ascii_case] *)
Definition eq_ignore_ascii_case (a b : string) : bool :=
  bool_decide (to_ascii_lowercase a = to_ascii_lowercase b).

(** [sort_by_key(|a| a.height)], a stable sort, by insertion. *)
Fixpoint insert_anchor (a : AnchorHeader) (l : list AnchorHeader) : list AnchorHeader :=
  match l with
  | [] => [a]
  | b :: l' => if an_height a <=? an_height b then a :: l else b :: insert_anchor a l'
  end.

Fixpoint sort_anchors (l : list AnchorHeader) : list AnchorHeader :=
  match l with [] => [] | a :: l => insert_anchor a (sort_anchors l) end.

(** The manager that [load_from_path] builds from the parsed anchors. *)
Definition loaded (parsed : list AnchorHeader) : AnchorManager := {| anchors := sort_anchors parsed |}.

Definition get_anchor_at_height (m : AnchorManager) (height : Z) : option AnchorHeader :=
  find (fun a => an_height a =? height) (anchors m).

Definition get_latest_anchor (m : AnchorManager) : option AnchorHeader := last (anchors m).

Definition verify_block_against_anchors (m : AnchorManager) (height : Z) (block_hash : string) : bool :=
  match get_anchor_at_height m height with
  | Some anchor => eq_ignore_ascii_case (an_hash anchor) block_hash
  | None => true
  end.

Definition is_chain_valid (m : AnchorManager) (tip_height : Z) (tip_hash : string) : bool :=
  match find (fun a => an_height a <=? tip_height) (rev (anchors m)) with
  | None => true
  | Some anchor =>
      if tip_height =? an_height anchor then eq_ignore_ascii_case (an_hash anchor) tip_hash else true
  end.

(** ** Loading sorts *)
Fixpoint sorted_anchors (l : list AnchorHeader) : Prop :=
  match l with
  | a :: ((b :: _) as l') => an_height a <= an_height b /\ sorted_anchors l'
  | _ => True
  end.

Lemma insert_anchor_sorted a l : sorted_anchors l -> sorted_anchors (insert_anchor a l).
Proof.
  induction l as [|b l IH]; [done|]. intros Hs. cbn [insert_anchor].
  destruct (an_height a <=? an_height b) eqn:Hab; [split; [lia | done]|].
  destruct l as [|c l]; [cbn; split; [lia | done]|].
  destruct Hs as [Hbc Hs]. specialize (IH Hs). cbn [insert_anchor] in IH |- *.
  destruct (an_height a <=? an_height c); (split; [lia | done]).
Qed.

Lemma sort_anchors_sorted l : sorted_anchors (sort_anchors l).
Proof. induction l; [done | by apply insert_anchor_sorted]. Qed.

Lemma insert_anchor_perm a l : insert_anchor a l ≡ₚ a :: l.
Proof.
  induction l as [|b l IH]; [done|]. cbn. destruct (_ <=? _); [done|]. rewrite IH. apply Permutation_swap.
Qed.

Lemma sort_anchors_perm l : sort_anchors l ≡ₚ l.
Proof. induction l as [|a l IH]; [done|]. cbn. by rewrite insert_anchor_perm, IH. Qed.

Lemma sorted_app_le l1 a l2 : sorted_anchors (l1 ++ a :: l2) -> Forall (fun b => an_height b <= an_height a) l1.
Proof.
  induction l1 as [|b l1 IH]; [done|]. intros Hs. cbn [app] in Hs.
  destruct l1 as [|c l1]; [destruct Hs; by constructor|]. destruct Hs as [Hbc Hs].
  specialize (IH Hs). constructor; [|done]. apply Forall_cons in IH as [? _]. lia.
Qed.

Lemma find_app_first {A} (f : A -> bool) (l : list A) a :
  find f l = Some a -> exists l1 l2, l = l1 ++ a :: l2 /\ Forall (fun x => f x = false) l1 /\ f a = true.
Proof.
  induction l as [|x l IH]; [done|]. cbn. destruct (f x) eqn:Hf.
  - intros [= ->]. by exists [], l.
  - intros (l1 & l2 & -> & Hl & Ha)%IH. exists (x :: l1), l2. split_and!; [done | by constructor | done].
Qed.

(** The two checks agree where both speak: a tip is accepted by [is_chain_valid]
    if [verify_block_against_anchors] accepts it, when no two anchors have the
    same height; so a node that follows one cannot be cut off by the other. *)
Theorem anchor_checks_agree parsed height hash :
  NoDup (an_height <$> parsed) ->
  is_chain_valid (loaded parsed) height hash =
    verify_block_against_anchors (loaded parsed) height hash.
Proof.
  intros Hd. unfold is_chain_valid, verify_block_against_anchors, get_anchor_at_height, loaded.
  cbn [anchors]. pose proof (sort_anchors_sorted parsed) as Hs.
  assert (NoDup (an_height <$> sort_anchors parsed)) as Hnd by (by rewrite (sort_anchors_perm parsed)).
  revert Hs Hnd. generalize (sort_anchors parsed) as l. intros l Hs Hnd.
  destruct (find (fun a => an_height a =? height) l) as [a|] eqn:Hf.
  - apply find_app_first in Hf as (l1 & l2 & -> & Hl1 & Ha). 
    assert (Forall (fun x => (an_height x <=? height) = false) l2) as Hl2.
    { clear Hl1. apply Forall_forall. intros x Hx. apply list_elem_of_split in Hx as (m1 & m2 & ->).
      replace (l1 ++ a :: m1 ++ x :: m2) with ((l1 ++ a :: m1) ++ x :: m2) in Hs, Hnd
        by (by rewrite <- app_assoc).
      apply sorted_app_le in Hs. rewrite Forall_app, Forall_cons in Hs. destruct Hs as [_ [Hle _]].
      rewrite fmap_app, NoDup_app in Hnd. destruct Hnd as (_ & Hnd & _).
      specialize (Hnd (an_height a)). rewrite fmap_app, elem_of_app in Hnd.
      destruct (decide (an_height a = an_height x)) as [E|E]; [|lia].
      exfalso. apply Hnd; [right; cbn; left | cbn; rewrite <- E; left]. }
    rewrite rev_app_distr. cbn [rev]. rewrite <- app_assoc.
    assert (forall l', find (fun a => an_height a <=? height) (rev l2 ++ l') =
                       find (fun a => an_height a <=? height) l') as Hfind.
    { intros l'. assert (Forall (fun x => (an_height x <=? height) = false) (rev l2)) as Hr.
      { apply Forall_forall. intros x Hx. rewrite Forall_forall in Hl2. apply Hl2.
        by apply list_elem_of_In, in_rev, list_elem_of_In. }
      induction Hr as [|x m Hx _ IH]; [done|]. cbn. by rewrite Hx. }
    rewrite Hfind. cbn. assert ((an_height a <=? height) = true) as -> by lia.
    by rewrite Z.eqb_sym, Ha.
  - destruct (find _ (rev l)) as [b|] eqn:Hb; [|done].
    apply find_app_first in Hb as (l1 & l2 & Hl & _ & Hb).
    assert (In b l) as Hin by (apply in_rev; rewrite Hl; apply in_or_app; right; by left).
    pose proof (find_none _ _ Hf _ Hin) as Hne. cbn in Hne.
    destruct (height =? an_height b) eqn:E; [lia | done].
Qed.
