(* ===== verification/Constants.v ===== *)
(** * Constants: the emission schedule ([src/src/constants.rs])

    Block interval, halvings and block reward, with the block-time V2 fork
    resolved from the environment, and the coinbase maturity.  Shown here: the
    reward never grows with the height and does not jump at the fork; the total
    the schedule would pay, in closed form, which on mainnet passes the supply
    cap; no environment variable changes these on mainnet. *)

From S2P Require Import Prelude Activation.
From Stdlib Require Import String.

Definition MAX_MONEY : Z := 100000000 * 100000000.
Definition BLOCK_TARGET_INTERVAL_V1 : Z := 600.
Definition BLOCK_TARGET_INTERVAL_V2 : Z := 120.
Definition DIFFICULTY_RETARGET_INTERVAL : Z := 2016.
Definition MAX_FUTURE_BLOCK_TIME : Z := 7200.
Definition MTP_ACTIVATION_HEIGHT : Z := 32000.
Definition COINBASE_MATURITY : Z := 100.
Definition LWMA_WINDOW : Z := 60.
Definition LWMA_SOLVETIME_CLAMP_FACTOR : Z := 6.
Definition LWMA_MAX_TARGET_UP_FACTOR : Z := 2.
Definition LWMA_MAX_TARGET_DOWN_FACTOR : Z := 2.
Definition LWMA_MIN_DIFFICULTY_FLOOR : Z := 1.
Definition INITIAL_SUBSIDY : Z := 50 * 100000000.
Definition HALVING_INTERVAL_V1 : Z := 210000.
Definition HALVING_INTERVAL_V2 : Z := 1050000.
Definition LWMA_V2_WINDOW : Z := 30.
Definition LWMA_V2_SOLVETIME_CLAMP_FACTOR : Z := 10.
Definition LWMA_V2_MAX_TARGET_UP_FACTOR : Z := 2.
Definition LWMA_V2_MAX_TARGET_DOWN_FACTOR : Z := 2.

Section env.
Context (env : Env).

Definition resolved_block_time_v2_fork_height : option Z :=
  resolved_block_time_v2_activation_height env (network_kind_from_env env).

Definition block_target_interval (height : Z) : Z :=
  match resolved_block_time_v2_fork_height with
  | Some fork => if fork <=? height then BLOCK_TARGET_INTERVAL_V2 else BLOCK_TARGET_INTERVAL_V1
  | None => BLOCK_TARGET_INTERVAL_V1
  end.

Definition halving_count (height : Z) : Z :=
  if height =? 0 then 0 else
  let legacy := (height - 1) / HALVING_INTERVAL_V1 in
  match resolved_block_time_v2_fork_height with
  | Some fork =>
      if fork <? height then
        let pre := if fork =? 0 then 0 else (fork - 1) / HALVING_INTERVAL_V1 in
        let post := (height - fork - 1) / HALVING_INTERVAL_V2 in
        pre + post
      else legacy
  | None => legacy
  end.

Definition block_reward (height : Z) : Z :=
  if height =? 0 then 0 else
  let halvings := halving_count height in
  if 64 <=? halvings then 0 else Z.shiftr INITIAL_SUBSIDY halvings.

Definition coinbase_maturity : Z :=
  if env_is_fast_network env
  then default 5 (v ← env "IRIUM_COINBASE_MATURITY"%string; parse_u64 v)
  else COINBASE_MATURITY.

(** ** The schedule *)
Definition fork_wf : Prop :=
  match resolved_block_time_v2_fork_height with Some fork => 0 <= fork | None => True end.

Lemma halving_count_mono h h' :
  fork_wf -> 0 <= h <= h' -> 0 <= halving_count h <= halving_count h'.
Proof.
  unfold fork_wf, halving_count, HALVING_INTERVAL_V1, HALVING_INTERVAL_V2.
  intros Hf Hh. destruct resolved_block_time_v2_fork_height as [fork|].
  - destruct (h =? 0) eqn:?, (h' =? 0) eqn:?, (fork <? h) eqn:?, (fork <? h') eqn:?,
      (fork =? 0) eqn:?; try lia; Z.div_mod_to_equations; lia.
  - destruct (h =? 0) eqn:?, (h' =? 0) eqn:?; try lia; Z.div_mod_to_equations; lia.
Qed.

Lemma block_reward_bounds h : fork_wf -> 0 <= h -> 0 <= block_reward h <= INITIAL_SUBSIDY.
Proof.
  intros Hf Hh. pose proof (halving_count_mono h h Hf ltac:(lia)).
  unfold block_reward. destruct (h =? 0); [done|]. destruct (64 <=? _); [done|].
  rewrite Z.shiftr_div_pow2 by lia.
  pose proof (Z.pow_pos_nonneg 2 (halving_count h) ltac:(lia) ltac:(lia)).
  split; [apply Z.div_pos; [done|lia] | apply Z.div_le_upper_bound; [lia|]].
  unfold INITIAL_SUBSIDY. nia.
Qed.
End env.

(** The total of the rewards of blocks [1 .. n]. *)
Fixpoint emitted_nat (env : Env) (n : nat) : Z :=
  match n with
  | O => 0
  | S m => emitted_nat env m + block_reward env (Z.of_nat n)
  end.

Definition emitted (env : Env) (n : Z) : Z := emitted_nat env (Z.to_nat n).

Lemma emitted_const env a b r :
  0 <= a <= b -> (forall h, a < h <= b -> block_reward env h = r) ->
  emitted env b = emitted env a + (b - a) * r.
Proof.
  intros Hab Hr. unfold emitted.
  replace (Z.to_nat b) with (Z.to_nat a + Z.to_nat (b - a))%nat by lia.
  assert (forall k, Z.of_nat k <= b - a ->
            emitted_nat env (Z.to_nat a + k) = emitted_nat env (Z.to_nat a) + Z.of_nat k * r) as H.
  { induction k as [|k IH]; intros Hk; [rewrite Nat.add_0_r; lia|].
    rewrite Nat.add_succ_r. cbn [emitted_nat].
    rewrite IH by lia. rewrite (Hr (Z.of_nat (S (Z.to_nat a + k)))) by lia. lia. }
  rewrite H, Z2Nat.id by lia. done.
Qed.

Lemma mainnet_fork env :
  network_kind_from_env env = Mainnet -> resolved_block_time_v2_fork_height env = Some 24250.
Proof. intros H. unfold resolved_block_time_v2_fork_height. by rewrite H. Qed.

(** The mainnet reward before the fork and in the [k]-th era after it. *)
Lemma mainnet_reward_pre env h :
  network_kind_from_env env = Mainnet -> 0 < h <= 24250 -> block_reward env h = INITIAL_SUBSIDY.
Proof.
  intros Hn Hh. unfold block_reward, halving_count. rewrite mainnet_fork by done.
  destruct (h =? 0) eqn:?; [lia|]. replace (24250 <? h) with false by lia.
  unfold HALVING_INTERVAL_V1. by rewrite Z.div_small by lia.
Qed.

Lemma mainnet_reward_era env k h :
  network_kind_from_env env = Mainnet -> 0 <= k < 64 ->
  24250 + k * HALVING_INTERVAL_V2 < h <= 24250 + (k + 1) * HALVING_INTERVAL_V2 ->
  block_reward env h = Z.shiftr INITIAL_SUBSIDY k.
Proof.
  unfold HALVING_INTERVAL_V2. intros Hn Hk Hh. unfold block_reward, halving_count.
  rewrite mainnet_fork by done. destruct (h =? 0) eqn:?; [lia|].
  replace (24250 <? h) with true by lia. cbn [Z.eqb].
  change ((24250 - 1) / HALVING_INTERVAL_V1) with 0. unfold HALVING_INTERVAL_V2.
  replace ((h - 24250 - 1) / 1050000) with k by (Z.div_mod_to_equations; lia).
  by replace (64 <=? 0 + k) with false by lia.
Qed.

Lemma mainnet_emitted_pre env :
  network_kind_from_env env = Mainnet -> emitted env 24250 = 24250 * INITIAL_SUBSIDY.
Proof.
  intros Hn. rewrite (emitted_const env 0 24250 INITIAL_SUBSIDY); [done | lia |].
  intros; by apply mainnet_reward_pre.
Qed.

Lemma mainnet_emitted_era env k r a b :
  network_kind_from_env env = Mainnet ->
  Z.shiftr INITIAL_SUBSIDY k = r -> a = 24250 + k * 1050000 ->
  0 <= k < 64 /\ a <= b <= a + 1050000 -> emitted env b = emitted env a + (b - a) * r.
Proof.
  intros Hn <- -> [Hk Hb]. apply emitted_const; [lia|]. intros h Hh.
  apply mainnet_reward_era; [done..|]. unfold HALVING_INTERVAL_V2. lia.
Qed.

(** What the genesis block pays out: 3.5 million coins
    ([configs/genesis-locked.json]). *)
Definition GENESIS_VESTING : Z := 350000000000000.

(** ** Properties *)

(** The emission schedule: the halving count starts at zero, never
    decreases and is the same at the block-time fork height and one block
    later; the reward of a block is at most the initial subsidy and never
    larger than the reward of an earlier (non-genesis) block. *)
Theorem reward_schedule env h h' :
  fork_wf env -> 1 <= h <= h' ->
  0 <= block_reward env h' <= block_reward env h /\ block_reward env h <= INITIAL_SUBSIDY /\
  0 <= halving_count env h <= halving_count env h' /\
  (resolved_block_time_v2_fork_height env = Some h -> halving_count env h = halving_count env (h + 1)).
Proof.
  intros Hf Hh. pose proof (halving_count_mono env h h' Hf ltac:(lia)) as Hm.
  pose proof (block_reward_bounds env h Hf ltac:(lia)).
  pose proof (block_reward_bounds env h' Hf ltac:(lia)).
  repeat split; try lia.
  - unfold block_reward in *. destruct (h' =? 0) eqn:?; [lia|]. destruct (h =? 0) eqn:?; [lia|].
    destruct (64 <=? halving_count env h') eqn:?; [destruct (64 <=? halving_count env h); lia|].
    replace (64 <=? halving_count env h) with false by lia.
    rewrite !Z.shiftr_div_pow2 by lia. apply Z.div_le_compat_l; [done|].
    split; [by apply Z.pow_pos_nonneg; lia | apply Z.pow_le_mono_r; lia].
  - intros Hr. unfold halving_count. rewrite Hr. destruct (h =? 0) eqn:?; [lia|].
    destruct (h + 1 =? 0) eqn:?; [lia|]. replace (h <? h) with false by lia.
    replace (h <? h + 1) with true by lia. replace (h + 1 - h - 1) with 0 by lia.
    rewrite Z.div_0_l by done. lia.
Qed.

Lemma reward_schedule_witness :
  let env := fun _ => None in
  0 <= block_reward env 2000000 <= block_reward env 24250 /\
  block_reward env 24250 <= INITIAL_SUBSIDY /\
  0 <= halving_count env 24250 <= halving_count env 2000000 /\
  (resolved_block_time_v2_fork_height env = Some 24250 ->
   halving_count env 24250 = halving_count env (24250 + 1)).
Proof. apply (reward_schedule (fun _ => None) 24250 2000000); [by vm_compute | lia]. Defined.

(** On mainnet the schedule does not converge to the supply cap, it runs
    into it: the rewards of blocks 1 .. 3,720,250 and the genesis allocation
    add up to exactly [MAX_MONEY], and the schedule still grants 6.25 coins to
    block 3,720,251; uncapped, the first eight eras alone pay more than the
    cap. *)
Theorem mainnet_emission_meets_cap env :
  network_kind_from_env env = Mainnet ->
  emitted env 3720250 + GENESIS_VESTING = MAX_MONEY /\
  block_reward env 3720251 = 625000000 /\
  MAX_MONEY < emitted env 8424250.
Proof.
  intros Hn.
  assert (block_reward env 3720251 = 625000000) as Hnext.
  { rewrite (mainnet_reward_era env 3) by (done || (unfold HALVING_INTERVAL_V2; lia)). done. }
  pose proof (mainnet_emitted_pre env Hn) as H0.
  pose proof (mainnet_emitted_era env 0 5000000000 24250 1074250 Hn eq_refl eq_refl ltac:(lia)).
  pose proof (mainnet_emitted_era env 1 2500000000 1074250 2124250 Hn eq_refl eq_refl ltac:(lia)).
  pose proof (mainnet_emitted_era env 2 1250000000 2124250 3174250 Hn eq_refl eq_refl ltac:(lia)).
  pose proof (mainnet_emitted_era env 3 625000000 3174250 3720250 Hn eq_refl eq_refl ltac:(lia)).
  pose proof (mainnet_emitted_era env 3 625000000 3174250 4224250 Hn eq_refl eq_refl ltac:(lia)).
  pose proof (mainnet_emitted_era env 4 312500000 4224250 5274250 Hn eq_refl eq_refl ltac:(lia)).
  pose proof (mainnet_emitted_era env 5 156250000 5274250 6324250 Hn eq_refl eq_refl ltac:(lia)).
  pose proof (mainnet_emitted_era env 6 78125000 6324250 7374250 Hn eq_refl eq_refl ltac:(lia)).
  pose proof (mainnet_emitted_era env 7 39062500 7374250 8424250 Hn eq_refl eq_refl ltac:(lia)).
  unfold MAX_MONEY, GENESIS_VESTING, INITIAL_SUBSIDY in *.
  split; [lia | split; [exact Hnext | lia]].
Qed.

Lemma mainnet_emission_meets_cap_witness :
  let env := fun _ => None in
  emitted env 3720250 + GENESIS_VESTING = MAX_MONEY /\
  block_reward env 3720251 = 625000000 /\
  MAX_MONEY < emitted env 8424250.
Proof. apply (mainnet_emission_meets_cap (fun _ => None)). reflexivity. Defined.

(** On mainnet the environment has no say in consensus: two environments
    that both select mainnet agree on every fork height, on the reward and the
    block interval at every height, on the coinbase maturity, and neither
    enables the easy-difficulty override. *)
Theorem mainnet_ignores_environment e e' :
  network_kind_from_env e = Mainnet -> network_kind_from_env e' = Mainnet ->
  let heights env := (fun f => f env Mainnet) <$>
    [ resolved_htlcv1_activation_height; resolved_lwma_activation_height;
      resolved_lwma_v2_activation_height; resolved_auxpow_activation_height;
      resolved_block_time_v2_activation_height; resolved_btc_spv_relay_activation_height;
      resolved_ltc_spv_relay_activation_height; resolved_htlc_ltc_swap_v1_activation_height;
      resolved_ltc_swap_order_v1_activation_height; resolved_htlc_btc_swap_v1_activation_height;
      resolved_swap_order_v1_activation_height;
      resolved_btc_swap_bech32_payment_activation_height;
      resolved_coinbase_header_batch_activation_height; resolved_mpsov1_activation_height ] in
  heights e = heights e' /\
  resolved_standard_header_activation_height e Mainnet =
    resolved_standard_header_activation_height e' Mainnet /\
  (forall h, block_reward e h = block_reward e' h /\
             block_target_interval e h = block_target_interval e' h /\
             poawx_consensus_active e h = poawx_consensus_active e' h) /\
  coinbase_maturity e = coinbase_maturity e' /\
  env_is_fast_network e = false /\ env_is_fast_network e' = false.
Proof.
  intros He He'. cbv zeta. unfold coinbase_maturity. rewrite !mainnet_not_fast by done.
  repeat split; unfold block_reward, halving_count, block_target_interval, poawx_consensus_active,
    network_id_byte; by rewrite ?mainnet_fork, ?He, ?He' by done.
Qed.

Lemma mainnet_ignores_environment_witness :
  let e : Env := fun _ => None in
  let e' : Env := fun n => if (n =? "IRIUM_LWMA_ACTIVATION_HEIGHT")%string then Some "5"%string else None in
  (forall h, block_reward e h = block_reward e' h /\
             block_target_interval e h = block_target_interval e' h /\
             poawx_consensus_active e h = poawx_consensus_active e' h).
Proof.
  intros e e'. exact (proj1 (proj2 (proj2 (mainnet_ignores_environment e e' eq_refl eq_refl)))).
Defined.
