(* ===== verification/Merkle.v ===== *)
(** * Merkle: Merkle roots and branches

    [merkle_level] and [merkle_loop] are the loop of [Block::merkle_root]
    ([src/src/block.rs]); [compute_merkle_root] is the branch verifier of
    [src/src/auxpow.rs], which the merged-mining check and the swap-payment
    proofs share.  Shown here: the loop terminates on one hash, every leaf has
    a branch that the verifier takes to the root, two leaves with branches to
    one root at one index are equal up to a collision of the hash, and an odd
    level hashes like the level with its last entry repeated. *)

From S2P Require Import Prelude Crypto.
From Stdlib Require Import ZifyNat.

(** Linear arithmetic with division by constants. *)
Ltac div_lia := zify; Z.to_euclidean_division_equations; lia.

Section merkle.
Context `{C : Crypto}.

(** ** Building a root *)

(** [if leaves.len() % 2 == 1 { leaves.push(last) }] *)
Definition pad_odd (leaves : list bytes) : list bytes :=
  if len leaves mod 2 =? 1 then leaves ++ [List.last leaves []] else leaves.

(** [leaves.chunks(2)], each pair hashed *)
Fixpoint hash_pairs (leaves : list bytes) : list bytes :=
  match leaves with
  | a :: b :: rest => header_hash [a; b] :: hash_pairs rest
  | _ => []
  end.

Definition merkle_level (leaves : list bytes) : list bytes := hash_pairs (pad_odd leaves).

(** [while leaves.len() > 1 { .. } leaves[0]]; [None] when the fuel is used up *)
Fixpoint merkle_loop (fuel : nat) (leaves : list bytes) : option bytes :=
  match leaves with
  | [h] => Some h
  | _ =>
      match fuel with
      | O => None
      | S fuel => merkle_loop fuel (merkle_level leaves)
      end
  end.

(** [Block::merkle_root], of the leaves (the reversed txids) *)
Definition merkle_root_of (leaves : list bytes) : bytes :=
  match leaves with
  | [] => zeros 32
  | _ => default [] (merkle_loop (length leaves) leaves)
  end.

(** ** Verifying a branch *)
Fixpoint compute_merkle_root (leaf : bytes) (branch : list bytes) (index : Z) : bytes :=
  match branch with
  | [] => leaf
  | sibling :: branch =>
      let buf := if Z.land index 1 =? 0 then leaf ++ sibling else sibling ++ leaf in
      compute_merkle_root (sha256d buf) branch (Z.shiftr index 1)
  end.

(** The branch of the leaf at [index]: its sibling on every level. *)
Fixpoint merkle_branch (fuel : nat) (leaves : list bytes) (index : nat) : list bytes :=
  match leaves with
  | [] | [_] => []
  | _ =>
      match fuel with
      | O => []
      | S fuel =>
          let sibling := if Nat.even index then S index else (index - 1)%nat in
          nth sibling (pad_odd leaves) [] :: merkle_branch fuel (merkle_level leaves) (index / 2)
      end
  end.

(** ** The loop terminates *)
Lemma length_pad_odd leaves :
  length (pad_odd leaves) = (2 * ((length leaves + 1) / 2))%nat.
Proof.
  unfold pad_odd, len. destruct (_ =? 1) eqn:H; [apply Z.eqb_eq in H | apply Z.eqb_neq in H];
    rewrite ?length_app; cbn [length]; div_lia.
Qed.

Lemma length_hash_pairs n leaves : length leaves = (2 * n)%nat -> length (hash_pairs leaves) = n.
Proof.
  revert leaves; induction n as [|n IH]; intros [|a [|b leaves]] H; cbn in *; try lia.
  f_equal. apply IH. lia.
Qed.

Lemma length_merkle_level leaves : length (merkle_level leaves) = ((length leaves + 1) / 2)%nat.
Proof. apply length_hash_pairs, length_pad_odd. Qed.

Lemma merkle_loop_total fuel leaves :
  leaves <> [] -> (length leaves <= S fuel)%nat -> is_Some (merkle_loop fuel leaves).
Proof.
  revert leaves; induction fuel as [|fuel IH]; intros [|a [|b leaves]] Hn Hl; cbn in Hl; try lia;
    try done; try (by eexists).
  cbn [merkle_loop]. pose proof (length_merkle_level (a :: b :: leaves)) as HL.
  cbn [length] in HL.
  apply IH; [|rewrite HL; div_lia]. intros E.
  apply (f_equal length) in E. rewrite HL in E. cbn [length] in E. div_lia.
Qed.

Lemma merkle_root_loop leaves :
  leaves <> [] -> merkle_loop (length leaves) leaves = Some (merkle_root_of leaves).
Proof.
  intros Hn. destruct (merkle_loop_total (length leaves) leaves Hn ltac:(lia)) as [h Hh].
  unfold merkle_root_of. rewrite Hh. by destruct leaves.
Qed.

(** ** Branches lead to the root *)
Lemma nth_hash_pairs n leaves i :
  length leaves = (2 * n)%nat -> (i < n)%nat ->
  nth i (hash_pairs leaves) [] = sha256d (nth (2 * i) leaves [] ++ nth (2 * i + 1) leaves []).
Proof.
  revert leaves i; induction n as [|n IH]; intros [|a [|b leaves]] i H Hi; cbn in H; try lia.
  destruct i as [|i].
  - cbn. unfold header_hash. cbn. by rewrite app_nil_r.
  - replace (2 * S i)%nat with (S (S (2 * i))) by lia. cbn [hash_pairs nth Nat.add].
    rewrite IH by lia. done.
Qed.

Lemma nth_pad_odd leaves i : (i < length leaves)%nat -> nth i (pad_odd leaves) [] = nth i leaves [].
Proof. intros Hi. unfold pad_odd. destruct (_ =? 1); [by apply app_nth1 | done]. Qed.

Lemma even_bit i : (Z.land (Z.of_nat i) 1 =? 0) = Nat.even i.
Proof.
  change 1 with (Z.ones 1). rewrite Z.land_ones by lia. change (2 ^ 1) with 2.
  destruct (Nat.even i) eqn:He.
  - apply Nat.even_spec in He as [k ->]. apply Z.eqb_eq.
    replace (Z.of_nat (2 * k)) with (Z.of_nat k * 2) by lia. apply Z.mod_mul. lia.
  - assert (Nat.odd i = true) as Ho by (unfold Nat.odd; by rewrite He).
    apply Nat.odd_spec in Ho as [k ->]. apply Z.eqb_neq.
    replace (Z.of_nat (2 * k + 1)) with (1 + Z.of_nat k * 2) by lia.
    rewrite Z.mod_add by lia. done.
Qed.

Lemma merkle_branch_step leaves i :
  (i < length leaves)%nat ->
  let x := nth i leaves [] in
  let s := nth (if Nat.even i then S i else i - 1)%nat (pad_odd leaves) [] in
  sha256d (if Nat.even i then x ++ s else s ++ x) = nth (i / 2) (merkle_level leaves) [].
Proof.
  intros Hi x s. unfold merkle_level. pose proof (length_pad_odd leaves) as Hl.
  assert (i / 2 < (length leaves + 1) / 2)%nat.
  { div_lia. }
  rewrite (nth_hash_pairs _ _ _ Hl) by done. subst x s. rewrite <- (nth_pad_odd leaves i Hi).
  destruct (Nat.even i) eqn:He.
  - apply Nat.even_spec in He as [k ->]. rewrite Nat.mul_comm, Nat.div_mul by lia.
    rewrite (Nat.mul_comm k 2). do 3 f_equal. lia.
  - assert (Nat.odd i = true) as Ho by (unfold Nat.odd; by rewrite He).
    apply Nat.odd_spec in Ho as [k ->].
    replace ((2 * k + 1) / 2)%nat with k.
    2:{ rewrite Nat.add_comm, Nat.mul_comm, Nat.div_add by lia. done. }
    do 3 f_equal. lia.
Qed.

Lemma merkle_branch_loop fuel leaves i h :
  merkle_loop fuel leaves = Some h -> (i < length leaves)%nat ->
  compute_merkle_root (nth i leaves []) (merkle_branch fuel leaves i) (Z.of_nat i) = h.
Proof.
  revert leaves i; induction fuel as [|fuel IH]; intros [|a [|b leaves]] i Hh Hi;
    cbn [length] in Hi; try lia; try done.
  - assert (i = 0)%nat as -> by lia. cbn in *. congruence.
  - assert (i = 0)%nat as -> by lia. cbn in *. congruence.
  - cbn [merkle_loop] in Hh. cbn [merkle_branch compute_merkle_root]. rewrite even_bit.
    replace (Z.shiftr (Z.of_nat i) 1) with (Z.of_nat (i / 2)).
    2:{ rewrite Z.shiftr_div_pow2 by lia. change (2 ^ 1) with 2. apply (Nat2Z.inj_div i 2). }
    rewrite merkle_branch_step by done. apply IH; [done|].
    rewrite length_merkle_level. cbn [length].
    div_lia.
Qed.

Lemma merkle_loop_mono fuel fuel' leaves h :
  (fuel <= fuel')%nat -> merkle_loop fuel leaves = Some h -> merkle_loop fuel' leaves = Some h.
Proof.
  revert fuel' leaves; induction fuel as [|fuel IH]; intros fuel' [|a [|b leaves]] Hf H; try done.
  - by destruct fuel'.
  - destruct fuel' as [|fuel']; [lia|]. cbn [merkle_loop] in *. apply (IH fuel'); [lia|done].
  - by destruct fuel'.
  - destruct fuel' as [|fuel']; [lia|]. cbn [merkle_loop] in *. apply (IH fuel'); [lia|done].
Qed.

Lemma pad_odd_even leaves : Nat.even (length leaves) = true -> pad_odd leaves = leaves.
Proof.
  intros [k Hk]%Nat.even_spec. unfold pad_odd, len. destruct (_ =? 1) eqn:E; [|done].
  apply Z.eqb_eq in E. div_lia.
Qed.

Lemma pad_odd_odd leaves :
  Nat.odd (length leaves) = true -> pad_odd leaves = leaves ++ [List.last leaves []].
Proof.
  intros [k Hk]%Nat.odd_spec. unfold pad_odd, len. destruct (_ =? 1) eqn:E; [done|].
  apply Z.eqb_neq in E. div_lia.
Qed.

(** A collision of the double hash. *)
Definition collision : Prop := exists x y, x <> y /\ sha256d x = sha256d y.

Context {CL : CryptoLaws C}.

Lemma merkle_binding_aux leaf leaf' branch branch' index :
  length branch = length branch' -> arr 32 leaf -> arr 32 leaf' ->
  Forall (arr 32) branch -> Forall (arr 32) branch' ->
  compute_merkle_root leaf branch index = compute_merkle_root leaf' branch' index ->
  (leaf = leaf' /\ branch = branch') \/ collision.
Proof.
  revert leaf leaf' branch' index; induction branch as [|s branch IH];
    intros leaf leaf' [|s' branch'] index Hl Ha Ha' Hb Hb' H; try done; [by left|].
  apply Forall_cons in Hb as [Hs Hb]. apply Forall_cons in Hb' as [Hs' Hb'].
  cbn [compute_merkle_root] in H.
  destruct (IH _ _ branch' _ ltac:(cbn in Hl; lia) (sha256d_arr _) (sha256d_arr _) Hb Hb' H)
    as [[He ->]|]; [|by right].
  match type of He with sha256d ?x = sha256d ?y =>
    destruct (decide (x = y)) as [Hxy|Hxy]; [|right; by exists x, y] end.
  left. destruct Ha, Ha', Hs, Hs'. unfold len in *.
  destruct (Z.land index 1 =? 0); apply app_inj_1 in Hxy as [-> ->]; done || lia.
Qed.
End merkle.

(** ** Properties *)

(** The block Merkle root is the root the branch verifier checks against:
    for every leaf of a non-empty block there is a branch (its siblings, level
    by level) with which [compute_merkle_root] at the leaf's index gives
    exactly the root that [Block::merkle_root] computes; in particular the
    level loop ends with one hash. *)
Theorem merkle_branch_complete `{Crypto} leaves i leaf :
  leaves !! i = Some leaf ->
  exists branch,
    compute_merkle_root leaf branch (Z.of_nat i) = merkle_root_of leaves /\
    merkle_loop (length leaves) leaves = Some (merkle_root_of leaves).
Proof.
  intros Hl. assert (leaves <> []) as Hn by (by intros ->).
  pose proof (lookup_lt_Some _ _ _ Hl).
  pose proof (merkle_root_loop leaves Hn) as Hr.
  exists (merkle_branch (length leaves) leaves i). split; [|done].
  rewrite <- (nth_lookup_Some _ _ [] _ Hl). by apply merkle_branch_loop.
Qed.

Lemma merkle_branch_complete_witness :
  let leaves := (fun k => replicate 32 k) <$> [1; 2; 3] in
  exists branch,
    compute_merkle_root (replicate 32 3) branch (Z.of_nat 2) = merkle_root_of leaves /\
    merkle_loop (length leaves) leaves = Some (merkle_root_of leaves).
Proof. intros leaves. apply (merkle_branch_complete leaves 2 (replicate 32 3)). reflexivity. Defined.

(** A Merkle root binds its leaves: two 32-byte leaves that the branch
    verifier takes to one root at one index, with branches of one depth, are
    the same leaf with the same branch, or the double hash collides. *)
Theorem merkle_binding `{CL : CryptoLaws} leaf leaf' branch branch' index :
  length branch = length branch' -> arr 32 leaf -> arr 32 leaf' ->
  Forall (arr 32) branch -> Forall (arr 32) branch' ->
  compute_merkle_root leaf branch index = compute_merkle_root leaf' branch' index ->
  (leaf = leaf' /\ branch = branch') \/ collision.
Proof. apply merkle_binding_aux. Qed.

Lemma merkle_binding_witness :
  let l := replicate 32 7 in let b := [replicate 32 8] in
  (l = l /\ b = b) \/ collision.
Proof.
  intros l b. apply (merkle_binding l l b b 1); subst l b; try done; wf_compute.
Defined.

(** The duplication rule is not injective on transaction lists: a block
    with an odd number (at least three) of transactions and the same block with
    its last transaction repeated have the same Merkle root. *)
Theorem merkle_duplicate_last `{Crypto} leaves :
  Nat.odd (length leaves) = true -> (2 <= length leaves)%nat ->
  merkle_root_of (leaves ++ [List.last leaves []]) = merkle_root_of leaves.
Proof.
  intros Ho Hl. set (l' := leaves ++ _).
  assert (leaves <> []) as Hn by (by intros ->).
  assert (l' <> []) as Hn' by (by destruct leaves).
  pose proof (merkle_root_loop leaves Hn) as H1. pose proof (merkle_root_loop l' Hn') as H2.
  assert (Nat.even (length l') = true) as He.
  { subst l'. rewrite length_app, Nat.add_1_r. by rewrite Nat.even_succ. }
  assert (merkle_level l' = merkle_level leaves) as Hlev.
  { unfold merkle_level. rewrite (pad_odd_even l'), (pad_odd_odd leaves) by done. done. }
  assert (merkle_loop (length leaves) l' = Some (merkle_root_of leaves)) as H3.
  { destruct leaves as [|a [|b rest]]; cbn [length] in Hl; try lia. subst l'.
    cbn [app length merkle_loop] in *. by rewrite Hlev. }
  apply (merkle_loop_mono _ (length l')) in H3; [congruence|].
  subst l'. rewrite length_app. lia.
Qed.

Lemma merkle_duplicate_last_witness :
  let leaves := (fun k => replicate 32 k) <$> [1; 2; 3] in
  merkle_root_of (leaves ++ [List.last leaves []]) = merkle_root_of leaves.
Proof. intros leaves. apply (merkle_duplicate_last leaves); [reflexivity | cbn; lia]. Defined.
