(* ===== verification/Header.v ===== *)
(** * Header: block headers and their hashes ([src/src/block.rs])

    The 80-byte header in the two byte orders the chain has used, its hash,
    and the alternative proof-of-work hash of [src/src/chain.rs].  The
    activation height of the standard byte order is a process-wide value the
    binaries set at start-up; it is the argument [std_header_activation] here.
    Shown here: encoding and decoding are inverse at every height, the parent
    hash can be read without knowing the height, and decoding at a height on the wrong side of the fork changes nothing but
    the byte order of the Merkle root. *)

From S2P Require Import Prelude Crypto Pow TxCodec.

Record BlockHeader := {
  version : Z;
  prev_hash : bytes;
  merkle_root : bytes;
  time : Z;
  hbits : Z;
  nonce : Z
}.

#[export] Instance BlockHeader_eq_dec : EqDecision BlockHeader.
Proof. solve_decision. Defined.

Definition target (h : BlockHeader) : Target := {| bits := hbits h |}.

(** [BlockHeader::serialize]: the order before the fork. *)
Definition serialize_header (h : BlockHeader) : bytes :=
  le_bytes 4 (version h) ++ rev (prev_hash h) ++ rev (merkle_root h) ++
  le_bytes 4 (time h) ++ le_bytes 4 (hbits h) ++ le_bytes 4 (nonce h).

Definition hash `{Crypto} (h : BlockHeader) : bytes := rev (header_hash [serialize_header h]).

Definition serialize_with_activation (h : BlockHeader) (height std_header_activation : Z) : bytes :=
  le_bytes 4 (version h) ++ rev (prev_hash h) ++
  (if height <? std_header_activation then rev (merkle_root h) else merkle_root h) ++
  le_bytes 4 (time h) ++ le_bytes 4 (hbits h) ++ le_bytes 4 (nonce h).

(** [hash_for_height] with the resolved activation height explicit. *)
Definition hash_for_height `{Crypto} (std_header_activation : Z) (h : BlockHeader) (height : Z)
    : bytes :=
  rev (header_hash [serialize_with_activation h height std_header_activation]).

Definition peek_prev_hash (raw : bytes) : res string bytes :=
  if len raw <? 36 then Err "header too short to peek prev_hash"%string else
  prev ← slice raw 4 36;
  Ok (rev prev).

Definition deserialize_with_activation (raw : bytes) (height std_header_activation : Z)
    : res string (BlockHeader * Z) :=
  if len raw <? 80 then Err "header too short"%string else
  '(v, offset) ← read_u32 raw 0;
  prev ← slice raw offset (offset + 32);
  let offset := offset + 32 in
  merkle ← slice raw offset (offset + 32);
  let merkle := if height <? std_header_activation then rev merkle else merkle in
  let offset := offset + 32 in
  '(t, offset) ← read_u32 raw offset;
  '(b, offset) ← read_u32 raw offset;
  '(n, offset) ← read_u32 raw offset;
  Ok ({| version := v; prev_hash := rev prev; merkle_root := merkle;
         time := t; hbits := b; nonce := n |}, offset).

(** [BlockHeader::deserialize] *)
Definition deserialize_header (raw : bytes) : res string (BlockHeader * Z) :=
  if len raw <? 80 then Err "header too short"%string else
  '(v, offset) ← read_u32 raw 0;
  prev ← slice raw offset (offset + 32);
  let offset := offset + 32 in
  merkle ← slice raw offset (offset + 32);
  let offset := offset + 32 in
  '(t, offset) ← read_u32 raw offset;
  '(b, offset) ← read_u32 raw offset;
  '(n, offset) ← read_u32 raw offset;
  Ok ({| version := v; prev_hash := rev prev; merkle_root := rev merkle;
         time := t; hbits := b; nonce := n |}, offset).

(** ** The alternative hash of [chain.rs] *)
Fixpoint swap4_bytes_each_word (input : bytes) : bytes :=
  match input with
  | a :: b :: c :: d :: rest => d :: c :: b :: a :: swap4_bytes_each_word rest
  | _ => []
  end.

Definition whatsminer_compat_pow_hash_for_height `{Crypto} (std_header_activation : Z)
    (h : BlockHeader) (height : Z) : option bytes :=
  if height <? std_header_activation then None else
  let prev_whatsminer := swap4_bytes_each_word (rev (prev_hash h)) in
  Some (rev (sha256d (le_bytes 4 (version h) ++ prev_whatsminer ++ merkle_root h ++
    le_bytes 4 (time h) ++ le_bytes 4 (hbits h) ++ le_bytes 4 (nonce h)))).

(** ** Well-formed headers: the Rust field types *)
Definition wf_header (h : BlockHeader) : Prop :=
  u32 (version h) /\ arr 32 (prev_hash h) /\ arr 32 (merkle_root h) /\
  u32 (time h) /\ u32 (hbits h) /\ u32 (nonce h).

Lemma arr_rev n s : arr n s -> arr n (rev s).
Proof.
  intros [Hl Hw]. split; [by rewrite len_rev|].
  apply Forall_forall. intros x Hx. apply list_elem_of_In, in_rev, list_elem_of_In in Hx.
  by apply (proj1 (Forall_forall _ _) Hw).
Qed.

Lemma len_serialize_header h height act :
  wf_header h -> len (serialize_with_activation h height act) = 80.
Proof.
  intros (_ & [Hp _] & [Hm _] & _). unfold serialize_with_activation.
  destruct (height <? act); len_lia.
Qed.

Lemma deserialize_header_legacy raw height act :
  height < act -> deserialize_header raw = deserialize_with_activation raw height act.
Proof.
  intros H. unfold deserialize_header, deserialize_with_activation.
  by replace (height <? act) with true by lia.
Qed.

Lemma serialize_header_legacy h height act :
  height < act -> serialize_header h = serialize_with_activation h height act.
Proof.
  intros H. unfold serialize_header, serialize_with_activation.
  by replace (height <? act) with true by lia.
Qed.

Lemma deserialize_serialize_aux h height act rest :
  wf_header h ->
  deserialize_with_activation (serialize_with_activation h height act ++ rest) height act
  = Ok (h, 80).
Proof.
  intros (Hv & Hp & Hm & Ht & Hb & Hn). unfold deserialize_with_activation.
  set (m := if height <? act then rev (merkle_root h) else merkle_root h).
  assert (len m = 32) as Hlm by (subst m; destruct Hm, (height <? act); len_lia).
  assert (len (rev (prev_hash h)) = 32) as Hlp by (destruct Hp; len_lia).
  unfold serialize_with_activation. fold m. rewrite <- !app_assoc.
  set (p := rev (prev_hash h)) in *. if_lia.
  unfold read_u32. repeat first [if_lia | parse_step; cbv beta iota zeta].
  rewrite !le_val_u32 by done. subst p m. rewrite rev_involutive.
  destruct h; cbn [version prev_hash merkle_root time hbits nonce].
  destruct (height <? act); rewrite ?rev_involutive; done.
Qed.

Lemma read_u32_inv raw off v off' :
  wf_bytes raw -> read_u32 raw off = Ok (v, off') ->
  u32 v /\ off' = off + 4 /\ slice raw off (off + 4) = @Ok string _ (le_bytes 4 v).
Proof.
  intros Hw H. unfold read_u32 in H. invert_parser H. injection H as <- <-.
  pose proof (slice_arr _ _ _ _ 4 Hw Heqr ltac:(lia)) as Ha.
  split; [by apply (arr_le_val 4)|]. split; [done|]. by rewrite (le_bytes_val_n 4).
Qed.

Lemma serialize_deserialize_aux raw height act h off :
  wf_bytes raw -> deserialize_with_activation raw height act = Ok (h, off) ->
  wf_header h /\ off = 80 /\ slice raw 0 80 = @Ok string _ (serialize_with_activation h height act).
Proof.
  intros Hw H. unfold deserialize_with_activation in H. invert_parser H.
  repeat match goal with
  | Hr : read_u32 _ _ = Ok _ |- _ => apply (read_u32_inv _ _ _ _ Hw) in Hr as (? & -> & Hr)
  end.
  injection H as <- <-. cbn [Z.add Pos.add Pos.succ] in *.
  repeat match goal with
  | Hs : slice raw ?a ?b = Ok ?x |- _ =>
      lazymatch x with le_bytes _ _ => fail | _ =>
        lazymatch goal with _ : arr 32 x |- _ => fail | _ =>
        pose proof (slice_arr _ _ _ _ 32 Hw Hs eq_refl) end end
  end.
  split; [|split; [done|]].
  - unfold wf_header; split_and!; cbn [version prev_hash merkle_root time hbits nonce];
      destruct (height <? act); try done; by apply arr_rev.
  - unfold serialize_with_activation. cbn [version prev_hash merkle_root time hbits nonce].
    rewrite rev_involutive. replace (if height <? act then _ else _) with a1
      by (destruct (height <? act); by rewrite ?rev_involutive).
    repeat (eapply slice_cat; [eassumption|]). done.
Qed.

(** ** Properties *)

(** The header wire format round-trips at every height, on both sides of
    the byte-order fork and whatever follows the header: decoding the encoding
    of a header gives it back and stops after 80 bytes; and every header the
    decoder returns re-encodes to the 80 bytes it was read from. *)
Theorem header_roundtrip h height act rest raw off :
  wf_header h -> wf_bytes raw ->
  deserialize_with_activation (serialize_with_activation h height act ++ rest) height act = Ok (h, 80) /\
  (forall h', deserialize_with_activation raw height act = Ok (h', off) ->
    wf_header h' /\ off = 80 /\
    slice raw 0 80 = @Ok string _ (serialize_with_activation h' height act)).
Proof.
  intros Hh Hw. split; [by apply deserialize_serialize_aux|].
  intros h' H. by apply serialize_deserialize_aux.
Qed.

Definition sample_header : BlockHeader :=
  {| version := 1; prev_hash := zeros 32; merkle_root := seqZ 0 32;
     time := 1767583930; hbits := 0x1d00ffff; nonce := 1842179559 |}.

Lemma header_roundtrip_witness :
  deserialize_with_activation (serialize_with_activation sample_header 22888 22888 ++ [9]) 22888 22888
  = Ok (sample_header, 80).
Proof.
  refine (proj1 (header_roundtrip sample_header 22888 22888 [9] [] 0 _ _)); unfold wf_header;
    wf_compute.
Defined.

(** The parent of a block can be found before its height is known: on the
    encoding of a header for any height (with anything behind it) the
    height-independent [peek_prev_hash] returns the header's parent hash, and
    the decoder for any other height reads the same parent hash, time, bits
    and nonce. *)
Theorem peek_prev_hash_any_height h height height' act rest :
  wf_header h ->
  peek_prev_hash (serialize_with_activation h height act ++ rest) = Ok (prev_hash h) /\
  exists h', deserialize_with_activation (serialize_with_activation h height act ++ rest) height' act
    = Ok (h', 80) /\
  prev_hash h' = prev_hash h /\ time h' = time h /\ hbits h' = hbits h /\ nonce h' = nonce h /\
  (merkle_root h' = merkle_root h \/ merkle_root h' = rev (merkle_root h)).
Proof.
  intros Hh. pose proof Hh as (Hv & Hp & Hm & Ht & Hb & Hn). split.
  - unfold peek_prev_hash. rewrite len_app, (len_serialize_header _ _ _ Hh).
    pose proof (len_nonneg rest). replace (80 + len rest <? 36) with false by lia.
    unfold serialize_with_activation. rewrite <- !app_assoc.
    assert (len (rev (prev_hash h)) = 32) by (destruct Hp; len_lia).
    set (p := rev (prev_hash h)) in *. parse_step. subst p. by rewrite rev_involutive.
  - set (m := if Bool.eqb (height <? act) (height' <? act) then merkle_root h
              else rev (merkle_root h)).
    set (h' := {| version := version h; prev_hash := prev_hash h; merkle_root := m;
                  time := time h; hbits := hbits h; nonce := nonce h |}).
    exists h'.
    assert (serialize_with_activation h height act = serialize_with_activation h' height' act) as ->.
    { unfold serialize_with_activation. cbn [version prev_hash merkle_root time hbits nonce h'].
      do 2 f_equal. f_equal. subst m.
      destruct (height <? act), (height' <? act); cbn; by rewrite ?rev_involutive. }
    split; [apply deserialize_serialize_aux|].
    + unfold wf_header; split_and!; cbn; try done; subst m;
        destruct (Bool.eqb _ _); try done; by apply arr_rev.
    + repeat split. subst m h'. cbn. destruct (Bool.eqb _ _); auto.
Qed.

Lemma peek_prev_hash_any_height_witness :
  peek_prev_hash (serialize_with_activation sample_header 5 22888 ++ [1]) = Ok (zeros 32).
Proof.
  refine (proj1 (peek_prev_hash_any_height sample_header 5 30000 22888 [1] _)); unfold wf_header;
    wf_compute.
Defined.
