(* ===== verification/AuxPow.v ===== *)
(** * AuxPow: merged-mining proofs ([src/src/auxpow.rs])

    The extension a merge-mined block carries behind its header: its codec,
    the search for the commitment in the parent's coinbase and the validation.
    Shown here: the codec round-trips, decoding never panics and reads at most
    20 + 20 branch hashes, an honestly built proof validates, and one proof
    cannot vouch for two different blocks unless the hash collides. *)

From S2P Require Import Prelude Crypto Pow TxCodec Merkle.

Definition AUXPOW_VERSION_BIT : Z := Z.shiftl 1 8.
Definition AUXPOW_COMMIT_MAGIC : bytes := [0xfa; 0xbe; 0x6d; 0x6d].
Definition MAX_BRANCH_DEPTH : Z := 20.

Record AuxPoW := {
  coinbase_txn : bytes;
  parent_hash : bytes;
  coinbase_branch : list bytes;
  coinbase_branch_index : Z;
  blockchain_branch : list bytes;
  blockchain_branch_index : Z;
  parent_header : bytes
}.

#[export] Instance AuxPoW_eq_dec : EqDecision AuxPoW.
Proof. solve_decision. Defined.

(** ** Codec *)
Definition read_varint (data : bytes) (offset : Z) : res string (Z * Z) :=
  if len data <=? offset then Err "unexpected EOF reading varint"%string else
  first ← idx data offset;
  let offset := offset + 1 in
  if first =? 0xff then
    if len data <? offset + 8 then Err "unexpected EOF reading 8-byte varint"%string else
    b ← slice data offset (offset + 8);
    Ok (le_val b, offset + 8)
  else if first =? 0xfe then
    if len data <? offset + 4 then Err "unexpected EOF reading 4-byte varint"%string else
    b ← slice data offset (offset + 4);
    Ok (le_val b, offset + 4)
  else if first =? 0xfd then
    if len data <? offset + 2 then Err "unexpected EOF reading 2-byte varint"%string else
    b ← slice data offset (offset + 2);
    Ok (le_val b, offset + 2)
  else Ok (first, offset).

Definition serialize_auxpow (ap : AuxPoW) : bytes :=
  write_varint (len (coinbase_txn ap)) ++ coinbase_txn ap ++ parent_hash ap ++
  write_varint (len (coinbase_branch ap)) ++ concat (coinbase_branch ap) ++
  le_bytes 4 (coinbase_branch_index ap) ++
  write_varint (len (blockchain_branch ap)) ++ concat (blockchain_branch ap) ++
  le_bytes 4 (blockchain_branch_index ap) ++ parent_header ap.

(** [if *offset + n > data.len() { Err(e) } .. data[*offset..*offset + n]] *)
Definition read_array (n : Z) (e : string) (data : bytes) (offset : Z) : res string (bytes * Z) :=
  if len data <? offset + n then Err e else
  b ← slice data offset (offset + n);
  Ok (b, offset + n).

Definition deserialize_auxpow (data : bytes) (offset : Z) : res string (AuxPoW * Z) :=
  '(coinbase_len, offset) ← read_varint data offset;
  if 1000000 <? coinbase_len then Err "coinbase transaction too large"%string else
  '(txn, offset) ← read_array coinbase_len "unexpected EOF reading coinbase txn" data offset;
  '(phash, offset) ← read_array 32 "unexpected EOF reading parent_hash" data offset;
  '(cb_count, offset) ← read_varint data offset;
  if MAX_BRANCH_DEPTH <? cb_count then Err "coinbase branch depth exceeds maximum"%string else
  '(cb, offset) ← read_many (read_array 32 "unexpected EOF reading coinbase branch hash")
                    (Z.to_nat cb_count) data offset;
  '(cbi, offset) ← read_array 4 "unexpected EOF reading coinbase_branch_index" data offset;
  '(bc_count, offset) ← read_varint data offset;
  if MAX_BRANCH_DEPTH <? bc_count then Err "blockchain branch depth exceeds maximum"%string else
  '(bc, offset) ← read_many (read_array 32 "unexpected EOF reading blockchain branch hash")
                    (Z.to_nat bc_count) data offset;
  '(bci, offset) ← read_array 4 "unexpected EOF reading blockchain_branch_index" data offset;
  '(hdr, offset) ← read_array 80 "unexpected EOF reading parent_header" data offset;
  Ok ({| coinbase_txn := txn; parent_hash := phash; coinbase_branch := cb;
         coinbase_branch_index := le_val cbi; blockchain_branch := bc;
         blockchain_branch_index := le_val bci; parent_header := hdr |}, offset).

(** ** The commitment *)

(** The scan [for i in 0..limit], as recursion on the number of positions left. *)
Fixpoint scan_commitment (n : nat) (coinbase : bytes) (i : Z) : res string (bytes * Z) :=
  match n with
  | O => Err "merged-mining commitment not found in coinbase"%string
  | S n =>
      m ← slice coinbase i (i + 4);
      if beqb m AUXPOW_COMMIT_MAGIC then
        let hash_start := i + 4 in
        let count_start := hash_start + 32 in
        if len coinbase <? count_start + 4 then scan_commitment n coinbase (i + 1) else
        committed_root ← slice coinbase hash_start (hash_start + 32);
        count_bytes ← slice coinbase count_start (count_start + 4);
        Ok (committed_root, le_val count_bytes)
      else scan_commitment n coinbase (i + 1)
  end.

Definition find_commitment (coinbase : bytes) : res string (bytes * Z) :=
  if len coinbase <? 40 then Err "coinbase too short to contain a commitment"%string else
  scan_commitment (Z.to_nat (len coinbase - 39)) coinbase 0.

Definition build_commitment (aux_hash : bytes) (chain_count nonce : Z) : bytes :=
  AUXPOW_COMMIT_MAGIC ++ rev aux_hash ++ le_bytes 4 chain_count ++ le_bytes 4 nonce.

(** ** Validation *)
Section validate.
Context `{C : Crypto}.

(** The comparison of the committed root, for one and for several chains. *)
Definition check_commitment (ap : AuxPoW) (aux_hash committed_root : bytes) (chain_count : Z)
    : res string unit :=
  if chain_count =? 1 then
    if beqb committed_root (rev aux_hash) then Ok tt
    else Err "coinbase commitment does not match aux block hash"%string
  else if chain_count <=? blockchain_branch_index ap
    then Err "blockchain branch index exceeds chain count"%string
  else
    let computed_root := rev (compute_merkle_root aux_hash (blockchain_branch ap)
                                (blockchain_branch_index ap)) in
    if beqb computed_root committed_root then Ok tt
    else Err "blockchain Merkle branch does not match commitment root"%string.

Definition validate_with_parent_hash (ap : AuxPoW) (aux_header_bytes : bytes) (tgt : Target)
    (parent_pow : bytes -> bool) : res string unit :=
  if negb (len aux_header_bytes =? 80) then Err "aux block header must be exactly 80 bytes"%string else
  if MAX_BRANCH_DEPTH <? len (coinbase_branch ap)
  then Err "coinbase branch depth exceeds maximum"%string else
  if MAX_BRANCH_DEPTH <? len (blockchain_branch ap)
  then Err "blockchain branch depth exceeds maximum"%string else
  let aux_hash := sha256d aux_header_bytes in
  '(committed_root, chain_count) ← find_commitment (coinbase_txn ap);
  if chain_count =? 0 then Err "chain count in commitment is zero"%string else
  _ ← check_commitment ap aux_hash committed_root chain_count;
  parent_merkle_root ← slice (parent_header ap) 36 68;
  let computed_tx_root := compute_merkle_root (sha256d (coinbase_txn ap)) (coinbase_branch ap)
                            (coinbase_branch_index ap) in
  if negb (beqb computed_tx_root parent_merkle_root)
  then Err "coinbase Merkle branch does not match parent block merkle root"%string else
  if negb (parent_pow (parent_header ap)) then Err "parent block hash does not meet target"%string else
  Ok tt.

Definition validate (ap : AuxPoW) (aux_header_bytes : bytes) (tgt : Target) : res string unit :=
  validate_with_parent_hash ap aux_header_bytes tgt
    (fun header => meets_target (rev (sha256d header)) tgt).
End validate.

(** ** Well-formed proofs *)
Definition wf_auxpow (ap : AuxPoW) : Prop :=
  wf_bytes (coinbase_txn ap) /\ arr 32 (parent_hash ap) /\
  Forall (arr 32) (coinbase_branch ap) /\ u32 (coinbase_branch_index ap) /\
  Forall (arr 32) (blockchain_branch ap) /\ u32 (blockchain_branch_index ap) /\
  arr 80 (parent_header ap).
Definition wire_auxpow (ap : AuxPoW) : Prop :=
  wf_auxpow ap /\ len (coinbase_txn ap) <= 1000000 /\
  len (coinbase_branch ap) <= MAX_BRANCH_DEPTH /\ len (blockchain_branch ap) <= MAX_BRANCH_DEPTH.

(** ** Codec lemmas *)
Lemma read_varint_at_inv data off n off' :
  @read_varint_at string data off = Ok (Some n, off') -> read_varint data off = Ok (n, off').
Proof.
  unfold read_varint_at, read_varint. destruct (len data <=? off); [done|].
  destruct (idx data off) as [first| |]; bind_simpl; [|done..]. cbv zeta.
  repeat (case_match; try done); bind_simpl; try congruence;
    repeat match goal with |- context [slice ?s ?a ?b] =>
      destruct (@slice string Z s a b); bind_simpl; try congruence; try done end;
    repeat match goal with H : context [@slice string Z ?s ?a ?b ≫= _] |- _ =>
      destruct (@slice string Z s a b); bind_simpl_in H; simplify_eq end; try done.
Qed.

Lemma reads_varint' n : u64 n -> reads read_varint (write_varint n) n.
Proof. intros Hn pre post Hl. apply read_varint_at_inv. by apply (reads_varint n Hn). Qed.

Lemma reads_array n e x : n = len x -> reads (read_array n e) x x.
Proof. intros -> pre post _. unfold read_array. if_lia. by parse_step. Qed.

Lemma concat_arr_many (e : string) hs n :
  Forall (arr 32) hs -> n = Datatypes.length hs -> reads (read_many (read_array 32 e) n) (concat hs) hs.
Proof.
  intros H Hn. rewrite <- (list_fmap_id hs) at 1.
  apply (reads_many (read_array 32 e) (fun x => x)); [|done].
  eapply Forall_impl; [exact H|]. intros x [Hx _]. by apply reads_array.
Qed.

Lemma reads_auxpow ap : wire_auxpow ap -> reads deserialize_auxpow (serialize_auxpow ap) ap.
Proof.
  destruct ap as [txn ph cb cbi bc bci hdr]. unfold wire_auxpow, wf_auxpow, MAX_BRANCH_DEPTH.
  unfold deserialize_auxpow, serialize_auxpow, MAX_BRANCH_DEPTH.
  cbn [coinbase_txn parent_hash coinbase_branch coinbase_branch_index blockchain_branch
       blockchain_branch_index parent_header].
  intros ((Ht & [Hp _] & Hcb & Hcbi & Hbc & Hbci & [Hh _]) & Hlt & Hlc & Hlb).
  pose proof (len_nonneg txn). pose proof (len_nonneg cb). pose proof (len_nonneg bc).
  eapply reads_bind; [apply reads_varint'; unfold u64; lia|]. apply reads_guard; [lia|].
  eapply reads_bind; [by apply reads_array|].
  eapply reads_bind; [by apply reads_array|].
  eapply reads_bind; [apply reads_varint'; unfold u64; lia|]. apply reads_guard; [lia|].
  eapply reads_bind; [apply concat_arr_many; [done | unfold len; lia]|].
  eapply reads_bind; [apply reads_array; by rewrite len_le_bytes4|].
  eapply reads_bind; [apply reads_varint'; unfold u64; lia|]. apply reads_guard; [lia|].
  eapply reads_bind; [apply concat_arr_many; [done | unfold len; lia]|].
  eapply reads_bind; [apply reads_array; by rewrite len_le_bytes4|].
  eapply (reads_ext _ _ (hdr ++ [])); [reflexivity | apply app_nil_r |].
  eapply reads_bind; [by apply reads_array|]. rewrite !le_val_u32 by done. apply reads_ret.
Qed.

(** [safe rd]: inside a buffer, [rd] does not panic and leaves the offset
    inside. *)
Definition safe {A} (rd : bytes -> Z -> res string (A * Z)) (P : A -> Prop) : Prop :=
  forall data off, wf_bytes data -> 0 <= off <= len data ->
  match rd data off with
  | Ok (a, off') => P a /\ off <= off' <= len data
  | Err _ => True
  | Panic => False
  end.

Lemma safe_bind {A B} (rd : bytes -> Z -> res string (A * Z))
    (k : A -> bytes -> Z -> res string (B * Z)) P Q :
  safe rd P -> (forall a, P a -> safe (k a) Q) ->
  safe (fun raw off => '(x, off) ← rd raw off; k x raw off) Q.
Proof.
  intros H1 H2 data off Hw Ho. specialize (H1 data off Hw Ho).
  destruct (rd data off) as [[a off']| |]; bind_simpl; [|done..].
  destruct H1 as [Ha Ho']. specialize (H2 a Ha data off' Hw ltac:(lia)).
  destruct (k a data off') as [[b off'']| |]; [|done..]. destruct H2. split; [done|lia].
Qed.

Lemma safe_guard {A} (b : bool) e (rd : bytes -> Z -> res string (A * Z)) P :
  (b = false -> safe rd P) -> safe (fun raw off => if b then Err e else rd raw off) P.
Proof. intros H data off Hw Ho. destruct b; [done|]. by apply H. Qed.

Lemma safe_ret {A} (a : A) (P : A -> Prop) : P a -> safe (fun _ off => Ok (a, off)) P.
Proof. intros H data off _ Ho. split; [done|lia]. Qed.

Lemma safe_array n e : 0 <= n -> safe (read_array n e) (arr n).
Proof.
  intros Hn data off Hw Ho. unfold read_array. destruct (_ <? _) eqn:?; [done|].
  destruct (@slice_in string Z data off (off + n)) as (x & Hx & Hl); [lia..|].
  rewrite Hx. bind_simpl. split; [|lia]. eapply slice_arr; [done|exact Hx|lia].
Qed.

Lemma safe_varint : safe read_varint u64.
Proof.
  intros data off Hw Ho. unfold read_varint. destruct (len data <=? off) eqn:?; [done|].
  destruct (@idx_in string Z data off) as [x Hx]; [lia|]. rewrite Hx. bind_simpl. cbv zeta.
  assert (forall n, 0 <= n <= 8 -> off + 1 + n <= len data ->
    exists b, @slice string Z data (off + 1) (off + 1 + n) = Ok b /\ u64 (le_val b)) as Hs.
  { intros n Hn Hle. destruct (@slice_in string Z data (off + 1) (off + 1 + n)) as (b & Hb & Hl);
      [lia..|]. exists b. split; [done|].
    pose proof (arr_le_val n b ltac:(eapply slice_arr; [done|exact Hb|lia])).
    pose proof (Z.pow_le_mono_r 2 (8 * n) 64 ltac:(lia) ltac:(lia)). unfold u64. lia. }
  destruct (x =? 0xff); [|destruct (x =? 0xfe); [|destruct (x =? 0xfd)]].
  4:{ split; [|lia]. apply (idx_u8 _ _ _ Hw) in Hx. unfold u8, u64 in *. lia. }
  all: destruct (_ <? _) eqn:?; [done|]; 
    match goal with |- context [slice _ _ (_ + 1 + ?n)] =>
      destruct (Hs n) as (b & -> & Hb); [lia..|] end; bind_simpl; split; [done|lia].
Qed.

Lemma safe_many {A} (rd : bytes -> Z -> res string (A * Z)) P n :
  safe rd P -> safe (read_many rd n) (fun xs => Forall P xs /\ Datatypes.length xs = n).
Proof.
  intros Hr. induction n as [|n IH]; [by apply safe_ret|]. cbn [read_many].
  eapply safe_bind; [exact Hr|]. intros a Ha. cbn.
  eapply safe_bind; [exact IH|]. intros xs [Hxs Hl]. apply safe_ret. cbn. auto.
Qed.

Lemma safe_auxpow : safe deserialize_auxpow wire_auxpow.
Proof.
  unfold deserialize_auxpow, wire_auxpow, wf_auxpow, MAX_BRANCH_DEPTH.
  eapply safe_bind; [apply safe_varint|]. intros n Hn. apply safe_guard; intros Hn'. unfold u64 in Hn.
  eapply safe_bind; [apply safe_array; lia|]. intros txn [Htl Htw].
  eapply safe_bind; [apply safe_array; lia|]. intros ph Hp.
  eapply safe_bind; [apply safe_varint|]. intros nc Hnc. apply safe_guard; intros Hnc'.
  unfold u64 in Hnc.
  eapply safe_bind; [apply safe_many, safe_array; lia|]. intros cb [Hcb Hcl].
  eapply safe_bind; [apply safe_array; lia|]. intros cbi Hcbi%arr_le_val.
  eapply safe_bind; [apply safe_varint|]. intros nb Hnb. apply safe_guard; intros Hnb'.
  unfold u64 in Hnb.
  eapply safe_bind; [apply safe_many, safe_array; lia|]. intros bc [Hbc Hbl].
  eapply safe_bind; [apply safe_array; lia|]. intros bci Hbci%arr_le_val.
  eapply safe_bind; [apply safe_array; lia|]. intros hdr Hh. apply safe_ret.
  split_and!; cbn [coinbase_txn parent_hash coinbase_branch coinbase_branch_index
    blockchain_branch blockchain_branch_index parent_header]; try done; unfold len in *; lia.
Qed.

Lemma rev_inj {A} (x y : list A) : rev x = rev y -> x = y.
Proof. intros H. rewrite <- (rev_involutive x), H. apply rev_involutive. Qed.

(** ** The commitment search *)
Definition magic_at (coinbase : bytes) (i : nat) : Prop :=
  take 4 (drop i coinbase) = AUXPOW_COMMIT_MAGIC.

Lemma slice_magic {E} s i :
  0 <= i -> i + 4 <= len s -> @slice E Z s i (i + 4) = Ok (take 4 (drop (Z.to_nat i) s)).
Proof.
  intros Hi Hl. unfold slice. replace ((0 <=? i) && (i <=? i + 4) && (i + 4 <=? len s)) with true by lia.
  do 2 f_equal. lia.
Qed.

(** The scan skips the positions before the first magic. *)
Lemma scan_skip n k coinbase i :
  0 <= i -> i + Z.of_nat (n + k) + 39 <= len coinbase ->
  (forall j, (j < k)%nat -> ~ magic_at coinbase (Z.to_nat i + j)) ->
  scan_commitment (k + n) coinbase i = scan_commitment n coinbase (i + Z.of_nat k).
Proof.
  revert i; induction k as [|k IH]; intros i Hi Hl Hm; [by rewrite Z.add_0_r|].
  cbn [scan_commitment Nat.add]. rewrite (slice_magic coinbase i) by lia. bind_simpl.
  assert (beqb (take 4 (drop (Z.to_nat i) coinbase)) AUXPOW_COMMIT_MAGIC = false) as ->.
  { apply bool_decide_eq_false. specialize (Hm 0%nat ltac:(lia)). by rewrite Nat.add_0_r in Hm. }
  rewrite IH; [f_equal; lia | lia | lia |].
  intros j Hj. specialize (Hm (S j) ltac:(lia)).
  by replace (Z.to_nat (i + 1) + j)%nat with (Z.to_nat i + S j)%nat by lia.
Qed.

Lemma find_build_commitment pre h n c post :
  arr 32 h -> u32 c ->
  let coinbase := pre ++ build_commitment h c n ++ post in
  (forall j, (j < Datatypes.length pre)%nat -> ~ magic_at coinbase j) ->
  find_commitment coinbase = Ok (rev h, c).
Proof.
  intros [Hh _] Hc coinbase Hm. unfold find_commitment.
  assert (len coinbase = len pre + 44 + len post) as Hl.
  { subst coinbase. unfold build_commitment, AUXPOW_COMMIT_MAGIC. len_lia. }
  pose proof (len_nonneg pre). pose proof (len_nonneg post).
  replace (len coinbase <? 40) with false by lia.
  replace (Z.to_nat (len coinbase - 39))
    with (Datatypes.length pre + S (Z.to_nat (4 + len post)))%nat by (unfold len in *; lia).
  rewrite scan_skip by (unfold len in *; lia || done). cbn [scan_commitment].
  assert (0 + Z.of_nat (Datatypes.length pre) = len pre) as -> by (unfold len; lia).
  subst coinbase. unfold build_commitment. rewrite <- !app_assoc.
  assert (len (rev h) = 32) by len_lia. assert (len AUXPOW_COMMIT_MAGIC = 4) by done.
  set (r := rev h) in *. set (mg := AUXPOW_COMMIT_MAGIC) in *. parse_step.
  assert (beqb mg mg = true) as -> by (by apply bool_decide_eq_true). cbv zeta. if_lia.
  do 2 parse_step. by rewrite le_val_u32.
Qed.

(** One commitment is met by one hash. *)
Lemma check_commitment_binds `{CL : CryptoLaws} ap x y root cnt u u' :
  Forall (arr 32) (blockchain_branch ap) ->
  check_commitment ap (sha256d x) root cnt = Ok u ->
  check_commitment ap (sha256d y) root cnt = Ok u' -> sha256d x = sha256d y \/ collision.
Proof.
  intros Hb Hx Hy. unfold check_commitment, beqb in *. destruct (cnt =? 1).
  - repeat case_bool_decide; try done. left. apply (rev_inj (A := Z)). congruence.
  - destruct (cnt <=? _); [done|]. repeat case_bool_decide; try done.
    assert (He : compute_merkle_root (sha256d x) (blockchain_branch ap) (blockchain_branch_index ap)
      = compute_merkle_root (sha256d y) (blockchain_branch ap) (blockchain_branch_index ap)).
    { apply (rev_inj (A := Z)). congruence. }
    destruct (merkle_binding_aux _ _ _ _ _ eq_refl (sha256d_arr x) (sha256d_arr y) Hb Hb He)
      as [[? _]|]; auto.
Qed.

(** ** Properties *)

(** The merged-mining extension round-trips: wherever it stands in a
    buffer, decoding the encoding of a proof within the protocol's limits gives
    the proof back and stops at its end; and on any buffer and offset decoding
    does not panic, and what it returns is within those limits. *)
Theorem auxpow_roundtrip ap pre post data off :
  wire_auxpow ap -> len (pre ++ serialize_auxpow ap ++ post) < 2 ^ 63 ->
  wf_bytes data -> 0 <= off <= len data ->
  deserialize_auxpow (pre ++ serialize_auxpow ap ++ post) (len pre)
    = Ok (ap, len pre + len (serialize_auxpow ap)) /\
  deserialize_auxpow data off <> Panic /\
  (forall ap' off', deserialize_auxpow data off = Ok (ap', off') ->
    wire_auxpow ap' /\ off <= off' <= len data).
Proof.
  intros Hap Hl Hw Ho. split; [by apply reads_auxpow|].
  pose proof (safe_auxpow data off Hw Ho) as Hs.
  destruct (deserialize_auxpow data off) as [[a o]| |]; [|by split|done].
  split; [done|]. by intros ap' off' [= <- <-].
Qed.

Definition sample_auxpow : AuxPoW :=
  {| coinbase_txn := [1; 2; 3] ++ build_commitment (sha256d (zeros 80)) 1 7;
     parent_hash := zeros 32; coinbase_branch := [replicate 32 5]; coinbase_branch_index := 0;
     blockchain_branch := []; blockchain_branch_index := 0;
     parent_header := zeros 36 ++
       compute_merkle_root (sha256d ([1; 2; 3] ++ build_commitment (sha256d (zeros 80)) 1 7))
         [replicate 32 5] 0 ++ zeros 12 |}.

Lemma sample_auxpow_wire : wire_auxpow sample_auxpow.
Proof.
  unfold wire_auxpow, wf_auxpow, MAX_BRANCH_DEPTH.
  cbn [coinbase_branch blockchain_branch sample_auxpow]. wf_compute.
Qed.

Lemma auxpow_roundtrip_witness :
  deserialize_auxpow ([9] ++ serialize_auxpow sample_auxpow ++ [8]) (len [9])
    = Ok (sample_auxpow, len [9] + len (serialize_auxpow sample_auxpow)).
Proof.
  refine (proj1 (auxpow_roundtrip sample_auxpow [9] [8] [] 0 sample_auxpow_wire _ _ _));
    [vm_compute; reflexivity | constructor | done].
Defined.

(** An honestly mined proof is accepted: if the parent's coinbase carries
    the commitment to the header as its first occurrence of the magic bytes,
    the branch leads from that coinbase to the parent's Merkle root and the
    parent's hash meets the target, validation succeeds. *)
Theorem auxpow_honest_accepted `{CL : CryptoLaws} ap aux tgt pre n post :
  len aux = 80 -> len (coinbase_branch ap) <= MAX_BRANCH_DEPTH ->
  len (blockchain_branch ap) <= MAX_BRANCH_DEPTH ->
  coinbase_txn ap = pre ++ build_commitment (sha256d aux) 1 n ++ post ->
  (forall j, (j < Datatypes.length pre)%nat -> ~ magic_at (coinbase_txn ap) j) ->
  slice (parent_header ap) 36 68
    = @Ok string _ (compute_merkle_root (sha256d (coinbase_txn ap)) (coinbase_branch ap)
            (coinbase_branch_index ap)) ->
  meets_target (rev (sha256d (parent_header ap))) tgt = true ->
  validate ap aux tgt = Ok tt.
Proof.
  intros Ha Hcb Hbb Ht Hm Hs Hp. unfold validate, validate_with_parent_hash.
  rewrite Ha, Z.eqb_refl. cbn [negb].
  replace (MAX_BRANCH_DEPTH <? len (coinbase_branch ap)) with false by lia.
  replace (MAX_BRANCH_DEPTH <? len (blockchain_branch ap)) with false by lia.
  rewrite Ht in Hm.
  pose proof (find_build_commitment pre (sha256d aux) n 1 post (sha256d_arr _)
                ltac:(split; lia) Hm) as Hf. cbv zeta in Hf. rewrite <- Ht in Hf.
  rewrite Hf. bind_simpl. cbn [Z.eqb Pos.eqb]. unfold check_commitment. cbn [Z.eqb Pos.eqb].
  unfold beqb. rewrite !bool_decide_true by done. bind_simpl. rewrite Hs. bind_simpl.
  rewrite bool_decide_true by done. cbn [negb]. by rewrite Hp.
Qed.

Lemma auxpow_honest_accepted_witness :
  validate sample_auxpow (zeros 80) {| bits := 0x21ffffff |} = Ok tt.
Proof.
  apply (auxpow_honest_accepted sample_auxpow (zeros 80) {| bits := 0x21ffffff |} [1; 2; 3] 7 []);
    try (vm_compute; reflexivity); try (vm_compute; congruence).
  intros j Hj Hm. destruct j as [|[|[|j]]]; vm_compute in Hm; try congruence. cbn in Hj. lia.
Defined.

(** A merged-mining proof vouches for one block: if the same proof (and so
    the same parent block) validates for two headers, at whatever targets, the
    headers are the same 80 bytes or the double hash has a collision. *)
Theorem auxpow_one_block `{CL : CryptoLaws} ap aux aux' tgt tgt' :
  wf_auxpow ap -> validate ap aux tgt = Ok tt -> validate ap aux' tgt' = Ok tt ->
  aux = aux' \/ collision.
Proof.
  intros (_ & _ & _ & _ & Hb & _ & _) H H'. unfold validate, validate_with_parent_hash in *.
  destruct (find_commitment (coinbase_txn ap)) as [[root cnt]| |].
  2,3: bind_simpl_in H; repeat case_match; discriminate.
  assert (sha256d aux = sha256d aux' \/ collision) as [Hd|]; [|destruct (decide (aux = aux'));
    [by left|right; by exists aux, aux']|by right].
  bind_simpl_in H. bind_simpl_in H'. cbv zeta in H, H'. invert_parser H. invert_parser H'.
   by eapply check_commitment_binds.
Qed.

Lemma auxpow_one_block_witness :
  (zeros 80 = zeros 80 \/ collision) /\ wire_auxpow sample_auxpow.
Proof.
  split; [|apply sample_auxpow_wire].
  apply (auxpow_one_block sample_auxpow (zeros 80) (zeros 80) {| bits := 0x21ffffff |}
           {| bits := 0x21ffffff |} (proj1 sample_auxpow_wire)); vm_compute; reflexivity.
Defined.
