(* ===== verification/Difficulty.v ===== *)
(** * Difficulty: the next target, the median time and the work of a block
    ([src/src/chain.rs])

    These methods of [ChainState] read the headers of the active chain, the
    genesis header and the difficulty parameters; they are modelled as
    functions of those.  [BigUint] and [u128] values are non-negative [Z]s.
    Shown here: the LWMA target stays within the per-block step and the
    proof-of-work limit and is never zero, it is a fixed point on a chain that
    keeps the schedule, the legacy retarget moves by at most a factor of four,
    the median time past is a median and never decreases along a chain that
    obeys the timestamp rule, and less target is more work. *)

From S2P Require Import Prelude Crypto Pow Activation Constants TxCodec Header.
From stdpp Require Import sorting.
#[local] Open Scope Z_scope.

Record LwmaParams := {
  activation_height : option Z;
  window : Z;
  min_solvetime : Z;
  solvetime_clamp_factor : Z;
  max_target_up_factor : Z;
  max_target_down_factor : Z;
  max_target : Target
}.

Definition LwmaParams_new (activation : option Z) (pow_limit : Target) : LwmaParams :=
  {| activation_height := activation;
     window := LWMA_WINDOW;
     min_solvetime := 1;
     solvetime_clamp_factor := LWMA_SOLVETIME_CLAMP_FACTOR;
     max_target_up_factor := LWMA_MAX_TARGET_UP_FACTOR;
     max_target_down_factor := LWMA_MAX_TARGET_DOWN_FACTOR;
     max_target := min_difficulty_target pow_limit LWMA_MIN_DIFFICULTY_FLOOR |}.

Definition LwmaParams_new_v2 (activation : option Z) (pow_limit : Target) : LwmaParams :=
  {| activation_height := activation;
     window := LWMA_V2_WINDOW;
     min_solvetime := 1;
     solvetime_clamp_factor := LWMA_V2_SOLVETIME_CLAMP_FACTOR;
     max_target_up_factor := LWMA_V2_MAX_TARGET_UP_FACTOR;
     max_target_down_factor := LWMA_V2_MAX_TARGET_DOWN_FACTOR;
     max_target := min_difficulty_target pow_limit LWMA_MIN_DIFFICULTY_FLOOR |}.

(** The easy target of the devnet and regtest override. *)
Definition EASY_TARGET : Target := {| bits := 0x207fffff |}.

(** [work_for_target] *)
Definition work_for_target (t : Target) : Z :=
  let t := to_target t in
  if t =? 0 then 0 else 2 ^ 256 / (t + 1).

(** [median_time_past] *)
Definition median_time_past (chain : list BlockHeader) : Z :=
  let count := Nat.min (length chain) 11 in
  if (count =? 0)%nat then 0 else
  let times := merge_sort Z.le (time <$> drop (length chain - count) chain) in
  nth (count / 2) times 0.

Section env.
Context (env : Env).

Definition max_solvetime_at (p : LwmaParams) (target_height : Z) : Z :=
  sat_mul64 (solvetime_clamp_factor p) (block_target_interval env target_height).

(** [legacy_target_for_height]; the [expect] on an empty chain is a panic. *)
Definition legacy_target_for_height (genesis : BlockHeader) (chain : list BlockHeader) (height : Z)
    : res string Target :=
  if (0 <? height) && env_is_fast_network env then Ok EASY_TARGET else
  if height =? 0 then Ok (target genesis) else
  match last chain with
  | None => Panic
  | Some last_block =>
      if (height <? DIFFICULTY_RETARGET_INTERVAL)
         || negb (height mod DIFFICULTY_RETARGET_INTERVAL =? 0)
      then Ok (target last_block) else
      let interval := DIFFICULTY_RETARGET_INTERVAL in
      if len chain <=? interval then Ok (target last_block) else
      prev_block ← idx chain (len chain - interval);
      let actual_time := time last_block - time prev_block in
      let expected_time := DIFFICULTY_RETARGET_INTERVAL * BLOCK_TARGET_INTERVAL_V1 in
      let expected_time := if expected_time <=? 0 then 1 else expected_time in
      let adj_num := if actual_time <=? 0 then expected_time / 4 else actual_time in
      let adj_den := expected_time in
      let adj_num :=
        if adj_num * 4 <? adj_den then adj_den / 4
        else if adj_den * 4 <? adj_num then adj_den * 4
        else adj_num in
      let new_target := to_target (target last_block) * adj_num / adj_den in
      Ok (from_target new_target)
  end.

(** One turn of the LWMA loop over [(offset, idx)]: the weighted solvetimes,
    the total weight and the sum of the targets. *)
Definition lwma_step (p : LwmaParams) (max_solvetime : Z)
    (acc : Z * Z * Z) (offset : Z) (previous current : BlockHeader) : Z * Z * Z :=
  let '(weighted_solvetimes, weight_total, target_sum) := acc in
  let raw_solvetime := Z.max (sat_sub (time current) (time previous)) (as_u32 (min_solvetime p)) in
  let solvetime := Z.min raw_solvetime max_solvetime in
  let weight := offset + 1 in
  (weighted_solvetimes + weight * solvetime, weight_total + weight,
   target_sum + to_target (target current)).

(** The loop over the last [sample_count] blocks, each with its predecessor:
    [previous] is the block before [samples]. *)
Fixpoint lwma_loop (p : LwmaParams) (max_solvetime : Z) (acc : Z * Z * Z) (offset : Z)
    (previous : BlockHeader) (samples : list BlockHeader) : Z * Z * Z :=
  match samples with
  | [] => acc
  | current :: samples =>
      lwma_loop p max_solvetime (lwma_step p max_solvetime acc offset previous current)
        (offset + 1) current samples
  end.

(** The steps behind the loop: average, rescale, clamp to the step factors and
    to the hard limit. *)
Definition lwma_next_target (p : LwmaParams) (pow_limit : Target) (previous_target : Z)
    (target_t weighted_solvetimes weight_total target_sum sample_count : Z) : Z :=
  let avg_target := target_sum / sample_count in
  let avg_target := if avg_target =? 0 then 1 else avg_target in
  let observed := Z.max weighted_solvetimes 1 in
  let expected := target_t * weight_total in
  let next_target := avg_target * observed / expected in
  let next_target := if next_target =? 0 then 1 else next_target in
  let min_step_target := previous_target / Z.max (max_target_down_factor p) 1 in
  let min_step_target := if min_step_target =? 0 then 1 else min_step_target in
  let max_step_target := previous_target * Z.max (max_target_up_factor p) 1 in
  let next_target := if next_target <? min_step_target then min_step_target else next_target in
  let next_target := if max_step_target <? next_target then max_step_target else next_target in
  let hard_max_target := to_target pow_limit in
  let lwma_max_target := to_target (max_target p) in
  let hard_max_target :=
    if lwma_max_target <? hard_max_target then lwma_max_target else hard_max_target in
  if hard_max_target <? next_target then hard_max_target else next_target.

Definition lwma_target_for_height_with (pow_limit : Target) (p : LwmaParams)
    (chain : list BlockHeader) (target_height : Z) : res string Target :=
  if (1 <? len chain) && env_is_fast_network env then Ok EASY_TARGET else
  match last chain with
  | None => Panic
  | Some last_block =>
      let sample_count := Z.min (window p) (sat_sub (len chain) 1) in
      if sample_count =? 0 then Ok (target last_block) else
      let target_t := block_target_interval env target_height in
      let max_solvetime := max_solvetime_at p target_height in
      let start := len chain - sample_count in
      previous ← idx chain (start - 1);
      let '(weighted_solvetimes, weight_total, target_sum) :=
        lwma_loop p max_solvetime (0, 0, 0) 0 previous (drop (Z.to_nat start) chain) in
      Ok (from_target
        (lwma_next_target p pow_limit (to_target (target last_block)) target_t
           weighted_solvetimes weight_total target_sum sample_count))
  end.

Definition lwma_v2_active_at (lwma_v2 : option LwmaParams) (height : Z) : bool :=
  active_at (p ← lwma_v2; activation_height p) height.

(** [target_for_height]: the legacy target is computed first in every case,
    so its [expect] can panic even when LWMA is active. *)
Definition target_for_height (genesis : BlockHeader) (pow_limit : Target)
    (lwma : LwmaParams) (lwma_v2 : option LwmaParams) (chain : list BlockHeader) (height : Z)
    : res string Target :=
  legacy_target ← legacy_target_for_height genesis chain height;
  if negb (active_at (activation_height lwma) height) then Ok legacy_target else
  if lwma_v2_active_at lwma_v2 height then
    match lwma_v2 with
    | Some v2 => lwma_target_for_height_with pow_limit v2 chain height
    | None => Panic
    end
  else lwma_target_for_height_with pow_limit lwma chain height.
End env.

(** ** LWMA *)
Lemma if_clamp_low a b : (if a <? b then b else a) = Z.max a b.
Proof. destruct (a <? b) eqn:?; lia. Qed.

Lemma if_clamp_high a b : (if b <? a then b else a) = Z.min a b.
Proof. destruct (b <? a) eqn:?; lia. Qed.

Section lwma.
Context (p : LwmaParams) (pow_limit : Target).

Definition lwma_cap : Z := Z.min (to_target pow_limit) (to_target (max_target p)).

Lemma lwma_next_bounds prev target_t ws wt ts n :
  0 < prev -> 0 < to_target pow_limit -> 0 < to_target (max_target p) ->
  0 <= ts -> 0 < n -> 0 < target_t -> 0 < wt ->
  let next := lwma_next_target p pow_limit prev target_t ws wt ts n in
  0 < next <= lwma_cap /\ next <= prev * Z.max (max_target_up_factor p) 1 /\
  Z.min lwma_cap (Z.max 1 (prev / Z.max (max_target_down_factor p) 1)) <= next.
Proof.
  intros Hp Hl Hm Hts Hn Ht Hwt. cbv zeta. unfold lwma_next_target, lwma_cap.
  set (up := Z.max (max_target_up_factor p) 1). set (down := Z.max (max_target_down_factor p) 1).
  assert (1 <= up) by lia. assert (1 <= down) by lia.
  assert (0 <= ts / n) by (apply Z.div_pos; lia).
  set (avg := if ts / n =? 0 then 1 else ts / n).
  assert (1 <= avg) by (subst avg; destruct (ts / n =? 0) eqn:?; lia).
  set (obs := Z.max ws 1). assert (1 <= obs) by lia.
  assert (0 <= avg * obs / (target_t * wt)) by (apply Z.div_pos; nia).
  set (raw := avg * obs / (target_t * wt)) in *.
  assert (0 <= prev / down <= prev).
  { split; [apply Z.div_pos; lia | apply Z.div_le_upper_bound; nia]. }
  assert (prev <= prev * up) by nia.
  set (step := prev * up) in *. set (low := prev / down) in *. clearbody step low raw obs avg.
  rewrite !if_clamp_low, !if_clamp_high. destruct (raw =? 0) eqn:?, (low =? 0) eqn:?; lia.
Qed.

Lemma lwma_loop_pos mx samples : forall acc off prev,
  let '(ws, wt, ts) := acc in 0 <= wt -> 0 <= ts -> 0 <= off ->
  let '(ws', wt', ts') := lwma_loop p mx acc off prev samples in
  wt <= wt' /\ ts <= ts' /\ (samples <> [] -> wt < wt').
Proof.
  induction samples as [|c samples IH]; intros [[ws wt] ts] off prev Hw Ht Ho; [done|].
  cbn [lwma_loop lwma_step].
  assert (0 <= to_target (target c)).
  { unfold to_target. case_match; [apply Z.shiftr_nonneg | apply Z.shiftl_nonneg];
      apply Z.land_nonneg; right; lia. }
  match goal with |- context [lwma_loop p mx ?a ?o ?b samples] =>
    specialize (IH a o b); destruct (lwma_loop p mx a o b samples) as [[ws' wt'] ts'] end.
  cbv beta iota in IH. destruct (IH ltac:(lia) ltac:(lia) ltac:(lia)) as (? & ? & ?). lia.
Qed.

(** A run of headers each exactly [T] seconds after the one before, all with
    the same bits. *)
Fixpoint on_schedule (T b : Z) (prev : BlockHeader) (samples : list BlockHeader) : Prop :=
  match samples with
  | [] => True
  | c :: samples => time c = time prev + T /\ hbits c = b /\ on_schedule T b c samples
  end.

Lemma on_schedule_drop T b prev samples s q :
  on_schedule T b prev samples -> (prev :: samples) !! s = Some q ->
  on_schedule T b q (drop (S s) (prev :: samples)).
Proof.
  revert prev s; induction samples as [|c samples IH]; intros prev [|s] H Hq; simplify_eq/=; try done.
  apply (IH c s); [by destruct H as (_ & _ & ?)|done].
Qed.

Lemma lwma_loop_steady T b mx samples : forall ws wt ts off prev,
  0 < T -> as_u32 (min_solvetime p) <= T <= mx -> on_schedule T b prev samples ->
  exists w, lwma_loop p mx (ws, wt, ts) off prev samples =
    (ws + T * w, wt + w, ts + len samples * to_target {| bits := b |}) /\
    (0 <= off -> 0 <= w /\ (samples <> [] -> 0 < w)).
Proof.
  induction samples as [|c samples IH]; intros ws wt ts off prev HT Hm Hs.
  { exists 0. split; [|done]. cbn [lwma_loop]. change (len (@nil BlockHeader)) with 0. (f_equal; [f_equal|]); lia. }
  destruct Hs as (Ht & Hb & Hs). cbn [lwma_loop lwma_step].
  replace (Z.min (Z.max (sat_sub (time c) (time prev)) (as_u32 (min_solvetime p))) mx) with T
    by (unfold sat_sub; lia).
  destruct (IH (ws + (off + 1) * T) (wt + (off + 1)) (ts + to_target (target c)) (off + 1) c HT Hm Hs)
    as (w & Hl & Hw). rewrite Hl.
  exists (off + 1 + w). rewrite len_cons. unfold target. rewrite Hb. split.
  - (f_equal; [f_equal|]); lia.
  - intros Ho. destruct (Hw ltac:(lia)). lia.
Qed.
End lwma.

Lemma block_target_interval_pos env h : 0 < block_target_interval env h <= 600.
Proof.
  unfold block_target_interval, BLOCK_TARGET_INTERVAL_V1, BLOCK_TARGET_INTERVAL_V2.
  repeat case_match; lia.
Qed.

Lemma to_target_nonneg t : 0 <= to_target t.
Proof.
  unfold to_target. case_match; [apply Z.shiftr_nonneg | apply Z.shiftl_nonneg];
    apply Z.land_nonneg; right; lia.
Qed.

(** The samples of the window: the last [n] blocks and the one before them. *)
Lemma lwma_samples (chain : list BlockHeader) n :
  1 <= n <= len chain - 1 ->
  exists prev, @idx string _ chain (len chain - n - 1) = Ok prev /\
    chain !! Z.to_nat (len chain - n - 1) = Some prev /\
    len (drop (Z.to_nat (len chain - n)) chain) = n.
Proof.
  intros Hn. destruct (@idx_in string _ chain (len chain - n - 1)) as [prev Hp]; [lia|].
  exists prev. split; [done|]. split; [by apply idx_Ok_inv in Hp as [_ ?]|].
  unfold len in *. rewrite length_drop. lia.
Qed.

(** ** Median time past *)
Definition count_lt (m : Z) (l : list Z) : nat := length (filter (fun x => x < m) l).

Lemma count_lt_perm m l l' : l ≡ₚ l' -> count_lt m l = count_lt m l'.
Proof. intros H. unfold count_lt. by rewrite H. Qed.

Lemma count_lt_app m l l' : count_lt m (l ++ l') = (count_lt m l + count_lt m l')%nat.
Proof. unfold count_lt. by rewrite filter_app, length_app. Qed.

Lemma count_lt_sublist m l k : (count_lt m (drop k l) <= count_lt m l)%nat.
Proof. rewrite <- (take_drop k l) at 2. rewrite count_lt_app. lia. Qed.

(** In a sorted list the entries before position [i] are at most the [i]-th,
    those after it at least. *)
Lemma sorted_lookup_le (l : list Z) i j x y :
  StronglySorted Z.le l -> l !! i = Some x -> l !! j = Some y -> (i <= j)%nat -> x <= y.
Proof.
  intros Hs. revert i j; induction Hs as [|a l Hs IH Ha]; intros i j Hi Hj Hij; [done|].
  destruct i as [|i], j as [|j]; simplify_eq/=; try lia.
  - rewrite Forall_forall in Ha. apply Ha. by eapply list_elem_of_lookup_2.
  - eapply IH; [done..|lia].
Qed.

Lemma sorted_count_lt (l : list Z) i m :
  StronglySorted Z.le l -> l !! i = Some m -> (count_lt m l <= i)%nat.
Proof.
  intros Hs Hi. rewrite <- (take_drop i l), count_lt_app.
  assert (count_lt m (drop i l) = 0)%nat as ->.
  { unfold count_lt. apply length_zero_iff_nil. apply elem_of_nil_inv. intros x [Hlt Hx]%list_elem_of_filter.
    apply list_elem_of_lookup in Hx as [j Hj]. rewrite lookup_drop in Hj.
    pose proof (sorted_lookup_le l i (i + j) m x Hs Hi Hj ltac:(lia)). lia. }
  unfold count_lt. pose proof (length_filter (fun x => x < m) (take i l)).
  rewrite length_take in *. lia.
Qed.

Lemma count_lt_all m l : Forall (fun x => x < m) l -> count_lt m l = length l.
Proof.
  induction 1 as [|x l Hx _ IH]; [done|]. unfold count_lt in *.
  rewrite filter_cons_True by done. cbn. by rewrite IH.
Qed.

Lemma sorted_count_gt (l : list Z) i x m :
  StronglySorted Z.le l -> l !! i = Some x -> x < m -> (S i <= count_lt m l)%nat.
Proof.
  intros Hs Hi Hx. rewrite <- (take_drop (S i) l), count_lt_app.
  rewrite (count_lt_all m (take (S i) l)).
  - rewrite length_take. apply lookup_lt_Some in Hi. lia.
  - apply Forall_forall. intros y Hy. apply list_elem_of_lookup in Hy as [j Hj].
    apply lookup_take_Some in Hj as [Hj Hji].
    pose proof (sorted_lookup_le l j i y x Hs Hj Hi ltac:(lia)). lia.
Qed.

(** The times the median is taken of. *)
Definition mtp_window (chain : list BlockHeader) : list Z :=
  time <$> drop (length chain - Nat.min (length chain) 11) chain.

Lemma length_mtp_window chain : length (mtp_window chain) = Nat.min (length chain) 11.
Proof. unfold mtp_window. rewrite length_fmap, length_drop. lia. Qed.

Lemma mtp_lookup chain :
  chain <> [] ->
  merge_sort Z.le (mtp_window chain) !! (Nat.min (length chain) 11 / 2)%nat
    = Some (median_time_past chain) /\
  StronglySorted Z.le (merge_sort Z.le (mtp_window chain)) /\
  merge_sort Z.le (mtp_window chain) ≡ₚ mtp_window chain.
Proof.
  intros Hn. pose proof (merge_sort_Permutation Z.le (mtp_window chain)) as Hp.
  split; [|split; [|done]].
  2:{ apply StronglySorted_merge_sort; [intros ???; lia | intros ??; lia]. }
  unfold median_time_past. fold (mtp_window chain).
  assert (0 < Nat.min (length chain) 11)%nat by (destruct chain; [done|cbn; lia]).
  destruct (_ =? 0)%nat eqn:E; [apply Nat.eqb_eq in E; lia|].
  destruct (nth_lookup_or_length (merge_sort Z.le (mtp_window chain))
              (Nat.min (length chain) 11 / 2) 0) as [H'|H']; [done|].
  rewrite Hp, length_mtp_window in H'.
  pose proof (Nat.div_lt (Nat.min (length chain) 11) 2 ltac:(lia) ltac:(lia)). lia.
Qed.

Lemma mtp_count chain :
  chain <> [] ->
  (count_lt (median_time_past chain) (mtp_window chain) <= length (mtp_window chain) / 2)%nat /\
  (length (mtp_window chain) / 2 < count_lt (median_time_past chain + 1) (mtp_window chain))%nat.
Proof.
  intros Hn. destruct (mtp_lookup chain Hn) as (Hl & Hs & Hp). rewrite length_mtp_window.
  rewrite <- !(count_lt_perm _ _ _ Hp). split; [by eapply sorted_count_lt|].
  eapply (sorted_count_gt _ _ _ _ Hs Hl). lia.
Qed.

(** The window after one more block: the old window, minus at most its oldest
    entry, and the new time. *)
Lemma mtp_window_snoc chain b :
  exists k, mtp_window (chain ++ [b]) = drop k (mtp_window chain) ++ [time b].
Proof.
  unfold mtp_window. rewrite length_app. cbn [length].
  destruct (decide (length chain < 11)%nat).
  - exists 0%nat. rewrite drop_0. replace (length chain + 1 - _)%nat with 0%nat by lia.
    replace (length chain - _)%nat with 0%nat by lia. by rewrite !drop_0, fmap_app.
  - exists 1%nat. replace (length chain + 1 - _)%nat with (length chain - 11 + 1)%nat by lia.
    rewrite drop_app_le by lia. rewrite fmap_app.
    replace (length chain - Nat.min (length chain) 11)%nat with (length chain - 11)%nat by lia.
    f_equal. by rewrite <- fmap_drop, drop_drop.
Qed.

(** ** Properties *)

(** C40: The LWMA retarget is bounded, on every network but devnet and regtest, which
    fix the target to the limit: on a chain of at least two blocks, with a window of
    at least one block and positive limits, it returns a target that is not zero, not above the
    proof-of-work limit or the difficulty floor, at most [max_target_up_factor]
    times the previous target, and (up to the rounding of the compact form, less
    than one part in 2^15) at least the previous target divided by
    [max_target_down_factor], unless the limit is tighter. *)
Theorem lwma_target_bounds env pow_limit p chain height lb :
  env_is_fast_network env = false -> 2 <= len chain -> 1 <= window p ->
  last chain = Some lb -> 0 < to_target (target lb) ->
  0 < to_target pow_limit < 2 ^ 256 -> 0 < to_target (max_target p) ->
  let prev := to_target (target lb) in
  exists t, lwma_target_for_height_with env pow_limit p chain height = Ok t /\
    0 < to_target t <= lwma_cap p pow_limit /\
    to_target t <= prev * Z.max (max_target_up_factor p) 1 /\
    let low := Z.min (lwma_cap p pow_limit)
                 (Z.max 1 (prev / Z.max (max_target_down_factor p) 1)) in
    2 ^ 15 * (low - to_target t) < to_target t.
Proof.
  intros He Hc Hw Hlb Hp Hl Hm prev. unfold lwma_target_for_height_with. rewrite He, andb_false_r, Hlb.
  set (n := Z.min (window p) (sat_sub (len chain) 1)). assert (1 <= n <= len chain - 1) as Hn.
  { subst n. unfold sat_sub. lia. }
  destruct (n =? 0) eqn:?; [lia|]. cbv zeta.
  destruct (lwma_samples chain n Hn) as (q & Hq & _ & Hlen). rewrite Hq. bind_simpl.
  pose proof (lwma_loop_pos p (max_solvetime_at env p height)
    (drop (Z.to_nat (len chain - n)) chain) (0, 0, 0) 0 q) as Hloop. cbv beta iota in Hloop.
  destruct (lwma_loop _ _ _ _ _ _) as [[ws wt] ts].
  destruct Hloop as (Hwt & Hts & Hpos); [lia..|].
  assert (0 < wt) by (apply Hpos; intros E; rewrite E, len_nil in Hlen; lia).
  pose proof (block_target_interval_pos env height).
  pose proof (lwma_next_bounds p pow_limit prev (block_target_interval env height) ws wt ts n
    ltac:(lia) ltac:(lia) ltac:(lia) ltac:(lia) ltac:(lia) ltac:(lia) ltac:(lia)) as Hb.
  cbv zeta in Hb. fold prev. set (next := lwma_next_target _ _ _ _ _ _ _ _) in *.
  assert (lwma_cap p pow_limit < 2 ^ 256) by (unfold lwma_cap; lia).
  eexists; split; [done|].
  pose proof (byte_len_256 next ltac:(lia)).
  pose proof (from_target_rounds next ltac:(lia) ltac:(lia)) as Hr. cbv zeta in Hr.
  destruct Hb as (? & ? & ?). split; [lia|]. split; lia.
Qed.

(** Headers on a fixed schedule, for concrete instances. *)
Definition paced_headers (T b : Z) (n : nat) : list BlockHeader :=
  (fun k => {| version := 1; prev_hash := zeros 32; merkle_root := zeros 32;
               time := 1000 + T * Z.of_nat k; hbits := b; nonce := 0 |}) <$> seq 0 n.

Lemma lwma_target_bounds_witness :
  let lim := {| bits := 0x1d00ffff |} in let p := LwmaParams_new_v2 None lim in
  let chain := paced_headers 1 0x1c0fffff 40 in
  exists t, lwma_target_for_height_with (fun _ => None) lim p chain 20000 = Ok t /\
    0 < to_target t <= lwma_cap p lim /\
    to_target t <= to_target {| bits := 0x1c0fffff |} * Z.max (max_target_up_factor p) 1 /\
    let low := Z.min (lwma_cap p lim) (Z.max 1 (to_target {| bits := 0x1c0fffff |}
                 / Z.max (max_target_down_factor p) 1)) in
    2 ^ 15 * (low - to_target t) < to_target t.
Proof.
  intros lim p chain.
  apply (lwma_target_bounds (fun _ => None) lim p chain 20000
           (List.last chain (List.hd sample_header chain)));
    try reflexivity; try (vm_compute; congruence); try (vm_compute; reflexivity).
  split; vm_compute; reflexivity.
Defined.

(** The LWMA retarget is a fixed point at the intended pace: on a chain
    whose blocks come exactly [block_target_interval] apart, all with the same
    canonical compact target within the limits, the next target is that target. *)
Theorem lwma_steady_state env pow_limit p g chain e m height :
  let b := e * 2 ^ 24 + m in let T := block_target_interval env height in
  env_is_fast_network env = false -> 3 <= e <= 254 -> 2 ^ 15 <= m < 2 ^ 23 ->
  to_target {| bits := b |} <= lwma_cap p pow_limit ->
  as_u32 (min_solvetime p) <= T <= max_solvetime_at env p height ->
  0 <= window p -> hbits g = b -> on_schedule T b g chain ->
  lwma_target_for_height_with env pow_limit p (g :: chain) height = Ok {| bits := b |}.
Proof.
  intros b T He Hexp Hman Hcap Hmin Hw Hg Hs.
  pose proof (block_target_interval_pos env height).
  assert (exists lb, last (g :: chain) = Some lb /\ hbits lb = b) as (lb & Hlb & Hbl).
  { clear -Hs Hg. revert g Hg Hs; induction chain as [|c chain IH]; intros g Hg Hs; [by exists g|].
    destruct Hs as (_ & Hb & Hs). destruct (IH c Hb Hs) as (lb & Hlb & ?). by exists lb. }
  unfold lwma_target_for_height_with. rewrite He, andb_false_r, Hlb.
  set (n := Z.min _ _). assert (target lb = {| bits := b |}) as Ht by (unfold target; by rewrite Hbl).
  rewrite Ht. destruct (n =? 0) eqn:?; [done|]. cbv zeta.
  pose proof (len_nonneg chain).
  assert (1 <= n <= len (g :: chain) - 1) as Hn.
  { subst n. rewrite len_cons in *. unfold sat_sub in *. lia. }
  destruct (lwma_samples (g :: chain) n Hn) as (q & Hq & Hql & Hlen). rewrite Hq. bind_simpl.
  pose proof (on_schedule_drop T b g chain _ q Hs Hql) as Hsd.
  replace (S (Z.to_nat (len (g :: chain) - n - 1))) with (Z.to_nat (len (g :: chain) - n)) in Hsd by lia.
  destruct (lwma_loop_steady p T b (max_solvetime_at env p height) _ 0 0 0 0 q ltac:(lia) Hmin Hsd)
    as (w & -> & Hw').
  rewrite Hlen, !Z.add_0_l. destruct (Hw' ltac:(lia)) as [_ Hwp].
  assert (0 < w) by (apply Hwp; intros E; rewrite E, len_nil in Hlen; lia).
  set (t := to_target {| bits := b |}) in *.
  assert (from_target t = {| bits := b |}) as Hft by (apply (compact_exact e m); lia).
  assert (0 < t) as Htp.
  { destruct (decide (t = 0)) as [E|]; [|pose proof (to_target_nonneg {| bits := b |}); lia].
    rewrite E in Hft. cbn in Hft. injection Hft as Hft. lia. }
  rewrite <- Hft. do 2 f_equal. unfold lwma_next_target.
  rewrite (Z.mul_comm n t), Z.div_mul by lia. destruct (t =? 0) eqn:?; [lia|].
  rewrite (Z.max_l (T * w) 1) by nia. rewrite Z.div_mul by nia. destruct (t =? 0) eqn:?; [lia|].
  assert (0 <= t / Z.max (max_target_down_factor p) 1 <= t).
  { split; [apply Z.div_pos; lia | apply Z.div_le_upper_bound; nia]. }
  assert (t <= t * Z.max (max_target_up_factor p) 1) by nia.
  rewrite !if_clamp_low, !if_clamp_high. unfold lwma_cap in Hcap. 
  match goal with |- context [if ?c then _ else _] => destruct c end; lia.
Qed.

Lemma lwma_steady_state_witness :
  let lim := {| bits := 0x1d00ffff |} in
  lwma_target_for_height_with (fun _ => None) lim (LwmaParams_new_v2 None lim)
    (paced_headers 120 (0x1c * 2 ^ 24 + 0x0fffff) 40) 30000
  = Ok {| bits := 0x1c * 2 ^ 24 + 0x0fffff |}.
Proof.
  intros lim.
  apply (lwma_steady_state (fun _ => None) lim (LwmaParams_new_v2 None lim)
           (List.hd sample_header (paced_headers 120 (0x1c * 2 ^ 24 + 0x0fffff) 40))
           (List.tl (paced_headers 120 (0x1c * 2 ^ 24 + 0x0fffff) 40)) 0x1c 0x0fffff 30000);
    try reflexivity; try lia; try (vm_compute; congruence).
  - split; vm_compute; congruence.
  - vm_compute. repeat split.
Defined.

(** The median time past is a median that never runs backwards: it is one
    of the last (at most) eleven block times, at most half of them are smaller
    and more than half are not larger; and after a block that obeys the
    timestamp rule (its time exceeds the median) it is at least what it was. *)
Theorem median_time_past_monotone chain b :
  chain <> [] ->
  let w := mtp_window chain in
  median_time_past chain ∈ w /\
  (count_lt (median_time_past chain) w <= length w / 2)%nat /\
  (length w / 2 < count_lt (median_time_past chain + 1) w)%nat /\
  (median_time_past chain < time b -> median_time_past chain <= median_time_past (chain ++ [b])).
Proof.
  intros Hn w. destruct (mtp_lookup chain Hn) as (Hl & Hs & Hp).
  destruct (mtp_count chain Hn) as [Hlo Hhi]. fold w in Hlo, Hhi.
  split; [|split; [done|split; [done|]]].
  { subst w. rewrite <- Hp. by eapply list_elem_of_lookup_2. }
  intros Hb. destruct (decide (median_time_past chain <= median_time_past (chain ++ [b])))
    as [|Hlt]; [done|exfalso].
  assert (chain ++ [b] <> []) as Hn' by (by destruct chain).
  destruct (mtp_lookup (chain ++ [b]) Hn') as (Hl' & Hs' & Hp').
  pose proof (sorted_count_gt _ _ _ (median_time_past chain) Hs' Hl' ltac:(lia)) as Hc.
  rewrite (count_lt_perm _ _ _ Hp') in Hc.
  destruct (mtp_window_snoc chain b) as [k Hk]. rewrite Hk, count_lt_app in Hc. fold w in Hc.
  pose proof (count_lt_sublist (median_time_past chain) w k).
  assert (count_lt (median_time_past chain) [time b] = 0)%nat as E.
  { unfold count_lt. rewrite filter_cons_False by lia. done. }
  subst w. rewrite length_mtp_window in Hlo. rewrite length_app in Hc. cbn [length] in Hc.
  pose proof (Nat.Div0.div_le_mono (Nat.min (length chain) 11) (Nat.min (length chain + 1) 11) 2
                ltac:(lia)). lia.
Qed.

Lemma median_time_past_monotone_witness :
  let chain := paced_headers 120 0x1c0fffff 15 in
  median_time_past chain ∈ mtp_window chain /\
  (count_lt (median_time_past chain) (mtp_window chain) <= length (mtp_window chain) / 2)%nat /\
  (length (mtp_window chain) / 2 < count_lt (median_time_past chain + 1) (mtp_window chain))%nat /\
  (median_time_past chain < time sample_header ->
   median_time_past chain <= median_time_past (chain ++ [sample_header])).
Proof. intros chain. apply (median_time_past_monotone chain sample_header). done. Defined.

Lemma legacy_ratio actual :
  let den := DIFFICULTY_RETARGET_INTERVAL * BLOCK_TARGET_INTERVAL_V1 in
  let num := if actual <=? 0 then den / 4 else actual in
  let num := if num * 4 <? den then den / 4 else if den * 4 <? num then den * 4 else num in
  den <= 4 * num /\ num <= 4 * den.
Proof.
  unfold DIFFICULTY_RETARGET_INTERVAL, BLOCK_TARGET_INTERVAL_V1. cbv zeta.
  change (2016 * 600) with 1209600. change (1209600 / 4) with 302400.
  destruct (actual <=? 0) eqn:?; repeat case_match; lia.
Qed.

(** The legacy retarget: between retarget heights (and on chains of at
    most 2016 blocks) the target is the last block's; at a retarget height it
    is at most four times the last target and, up to the rounding of the
    compact form, at least a quarter of it. *)
Theorem legacy_retarget_bounds env genesis chain lb height :
  env_is_fast_network env = false -> 0 < height -> last chain = Some lb ->
  4 <= to_target (target lb) < 2 ^ 256 ->
  exists t, legacy_target_for_height env genesis chain height = Ok t /\
    (height mod DIFFICULTY_RETARGET_INTERVAL <> 0 \/ len chain <= DIFFICULTY_RETARGET_INTERVAL ->
     t = target lb) /\
    0 < to_target t <= 4 * to_target (target lb) /\
    2 ^ 15 * (to_target (target lb) / 4 - to_target t) < to_target t.
Proof.
  intros He Hh Hlb Ht. unfold legacy_target_for_height. rewrite He, andb_false_r, Hlb.
  destruct (height =? 0) eqn:?; [lia|]. set (P := to_target (target lb)) in *.
  assert (0 < P / 4 <= P).
  { split; [apply Z.div_str_pos; lia | apply Z.div_le_upper_bound; lia]. }
  destruct ((height <? _) || _) eqn:Hint.
  { exists (target lb). fold P. split; [done|]. split; [done|]. lia. }
  destruct (len chain <=? _) eqn:Hlen.
  { exists (target lb). fold P. split; [done|]. split; [done|]. lia. }
  apply orb_false_iff in Hint as [_ Hmod%negb_false_iff%Z.eqb_eq].
  destruct (@idx_in string _ chain (len chain - DIFFICULTY_RETARGET_INTERVAL)) as [q Hq].
  { unfold DIFFICULTY_RETARGET_INTERVAL in *. lia. }
  rewrite Hq. bind_simpl. cbv zeta.
  change (DIFFICULTY_RETARGET_INTERVAL * BLOCK_TARGET_INTERVAL_V1 <=? 0) with false. cbv iota.
  pose proof (legacy_ratio (time lb - time q)) as Hr. cbv zeta in Hr.
  set (den := DIFFICULTY_RETARGET_INTERVAL * BLOCK_TARGET_INTERVAL_V1) in *.
  set (num := if _ <? den then _ else _) in *. clearbody num.
  assert (den = 1209600) as Hden by done. clearbody den.
  assert (P / 4 <= P * num / den <= 4 * P) as Hv.
  { split; [|apply Z.div_le_upper_bound; nia].
    apply Z.div_le_lower_bound; [lia|]. pose proof (Z.mul_div_le P 4 ltac:(lia)). nia. }
  eexists; split; [done|].
  assert (byte_len (P * num / den) <= 254).
  { pose proof (byte_len_spec (P * num / den) ltac:(lia)) as (? & Hlo & _).
    destruct (decide (byte_len (P * num / den) <= 254)); [done|].
    pose proof (Z.pow_le_mono_r 2 300 (8 * (byte_len (P * num / den) - 1)) ltac:(lia) ltac:(lia)).
    pose proof (Z.pow_lt_mono_r 2 258 300 ltac:(lia) ltac:(lia) ltac:(lia)).
    change (2 ^ 258) with (4 * 2 ^ 256) in *. lia. }
  pose proof (from_target_rounds (P * num / den) ltac:(lia) ltac:(lia)) as Hf. cbv zeta in Hf.
  split; [|lia]. intros [?|?]; [done|lia].
Qed.

Lemma legacy_retarget_bounds_witness :
  let chain := paced_headers 300 0x1c0fffff 2020 in let lb := List.last chain sample_header in
  exists t, legacy_target_for_height (fun _ => None) sample_header chain 4032 = Ok t /\
    (4032 mod DIFFICULTY_RETARGET_INTERVAL <> 0 \/ len chain <= DIFFICULTY_RETARGET_INTERVAL ->
     t = target lb) /\
    0 < to_target t <= 4 * to_target (target lb) /\
    2 ^ 15 * (to_target (target lb) / 4 - to_target t) < to_target t.
Proof.
  intros chain lb.
  apply (legacy_retarget_bounds (fun _ => None) sample_header chain lb 4032);
    try (vm_compute; reflexivity).
  split; vm_compute; congruence.
Defined.

(** Work orders targets: a block of a valid (256-bit) target carries at
    least one unit of work, and a tighter target never carries less work. *)
Theorem work_antitone t t' :
  0 < to_target t' <= to_target t -> to_target t < 2 ^ 256 ->
  1 <= work_for_target t <= work_for_target t'.
Proof.
  intros Ht Hm. unfold work_for_target.
  destruct (to_target t =? 0) eqn:?; [lia|]. destruct (to_target t' =? 0) eqn:?; [lia|].
  split; [apply Z.div_le_lower_bound; lia|]. apply Z.div_le_compat_l; lia.
Qed.

Lemma work_antitone_witness :
  1 <= work_for_target {| bits := 0x1d00ffff |} <= work_for_target {| bits := 0x1c0fffff |}.
Proof.
  apply (work_antitone {| bits := 0x1d00ffff |} {| bits := 0x1c0fffff |});
    [split; vm_compute; congruence | vm_compute; reflexivity].
Defined.
