(* ===== verification/BtcTx.v ===== *)
(** * BtcTx: the Bitcoin transaction reader ([src/src/btc_tx_parse.rs])

    Outputs and txid of a foreign transaction, as the swap-payment proofs need
    them.  Offsets are [usize]: [skip_bytes] adds with an overflow check, the
    output reader adds without one.  Shown here: the txid of a transaction does
    not depend on its witness data, both wire forms give the same outputs, and
    the output reader panics on a script length that wraps the offset. *)

From S2P Require Import Prelude Crypto TxCodec AuxPow.

Definition BTC_TX_MAX_LEN : Z := 4000000.

Inductive BtcOutputScript :=
| BtcP2pkh (pkh : bytes)
| BtcP2wpkh (pkh : bytes)
| OpReturn (data : bytes)
| Other.

Record BtcTxOutputView := { btc_value : Z; btc_script : BtcOutputScript; btc_vout : Z }.

(** [read_varint] of this file is the one of [auxpow.rs] but for the text of
    its errors. *)
Definition btc_read_varint (data : bytes) (offset : Z) : res string (Z * Z) :=
  if len data <=? offset then Err "btc tx: EOF reading varint"%string else
  first ← idx data offset;
  let offset := offset + 1 in
  if first =? 0xff then
    if len data <? offset + 8 then Err "btc tx: EOF reading 8-byte varint"%string else
    b ← slice data offset (offset + 8);
    Ok (le_val b, offset + 8)
  else if first =? 0xfe then
    if len data <? offset + 4 then Err "btc tx: EOF reading 4-byte varint"%string else
    b ← slice data offset (offset + 4);
    Ok (le_val b, offset + 4)
  else if first =? 0xfd then
    if len data <? offset + 2 then Err "btc tx: EOF reading 2-byte varint"%string else
    b ← slice data offset (offset + 2);
    Ok (le_val b, offset + 2)
  else Ok (first, offset).

Definition skip_bytes (data : bytes) (offset n : Z) : res string Z :=
  match checked_add64 offset n with
  | None => Err "btc tx: offset overflow"%string
  | Some new => if len data <? new then Err "btc tx: truncated"%string else Ok new
  end.

(** The tests of [parse_output_script]: a conjunction that reads the script
    only behind its length test. *)
Definition is_p2pkh_script {E} (script : bytes) : res E bool :=
  if len script =? 25 then
    b0 ← idx script 0; b1 ← idx script 1; b2 ← idx script 2;
    b23 ← idx script 23; b24 ← idx script 24;
    Ok ((b0 =? 0x76) && (b1 =? 0xa9) && (b2 =? 0x14) && (b23 =? 0x88) && (b24 =? 0xac))
  else Ok false.

Definition is_p2wpkh_script {E} (script : bytes) : res E bool :=
  if len script =? 22 then
    b0 ← idx script 0; b1 ← idx script 1;
    Ok ((b0 =? 0x00) && (b1 =? 0x14))
  else Ok false.

Definition parse_output_script {E} (script : bytes) : res E BtcOutputScript :=
  p2pkh ← is_p2pkh_script script;
  if (p2pkh : bool) then pkh ← slice script 3 23; Ok (BtcP2pkh pkh) else
  p2wpkh ← is_p2wpkh_script script;
  if (p2wpkh : bool) then pkh ← slice script 2 22; Ok (BtcP2wpkh pkh) else
  if 2 <=? len script then
    b0 ← idx script 0;
    if b0 =? 0x6a then
      push ← idx script 1;
      if (1 <=? push) && (push <=? 75) && (push + 2 =? len script)
      then data ← slice script 2 (len script); Ok (OpReturn data)
      else Ok Other
    else Ok Other
  else Ok Other.

(** The input loop of both readers: [36 bytes, script, sequence]. *)
Fixpoint skip_inputs (n : nat) (raw : bytes) (off : Z) : res string Z :=
  match n with
  | O => Ok off
  | S n =>
      off ← skip_bytes raw off 36;
      '(script_len, off) ← btc_read_varint raw off;
      off ← skip_bytes raw off script_len;
      off ← skip_bytes raw off 4;
      skip_inputs n raw off
  end.

(** One output of [parse_btc_tx_outputs]; [off + script_len] wraps. *)
Definition read_btc_output (raw : bytes) (vout off : Z) : res string (BtcTxOutputView * Z) :=
  if len raw <? off + 8 then Err "btc tx: truncated output value"%string else
  vb ← slice raw off (off + 8);
  let off := off + 8 in
  '(script_len, off) ← btc_read_varint raw off;
  if len raw <? wadd64 off script_len then Err "btc tx: truncated output script"%string else
  s ← slice raw off (wadd64 off script_len);
  script ← parse_output_script s;
  Ok ({| btc_value := le_val vb; btc_script := script; btc_vout := as_u32 vout |},
      wadd64 off script_len).

Fixpoint read_btc_outputs (n : nat) (raw : bytes) (vout off : Z)
    : res string (list BtcTxOutputView * Z) :=
  match n with
  | O => Ok ([], off)
  | S n =>
      '(o, off) ← read_btc_output raw vout off;
      '(os, off) ← read_btc_outputs n raw (vout + 1) off;
      Ok (o :: os, off)
  end.

(** The output loop of [btc_txid]: lengths only. *)
Fixpoint skip_outputs (n : nat) (raw : bytes) (off : Z) : res string Z :=
  match n with
  | O => Ok off
  | S n =>
      off ← skip_bytes raw off 8;
      '(script_len, off) ← btc_read_varint raw off;
      off ← skip_bytes raw off script_len;
      skip_outputs n raw off
  end.

Fixpoint skip_stack (n : nat) (raw : bytes) (off : Z) : res string Z :=
  match n with
  | O => Ok off
  | S n =>
      '(item_len, off) ← btc_read_varint raw off;
      off ← skip_bytes raw off item_len;
      skip_stack n raw off
  end.

(** The witness loop of both readers. *)
Fixpoint skip_witnesses (n : nat) (raw : bytes) (off : Z) : res string Z :=
  match n with
  | O => Ok off
  | S n =>
      '(stack_count, off) ← btc_read_varint raw off;
      if 100000 <? stack_count then Err "btc tx: absurd witness stack size"%string else
      off ← skip_stack (Z.to_nat stack_count) raw off;
      skip_witnesses n raw off
  end.

Definition parse_btc_tx_outputs (raw : bytes) : res string (list BtcTxOutputView) :=
  if len raw =? 0 then Err "btc tx: empty"%string else
  if BTC_TX_MAX_LEN <? len raw then Err "btc tx: too large"%string else
  off ← skip_bytes raw 0 4;
  if len raw <=? off then Err "btc tx: truncated after version"%string else
  marker ← idx raw off;
  let segwit := marker =? 0x00 in
  off ← (if segwit then
           if len raw <? off + 2 then Err "btc tx: truncated segwit marker"%string else
           flag ← idx raw (off + 1);
           if flag =? 0x00 then Err "btc tx: segwit flag cannot be zero"%string else
           Ok (off + 2)
         else Ok off);
  '(in_count, off) ← btc_read_varint raw off;
  if in_count =? 0 then Err "btc tx: zero inputs"%string else
  if 100000 <? in_count then Err "btc tx: absurd input count"%string else
  off ← skip_inputs (Z.to_nat in_count) raw off;
  '(out_count, off) ← btc_read_varint raw off;
  if out_count =? 0 then Err "btc tx: zero outputs"%string else
  if 100000 <? out_count then Err "btc tx: absurd output count"%string else
  '(outputs, off) ← read_btc_outputs (Z.to_nat out_count) raw 0 off;
  off ← (if segwit then skip_witnesses (Z.to_nat in_count) raw off else Ok off);
  if negb (off + 4 =? len raw)
  then Err "btc tx: trailing bytes or truncated locktime"%string else
  Ok outputs.

(** The stripped serialization whose double hash is the txid. *)
Definition btc_stripped (raw : bytes) : res string bytes :=
  if (len raw <? 10) || (BTC_TX_MAX_LEN <? len raw)
  then Err "btc tx: length out of range"%string else
  b4 ← idx raw 4;
  if negb (b4 =? 0x00) then Ok raw else
  if len raw <? 6 then Err "btc tx: truncated segwit marker"%string else
  b5 ← idx raw 5;
  if b5 =? 0x00 then Err "btc tx: segwit flag cannot be zero"%string else
  let inputs_start := 6 in
  '(in_count, off) ← btc_read_varint raw inputs_start;
  if in_count =? 0 then Err "btc tx: zero inputs"%string else
  if 100000 <? in_count then Err "btc tx: absurd input count"%string else
  off ← skip_inputs (Z.to_nat in_count) raw off;
  '(out_count, off) ← btc_read_varint raw off;
  if out_count =? 0 then Err "btc tx: zero outputs"%string else
  if 100000 <? out_count then Err "btc tx: absurd output count"%string else
  outputs_end ← skip_outputs (Z.to_nat out_count) raw off;
  off ← skip_witnesses (Z.to_nat in_count) raw outputs_end;
  if len raw <? off + 4 then Err "btc tx: truncated locktime"%string else
  v ← slice raw 0 4;
  body ← slice raw inputs_start outputs_end;
  lock ← slice raw off (off + 4);
  Ok (v ++ body ++ lock).

Definition btc_txid `{Crypto} (raw : bytes) : res string bytes := sha256d <$> btc_stripped raw.

(** ** Reference encoding

    A foreign transaction as its fields, and its two wire forms: without
    (BIP 144 calls it the original form) and with witness data. *)
Record BtcIn := { in_outpoint : bytes; in_script : bytes; in_sequence : bytes }.
Record BtcOut := { out_value : Z; out_script : bytes }.
Record BtcTransaction := {
  btx_version : bytes; btx_ins : list BtcIn; btx_outs : list BtcOut; btx_locktime : bytes }.

Definition enc_in (i : BtcIn) : bytes :=
  in_outpoint i ++ write_varint (len (in_script i)) ++ in_script i ++ in_sequence i.
Definition enc_out (o : BtcOut) : bytes :=
  le_bytes 8 (out_value o) ++ write_varint (len (out_script o)) ++ out_script o.
Definition enc_item (x : bytes) : bytes := write_varint (len x) ++ x.
Definition enc_stack (st : list bytes) : bytes :=
  write_varint (len st) ++ concat (enc_item <$> st).
Definition enc_body (t : BtcTransaction) : bytes :=
  write_varint (len (btx_ins t)) ++ concat (enc_in <$> btx_ins t) ++
  write_varint (len (btx_outs t)) ++ concat (enc_out <$> btx_outs t).
Definition enc_legacy (t : BtcTransaction) : bytes :=
  btx_version t ++ enc_body t ++ btx_locktime t.
Definition enc_segwit (t : BtcTransaction) (flag : Z) (wits : list (list bytes)) : bytes :=
  btx_version t ++ [0; flag] ++ enc_body t ++ concat (enc_stack <$> wits) ++ btx_locktime t.

Definition wf_btx (t : BtcTransaction) : Prop :=
  len (btx_version t) = 4 /\ len (btx_locktime t) = 4 /\
  1 <= len (btx_ins t) <= 100000 /\ 1 <= len (btx_outs t) <= 100000 /\
  Forall (fun i => len (in_outpoint i) = 36 /\ len (in_sequence i) = 4) (btx_ins t) /\
  Forall (fun o => u64 (out_value o)) (btx_outs t).

(** ** Skipping an encoding *)
Definition skips (rd : bytes -> Z -> res string Z) (enc : bytes) : Prop :=
  forall pre post, len (pre ++ enc ++ post) < 2 ^ 63 ->
  rd (pre ++ enc ++ post) (len pre) = Ok (len pre + len enc).

Lemma btc_read_varint_here n : u64 n -> reads btc_read_varint (write_varint n) n.
Proof.
  intros Hn pre post Hl. pose proof (reads_varint' n Hn pre post Hl) as H.
  unfold read_varint in H. unfold btc_read_varint.
  destruct (_ <=? _); [done|]. destruct (idx _ _) as [x| |]; bind_simpl_in H; [|done..].
  bind_simpl. cbv zeta in *. by repeat (case_match; try done).
Qed.

Lemma skips_bind rd rd' enc enc' :
  skips rd enc -> skips rd' enc' ->
  skips (fun raw off => off ← rd raw off; rd' raw off) (enc ++ enc').
Proof.
  intros H H' pre post Hl. rewrite <- app_assoc in *. rewrite H by done. bind_simpl.
  specialize (H' (pre ++ enc) post). rewrite <- app_assoc, (len_app pre enc) in H'.
  rewrite H' by done. rewrite len_app. f_equal. lia.
Qed.

Lemma skips_varint n (k : Z -> bytes -> Z -> res string Z) enc :
  u64 n -> skips (k n) enc ->
  skips (fun raw off => '(n, off) ← btc_read_varint raw off; k n raw off) (write_varint n ++ enc).
Proof.
  intros Hn H pre post Hl. rewrite <- app_assoc in *. rewrite btc_read_varint_here by done.
  bind_simpl. specialize (H (pre ++ write_varint n) post).
  rewrite <- app_assoc, (len_app pre (write_varint n)) in H. rewrite H by done. rewrite len_app. f_equal. lia.
Qed.

Lemma skips_ret : skips (fun _ off => Ok off) [].
Proof. intros pre post _. rewrite len_nil. f_equal. lia. Qed.

Lemma skips_bytes n x : n = len x -> skips (fun raw off => skip_bytes raw off n) x.
Proof.
  intros -> pre post Hl. unfold skip_bytes, checked_add64.
  assert (len pre + len x + len post < 2 ^ 63) by (rewrite !len_app in Hl; lia).
  pose proof (len_nonneg post). pose proof (len_nonneg pre). pose proof (len_nonneg x).
  replace (len pre + len x <=? U64_MAX) with true by (unfold U64_MAX; lia). by if_lia.
Qed.

(** A byte string that stands in a buffer of valid length is itself short. *)
Lemma skips_short rd enc : (len enc < 2 ^ 63 -> skips rd enc) -> skips rd enc.
Proof.
  intros H pre post Hl. apply H; [|done]. rewrite !len_app in Hl.
  pose proof (len_nonneg pre). pose proof (len_nonneg post). lia.
Qed.

Lemma skip_inputs_ok ins :
  Forall (fun i => len (in_outpoint i) = 36 /\ len (in_sequence i) = 4) ins ->
  skips (skip_inputs (length ins)) (concat (enc_in <$> ins)).
Proof.
  induction 1 as [|i ins [Ho Hq] _ IH]; cbn [length skip_inputs fmap list_fmap concat];
    [apply skips_ret|].
  apply skips_short. intros Hl. unfold enc_in at 1 in Hl. unfold enc_in at 1.
  rewrite <- !app_assoc. rewrite !len_app in Hl.
  pose proof (len_nonneg (concat (enc_in <$> ins))). pose proof (len_nonneg (in_script i)).
  pose proof (len_write_varint (len (in_script i))).
  apply skips_bind; [by apply skips_bytes|].
    apply skips_varint; [unfold u64; lia|]. cbv beta.
  apply skips_bind; [by apply skips_bytes|].
  apply (skips_bind (fun raw off => skip_bytes raw off 4)); [by apply skips_bytes|]. apply IH.
Qed.

Lemma skip_outputs_ok outs : skips (skip_outputs (length outs)) (concat (enc_out <$> outs)).
Proof.
  induction outs as [|o outs IH]; cbn [length skip_outputs fmap list_fmap concat]; [apply skips_ret|].
  apply skips_short. intros Hl. unfold enc_out at 1 in Hl. unfold enc_out at 1.
  rewrite <- !app_assoc. rewrite !len_app in Hl.
  pose proof (len_nonneg (concat (enc_out <$> outs))). pose proof (len_nonneg (out_script o)).
  pose proof (len_write_varint (len (out_script o))).
  rewrite len_le_bytes8 in Hl.
  apply (skips_bind (fun raw off => skip_bytes raw off 8)); [by apply skips_bytes|].
  apply skips_varint; [unfold u64; lia|]. cbv beta.
  apply skips_bind; [by apply skips_bytes|]. apply IH.
Qed.

Lemma skip_stack_ok st : skips (skip_stack (length st)) (concat (enc_item <$> st)).
Proof.
  induction st as [|x st IH]; cbn [length skip_stack fmap list_fmap concat]; [apply skips_ret|].
  apply skips_short. intros Hl. unfold enc_item at 1 in Hl. unfold enc_item at 1.
  rewrite <- !app_assoc. rewrite !len_app in Hl.
  pose proof (len_nonneg (concat (enc_item <$> st))). pose proof (len_nonneg x).
  pose proof (len_write_varint (len x)).
  apply skips_varint; [unfold u64; lia|]. cbv beta.
  apply skips_bind; [by apply skips_bytes|]. apply IH.
Qed.

Lemma skip_witnesses_ok wits :
  Forall (fun st => len st <= 100000) wits ->
  skips (skip_witnesses (length wits)) (concat (enc_stack <$> wits)).
Proof.
  induction 1 as [|st wits Hst _ IH]; cbn [length skip_witnesses fmap list_fmap concat];
    [apply skips_ret|].
  unfold enc_stack at 1. rewrite <- !app_assoc. pose proof (len_nonneg st).
  apply skips_varint; [unfold u64; lia|]. cbv beta.
  replace (100000 <? len st) with false by lia. cbv iota.
  apply skips_bind; [|apply IH]. unfold len. rewrite Nat2Z.id. apply skip_stack_ok.
Qed.

(** ** Classifying a script *)
Lemma parse_output_script_total {E} script : exists x, @parse_output_script E script = Ok x.
Proof.
  unfold parse_output_script, is_p2pkh_script, is_p2wpkh_script.
  repeat first
    [ by eexists
    | match goal with
      | |- exists x, (if ?b then _ else _) = Ok x => destruct b eqn:?
      | |- context [@idx ?E ?A ?s ?i] =>
          let H := fresh in destruct (@idx_in E A s i) as (? & H); [lia | rewrite H; clear H]
      | |- context [@slice ?E ?A ?s ?a ?b] =>
          let H := fresh in destruct (@slice_in E A s a b) as (? & H & ?); [lia | lia | rewrite H; clear H]
      | |- context [mbind _ (if ?b then _ else _)] => destruct b eqn:?
      end; bind_simpl ].
Qed.

(** The class of a script, and the views of a list of outputs from index [k]. *)
Definition classify (script : bytes) : BtcOutputScript :=
  match @parse_output_script string script with Ok x => x | _ => Other end.

Fixpoint out_views (k : Z) (outs : list BtcOut) : list BtcTxOutputView :=
  match outs with
  | [] => []
  | o :: outs =>
      {| btc_value := out_value o; btc_script := classify (out_script o); btc_vout := as_u32 k |}
      :: out_views (k + 1) outs
  end.

Lemma reads_btc_output k o :
  u64 (out_value o) -> len (out_script o) < 2 ^ 63 ->
  reads (fun raw off => read_btc_output raw k off) (enc_out o)
    {| btc_value := out_value o; btc_script := classify (out_script o); btc_vout := as_u32 k |}.
Proof.
  intros Hv Hs pre post Hl. unfold read_btc_output, enc_out. rewrite <- !app_assoc.
  pose proof (len_nonneg (out_script o)). pose proof (len_nonneg pre).
  pose proof (len_nonneg post). pose proof (len_write_varint (len (out_script o))).
  unfold enc_out in Hl. rewrite !len_app, len_le_bytes8 in Hl. if_lia. parse_step.
  pose proof (btc_read_varint_here (len (out_script o)) ltac:(unfold u64; lia)
    (pre ++ le_bytes 8 (out_value o)) (out_script o ++ post)) as Hr.
  rewrite <- !app_assoc, !len_app, len_le_bytes8 in Hr. rewrite Hr by lia. clear Hr.
  bind_simpl. unfold wadd64. rewrite Z.mod_small by lia. if_lia. parse_step.
  destruct (@parse_output_script_total string (out_script o)) as [x Hx].
  unfold classify. rewrite Hx. bind_simpl. rewrite le_val_u64 by done. do 2 f_equal.
  rewrite !len_app, len_le_bytes8. lia.
Qed.

Lemma reads_btc_outputs outs : forall k,
  Forall (fun o => u64 (out_value o)) outs ->
  reads (fun raw off => read_btc_outputs (length outs) raw k off) (concat (enc_out <$> outs))
    (out_views k outs).
Proof.
  induction outs as [|o outs IH]; intros k Hf; cbn [length read_btc_outputs fmap list_fmap concat];
    [apply reads_ret|].
  apply Forall_cons in Hf as [Ho Hf]. intros pre post Hl.
  assert (len (out_script o) < 2 ^ 63) as Hs.
  { unfold enc_out in Hl at 1. rewrite !len_app in Hl.
    pose proof (len_nonneg pre). pose proof (len_nonneg post).
    pose proof (len_nonneg (concat (enc_out <$> outs))).
    pose proof (len_nonneg (le_bytes 8 (out_value o))).
    pose proof (len_nonneg (write_varint (len (out_script o)))). lia. }
  revert pre post Hl. change (reads (fun raw off =>
    '(o, off) ← read_btc_output raw k off;
    '(os, off) ← read_btc_outputs (length outs) raw (k + 1) off;
    Ok (o :: os, off)) (enc_out o ++ concat (enc_out <$> outs)) (out_views k (o :: outs))).
  eapply reads_bind; [by apply reads_btc_output|]. cbv beta.
  eapply (reads_ext _ _ (concat (enc_out <$> outs) ++ [])); [reflexivity | apply app_nil_r |].
  eapply (reads_bind (fun raw off => read_btc_outputs (length outs) raw (k + 1) off));
    [by apply IH|]. apply reads_ret.
Qed.

Lemma write_varint_head n : 1 <= n -> u64 n -> exists b rest, write_varint n = b :: rest /\ b <> 0.
Proof.
  intros Hn Hu. unfold write_varint. destruct (n <? 0xfd) eqn:?.
  - exists (as_u8 n), []. split; [done|]. rewrite as_u8_small by lia. lia.
  - destruct (n <=? 0xffff); [|destruct (n <=? 0xffffffff)]; by eexists _, _.
Qed.

(** The parts of the legacy form behind the version. *)
Section parts.
Context (t : BtcTransaction) (Hwf : wf_btx t).

Lemma legacy_marker rest :
  exists b, b <> 0 /\ @idx string _ (btx_version t ++ enc_body t ++ rest) 4 = Ok b.
Proof.
  destruct Hwf as (Hv & _ & Hi & _). unfold enc_body.
  destruct (write_varint_head (len (btx_ins t))) as (b & tl & -> & Hb);
    [lia | unfold u64; lia |].
  exists b. split; [done|]. cbn [app]. rewrite idx_skip by lia. by rewrite Hv.
Qed.

Lemma body_reads {A} pre (rest : bytes) (k : Z -> Z -> Z -> res string A) :
  len (pre ++ enc_body t ++ rest) < 2 ^ 63 ->
  ('(in_count, off) ← btc_read_varint (pre ++ enc_body t ++ rest) (len pre);
   if in_count =? 0 then Err "btc tx: zero inputs"%string else
   if 100000 <? in_count then Err "btc tx: absurd input count"%string else
   off ← skip_inputs (Z.to_nat in_count) (pre ++ enc_body t ++ rest) off;
   '(out_count, off) ← btc_read_varint (pre ++ enc_body t ++ rest) off;
   if out_count =? 0 then Err "btc tx: zero outputs"%string else
   if 100000 <? out_count then Err "btc tx: absurd output count"%string else
   k in_count out_count off) =
  k (len (btx_ins t)) (len (btx_outs t))
    (len pre + len (enc_body t) - len (concat (enc_out <$> btx_outs t))).
Proof.
  destruct Hwf as (_ & _ & Hi & Ho & Hfi & _). unfold enc_body. rewrite <- !app_assoc. intros Hl.
  rewrite btc_read_varint_here by (unfold u64; lia || done). bind_simpl.
  replace (len (btx_ins t) =? 0) with false by lia.
  replace (100000 <? len (btx_ins t)) with false by lia.
  set (v := write_varint (len (btx_ins t))) in *. set (w := write_varint (len (btx_outs t))) in *.
  set (es := concat (enc_in <$> btx_ins t)) in *. set (os := concat (enc_out <$> btx_outs t)) in *.
  pose proof (skip_inputs_ok (btx_ins t) Hfi (pre ++ v) (w ++ os ++ rest)) as H1. fold es in H1.
  rewrite <- !app_assoc, !len_app in H1. rewrite !len_app in Hl.
  assert (Z.to_nat (len (btx_ins t)) = length (btx_ins t)) as -> by (unfold len; lia).
  rewrite H1 by lia. bind_simpl.
  pose proof (btc_read_varint_here (len (btx_outs t)) ltac:(unfold u64; lia)
                (pre ++ v ++ es) (os ++ rest)) as H2. fold w in H2.
  rewrite <- !app_assoc, !len_app in H2. rewrite <- Z.add_assoc.
  rewrite H2 by lia. bind_simpl.
  replace (len (btx_outs t) =? 0) with false by lia.
  replace (100000 <? len (btx_outs t)) with false by lia.
  f_equal. rewrite !len_app. lia.
Qed.
End parts.

Lemma to_nat_len {A} (l : list A) : Z.to_nat (len l) = length l.
Proof. unfold len. lia. Qed.

(** The stripped form of either wire form is the legacy form. *)
Lemma stripped_legacy t :
  wf_btx t -> 10 <= len (enc_legacy t) <= BTC_TX_MAX_LEN ->
  btc_stripped (enc_legacy t) = Ok (enc_legacy t).
Proof.
  intros Hw Hl. unfold btc_stripped. replace (_ || _) with false by lia.
  unfold enc_legacy. destruct (legacy_marker t Hw (btx_locktime t)) as (b & Hb & ->). bind_simpl.
  by replace (b =? 0) with false by lia.
Qed.

Lemma len_body_split t :
  len (enc_body t) = len (enc_body t) - len (concat (enc_out <$> btx_outs t))
                     + len (concat (enc_out <$> btx_outs t)) /\
  2 <= len (enc_body t) - len (concat (enc_out <$> btx_outs t)).
Proof.
  split; [lia|]. unfold enc_body. rewrite !len_app.
  pose proof (len_write_varint (len (btx_ins t))). pose proof (len_write_varint (len (btx_outs t))).
  pose proof (len_nonneg (concat (enc_in <$> btx_ins t))). lia.
Qed.

(** Where the readers are in a buffer [pre ++ body ++ witness ++ locktime]. *)
Section form.
Context (t : BtcTransaction) (Hw : wf_btx t) (pre ws : bytes).
Let raw : bytes := pre ++ enc_body t ++ ws ++ btx_locktime t.
Hypothesis Hl : len raw < 2 ^ 63.

Lemma len_form : len raw = len pre + len (enc_body t) + len ws + 4.
Proof. destruct Hw as (_ & Hk & _). subst raw. rewrite !len_app. lia. Qed.

Lemma form_at_outputs :
  exists q, raw = q ++ concat (enc_out <$> btx_outs t) ++ ws ++ btx_locktime t /\
    len q = len pre + len (enc_body t) - len (concat (enc_out <$> btx_outs t)).
Proof.
  exists (pre ++ write_varint (len (btx_ins t)) ++ concat (enc_in <$> btx_ins t) ++
          write_varint (len (btx_outs t))).
  subst raw. unfold enc_body. rewrite <- !app_assoc. split; [done|]. rewrite !len_app. lia.
Qed.

Lemma form_skip_outputs :
  skip_outputs (length (btx_outs t)) raw
    (len pre + len (enc_body t) - len (concat (enc_out <$> btx_outs t)))
  = Ok (len pre + len (enc_body t)).
Proof.
  destruct form_at_outputs as (q & Hq & Hlq). rewrite Hq in Hl |- *. rewrite <- Hlq.
  rewrite skip_outputs_ok by done. f_equal. lia.
Qed.

Lemma form_read_outputs :
  Forall (fun o => u64 (out_value o)) (btx_outs t) ->
  read_btc_outputs (length (btx_outs t)) raw 0
    (len pre + len (enc_body t) - len (concat (enc_out <$> btx_outs t)))
  = Ok (out_views 0 (btx_outs t), len pre + len (enc_body t)).
Proof.
  intros Hv. destruct form_at_outputs as (q & Hq & Hlq). rewrite Hq in Hl |- *. rewrite <- Hlq.
  rewrite (reads_btc_outputs (btx_outs t) 0 Hv) by done. do 2 f_equal. lia.
Qed.

Lemma form_skip_witnesses wits :
  ws = concat (enc_stack <$> wits) -> length wits = length (btx_ins t) ->
  Forall (fun st => len st <= 100000) wits ->
  skip_witnesses (length (btx_ins t)) raw (len pre + len (enc_body t))
  = Ok (len pre + len (enc_body t) + len ws).
Proof.
  intros Hws Hn Hst. subst raw. rewrite <- Hn, app_assoc in *. rewrite <- len_app.
  rewrite Hws in *. rewrite skip_witnesses_ok by done. done.
Qed.
End form.

Lemma enc_segwit_form t flag wits :
  enc_segwit t flag wits =
  (btx_version t ++ [0; flag]) ++ enc_body t ++ concat (enc_stack <$> wits) ++ btx_locktime t.
Proof. unfold enc_segwit. by rewrite <- !app_assoc. Qed.

Lemma segwit_markers t flag rest :
  wf_btx t ->
  len (btx_version t ++ [0; flag]) = 6 /\
  @idx string _ ((btx_version t ++ [0; flag]) ++ rest) 4 = Ok 0 /\
  @idx string _ ((btx_version t ++ [0; flag]) ++ rest) 5 = Ok flag.
Proof.
  intros (Hv & _). rewrite len_app. change (len [0; flag]) with 2. split; [lia|].
  rewrite <- app_assoc. rewrite !(idx_skip (btx_version t)) by lia. by rewrite Hv.
Qed.

Lemma stripped_segwit t flag wits :
  wf_btx t -> flag <> 0 -> length wits = length (btx_ins t) ->
  Forall (fun st => len st <= 100000) wits -> len (enc_segwit t flag wits) <= BTC_TX_MAX_LEN ->
  btc_stripped (enc_segwit t flag wits) = Ok (enc_legacy t).
Proof.
  intros Hw Hf Hn Hst Hl. rewrite enc_segwit_form in *. unfold BTC_TX_MAX_LEN in Hl.
  set (pre := btx_version t ++ [0; flag]) in *.
  remember (concat (enc_stack <$> wits)) as ws eqn:Hws.
  destruct (segwit_markers t flag (enc_body t ++ ws ++ btx_locktime t) Hw) as (H6 & H4 & H5).
  fold pre in H6, H4, H5. pose proof (len_form t Hw pre ws) as Hlen. cbv zeta in Hlen.
  pose proof (len_body_split t). pose proof (len_nonneg ws).
  pose proof (len_nonneg (concat (enc_out <$> btx_outs t))).
  unfold btc_stripped, BTC_TX_MAX_LEN. replace (_ || _) with false by lia.
  rewrite H4. bind_simpl. cbn [Z.eqb negb]. replace (len _ <? 6) with false by lia.
  rewrite H5. bind_simpl. replace (flag =? 0) with false by lia. cbv zeta.
  rewrite <- H6 at 1. rewrite (body_reads t Hw) by lia. rewrite !to_nat_len.
  rewrite form_skip_outputs by (done || lia). bind_simpl.
  rewrite (form_skip_witnesses t pre ws ltac:(lia) wits) by done. bind_simpl.
  replace (len _ <? _) with false by lia. destruct Hw as (Hv & Hk & _).
  assert (slice (pre ++ enc_body t ++ ws ++ btx_locktime t) 0 4 = @Ok string _ (btx_version t)) as ->
    by (subst pre; rewrite <- app_assoc; apply slice_here; lia).
  bind_simpl. clearbody pre. do 2 parse_step. done.
Qed.

Lemma skip_first4 raw : 4 <= len raw -> skip_bytes raw 0 4 = Ok 4.
Proof.
  intros H. unfold skip_bytes, checked_add64. change (0 + 4 <=? U64_MAX) with true. cbv iota.
  change (0 + 4) with 4. by replace (len raw <? 4) with false by lia.
Qed.

Lemma outputs_legacy t :
  wf_btx t -> 10 <= len (enc_legacy t) -> len (enc_legacy t) <= BTC_TX_MAX_LEN ->
  parse_btc_tx_outputs (enc_legacy t) = Ok (out_views 0 (btx_outs t)).
Proof.
  intros Hw Hlo Hl. unfold BTC_TX_MAX_LEN in Hl. pose proof Hw as (Hv & Hk & _ & _ & _ & Hov).
  destruct (legacy_marker t Hw (btx_locktime t)) as (b & Hb & H4). unfold enc_legacy in *.
  pose proof (len_form t Hw (btx_version t) []) as Hlen. cbv zeta in Hlen. cbn [app] in Hlen.
  rewrite len_nil in Hlen.
  pose proof (form_read_outputs t (btx_version t) []) as Ho. cbv zeta in Ho. cbn [app] in Ho.
  unfold parse_btc_tx_outputs, BTC_TX_MAX_LEN. rewrite skip_first4 by lia.
  replace (len _ =? 0) with false by lia. replace (4000000 <? len _) with false by lia.
  bind_simpl. replace (len _ <=? 4) with false by lia.
  rewrite H4. bind_simpl. cbv zeta. replace (b =? 0) with false by lia. bind_simpl.
  rewrite <- Hv at 1. rewrite (body_reads t Hw) by lia.
  rewrite !to_nat_len. rewrite Ho by (done || lia). bind_simpl.
  by replace (negb _) with false by lia.
Qed.

Lemma outputs_segwit t flag wits :
  wf_btx t -> flag <> 0 -> length wits = length (btx_ins t) ->
  Forall (fun st => len st <= 100000) wits -> len (enc_segwit t flag wits) <= BTC_TX_MAX_LEN ->
  parse_btc_tx_outputs (enc_segwit t flag wits) = Ok (out_views 0 (btx_outs t)).
Proof.
  intros Hw Hf Hn Hst Hl. rewrite enc_segwit_form in *. unfold BTC_TX_MAX_LEN in Hl.
  pose proof Hw as (_ & _ & _ & _ & _ & Hov).
  set (pre := btx_version t ++ [0; flag]) in *.
  remember (concat (enc_stack <$> wits)) as ws eqn:Hws.
  destruct (segwit_markers t flag (enc_body t ++ ws ++ btx_locktime t) Hw) as (H6 & H4 & H5).
  fold pre in H6, H4, H5. pose proof (len_form t Hw pre ws) as Hlen. cbv zeta in Hlen.
  pose proof (form_read_outputs t pre ws) as Ho. cbv zeta in Ho.
  pose proof (form_skip_witnesses t pre ws ltac:(cbv zeta; lia) wits Hws Hn Hst) as Hsw.
  cbv zeta in Hsw. pose proof (len_nonneg ws). pose proof (len_nonneg (enc_body t)).
  unfold parse_btc_tx_outputs, BTC_TX_MAX_LEN. rewrite skip_first4 by lia.
  replace (len _ =? 0) with false by lia. replace (4000000 <? len _) with false by lia.
  bind_simpl. replace (len _ <=? 4) with false by lia.
  rewrite H4. bind_simpl. cbv zeta. change (0 =? 0) with true. cbv iota.
  change (4 + 1) with 5. change (4 + 2) with 6.
  replace (len _ <? 6) with false by lia. rewrite H5. bind_simpl.
  replace (flag =? 0) with false by lia. bind_simpl.
  rewrite <- H6 at 1. rewrite (body_reads t Hw) by lia.
  rewrite !to_nat_len. rewrite Ho by (done || lia). bind_simpl.
  rewrite Hsw. bind_simpl. by replace (negb _) with false by lia.
Qed.

(** ** Properties *)

(** Both wire forms of a foreign transaction are read alike: for every
    transaction within the size limits, with or without witness data, [btc_txid]
    is the double hash of the form without witness data (so a third party cannot
    change the txid by editing witnesses) and [parse_btc_tx_outputs] returns
    its outputs, in order, numbered from zero, with their classified scripts. *)
Theorem btc_tx_forms_agree `{Crypto} t flag wits :
  wf_btx t -> flag <> 0 -> length wits = length (btx_ins t) ->
  Forall (fun st => len st <= 100000) wits ->
  10 <= len (enc_legacy t) -> len (enc_segwit t flag wits) <= BTC_TX_MAX_LEN ->
  btc_txid (enc_legacy t) = Ok (sha256d (enc_legacy t)) /\
  btc_txid (enc_segwit t flag wits) = Ok (sha256d (enc_legacy t)) /\
  parse_btc_tx_outputs (enc_legacy t) = Ok (out_views 0 (btx_outs t)) /\
  parse_btc_tx_outputs (enc_segwit t flag wits) = Ok (out_views 0 (btx_outs t)).
Proof.
  intros Hw Hf Hn Hst Hlo Hhi.
  assert (len (enc_legacy t) <= BTC_TX_MAX_LEN) as Hle.
  { unfold enc_segwit, enc_legacy in *. rewrite !len_app in *.
    pose proof (len_nonneg (concat (enc_stack <$> wits))).
    change (len [0; flag]) with 2 in Hhi. lia. }
  unfold btc_txid. rewrite stripped_legacy, stripped_segwit by done.
  split; [done|]. split; [done|]. split; [by apply outputs_legacy | by apply outputs_segwit].
Qed.

Definition sample_btx : BtcTransaction :=
  {| btx_version := [1; 0; 0; 0];
     btx_ins := [{| in_outpoint := replicate 36 7; in_script := [1; 2]; in_sequence := [255; 255; 255; 255] |}];
     btx_outs := [ {| out_value := 5000; out_script := [0x76; 0xa9; 0x14] ++ replicate 20 9 ++ [0x88; 0xac] |};
                   {| out_value := 0; out_script := [0x6a; 2; 4; 5] |} ];
     btx_locktime := [0; 0; 0; 0] |}.

Lemma btc_tx_forms_agree_witness :
  btc_txid (enc_legacy sample_btx) = Ok (sha256d (enc_legacy sample_btx)) /\
  btc_txid (enc_segwit sample_btx 1 [[[3; 4]]]) = Ok (sha256d (enc_legacy sample_btx)) /\
  parse_btc_tx_outputs (enc_legacy sample_btx) = Ok (out_views 0 (btx_outs sample_btx)) /\
  parse_btc_tx_outputs (enc_segwit sample_btx 1 [[[3; 4]]]) = Ok (out_views 0 (btx_outs sample_btx)).
Proof.
  apply (btc_tx_forms_agree sample_btx 1 [[[3; 4]]]); try done.
  - unfold wf_btx. cbn [btx_version btx_locktime btx_ins btx_outs sample_btx]. wf_compute; done.
  - wf_compute.
Defined.

(** ** The txid reader does not panic

    [moves rd]: inside a buffer, [rd] does not panic and leaves the offset
    inside. *)
Definition moves (rd : bytes -> Z -> res string Z) : Prop :=
  forall raw off, wf_bytes raw -> 0 <= off <= len raw ->
  match rd raw off with
  | Ok off' => off <= off' <= len raw
  | Err _ => True
  | Panic => False
  end.

Lemma safe_btc_varint : safe btc_read_varint u64.
Proof.
  intros data off Hw Ho. pose proof (safe_varint data off Hw Ho) as H.
  unfold btc_read_varint, read_varint in *. destruct (len data <=? off); [done|].
  destruct (idx data off) as [x| |]; [|done..]. bind_simpl. bind_simpl_in H. cbv zeta in *.
  destruct (x =? 0xff); [|destruct (x =? 0xfe); [|destruct (x =? 0xfd); [|done]]].
  all: destruct (_ <? _); [done|];
    match goal with |- context [slice ?d ?a ?b] => by destruct (@slice string Z d a b) end.
Qed.

Lemma moves_skip n : 0 <= n -> moves (fun raw off => skip_bytes raw off n).
Proof.
  intros Hn raw off _ Ho. unfold skip_bytes, checked_add64.
  destruct (_ <=? U64_MAX); [|done]. destruct (_ <? _) eqn:?; [done|lia].
Qed.

Lemma moves_bind rd rd' : moves rd -> moves rd' -> moves (fun raw off => off ← rd raw off; rd' raw off).
Proof.
  intros H1 H2 raw off Hw Ho. specialize (H1 raw off Hw Ho).
  destruct (rd raw off) as [o| |]; bind_simpl; [|done..].
  specialize (H2 raw o Hw ltac:(lia)). destruct (rd' raw o); [lia|done..].
Qed.

Lemma moves_varint (k : Z -> bytes -> Z -> res string Z) :
  (forall n, u64 n -> moves (k n)) ->
  moves (fun raw off => '(n, off) ← btc_read_varint raw off; k n raw off).
Proof.
  intros H2 raw off Hw Ho. pose proof (safe_btc_varint raw off Hw Ho) as H1.
  destruct (btc_read_varint raw off) as [[n o]| |]; bind_simpl; [|done..]. destruct H1 as [Hn Ho'].
  specialize (H2 n Hn raw o Hw ltac:(lia)). destruct (k n raw o); [lia|done..].
Qed.

Lemma moves_ret : moves (fun _ off => Ok off).
Proof. intros raw off _ Ho. lia. Qed.

Lemma moves_guard (b : bool) e rd : moves rd -> moves (fun raw off => if b then Err e else rd raw off).
Proof. intros H raw off Hw Ho. destruct b; [done | by apply H]. Qed.

Lemma moves_skip_inputs n : moves (skip_inputs n).
Proof.
  induction n as [|n IH]; [apply moves_ret|]. cbn [skip_inputs].
  eapply moves_bind; [apply moves_skip; lia|]. eapply moves_varint. intros l Hl. unfold u64 in Hl.
  eapply moves_bind; [apply moves_skip; lia|]. eapply moves_bind; [apply moves_skip; lia | exact IH].
Qed.

Lemma moves_skip_outputs n : moves (skip_outputs n).
Proof.
  induction n as [|n IH]; [apply moves_ret|]. cbn [skip_outputs].
  eapply moves_bind; [apply moves_skip; lia|]. eapply moves_varint. intros l Hl. unfold u64 in Hl.
  eapply moves_bind; [apply moves_skip; lia | exact IH].
Qed.

Lemma moves_skip_stack n : moves (skip_stack n).
Proof.
  induction n as [|n IH]; [apply moves_ret|]. cbn [skip_stack].
  eapply moves_varint. intros l Hl. unfold u64 in Hl.
  eapply moves_bind; [apply moves_skip; lia | exact IH].
Qed.

Lemma moves_skip_witnesses n : moves (skip_witnesses n).
Proof.
  induction n as [|n IH]; [apply moves_ret|]. cbn [skip_witnesses].
  eapply moves_varint. intros l Hl. apply moves_guard. eapply moves_bind; [apply moves_skip_stack | exact IH].
Qed.

Lemma btc_txid_no_panic `{Crypto} raw : wf_bytes raw -> btc_txid raw <> Panic.
Proof.
  intros Hw. unfold btc_txid. enough (btc_stripped raw <> Panic) by (by destruct (btc_stripped raw)).
  unfold btc_stripped. destruct (_ || _) eqn:Hlen; [done|].
  destruct (@idx_in string Z raw 4) as [b4 ->]; [lia|]. bind_simpl. destruct (negb _); [done|].
  destruct (_ <? 6) eqn:?; [done|].
  destruct (@idx_in string Z raw 5) as [b5 ->]; [lia|]. bind_simpl. destruct (_ =? 0); [done|].
  cbv zeta. pose proof (safe_btc_varint raw 6 Hw ltac:(lia)) as Hv.
  destruct (btc_read_varint raw 6) as [[n o]| |]; bind_simpl; [|done..]. destruct Hv as [Hn Ho].
  destruct (n =? 0); [done|]. destruct (100000 <? n); [done|].
  pose proof (moves_skip_inputs (Z.to_nat n) raw o Hw ltac:(lia)) as Hi.
  destruct (skip_inputs _ raw o) as [o1| |]; bind_simpl; [|done..].
  pose proof (safe_btc_varint raw o1 Hw ltac:(lia)) as Hv.
  destruct (btc_read_varint raw o1) as [[m o2]| |]; bind_simpl; [|done..]. destruct Hv as [Hm Ho2].
  destruct (m =? 0); [done|]. destruct (100000 <? m); [done|].
  pose proof (moves_skip_outputs (Z.to_nat m) raw o2 Hw ltac:(lia)) as Hos.
  destruct (skip_outputs _ raw o2) as [o3| |]; bind_simpl; [|done..].
  pose proof (moves_skip_witnesses (Z.to_nat n) raw o3 Hw ltac:(lia)) as Hws.
  destruct (skip_witnesses _ raw o3) as [o4| |]; bind_simpl; [|done..].
  no_panic.
Qed.

Definition btc_panic_tx : bytes :=
  [1; 0; 0; 0; 1] ++ replicate 36 7 ++ [0] ++ [255; 255; 255; 255] ++ [1] ++ zeros 8 ++
  [0xff; 0xff; 0xff; 0xff; 0xff; 0xff; 0xff; 0xff; 0xff] ++ [0; 0; 0; 0].

(** A length field can stop the node: the reader adds a 64-bit
    output-script length to its offset without a check, so on this 68-byte
    transaction, whose txid [btc_txid] computes without complaint, the sum
    wraps around and slicing the script panics. *)
Theorem parse_btc_tx_outputs_panics :
  parse_btc_tx_outputs btc_panic_tx = Panic /\
  (forall C : Crypto, btc_txid btc_panic_tx = Ok (sha256d btc_panic_tx)).
Proof. split; [vm_compute; reflexivity | intros C; reflexivity]. Qed.
