(* ===== verification/Spv.v ===== *)
(** * Spv: the Bitcoin and Litecoin header relays
    ([src/src/btc_spv.rs], [src/src/ltc_spv.rs])

    Each relay keeps the foreign headers it was given in consensus state: a map
    from hash to header, height and cumulative work, a map from hash to height,
    and a tip.  [BtcHeader] and [LtcHeader] have the same fields, so one record
    serves both, as do the entry, anchor and undo records.  Scrypt is an
    operation of [Crypto].  A batch that fails changes nothing; the errors are the
    constructors of [RelayError] (the source has their text).

    Shown here: a relay state stays a tree of headers hanging off the anchor,
    heights and work adding up along every link and the tip heaviest; undoing
    an applied batch restores the state exactly; a batch round-trips through
    its output script; and at the first retarget boundary behind the anchor any
    claimed difficulty is accepted. *)

From S2P Require Import Prelude Crypto Pow TxCodec Header Difficulty.
From stdpp Require Import sorting.
#[local] Open Scope Z_scope.

(** ** Headers *)
Record SpvHeader := {
  sh_version : Z;
  sh_prev_hash : bytes;
  sh_merkle_root : bytes;
  sh_time : Z;
  sh_bits : Z;
  sh_nonce : Z
}.

#[export] Instance SpvHeader_eq_dec : EqDecision SpvHeader.
Proof. solve_decision. Defined.

Definition BTC_HEADER_BYTES : Z := 80.

(** [i32::from_le_bytes] *)
Definition i32_of (v : Z) : Z := if v <? 2 ^ 31 then v else v - 2 ^ 32.

Definition spv_serialize (h : SpvHeader) : bytes :=
  le_bytes 4 (sh_version h) ++ sh_prev_hash h ++ sh_merkle_root h ++
  le_bytes 4 (sh_time h) ++ le_bytes 4 (sh_bits h) ++ le_bytes 4 (sh_nonce h).

Definition spv_deserialize (b : bytes) : res string SpvHeader :=
  if negb (len b =? BTC_HEADER_BYTES) then Err "btc header must be exactly 80 bytes"%string else
  prev ← slice b 4 36;
  merkle ← slice b 36 68;
  v ← slice b 0 4;
  t ← slice b 68 72;
  bi ← slice b 72 76;
  n ← slice b 76 80;
  Ok {| sh_version := i32_of (le_val v); sh_prev_hash := prev; sh_merkle_root := merkle;
        sh_time := le_val t; sh_bits := le_val bi; sh_nonce := le_val n |}.

Definition block_hash `{Crypto} (h : SpvHeader) : bytes := sha256d (spv_serialize h).

Record SpvEntry := { e_header : SpvHeader; e_height : Z; e_work : Z }.

Record SpvAnchor := { a_hash : bytes; a_height : Z; a_bits : Z; a_time : Z }.

Definition SpvAnchor_zero : SpvAnchor :=
  {| a_hash := zeros 32; a_height := 0; a_bits := 0; a_time := 0 |}.

Definition anchor_is_zero (a : SpvAnchor) : bool :=
  beqb (a_hash a) (zeros 32) && (a_height a =? 0) && (a_bits a =? 0) && (a_time a =? 0).

Record BtcSpvParams := { btc_activation_height : Z; btc_anchor : SpvAnchor }.

(** ** Header batches in output scripts *)
Definition BTC_HEADER_BATCH_TAG : Z := 0xc4.
Definition BTC_HEADER_BATCH_VERSION : Z := 0x01.
Definition MAX_BTC_HEADERS_PER_BATCH : Z := 2016.
Definition MAX_BTC_HEADER_BATCH_BYTES : Z := 4 + BTC_HEADER_BYTES * MAX_BTC_HEADERS_PER_BATCH.
Definition LTC_HEADER_BATCH_TAG : Z := 0xc6.
Definition LTC_HEADER_BATCH_VERSION : Z := 0x01.
Definition MAX_LTC_HEADERS_PER_BATCH : Z := 144.
Definition MAX_LTC_HEADER_BATCH_BYTES : Z := 4 + 80 * MAX_LTC_HEADERS_PER_BATCH.

(** The encoders and parsers of the two files differ in tag, version and
    maximal count only. *)
Definition encode_header_batch (tag ver max : Z) (headers : list SpvHeader) : res string bytes :=
  if len headers =? 0 then Err "header batch: empty"%string else
  if max <? len headers then Err "header batch: too many headers"%string else
  let count := as_u16 (len headers) in
  Ok ([tag] ++ [ver] ++ le_bytes 2 count ++ concat (spv_serialize <$> headers)).

(** [for i in 0..count { let start = 4 + i * 80; deserialize(&script[start..start + 80])? }] *)
Fixpoint parse_batch_headers (n : nat) (script : bytes) (start : Z) : res string (list SpvHeader) :=
  match n with
  | O => Ok []
  | S n =>
      b ← slice script start (start + 80);
      h ← spv_deserialize b;
      hs ← parse_batch_headers n script (start + 80);
      Ok (h :: hs)
  end.

Definition parse_header_batch (tag ver max : Z) (script : bytes) : res string (list SpvHeader) :=
  if len script <? 4 then Err "header batch: script too short"%string else
  b0 ← idx script 0;
  if negb (b0 =? tag) then Err "header batch: wrong tag"%string else
  b1 ← idx script 1;
  if negb (b1 =? ver) then Err "header batch: unknown version"%string else
  b2 ← idx script 2;
  b3 ← idx script 3;
  let count := le_val [b2; b3] in
  if (count =? 0) || (max <? count) then Err "header batch: count out of range"%string else
  if negb (len script =? 4 + 80 * count) then Err "header batch: wrong size"%string else
  parse_batch_headers (Z.to_nat count) script 4.

Definition encode_btc_header_batch :=
  encode_header_batch BTC_HEADER_BATCH_TAG BTC_HEADER_BATCH_VERSION MAX_BTC_HEADERS_PER_BATCH.
Definition parse_btc_header_batch :=
  parse_header_batch BTC_HEADER_BATCH_TAG BTC_HEADER_BATCH_VERSION MAX_BTC_HEADERS_PER_BATCH.
Definition encode_ltc_header_batch :=
  encode_header_batch LTC_HEADER_BATCH_TAG LTC_HEADER_BATCH_VERSION MAX_LTC_HEADERS_PER_BATCH.
Definition parse_ltc_header_batch :=
  parse_header_batch LTC_HEADER_BATCH_TAG LTC_HEADER_BATCH_VERSION MAX_LTC_HEADERS_PER_BATCH.

(** ** Work and compact targets *)
Definition work_for_bits (b : Z) : Z := 2 ^ 256 / (to_target {| bits := b |} + 1).

Definition BTC_RETARGET_INTERVAL : Z := 2016.
Definition BTC_EXPECTED_TIMESPAN : Z := 14 * 24 * 3600.
Definition BTC_MTP_WINDOW : nat := 11.
Definition BTC_MAX_FUTURE_TIME_SECS : Z := 2 * 60 * 60.
Definition BTC_MAX_TARGET_BITS : Z := 0x1d00ffff.

Definition btc_max_target : Z := to_target {| bits := BTC_MAX_TARGET_BITS |}.

(** [target_to_compact_bits]; the shifts stay within 32 bits. *)
Definition target_to_compact_bits (t : Z) : Z :=
  if t =? 0 then 0 else
  let b := to_bytes_be t in
  let size := len b in
  let compact :=
    if size <=? 3
    then Z.shiftl (fold_left (fun v x => Z.lor (Z.shiftl v 8) x) b 0) (8 * (3 - size))
    else Z.lor (Z.lor (Z.shiftl (nth 0 b 0) 16) (Z.shiftl (nth 1 b 0) 8)) (nth 2 b 0) in
  let '(compact, size) :=
    if negb (Z.land compact 0x00800000 =? 0) then (Z.shiftr compact 8, size + 1)
    else (compact, size) in
  Z.lor compact (as_u32 (Z.shiftl (as_u32 size) 24)).

Record RetargetParams := {
  rt_window : Z;
  expected_timespan_secs : Z;
  max_target_bits : Z;
  min_timespan_divisor : Z;
  max_timespan_multiplier : Z
}.

Definition LITECOIN : RetargetParams :=
  {| rt_window := 2016; expected_timespan_secs := 302400; max_target_bits := 0x1e0fffff;
     min_timespan_divisor := 4; max_timespan_multiplier := 4 |}.

Record LtcSpvParams := {
  ltc_activation_height : Z; ltc_anchor : SpvAnchor; ltc_retarget : RetargetParams }.

(** ** Reading the relay state *)
Abbreviation Headers := (gmap bytes SpvEntry).
Abbreviation Staged := (list (bytes * SpvEntry)).

(** [LookupView::get]: committed entries first, then the staged ones, latest
    first. *)
Fixpoint find_staged (h : bytes) (staged : Staged) : option SpvEntry :=
  match staged with
  | [] => None
  | (h', e) :: staged => if beqb h' h then Some e else find_staged h staged
  end.

Definition view_get (committed : Headers) (staged : Staged) (h : bytes) : option SpvEntry :=
  match committed !! h with
  | Some e => Some e
  | None => find_staged h (rev staged)
  end.

(** The times of [cur] and its ancestors, up to [n] of them, ending at the
    anchor or at the first unknown hash. *)
Fixpoint ancestor_times (n : nat) (get : bytes -> option SpvEntry) (anchor : SpvAnchor)
    (cur : bytes) : list Z :=
  match n with
  | O => []
  | S n =>
      if beqb cur (a_hash anchor) then [a_time anchor] else
      match get cur with
      | Some e => sh_time (e_header e) :: ancestor_times n get anchor (sh_prev_hash (e_header e))
      | None => []
      end
  end.

Definition median_time_past_v (parent_hash : bytes) (get : bytes -> option SpvEntry)
    (anchor : SpvAnchor) : Z :=
  let times := ancestor_times BTC_MTP_WINDOW get anchor parent_hash in
  match times with
  | [] => 0
  | _ => nth (length times / 2) (merge_sort Z.le times) 0
  end.

Inductive BitsError :=
| HeightZero | ParentUnknown | WindowBeforeAnchor
| ReachedAnchor | MissingHeader | WalkedPast.

#[export] Instance BitsError_eq_dec : EqDecision BitsError.
Proof. solve_decision. Defined.

(** The walk of [find_ancestor_time_at_height_v]; [Panic] stands for a walk
    that is not over after [fuel] links. *)
Fixpoint ancestor_walk (fuel : nat) (get : bytes -> option SpvEntry) (anchor : SpvAnchor)
    (target_height : Z) (cur : bytes) : res BitsError Z :=
  match fuel with
  | O => Panic
  | S fuel =>
      if beqb cur (a_hash anchor) then Err ReachedAnchor else
      match get cur with
      | None => Err MissingHeader
      | Some entry =>
          if e_height entry =? target_height then Ok (sh_time (e_header entry)) else
          if e_height entry <? target_height then Err WalkedPast else
          ancestor_walk fuel get anchor target_height (sh_prev_hash (e_header entry))
      end
  end.

Definition find_ancestor_time_at_height_v (fuel : nat) (parent_hash : bytes) (target_height : Z)
    (get : bytes -> option SpvEntry) (anchor : SpvAnchor) : res BitsError Z :=
  if target_height =? a_height anchor then Ok (a_time anchor) else
  ancestor_walk fuel get anchor target_height parent_hash.

(** The bits and the time of the parent. *)
Definition parent_info (parent_hash : bytes) (get : bytes -> option SpvEntry) (anchor : SpvAnchor)
    : res BitsError (Z * Z) :=
  if beqb parent_hash (a_hash anchor) then Ok (a_bits anchor, a_time anchor) else
  match get parent_hash with
  | Some e => Ok (sh_bits (e_header e), sh_time (e_header e))
  | None => Err ParentUnknown
  end.

(** The retarget formula both files share: clamp the timespan, scale, cap. *)
Definition retarget_bits (parent_bits parent_time first_time expected min_ts max_ts max_target : Z)
    : Z :=
  let actual_timespan := sat_sub parent_time first_time in
  let actual_timespan := if actual_timespan <? min_ts then min_ts else actual_timespan in
  let actual_timespan := if max_ts <? actual_timespan then max_ts else actual_timespan in
  let new_target := to_target {| bits := parent_bits |} * actual_timespan / expected in
  let final_target := if max_target <? new_target then max_target else new_target in
  target_to_compact_bits final_target.

(** [expected_bits_for_v] of [btc_spv.rs]; the walk to [first_height] takes at
    most [height - first_height] links. *)
Definition btc_expected_bits_for_v (anchor : SpvAnchor) (height : Z) (parent_hash : bytes)
    (get : bytes -> option SpvEntry) : res BitsError Z :=
  if height =? 0 then Err HeightZero else
  '(parent_bits, parent_time) ← parent_info parent_hash get anchor;
  if negb (height mod BTC_RETARGET_INTERVAL =? 0) then Ok parent_bits else
  let first_height := height - BTC_RETARGET_INTERVAL in
  if first_height <? a_height anchor then Err WindowBeforeAnchor else
  first_time ← find_ancestor_time_at_height_v (Z.to_nat (height - first_height)) parent_hash
                 first_height get anchor;
  Ok (retarget_bits parent_bits parent_time first_time BTC_EXPECTED_TIMESPAN
        (BTC_EXPECTED_TIMESPAN / 4) (Z.min U32_MAX (BTC_EXPECTED_TIMESPAN * 4)) btc_max_target).

(** [expected_bits_for_v] of [ltc_spv.rs] *)
Definition ltc_expected_bits_for_v (params : RetargetParams) (anchor : SpvAnchor) (height : Z)
    (parent_hash : bytes) (get : bytes -> option SpvEntry) : res BitsError Z :=
  if height =? 0 then Err HeightZero else
  '(parent_bits, parent_time) ← parent_info parent_hash get anchor;
  if negb (height mod rt_window params =? 0) then Ok parent_bits else
  let first_height :=
    if height =? rt_window params then height - rt_window params
    else height - rt_window params - 1 in
  if first_height <? a_height anchor then Err WindowBeforeAnchor else
  first_time ← find_ancestor_time_at_height_v (Z.to_nat (height - first_height)) parent_hash
                 first_height get anchor;
  Ok (retarget_bits parent_bits parent_time first_time (expected_timespan_secs params)
        (expected_timespan_secs params / min_timespan_divisor params)
        (Z.min U32_MAX (expected_timespan_secs params * max_timespan_multiplier params))
        (to_target {| bits := max_target_bits params |})).

(** ** Applying and undoing a batch *)
Record RelayState := {
  rl_headers : Headers;
  rl_heights : gmap bytes Z;
  rl_tip : option bytes;
  rl_tip_height : Z
}.

Definition RelayState_new : RelayState :=
  {| rl_headers := ∅; rl_heights := ∅; rl_tip := None; rl_tip_height := 0 |}.

Record RelayUpdate := {
  tip_before : option bytes;
  tip_height_before : Z;
  headers_added : list bytes
}.

Inductive RelayError :=
| EmptyBatch | TooManyHeaders | AnchorNotConfigured
| NotConnected | NonTipFork
| PowFailed (i : Z) | DoesNotLink (i : Z) | AlreadyKnown (i : Z) | Duplicated (i : Z)
| BitsUnknown (e : BitsError) | BitsMismatch (i : Z)
| NotAboveMtp (i : Z) | TooFarAhead (i : Z).

#[export] Instance RelayError_eq_dec : EqDecision RelayError.
Proof. solve_decision. Defined.

Section apply.
Context `{C : Crypto}.

(** Height and work of the parent of the first header. *)
Definition start_of (anchor : SpvAnchor) (hs : Headers) (prev : bytes) : res RelayError (Z * Z) :=
  if beqb prev (a_hash anchor) then Ok (a_height anchor, work_for_bits (a_bits anchor)) else
  match hs !! prev with
  | Some parent => Ok (e_height parent, e_work parent)
  | None => Err NotConnected
  end.

(** [entry.height != expected_height || entry.header != *header] is false. *)
Definition matches (hs : Headers) (header : SpvHeader) (expected_height : Z) : option SpvEntry :=
  entry ← hs !! block_hash header;
  if negb (e_height entry =? expected_height) || bool_decide (e_header entry <> header)
  then None else Some entry.

(** The idempotency probe of [apply_btc_header_batch]. *)
Fixpoint all_known (hs : Headers) (headers : list SpvHeader) (prev_hash : bytes) (prev_height : Z)
    : bool :=
  match headers with
  | [] => true
  | header :: headers =>
      if negb (beqb (sh_prev_hash header) prev_hash) then false else
      match matches hs header (prev_height + 1) with
      | None => false
      | Some _ => all_known hs headers (block_hash header) (prev_height + 1)
      end
  end.

(** The loop that skips a known prefix: the headers left, how many were
    skipped, and hash, height and work to continue from. *)
Fixpoint skip_known (hs : Headers) (headers : list SpvHeader) (k : Z) (prev_hash : bytes)
    (prev_height prev_work : Z) : list SpvHeader * Z * bytes * Z * Z :=
  match headers with
  | [] => ([], k, prev_hash, prev_height, prev_work)
  | header :: rest =>
      if negb (beqb (sh_prev_hash header) prev_hash)
      then (headers, k, prev_hash, prev_height, prev_work) else
      match matches hs header (prev_height + 1) with
      | None => (headers, k, prev_hash, prev_height, prev_work)
      | Some entry => skip_known hs rest (k + 1) (block_hash header) (prev_height + 1) (e_work entry)
      end
  end.

(** The validation loop.  [pow_ok] is the check inside the loop ([btc_spv.rs]
    tests the proof of work there, [ltc_spv.rs] before the loop). *)
Fixpoint stage (pow_ok : SpvHeader -> bool)
    (expected_bits : Z -> bytes -> (bytes -> option SpvEntry) -> res BitsError Z)
    (anchor : SpvAnchor) (block_time : Z) (hs : Headers)
    (headers : list SpvHeader) (i : Z) (prev_hash : bytes) (prev_height prev_work : Z)
    (staged : Staged) : res RelayError Staged :=
  match headers with
  | [] => Ok staged
  | header :: headers =>
      if negb (beqb (sh_prev_hash header) prev_hash) then Err (DoesNotLink i) else
      let height := prev_height + 1 in
      let hash := block_hash header in
      if bool_decide (is_Some (hs !! hash)) then Err (AlreadyKnown i) else
      if existsb (fun '(h, _) => beqb h hash) staged then Err (Duplicated i) else
      if negb (pow_ok header) then Err (PowFailed i) else
      let get := view_get hs staged in
      expected_bits_opt ←
        match expected_bits height prev_hash get with
        | Ok b => Ok (Some b)
        | Err WindowBeforeAnchor => Ok None
        | Err e => Err (BitsUnknown e)
        | Panic => Panic
        end;
      let mtp := median_time_past_v prev_hash get anchor in
      let mismatch :=
        match expected_bits_opt with
        | Some b => negb (to_target {| bits := sh_bits header |} =? to_target {| bits := b |})
        | None => false
        end in
      if (mismatch : bool) then Err (BitsMismatch i) else
      if sh_time header <=? mtp then Err (NotAboveMtp i) else
      if Z.min U32_MAX (block_time + BTC_MAX_FUTURE_TIME_SECS) <? sh_time header
      then Err (TooFarAhead i) else
      let work := prev_work + work_for_bits (sh_bits header) in
      stage pow_ok expected_bits anchor block_time hs headers (i + 1) hash height work
        (staged ++ [(hash, {| e_header := header; e_height := height; e_work := work |})])
  end.

(** [for (hash, entry) in staged { insert }] *)
Definition commit_headers (hs : Headers) (staged : Staged) : Headers :=
  fold_left (fun m '(h, e) => <[h := e]> m) staged hs.
Definition commit_heights (m : gmap bytes Z) (staged : Staged) : gmap bytes Z :=
  fold_left (fun m '(h, e) => <[h := e_height e]> m) staged m.

(** The end of both functions: insert the staged headers, move the tip when
    the last one has more work. [staged.last().unwrap()] panics on no header. *)
Definition commit (anchor : SpvAnchor) (st : RelayState) (staged : Staged)
    : res RelayError (RelayUpdate * RelayState) :=
  match last staged with
  | None => Panic
  | Some (final_hash, final) =>
      let hs := commit_headers (rl_headers st) staged in
      let current_tip_work :=
        match rl_tip st with
        | Some h => match hs !! h with Some e => e_work e | None => 0 end
        | None => work_for_bits (a_bits anchor)
        end in
      let better := current_tip_work <? e_work final in
      Ok ({| tip_before := rl_tip st; tip_height_before := rl_tip_height st;
             headers_added := fst <$> staged |},
          {| rl_headers := hs;
             rl_heights := commit_heights (rl_heights st) staged;
             rl_tip := if better then Some final_hash else rl_tip st;
             rl_tip_height := if better then e_height final else rl_tip_height st |})
  end.

Definition no_update (st : RelayState) : RelayUpdate * RelayState :=
  ({| tip_before := rl_tip st; tip_height_before := rl_tip_height st; headers_added := [] |}, st).

(** What both functions do once the start of the batch is known. *)
Definition apply_from (pow_ok : SpvHeader -> bool)
    (expected_bits : Z -> bytes -> (bytes -> option SpvEntry) -> res BitsError Z)
    (anchor : SpvAnchor) (block_time : Z) (headers : list SpvHeader) (st : RelayState)
    (first_prev : bytes) (start_height start_work : Z)
    : res RelayError (RelayUpdate * RelayState) :=
  let '(rest, known_prefix, prev_hash, prev_height, prev_work) :=
    skip_known (rl_headers st) headers 0 first_prev start_height start_work in
  if known_prefix =? len headers then Ok (no_update st) else
  if (0 <? known_prefix) && (prev_height <? rl_tip_height st) then Err NonTipFork else
  staged ← stage pow_ok expected_bits anchor block_time (rl_headers st) rest known_prefix
             prev_hash prev_height prev_work [];
  commit anchor st staged.

Definition apply_btc_header_batch (headers : list SpvHeader) (iriumd_block_time : Z)
    (anchor : SpvAnchor) (st : RelayState) : res RelayError (RelayUpdate * RelayState) :=
  match headers with
  | [] => Err EmptyBatch
  | first :: _ =>
      if anchor_is_zero anchor then Err AnchorNotConfigured else
      '(start_height, start_work) ← start_of anchor (rl_headers st) (sh_prev_hash first);
      if all_known (rl_headers st) headers (sh_prev_hash first) start_height
      then Ok (no_update st) else
      apply_from (fun h => meets_target_btc (block_hash h) {| bits := sh_bits h |})
        (btc_expected_bits_for_v anchor) anchor iriumd_block_time headers st
        (sh_prev_hash first) start_height start_work
  end.

(** [LtcHeader::meets_pow], with [meets_target_ltc] of [scrypt_pow.rs] *)
Definition meets_target_ltc (header_bytes : bytes) (t : Target) : bool :=
  meets_target_btc (scrypt_hash header_bytes) t.
Definition meets_pow (h : SpvHeader) : bool :=
  meets_target_ltc (spv_serialize h) {| bits := sh_bits h |}.

Definition apply_ltc_header_batch (headers : list SpvHeader)
    (iriumd_block_time : Z) (anchor : SpvAnchor) (retarget : RetargetParams) (st : RelayState)
    : res RelayError (RelayUpdate * RelayState) :=
  match headers with
  | [] => Err EmptyBatch
  | first :: _ =>
      if MAX_LTC_HEADERS_PER_BATCH <? len headers then Err TooManyHeaders else
      if anchor_is_zero anchor then Err AnchorNotConfigured else
      match list_find (fun h => meets_pow h = false) headers with
      | Some (i, _) => Err (PowFailed (Z.of_nat i))
      | None =>
          '(start_height, start_work) ← start_of anchor (rl_headers st) (sh_prev_hash first);
          apply_from (fun _ => true) (ltc_expected_bits_for_v retarget anchor) anchor
            iriumd_block_time headers st (sh_prev_hash first) start_height start_work
      end
  end.

(** [undo_btc_relay_update] and [undo_ltc_relay_update] are the same code. *)
Definition undo_relay_update (update : RelayUpdate) (st : RelayState) : RelayState :=
  {| rl_headers := fold_left (fun m h => delete h m) (headers_added update) (rl_headers st);
     rl_heights := fold_left (fun m h => delete h m) (headers_added update) (rl_heights st);
     rl_tip := tip_before update;
     rl_tip_height := tip_height_before update |}.
End apply.

(** ** The shape of a relay state *)
Lemma work_for_bits_nonneg b : 0 <= work_for_bits b.
Proof.
  unfold work_for_bits. apply Z.div_pos; [lia|]. pose proof (to_target_nonneg {| bits := b |}). lia.
Qed.

Section inv.
Context `{C : Crypto} (anchor : SpvAnchor).

(** An entry hangs off the anchor or off a stored entry, one higher and heavier
    by its own work. *)
Definition hangs_off (hs : Headers) (prev : bytes) (height work : Z) : Prop :=
  (prev = a_hash anchor /\ height = a_height anchor /\ work = work_for_bits (a_bits anchor)) \/
  (exists p, hs !! prev = Some p /\ height = e_height p /\ work = e_work p).

Record headers_inv (hs : Headers) : Prop := {
  inv_key : forall h e, hs !! h = Some e -> h = block_hash (e_header e);
  inv_link : forall h e, hs !! h = Some e ->
    hangs_off hs (sh_prev_hash (e_header e)) (e_height e - 1)
      (e_work e - work_for_bits (sh_bits (e_header e)))
}.

(** The tip is a stored header with the most work of all; before there is one,
    no header has more work than the anchor. *)
Definition tip_inv (st : RelayState) : Prop :=
  match rl_tip st with
  | None => forall h e, rl_headers st !! h = Some e -> e_work e <= work_for_bits (a_bits anchor)
  | Some t => exists e, rl_headers st !! t = Some e /\ rl_tip_height st = e_height e /\
      forall h' e', rl_headers st !! h' = Some e' -> e_work e' <= e_work e
  end.

Record relay_inv (st : RelayState) : Prop := {
  inv_heights : forall h, rl_heights st !! h = e_height <$> rl_headers st !! h;
  inv_headers : headers_inv (rl_headers st);
  inv_tip : tip_inv st
}.

Lemma relay_inv_new : relay_inv RelayState_new.
Proof.
  split; [intros h; cbn; by rewrite !lookup_empty | | intros h e; cbn; by rewrite lookup_empty].
  split; intros h e; cbn; by rewrite lookup_empty.
Qed.

(** The staged entries are a chain on [prev_hash]. *)
Fixpoint chain_from (prev_hash : bytes) (prev_height prev_work : Z) (new : Staged) : Prop :=
  match new with
  | [] => True
  | (h, e) :: new =>
      sh_prev_hash (e_header e) = prev_hash /\ h = block_hash (e_header e) /\
      e_height e = prev_height + 1 /\ e_work e = prev_work + work_for_bits (sh_bits (e_header e)) /\
      chain_from h (e_height e) (e_work e) new
  end.

Definition fresh (hs : Headers) (new : Staged) : Prop := Forall (fun he => hs !! he.1 = None) new.

Lemma existsb_fst_notin (h : bytes) (staged : Staged) :
  existsb (fun '(h', _) => beqb h' h) staged = false -> h ∉ fst <$> staged.
Proof.
  intros He. rewrite list_elem_of_fmap. intros ([h' e] & -> & Hin).
  apply not_true_iff_false in He. apply He, existsb_exists. exists (h', e).
  split; [by apply list_elem_of_In | by apply bool_decide_eq_true].
Qed.

Lemma stage_spec pow eb bt hs headers : forall i prev ph pw staged0 staged,
  stage pow eb anchor bt hs headers i prev ph pw staged0 = Ok staged ->
  NoDup (fst <$> staged0) ->
  exists new, staged = staged0 ++ new /\ length new = length headers /\
    chain_from prev ph pw new /\ fresh hs new /\ NoDup (fst <$> staged).
Proof.
  induction headers as [|hd headers IH]; intros i prev ph pw staged0 staged H Hnd; cbn [stage] in H.
  { injection H as <-. exists []. rewrite app_nil_r. repeat split; [constructor | done]. }
  destruct (negb _) eqn:Hl in H; [done|]. case_bool_decide as Hk; [done|].
  destruct (existsb _ _) eqn:Hd; [done|]. destruct (negb (pow hd)); [done|].
  destruct (match eb _ _ _ with Ok _ => _ | _ => _ end) as [bo| |]; bind_simpl_in H; [|done..].
  cbv zeta in H. repeat (case_match; [done|]). apply IH in H as (new & -> & Hlen & Hc & Hf & Hn).
  2:{ rewrite fmap_app. apply NoDup_app. split; [done|]. split; [|apply NoDup_singleton].
      intros x Hx Hx'. apply list_elem_of_singleton in Hx'. cbn in Hx'. subst x.
      by apply existsb_fst_notin in Hd. }
  eexists (_ :: new). rewrite <- app_assoc. split; [done|]. split; [by cbn; rewrite Hlen|].
  split; [|split].
  - cbn. split; [|done]. apply negb_false_iff, bool_decide_eq_true in Hl. done.
  - constructor; [|done]. by apply eq_None_not_Some.
  - by rewrite <- app_assoc in Hn.
Qed.

(** ** Committing *)
Lemma commit_headers_union hs staged :
  NoDup (fst <$> staged) -> commit_headers hs staged = list_to_map staged ∪ hs.
Proof.
  unfold commit_headers. revert hs; induction staged as [|[h e] staged IH]; intros hs Hn; cbn.
  { by rewrite (left_id_L ∅ (∪)). }
  apply NoDup_cons in Hn as [Hh Hn]. rewrite IH by done.
  rewrite <- insert_union_r by (apply not_elem_of_list_to_map; done).
  by rewrite insert_union_l.
Qed.

Lemma commit_heights_lookup hs m staged :
  (forall h, m !! h = e_height <$> hs !! h) ->
  forall h, commit_heights m staged !! h = e_height <$> commit_headers hs staged !! h.
Proof.
  unfold commit_heights, commit_headers.
  revert hs m; induction staged as [|[k e] staged IH]; intros hs m Hm h; cbn; [done|].
  apply IH. intros h'. destruct (decide (k = h')) as [->|]; [by rewrite !lookup_insert_eq|].
  by rewrite !lookup_insert_ne.
Qed.

Lemma fold_delete_lookup {A} (ks : list bytes) (m : gmap bytes A) h :
  fold_left (fun m h => delete h m) ks m !! h = if decide (h ∈ ks) then None else m !! h.
Proof.
  revert m; induction ks as [|k ks IH]; intros m; cbn.
  { by rewrite decide_False by (apply not_elem_of_nil). }
  rewrite IH. destruct (decide (h ∈ ks)); [by rewrite decide_True by (by constructor)|].
  destruct (decide (h = k)) as [->|].
  - rewrite decide_True by constructor. apply lookup_delete_eq.
  - rewrite decide_False by (by rewrite not_elem_of_cons). by rewrite lookup_delete_ne.
Qed.

(** Deleting what was added to a map at fresh keys gives the map back. *)
Lemma undo_union hs staged :
  fresh hs staged -> NoDup (fst <$> staged) ->
  fold_left (fun m h => delete h m) (fst <$> staged) (commit_headers hs staged) = hs.
Proof.
  intros Hf Hn. rewrite commit_headers_union by done. apply map_eq. intros h.
  rewrite fold_delete_lookup. destruct (decide (h ∈ fst <$> staged)) as [Hin|Hin].
  - apply list_elem_of_fmap in Hin as ([h' e] & -> & Hin). symmetry.
    by apply (proj1 (Forall_forall _ _) Hf).
  - rewrite lookup_union, not_elem_of_list_to_map_1 by done. by rewrite (left_id_L None _).
Qed.

Lemma hangs_off_mono hs hs' prev h w : hs ⊆ hs' -> hangs_off hs prev h w -> hangs_off hs' prev h w.
Proof.
  intros Hs [Ha|(p & Hp & ?)]; [by left|right]. exists p. split; [|done]. by eapply lookup_weaken.
Qed.

(** Every member of a chain hangs off the anchor or the map it is added to. *)
Lemma chain_from_links hs new : forall prev ph pw,
  chain_from prev ph pw new -> hangs_off hs prev ph pw ->
  (forall h e, (h, e) ∈ new -> hs !! h = Some e) ->
  Forall (fun he => he.1 = block_hash (e_header he.2) /\
    hangs_off hs (sh_prev_hash (e_header he.2)) (e_height he.2 - 1)
      (e_work he.2 - work_for_bits (sh_bits (e_header he.2)))) new.
Proof.
  induction new as [|[h e] new IH]; intros prev ph pw Hc Hp Hin; [constructor|].
  destruct Hc as (Hprev & Hk & Hh & Hw & Hc). constructor.
  - split; [done|]. cbn. rewrite Hprev, Hh, Hw.
    replace (ph + 1 - 1) with ph by lia.
    by replace (pw + _ - _) with pw by lia.
  - apply (IH h (e_height e) (e_work e)); [done| |intros; apply Hin; by constructor].
    right. exists e. split; [apply Hin; by constructor | done].
Qed.

Lemma chain_from_last new : forall prev ph pw hl el,
  chain_from prev ph pw new -> last new = Some (hl, el) ->
  pw <= e_work el /\ Forall (fun he => e_work he.2 <= e_work el) new.
Proof.
  induction new as [|[h e] new IH]; intros prev ph pw hl el Hc Hl; [done|].
  destruct Hc as (_ & _ & _ & Hw & Hc). pose proof (work_for_bits_nonneg (sh_bits (e_header e))).
  destruct new as [|he new].
  { cbn in Hl. injection Hl as <- <-. split; [lia|]. repeat constructor; cbn; lia. }
  rewrite last_cons_cons in Hl. destruct (IH _ _ _ _ _ Hc Hl) as [Hle Hf].
  split; [lia|]. constructor; [cbn; lia | done].
Qed.

Lemma commit_inv st staged upd st' prev ph pw :
  relay_inv st -> hangs_off (rl_headers st) prev ph pw -> chain_from prev ph pw staged ->
  fresh (rl_headers st) staged -> NoDup (fst <$> staged) ->
  commit anchor st staged = Ok (upd, st') ->
  relay_inv st' /\ undo_relay_update upd st' = st.
Proof.
  intros [Hhe [Hkey Hlink] Htip] Hp Hc Hf Hn H. unfold commit in H.
  destruct (last staged) as [[hl el]|] eqn:Hl; [|done]. injection H as <- <-.
  pose proof (commit_headers_union (rl_headers st) staged Hn) as Hu.
  set (hs' := commit_headers (rl_headers st) staged) in *.
  assert (rl_headers st ⊆ hs') as Hsub.
  { rewrite Hu. apply map_union_subseteq_r. apply map_disjoint_list_to_map_l.
    eapply Forall_impl; [exact Hf|]. by intros [h e]. }
  assert (forall h e, (h, e) ∈ staged -> hs' !! h = Some e) as Hin.
  { intros h e Hin. rewrite Hu. apply lookup_union_Some_l. by apply elem_of_list_to_map. }
  assert (forall h e, hs' !! h = Some e -> rl_headers st !! h = Some e \/ (h, e) ∈ staged) as Hcase.
  { intros h e He. rewrite Hu in He. apply lookup_union_Some_raw in He as [He|[_ He]]; [|by left].
    right. by apply elem_of_list_to_map_2. }
  pose proof (chain_from_links hs' staged prev ph pw Hc (hangs_off_mono _ _ _ _ _ Hsub Hp) Hin) as Hcl.
  destruct (chain_from_last staged prev ph pw hl el Hc Hl) as [_ Hmax].
  rewrite Forall_forall in Hcl, Hmax.
  assert ((hl, el) ∈ staged) as Hlin by (by apply last_Some_elem_of).
  split.
  - split; cbn [rl_headers rl_heights].
    + by apply commit_heights_lookup.
    + split; intros h e He; destruct (Hcase h e He) as [Ho|Hs].
      * by apply Hkey.
      * by destruct (Hcl _ Hs).
      * eapply hangs_off_mono; [exact Hsub | by eapply Hlink].
      * by destruct (Hcl _ Hs).
    + unfold tip_inv in *. cbn [rl_tip rl_headers rl_tip_height].
      assert (forall h e, (h, e) ∈ staged -> e_work e <= e_work el) as Hmax'
        by (intros h e Hs; apply (Hmax _ Hs)).
      destruct (rl_tip st) as [t|] eqn:Ht.
      * destruct Htip as (et & Het & Hth & Hall).
        pose proof (lookup_weaken _ _ _ _ Het Hsub) as Het'. rewrite Het'.
        destruct (e_work et <? e_work el) eqn:Hb; [exists el|exists et];
          (split; [first [done | by apply Hin]|]); (split; [done|]);
          intros h' e' He'; destruct (Hcase _ _ He') as [Ho|Hs];
          [apply Hall in Ho|apply Hmax' in Hs|apply Hall in Ho|apply Hmax' in Hs]; lia.
      * destruct (_ <? e_work el) eqn:Hb.
        -- exists el. split; [by apply Hin|]. split; [done|].
           intros h' e' He'; destruct (Hcase _ _ He') as [Ho|Hs];
             [apply Htip in Ho|apply Hmax' in Hs]; lia.
        -- intros h' e' He'; destruct (Hcase _ _ He') as [Ho|Hs];
             [apply Htip in Ho|apply Hmax' in Hs]; lia.
  - unfold undo_relay_update. cbn [headers_added tip_before tip_height_before rl_headers rl_heights].
    subst hs'. rewrite undo_union by done.
    replace (fold_left _ (fst <$> staged) (commit_heights _ _)) with (rl_heights st); [by destruct st|].
    apply map_eq. intros h. rewrite fold_delete_lookup.
    destruct (decide (h ∈ fst <$> staged)) as [Hk|Hk].
    + apply list_elem_of_fmap in Hk as ([h' e] & -> & Hk). rewrite Hhe.
      unfold fresh in Hf. rewrite Forall_forall in Hf. by rewrite (Hf _ Hk).
    + rewrite (commit_heights_lookup (rl_headers st)) by done.
      rewrite Hhe, Hu, lookup_union, not_elem_of_list_to_map_1 by done.
      by rewrite (left_id_L None _).
Qed.

(** ** Finding the start *)
Lemma start_of_ok hs prev h w : start_of anchor hs prev = Ok (h, w) -> hangs_off hs prev h w.
Proof.
  unfold start_of, beqb. case_bool_decide; [intros [= <- <-]; by left|].
  destruct (hs !! prev) as [p|] eqn:Hp; [|done]. intros [= <- <-]. right. by exists p.
Qed.

Lemma skip_known_ok hs headers : forall k prev h w rest k' prev' h' w',
  hangs_off hs prev h w ->
  skip_known hs headers k prev h w = (rest, k', prev', h', w') ->
  hangs_off hs prev' h' w' /\ k' = k + len headers - len rest /\ k <= k'.
Proof.
  induction headers as [|hd headers IH]; intros k prev h w rest k' prev' h' w' Hp H; cbn in H.
  { simplify_eq. split; [done|]. lia. }
  destruct (negb _); [simplify_eq; split; [done|lia]|].
  destruct (matches hs hd (h + 1)) as [e|] eqn:Hm; [|simplify_eq; split; [done|lia]].
  apply IH in H as (Hh & -> & Hk); [rewrite len_cons; split; [done|lia]|].
  right. unfold matches in Hm. destruct (hs !! block_hash hd) as [e'|] eqn:He; [|done]. cbn in Hm.
  destruct (e_height e' =? h + 1) eqn:Hh; [|done]. case_bool_decide; [done|]. cbn in Hm.
  injection Hm as <-. exists e'. split; [done|]. split; [lia|done].
Qed.

Lemma apply_from_inv pow eb bt headers st prev h w upd st' :
  relay_inv st -> hangs_off (rl_headers st) prev h w ->
  apply_from pow eb anchor bt headers st prev h w = Ok (upd, st') ->
  relay_inv st' /\ undo_relay_update upd st' = st.
Proof.
  intros Hi Hp H. unfold apply_from in H.
  destruct (skip_known _ _ _ _ _ _) as [[[[rest k] prev'] h'] w'] eqn:Hs.
  destruct (skip_known_ok _ _ _ _ _ _ _ _ _ _ _ Hp Hs) as (Hp' & _).
  destruct (k =? len headers).
  { injection H as <- <-. split; [done|]. by destruct st. }
  destruct (_ && _); [done|].
  destruct (stage _ _ _ _ _ _ _ _ _ _ _) as [staged| |] eqn:Hst; bind_simpl_in H; [|done..].
  apply stage_spec in Hst as (new & -> & _ & Hc & Hf & Hn); [|constructor].
  by eapply commit_inv.
Qed.

Lemma apply_btc_inv headers bt st upd st' :
  relay_inv st -> apply_btc_header_batch headers bt anchor st = Ok (upd, st') ->
  relay_inv st' /\ undo_relay_update upd st' = st.
Proof.
  intros Hi H. unfold apply_btc_header_batch in H. destruct headers as [|first hs]; [done|].
  destruct (anchor_is_zero anchor); [done|].
  destruct (start_of _ _ _) as [[h w]| |] eqn:Hs; bind_simpl_in H; [|done..].
  destruct (all_known _ _ _ _); [injection H as <- <-; split; [done|by destruct st]|].
  eapply apply_from_inv; [done | by apply start_of_ok | done].
Qed.

Lemma apply_ltc_inv headers bt rt st upd st' :
  relay_inv st -> apply_ltc_header_batch headers bt anchor rt st = Ok (upd, st') ->
  relay_inv st' /\ undo_relay_update upd st' = st.
Proof.
  intros Hi H. unfold apply_ltc_header_batch in H. destruct headers as [|first hs]; [done|].
  destruct (_ <? _); [done|]. destruct (anchor_is_zero anchor); [done|].
  destruct (list_find _ _) as [[? ?]|]; [done|].
  destruct (start_of _ _ _) as [[h w]| |] eqn:Hs; bind_simpl_in H; [|done..].
  eapply apply_from_inv; [done | by apply start_of_ok | done].
Qed.

(** ** The retarget walk ends

    Heights go down by one along every link, so the walk from the parent to
    [first_height] takes at most [height - first_height] steps. *)
Definition view_links (get : bytes -> option SpvEntry) : Prop :=
  forall h e, get h = Some e -> sh_prev_hash (e_header e) = a_hash anchor \/
    forall p, get (sh_prev_hash (e_header e)) = Some p -> e_height e = e_height p + 1.

Lemma ancestor_walk_total get target fuel : forall cur,
  view_links get -> (0 < fuel)%nat ->
  (cur <> a_hash anchor -> forall e, get cur = Some e -> e_height e < target + Z.of_nat fuel) ->
  ancestor_walk fuel get anchor target cur <> Panic.
Proof.
  induction fuel as [|fuel IH]; intros cur Hv Hf Hc; [lia|]. cbn [ancestor_walk].
  unfold beqb. case_bool_decide as Ha; [done|].
  destruct (get cur) as [e|] eqn:He; [|done].
  destruct (e_height e =? target) eqn:?; [done|]. destruct (e_height e <? target) eqn:?; [done|].
  specialize (Hc Ha e eq_refl). apply IH; [done|lia|]. intros Hna p Hp.
  destruct (Hv _ _ He) as [?|Hl]; [done|]. specialize (Hl p Hp). lia.
Qed.

Lemma find_ancestor_total get target fuel cur :
  view_links get -> (0 < fuel)%nat ->
  (cur <> a_hash anchor -> forall e, get cur = Some e -> e_height e < target + Z.of_nat fuel) ->
  find_ancestor_time_at_height_v fuel cur target get anchor <> Panic.
Proof.
  intros. unfold find_ancestor_time_at_height_v. destruct (_ =? _); [done|].
  by apply ancestor_walk_total.
Qed.

(** An expected-bits function that does not panic on linked views. *)
Definition bits_total (eb : Z -> bytes -> (bytes -> option SpvEntry) -> res BitsError Z) : Prop :=
  forall height prev get, view_links get ->
  (prev <> a_hash anchor -> forall e, get prev = Some e -> e_height e = height - 1) ->
  eb height prev get <> Panic.

Lemma btc_bits_total : bits_total (btc_expected_bits_for_v anchor).
Proof.
  intros height prev get Hv Hp. unfold btc_expected_bits_for_v, parent_info, BTC_RETARGET_INTERVAL.
  destruct (height =? 0); [done|].
  destruct (if beqb _ _ then _ else _) as [[pb pt]| |] eqn:Hpi; bind_simpl; [|done|].
  2:{ destruct (beqb _ _); [done|]. by destruct (get prev). }
  destruct (negb _); [done|]. destruct (_ <? a_height anchor); [done|].
  assert (find_ancestor_time_at_height_v (Z.to_nat (height - (height - 2016))) prev (height - 2016)
            get anchor <> Panic) as Hf.
  { apply find_ancestor_total; [done|lia|]. intros Ha e He. rewrite (Hp Ha e He). lia. }
  by destruct (find_ancestor_time_at_height_v _ _ _ _ _).
Qed.

Lemma ltc_bits_total rt : 0 <= rt_window rt -> bits_total (ltc_expected_bits_for_v rt anchor).
Proof.
  intros Hrt height prev get Hv Hp. unfold ltc_expected_bits_for_v, parent_info.
  destruct (height =? 0) eqn:Hh0; [done|].
  destruct (if beqb _ _ then _ else _) as [[pb pt]| |] eqn:Hpi; bind_simpl; [|done|].
  2:{ destruct (beqb _ _); [done|]. by destruct (get prev). }
  destruct (negb _); [done|]. cbv zeta.
  set (first := if height =? rt_window rt then _ else _).
  destruct (first <? a_height anchor); [done|].
  assert (first <= height - 1).
  { subst first. destruct (height =? rt_window rt) eqn:?; lia. }
  assert (find_ancestor_time_at_height_v (Z.to_nat (height - first)) prev first get anchor
            <> Panic) as Hf.
  { apply find_ancestor_total; [done|lia|]. intros Ha e He. rewrite (Hp Ha e He). lia. }
  by destruct (find_ancestor_time_at_height_v _ _ _ _ _).
Qed.

(** Staged entries in the view. *)
Lemma find_staged_in h staged e : find_staged h staged = Some e -> (h, e) ∈ staged.
Proof.
  induction staged as [|[h' e'] staged IH]; [done|]. cbn. unfold beqb.
  case_bool_decide as Hh; [intros [= <-]; subst; constructor | intros H; constructor; by apply IH].
Qed.

Lemma find_staged_nodup h staged e :
  NoDup (fst <$> staged) -> (h, e) ∈ staged -> find_staged h staged = Some e.
Proof.
  induction staged as [|[h' e'] staged IH]; intros Hn Hin; [by apply not_elem_of_nil in Hin|].
  apply NoDup_cons in Hn as [Hh Hn]. apply elem_of_cons in Hin as [Heq|Hin]; cbn; unfold beqb.
  - simplify_eq. by rewrite bool_decide_true.
  - rewrite bool_decide_false; [by apply IH|]. intros ->. apply Hh.
    apply list_elem_of_fmap. by exists (h, e).
Qed.

(** The view over the store and the entries staged so far: it is linked, and
    [prev] is where the next header goes. *)
Record stage_inv (hs : Headers) (staged : Staged) (prev : bytes) (ph : Z) : Prop := {
  si_nodup : NoDup (fst <$> staged);
  si_fresh : fresh hs staged;
  si_links : forall h e, view_get hs staged h = Some e ->
    sh_prev_hash (e_header e) = a_hash anchor \/
    exists p, view_get hs staged (sh_prev_hash (e_header e)) = Some p /\ e_height e = e_height p + 1;
  si_prev : prev = a_hash anchor \/ exists p, view_get hs staged prev = Some p /\ e_height p = ph
}.

Lemma view_get_snoc hs staged h e x :
  NoDup (fst <$> staged ++ [(h, e)]) -> fresh hs (staged ++ [(h, e)]) ->
  view_get hs (staged ++ [(h, e)]) x = if decide (x = h) then Some e else view_get hs staged x.
Proof.
  intros Hn Hf. unfold view_get. rewrite rev_app_distr. cbn. unfold beqb.
  apply Forall_app in Hf as [_ Hf]. apply Forall_cons in Hf as [Hh _]. cbn in Hh.
  destruct (decide (x = h)) as [->|Hx].
  - by rewrite Hh, bool_decide_true.
  - by rewrite bool_decide_false by congruence.
Qed.

Lemma stage_inv_step hs staged prev ph hd w :
  stage_inv hs staged prev ph -> sh_prev_hash hd = prev ->
  hs !! block_hash hd = None -> block_hash hd ∉ fst <$> staged ->
  stage_inv hs (staged ++ [(block_hash hd, {| e_header := hd; e_height := ph + 1; e_work := w |})])
    (block_hash hd) (ph + 1).
Proof.
  intros [Hn Hf Hl Hp] Hprev Hk Hd.
  assert (NoDup (fst <$> staged ++
    [(block_hash hd, {| e_header := hd; e_height := ph + 1; e_work := w |})])) as Hn'.
  { rewrite fmap_app. apply NoDup_app. split; [done|]. split; [|apply NoDup_singleton].
    intros x Hx Hx'. apply list_elem_of_singleton in Hx'. cbn in Hx'. by subst x. }
  assert (fresh hs (staged ++
    [(block_hash hd, {| e_header := hd; e_height := ph + 1; e_work := w |})])) as Hf'.
  { apply Forall_app. split; [done|]. by repeat constructor. }
  assert (view_get hs staged (block_hash hd) = None) as Hnone.
  { unfold view_get. rewrite Hk. destruct (find_staged _ _) as [e|] eqn:Hs; [|done].
    apply find_staged_in, list_elem_of_In, in_rev, list_elem_of_In in Hs. exfalso. apply Hd.
    apply list_elem_of_fmap. by eexists (_, _). }
  split; [done..| |].
  - intros h e. rewrite !view_get_snoc by done. destruct (decide (h = block_hash hd)) as [->|Hh].
    + intros [= <-]. cbn. rewrite Hprev. destruct Hp as [->|(p & Hpp & Hph)]; [by left|].
      right. exists p. rewrite decide_False by (intros ->; congruence). by rewrite <- Hph.
    + intros He. destruct (Hl h e He) as [?|(p & Hpp & ?)]; [by left|].
      right. exists p. rewrite decide_False by (intros E; congruence). done.
  - right. eexists. rewrite view_get_snoc, decide_True by done. done.
Qed.

Lemma stage_total pow eb bt hs headers : forall i prev ph pw staged,
  bits_total eb -> stage_inv hs staged prev ph ->
  stage pow eb anchor bt hs headers i prev ph pw staged <> Panic.
Proof.
  induction headers as [|hd headers IH]; intros i prev ph pw staged Heb Hsi; cbn [stage]; [done|].
  destruct (negb _) eqn:Hl; [done|]. case_bool_decide as Hk; [done|].
  destruct (existsb _ _) eqn:Hd; [done|]. destruct (negb (pow hd)); [done|].
  assert (eb (ph + 1) prev (view_get hs staged) <> Panic) as Hb.
  { apply Heb.
    - intros h e He. destruct (si_links _ _ _ _ Hsi h e He) as [?|(p & Hp & ?)]; [by left|].
      right. intros p' Hp'. congruence.
    - intros Ha e He. destruct (si_prev _ _ _ _ Hsi) as [?|(p & Hp & ?)]; [done|].
      simplify_eq. lia. }
  assert (exists r, match eb (ph + 1) prev (view_get hs staged) with
          | Ok b => Ok (Some b) | Err WindowBeforeAnchor => Ok None
          | Err e => Err (BitsUnknown e) | Panic => Panic end = r /\ r <> Panic) as (r & -> & Hr).
  { destruct (eb _ _ _) as [b|[]|]; eexists; split; try done. }
  destruct r as [bo| |]; bind_simpl; [|done..]. cbv zeta.
  repeat match goal with |- (if ?b then _ else _) <> _ => destruct b; [done|] end.
  apply IH; [done|]. eapply stage_inv_step; [done| | |].
  - apply negb_false_iff, bool_decide_eq_true in Hl. done.
  - by apply eq_None_not_Some.
  - by apply existsb_fst_notin.
Qed.

Lemma stage_inv_start hs prev h w :
  headers_inv hs -> hangs_off hs prev h w -> stage_inv hs [] prev h.
Proof.
  intros [_ Hl] Hp. split; [constructor | constructor | |].
  - intros k e He. unfold view_get in *. cbn in *.
    destruct (hs !! k) as [e'|] eqn:Hk; [|done]. injection He as ->.
    destruct (Hl _ _ Hk) as [(? & _)|(p & Hpp & ? & _)]; [by left|right].
    exists p. rewrite Hpp. split; [done|lia].
  - destruct Hp as [(? & _)|(p & Hpp & ? & _)]; [by left|right]. exists p.
    unfold view_get. by rewrite Hpp.
Qed.

Lemma apply_from_total pow eb bt headers st prev h w :
  bits_total eb -> relay_inv st -> hangs_off (rl_headers st) prev h w ->
  apply_from pow eb anchor bt headers st prev h w <> Panic.
Proof.
  intros Heb Hi Hp. unfold apply_from.
  destruct (skip_known _ _ _ _ _ _) as [[[[rest k] prev'] h'] w'] eqn:Hs.
  destruct (skip_known_ok _ _ _ _ _ _ _ _ _ _ _ Hp Hs) as (Hp' & Hk & _).
  destruct (k =? len headers) eqn:Hke; [done|]. destruct (_ && _); [done|].
  pose proof (stage_total pow eb bt (rl_headers st) rest k prev' h' w' [] Heb
    (stage_inv_start _ _ _ _ (inv_headers _ Hi) Hp')) as Ht.
  destruct (stage _ _ _ _ _ _ _ _ _ _ _) as [staged| |] eqn:Hst; bind_simpl; [|done..].
  apply stage_spec in Hst as (new & -> & Hl & _); [|constructor]. cbn [app] in *.
  unfold commit. destruct (last new) as [[? ?]|] eqn:Hln; [done|].
  apply last_None in Hln. subst new. cbn in Hl. destruct rest; [|done].
  change (len (@nil SpvHeader)) with 0 in Hk. lia.
Qed.

Lemma apply_btc_total headers bt st :
  relay_inv st -> apply_btc_header_batch headers bt anchor st <> Panic.
Proof.
  intros Hi. unfold apply_btc_header_batch. destruct headers as [|first hs]; [done|].
  destruct (anchor_is_zero anchor); [done|].
  destruct (start_of _ _ _) as [[h w]| |] eqn:Hs; bind_simpl; [|done|].
  - destruct (all_known _ _ _ _); [done|].
    apply apply_from_total; [apply btc_bits_total | done | by apply start_of_ok].
  - unfold start_of in Hs. destruct (beqb _ _); [done|]. by destruct (_ !! _).
Qed.

Lemma apply_ltc_total headers bt rt st :
  0 <= rt_window rt -> relay_inv st -> apply_ltc_header_batch headers bt anchor rt st <> Panic.
Proof.
  intros Hrt Hi. unfold apply_ltc_header_batch. destruct headers as [|first hs]; [done|].
  destruct (_ <? _); [done|]. destruct (anchor_is_zero anchor); [done|].
  destruct (list_find _ _) as [[? ?]|]; [done|].
  destruct (start_of _ _ _) as [[h w]| |] eqn:Hs; bind_simpl; [|done|].
  - apply apply_from_total; [by apply ltc_bits_total | done | by apply start_of_ok].
  - unfold start_of in Hs. destruct (beqb _ _); [done|]. by destruct (_ !! _).
Qed.
End inv.

(** ** The batch codec *)
Definition wf_spv_header (h : SpvHeader) : Prop :=
  - 2 ^ 31 <= sh_version h < 2 ^ 31 /\ arr 32 (sh_prev_hash h) /\ arr 32 (sh_merkle_root h) /\
  u32 (sh_time h) /\ u32 (sh_bits h) /\ u32 (sh_nonce h).

Lemma le_bytes_mod n v : le_bytes n v = le_bytes n (v mod 2 ^ (8 * Z.of_nat n)).
Proof.
  revert v; induction n as [|n IH]; intros v; [done|].
  change (le_bytes (S n) v) with (v mod 2 ^ 8 :: le_bytes n (v / 2 ^ 8)).
  set (m := v mod 2 ^ (8 * Z.of_nat (S n))).
  change (le_bytes (S n) m) with (m mod 2 ^ 8 :: le_bytes n (m / 2 ^ 8)).
  assert (2 ^ (8 * Z.of_nat (S n)) = 2 ^ 8 * 2 ^ (8 * Z.of_nat n)) as Hp.
  { rewrite <- Z.pow_add_r by lia. f_equal. lia. }
  assert (0 < 2 ^ (8 * Z.of_nat n)) by (apply Z.pow_pos_nonneg; lia).
  subst m. rewrite Hp. rewrite Z.rem_mul_r by lia. f_equal.
  - rewrite Z.mul_comm, Z.mod_add by lia. by rewrite Z.mod_mod by lia.
  - rewrite (IH (v / 2 ^ 8)). f_equal. rewrite (Z.mul_comm (2 ^ 8)), Z.div_add by lia.
    rewrite (Z.div_small (v mod 2 ^ 8)) by (apply Z.mod_pos_bound; lia). lia.
Qed.

Lemma i32_roundtrip v : - 2 ^ 31 <= v < 2 ^ 31 -> i32_of (le_val (le_bytes 4 v)) = v.
Proof.
  intros Hv. rewrite le_bytes_mod. change (2 ^ (8 * Z.of_nat 4)) with (2 ^ 32).
  assert (0 <= v mod 2 ^ 32 < 2 ^ 32) by (apply Z.mod_pos_bound; lia).
  rewrite le_val_u32 by done. unfold i32_of. destruct (decide (0 <= v)).
  - rewrite Z.mod_small by lia. by replace (v <? 2 ^ 31) with true by lia.
  - assert (v mod 2 ^ 32 = v + 2 ^ 32) as -> by (rewrite <- (Z.mod_add v 1) by lia; apply Z.mod_small; lia).
    replace (v + 2 ^ 32 <? 2 ^ 31) with false by lia. lia.
Qed.

Lemma le_bytes_i32 s : arr 4 s -> le_bytes 4 (i32_of (le_val s)) = s.
Proof.
  intros Hs. rewrite <- (le_bytes_val_n 4 s Hs) at 2. rewrite (le_bytes_mod 4 (i32_of _)).
  f_equal. apply arr_le_val in Hs. change (2 ^ (8 * 4)) with (2 ^ 32) in Hs.
  change (2 ^ (8 * Z.of_nat 4)) with (2 ^ 32). unfold i32_of. destruct (_ <? _).
  - apply Z.mod_small. lia.
  - rewrite <- (Z.mod_add _ 1) by lia. rewrite Z.mod_small by lia. lia.
Qed.

Lemma len_spv_serialize h : wf_spv_header h -> len (spv_serialize h) = 80.
Proof. intros (_ & [Hp _] & [Hm _] & _). unfold spv_serialize. len_lia. Qed.

Lemma spv_deserialize_serialize h : wf_spv_header h -> spv_deserialize (spv_serialize h) = Ok h.
Proof.
  intros Hw. pose proof (len_spv_serialize h Hw) as Hl. destruct Hw as (Hv & [Hp _] & [Hm _] & Ht & Hb & Hn).
  unfold spv_deserialize. rewrite Hl. change (negb (80 =? BTC_HEADER_BYTES)) with false. cbv iota.
  unfold spv_serialize. do 6 parse_step.
  rewrite i32_roundtrip, !le_val_u32 by done. by destruct h.
Qed.

Lemma spv_serialize_deserialize b h :
  wf_bytes b -> spv_deserialize b = Ok h -> wf_spv_header h /\ spv_serialize h = b.
Proof.
  intros Hw H. unfold spv_deserialize, BTC_HEADER_BYTES in H. invert_parser H. injection H as <-.
  split.
  - unfold wf_spv_header. cbn [sh_version sh_prev_hash sh_merkle_root sh_time sh_bits sh_nonce].
    split_and!; try arr_solve. 
    all: pose proof (arr_le_val 4 _ (slice_arr _ _ _ _ 4 Hw Heqr1 eq_refl)) as Hr;
      change (2 ^ (8 * 4)) with (2 ^ 32) in Hr; unfold i32_of; destruct (_ <? _) eqn:?; lia.
  - unfold spv_serialize. cbn [sh_version sh_prev_hash sh_merkle_root sh_time sh_bits sh_nonce].
    rewrite le_bytes_i32 by arr_solve. symmetry.
    rewrite !(le_bytes_val_n 4) by arr_solve. symmetry.
    eapply (slice_full_inv (E := string));
      [ repeat first [ eassumption | eapply slice_cat; [eassumption | ] ] | lia ].
Qed.

Lemma parse_batch_encode hs : forall pre post,
  Forall wf_spv_header hs ->
  parse_batch_headers (length hs) (pre ++ concat (spv_serialize <$> hs) ++ post) (len pre) = Ok hs.
Proof.
  induction hs as [|h hs IH]; intros pre post Hw; [done|]. apply Forall_cons in Hw as [Hh Hw].
  pose proof (len_spv_serialize h Hh) as Hl. cbn [length parse_batch_headers fmap list_fmap concat].
  rewrite <- app_assoc. rewrite slice_skip by lia. rewrite slice_here by lia. bind_simpl.
  rewrite spv_deserialize_serialize by done. bind_simpl.
  specialize (IH (pre ++ spv_serialize h) post Hw).
  rewrite <- app_assoc, len_app, Hl in IH. change (list_fmap _ _ spv_serialize hs) with (spv_serialize <$> hs).
  rewrite IH. done.
Qed.

Lemma len_concat_headers hs :
  Forall wf_spv_header hs -> len (concat (spv_serialize <$> hs)) = 80 * len hs.
Proof.
  induction 1 as [|h hs Hh _ IH]; [done|]. cbn [fmap list_fmap concat].
  rewrite len_app, len_cons, len_spv_serialize by done.
  change (list_fmap _ _ spv_serialize hs) with (spv_serialize <$> hs). lia.
Qed.

Lemma encode_batch_parse n : forall script start hs,
  wf_bytes script -> 0 <= start ->
  parse_batch_headers n script start = Ok hs -> start + 80 * Z.of_nat n <= len script ->
  Forall wf_spv_header hs /\ length hs = n /\
  slice script start (start + 80 * Z.of_nat n) = @Ok string _ (concat (spv_serialize <$> hs)).
Proof.
  induction n as [|n IH]; intros script start hs Hw Hs H Hl; cbn [parse_batch_headers] in H.
  { injection H as <-. split; [constructor|]. split; [done|].
    replace (start + 80 * Z.of_nat 0) with start in * by lia. unfold slice.
    replace ((0 <=? start) && (start <=? start) && (start <=? len script)) with true by lia.
    by rewrite Z.sub_diag. }
  invert_parser H. injection H as <-.
  apply spv_serialize_deserialize in Heqr0 as [Hwf Hser]; [|by eapply slice_Forall].
  apply IH in Heqr1 as (Hf & Hn & Hsl); [|done|lia|lia].
  split; [by constructor|]. split; [by cbn; rewrite Hn|]. cbn [fmap list_fmap concat].
  rewrite Hser. replace (start + 80 * Z.of_nat (S n)) with (start + 80 + 80 * Z.of_nat n) by lia.
  by eapply slice_cat.
Qed.

Lemma parse_encode_batch tag ver max hs script :
  Forall wf_spv_header hs -> max <= 65535 ->
  encode_header_batch tag ver max hs = Ok script -> parse_header_batch tag ver max script = Ok hs.
Proof.
  intros Hw Hmax H. unfold encode_header_batch in H. pose proof (len_nonneg hs).
  destruct (len hs =? 0) eqn:?; [done|]. destruct (max <? len hs) eqn:?; [done|].
  cbv zeta in H. apply Ok_inj in H. subst script. unfold as_u16. rewrite Z.mod_small by lia.
  pose proof (len_concat_headers hs Hw) as Hlc. set (body := concat _) in *.
  unfold parse_header_batch.
  change (le_bytes 2 (len hs)) with ([len hs mod 2 ^ 8] ++ [len hs / 2 ^ 8 mod 2 ^ 8]).
  rewrite <- !app_assoc. if_lia. do 4 (parse_step; rewrite ?Z.eqb_refl; cbn [negb]).
  assert (le_val [len hs mod 2 ^ 8; len hs / 2 ^ 8 mod 2 ^ 8] = len hs) as ->
    by (apply (le_val_u16 (len hs)); unfold u16; lia).
  replace ((len hs =? 0) || (max <? len hs)) with false by lia.
  replace (negb _) with false by len_lia.
  pose proof (parse_batch_encode hs ([tag] ++ [ver] ++ [len hs mod 2 ^ 8] ++ [len hs / 2 ^ 8 mod 2 ^ 8]) [] Hw) as Hp.
  fold body in Hp. rewrite app_nil_r, <- !app_assoc in Hp.
  assert (Z.to_nat (len hs) = length hs) as -> by (unfold len; lia). exact Hp.
Qed.

Lemma encode_parse_batch tag ver max hs script :
  wf_bytes script -> max <= 65535 ->
  parse_header_batch tag ver max script = Ok hs ->
  Forall wf_spv_header hs /\ encode_header_batch tag ver max hs = Ok script.
Proof.
  intros Hw Hmax H. unfold parse_header_batch in H. invert_parser H.
  subst_tags. apply orb_false_iff in Heqb2 as [Hc0 Hc1].
  assert (u8 a1 /\ u8 a2) as [Hu1 Hu2] by (split; by eapply idx_u8).
  set (cnt := le_val [a1; a2]) in *.
  assert (0 <= cnt < 65536) as Hcnt.
  { apply (arr_le_val 2 [a1; a2]). split; [done|]. by do 2 (constructor; [done|]); constructor. }
  apply encode_batch_parse in H as (Hf & Hn & Hs); [|done|lia|lia].
  split; [done|]. unfold encode_header_batch.
  assert (len hs = cnt) as -> by (unfold len; rewrite Hn; lia).
  rewrite Hc0, Hc1. cbv zeta. f_equal. unfold as_u16. rewrite Z.mod_small by lia.
  assert (le_bytes 2 cnt = [a1; a2]) as ->.
  { apply (le_bytes_val_n 2). split; [done|]. by do 2 (constructor; [done|]); constructor. }
  change [a1; a2] with ([a1] ++ [a2]). rewrite <- app_assoc.
  eapply (slice_full_inv (E := string)).
  - eapply slice_cat; [eapply idx_slice; [eassumption|reflexivity]|].
    eapply slice_cat; [eapply idx_slice; [eassumption|reflexivity]|].
    eapply slice_cat; [eapply idx_slice; [eassumption|reflexivity]|].
    eapply slice_cat; [eapply idx_slice; [eassumption|reflexivity]|].
    cbn [Z.add Pos.add Pos.succ]. exact Hs.
  - rewrite Z2Nat.id by lia. lia.
Qed.

(** ** Properties *)

(** A header batch round-trips through its output script, for Bitcoin and
    for Litecoin: parsing the script of a batch gives the headers back, and
    every script the parser accepts is the encoding of the headers it returns
    (no two scripts carry the same batch). *)
Theorem header_batch_roundtrip hs script :
  Forall wf_spv_header hs -> wf_bytes script ->
  (encode_btc_header_batch hs = Ok script <-> parse_btc_header_batch script = Ok hs) /\
  (encode_ltc_header_batch hs = Ok script <-> parse_ltc_header_batch script = Ok hs).
Proof.
  intros Hw Hs. split; split; intros H;
    first [ by eapply parse_encode_batch | by eapply encode_parse_batch ].
Qed.

Definition sample_spv_header (prev : bytes) (t b : Z) : SpvHeader :=
  {| sh_version := 1; sh_prev_hash := prev; sh_merkle_root := replicate 32 6;
     sh_time := t; sh_bits := b; sh_nonce := 42 |}.

Lemma header_batch_roundtrip_witness :
  let h := sample_spv_header (replicate 32 5) 1000 0x207fffff in
  let script := [0xc4; 1; 1; 0] ++ spv_serialize h in
  encode_btc_header_batch [h] = Ok script /\ parse_btc_header_batch script = Ok [h].
Proof.
  intros h script. assert (encode_btc_header_batch [h] = Ok script) as He by reflexivity.
  split; [done|]. apply (header_batch_roundtrip [h] script).
  - constructor; [|constructor]. unfold wf_spv_header. wf_compute.
  - wf_compute.
  - done.
Defined.

(** C32: Applying a header batch keeps the relay consistent and is reversible:
    from a consistent state (every stored header is filed under its hash, hangs
    off the anchor or a stored header one lower with work adding up, the height
    map agrees, and the tip is the heaviest header) a successful batch, Bitcoin
    or Litecoin, leads to a consistent state, and undoing its update record
    restores the old state exactly. *)
Theorem relay_apply_undo `{C : Crypto} anchor headers bt rt st upd st' :
  relay_inv anchor st ->
  apply_btc_header_batch headers bt anchor st = Ok (upd, st') \/
  apply_ltc_header_batch headers bt anchor rt st = Ok (upd, st') ->
  relay_inv anchor st' /\ undo_relay_update upd st' = st.
Proof. intros Hi [H|H]; [by eapply apply_btc_inv | by eapply apply_ltc_inv]. Qed.

Definition sample_anchor : SpvAnchor :=
  {| a_hash := replicate 32 3; a_height := 2015; a_bits := 0x207fffff; a_time := 900 |}.

(** A batch of one header on the anchor, with a target every hash meets. *)
Definition sample_batch : list SpvHeader := [sample_spv_header (replicate 32 3) 1000 0x2200ffff].

Definition sample_relay : RelayUpdate * RelayState :=
  match apply_btc_header_batch sample_batch 1000 sample_anchor RelayState_new with
  | Ok x => x
  | _ => no_update RelayState_new
  end.

Lemma relay_apply_undo_witness :
  relay_inv sample_anchor sample_relay.2 /\
  undo_relay_update sample_relay.1 sample_relay.2 = RelayState_new.
Proof.
  apply (relay_apply_undo sample_anchor sample_batch 1000 LITECOIN RelayState_new
           sample_relay.1 sample_relay.2 (relay_inv_new _)).
  left. vm_compute. reflexivity.
Defined.

(** Validating a header batch always ends: from a consistent state neither
    relay panics, and in particular the walk back to the start of a retarget
    window stops within the window. *)
Theorem relay_apply_total `{C : Crypto} anchor headers bt rt st :
  relay_inv anchor st -> 0 <= rt_window rt ->
  apply_btc_header_batch headers bt anchor st <> Panic /\
  apply_ltc_header_batch headers bt anchor rt st <> Panic.
Proof. intros Hi Hw. split; [by apply apply_btc_total | by apply apply_ltc_total]. Qed.

Lemma relay_apply_total_witness :
  apply_btc_header_batch sample_batch 1000 sample_anchor RelayState_new <> Panic /\
  apply_ltc_header_batch sample_batch 1000 sample_anchor LITECOIN RelayState_new <> Panic.
Proof.
  apply (relay_apply_total sample_anchor sample_batch 1000 LITECOIN RelayState_new
           (relay_inv_new _)). vm_compute. congruence.
Defined.

(** The difficulty of a relayed Bitcoin header is unchecked at the first
    retarget boundary behind the anchor: a header of that height on a known
    parent is accepted whatever target it claims, as long as its hash meets
    that target and its time is in range, and it is filed under its height even
    when the relay already knows other headers of that height. *)
Theorem btc_boundary_accepts_any_bits `{C : Crypto} anchor st hd ph pw bt :
  anchor_is_zero anchor = false ->
  start_of anchor (rl_headers st) (sh_prev_hash hd) = Ok (ph, pw) ->
  rl_headers st !! block_hash hd = None ->
  0 <= ph -> (ph + 1) mod BTC_RETARGET_INTERVAL = 0 ->
  ph + 1 - BTC_RETARGET_INTERVAL < a_height anchor ->
  meets_target_btc (block_hash hd) {| bits := sh_bits hd |} = true ->
  median_time_past_v (sh_prev_hash hd) (view_get (rl_headers st) []) anchor < sh_time hd ->
  sh_time hd <= Z.min U32_MAX (bt + BTC_MAX_FUTURE_TIME_SECS) ->
  exists upd st', apply_btc_header_batch [hd] bt anchor st = Ok (upd, st') /\
    rl_headers st' !! block_hash hd =
      Some {| e_header := hd; e_height := ph + 1; e_work := pw + work_for_bits (sh_bits hd) |} /\
    rl_heights st' !! block_hash hd = Some (ph + 1).
Proof.
  intros Ha Hs Hf Hp Hm Hb Hpow Ht1 Ht2. unfold apply_btc_header_batch. rewrite Ha, Hs. bind_simpl.
  assert (matches (rl_headers st) hd (ph + 1) = None) as Hmt by (unfold matches; by rewrite Hf).
  assert (beqb (sh_prev_hash hd) (sh_prev_hash hd) = true) as Hbq by (by apply bool_decide_eq_true).
  cbn [all_known]. rewrite Hbq, Hmt. cbn [negb]. unfold apply_from. cbn [skip_known].
  rewrite Hbq, Hmt. cbn [negb]. change (0 =? len [hd]) with false. cbn [andb Z.ltb Z.compare].
  cbn [stage]. rewrite Hbq. cbn [negb]. rewrite bool_decide_false by (rewrite Hf; by intros []).
  cbn [existsb]. rewrite Hpow. cbn [negb].
  assert (btc_expected_bits_for_v anchor (ph + 1) (sh_prev_hash hd) (view_get (rl_headers st) [])
          = Err WindowBeforeAnchor) as ->.
  { unfold btc_expected_bits_for_v. replace (ph + 1 =? 0) with false by lia.
    assert (exists x, parent_info (sh_prev_hash hd) (view_get (rl_headers st) []) anchor = Ok x)
      as ([pb pt] & ->).
    { unfold parent_info, view_get, start_of in *. destruct (beqb _ _); [by eexists|].
      destruct (rl_headers st !! sh_prev_hash hd); [by eexists|done]. }
    bind_simpl. rewrite Hm. cbn [Z.eqb negb]. cbv zeta.
    by replace (ph + 1 - BTC_RETARGET_INTERVAL <? a_height anchor) with true by lia. }
  bind_simpl. cbv iota zeta.
  destruct (sh_time hd <=? _) eqn:?; [lia|]. destruct (_ <? sh_time hd) eqn:?; [lia|].
  bind_simpl. unfold commit. cbn [app last]. eexists _, _. split; [reflexivity|].
  cbn [rl_headers rl_heights commit_headers commit_heights fold_left].
  by rewrite !lookup_insert_eq.
Qed.

Lemma btc_boundary_accepts_any_bits_witness :
  let hd := sample_spv_header (replicate 32 3) 1000 0x2200ffff in
  exists upd st', apply_btc_header_batch [hd] 1000 sample_anchor RelayState_new = Ok (upd, st') /\
    rl_headers st' !! block_hash hd =
      Some {| e_header := hd; e_height := 2015 + 1;
              e_work := work_for_bits 0x207fffff + work_for_bits (sh_bits hd) |} /\
    rl_heights st' !! block_hash hd = Some (2015 + 1).
Proof.
  intros hd. apply (btc_boundary_accepts_any_bits sample_anchor RelayState_new hd 2015
                      (work_for_bits 0x207fffff) 1000); vm_compute; congruence || reflexivity.
Defined.
