(* ===== verification/Spend.v ===== *)
(** * Spend: which outputs may be created and who may spend them
    ([src/src/chain.rs]: [validate_output], [verify_transaction_signature] and
    what they call; [compute_funding_binding] of [src/src/tx.rs])

    [verify_transaction_signature] returns a [bool] and appends to the lists of
    foreign outpoints a block has used up.  Its [return false] is [NoneR] here,
    its [true] is [Ok] of the two lists, and [Panic] is a panic.

    Shown here: what a successful spend of each kind of output proves (which
    key signed, which secret was shown, which timeout had passed, how many
    distinct co-signers there were, which foreign payment was proved), that a
    foreign payment pays once, that claims and refunds of a multi-party output
    exclude each other, and two ways in which a spend proves less than it
    should. *)

From S2P Require Import Prelude Crypto Pow Script TxCodec Witness Constants Merkle BtcTx Spv.

(** ** Limits ([src/src/tx.rs]) *)
Definition BTC_OP_RETURN_BINDING_MAGIC : bytes := [0x69; 0x72; 0x6d; 0x73; 0x77; 0x70].
Definition LTC_OP_RETURN_BINDING_MAGIC : bytes := [0x69; 0x72; 0x6d; 0x6c; 0x73; 0x77].
Definition MIN_HTLC_BTC_SWAP_CONFIRMATIONS : Z := 1.
Definition MAX_HTLC_BTC_SWAP_CONFIRMATIONS : Z := 144.
Definition MIN_HTLC_LTC_SWAP_CONFIRMATIONS : Z := 1.
Definition MAX_HTLC_LTC_SWAP_CONFIRMATIONS : Z := 144.
Definition SWAP_ORDER_MIN_LOCKED_VALUE : Z := 1100.
Definition SWAP_ORDER_MAX_SWEEP_FEE : Z := 1000.
Definition LTC_SWAP_ORDER_MIN_LOCKED_VALUE : Z := 1100.
Definition LTC_SWAP_ORDER_MAX_SWEEP_FEE : Z := 1000.

(** Which rules are active at the height of the spend. *)
Record Active := {
  htlcv1_active : bool;
  mpsov1_active : bool;
  btc_spv_relay_active : bool;
  ltc_spv_relay_active : bool;
  htlc_btc_swap_v1_active : bool;
  btc_swap_bech32_payment_active : bool;
  htlc_ltc_swap_v1_active : bool;
  swap_order_v1_active : bool;
  ltc_swap_order_v1_active : bool
}.

(** A foreign outpoint: txid and index. *)
Abbreviation ForeignOut := (bytes * Z)%type.

Record ConsensusView := {
  v_btc : RelayState;
  v_claimed_btc : gset ForeignOut;
  v_ltc : RelayState;
  v_claimed_ltc : gset ForeignOut
}.

Definition is_coinbase (tx : Transaction) : bool :=
  match tx_inputs tx with
  | [i] => beqb (prev_txid i) (zeros 32) && (prev_index i =? 0xffffffff)
  | _ => false
  end.

Section spend.
Context `{C : Crypto}.

Definition compute_funding_binding (funding_txid : bytes) (vout : Z) : bytes :=
  take 8 (sha256d (funding_txid ++ le_bytes 4 vout)).

(** ** Creating outputs *)
Definition validate_mpso_pubkeys_on_curve (mpso : MpsoV1Output) : res string unit :=
  if forallb (fun pk => match VerifyingKey_from_sec1_bytes pk with Some _ => true | None => false end)
       (mp_claim_pubkeys mpso ++ mp_refund_pubkeys mpso)
  then Ok tt
  else Err "MPSOv1 output contains invalid secp256k1 pubkey"%string.

(** [parser(..).ok_or_else(|| msg)?] *)
Definition parsed {A} (m : opt A) (msg : string) : res string A := map_err (fun _ => msg) m.

Definition has_tag (output : TxOutput) (tag : Z) : bool :=
  match head (script_pubkey output) with Some b => b =? tag | None => false end.

Definition validate_mpso_output (a : Active) (height : Z) (output : TxOutput) : res string unit :=
  if negb (mpsov1_active a) then Err "MPSOv1 output before activation"%string else
  if 640 <? len (script_pubkey output) then Err "MPSOv1 script_pubkey too large"%string else
  mpso ← parsed (parse_mpso_script (script_pubkey output)) "Malformed MPSOv1 output";
  _ ← validate_mpso_pubkeys_on_curve mpso;
  if mp_timeout_height mpso <=? height
  then Err "MPSOv1 timeout_height must be greater than current height"%string else
  Ok tt.

Definition validate_btc_batch_output (a : Active) (output : TxOutput) : res string unit :=
  if negb (btc_spv_relay_active a)
  then Err "BtcHeaderBatch output before SPV relay activation"%string else
  if negb (value output =? 0) then Err "BtcHeaderBatch output must have value 0"%string else
  if MAX_BTC_HEADER_BATCH_BYTES <? len (script_pubkey output)
  then Err "BtcHeaderBatch script_pubkey too large"%string else
  _ ← map_err (String.append "Malformed BtcHeaderBatch: ") (parse_btc_header_batch (script_pubkey output));
  Ok tt.

Definition validate_ltc_batch_output (a : Active) (output : TxOutput) : res string unit :=
  if negb (ltc_spv_relay_active a)
  then Err "LtcHeaderBatch output before SPV relay activation"%string else
  if negb (value output =? 0) then Err "LtcHeaderBatch output must have value 0"%string else
  if MAX_LTC_HEADER_BATCH_BYTES <? len (script_pubkey output)
  then Err "LtcHeaderBatch script_pubkey too large"%string else
  _ ← map_err (String.append "Malformed LtcHeaderBatch: ") (parse_ltc_header_batch (script_pubkey output));
  Ok tt.

Definition validate_htlcv1_output (a : Active) (output : TxOutput) : res string unit :=
  if negb (htlcv1_active a) then Err "HTLCv1 output before activation"%string else
  _ ← parsed (parse_htlcv1_script (script_pubkey output)) "Malformed HTLCv1 output";
  Ok tt.

Definition validate_btc_swap_output (a : Active) (height : Z) (output : TxOutput) : res string unit :=
  if negb (htlc_btc_swap_v1_active a) then Err "HtlcBtcSwapV1 output before activation"%string else
  if negb (len (script_pubkey output) =? HTLC_BTC_SWAP_V1_SCRIPT_LEN)
  then Err "HtlcBtcSwapV1 script wrong size"%string else
  swap ← parsed (parse_htlc_btc_swap_v1_script (script_pubkey output)) "Malformed HtlcBtcSwapV1 output";
  if (hb_confirmations_required swap <? MIN_HTLC_BTC_SWAP_CONFIRMATIONS)
     || (MAX_HTLC_BTC_SWAP_CONFIRMATIONS <? hb_confirmations_required swap)
  then Err "HtlcBtcSwapV1 confirmations_required out of allowed range"%string else
  if hb_timeout_height swap <=? height
  then Err "HtlcBtcSwapV1 timeout_height must exceed current height"%string else
  Ok tt.

Definition validate_ltc_swap_output (a : Active) (height : Z) (output : TxOutput) : res string unit :=
  if negb (htlc_ltc_swap_v1_active a) then Err "HtlcLtcSwapV1 output before activation"%string else
  if negb (len (script_pubkey output) =? HTLC_LTC_SWAP_V1_SCRIPT_LEN)
  then Err "HtlcLtcSwapV1 script wrong size"%string else
  swap ← parsed (parse_htlc_ltc_swap_v1_script (script_pubkey output)) "Malformed HtlcLtcSwapV1 output";
  if (hl_confirmations_required swap <? MIN_HTLC_LTC_SWAP_CONFIRMATIONS)
     || (MAX_HTLC_LTC_SWAP_CONFIRMATIONS <? hl_confirmations_required swap)
  then Err "HtlcLtcSwapV1 confirmations_required out of allowed range"%string else
  if hl_timeout_height swap <=? height
  then Err "HtlcLtcSwapV1 timeout_height must exceed current height"%string else
  Ok tt.

Definition validate_swap_order_output (a : Active) (height : Z) (output : TxOutput) : res string unit :=
  if negb (swap_order_v1_active a) then Err "SwapOrder output before activation"%string else
  if negb (len (script_pubkey output) =? SWAP_ORDER_SELL_SCRIPT_LEN)
     && negb (len (script_pubkey output) =? SWAP_ORDER_BUY_SCRIPT_LEN)
  then Err "SwapOrder script wrong size"%string else
  order ← parsed (parse_swap_order_script (script_pubkey output)) "Malformed SwapOrder output";
  if so_expiry_height order <=? height
  then Err "SwapOrder expiry_height must exceed current height"%string else
  if value output <? SWAP_ORDER_MIN_LOCKED_VALUE
  then Err "SwapOrder locked value below minimum"%string else
  if so_direction order =? SWAP_ORDER_DIRECTION_SELL then
    if negb (value output =? so_irm_amount order)
    then Err "Sell-IRM SwapOrder output value must equal irm_amount"%string else
    if (so_confirmations_required order <? MIN_HTLC_BTC_SWAP_CONFIRMATIONS)
       || (MAX_HTLC_BTC_SWAP_CONFIRMATIONS <? so_confirmations_required order)
    then Err "SwapOrder confirmations_required out of range"%string else
    Ok tt
  else Ok tt.

Definition validate_ltc_swap_order_output (a : Active) (height : Z) (output : TxOutput)
    : res string unit :=
  if negb (ltc_swap_order_v1_active a) then Err "LtcSwapOrder output before activation"%string else
  if negb (len (script_pubkey output) =? LTC_SWAP_ORDER_SELL_SCRIPT_LEN)
     && negb (len (script_pubkey output) =? LTC_SWAP_ORDER_BUY_SCRIPT_LEN)
  then Err "LtcSwapOrder script wrong size"%string else
  order ← parsed (parse_ltc_swap_order_script (script_pubkey output)) "Malformed LtcSwapOrder output";
  if lo_expiry_height order <=? height
  then Err "LtcSwapOrder expiry_height must exceed current height"%string else
  if value output <? LTC_SWAP_ORDER_MIN_LOCKED_VALUE
  then Err "LtcSwapOrder locked value below minimum"%string else
  if lo_direction order =? LTC_SWAP_ORDER_DIRECTION_SELL then
    if negb (value output =? lo_irm_amount order)
    then Err "Sell-IRM LtcSwapOrder output value must equal irm_amount"%string else
    if (lo_confirmations_required order <? MIN_HTLC_LTC_SWAP_CONFIRMATIONS)
       || (MAX_HTLC_LTC_SWAP_CONFIRMATIONS <? lo_confirmations_required order)
    then Err "LtcSwapOrder confirmations_required out of range"%string else
    Ok tt
  else Ok tt.

(** [validate_output]: one block per tag; the tags are different, so at most
    one of the later blocks runs. *)
Definition validate_output (a : Active) (height : Z) (output : TxOutput) : res string unit :=
  if MAX_MONEY <? value output then Err "Output value out of range"%string else
  if has_tag output MPSO_V1_TAG then validate_mpso_output a height output else
  if has_tag output BTC_HEADER_BATCH_TAG then validate_btc_batch_output a output else
  if has_tag output LTC_HEADER_BATCH_TAG then validate_ltc_batch_output a output else
  if 0xff <? len (script_pubkey output) then Err "script_pubkey too large"%string else
  _ ← (if has_tag output HTLC_V1_SCRIPT_TAG then validate_htlcv1_output a output else Ok tt);
  _ ← (if has_tag output HTLC_BTC_SWAP_V1_TAG then validate_btc_swap_output a height output else Ok tt);
  _ ← (if has_tag output HTLC_LTC_SWAP_V1_TAG then validate_ltc_swap_output a height output else Ok tt);
  _ ← (if has_tag output SWAP_ORDER_V1_TAG then validate_swap_order_output a height output else Ok tt);
  (if has_tag output LTC_SWAP_ORDER_V1_TAG then validate_ltc_swap_order_output a height output
   else Ok tt).

(** ** Signatures *)

(** The inputs with [script_pubkey] as the script of the signed one and no
    script in the others. *)
Fixpoint digest_inputs (inputs : list TxInput) (idx input_index : Z) (script_pubkey : bytes)
    : list TxInput :=
  match inputs with
  | [] => []
  | i :: inputs =>
      {| prev_txid := prev_txid i; prev_index := prev_index i;
         script_sig := if idx =? input_index then script_pubkey else [];
         sequence := sequence i |}
      :: digest_inputs inputs (idx + 1) input_index script_pubkey
  end.

Definition signature_digest (tx : Transaction) (input_index : Z) (script_pubkey : bytes) : bytes :=
  let tx_copy :=
    {| tx_version := tx_version tx;
       tx_inputs := digest_inputs (tx_inputs tx) 0 input_index script_pubkey;
       tx_outputs := tx_outputs tx;
       tx_locktime := tx_locktime tx |} in
  sha256d (serialize tx_copy ++ le_bytes 4 1).

Definition verify_sig_with_pubkey (tx : Transaction) (input_index : Z)
    (script_pubkey sig pubkey : bytes) : bool :=
  if (len sig <? 2) || negb (bool_decide (last sig = Some 0x01)) then false else
  if negb ((len pubkey =? 33) || (len pubkey =? 65)) then false else
  if len (tx_inputs tx) <=? input_index then false else
  let der := take (length sig - 1) sig in
  match Signature_from_der der with
  | None => false
  | Some signature =>
      if normalize_s_is_some signature then false else
      match VerifyingKey_from_sec1_bytes pubkey with
      | None => false
      | Some vk => verify_prehash vk (signature_digest tx input_index script_pubkey) signature
      end
  end.

(** [if !b { return false; }] *)
Definition require (b : bool) : opt unit := if b then Ok tt else NoneR.

(** ** Multi-party outputs *)
Definition valid_mask (n : Z) : Z := if n =? 8 then 0xff else Z.shiftl 1 n - 1.

(** [u8::count_ones] *)
Definition count_ones (b : Z) : Z :=
  len (filter (fun i => Z.testbit b i = true) (seqZ 0 8)).

(** The signature loop over the keys [keys], of indices [i ..]: the position
    behind the signatures read. *)
Fixpoint verify_mpso_sigs (tx : Transaction) (input_index : Z) (scriptcode script_sig : bytes)
    (bitmap : Z) (keys : list bytes) (i pos : Z) : opt Z :=
  match keys with
  | [] => Ok pos
  | key :: keys =>
      if Z.land bitmap (Z.shiftl 1 i) =? 0
      then verify_mpso_sigs tx input_index scriptcode script_sig bitmap keys (i + 1) pos else
      if len script_sig <=? pos then NoneR else
      sig_len ← idx script_sig pos;
      let pos := pos + 1 in
      if (sig_len =? 0) || (len script_sig <? pos + sig_len) then NoneR else
      sig ← slice script_sig pos (pos + sig_len);
      let pos := pos + sig_len in
      _ ← require (verify_sig_with_pubkey tx input_index scriptcode sig key);
      verify_mpso_sigs tx input_index scriptcode script_sig bitmap keys (i + 1) pos
  end.

(** The part the claim and the refund share: the bitmap and the signatures.
    [keys] has [n] entries, so the loop over [0 .. n] visits them in order. *)
Definition verify_mpso_quorum (tx : Transaction) (input_index : Z) (scriptcode script_sig : bytes)
    (keys : list bytes) (n m : Z) : opt Z :=
  if len script_sig <? 2 then NoneR else
  bitmap ← idx script_sig 1;
  if negb (Z.land bitmap (Z.lxor (valid_mask n) 0xff) =? 0) then NoneR else
  if negb (count_ones bitmap =? m) then NoneR else
  verify_mpso_sigs tx input_index scriptcode script_sig bitmap (take (Z.to_nat n) keys) 0 2.

Definition verify_mpso_secret (mpso : MpsoV1Output) (script_sig : bytes) (pos : Z) : opt Z :=
  if Z.land (mp_flags mpso) 0x01 =? 0 then Ok pos else
  if len script_sig <=? pos then NoneR else
  pre_len ← idx script_sig pos;
  let pos := pos + 1 in
  if (pre_len =? 0) || (64 <? pre_len) then NoneR else
  if len script_sig <? pos + pre_len then NoneR else
  preimage ← slice script_sig pos (pos + pre_len);
  let pos := pos + pre_len in
  match mp_optional_hash mpso with
  | None => Panic
  | Some expected => _ ← require (beqb (sha256 preimage) expected); Ok pos
  end.

Definition verify_mpso (tx : Transaction) (input_index : Z) (txin : TxInput) (spend_height : Z)
    (mpso : MpsoV1Output) : opt unit :=
  let script_sig := script_sig txin in
  if MPSO_V1_MAX_WITNESS_SIZE <? len script_sig then NoneR else
  if len script_sig =? 0 then NoneR else
  let scriptcode := encode_mpso_script mpso in
  mode ← idx script_sig 0;
  if mode =? 0x01 then
    if mp_timeout_height mpso <=? spend_height then NoneR else
    pos ← verify_mpso_quorum tx input_index scriptcode script_sig
            (mp_claim_pubkeys mpso) (mp_claim_n mpso) (mp_claim_m mpso);
    pos ← verify_mpso_secret mpso script_sig pos;
    require (pos =? len script_sig)
  else if mode =? 0x02 then
    if spend_height <? mp_timeout_height mpso then NoneR else
    pos ← verify_mpso_quorum tx input_index scriptcode script_sig
            (mp_refund_pubkeys mpso) (mp_refund_n mpso) (mp_refund_m mpso);
    require (pos =? len script_sig)
  else NoneR.

(** ** Plain and hash-locked outputs *)
Definition verify_p2pkh (tx : Transaction) (input_index : Z) (txin : TxInput) (utxo : TxOutput)
    (expected_pkh : bytes) : opt unit :=
  witness ← parse_input_witness (script_sig txin);
  match witness with
  | WitP2pkh sig pubkey =>
      if negb (beqb (hash160 pubkey) expected_pkh) then NoneR else
      require (verify_sig_with_pubkey tx input_index (script_pubkey utxo) sig pubkey)
  | _ => NoneR
  end.

Definition verify_htlcv1 (tx : Transaction) (input_index : Z) (txin : TxInput) (spend_height : Z)
    (htlc : HtlcV1Output) : opt unit :=
  witness ← parse_input_witness (script_sig txin);
  match witness with
  | WitHtlcClaim sig pubkey preimage =>
      if (len preimage =? 0) || (64 <? len preimage) then NoneR else
      if negb (beqb (sha256 preimage) (h1_expected_hash htlc)) then NoneR else
      if negb (beqb (hash160 pubkey) (h1_recipient_pkh htlc)) then NoneR else
      require (verify_sig_with_pubkey tx input_index (encode_htlcv1_script htlc) sig pubkey)
  | WitHtlcRefund sig pubkey =>
      if spend_height <? h1_timeout_height htlc then NoneR else
      if negb (beqb (hash160 pubkey) (h1_refund_pkh htlc)) then NoneR else
      require (verify_sig_with_pubkey tx input_index (encode_htlcv1_script htlc) sig pubkey)
  | _ => NoneR
  end.

(** ** Foreign payments

    The loop of a claim over the outputs of the foreign transaction: whether
    one of them pays, and the index of the [OP_RETURN] output with the
    expected payload; a second such output ends the claim. *)
Fixpoint scan_payment (p2wpkh_ok : bool) (recipient : bytes) (amount : Z) (expected_payload : bytes)
    (outs : list BtcTxOutputView) (pays : bool) (op_return_vout : option Z) : opt (bool * option Z) :=
  match outs with
  | [] => Ok (pays, op_return_vout)
  | o :: outs =>
      match btc_script o with
      | BtcP2pkh pkh =>
          scan_payment p2wpkh_ok recipient amount expected_payload outs
            (if beqb pkh recipient && (amount <=? btc_value o) then true else pays) op_return_vout
      | BtcP2wpkh pkh =>
          scan_payment p2wpkh_ok recipient amount expected_payload outs
            (if p2wpkh_ok && beqb pkh recipient && (amount <=? btc_value o) then true else pays)
            op_return_vout
      | OpReturn data =>
          if beqb data expected_payload then
            match op_return_vout with
            | Some _ => NoneR
            | None =>
                scan_payment p2wpkh_ok recipient amount expected_payload outs pays (Some (btc_vout o))
            end
          else scan_payment p2wpkh_ok recipient amount expected_payload outs pays op_return_vout
      | Other => scan_payment p2wpkh_ok recipient amount expected_payload outs pays op_return_vout
      end
  end.

(** The part the Bitcoin and the Litecoin claim share: from the lookup of the
    block to the test against the outpoints used in this block. *)
Definition check_payment (relay : RelayState) (claimed : gset ForeignOut) (used : list ForeignOut)
    (confirmations_required : Z) (p2wpkh_ok : bool) (recipient : bytes) (amount : Z)
    (expected_payload : bytes) (blk : bytes) (branch : list bytes) (index : Z) (tx_raw : bytes)
    : opt ForeignOut :=
  proof_height ← ok_or (rl_heights relay !! blk) tt;
  let confs := sat_sub (sat_add64 (rl_tip_height relay) 1) proof_height in
  if confs <? confirmations_required then NoneR else
  header_entry ← ok_or (rl_headers relay !! blk) tt;
  txid_val ← map_err (fun _ => tt) (btc_txid tx_raw);
  let computed_root := compute_merkle_root txid_val branch index in
  if negb (beqb computed_root (sh_merkle_root (e_header header_entry))) then NoneR else
  outs ← map_err (fun _ => tt) (parse_btc_tx_outputs tx_raw);
  '(pays, op_return_vout) ← scan_payment p2wpkh_ok recipient amount expected_payload outs false None;
  if negb pays then NoneR else
  vout ← ok_or op_return_vout tt;
  let consumed := (txid_val, vout) in
  if bool_decide (consumed ∈ claimed) then NoneR else
  if bool_decide (consumed ∈ used) then NoneR else
  Ok consumed.

Definition verify_btc_swap (a : Active) (tx : Transaction) (input_index : Z) (txin : TxInput)
    (spend_height : Z) (view : ConsensusView) (used : list ForeignOut) (swap : HtlcBtcSwapV1Output)
    : opt (list ForeignOut) :=
  witness ← parse_htlc_btc_swap_witness (script_sig txin);
  let scriptcode := encode_htlc_btc_swap_v1_script swap in
  match witness with
  | HbClaim sig pubkey blk branch index tx_raw =>
      consumed ← check_payment (v_btc view) (v_claimed_btc view) used (hb_confirmations_required swap)
        (btc_swap_bech32_payment_active a) (hb_btc_recipient_pkh swap) (hb_btc_amount_sats swap)
        (BTC_OP_RETURN_BINDING_MAGIC ++ hb_funding_binding swap) blk branch index tx_raw;
      if negb (beqb (hash160 pubkey) (hb_recipient_pkh swap)) then NoneR else
      _ ← require (verify_sig_with_pubkey tx input_index scriptcode sig pubkey);
      Ok (used ++ [consumed])
  | HbRefund sig pubkey =>
      if spend_height <? hb_timeout_height swap then NoneR else
      if negb (beqb (hash160 pubkey) (hb_refund_pkh swap)) then NoneR else
      _ ← require (verify_sig_with_pubkey tx input_index scriptcode sig pubkey);
      Ok used
  end.

Definition verify_ltc_swap (tx : Transaction) (input_index : Z) (txin : TxInput)
    (spend_height : Z) (view : ConsensusView) (used : list ForeignOut) (swap : HtlcLtcSwapV1Output)
    : opt (list ForeignOut) :=
  witness ← parse_htlc_ltc_swap_witness (script_sig txin);
  let scriptcode := encode_htlc_ltc_swap_v1_script swap in
  match witness with
  | HlClaim sig pubkey blk branch index tx_raw =>
      consumed ← check_payment (v_ltc view) (v_claimed_ltc view) used (hl_confirmations_required swap)
        true (hl_ltc_recipient_pkh swap) (hl_ltc_amount_sats swap)
        (LTC_OP_RETURN_BINDING_MAGIC ++ hl_funding_binding swap) blk branch index tx_raw;
      if negb (beqb (hash160 pubkey) (hl_recipient_pkh swap)) then NoneR else
      _ ← require (verify_sig_with_pubkey tx input_index scriptcode sig pubkey);
      Ok (used ++ [consumed])
  | HlRefund sig pubkey =>
      if spend_height <? hl_timeout_height swap then NoneR else
      if negb (beqb (hash160 pubkey) (hl_refund_pkh swap)) then NoneR else
      _ ← require (verify_sig_with_pubkey tx input_index scriptcode sig pubkey);
      Ok used
  end.

(** ** Swap orders *)

(** [tx.outputs[0]] has the script and the value a fill asks for; a
    transaction without outputs is refused. *)
Definition pays_first (tx : Transaction) (script : bytes) (amount : Z) : opt unit :=
  match tx_outputs tx with
  | [] => NoneR
  | o :: _ =>
      if negb (beqb (script_pubkey o) script) then NoneR else
      if negb (value o =? amount) then NoneR else Ok tt
  end.

(** The sweep of an expired order. *)
Definition sweep_first (tx : Transaction) (utxo : TxOutput) (spend_height expiry : Z)
    (maker_pkh : bytes) (max_fee : Z) : opt unit :=
  if spend_height <? expiry then NoneR else
  match tx_outputs tx with
  | [] => NoneR
  | o :: _ =>
      if negb (beqb (script_pubkey o) (p2pkh_script maker_pkh)) then NoneR else
      let minimum_payout := sat_sub (value utxo) max_fee in
      if value o <? minimum_payout then NoneR else Ok tt
  end.

Definition verify_swap_order (tx : Transaction) (input_index : Z) (txin : TxInput) (utxo : TxOutput)
    (spend_height : Z) (order : SwapOrderOutput) : opt unit :=
  witness ← parse_swap_order_witness (script_sig txin) (so_direction order);
  let scriptcode := encode_swap_order_script order in
  match witness with
  | SoFillSell sig pubkey taker_iriumd_pkh timeout_height =>
      if negb (so_direction order =? SWAP_ORDER_DIRECTION_SELL) then NoneR else
      if so_expiry_height order <? spend_height then NoneR else
      if timeout_height <=? spend_height then NoneR else
      let expected :=
        {| hb_confirmations_required := so_confirmations_required order;
           hb_recipient_pkh := taker_iriumd_pkh;
           hb_refund_pkh := so_maker_iriumd_pkh order;
           hb_btc_recipient_pkh := so_maker_btc_pkh order;
           hb_btc_amount_sats := so_btc_amount_sats order;
           hb_timeout_height := timeout_height;
           hb_funding_binding := compute_funding_binding (prev_txid txin) (prev_index txin) |} in
      _ ← pays_first tx (encode_htlc_btc_swap_v1_script expected) (so_irm_amount order);
      require (verify_sig_with_pubkey tx input_index scriptcode sig pubkey)
  | SoFillBuy sig pubkey irm_timeout_height =>
      if negb (so_direction order =? SWAP_ORDER_DIRECTION_BUY) then NoneR else
      if so_expiry_height order <? spend_height then NoneR else
      if irm_timeout_height <=? spend_height then NoneR else
      if len (tx_outputs tx) =? 0 then NoneR else
      expected_hash ← ok_or (so_expected_hash order) tt;
      let expected_htlc :=
        {| h1_expected_hash := expected_hash;
           h1_recipient_pkh := so_maker_iriumd_pkh order;
           h1_refund_pkh := hash160 pubkey;
           h1_timeout_height := irm_timeout_height |} in
      _ ← pays_first tx (encode_htlcv1_script expected_htlc) (so_irm_amount order);
      require (verify_sig_with_pubkey tx input_index scriptcode sig pubkey)
  | SoCancel sig pubkey =>
      if so_expiry_height order <=? spend_height then NoneR else
      if negb (beqb (hash160 pubkey) (so_maker_iriumd_pkh order)) then NoneR else
      require (verify_sig_with_pubkey tx input_index scriptcode sig pubkey)
  | SoExpireSweep =>
      sweep_first tx utxo spend_height (so_expiry_height order) (so_maker_iriumd_pkh order)
        SWAP_ORDER_MAX_SWEEP_FEE
  end.

Definition verify_ltc_swap_order (tx : Transaction) (input_index : Z) (txin : TxInput)
    (utxo : TxOutput) (spend_height : Z) (order : LtcSwapOrderOutput) : opt unit :=
  witness ← parse_ltc_swap_order_witness (script_sig txin) (lo_direction order);
  let scriptcode := encode_ltc_swap_order_script order in
  match witness with
  | LoFillSell sig pubkey taker_iriumd_pkh timeout_height =>
      if negb (lo_direction order =? LTC_SWAP_ORDER_DIRECTION_SELL) then NoneR else
      if lo_expiry_height order <? spend_height then NoneR else
      if timeout_height <=? spend_height then NoneR else
      let expected :=
        {| hl_confirmations_required := lo_confirmations_required order;
           hl_recipient_pkh := taker_iriumd_pkh;
           hl_refund_pkh := lo_maker_iriumd_pkh order;
           hl_ltc_recipient_pkh := lo_maker_ltc_pkh order;
           hl_ltc_amount_sats := lo_ltc_amount_sats order;
           hl_timeout_height := timeout_height;
           hl_funding_binding := compute_funding_binding (prev_txid txin) (prev_index txin) |} in
      _ ← pays_first tx (encode_htlc_ltc_swap_v1_script expected) (lo_irm_amount order);
      require (verify_sig_with_pubkey tx input_index scriptcode sig pubkey)
  | LoFillBuy sig pubkey irm_timeout_height =>
      if negb (lo_direction order =? LTC_SWAP_ORDER_DIRECTION_BUY) then NoneR else
      if lo_expiry_height order <? spend_height then NoneR else
      if irm_timeout_height <=? spend_height then NoneR else
      if len (tx_outputs tx) =? 0 then NoneR else
      expected_hash ← ok_or (lo_expected_hash order) tt;
      let expected_htlc :=
        {| h1_expected_hash := expected_hash;
           h1_recipient_pkh := lo_maker_iriumd_pkh order;
           h1_refund_pkh := hash160 pubkey;
           h1_timeout_height := irm_timeout_height |} in
      _ ← pays_first tx (encode_htlcv1_script expected_htlc) (lo_irm_amount order);
      require (verify_sig_with_pubkey tx input_index scriptcode sig pubkey)
  | LoCancel sig pubkey =>
      if lo_expiry_height order <=? spend_height then NoneR else
      if negb (beqb (hash160 pubkey) (lo_maker_iriumd_pkh order)) then NoneR else
      require (verify_sig_with_pubkey tx input_index scriptcode sig pubkey)
  | LoExpireSweep =>
      sweep_first tx utxo spend_height (lo_expiry_height order) (lo_maker_iriumd_pkh order)
        LTC_SWAP_ORDER_MAX_SWEEP_FEE
  end.

(** ** The dispatch *)
Definition when_active {A} (active : bool) (m : opt A) : opt A := if active then m else NoneR.

Definition verify_transaction_signature (a : Active) (tx : Transaction) (input_index : Z)
    (txin : TxInput) (utxo : TxOutput) (spend_height : Z) (view : ConsensusView)
    (btc_used ltc_used : list ForeignOut) : opt (list ForeignOut * list ForeignOut) :=
  enc ← parse_output_encumbrance (script_pubkey utxo);
  match enc with
  | EncP2pkh pkh =>
      _ ← verify_p2pkh tx input_index txin utxo pkh; Ok (btc_used, ltc_used)
  | EncHtlcV1 htlc =>
      _ ← when_active (htlcv1_active a) (verify_htlcv1 tx input_index txin spend_height htlc);
      Ok (btc_used, ltc_used)
  | EncMpsoV1 mpso =>
      _ ← when_active (mpsov1_active a) (verify_mpso tx input_index txin spend_height mpso);
      Ok (btc_used, ltc_used)
  | EncHtlcBtcSwapV1 swap =>
      btc_used ← when_active (htlc_btc_swap_v1_active a)
        (verify_btc_swap a tx input_index txin spend_height view btc_used swap);
      Ok (btc_used, ltc_used)
  | EncHtlcLtcSwapV1 swap =>
      ltc_used ← when_active (htlc_ltc_swap_v1_active a)
        (verify_ltc_swap tx input_index txin spend_height view ltc_used swap);
      Ok (btc_used, ltc_used)
  | EncSwapOrder order =>
      _ ← when_active (swap_order_v1_active a)
        (verify_swap_order tx input_index txin utxo spend_height order);
      Ok (btc_used, ltc_used)
  | EncLtcSwapOrder order =>
      _ ← when_active (ltc_swap_order_v1_active a)
        (verify_ltc_swap_order tx input_index txin utxo spend_height order);
      Ok (btc_used, ltc_used)
  | EncUnknown => NoneR
  end.
End spend.

(** ** The policy

    What a spend of each kind of output has to show, without the byte formats:
    [signed pk] says that the transaction carries a signature of [pk] over this
    input and the script of the output it spends. *)
Section policy.
Context `{C : Crypto}.

Definition pays_recipient (p2wpkh_ok : bool) (recipient : bytes) (amount : Z) (o : BtcTxOutputView)
    : Prop :=
  (btc_script o = BtcP2pkh recipient \/ p2wpkh_ok = true /\ btc_script o = BtcP2wpkh recipient) /\
  amount <= btc_value o.

(** The foreign transaction with the output [out] pays: it is in a block the
    relay knows, deep enough below the tip; one output pays the amount to the
    recipient, and exactly one output, [out], carries the payload. *)
Definition foreign_payment (relay : RelayState) (confs : Z) (p2wpkh_ok : bool) (recipient : bytes)
    (amount : Z) (payload : bytes) (out : ForeignOut) : Prop :=
  exists blk ph entry branch index raw outs,
    rl_heights relay !! blk = Some ph /\ (confs <= 0 \/ ph + confs <= rl_tip_height relay + 1) /\
    rl_headers relay !! blk = Some entry /\
    btc_txid raw = Ok out.1 /\
    compute_merkle_root out.1 branch index = sh_merkle_root (e_header entry) /\
    parse_btc_tx_outputs raw = Ok outs /\
    (exists o, o ∈ outs /\ pays_recipient p2wpkh_ok recipient amount o) /\
    exists pre o post, outs = pre ++ o :: post /\
      btc_script o = OpReturn payload /\ btc_vout o = out.2 /\
      Forall (fun o => btc_script o <> OpReturn payload) (pre ++ post).

(** [m] different keys of [keys] signed. *)
Definition quorum (signed : bytes -> Prop) (keys : list bytes) (m : Z) : Prop :=
  exists ks, ks `sublist_of` keys /\ NoDup ks /\ len ks = m /\ Forall signed ks.

Definition first_output (tx : Transaction) (script : bytes) (P : Z -> Prop) : Prop :=
  exists o rest, tx_outputs tx = o :: rest /\ script_pubkey o = script /\ P (value o).

Inductive policy (a : Active) (tx : Transaction) (txin : TxInput) (utxo : TxOutput) (height : Z)
    (view : ConsensusView) (signed : bytes -> Prop) : OutputEncumbrance -> Prop :=
| pol_p2pkh pkh pk :
    hash160 pk = pkh -> signed pk -> policy a tx txin utxo height view signed (EncP2pkh pkh)
| pol_htlc_claim o pk preimage :
    htlcv1_active a = true -> 1 <= len preimage <= 64 ->
    sha256 preimage = h1_expected_hash o -> hash160 pk = h1_recipient_pkh o -> signed pk ->
    policy a tx txin utxo height view signed (EncHtlcV1 o)
| pol_htlc_refund o pk :
    htlcv1_active a = true -> h1_timeout_height o <= height ->
    hash160 pk = h1_refund_pkh o -> signed pk ->
    policy a tx txin utxo height view signed (EncHtlcV1 o)
| pol_mpso_claim o :
    mpsov1_active a = true -> height < mp_timeout_height o ->
    quorum signed (mp_claim_pubkeys o) (mp_claim_m o) ->
    (forall h, mp_optional_hash o = Some h ->
       exists preimage, 1 <= len preimage <= 64 /\ sha256 preimage = h) ->
    policy a tx txin utxo height view signed (EncMpsoV1 o)
| pol_mpso_refund o :
    mpsov1_active a = true -> mp_timeout_height o <= height ->
    quorum signed (mp_refund_pubkeys o) (mp_refund_m o) ->
    policy a tx txin utxo height view signed (EncMpsoV1 o)
| pol_btc_claim o pk out :
    htlc_btc_swap_v1_active a = true ->
    foreign_payment (v_btc view) (hb_confirmations_required o) (btc_swap_bech32_payment_active a)
      (hb_btc_recipient_pkh o) (hb_btc_amount_sats o)
      (BTC_OP_RETURN_BINDING_MAGIC ++ hb_funding_binding o) out ->
    out ∉ v_claimed_btc view -> hash160 pk = hb_recipient_pkh o -> signed pk ->
    policy a tx txin utxo height view signed (EncHtlcBtcSwapV1 o)
| pol_btc_refund o pk :
    htlc_btc_swap_v1_active a = true -> hb_timeout_height o <= height ->
    hash160 pk = hb_refund_pkh o -> signed pk ->
    policy a tx txin utxo height view signed (EncHtlcBtcSwapV1 o)
| pol_ltc_claim o pk out :
    htlc_ltc_swap_v1_active a = true ->
    foreign_payment (v_ltc view) (hl_confirmations_required o) true
      (hl_ltc_recipient_pkh o) (hl_ltc_amount_sats o)
      (LTC_OP_RETURN_BINDING_MAGIC ++ hl_funding_binding o) out ->
    out ∉ v_claimed_ltc view -> hash160 pk = hl_recipient_pkh o -> signed pk ->
    policy a tx txin utxo height view signed (EncHtlcLtcSwapV1 o)
| pol_ltc_refund o pk :
    htlc_ltc_swap_v1_active a = true -> hl_timeout_height o <= height ->
    hash160 pk = hl_refund_pkh o -> signed pk ->
    policy a tx txin utxo height view signed (EncHtlcLtcSwapV1 o)
| pol_order_fill_sell o pk taker timeout :
    swap_order_v1_active a = true -> so_direction o = SWAP_ORDER_DIRECTION_SELL ->
    height <= so_expiry_height o -> height < timeout -> signed pk ->
    first_output tx (encode_htlc_btc_swap_v1_script
      {| hb_confirmations_required := so_confirmations_required o; hb_recipient_pkh := taker;
         hb_refund_pkh := so_maker_iriumd_pkh o; hb_btc_recipient_pkh := so_maker_btc_pkh o;
         hb_btc_amount_sats := so_btc_amount_sats o; hb_timeout_height := timeout;
         hb_funding_binding := compute_funding_binding (prev_txid txin) (prev_index txin) |})
      (eq (so_irm_amount o)) ->
    policy a tx txin utxo height view signed (EncSwapOrder o)
| pol_order_fill_buy o pk timeout h :
    swap_order_v1_active a = true -> so_direction o = SWAP_ORDER_DIRECTION_BUY ->
    height <= so_expiry_height o -> height < timeout -> signed pk ->
    so_expected_hash o = Some h ->
    first_output tx (encode_htlcv1_script
      {| h1_expected_hash := h; h1_recipient_pkh := so_maker_iriumd_pkh o;
         h1_refund_pkh := hash160 pk; h1_timeout_height := timeout |}) (eq (so_irm_amount o)) ->
    policy a tx txin utxo height view signed (EncSwapOrder o)
| pol_order_cancel o pk :
    swap_order_v1_active a = true -> height < so_expiry_height o ->
    hash160 pk = so_maker_iriumd_pkh o -> signed pk ->
    policy a tx txin utxo height view signed (EncSwapOrder o)
| pol_order_sweep o :
    swap_order_v1_active a = true -> so_expiry_height o <= height ->
    first_output tx (p2pkh_script (so_maker_iriumd_pkh o))
      (fun v => value utxo - SWAP_ORDER_MAX_SWEEP_FEE <= v) ->
    policy a tx txin utxo height view signed (EncSwapOrder o)
| pol_ltc_order_fill_sell o pk taker timeout :
    ltc_swap_order_v1_active a = true -> lo_direction o = LTC_SWAP_ORDER_DIRECTION_SELL ->
    height <= lo_expiry_height o -> height < timeout -> signed pk ->
    first_output tx (encode_htlc_ltc_swap_v1_script
      {| hl_confirmations_required := lo_confirmations_required o; hl_recipient_pkh := taker;
         hl_refund_pkh := lo_maker_iriumd_pkh o; hl_ltc_recipient_pkh := lo_maker_ltc_pkh o;
         hl_ltc_amount_sats := lo_ltc_amount_sats o; hl_timeout_height := timeout;
         hl_funding_binding := compute_funding_binding (prev_txid txin) (prev_index txin) |})
      (eq (lo_irm_amount o)) ->
    policy a tx txin utxo height view signed (EncLtcSwapOrder o)
| pol_ltc_order_fill_buy o pk timeout h :
    ltc_swap_order_v1_active a = true -> lo_direction o = LTC_SWAP_ORDER_DIRECTION_BUY ->
    height <= lo_expiry_height o -> height < timeout -> signed pk ->
    lo_expected_hash o = Some h ->
    first_output tx (encode_htlcv1_script
      {| h1_expected_hash := h; h1_recipient_pkh := lo_maker_iriumd_pkh o;
         h1_refund_pkh := hash160 pk; h1_timeout_height := timeout |}) (eq (lo_irm_amount o)) ->
    policy a tx txin utxo height view signed (EncLtcSwapOrder o)
| pol_ltc_order_cancel o pk :
    ltc_swap_order_v1_active a = true -> height < lo_expiry_height o ->
    hash160 pk = lo_maker_iriumd_pkh o -> signed pk ->
    policy a tx txin utxo height view signed (EncLtcSwapOrder o)
| pol_ltc_order_sweep o :
    ltc_swap_order_v1_active a = true -> lo_expiry_height o <= height ->
    first_output tx (p2pkh_script (lo_maker_iriumd_pkh o))
      (fun v => value utxo - LTC_SWAP_ORDER_MAX_SWEEP_FEE <= v) ->
    policy a tx txin utxo height view signed (EncLtcSwapOrder o).

(** The transaction carries, for input [i], a signature of [pk] over the
    script [script]. *)
Definition signed_over (tx : Transaction) (i : Z) (script pk : bytes) : Prop :=
  exists sig, verify_sig_with_pubkey tx i script sig pk = true.

(** *** The quorum *)
Fixpoint selected (bitmap : Z) (keys : list bytes) (i : Z) : list bytes :=
  match keys with
  | [] => []
  | k :: ks =>
      if Z.land bitmap (Z.shiftl 1 i) =? 0 then selected bitmap ks (i + 1)
      else k :: selected bitmap ks (i + 1)
  end.

Fixpoint bits_from (bitmap : Z) (n : nat) (i : Z) : Z :=
  match n with
  | O => 0
  | S n => (if Z.land bitmap (Z.shiftl 1 i) =? 0 then 0 else 1) + bits_from bitmap n (i + 1)
  end.

Lemma selected_sublist bitmap keys : forall i, selected bitmap keys i `sublist_of` keys.
Proof.
  induction keys as [|k keys IH]; intros i; [constructor|]. cbn [selected].
  case_match; [by apply sublist_cons | by apply sublist_skip].
Qed.

Lemma len_selected bitmap keys : forall i,
  len (selected bitmap keys i) = bits_from bitmap (length keys) i.
Proof.
  induction keys as [|k keys IH]; intros i; [done|]. cbn [selected length bits_from].
  specialize (IH (i + 1)). case_match; [lia|]. rewrite len_cons. lia.
Qed.

Lemma bitmap_count bitmap n :
  u8 bitmap -> 1 <= n <= 8 -> Z.land bitmap (Z.lxor (valid_mask n) 0xff) = 0 ->
  bits_from bitmap (Z.to_nat n) 0 = count_ones bitmap.
Proof.
  intros Hb Hn Hm.
  pose proof (u8_forall (fun b => forallb (fun n =>
    negb (Z.land b (Z.lxor (valid_mask n) 0xff) =? 0)
    || (bits_from b (Z.to_nat n) 0 =? count_ones b)) (seqZ 1 8))) as H.
  specialize (H ltac:(vm_compute; reflexivity) bitmap Hb). cbv beta in H.
  rewrite forallb_forall in H. specialize (H n). rewrite <- list_elem_of_In, elem_of_seqZ in H.
  specialize (H ltac:(lia)). lia.
Qed.

Lemma mpso_sigs_signed tx i scriptcode sc bitmap keys : forall k pos pos',
  verify_mpso_sigs tx i scriptcode sc bitmap keys k pos = Ok pos' ->
  Forall (signed_over tx i scriptcode) (selected bitmap keys k).
Proof.
  induction keys as [|key keys IH]; intros k pos pos' H; [constructor|].
  cbn [verify_mpso_sigs selected] in *. case_match; [by eapply IH|].
  invert_parser H. constructor; [|by eapply IH].
  match goal with Hr : require ?b = Ok _ |- _ => destruct b eqn:Hs; [|discriminate Hr] end.
  by eexists.
Qed.

Lemma mpso_quorum_ok tx i scriptcode sc keys n m pos :
  wf_bytes sc -> 1 <= n <= 8 -> len keys = n -> NoDup keys ->
  verify_mpso_quorum tx i scriptcode sc keys n m = Ok pos ->
  quorum (signed_over tx i scriptcode) keys m.
Proof.
  intros Hw Hn Hk Hd H. unfold verify_mpso_quorum in H. invert_parser H.
  rewrite take_ge in H by (unfold len in *; lia).
  match goal with Hi : idx sc 1 = Ok ?b |- _ => pose proof (idx_u8 _ _ _ Hw Hi); exists (selected b keys 0) end.
  split_and!.
  - apply selected_sublist.
  - eapply sublist_NoDup; [done | apply selected_sublist].
  - rewrite len_selected. replace (length keys) with (Z.to_nat n) by (unfold len in *; lia).
    rewrite bitmap_count by (done || lia). lia.
  - by eapply mpso_sigs_signed.
Qed.
(** *** The payment *)
Lemma scan_payment_ok p2w recipient amount payload outs : forall pays vout pays' vout',
  scan_payment p2w recipient amount payload outs pays vout = Ok (pays', vout') ->
  (pays' = true -> pays = true \/ exists o, o ∈ outs /\ pays_recipient p2w recipient amount o) /\
  (vout' = vout /\ Forall (fun o => btc_script o <> OpReturn payload) outs \/
   vout = None /\ exists pre o post, outs = pre ++ o :: post /\ vout' = Some (btc_vout o) /\
     btc_script o = OpReturn payload /\
     Forall (fun o => btc_script o <> OpReturn payload) (pre ++ post)).
Proof.
  induction outs as [|o outs IH]; intros pays vout pays' vout' H.
  { cbn in H. simplify_eq. split; [by left | left; split; [done | constructor]]. }
  cbn [scan_payment] in H.
  assert (forall p, (p = true -> pays = true \/ pays_recipient p2w recipient amount o) ->
    (btc_script o <> OpReturn payload) ->
    scan_payment p2w recipient amount payload outs p vout = Ok (pays', vout') ->
    (pays' = true -> pays = true \/ exists o', o' ∈ (o :: outs) /\ pays_recipient p2w recipient amount o') /\
    (vout' = vout /\ Forall (fun o => btc_script o <> OpReturn payload) (o :: outs) \/
     vout = None /\ exists pre o' post, o :: outs = pre ++ o' :: post /\ vout' = Some (btc_vout o') /\
     btc_script o' = OpReturn payload /\
     Forall (fun o => btc_script o <> OpReturn payload) (pre ++ post))) as Hskip.
  { intros p Hp Hno Hs. destruct (IH _ _ _ _ Hs) as [Hpays Hvout]. split.
    - intros Ht. destruct (Hpays Ht) as [? | (o' & ? & ?)].
      + destruct (Hp ltac:(done)); [by left | right]. exists o. split; [apply list_elem_of_here | done].
      + right. exists o'. split; [by apply list_elem_of_further | done].
    - destruct Hvout as [[-> ?] | (-> & pre & o' & post & -> & ? & ? & ?)]; [left | right].
      + split; [done | by constructor].
      + split; [done|]. exists (o :: pre), o', post. split_and!; try done. by constructor. }
  destruct (btc_script o) eqn:Ho.
  - eapply Hskip; [|done|exact H]. intros Hp. unfold pays_recipient.
    case_match eqn:Hc; [right | by left]. apply andb_true_iff in Hc as [Hc ?]. unfold beqb in Hc.
    apply bool_decide_eq_true in Hc as ->. split; [by left | lia].
  - eapply Hskip; [|done|exact H]. intros Hp. unfold pays_recipient.
    case_match eqn:Hc; [right | by left]. rewrite !andb_true_iff in Hc. unfold beqb in Hc.
    rewrite bool_decide_eq_true in Hc. destruct Hc as [[? ->] ?]. split; [by right | lia].
  - unfold beqb in H. case_bool_decide as Hd.
    + subst. destruct vout; [done|].
      destruct (IH _ _ _ _ H) as [Hpays [[-> ?] | [? _]]]; [|done]. split.
      * intros Ht. destruct (Hpays Ht) as [? | (o' & ? & ?)]; [by left | right].
        exists o'. split; [by apply list_elem_of_further | done].
      * right. split; [done|]. by exists [], o, outs.
    + eapply Hskip; [by left | congruence | exact H].
  - eapply Hskip; [by left | done | exact H].
Qed.

Lemma check_payment_ok relay claimed used confs p2w recipient amount payload blk branch index raw out :
  check_payment relay claimed used confs p2w recipient amount payload blk branch index raw = Ok out ->
  foreign_payment relay confs p2w recipient amount payload out /\ (out ∉ claimed) /\ (out ∉ used).
Proof.
  unfold check_payment. intros H. invert_parser H.
  repeat match goal with
  | Hm : ok_or ?o _ = Ok _ |- _ => destruct o eqn:?; cbn in Hm; simplify_eq
  | Hm : map_err _ ?o = Ok _ |- _ => destruct o eqn:?; cbn in Hm; simplify_eq
  | Hm : bool_decide _ = false |- _ => apply bool_decide_eq_false in Hm
  | Hm : negb (beqb _ _) = false |- _ => apply negb_false_iff, bool_decide_eq_true in Hm
  end.
  split_and!; [|done|done].
  edestruct scan_payment_ok as [Hpays Hvout]; [eassumption|].
  destruct Hvout as [[? _] | (_ & pre & o & post & ? & ? & ? & ?)]; [done|]. simplify_eq.
  do 7 eexists. split_and!; try done.
  - unfold sat_sub, sat_add64 in *. lia.
  - destruct Hpays as [? | ?]; [by destruct b | done | done].
  - by exists pre, o, post.
Qed.

(** *** One lemma per kind of output *)
Lemma require_ok b u : require b = Ok u -> b = true.
Proof. by destruct b. Qed.

Lemma beqb_ok x y : negb (beqb x y) = false -> x = y.
Proof. intros ?%negb_false_iff. by eapply bool_decide_eq_true. Qed.

(** Splits an accepted check into the tests it passed. *)
Ltac accepted H :=
  invert_parser H;
  repeat match goal with
  | Hm : ok_or ?o _ = Ok _ |- _ => destruct o eqn:?; cbn in Hm; simplify_eq
  | Hm : negb (beqb _ _) = false |- _ => apply beqb_ok in Hm
  | Hm : require _ = Ok _ |- _ => apply require_ok in Hm
  end.

Section one_spend.
Context (a : Active) (tx : Transaction) (i : Z) (txin : TxInput) (utxo : TxOutput) (height : Z)
  (view : ConsensusView).
Abbreviation signed := (signed_over tx i (script_pubkey utxo)).
Abbreviation allowed := (policy a tx txin utxo height view signed).

Lemma verify_p2pkh_ok pkh u : verify_p2pkh tx i txin utxo pkh = Ok u -> allowed (EncP2pkh pkh).
Proof.
  unfold verify_p2pkh. intros H. invert_parser H. case_match; try done. accepted H.
  eapply pol_p2pkh; [done | by eexists].
Qed.

Lemma verify_htlcv1_ok o u :
  script_pubkey utxo = encode_htlcv1_script o -> htlcv1_active a = true ->
  verify_htlcv1 tx i txin height o = Ok u -> allowed (EncHtlcV1 o).
Proof.
  unfold verify_htlcv1. intros Hs Ha H. invert_parser H. case_match; try done; accepted H.
  - eapply pol_htlc_claim; [done | | done | done | rewrite Hs; by eexists].
    pose proof (len_nonneg preimage). lia.
  - eapply pol_htlc_refund; [done | lia | done | rewrite Hs; by eexists].
Qed.

Lemma mpso_secret_ok o sc pos pos' h :
  wf_mpso o -> verify_mpso_secret o sc pos = Ok pos' -> mp_optional_hash o = Some h ->
  exists preimage, 1 <= len preimage <= 64 /\ sha256 preimage = h.
Proof.
  intros ([[_ Hn] | [Hf _]] & _) H Hh; [congruence|]. unfold verify_mpso_secret in H.
  rewrite Hf, Hh in H. invert_parser H; [done|].
  match goal with Hm : require _ = Ok _ |- _ => apply require_ok, bool_decide_eq_true in Hm end.
  match goal with
  | Hs : slice _ _ _ = Ok ?x |- _ => exists x; apply slice_Ok_len in Hs; pose proof (len_nonneg x)
  end.
  split; [lia | done].
Qed.

Lemma verify_mpso_ok o u :
  wf_bytes (script_sig txin) -> wf_mpso o ->
  script_pubkey utxo = encode_mpso_script o -> mpsov1_active a = true ->
  verify_mpso tx i txin height o = Ok u -> allowed (EncMpsoV1 o).
Proof.
  intros Hw Ho Hs Ha H. pose proof Ho as (_ & ? & ? & ? & ? & _ & _ & ? & ? & _ & _ & ? & ?).
  unfold verify_mpso in H. invert_parser H.
  - apply pol_mpso_claim; [done | lia | | intros; by eapply mpso_secret_ok].
    rewrite Hs. eapply mpso_quorum_ok; [..|eassumption]; (done || lia).
  - apply pol_mpso_refund; [done | lia | ].
    rewrite Hs. eapply mpso_quorum_ok; [..|eassumption]; (done || lia).
Qed.

Lemma verify_btc_swap_ok o used used' :
  script_pubkey utxo = encode_htlc_btc_swap_v1_script o -> htlc_btc_swap_v1_active a = true ->
  verify_btc_swap a tx i txin height view used o = Ok used' -> allowed (EncHtlcBtcSwapV1 o).
Proof.
  unfold verify_btc_swap. intros Hs Ha H. invert_parser H. case_match; accepted H.
  - edestruct check_payment_ok as (? & ? & _); [eassumption|].
    eapply pol_btc_claim; [done | done | done | done | rewrite Hs; by eexists].
  - eapply pol_btc_refund; [done | lia | done | rewrite Hs; by eexists].
Qed.

Lemma verify_ltc_swap_ok o used used' :
  script_pubkey utxo = encode_htlc_ltc_swap_v1_script o -> htlc_ltc_swap_v1_active a = true ->
  verify_ltc_swap tx i txin height view used o = Ok used' -> allowed (EncHtlcLtcSwapV1 o).
Proof.
  unfold verify_ltc_swap. intros Hs Ha H. invert_parser H. case_match; accepted H.
  - edestruct check_payment_ok as (? & ? & _); [eassumption|].
    eapply pol_ltc_claim; [done | done | done | done | rewrite Hs; by eexists].
  - eapply pol_ltc_refund; [done | lia | done | rewrite Hs; by eexists].
Qed.

Lemma pays_first_ok script amount u :
  pays_first tx script amount = Ok u -> first_output tx script (eq amount).
Proof.
  unfold pays_first. intros H. destruct (tx_outputs tx) as [|o rest] eqn:Hm; [done|]. accepted H.
  exists o, rest. split_and!; [done | done | lia].
Qed.

Lemma sweep_first_ok expiry maker fee u :
  sweep_first tx utxo height expiry maker fee = Ok u ->
  expiry <= height /\
  first_output tx (p2pkh_script maker) (fun v => value utxo - fee <= v).
Proof.
  unfold sweep_first. intros H. invert_parser H. destruct (tx_outputs tx) as [|o rest] eqn:Hm; [done|].
  accepted H. split; [lia|]. exists o, rest. unfold sat_sub in *. split_and!; [done | done | lia].
Qed.

Lemma verify_swap_order_ok o u :
  script_pubkey utxo = encode_swap_order_script o -> swap_order_v1_active a = true ->
  verify_swap_order tx i txin utxo height o = Ok u -> allowed (EncSwapOrder o).
Proof.
  unfold verify_swap_order. intros Hs Ha H. invert_parser H. case_match; accepted H.
  - eapply pol_order_fill_sell; [done | lia | lia | | rewrite Hs; by eexists |];
      [|by eapply pays_first_ok]. lia.
  - eapply pol_order_fill_buy; [done | lia | lia | | rewrite Hs; by eexists | done |];
      [|by eapply pays_first_ok]. lia.
  - eapply pol_order_cancel; [done | lia | done | rewrite Hs; by eexists].
  - apply sweep_first_ok in H as [? ?]. by apply pol_order_sweep.
Qed.

Lemma verify_ltc_swap_order_ok o u :
  script_pubkey utxo = encode_ltc_swap_order_script o -> ltc_swap_order_v1_active a = true ->
  verify_ltc_swap_order tx i txin utxo height o = Ok u -> allowed (EncLtcSwapOrder o).
Proof.
  unfold verify_ltc_swap_order. intros Hs Ha H. invert_parser H. case_match; accepted H.
  - eapply pol_ltc_order_fill_sell; [done | lia | lia | | rewrite Hs; by eexists |];
      [|by eapply pays_first_ok]. lia.
  - eapply pol_ltc_order_fill_buy; [done | lia | lia | | rewrite Hs; by eexists | done |];
      [|by eapply pays_first_ok]. lia.
  - eapply pol_ltc_order_cancel; [done | lia | done | rewrite Hs; by eexists].
  - apply sweep_first_ok in H as [? ?]. by apply pol_ltc_order_sweep.
Qed.

Lemma when_active_ok {A} b (m : opt A) x : when_active b m = Ok x -> b = true /\ m = Ok x.
Proof. by destruct b. Qed.

Lemma verify_policy bu lu r :
  wf_bytes (script_pubkey utxo) -> wf_bytes (script_sig txin) ->
  verify_transaction_signature a tx i txin utxo height view bu lu = Ok r ->
  exists e, parse_output_encumbrance (script_pubkey utxo) = Ok e /\ allowed e.
Proof.
  intros Hw Hsig. unfold verify_transaction_signature.
  destruct (parse_output_encumbrance (script_pubkey utxo)) as [e | |] eqn:He; [|done|done].
  bind_simpl. intros H. exists e. split; [done|].
  apply encumbrance_of_parse in He as [Hwf Hscript]; [|done].
  destruct e; try (specialize (Hscript ltac:(done)); injection Hscript as Hscript); [..|done];
    invert_parser H;
    repeat match goal with Hm : when_active _ _ = Ok _ |- _ => apply when_active_ok in Hm as [? ?] end.
  - by eapply verify_p2pkh_ok.
  - by eapply verify_htlcv1_ok.
  - by eapply verify_mpso_ok.
  - by eapply verify_btc_swap_ok.
  - by eapply verify_ltc_swap_ok.
  - by eapply verify_swap_order_ok.
  - by eapply verify_ltc_swap_order_ok.
Qed.
End one_spend.

(** *** No panic *)
Lemma mpso_sigs_total tx i scriptcode sc bitmap keys : forall k pos,
  wf_bytes sc -> 0 <= pos -> verify_mpso_sigs tx i scriptcode sc bitmap keys k pos <> Panic /\
  forall pos', verify_mpso_sigs tx i scriptcode sc bitmap keys k pos = Ok pos' -> 0 <= pos'.
Proof.
  induction keys as [|key keys IH]; intros k pos Hw Hp; [split; [done | by intros ? [= <-]]|].
  cbn [verify_mpso_sigs]. destruct (Z.land _ _ =? 0); [by apply IH|].
  destruct (_ <=? pos) eqn:?; [done|].
  destruct (@idx_in unit Z sc pos) as [n Hn]; [lia|]. rewrite Hn. bind_simpl. cbv zeta.
  apply (idx_u8 _ _ _ Hw) in Hn. unfold u8 in Hn. destruct (_ || _) eqn:?; [done|].
  destruct (@slice_in unit Z sc (pos + 1) (pos + 1 + n)) as (x & -> & _); [lia..|]. bind_simpl.
  destruct (verify_sig_with_pubkey _ _ _ _ _); cbn [require]; bind_simpl; [|done]. apply IH; [done | lia].
Qed.

Lemma mpso_quorum_total tx i scriptcode sc keys n m :
  wf_bytes sc -> verify_mpso_quorum tx i scriptcode sc keys n m <> Panic /\
  forall pos, verify_mpso_quorum tx i scriptcode sc keys n m = Ok pos -> 0 <= pos.
Proof.
  intros Hw. unfold verify_mpso_quorum. destruct (_ <? 2) eqn:?; [done|].
  destruct (@idx_in unit Z sc 1) as [b ->]; [lia|]. bind_simpl.
  destruct (negb _); [done|]. destruct (negb _); [done|]. by apply mpso_sigs_total.
Qed.

Lemma mpso_secret_no_panic o sc pos :
  wf_mpso o -> wf_bytes sc -> 0 <= pos -> verify_mpso_secret o sc pos <> Panic.
Proof.
  intros (Hf & _) Hw Hp. unfold verify_mpso_secret.
  destruct Hf as [[-> _] | (-> & h & -> & _)]; [done|]. change (Z.land 1 1 =? 0) with false. cbv iota.
  destruct (_ <=? pos) eqn:?; [done|].
  destruct (@idx_in unit Z sc pos) as [n Hn]; [lia|]. rewrite Hn. bind_simpl. cbv zeta.
  apply (idx_u8 _ _ _ Hw) in Hn. unfold u8 in Hn.
  destruct (_ || _) eqn:?; [done|]. destruct (len sc <? _) eqn:?; [done|].
  destruct (@slice_in unit Z sc (pos + 1) (pos + 1 + n)) as (x & -> & _); [lia..|]. bind_simpl.
  by destruct (beqb _ _).
Qed.

Lemma verify_mpso_no_panic tx i txin height o :
  wf_mpso o -> wf_bytes (script_sig txin) -> verify_mpso tx i txin height o <> Panic.
Proof.
  intros Ho Hw. unfold verify_mpso. destruct (_ <? _); [done|]. destruct (_ =? 0) eqn:?; [done|].
  pose proof (len_nonneg (script_sig txin)).
  destruct (@idx_in unit Z (script_sig txin) 0) as [b ->]; [lia|]. bind_simpl.
  destruct (b =? 1); [|destruct (b =? 2); [|done]].
  - destruct (_ <=? height); [done|]. destruct (mpso_quorum_total tx i (encode_mpso_script o) (script_sig txin)
      (mp_claim_pubkeys o) (mp_claim_n o) (mp_claim_m o) Hw) as [Hq Hp].
    destruct (verify_mpso_quorum _ _ _ _ _ _ _) as [p| |]; bind_simpl; [|done..].
    pose proof (mpso_secret_no_panic o (script_sig txin) p Ho Hw (Hp _ eq_refl)).
    destruct (verify_mpso_secret _ _ _); bind_simpl; [|done..]. unfold require; by case_match.
  - destruct (height <? _); [done|]. destruct (mpso_quorum_total tx i (encode_mpso_script o) (script_sig txin)
      (mp_refund_pubkeys o) (mp_refund_n o) (mp_refund_m o) Hw) as [Hq Hp].
    destruct (verify_mpso_quorum _ _ _ _ _ _ _) as [p| |]; bind_simpl; [|done..].
    unfold require; by case_match.
Qed.

Lemma scan_payment_no_panic p2w recipient amount payload outs : forall pays vout,
  scan_payment p2w recipient amount payload outs pays vout <> Panic.
Proof.
  induction outs as [|o outs IH]; intros pays vout; [done|]. cbn [scan_payment].
  destruct (btc_script o); try apply IH. destruct (beqb _ _), vout; done || apply IH.
Qed.

Lemma check_payment_panic relay claimed used confs p2w recipient amount payload blk branch index raw :
  wf_bytes raw ->
  check_payment relay claimed used confs p2w recipient amount payload blk branch index raw = Panic ->
  parse_btc_tx_outputs raw = Panic.
Proof.
  intros Hw. unfold check_payment. pose proof (btc_txid_no_panic raw Hw) as Ht.
  destruct (rl_heights relay !! blk); [|done]. bind_simpl. destruct (_ <? _); [done|].
  destruct (rl_headers relay !! blk); [|done]. bind_simpl.
  destruct (btc_txid raw) as [t| |]; [|done..]. bind_simpl. destruct (negb _); [done|].
  destruct (parse_btc_tx_outputs raw) as [outs| |]; [|done..]. bind_simpl.
  pose proof (scan_payment_no_panic p2w recipient amount payload outs false None).
  destruct (scan_payment _ _ _ _ _ _ _) as [[[] [v|]]| |]; bind_simpl; try done.
  by repeat case_bool_decide.
Qed.

(** A claim's foreign transaction is a part of the input's script. *)
Lemma btc_witness_raw sc sig pk blk branch index raw :
  wf_bytes sc -> parse_htlc_btc_swap_witness sc = Ok (HbClaim sig pk blk branch index raw) ->
  wf_bytes raw.
Proof.
  unfold parse_htlc_btc_swap_witness. intros Hw H. invert_parser H; simplify_eq.
  by eapply slice_Forall.
Qed.

Lemma ltc_witness_raw sc sig pk blk branch index raw :
  wf_bytes sc -> parse_htlc_ltc_swap_witness sc = Ok (HlClaim sig pk blk branch index raw) ->
  wf_bytes raw.
Proof.
  unfold parse_htlc_ltc_swap_witness. intros Hw H. invert_parser H; simplify_eq.
  by eapply slice_Forall.
Qed.

Ltac no_panic_tests :=
  repeat first
    [ done
    | match goal with
      | |- context [if ?b then _ else _] => destruct b
      | |- context [require ?b] => destruct b; cbn [require]
      end; bind_simpl ].

Lemma verify_p2pkh_no_panic tx i txin utxo pkh :
  wf_bytes (script_sig txin) -> verify_p2pkh tx i txin utxo pkh <> Panic.
Proof.
  intros Hw. unfold verify_p2pkh. pose proof (parse_input_witness_no_panic _ Hw).
  destruct (parse_input_witness _) as [[]| |]; bind_simpl; no_panic_tests.
Qed.

Lemma verify_htlcv1_no_panic tx i txin height o :
  wf_bytes (script_sig txin) -> verify_htlcv1 tx i txin height o <> Panic.
Proof.
  intros Hw. unfold verify_htlcv1. pose proof (parse_input_witness_no_panic _ Hw).
  destruct (parse_input_witness _) as [[]| |]; bind_simpl; no_panic_tests.
Qed.

Lemma pays_first_no_panic tx script amount : pays_first tx script amount <> Panic.
Proof. unfold pays_first. destruct (tx_outputs tx); no_panic_tests. Qed.

Lemma sweep_first_no_panic tx utxo height expiry maker fee :
  sweep_first tx utxo height expiry maker fee <> Panic.
Proof. unfold sweep_first. destruct (tx_outputs tx); no_panic_tests. Qed.

Ltac no_panic_order :=
  repeat first
    [ done | apply sweep_first_no_panic
    | match goal with
      | |- context [pays_first ?t ?s ?v] =>
          pose proof (pays_first_no_panic t s v); destruct (pays_first t s v)
      | |- context [ok_or ?o tt] => destruct o; cbn [ok_or]
      | |- context [if ?b then _ else _] => destruct b
      | |- context [require ?b] => destruct b; cbn [require]
      end; bind_simpl; cbv zeta ].

Lemma verify_swap_order_no_panic tx i txin utxo height o :
  wf_bytes (script_sig txin) -> verify_swap_order tx i txin utxo height o <> Panic.
Proof.
  intros Hw. unfold verify_swap_order.
  pose proof (parse_swap_order_witness_no_panic _ (so_direction o) Hw).
  destruct (parse_swap_order_witness _ _) as [[]| |]; bind_simpl; no_panic_order.
Qed.

Lemma verify_ltc_swap_order_no_panic tx i txin utxo height o :
  wf_bytes (script_sig txin) -> verify_ltc_swap_order tx i txin utxo height o <> Panic.
Proof.
  intros Hw. unfold verify_ltc_swap_order.
  pose proof (parse_ltc_swap_order_witness_no_panic _ (lo_direction o) Hw).
  destruct (parse_ltc_swap_order_witness _ _) as [[]| |]; bind_simpl; no_panic_order.
Qed.

Lemma verify_btc_swap_panic a tx i txin height view used o :
  wf_bytes (script_sig txin) -> verify_btc_swap a tx i txin height view used o = Panic ->
  exists raw, wf_bytes raw /\ parse_btc_tx_outputs raw = Panic.
Proof.
  intros Hw. unfold verify_btc_swap. pose proof (parse_htlc_btc_swap_witness_no_panic _ Hw).
  destruct (parse_htlc_btc_swap_witness _) as [[]| |] eqn:Hp; bind_simpl; [| |done..].
  - apply btc_witness_raw in Hp; [|done]. destruct (check_payment _ _ _ _ _ _ _ _ _ _ _ _) eqn:Hc;
      bind_simpl; [|done|].
    + destruct (negb _); [done|]. by destruct (verify_sig_with_pubkey _ _ _ _ _).
    + intros _. eexists. split; [done|]. by eapply check_payment_panic.
  - intros Hx; exfalso; revert Hx; no_panic_tests.
Qed.

Lemma verify_ltc_swap_panic tx i txin height view used o :
  wf_bytes (script_sig txin) -> verify_ltc_swap tx i txin height view used o = Panic ->
  exists raw, wf_bytes raw /\ parse_btc_tx_outputs raw = Panic.
Proof.
  intros Hw. unfold verify_ltc_swap. pose proof (parse_htlc_ltc_swap_witness_no_panic _ Hw).
  destruct (parse_htlc_ltc_swap_witness _) as [[]| |] eqn:Hp; bind_simpl; [| |done..].
  - apply ltc_witness_raw in Hp; [|done]. destruct (check_payment _ _ _ _ _ _ _ _ _ _ _ _) eqn:Hc;
      bind_simpl; [|done|].
    + destruct (negb _); [done|]. by destruct (verify_sig_with_pubkey _ _ _ _ _).
    + intros _. eexists. split; [done|]. by eapply check_payment_panic.
  - intros Hx; exfalso; revert Hx; no_panic_tests.
Qed.

(** *** The lists of used foreign outpoints *)
Definition fresh_used (claimed : gset ForeignOut) (used : list ForeignOut) : Prop :=
  NoDup used /\ Forall (fun o => o ∉ claimed) used.

Lemma fresh_used_snoc claimed used out :
  fresh_used claimed used -> out ∉ claimed -> out ∉ used -> fresh_used claimed (used ++ [out]).
Proof.
  intros [Hn Hf] Hc Hu. split.
  - apply NoDup_app. split_and!; [done | | apply NoDup_singleton].
    intros x Hx ->%list_elem_of_singleton. done.
  - apply Forall_app. split; [done | by constructor].
Qed.

Lemma verify_btc_swap_used a tx i txin height view used o used' :
  verify_btc_swap a tx i txin height view used o = Ok used' ->
  fresh_used (v_claimed_btc view) used -> fresh_used (v_claimed_btc view) used' /\ used `prefix_of` used'.
Proof.
  unfold verify_btc_swap. intros H Hf. invert_parser H. case_match; accepted H.
  - edestruct check_payment_ok as (_ & ? & ?); [eassumption|]. simplify_eq.
    split; [by apply fresh_used_snoc | by eexists].
  - by simplify_eq.
Qed.

Lemma verify_ltc_swap_used tx i txin height view used o used' :
  verify_ltc_swap tx i txin height view used o = Ok used' ->
  fresh_used (v_claimed_ltc view) used -> fresh_used (v_claimed_ltc view) used' /\ used `prefix_of` used'.
Proof.
  unfold verify_ltc_swap. intros H Hf. invert_parser H. case_match; accepted H.
  - edestruct check_payment_ok as (_ & ? & ?); [eassumption|]. simplify_eq.
    split; [by apply fresh_used_snoc | by eexists].
  - by simplify_eq.
Qed.

Lemma verify_used a tx i txin utxo height view bu lu bu' lu' :
  verify_transaction_signature a tx i txin utxo height view bu lu = Ok (bu', lu') ->
  fresh_used (v_claimed_btc view) bu -> fresh_used (v_claimed_ltc view) lu ->
  fresh_used (v_claimed_btc view) bu' /\ fresh_used (v_claimed_ltc view) lu' /\
  bu `prefix_of` bu' /\ lu `prefix_of` lu'.
Proof.
  unfold verify_transaction_signature. intros H Hb Hl.
  destruct (parse_output_encumbrance _) as [e| |]; [|done..]. bind_simpl_in H.
  destruct e; invert_parser H; simplify_eq; try done;
    match goal with Hm : when_active _ _ = Ok _ |- _ => apply when_active_ok in Hm as [_ Hm] end.
  - apply verify_btc_swap_used in Heqr as []; [|done]. done.
  - apply verify_ltc_swap_used in Heqr as []; [|done]. done.
Qed.

Lemma verify_panic a tx i txin utxo height view bu lu :
  wf_bytes (script_pubkey utxo) -> wf_bytes (script_sig txin) ->
  verify_transaction_signature a tx i txin utxo height view bu lu = Panic ->
  exists raw, wf_bytes raw /\ parse_btc_tx_outputs raw = Panic.
Proof.
  intros Hwu Hw. unfold verify_transaction_signature, when_active.
  pose proof (parse_output_encumbrance_no_panic (script_pubkey utxo)).
  destruct (parse_output_encumbrance _) as [e| |] eqn:He; bind_simpl; [|done..].
  apply encumbrance_of_parse in He as [Hwf _]; [|done].
  destruct e; try (case_match eqn:Hact; [|done]); [..|done].
  all: match goal with |- (mbind _ ?m) = _ -> _ => destruct m eqn:Hm; bind_simpl; [done|done|intros _] end.
  - by apply verify_p2pkh_no_panic in Hm.
  - by apply verify_htlcv1_no_panic in Hm.
  - by apply verify_mpso_no_panic in Hm.
  - by eapply verify_btc_swap_panic.
  - by eapply verify_ltc_swap_panic.
  - by apply verify_swap_order_no_panic in Hm.
  - by apply verify_ltc_swap_order_no_panic in Hm.
Qed.
End policy.

(** ** What a signature covers *)
Section digest.
Context `{C : Crypto}.

Definition input_core (i : TxInput) : bytes * Z * Z := (prev_txid i, prev_index i, sequence i).

Lemma digest_inputs_core ins idx i s : input_core <$> digest_inputs ins idx i s = input_core <$> ins.
Proof. revert idx; induction ins as [|x ins IH]; intros idx; [done|]. cbn. by rewrite IH. Qed.

Lemma length_digest_inputs ins idx i s : length (digest_inputs ins idx i s) = length ins.
Proof. revert idx; induction ins as [|x ins IH]; intros idx; [done|]. cbn. by rewrite IH. Qed.

Lemma digest_inputs_script ins i s : forall idx k x,
  digest_inputs ins idx i s !! k = Some x ->
  script_sig x = if idx + Z.of_nat k =? i then s else [].
Proof.
  induction ins as [|y ins IH]; intros idx k x Hx; [done|]. destruct k as [|k]; cbn in Hx.
  - simplify_eq. cbn. by rewrite Z.add_0_r.
  - apply IH in Hx. rewrite Hx. by replace (idx + 1 + Z.of_nat k) with (idx + Z.of_nat (S k)) by lia.
Qed.

Lemma digest_inputs_wire ins idx i s :
  Forall wire_input ins -> wf_bytes s -> len s <= 255 -> Forall wire_input (digest_inputs ins idx i s).
Proof.
  intros Hf Hw Hl. revert idx. induction Hf as [|x ins [Hx _] _ IH]; intros idx; [constructor|].
  cbn. constructor; [|apply IH]. destruct Hx as (? & ? & _ & ?).
  unfold wire_input, wf_input; cbn. destruct (idx =? i); split_and!; done || constructor.
Qed.

Lemma serialize_inj tx tx' :
  wire_tx tx -> wire_tx tx' -> len (serialize tx) < 2 ^ 63 -> serialize tx = serialize tx' -> tx = tx'.
Proof.
  intros H1 H2 Hl He. pose proof (decode_serialize_wire tx H1 Hl) as Hd.
  rewrite He, decode_serialize_wire in Hd; [congruence | done | by rewrite <- He].
Qed.

Definition digest_copy (tx : Transaction) (i : Z) (s : bytes) : Transaction :=
  {| tx_version := tx_version tx; tx_inputs := digest_inputs (tx_inputs tx) 0 i s;
     tx_outputs := tx_outputs tx; tx_locktime := tx_locktime tx |}.

Lemma digest_copy_wire tx i s : wire_tx tx -> wf_bytes s -> len s <= 255 -> wire_tx (digest_copy tx i s).
Proof.
  intros (? & Hi & Hl & ? & ? & ?) Hw Hs. unfold wire_tx, digest_copy; cbn. split_and!; try done.
  - by apply digest_inputs_wire.
  - unfold len in *. by rewrite length_digest_inputs.
Qed.

Lemma digest_inputs_index ins ins' i i' s s' :
  digest_inputs ins 0 i s = digest_inputs ins' 0 i' s' ->
  s <> [] -> 0 <= i < len ins -> i = i' /\ s = s'.
Proof.
  intros He Hs Hi.
  destruct (lookup_lt_is_Some_2 (digest_inputs ins 0 i s) (Z.to_nat i)) as [x Hx].
  { rewrite length_digest_inputs. unfold len in Hi. lia. }
  pose proof (digest_inputs_script _ _ _ _ _ _ Hx) as H1. rewrite He in Hx.
  pose proof (digest_inputs_script _ _ _ _ _ _ Hx) as H2. rewrite Z2Nat.id in * by lia.
  rewrite !Z.add_0_l, Z.eqb_refl in H1. rewrite Z.add_0_l in H2.
  destruct (i =? i') eqn:?; [split; [lia | congruence] | congruence].
Qed.
End digest.

(** A signature covers the whole transaction: when the digests of two
    transactions for two inputs and output scripts agree, then the two have the
    same version, outpoints, sequence numbers, outputs and lock time, and the
    digests are for the same input and script; otherwise the double SHA-256 has
    a collision.  (The scripts the inputs carry are not covered: they hold the signatures.) *)
Theorem signature_commits `{C : Crypto} tx tx' i i' s s' :
  wire_tx tx -> wire_tx tx' -> wf_bytes s -> wf_bytes s' -> 0 < len s <= 255 -> len s' <= 255 ->
  0 <= i < len (tx_inputs tx) -> len (serialize (digest_copy tx i s)) < 2 ^ 63 ->
  signature_digest tx i s = signature_digest tx' i' s' ->
  collision \/
  (i = i' /\ s = s' /\ tx_version tx = tx_version tx' /\ tx_locktime tx = tx_locktime tx' /\
   tx_outputs tx = tx_outputs tx' /\
   input_core <$> tx_inputs tx = input_core <$> tx_inputs tx').
Proof.
  intros H1 H2 Hs Hs' Hl Hl' Hi Hlen He. unfold signature_digest in He. cbv zeta in He.
  fold (digest_copy tx i s) (digest_copy tx' i' s') in He.
  destruct (decide (serialize (digest_copy tx i s) = serialize (digest_copy tx' i' s'))) as [Hd|Hd].
  - right. apply serialize_inj in Hd; [|apply digest_copy_wire; done || lia | by apply digest_copy_wire | done].
    injection Hd as Hv Hin Ho Ht.
    destruct (digest_inputs_index _ _ _ _ _ _ Hin) as [-> ->]; [| done |].
    { intros Hn. assert (len s = 0) by (by rewrite Hn). lia. }
    split_and!; try done. by rewrite <- (digest_inputs_core _ 0 i' s'), Hin, digest_inputs_core.
  - left. do 2 eexists. split; [|exact He]. intros Ha. apply Hd. by apply app_inv_tail in Ha.
Qed.

(** ** Samples

    One key, one transaction with one input, signed with the toy signature
    scheme: the signature is the key, the digest and the sighash byte. *)
Definition sample_pk : bytes := 2 :: replicate 32 7.

Definition sample_outputs : list TxOutput :=
  [{| value := 900; script_pubkey := p2pkh_script (replicate 20 9) |}].

Definition sample_tx (sigs : list bytes) (outs : list TxOutput) : Transaction :=
  {| tx_version := 1;
     tx_inputs := imap (fun k s => {| prev_txid := replicate 32 5; prev_index := Z.of_nat k;
                                      script_sig := s; sequence := U32_MAX |}) sigs;
     tx_outputs := outs; tx_locktime := 0 |}.

Definition toy_sign (tx : Transaction) (i : Z) (script pk : bytes) : bytes :=
  pk ++ signature_digest tx i script ++ [0x01].

Definition all_active : Active :=
  {| htlcv1_active := true; mpsov1_active := true; btc_spv_relay_active := true;
     ltc_spv_relay_active := true; htlc_btc_swap_v1_active := true;
     btc_swap_bech32_payment_active := true; htlc_ltc_swap_v1_active := true;
     swap_order_v1_active := true; ltc_swap_order_v1_active := true |}.

Definition empty_view : ConsensusView :=
  {| v_btc := RelayState_new; v_claimed_btc := ∅; v_ltc := RelayState_new; v_claimed_ltc := ∅ |}.

Definition input_of (tx : Transaction) (k : nat) : TxInput :=
  nth k (tx_inputs tx)
    {| prev_txid := []; prev_index := 0; script_sig := []; sequence := 0 |}.

Lemma signature_commits_witness :
  let tx := sample_tx [[]] sample_outputs in
  collision \/
  (0 = 0 /\ p2pkh_script (replicate 20 9) = p2pkh_script (replicate 20 9) /\
   tx_version tx = tx_version tx /\ tx_locktime tx = tx_locktime tx /\
   tx_outputs tx = tx_outputs tx /\ input_core <$> tx_inputs tx = input_core <$> tx_inputs tx).
Proof.
  intros tx. assert (wire_tx tx) as Hw.
  { unfold wire_tx, wire_input, wf_input, wf_output, tx, sample_tx, sample_outputs.
    cbn [tx_version tx_inputs tx_outputs tx_locktime imap]. wf_compute. }
  apply (signature_commits tx tx 0 0 (p2pkh_script (replicate 20 9)) (p2pkh_script (replicate 20 9)) Hw Hw);
    wf_compute; try done; vm_compute; done.
Defined.

(** ** The theorems *)

(** C3: Every accepted spend follows the policy: when the signature check of an
    input accepts, then the output it spends has a recognised script and the
    spend shows what the policy asks for that kind of output: a signature over
    the spent output's own script by a key the script names (or, for an order
    that is filled, by the taker), the preimage behind a hash lock, the timeout
    or expiry behind a refund, a cancel or a sweep, [m] different co-signers
    for a multi-party output, a confirmed, unclaimed payment on the foreign
    chain for a swap, the agreed first output for a fill. *)
Theorem spend_follows_policy `{C : Crypto} a tx i txin utxo height view bu lu r :
  wf_bytes (script_pubkey utxo) -> wf_bytes (script_sig txin) ->
  verify_transaction_signature a tx i txin utxo height view bu lu = Ok r ->
  exists e, parse_output_encumbrance (script_pubkey utxo) = Ok e /\
    policy a tx txin utxo height view (signed_over tx i (script_pubkey utxo)) e.
Proof. apply verify_policy. Qed.

Definition sample_htlc : HtlcV1Output :=
  {| h1_expected_hash := sha256 [9; 9]; h1_recipient_pkh := hash160 sample_pk;
     h1_refund_pkh := replicate 20 1; h1_timeout_height := 100 |}.

Definition sample_htlc_utxo : TxOutput :=
  {| value := 1000; script_pubkey := encode_htlcv1_script sample_htlc |}.

Definition sample_htlc_claim : Transaction :=
  let sig := toy_sign (sample_tx [[]] sample_outputs) 0 (script_pubkey sample_htlc_utxo) sample_pk in
  sample_tx [default [] (encode_htlcv1_claim_witness sig sample_pk [9; 9])] sample_outputs.

Lemma spend_follows_policy_witness :
  let tx := sample_htlc_claim in
  exists e, parse_output_encumbrance (script_pubkey sample_htlc_utxo) = Ok e /\
    policy all_active tx (input_of tx 0) sample_htlc_utxo 50 empty_view
      (signed_over tx 0 (script_pubkey sample_htlc_utxo)) e.
Proof.
  intros tx. apply (spend_follows_policy all_active tx 0 (input_of tx 0) sample_htlc_utxo 50
                      empty_view [] [] ([], [])); wf_compute.
  vm_compute. reflexivity.
Defined.

(** The signature check does not panic, but for one reader: on byte
    strings, the check of an input, of any kind and with any script, returns;
    a panic can only come from [parse_btc_tx_outputs]. *)
Theorem spend_check_total `{C : Crypto} a tx i txin utxo height view bu lu :
  wf_bytes (script_pubkey utxo) -> wf_bytes (script_sig txin) ->
  verify_transaction_signature a tx i txin utxo height view bu lu <> Panic \/
  exists raw, wf_bytes raw /\ parse_btc_tx_outputs raw = Panic.
Proof.
  intros Hu Hs.
  destruct (verify_transaction_signature a tx i txin utxo height view bu lu) eqn:H;
    [by left | by left | right; by eapply verify_panic].
Qed.

Lemma spend_check_total_witness :
  let tx := sample_htlc_claim in
  verify_transaction_signature all_active tx 0 (input_of tx 0) sample_htlc_utxo 50 empty_view [] []
    <> Panic \/
  exists raw, wf_bytes raw /\ parse_btc_tx_outputs raw = Panic.
Proof.
  intros tx. apply (spend_check_total all_active tx 0 (input_of tx 0) sample_htlc_utxo 50
                      empty_view [] []); wf_compute.
Defined.

(** Two expired orders can be swept for the price of one: after the expiry
    of two orders of one maker, anyone can spend both in one transaction that
    pays the maker the larger one only (less the fee); the sweep needs no
    signature and each input looks at the first output alone, so the value of
    the other order is free for the remaining outputs. *)
Theorem expired_orders_swept_together `{C : Crypto} a height view u1 u2 o1 o2 rest bu lu :
  swap_order_v1_active a = true ->
  wf_swap_order o1 -> wf_swap_order o2 -> so_maker_iriumd_pkh o1 = so_maker_iriumd_pkh o2 ->
  so_expiry_height o1 <= height -> so_expiry_height o2 <= height ->
  script_pubkey u1 = encode_swap_order_script o1 -> script_pubkey u2 = encode_swap_order_script o2 ->
  value u2 <= value u1 -> SWAP_ORDER_MAX_SWEEP_FEE <= value u1 ->
  let payout := {| value := value u1 - SWAP_ORDER_MAX_SWEEP_FEE;
                   script_pubkey := p2pkh_script (so_maker_iriumd_pkh o1) |} in
  let tx := sample_tx [encode_swap_order_expire_sweep_witness;
                       encode_swap_order_expire_sweep_witness] (payout :: rest) in
  verify_transaction_signature a tx 0 (input_of tx 0) u1 height view bu lu = Ok (bu, lu) /\
  verify_transaction_signature a tx 1 (input_of tx 1) u2 height view bu lu = Ok (bu, lu).
Proof.
  intros Ha Hw1 Hw2 Hm He1 He2 Hs1 Hs2 Hv Hf payout tx.
  assert (forall k u o, wf_swap_order o -> script_pubkey u = encode_swap_order_script o ->
    so_maker_iriumd_pkh o1 = so_maker_iriumd_pkh o -> so_expiry_height o <= height ->
    value u <= value u1 -> script_sig (input_of tx k) = encode_swap_order_expire_sweep_witness ->
    verify_transaction_signature a tx (Z.of_nat k) (input_of tx k) u height view bu lu = Ok (bu, lu))
    as Hone.
  { intros k u o Hw Hs Hmk He Hvu Hsig. unfold verify_transaction_signature. rewrite Hs.
    rewrite (parse_encumbrance_script (EncSwapOrder o) _ Hw eq_refl). bind_simpl.
    unfold when_active. rewrite Ha. unfold verify_swap_order. rewrite Hsig.
    assert (forall d, parse_swap_order_witness encode_swap_order_expire_sweep_witness d
      = Ok SoExpireSweep) as -> by (intros d; vm_compute; reflexivity).
    bind_simpl. unfold sweep_first. replace (height <? _) with false by lia.
    change (tx_outputs tx) with (payout :: rest). cbv iota. cbn [script_pubkey payout value].
    rewrite Hmk. unfold beqb. rewrite bool_decide_true by done. cbn [negb].
    unfold sat_sub. replace (_ <? _) with false by lia. done. }
  split; [apply (Hone 0%nat u1 o1) | apply (Hone 1%nat u2 o2)]; done || lia.
Qed.

Definition sample_order (id : Z) : SwapOrderOutput :=
  {| so_direction := SWAP_ORDER_DIRECTION_SELL; so_confirmations_required := 1;
     so_irm_amount := 5000; so_btc_amount_sats := 70; so_maker_iriumd_pkh := replicate 20 4;
     so_maker_btc_pkh := replicate 20 6; so_expiry_height := 30; so_order_id := replicate 8 id;
     so_expected_hash := None |}.

Lemma expired_orders_swept_together_witness :
  let u id := {| value := 5000; script_pubkey := encode_swap_order_script (sample_order id) |} in
  let payout := {| value := 5000 - SWAP_ORDER_MAX_SWEEP_FEE;
                   script_pubkey := p2pkh_script (replicate 20 4) |} in
  let tx := sample_tx [encode_swap_order_expire_sweep_witness;
                       encode_swap_order_expire_sweep_witness] (payout :: sample_outputs) in
  verify_transaction_signature all_active tx 0 (input_of tx 0) (u 1) 30 empty_view [] [] = Ok ([], []) /\
  verify_transaction_signature all_active tx 1 (input_of tx 1) (u 2) 30 empty_view [] [] = Ok ([], []).
Proof.
  intros u payout tx.
  apply (expired_orders_swept_together all_active 30 empty_view (u 1) (u 2) (sample_order 1)
           (sample_order 2) sample_outputs [] []); try done.
  1-2: unfold wf_swap_order, wf_order_tail; cbn; wf_compute; by left.
Defined.

(** *** A payment on a side branch *)
Definition main_header (prev : bytes) (nonce : Z) : SpvHeader :=
  {| sh_version := 1; sh_prev_hash := prev; sh_merkle_root := replicate 32 6;
     sh_time := 1000; sh_bits := 0x207fffff; sh_nonce := nonce |}.

Definition main_batch : list SpvHeader :=
  let h1 := main_header (a_hash sample_anchor) 42 in
  [h1; {| sh_version := 1; sh_prev_hash := block_hash h1; sh_merkle_root := replicate 32 6;
          sh_time := 1001; sh_bits := 0x207fffff; sh_nonce := 250 |}].

(** A header with an easier target whose only transaction is [sample_btx]. *)
Definition side_header : SpvHeader :=
  {| sh_version := 1; sh_prev_hash := a_hash sample_anchor;
     sh_merkle_root := sha256d (enc_legacy sample_btx);
     sh_time := 1000; sh_bits := 0x2200ffff; sh_nonce := 1 |}.

Definition relay_after (batches : list (list SpvHeader)) : res RelayError RelayState :=
  foldl (fun st b => st ← st; snd <$> apply_btc_header_batch b 1000 sample_anchor st)
    (Ok RelayState_new) batches.

Definition side_branch_demo : bool :=
  match relay_after [main_batch] with
  | Ok best =>
      match snd <$> apply_btc_header_batch [side_header] 1000 sample_anchor best with
      | Ok relay =>
          bool_decide (rl_tip relay = rl_tip best) && bool_decide (rl_tip relay <> None) &&
          bool_decide (rl_tip relay <> Some (block_hash side_header)) &&
          bool_decide (Forall (fun h => sh_prev_hash h <> block_hash side_header) main_batch) &&
          match check_payment relay ∅ [] 2 true (replicate 20 9) 5000 [4; 5] (block_hash side_header) []
                  0 (enc_legacy sample_btx) with
          | Ok (txid, vout) => bool_decide (txid = sha256d (enc_legacy sample_btx)) && (vout =? 1)
          | _ => false
          end
      | _ => false
      end
  | _ => false
  end.

Lemma side_branch_demo_true : side_branch_demo = true.
Proof. vm_compute. reflexivity. Qed.

Lemma relay_after_snoc bs b : relay_after (bs ++ [b]) =
  (st ← relay_after bs; snd <$> apply_btc_header_batch b 1000 sample_anchor st).
Proof. unfold relay_after. by rewrite foldl_app. Qed.

(** A payment on a side branch is as good as one on the best branch: a
    relay that has accepted two headers of the best branch and then a header
    of a side branch with next to no work keeps its tip, and still a claim
    that needs two confirmations accepts a payment in that side block, because
    confirmations are the height of the tip less the height of the block. *)
Theorem side_branch_payment_accepted :
  exists best relay,
    relay_after [main_batch] = Ok best /\ relay_after [main_batch; [side_header]] = Ok relay /\
    rl_tip relay = rl_tip best /\ rl_tip relay <> None /\ rl_tip relay <> Some (block_hash side_header) /\
    Forall (fun h => sh_prev_hash h <> block_hash side_header) main_batch /\
    check_payment relay ∅ [] 2 true (replicate 20 9) 5000 [4; 5] (block_hash side_header) [] 0
      (enc_legacy sample_btx) = Ok (sha256d (enc_legacy sample_btx), 1).
Proof.
  pose proof side_branch_demo_true as H. unfold side_branch_demo in H.
  destruct (relay_after [main_batch]) as [best| |] eqn:Hb; [|done..].
  destruct (snd <$> _) as [relay| |] eqn:Hr; [|done..].
  rewrite !andb_true_iff, !bool_decide_eq_true in H. destruct H as [[[[H1 H2] H3] H4] H5].
  exists best, relay. split_and!; [done| |done..|].
  - change (relay_after ([main_batch] ++ [[side_header]]) = Ok relay).
    rewrite relay_after_snoc, Hb. exact Hr.
  - destruct (check_payment _ _ _ _ _ _ _ _ _ _ _ _) as [[t v]| |]; [|done..].
    rewrite andb_true_iff, bool_decide_eq_true, Z.eqb_eq in H5. by destruct H5 as [-> ->].
Qed.

(** A time-locked script of the form of the genesis allocation, [<height>
    CHECKLOCKTIMEVERIFY DROP] in front of a plain key-hash script, is not a
    script the node knows: no transaction spends such an output at any height. *)
Theorem timelock_script_unspendable `{C : Crypto} a tx i txin utxo height view bu lu lock pkh :
  len lock = 3 -> len pkh = 20 ->
  script_pubkey utxo = [3] ++ lock ++ [0xb1; 0x75] ++ p2pkh_script pkh ->
  verify_transaction_signature a tx i txin utxo height view bu lu = NoneR.
Proof.
  intros Hl Hp Hs. unfold verify_transaction_signature. rewrite Hs.
  cbn [app]. rewrite unknown_first_byte; [done|].
  apply (bool_decide_unpack _). vm_compute. exact I.
Qed.

Lemma timelock_script_unspendable_witness :
  verify_transaction_signature all_active sample_htlc_claim 0 (input_of sample_htlc_claim 0)
    {| value := 350000000000000; script_pubkey := [3; 0xf0; 0x67; 0x02; 0xb1; 0x75] ++
         p2pkh_script (replicate 20 9) |} 160000 empty_view [] [] = NoneR.
Proof.
  by apply (timelock_script_unspendable all_active sample_htlc_claim 0 _ _ 160000 empty_view [] []
              [0xf0; 0x67; 0x02] (replicate 20 9)).
Defined.
