(* ===== verification/Ledger.v ===== *)
(** * Ledger: the unspent outputs and what a block does to them
    ([src/src/chain.rs]: [validate_transaction_internal],
    [validate_transaction], [calculate_fees],
    [validate_and_apply_transactions] and the undo part of
    [disconnect_tip_block])

    The ledger is the part of [ChainState] that transactions change: the
    unspent outputs, the two header relays and the two sets of foreign
    outpoints that have paid.  Applying a block returns the ledger next to the
    outcome, since the code changes the relays before it knows whether the
    block is valid: after an error they keep what was applied.

    Shown here: no coin is created but the subsidy, and none is spent twice;
    undoing a block restores the ledger; a failed
    block leaves everything but the relays alone, and can change the relays. *)

From S2P Require Import Prelude Crypto Pow Script TxCodec Witness Activation Constants.
From S2P Require Import Header Difficulty Spv Spend.

(** ** Parameters ([ChainParams]), the optional activation heights *)
Record ChainParams := {
  pow_limit : Target;
  genesis_header : BlockHeader;
  htlcv1_activation_height : option Z;
  mpsov1_activation_height : option Z;
  lwma : LwmaParams;
  lwma_v2 : option LwmaParams;
  auxpow_activation_height : option Z;
  btc_spv : option BtcSpvParams;
  ltc_spv : option LtcSpvParams;
  htlc_btc_swap_v1_activation_height : option Z;
  btc_swap_bech32_payment_activation_height : option Z;
  htlc_ltc_swap_v1_activation_height : option Z;
  swap_order_v1_activation_height : option Z;
  ltc_swap_order_v1_activation_height : option Z;
  coinbase_header_batch_activation_height : option Z
}.

(** The [*_active_at] methods, for one height. *)
Definition rules_at (p : ChainParams) (height : Z) : Active :=
  {| htlcv1_active := active_at (htlcv1_activation_height p) height;
     mpsov1_active := active_at (mpsov1_activation_height p) height;
     btc_spv_relay_active := active_at (btc_activation_height <$> btc_spv p) height;
     ltc_spv_relay_active := active_at (ltc_activation_height <$> ltc_spv p) height;
     htlc_btc_swap_v1_active := active_at (htlc_btc_swap_v1_activation_height p) height;
     btc_swap_bech32_payment_active := active_at (btc_swap_bech32_payment_activation_height p) height;
     htlc_ltc_swap_v1_active := active_at (htlc_ltc_swap_v1_activation_height p) height;
     swap_order_v1_active := active_at (swap_order_v1_activation_height p) height;
     ltc_swap_order_v1_active := active_at (ltc_swap_order_v1_activation_height p) height |}.

Definition coinbase_header_batch_active_at (p : ChainParams) (height : Z) : bool :=
  active_at (coinbase_header_batch_activation_height p) height.

Definition btc_anchor_of (p : ChainParams) : SpvAnchor :=
  match btc_spv p with Some s => btc_anchor s | None => SpvAnchor_zero end.
Definition ltc_anchor_of (p : ChainParams) : SpvAnchor :=
  match ltc_spv p with Some s => ltc_anchor s | None => SpvAnchor_zero end.
Definition ltc_retarget_params (p : ChainParams) : RetargetParams :=
  match ltc_spv p with Some s => ltc_retarget s | None => LITECOIN end.

(** ** State *)
Abbreviation OutPoint := (bytes * Z)%type.

Record UtxoEntry := { ue_output : TxOutput; ue_height : Z; ue_is_coinbase : bool }.

Record BlockUndo := {
  undo_spent : list (OutPoint * UtxoEntry);
  undo_created : list OutPoint;
  subsidy_created : Z;
  btc_relay_update : option RelayUpdate;
  ltc_relay_update : option RelayUpdate;
  claimed_btc_outpoints_added : list ForeignOut;
  claimed_ltc_outpoints_added : list ForeignOut
}.

Record Ledger := {
  utxos : gmap OutPoint UtxoEntry;
  btc : RelayState;
  claimed_btc_outpoints : gset ForeignOut;
  ltc : RelayState;
  claimed_ltc_outpoints : gset ForeignOut
}.

Definition build_consensus_view (l : Ledger) : ConsensusView :=
  {| v_btc := btc l; v_claimed_btc := claimed_btc_outpoints l;
     v_ltc := ltc l; v_claimed_ltc := claimed_ltc_outpoints l |}.

(** Errors: a message, or the error of a header relay. *)
Inductive BlockError := Msg (s : string) | Relay (e : RelayError).

(** What the transactions of a block have used up so far. *)
Record Spending := {
  seen_inputs : gset OutPoint;
  fees : Z;
  btc_used : list ForeignOut;
  ltc_used : list ForeignOut
}.

Section ledger.
Context `{C : Crypto} (env : Env) (p : ChainParams).

(** ** One transaction *)
Definition check_input (l : Ledger) (height : Z) (tx : Transaction) (input_index : Z)
    (txin : TxInput) (sp : Spending) : res string (Spending * Z) :=
  if negb (len (prev_txid txin) =? 32) then Err "Transaction input has invalid txid length"%string else
  let key := (prev_txid txin, prev_index txin) in
  if bool_decide (key ∈ seen_inputs sp)
  then Err "Transaction input double spent within block"%string else
  utxo_entry ← ok_or (utxos l !! key) "Referenced UTXO is missing"%string;
  if ue_is_coinbase utxo_entry && (sat_sub height (ue_height utxo_entry) <? coinbase_maturity env)
  then Err "Coinbase UTXO not mature"%string else
  '(bu, lu) ← map_err (fun _ => "Transaction signature verification failed"%string)
    (verify_transaction_signature (rules_at p height) tx input_index txin (ue_output utxo_entry)
       height (build_consensus_view l) (btc_used sp) (ltc_used sp));
  Ok ({| seen_inputs := {[key]} ∪ seen_inputs sp; fees := fees sp; btc_used := bu; ltc_used := lu |},
      as_i64 (value (ue_output utxo_entry))).

(** The input loop; [input_total] is an [i64]. *)
Fixpoint check_inputs (l : Ledger) (height : Z) (tx : Transaction) (inputs : list TxInput)
    (input_index : Z) (sp : Spending) (input_total : Z) : res string (Spending * Z) :=
  match inputs with
  | [] => Ok (sp, input_total)
  | txin :: inputs =>
      '(sp, v) ← check_input l height tx input_index txin sp;
      check_inputs l height tx inputs (input_index + 1) sp (wadd_i64 input_total v)
  end.

(** The output loop; [output_total] is an [i64]. *)
Fixpoint check_outputs (height : Z) (outputs : list TxOutput) (output_total : Z) : res string Z :=
  match outputs with
  | [] => Ok output_total
  | output :: outputs =>
      _ ← validate_output (rules_at p height) height output;
      check_outputs height outputs (wadd_i64 output_total (as_i64 (value output)))
  end.

Definition validate_transaction_internal (l : Ledger) (tx : Transaction) (height : Z) (sp : Spending)
    : res string Spending :=
  '(sp, input_total) ← check_inputs l height tx (tx_inputs tx) 0 sp 0;
  output_total ← check_outputs height (tx_outputs tx) 0;
  if input_total <? output_total then Err "Transaction spends more than available inputs"%string else
  let fees := wadd_i64 (fees sp) (as_i64 (input_total - output_total)) in
  if (fees <? 0) || (MAX_MONEY <? as_u64 fees) then Err "Fee accounting overflow"%string else
  Ok {| seen_inputs := seen_inputs sp; fees := fees; btc_used := btc_used sp; ltc_used := ltc_used sp |}.

Definition no_spending : Spending :=
  {| seen_inputs := ∅; fees := 0; btc_used := []; ltc_used := [] |}.

(** [validate_transaction] and [calculate_fees], with the height of the chain *)
Definition validate_transaction (l : Ledger) (chain_height : Z) (tx : Transaction) : res string unit :=
  if len (tx_inputs tx) =? 0 then Err "Transaction must have at least one input"%string else
  if len (tx_outputs tx) =? 0 then Err "Transaction must have at least one output"%string else
  _ ← validate_transaction_internal l tx chain_height no_spending; Ok tt.

Definition calculate_fees (l : Ledger) (chain_height : Z) (tx : Transaction) : res string Z :=
  sp ← validate_transaction_internal l tx chain_height no_spending; Ok (as_u64 (fees sp)).

(** ** The transactions of a block *)

(** The variables of [validate_and_apply_transactions], and the relays. *)
Record Work := {
  w_btc : RelayState;
  w_ltc : RelayState;
  w_spending : Spending;
  w_created : list (OutPoint * TxOutput * bool);
  w_btc_update : option RelayUpdate;
  w_btc_count : Z;
  w_ltc_update : option RelayUpdate;
  w_ltc_count : Z
}.

Definition start_work (l : Ledger) : Work :=
  {| w_btc := btc l; w_ltc := ltc l; w_spending := no_spending; w_created := [];
     w_btc_update := None; w_btc_count := 0; w_ltc_update := None; w_ltc_count := 0 |}.

(** The ledger with the relays as they are now. *)
Definition with_relays (l : Ledger) (w : Work) : Ledger :=
  {| utxos := utxos l; btc := w_btc w; claimed_btc_outpoints := claimed_btc_outpoints l;
     ltc := w_ltc w; claimed_ltc_outpoints := claimed_ltc_outpoints l |}.

(** A step of the block: it leaves the relays as they are when it fails. *)
Abbreviation Step := (Work -> Work * res BlockError unit).

Definition set_btc (w : Work) (st : RelayState) (upd : option RelayUpdate) (n : Z) : Work :=
  {| w_btc := st; w_ltc := w_ltc w; w_spending := w_spending w; w_created := w_created w;
     w_btc_update := upd; w_btc_count := n; w_ltc_update := w_ltc_update w; w_ltc_count := w_ltc_count w |}.
Definition set_ltc (w : Work) (st : RelayState) (upd : option RelayUpdate) (n : Z) : Work :=
  {| w_btc := w_btc w; w_ltc := st; w_spending := w_spending w; w_created := w_created w;
     w_btc_update := w_btc_update w; w_btc_count := w_btc_count w; w_ltc_update := upd; w_ltc_count := n |}.
Definition set_spending (w : Work) (sp : Spending) : Work :=
  {| w_btc := w_btc w; w_ltc := w_ltc w; w_spending := sp; w_created := w_created w;
     w_btc_update := w_btc_update w; w_btc_count := w_btc_count w;
     w_ltc_update := w_ltc_update w; w_ltc_count := w_ltc_count w |}.
Definition push_created (w : Work) (c : OutPoint * TxOutput * bool) : Work :=
  {| w_btc := w_btc w; w_ltc := w_ltc w; w_spending := w_spending w; w_created := w_created w ++ [c];
     w_btc_update := w_btc_update w; w_btc_count := w_btc_count w;
     w_ltc_update := w_ltc_update w; w_ltc_count := w_ltc_count w |}.

Definition fail (e : string) : Step := fun w => (w, Err (Msg e)).

(** A header batch in an output of a transaction. *)
Definition apply_btc_output (height block_time : Z) (output : TxOutput) : Step := fun w =>
  if negb (btc_spv_relay_active (rules_at p height))
  then fail "BtcHeaderBatch output before SPV relay activation" w else
  let n := w_btc_count w + 1 in
  if 1 <? n then fail "block contains more than one BtcHeaderBatch output" w else
  match parse_btc_header_batch (script_pubkey output) with
  | Panic => (w, Panic)
  | Err e => fail (String.append "BtcHeaderBatch apply parse failed: " e) w
  | Ok headers =>
      match apply_btc_header_batch headers block_time (btc_anchor_of p) (w_btc w) with
      | Panic => (w, Panic)
      | Err e => (w, Err (Relay e))
      | Ok (upd, st) => (set_btc w st (Some upd) n, Ok tt)
      end
  end.

Definition apply_ltc_output (height block_time : Z) (output : TxOutput) : Step := fun w =>
  if negb (ltc_spv_relay_active (rules_at p height))
  then fail "LtcHeaderBatch output before SPV relay activation" w else
  let n := w_ltc_count w + 1 in
  if 1 <? n then fail "block contains more than one LtcHeaderBatch output" w else
  match parse_ltc_header_batch (script_pubkey output) with
  | Panic => (w, Panic)
  | Err e => fail (String.append "LtcHeaderBatch apply parse failed: " e) w
  | Ok headers =>
      match apply_ltc_header_batch headers block_time (ltc_anchor_of p) (ltc_retarget_params p) (w_ltc w) with
      | Panic => (w, Panic)
      | Err e => (w, Err (Relay e))
      | Ok (upd, st) => (set_ltc w st (Some upd) n, Ok tt)
      end
  end.

(** The output loop of a transaction. *)
Fixpoint apply_outputs (height block_time : Z) (txid : bytes) (index : Z) (outputs : list TxOutput)
    : Step := fun w =>
  match outputs with
  | [] => (w, Ok tt)
  | output :: outputs =>
      let '(w, r) :=
        if has_tag output BTC_HEADER_BATCH_TAG then apply_btc_output height block_time output w
        else if has_tag output LTC_HEADER_BATCH_TAG then apply_ltc_output height block_time output w
        else (push_created w ((txid, as_u32 index), output, false), Ok tt) in
      match r with
      | Ok _ => apply_outputs height block_time txid (index + 1) outputs w
      | Err e => (w, Err e)
      | Panic => (w, Panic)
      end
  end.

(** The loop over [block.transactions[1..]]. *)
Fixpoint apply_transactions (l : Ledger) (height block_time : Z) (txs : list Transaction) : Step :=
  fun w =>
  match txs with
  | [] => (w, Ok tt)
  | tx :: txs =>
      match validate_transaction_internal (with_relays l w) tx height (w_spending w) with
      | Panic => (w, Panic)
      | Err e => fail e w
      | Ok sp =>
          let '(w, r) := apply_outputs height block_time (txid tx) 0 (tx_outputs tx) (set_spending w sp) in
          match r with
          | Ok _ => apply_transactions l height block_time txs w
          | Err e => (w, Err e)
          | Panic => (w, Panic)
          end
      end
  end.

(** ** The coinbase *)

(** [coinbase_carrier_soft_apply_error]: the two messages it looks for. *)
Definition coinbase_carrier_soft_apply_error (e : RelayError) : bool :=
  match e with NotConnected | AlreadyKnown _ => true | _ => false end.

Definition apply_coinbase_btc (height block_time : Z) (count : Z) (output : TxOutput) : Step := fun w =>
  if negb (coinbase_header_batch_active_at p height)
  then fail "BtcHeaderBatch output not allowed in coinbase" w else
  if negb (btc_spv_relay_active (rules_at p height))
  then fail "coinbase BtcHeaderBatch before SPV relay activation" w else
  if negb (value output =? 0) then fail "coinbase BtcHeaderBatch output must have value=0" w else
  if 1 <? count then fail "coinbase contains more than one BtcHeaderBatch output" w else
  if bool_decide (is_Some (w_btc_update w))
  then fail "block contains both coinbase and regular-tx BtcHeaderBatch" w else
  match parse_btc_header_batch (script_pubkey output) with
  | Panic => (w, Panic)
  | Err e => fail (String.append "coinbase BtcHeaderBatch parse failed: " e) w
  | Ok headers =>
      match apply_btc_header_batch headers block_time (btc_anchor_of p) (w_btc w) with
      | Panic => (w, Panic)
      | Ok (upd, st) => (set_btc w st (Some upd) (w_btc_count w), Ok tt)
      | Err e => if coinbase_carrier_soft_apply_error e then (w, Ok tt) else (w, Err (Relay e))
      end
  end.

Definition apply_coinbase_ltc (height block_time : Z) (count : Z) (output : TxOutput) : Step := fun w =>
  if negb (coinbase_header_batch_active_at p height)
  then fail "LtcHeaderBatch output not allowed in coinbase" w else
  if negb (ltc_spv_relay_active (rules_at p height))
  then fail "coinbase LtcHeaderBatch before SPV relay activation" w else
  if negb (value output =? 0) then fail "coinbase LtcHeaderBatch output must have value=0" w else
  if 1 <? count then fail "coinbase contains more than one LtcHeaderBatch output" w else
  if bool_decide (is_Some (w_ltc_update w))
  then fail "block contains both coinbase and regular-tx LtcHeaderBatch" w else
  match parse_ltc_header_batch (script_pubkey output) with
  | Panic => (w, Panic)
  | Err e => fail (String.append "coinbase LtcHeaderBatch parse failed: " e) w
  | Ok headers =>
      match apply_ltc_header_batch headers block_time (ltc_anchor_of p) (ltc_retarget_params p) (w_ltc w) with
      | Panic => (w, Panic)
      | Ok (upd, st) => (set_ltc w st (Some upd) (w_ltc_count w), Ok tt)
      | Err e => if coinbase_carrier_soft_apply_error e then (w, Ok tt) else (w, Err (Relay e))
      end
  end.

Definition DOGE_CARRIER_LEGACY_CUTOFF : Z := 27880.

Definition add_coinbase_value (height : Z) (output : TxOutput) (coinbase_total : Z) : res BlockError Z :=
  _ ← map_err Msg (validate_output (rules_at p height) height output);
  t ← ok_or (checked_add64 coinbase_total (value output)) (Msg "Coinbase outputs overflow");
  if MAX_MONEY <? t then Err (Msg "Coinbase outputs overflow") else Ok t.

(** The loop over the coinbase outputs; [nb] and [nl] count the batches. *)
Fixpoint apply_coinbase (height block_time : Z) (nb nl : Z) (outputs : list TxOutput)
    (coinbase_total : Z) (w : Work) : Work * res BlockError Z :=
  match outputs with
  | [] => (w, Ok coinbase_total)
  | output :: outputs =>
      if has_tag output BTC_HEADER_BATCH_TAG then
        match apply_coinbase_btc height block_time (nb + 1) output w with
        | (w, Ok _) => apply_coinbase height block_time (nb + 1) nl outputs coinbase_total w
        | (w, Err e) => (w, Err e)
        | (w, Panic) => (w, Panic)
        end
      else if has_tag output LTC_HEADER_BATCH_TAG then
        match apply_coinbase_ltc height block_time (nl + 1) output w with
        | (w, Ok _) => apply_coinbase height block_time nb (nl + 1) outputs coinbase_total w
        | (w, Err e) => (w, Err e)
        | (w, Panic) => (w, Panic)
        end
      else if has_tag output 0xc9 && (height <? DOGE_CARRIER_LEGACY_CUTOFF)
      then apply_coinbase height block_time nb nl outputs coinbase_total w
      else
        match add_coinbase_value height output coinbase_total with
        | Ok t => apply_coinbase height block_time nb nl outputs t w
        | Err e => (w, Err e)
        | Panic => (w, Panic)
        end
  end.

(** [created.push] for every coinbase output. *)
Definition coinbase_created (coinbase : Transaction) : list (OutPoint * TxOutput * bool) :=
  imap (fun i output => ((txid coinbase, as_u32 (Z.of_nat i)), output, true)) (tx_outputs coinbase).

(** ** Commit *)
Definition insert_created (height : Z) (m : gmap OutPoint UtxoEntry)
    (c : OutPoint * TxOutput * bool) : gmap OutPoint UtxoEntry :=
  let '(op, output, is_coinbase) := c in
  <[op := {| ue_output := output; ue_height := height; ue_is_coinbase := is_coinbase |}]> m.

(** The entries of the inputs that were seen; the set is visited in the order
    of its elements, the code's order is that of a hash set. *)
Definition spent_for_undo (m : gmap OutPoint UtxoEntry) (seen : gset OutPoint)
    : list (OutPoint * UtxoEntry) :=
  omap (fun key => e ← m !! key; Some (key, e)) (elements seen).

Definition commit_block (l : Ledger) (height : Z) (w : Work) (subsidy : Z) : Ledger * BlockUndo :=
  let sp := w_spending w in
  let seen := seen_inputs sp in
  let spent := spent_for_undo (utxos l) seen in
  let remaining := foldl (fun m k => delete k m) (utxos l) (elements seen) in
  ({| utxos := foldl (insert_created height) remaining (w_created w);
      btc := w_btc w;
      claimed_btc_outpoints := claimed_btc_outpoints l ∪ list_to_set (btc_used sp);
      ltc := w_ltc w;
      claimed_ltc_outpoints := claimed_ltc_outpoints l ∪ list_to_set (ltc_used sp) |},
   {| undo_spent := spent;
      undo_created := (fun c => c.1.1) <$> w_created w;
      subsidy_created := subsidy;
      btc_relay_update := w_btc_update w;
      ltc_relay_update := w_ltc_update w;
      claimed_btc_outpoints_added := btc_used sp;
      claimed_ltc_outpoints_added := ltc_used sp |}).

(** The checks behind the loops, and the subsidy. *)
Definition check_reward (block_reward_value : Z) (enforce_reward : bool) (max_subsidy : option Z)
    (fees coinbase_total : Z) : res BlockError Z :=
  if enforce_reward && (wadd64 block_reward_value (as_u64 fees) <? coinbase_total)
  then Err (Msg "Coinbase transaction exceeds allowed reward") else
  let available_fees := Z.min fees (as_i64 coinbase_total) in
  let subsidy := sat_sub coinbase_total (as_u64 available_fees) in
  let subsidy := if enforce_reward then Z.min block_reward_value subsidy else subsidy in
  match max_subsidy with
  | Some m => if m <? subsidy then Err (Msg "Coinbase subsidy would exceed permitted supply")
              else Ok subsidy
  | None => Ok subsidy
  end.

(** [validate_and_apply_transactions]: the ledger after it, and what it
    returns: fees, coinbase total, subsidy and undo record. *)
Definition validate_and_apply_transactions (l : Ledger) (transactions : list Transaction)
    (block_time : Z) (block_reward_value height : Z) (enforce_reward : bool) (max_subsidy : option Z)
    : Ledger * res BlockError (Z * Z * Z * BlockUndo) :=
  match transactions with
  | [] => (l, Err (Msg "Block must include transactions"))
  | coinbase :: txs =>
      if negb (is_coinbase coinbase) then (l, Err (Msg "First transaction must be coinbase")) else
      if len (tx_outputs coinbase) =? 0
      then (l, Err (Msg "Coinbase transaction must create outputs")) else
      match apply_transactions l height block_time txs (start_work l) with
      | (w, Panic) => (with_relays l w, Panic)
      | (w, Err e) => (with_relays l w, Err e)
      | (w, Ok _) =>
          match apply_coinbase height block_time 0 0 (tx_outputs coinbase) 0 w with
          | (w, Panic) => (with_relays l w, Panic)
          | (w, Err e) => (with_relays l w, Err e)
          | (w, Ok coinbase_total) =>
              let fees := fees (w_spending w) in
              match check_reward block_reward_value enforce_reward max_subsidy fees coinbase_total with
              | Panic => (with_relays l w, Panic)
              | Err e => (with_relays l w, Err e)
              | Ok subsidy =>
                  let w := {| w_btc := w_btc w; w_ltc := w_ltc w; w_spending := w_spending w;
                              w_created := w_created w ++ coinbase_created coinbase;
                              w_btc_update := w_btc_update w; w_btc_count := w_btc_count w;
                              w_ltc_update := w_ltc_update w; w_ltc_count := w_ltc_count w |} in
                  let '(l, undo) := commit_block l height w subsidy in
                  (l, Ok (as_u64 fees, coinbase_total, subsidy, undo))
              end
          end
      end
  end.

(** ** Undo: the part of [disconnect_tip_block] that restores the ledger *)
Definition undo_relay (upd : option RelayUpdate) (st : RelayState) : RelayState :=
  match upd with Some u => undo_relay_update u st | None => st end.

Definition undo_utxos (undo : BlockUndo) (m : gmap OutPoint UtxoEntry) : gmap OutPoint UtxoEntry :=
  foldl (fun m '(op, entry) => <[op := entry]> m)
    (foldl (fun m op => delete op m) m (undo_created undo)) (undo_spent undo).

Definition undo_block (undo : BlockUndo) (l : Ledger) : Ledger :=
  {| utxos := undo_utxos undo (utxos l);
     btc := undo_relay (btc_relay_update undo) (btc l);
     claimed_btc_outpoints :=
       foldl (fun s o => s ∖ {[o]}) (claimed_btc_outpoints l) (claimed_btc_outpoints_added undo);
     ltc := undo_relay (ltc_relay_update undo) (ltc l);
     claimed_ltc_outpoints :=
       foldl (fun s o => s ∖ {[o]}) (claimed_ltc_outpoints l) (claimed_ltc_outpoints_added undo) |}.
End ledger.

(** ** Sums of coins

    An output of the retired carrier tag [0xc9] is no coin: nothing spends it. *)
Definition zsum (xs : list Z) : Z := foldr Z.add 0 xs.

#[export] Instance zsum_perm : Proper ((≡ₚ) ==> (=)) zsum.
Proof. unfold zsum. induction 1; cbn in *; lia. Qed.

Lemma zsum_app xs ys : zsum (xs ++ ys) = zsum xs + zsum ys.
Proof. unfold zsum. induction xs; cbn in *; lia. Qed.

Lemma zsum_bound (m : Z) xs : Forall (fun x => 0 <= x <= m) xs -> 0 <= zsum xs <= m * len xs.
Proof.
  unfold zsum. induction 1 as [|x xs Hx _ IH]; cbn [foldr]; [change (len (@nil Z)) with 0; lia | rewrite len_cons; lia].
Qed.

Definition coin (o : TxOutput) : Z := if has_tag o 0xc9 then 0 else value o.

Definition supply (m : gmap OutPoint UtxoEntry) : Z :=
  zsum ((fun e => coin (ue_output e)) <$> (map_to_list m).*2).

Lemma supply_empty : supply ∅ = 0.
Proof. unfold supply. by rewrite map_to_list_empty. Qed.

Lemma supply_insert m k e :
  m !! k = None -> supply (<[k := e]> m) = coin (ue_output e) + supply m.
Proof. intros H. unfold supply. by rewrite map_to_list_insert. Qed.

Lemma supply_delete m k e : m !! k = Some e -> supply (delete k m) = supply m - coin (ue_output e).
Proof.
  intros H. rewrite <- (insert_delete_id m k e H) at 2.
  rewrite supply_insert by apply lookup_delete_eq. lia.
Qed.

(** The coins of the unspent outputs are amounts. *)
Definition amount (o : TxOutput) : Prop := 0 <= value o /\ coin o <= MAX_MONEY.

Definition amounts (m : gmap OutPoint UtxoEntry) : Prop :=
  forall k e, m !! k = Some e -> amount (ue_output e).

Lemma coin_bounds o : 0 <= value o -> 0 <= coin o <= value o.
Proof. unfold coin. case_match; lia. Qed.

Lemma amounts_subseteq m m' : m ⊆ m' -> amounts m' -> amounts m.
Proof. intros Hm Ha k e He. eapply Ha, lookup_weaken; done. Qed.

Lemma supply_subseteq m m' : m ⊆ m' -> amounts m' -> 0 <= supply m <= supply m'.
Proof.
  revert m'. induction m as [|k e m Hk IH] using map_ind; intros m' Hm Ha.
  - rewrite supply_empty. split; [done|]. clear Hm.
    induction m' as [|k e m' Hk IH] using map_ind; [by rewrite supply_empty|].
    rewrite supply_insert by done.
    assert (amounts m') as Ha' by (eapply amounts_subseteq; [by apply insert_subseteq | done]).
    specialize (IH Ha'). destruct (Ha k e) as [Hv _]; [by rewrite lookup_insert_eq|].
    pose proof (coin_bounds (ue_output e)). lia.
  - assert (m' !! k = Some e) as He by (eapply lookup_weaken; [by rewrite lookup_insert_eq | done]).
    rewrite supply_insert by done. pose proof (supply_delete m' k e He) as Hd.
    destruct (IH (delete k m')) as [? ?].
    + apply map_subseteq_spec. intros k' e' He'. rewrite lookup_delete_ne by congruence.
      eapply lookup_weaken; [|exact Hm]. rewrite lookup_insert_ne by congruence. done.
    + eapply amounts_subseteq; [apply delete_subseteq | done].
    + destruct (Ha k e He) as [Hv _]. pose proof (coin_bounds (ue_output e)). lia.
Qed.

Lemma supply_insert_le m k e :
  amounts m -> 0 <= value (ue_output e) -> supply (<[k := e]> m) <= coin (ue_output e) + supply m.
Proof.
  intros Ha He. destruct (m !! k) as [e'|] eqn:Hk; [|by rewrite supply_insert].
  rewrite <- insert_delete_eq, supply_insert by apply lookup_delete_eq.
  rewrite (supply_delete m k e' Hk). destruct (Ha _ _ Hk).
  pose proof (coin_bounds (ue_output e') ltac:(lia)). lia.
Qed.

Definition spent_value (m : gmap OutPoint UtxoEntry) (keys : list OutPoint) : Z :=
  zsum ((fun k => match m !! k with Some e => coin (ue_output e) | None => 0 end) <$> keys).

Lemma spent_value_perm m ks ks' : ks ≡ₚ ks' -> spent_value m ks = spent_value m ks'.
Proof. intros H. unfold spent_value. by rewrite H. Qed.

Lemma spent_value_app m ks ks' : spent_value m (ks ++ ks') = spent_value m ks + spent_value m ks'.
Proof. unfold spent_value. by rewrite fmap_app, zsum_app. Qed.

Lemma spent_value_ext m m' ks :
  (forall k, k ∈ ks -> m !! k = m' !! k) -> spent_value m ks = spent_value m' ks.
Proof.
  intros H. unfold spent_value. f_equal. apply list_fmap_ext. intros i k Hk.
  rewrite H; [done | by eapply list_elem_of_lookup_2].
Qed.

Lemma supply_delete_all m keys :
  NoDup keys -> supply (foldl (fun m k => delete k m) m keys) = supply m - spent_value m keys.
Proof.
  revert m. induction keys as [|k keys IH]; intros m Hd; [cbn; lia|].
  apply NoDup_cons in Hd as [Hk Hd]. cbn [foldl]. rewrite IH by done.
  rewrite (spent_value_ext (delete k m) m).
  2:{ intros k' Hk'. apply lookup_delete_ne. by intros ->. }
  unfold spent_value at 2. cbn [fmap list_fmap zsum foldr]. fold (zsum
    ((fun k => match m !! k with Some e => coin (ue_output e) | None => 0 end) <$> keys)).
  fold (spent_value m keys). destruct (m !! k) as [e|] eqn:He.
  - rewrite (supply_delete m k e He). lia.
  - rewrite delete_id by done. lia.
Qed.

Lemma amounts_delete_all m keys : amounts m -> amounts (foldl (fun m k => delete k m) m keys).
Proof.
  revert m. induction keys as [|k keys IH]; intros m Ha; [done|]. cbn [foldl]. apply IH.
  intros k' e [_ ?]%lookup_delete_Some. by eapply Ha.
Qed.

Definition created_coins (cs : list (OutPoint * TxOutput * bool)) : Z :=
  zsum ((fun c => coin c.1.2) <$> cs).

Definition created_amounts (cs : list (OutPoint * TxOutput * bool)) : Prop :=
  Forall (fun c => amount c.1.2) cs.

Lemma created_coins_app cs cs' : created_coins (cs ++ cs') = created_coins cs + created_coins cs'.
Proof. unfold created_coins. by rewrite fmap_app, zsum_app. Qed.

Lemma supply_insert_all height cs : forall m,
  amounts m -> created_amounts cs ->
  supply (foldl (insert_created height) m cs) <= supply m + created_coins cs /\
  amounts (foldl (insert_created height) m cs).
Proof.
  induction cs as [|[[op o] b] cs IH]; intros m Ha Hc; [cbn; split; [lia | done]|].
  apply Forall_cons in Hc as [Ho Hc]. cbn [foldl]. cbn in Ho.
  destruct (IH (insert_created height m (op, o, b))) as [Hs Hm]; [|done|].
  - intros k e. unfold insert_created. rewrite lookup_insert_Some.
    intros [[<- <-]|[_ Hk]]; [done | by eapply Ha].
  - split; [|done]. unfold created_coins, zsum in *. cbn [fmap list_fmap foldr fst snd].
    assert (supply (insert_created height m (op, o, b)) <= coin o + supply m)
      by (apply supply_insert_le; [done | by destruct Ho]).
    lia.
Qed.

(** ** One transaction *)
Lemma as_i64_small v : - 2 ^ 63 <= v < 2 ^ 63 -> as_i64 v = v.
Proof. intros H. unfold as_i64. rewrite Z.mod_small; lia. Qed.

Lemma MAX_MONEY_val : MAX_MONEY = 10000000000000000.
Proof. reflexivity. Qed.

Lemma as_u64_small v : 0 <= v < 2 ^ 64 -> as_u64 v = v.
Proof. apply Z.mod_small. Qed.

Definition input_key (i : TxInput) : OutPoint := (prev_txid i, prev_index i).

Section transaction.
Context `{C : Crypto} (env : Env) (p : ChainParams).

Lemma verify_not_carrier a tx i txin utxo height view bu lu r :
  verify_transaction_signature a tx i txin utxo height view bu lu = Ok r -> has_tag utxo 0xc9 = false.
Proof.
  unfold verify_transaction_signature, has_tag. destruct (script_pubkey utxo) as [|b s]; [done|].
  cbn [head]. destruct (b =? 0xc9) eqn:Hb; [|done]. apply Z.eqb_eq in Hb as ->.
  rewrite unknown_first_byte; [done|]. apply (bool_decide_unpack _). vm_compute. exact I.
Qed.

(** What a checked input shows. *)
Definition spends (l : Ledger) (height : Z) (tx : Transaction) (idx : Z) (txin : TxInput) : Prop :=
  exists e bu lu r, utxos l !! input_key txin = Some e /\
    (ue_is_coinbase e = true -> coinbase_maturity env <= sat_sub height (ue_height e)) /\
    verify_transaction_signature (rules_at p height) tx idx txin (ue_output e) height
      (build_consensus_view l) bu lu = Ok r.

Lemma check_input_ok l height tx idx txin sp sp' v :
  check_input env p l height tx idx txin sp = Ok (sp', v) ->
  exists e, utxos l !! input_key txin = Some e /\ has_tag (ue_output e) 0xc9 = false /\
    (input_key txin ∉ seen_inputs sp) /\
    seen_inputs sp' = {[input_key txin]} ∪ seen_inputs sp /\ fees sp' = fees sp /\
    v = as_i64 (value (ue_output e)) /\ spends l height tx idx txin /\
    verify_transaction_signature (rules_at p height) tx idx txin (ue_output e) height
      (build_consensus_view l) (btc_used sp) (ltc_used sp) = Ok (btc_used sp', ltc_used sp').
Proof.
  unfold check_input. fold (input_key txin). intros H. invert_parser H.
  destruct (utxos l !! input_key txin) as [e|] eqn:He; [|done]. injection Heqr as <-.
  destruct (verify_transaction_signature _ _ _ _ _ _ _ _ _) as [r| |] eqn:Hv; [|done..].
  injection Heqr0 as ->. injection H as <- <-. exists e. cbn [seen_inputs fees btc_used ltc_used].
  apply bool_decide_eq_false in Heqb0.
  split_and!; try done; [by eapply verify_not_carrier | ].
  exists e, (btc_used sp), (ltc_used sp), (l0, l1). split_and!; [done | | done].
  intros Hc. rewrite Hc in Heqb1. lia.
Qed.

(** [check_inputs] in one go: distinct, unspent outputs; their sum. *)
Lemma check_inputs_ok l height tx ins : forall idx sp t sp' t',
  check_inputs env p l height tx ins idx sp t = Ok (sp', t') ->
  amounts (utxos l) -> 0 <= t -> t + MAX_MONEY * len ins < 2 ^ 63 ->
  NoDup (input_key <$> ins) /\ (forall k, k ∈ input_key <$> ins -> (k ∉ seen_inputs sp) /\ is_Some (utxos l !! k)) /\
  seen_inputs sp' = list_to_set (input_key <$> ins) ∪ seen_inputs sp /\ fees sp' = fees sp /\
  t' = t + spent_value (utxos l) (input_key <$> ins) /\
  (forall i txin, ins !! i = Some txin -> spends l height tx (idx + Z.of_nat i) txin).
Proof.
  induction ins as [|txin ins IH]; intros idx sp t sp' t' H Ha Ht Hb.
  { cbn in H. simplify_eq. cbn. split_and!; [constructor | by intros k ?%not_elem_of_nil
      | by rewrite (left_id_L ∅ (∪))
      | done | unfold spent_value; cbn; lia | done]. }
  cbn [check_inputs] in H. rewrite len_cons in Hb.
  destruct (check_input env p l height tx idx txin sp) as [[sp1 v]| |] eqn:Hc; [|done..].
  bind_simpl_in H. apply check_input_ok in Hc as (e & He & Htag & Hk & Hs & Hf & -> & Hsp & _).
  destruct (Ha _ _ He) as [Hv0 Hv]. unfold coin in Hv. rewrite Htag in Hv. pose proof (len_nonneg ins).
  pose proof MAX_MONEY_val as Hmm.
  rewrite as_i64_small in H by lia. unfold wadd_i64 in H. rewrite as_i64_small in H by lia.
  apply IH in H as (Hd & Hin & Hs' & Hf' & -> & Hall); [|done|lia|lia].
  rewrite Hs in Hin. split_and!.
  - apply NoDup_cons. split; [|done]. intros [Hx _]%Hin.
    by apply Hx, elem_of_union_l, elem_of_singleton.
  - intros k [-> | [Hx ?]%Hin]%elem_of_cons; [split; [done | by eexists]|].
    split; [|done]. intros Hy. by apply Hx, elem_of_union_r.
  - rewrite Hs', Hs. cbn. by rewrite (assoc_L (∪)), (comm_L (∪) {[_]}).
  - congruence.
  - unfold spent_value. cbn [fmap list_fmap zsum foldr]. rewrite He. unfold coin, zsum. rewrite Htag. lia.
  - intros [|i] tin Hi; cbn in Hi; [simplify_eq; by rewrite Z.add_0_r|].
    apply Hall in Hi. by replace (idx + Z.of_nat (S i)) with (idx + 1 + Z.of_nat i) by lia.
Qed.

Lemma validate_output_amount a height o u : validate_output a height o = Ok u -> value o <= MAX_MONEY.
Proof. unfold validate_output. destruct (_ <? value o) eqn:?; [done|lia]. Qed.

Lemma check_outputs_ok height outs : forall t t',
  check_outputs p height outs t = Ok t' -> Forall wf_output outs ->
  0 <= t -> t + MAX_MONEY * len outs < 2 ^ 63 ->
  t' = t + zsum (value <$> outs) /\ Forall (fun o => 0 <= value o <= MAX_MONEY) outs.
Proof.
  induction outs as [|o outs IH]; intros t t' H Hw Ht Hb; [cbn in *; simplify_eq; split; [lia | constructor]|].
  cbn [check_outputs] in H. rewrite len_cons in Hb. pose proof (len_nonneg outs).
  apply Forall_cons in Hw as [[Hv _] Hw]. unfold u64 in Hv.
  destruct (validate_output _ height o) eqn:Ho; [|done..]. bind_simpl_in H.
  apply validate_output_amount in Ho. pose proof MAX_MONEY_val as Hmm.
  rewrite as_i64_small in H by lia. unfold wadd_i64 in H. rewrite as_i64_small in H by lia.
  apply IH in H as [-> ?]; [|done|lia|lia].
  cbn [fmap list_fmap zsum foldr]. split; [unfold zsum; lia | constructor; [lia|done]].
Qed.

(** A valid transaction: its inputs are distinct unspent outputs, and its fee
    is what they are worth less what the outputs are worth, without wrap-around. *)
Lemma validate_transaction_ok l tx height sp sp' :
  validate_transaction_internal env p l tx height sp = Ok sp' ->
  amounts (utxos l) -> wire_tx tx -> 0 <= fees sp <= MAX_MONEY ->
  let keys := input_key <$> tx_inputs tx in
  NoDup keys /\ (forall k, k ∈ keys -> (k ∉ seen_inputs sp) /\ is_Some (utxos l !! k)) /\
  seen_inputs sp' = list_to_set keys ∪ seen_inputs sp /\
  fees sp' = fees sp + spent_value (utxos l) keys - zsum (value <$> tx_outputs tx) /\
  0 <= fees sp' <= MAX_MONEY /\
  zsum (value <$> tx_outputs tx) <= spent_value (utxos l) keys /\
  Forall (fun o => 0 <= value o <= MAX_MONEY) (tx_outputs tx) /\
  (forall i txin, tx_inputs tx !! i = Some txin -> spends l height tx (Z.of_nat i) txin).
Proof.
  intros H Ha (_ & _ & Hni & Hwo & Hno & _) Hf keys. unfold validate_transaction_internal in H.
  destruct (check_inputs env p l height tx (tx_inputs tx) 0 sp 0) as [[sp1 t]| |] eqn:Hi; [|done..].
  bind_simpl_in H. pose proof MAX_MONEY_val as Hmm.
  apply check_inputs_ok in Hi as (Hd & Hin & Hs & Hfe & -> & Hall); [|done|lia|lia].
  destruct (check_outputs p height (tx_outputs tx) 0) as [ot| |] eqn:Ho; [|done..].
  bind_simpl_in H. apply check_outputs_ok in Ho as [-> Hos]; [|done|lia|lia].
  rewrite !Z.add_0_l in H. rewrite Hfe in H. fold keys in Hd, Hin, Hs, H.
  assert (0 <= spent_value (utxos l) keys <= MAX_MONEY * len keys) as Hsv.
  { assert (Forall (fun x => 0 <= x <= MAX_MONEY)
      ((fun k => match utxos l !! k with Some e => coin (ue_output e) | None => 0 end) <$> keys)) as Hfb.
    { apply Forall_fmap, Forall_forall. intros k Hk. cbn. destruct (utxos l !! k) as [e|] eqn:He; [|lia].
      destruct (Ha _ _ He). pose proof (coin_bounds (ue_output e)). lia. }
    apply zsum_bound in Hfb. unfold len in *. by rewrite length_fmap in Hfb. }
  assert (0 <= zsum (value <$> tx_outputs tx) <= MAX_MONEY * len (tx_outputs tx)) as Hov.
  { assert (Forall (fun x => 0 <= x <= MAX_MONEY) (value <$> tx_outputs tx)) as Hfb by (by apply Forall_fmap).
    apply zsum_bound in Hfb. unfold len in *. by rewrite length_fmap in Hfb. }
  assert (len keys <= 255) by (unfold keys, len in *; by rewrite length_fmap).
  destruct (_ <? _) eqn:Hlt; [done|]. destruct (_ || _) eqn:Hov2; [done|].
  unfold wadd_i64 in *. rewrite (as_i64_small (_ - _)) in H, Hov2 by lia.
  rewrite (as_i64_small (fees sp + _)) in H, Hov2 by lia. rewrite as_u64_small in Hov2 by lia.
  injection H as <-. cbn [seen_inputs fees]. split_and!; try done; lia.
Qed.
End transaction.

(** ** A block *)
Section block.
Context `{C : Crypto} (env : Env) (p : ChainParams).

(** The state of one relay inside a block, if it was consistent before:
    untouched, or changed by one batch whose record undoes it. *)
Definition relay_ok (anchor : SpvAnchor) (before now : RelayState) (upd : option RelayUpdate) : Prop :=
  relay_inv anchor before -> relay_inv anchor now /\ undo_relay upd now = before.

(** The relays of a ledger between blocks. *)
Record relays_ok (l : Ledger) : Prop := {
  lo_btc : relay_inv (btc_anchor_of p) (btc l);
  lo_ltc : relay_inv (ltc_anchor_of p) (ltc l)
}.

(** The variables inside a block, against the ledger before it: what was
    created and the fees are covered by what was spent. *)
Record work_ok (l : Ledger) (w : Work) : Prop := {
  wo_fees : 0 <= fees (w_spending w) <= MAX_MONEY;
  wo_seen : forall k, k ∈ seen_inputs (w_spending w) -> is_Some (utxos l !! k);
  wo_sum : created_coins (w_created w) + fees (w_spending w) <=
           spent_value (utxos l) (elements (seen_inputs (w_spending w)));
  wo_amounts : created_amounts (w_created w);
  wo_btc : relay_ok (btc_anchor_of p) (btc l) (w_btc w) (w_btc_update w);
  wo_btc_count : 0 <= w_btc_count w /\ (w_btc_update w = None \/ 1 <= w_btc_count w);
  wo_ltc : relay_ok (ltc_anchor_of p) (ltc l) (w_ltc w) (w_ltc_update w);
  wo_ltc_count : 0 <= w_ltc_count w /\ (w_ltc_update w = None \/ 1 <= w_ltc_count w);
  wo_btc_used : fresh_used (claimed_btc_outpoints l) (btc_used (w_spending w));
  wo_ltc_used : fresh_used (claimed_ltc_outpoints l) (ltc_used (w_spending w))
}.

Lemma start_work_ok l : work_ok l (start_work l).
Proof.
  split.
  2: intros k Hk; by apply not_elem_of_empty in Hk.
  3: constructor.
  all: try done; try (split; [done | by left]); try (by split; constructor).
Qed.

(** A step for a batch output either fails or records the new relay. *)
Lemma apply_btc_output_ok l height bt o w w' :
  apply_btc_output p height bt o w = (w', Ok tt) -> work_ok l w ->
  work_ok l w' /\ w_spending w' = w_spending w /\ w_created w' = w_created w.
Proof.
  unfold apply_btc_output, fail. intros H [? ? ? ? Hb Hc ? ? ? ?].
  destruct (negb _); [done|]. destruct (1 <? _) eqn:Hn; [done|].
  destruct (parse_btc_header_batch _) as [hs| |]; [|done..].
  destruct (apply_btc_header_batch _ _ _ _) as [[upd st]| |] eqn:Hap; [|done..].
  injection H as <-. destruct Hc as [Hn0 [Hc | Hc]]; [|lia].
  split; [|done]. split; cbn; try done; [|lia]. intros Hi. destruct (Hb Hi) as [Hi1 Hu].
  apply apply_btc_inv in Hap as [Hi' Hu']; [|done]. rewrite Hc in Hu. cbn in Hu |- *. split; [done | congruence].
Qed.

Lemma apply_ltc_output_ok l height bt o w w' :
  apply_ltc_output p height bt o w = (w', Ok tt) -> work_ok l w ->
  work_ok l w' /\ w_spending w' = w_spending w /\ w_created w' = w_created w.
Proof.
  unfold apply_ltc_output, fail. intros H [? ? ? ? ? ? Hb Hc ? ?].
  destruct (negb _); [done|]. destruct (1 <? _) eqn:Hn; [done|].
  destruct (parse_ltc_header_batch _) as [hs| |]; [|done..].
  destruct (apply_ltc_header_batch _ _ _ _ _) as [[upd st]| |] eqn:Hap; [|done..].
  injection H as <-. destruct Hc as [Hn0 [Hc | Hc]]; [|lia].
  split; [|done]. split; cbn; try done; [|lia]. intros Hi. destruct (Hb Hi) as [Hi1 Hu].
  apply apply_ltc_inv in Hap as [Hi' Hu']; [|done]. rewrite Hc in Hu. cbn in Hu |- *. split; [done | congruence].
Qed.

Lemma zsum_values_nonneg outs :
  Forall (fun o => 0 <= value o <= MAX_MONEY) outs -> 0 <= zsum (value <$> outs).
Proof.
  intros H. apply (zsum_bound MAX_MONEY (value <$> outs)). by apply Forall_fmap.
Qed.

Lemma push_created_ok l w c :
  work_ok l w -> amount c.1.2 ->
  coin c.1.2 + created_coins (w_created w) + fees (w_spending w) <=
    spent_value (utxos l) (elements (seen_inputs (w_spending w))) ->
  work_ok l (push_created w c).
Proof.
  intros [] Hv Hs. split; cbn [push_created w_created w_spending]; try done.
  - rewrite created_coins_app. unfold created_coins at 2, zsum. cbn. lia.
  - apply Forall_app. split; [done | by constructor].
Qed.

(** The outputs of a transaction, covered by what is still unspent of its inputs. *)
Lemma apply_outputs_ok l height bt id outs : forall index w w',
  apply_outputs p height bt id index outs w = (w', Ok tt) -> work_ok l w ->
  Forall (fun o => 0 <= value o <= MAX_MONEY) outs ->
  created_coins (w_created w) + zsum (value <$> outs) + fees (w_spending w) <=
    spent_value (utxos l) (elements (seen_inputs (w_spending w))) ->
  work_ok l w' /\ w_spending w' = w_spending w.
Proof.
  induction outs as [|o outs IH]; intros index w w' H Hw Hv Hs; [cbn in H; by simplify_eq|].
  apply Forall_cons in Hv as [Ho Hv]. cbn [apply_outputs] in H. cbn [fmap list_fmap zsum foldr] in Hs.
  fold (zsum (value <$> outs)) in Hs. pose proof (coin_bounds o).
  pose proof (zsum_values_nonneg _ Hv).
  destruct (has_tag o BTC_HEADER_BATCH_TAG); [|destruct (has_tag o LTC_HEADER_BATCH_TAG)].
  - destruct (apply_btc_output p height bt o w) as [w1 [[]| |]] eqn:Hap; [|done..].
    eapply apply_btc_output_ok in Hap as (Hw1 & Hsp & Hcr); [|done].
    apply IH in H as [? ->]; [done | done | done | rewrite Hsp, Hcr; lia].
  - destruct (apply_ltc_output p height bt o w) as [w1 [[]| |]] eqn:Hap; [|done..].
    eapply apply_ltc_output_ok in Hap as (Hw1 & Hsp & Hcr); [|done].
    apply IH in H as [? ->]; [done | done | done | rewrite Hsp, Hcr; lia].
  - apply IH in H as [? ->]; [done | | done | ].
    + apply push_created_ok; [done | split; cbn; lia | cbn; lia].
    + cbn [push_created w_created w_spending]. rewrite created_coins_app.
      unfold created_coins at 2, zsum at 1. cbn. lia.
Qed.

Lemma check_inputs_used l height tx ins : forall idx sp t sp' t',
  check_inputs env p l height tx ins idx sp t = Ok (sp', t') ->
  fresh_used (claimed_btc_outpoints l) (btc_used sp) ->
  fresh_used (claimed_ltc_outpoints l) (ltc_used sp) ->
  fresh_used (claimed_btc_outpoints l) (btc_used sp') /\
  fresh_used (claimed_ltc_outpoints l) (ltc_used sp').
Proof.
  induction ins as [|txin ins IH]; intros idx sp t sp' t' H Hb Hl; [cbn in H; by simplify_eq|].
  cbn [check_inputs] in H. destruct (check_input _ _ _ _ _ _ _ _) as [[sp1 v]| |] eqn:Hc; [|done..].
  apply check_input_ok in Hc as (e & _ & _ & _ & _ & _ & _ & _ & Hv).
  apply verify_used in Hv as (? & ? & _ & _); [|done..]. bind_simpl_in H. by eapply IH.
Qed.

Lemma set_spending_ok l w tx height sp :
  work_ok l w -> amounts (utxos l) -> wire_tx tx ->
  validate_transaction_internal env p (with_relays l w) tx height (w_spending w) = Ok sp ->
  work_ok l (set_spending w sp) /\
  seen_inputs sp = list_to_set (input_key <$> tx_inputs tx) ∪ seen_inputs (w_spending w) /\
  NoDup (input_key <$> tx_inputs tx) /\
  (forall k, k ∈ input_key <$> tx_inputs tx -> k ∉ seen_inputs (w_spending w)) /\
  Forall (fun o => 0 <= value o <= MAX_MONEY) (tx_outputs tx) /\
  created_coins (w_created w) + zsum (value <$> tx_outputs tx) + fees sp <=
    spent_value (utxos l) (elements (seen_inputs sp)).
Proof.
  intros Hw Ha Ht H. pose proof H as Hu.
  apply validate_transaction_ok in H as (Hd & Hin & Hs & Hf & Hfb & Hcov & Hos & _);
    [|done|done|by apply wo_fees with l]. cbn [with_relays utxos] in *.
  assert (spent_value (utxos l) (elements (seen_inputs sp)) =
    spent_value (utxos l) (input_key <$> tx_inputs tx) +
    spent_value (utxos l) (elements (seen_inputs (w_spending w)))) as Hsv.
  { rewrite Hs, <- spent_value_app. apply spent_value_perm.
    rewrite elements_disj_union; [by rewrite elements_list_to_set|].
    intros k Hk%elem_of_list_to_set Hk'. by apply Hin in Hk as [? _]. }
  unfold validate_transaction_internal in Hu.
  destruct (check_inputs _ _ _ _ _ _ _ _ _) as [[sp1 t]| |] eqn:Hci; [|done..]. bind_simpl_in Hu.
  destruct (check_outputs _ _ _ _) as [ot| |]; [|done..]. bind_simpl_in Hu.
  destruct (t <? ot); [done|]. destruct (_ || _); [done|]. injection Hu as <-.
  destruct Hw. apply check_inputs_used in Hci as [? ?]; [|done..].
  cbn [seen_inputs fees] in *. split_and!; try done; [|by intros k [? _]%Hin | lia].
  pose proof (zsum_values_nonneg _ Hos).
  split; cbn [set_spending w_created w_spending seen_inputs fees]; try done; [|lia].
  rewrite Hs. intros k [Hk%elem_of_list_to_set | Hk]%elem_of_union.
  - by apply Hin in Hk as [_ ?].
  - by apply wo_seen0.
Qed.

Definition block_inputs (txs : list Transaction) : list OutPoint :=
  txs ≫= fun tx => input_key <$> tx_inputs tx.

Lemma apply_transactions_ok l height bt txs : forall w w',
  apply_transactions env p l height bt txs w = (w', Ok tt) ->
  amounts (utxos l) -> Forall wire_tx txs -> work_ok l w ->
  work_ok l w' /\
  seen_inputs (w_spending w') = list_to_set (block_inputs txs) ∪ seen_inputs (w_spending w) /\
  NoDup (block_inputs txs) /\
  (forall k, k ∈ block_inputs txs -> k ∉ seen_inputs (w_spending w)).
Proof.
  induction txs as [|tx txs IH]; intros w w' H Ha Hw Hwo.
  { cbn in H. simplify_eq. split_and!; [done | cbn; by rewrite (left_id_L ∅ (∪)) | constructor
      | by intros k ?%not_elem_of_nil]. }
  apply Forall_cons in Hw as [Ht Hw]. cbn [apply_transactions] in H.
  destruct (validate_transaction_internal _ _ _ _ _ _) as [sp| |] eqn:Hv; [|done..].
  eapply set_spending_ok in Hv as (Hwo1 & Hs & Hd & Hin & Hos & Hcov); [|done..].
  destruct (apply_outputs _ _ _ _ _ _ _) as [w1 [[]| |]] eqn:Hao; [|done..].
  eapply apply_outputs_ok in Hao as [Hwo2 Hsp]; [|done|done|cbn [set_spending w_created w_spending]; lia].
  apply IH in H as (Hwo3 & Hs3 & Hd3 & Hin3); [|done..].
  rewrite Hsp in Hs3, Hin3. cbn [set_spending w_spending] in *. rewrite Hs in Hs3, Hin3.
  unfold block_inputs in *. cbn [mbind list_bind]. split_and!; [done | | | ].
  - rewrite Hs3, list_to_set_app_L, !(assoc_L (∪)). f_equal. apply (comm_L (∪)).
  - apply NoDup_app. split_and!; [done | | done]. intros k Hk Hk'. apply Hin3 in Hk'.
    apply Hk'. by apply elem_of_union_l, elem_of_list_to_set.
  - intros k [Hk | Hk]%elem_of_app; [by apply Hin|]. apply Hin3 in Hk. intros ?.
    by apply Hk, elem_of_union_r.
Qed.

(** *** The coinbase

    After it the batch counters play no role, so only the rest of [work_ok] is
    kept. *)
Record work_done (l : Ledger) (w : Work) : Prop := {
  wd_btc : relay_ok (btc_anchor_of p) (btc l) (w_btc w) (w_btc_update w);
  wd_ltc : relay_ok (ltc_anchor_of p) (ltc l) (w_ltc w) (w_ltc_update w)
}.

Lemma apply_coinbase_btc_ok l height bt n o w w' :
  apply_coinbase_btc p height bt n o w = (w', Ok tt) -> work_done l w ->
  work_done l w' /\ w_spending w' = w_spending w /\ w_created w' = w_created w /\ value o = 0.
Proof.
  unfold apply_coinbase_btc, fail. intros H [Hb Hl].
  destruct (negb _); [done|]. destruct (negb _); [done|]. destruct (negb _) eqn:Hv; [done|].
  destruct (1 <? n); [done|]. case_bool_decide as Hn; [done|].
  destruct (parse_btc_header_batch _) as [hs| |]; [|done..].
  assert (w_btc_update w = None) as Hnone by (by apply eq_None_not_Some).
  destruct (apply_btc_header_batch _ _ _ _) as [[upd st]|e|] eqn:Hap; [| |done].
  - injection H as <-. split_and!; [|done|done|lia]. split; [|done]. intros Hi.
    destruct (Hb Hi) as [Hi1 Hu]. apply apply_btc_inv in Hap as [Hi' Hu']; [|done].
    rewrite Hnone in Hu. cbn in Hu. split; [done | cbn; congruence].
  - destruct (coinbase_carrier_soft_apply_error e); [|done]. injection H as <-.
    split_and!; [by split|done|done|lia].
Qed.

Lemma apply_coinbase_ltc_ok l height bt n o w w' :
  apply_coinbase_ltc p height bt n o w = (w', Ok tt) -> work_done l w ->
  work_done l w' /\ w_spending w' = w_spending w /\ w_created w' = w_created w /\ value o = 0.
Proof.
  unfold apply_coinbase_ltc, fail. intros H [Hb Hl].
  destruct (negb _); [done|]. destruct (negb _); [done|]. destruct (negb _) eqn:Hv; [done|].
  destruct (1 <? n); [done|]. case_bool_decide as Hn; [done|].
  destruct (parse_ltc_header_batch _) as [hs| |]; [|done..].
  assert (w_ltc_update w = None) as Hnone by (by apply eq_None_not_Some).
  destruct (apply_ltc_header_batch _ _ _ _ _) as [[upd st]|e|] eqn:Hap; [| |done].
  - injection H as <-. split_and!; [|done|done|lia]. split; [done|]. intros Hi.
    destruct (Hl Hi) as [Hi1 Hu]. apply apply_ltc_inv in Hap as [Hi' Hu']; [|done].
    rewrite Hnone in Hu. cbn in Hu. split; [done | cbn; congruence].
  - destruct (coinbase_carrier_soft_apply_error e); [|done]. injection H as <-.
    split_and!; [by split|done|done|lia].
Qed.

Lemma add_coinbase_value_ok height o t t' :
  add_coinbase_value p height o t = Ok t' -> 0 <= t -> 0 <= value o ->
  t' = t + value o /\ t' <= MAX_MONEY.
Proof.
  unfold add_coinbase_value, checked_add64. intros H Ht Hv.
  destruct (validate_output _ _ _); [|done..]. bind_simpl_in H.
  destruct (_ <=? U64_MAX); [|done]. bind_simpl_in H. destruct (_ <? _) eqn:?; [done|].
  injection H as <-. lia.
Qed.

(** The coinbase total covers the coins of the coinbase outputs. *)
Lemma apply_coinbase_ok l height bt outs : forall nb nl t w w' t',
  apply_coinbase p height bt nb nl outs t w = (w', Ok t') -> work_done l w ->
  Forall wf_output outs -> 0 <= t <= MAX_MONEY ->
  work_done l w' /\ w_spending w' = w_spending w /\ w_created w' = w_created w /\
  t + zsum (coin <$> outs) <= t' <= MAX_MONEY /\ Forall amount outs.
Proof.
  induction outs as [|o outs IH]; intros nb nl t w w' t' H Hw Hf Ht.
  { cbn in H. simplify_eq. split_and!; [done | done | done | cbn; lia | cbn; lia | constructor]. }
  apply Forall_cons in Hf as [[Hv _] Hf]. unfold u64 in Hv. cbn [apply_coinbase] in H.
  pose proof (coin_bounds o ltac:(lia)) as Hc. cbn [fmap list_fmap zsum foldr].
  fold (zsum (coin <$> outs)).
  destruct (has_tag o BTC_HEADER_BATCH_TAG);
    [|destruct (has_tag o LTC_HEADER_BATCH_TAG); [|destruct (has_tag o 0xc9 && _) eqn:Htag]].
  - destruct (apply_coinbase_btc _ _ _ _ _ _) as [w1 [[]| |]] eqn:Hap; [|done..].
    eapply apply_coinbase_btc_ok in Hap as (Hw1 & Hsp & Hcr & Hz); [|done].
    apply IH in H as (? & -> & -> & ? & ?); [|done..].
    split_and!; try done; try lia. constructor; [split; unfold MAX_MONEY in *; lia | done].
  - destruct (apply_coinbase_ltc _ _ _ _ _ _) as [w1 [[]| |]] eqn:Hap; [|done..].
    eapply apply_coinbase_ltc_ok in Hap as (Hw1 & Hsp & Hcr & Hz); [|done].
    apply IH in H as (? & -> & -> & ? & ?); [|done..].
    split_and!; try done; try lia. constructor; [split; unfold MAX_MONEY in *; lia | done].
  - apply andb_true_iff in Htag as [Htag _]. assert (coin o = 0) by (unfold coin; by rewrite Htag).
    apply IH in H as (? & -> & -> & ? & ?); [|done..].
    split_and!; try done; try lia. constructor; [split; unfold MAX_MONEY in *; lia | done].
  - destruct (add_coinbase_value _ _ _ _) as [t1| |] eqn:Hadd; [|done..].
    apply add_coinbase_value_ok in Hadd as [-> Hmax]; [|lia|lia].
    apply IH in H as (? & -> & -> & ? & ?); [|done|done|lia].
    split_and!; try done; try lia. constructor; [split; lia | done].
Qed.

Lemma coinbase_created_coins cb :
  created_coins (coinbase_created cb) = zsum (coin <$> tx_outputs cb) /\
  (Forall amount (tx_outputs cb) -> created_amounts (coinbase_created cb)).
Proof.
  unfold created_coins, created_amounts, coinbase_created. rewrite fmap_imap. split.
  - f_equal. apply list_eq. intros i. rewrite list_lookup_imap, list_lookup_fmap.
    by destruct (tx_outputs cb !! i).
  - intros Hf. apply Forall_lookup. intros i c Hc. rewrite list_lookup_imap in Hc.
    destruct (tx_outputs cb !! i) as [o|] eqn:Ho; [|done]. cbn in Hc. simplify_eq. cbn.
    by eapply (proj1 (Forall_lookup _ _) Hf).
Qed.

(** The reward check: what the coinbase takes beyond the fees is subsidy. *)
Lemma check_reward_ok reward enforce max fees total subsidy :
  check_reward reward enforce max fees total = Ok subsidy ->
  0 <= reward <= MAX_MONEY -> 0 <= fees <= MAX_MONEY -> 0 <= total <= MAX_MONEY ->
  0 <= subsidy /\ total - fees <= subsidy /\ (enforce = true -> subsidy <= reward) /\
  (forall m, max = Some m -> subsidy <= m).
Proof.
  pose proof MAX_MONEY_val. intros Hc Hr Hf Ht. unfold check_reward, wadd64 in Hc.
  rewrite (as_i64_small total), !as_u64_small, Z.mod_small in Hc by lia. unfold sat_sub in Hc.
  destruct (_ && _) eqn:Hen; [done|].
  assert (exists s, (if enforce then Z.min reward (Z.max 0 (total - Z.min fees total))
    else Z.max 0 (total - Z.min fees total)) = s) as [s Hs] by eauto. rewrite Hs in Hc.
  assert (subsidy = s /\ forall m, max = Some m -> s <= m) as [-> Hm].
  { destruct max as [m|]; [destruct (m <? s) eqn:?; [done|]|]; injection Hc as <-;
      split; try done; intros m' [= <-]; lia. }
  destruct enforce; cbn [andb] in Hen; split_and!; try done; try lia; intros; lia.
Qed.

(** *** Commit and undo *)
Lemma foldl_delete_lookup (ks : list OutPoint) : forall (m : gmap OutPoint UtxoEntry) k,
  foldl (fun m k => delete k m) m ks !! k = if bool_decide (k ∈ ks) then None else m !! k.
Proof.
  induction ks as [|k' ks IH]; intros m k; [done|]. cbn [foldl]. rewrite IH.
  destruct (decide (k = k')) as [->|Hne].
  - rewrite lookup_delete_eq. rewrite (bool_decide_true (k' ∈ k' :: ks)) by apply list_elem_of_here.
    by case_bool_decide.
  - rewrite lookup_delete_ne by done. erewrite bool_decide_ext; [done|].
    rewrite elem_of_cons. split; [by right | by intros [?|?]].
Qed.

Lemma foldl_created_lookup height cs : forall (m : gmap OutPoint UtxoEntry) k,
  k ∉ ((fun c : OutPoint * TxOutput * bool => c.1.1) <$> cs) ->
  foldl (insert_created height) m cs !! k = m !! k.
Proof.
  induction cs as [|[[op o] b] cs IH]; intros m k Hk; [done|]. cbn [foldl].
  cbn in Hk. apply not_elem_of_cons in Hk as [Hne Hk]. rewrite IH by done. cbn.
  by apply lookup_insert_ne.
Qed.

Lemma foldl_restore_lookup (m0 : gmap OutPoint UtxoEntry) (kes : list (OutPoint * UtxoEntry)) k :
  forall m : gmap OutPoint UtxoEntry,
  Forall (fun ke => m0 !! ke.1 = Some ke.2) kes ->
  m !! k = m0 !! k \/ k ∈ kes.*1 ->
  foldl (fun m '(op, entry) => <[op := entry]> m) m kes !! k = m0 !! k.
Proof.
  induction kes as [|[k' e] kes IH]; intros m Hf Hk.
  { destruct Hk as [? | ?%not_elem_of_nil]; done. }
  apply Forall_cons in Hf as [He Hf]. cbn in He. cbn [foldl]. apply IH; [done|].
  destruct (decide (k' = k)) as [->|Hne]; [left; by rewrite lookup_insert_eq|].
  rewrite lookup_insert_ne by done. cbn in Hk. rewrite elem_of_cons in Hk.
  destruct Hk as [?|[?|?]]; [by left | done | by right].
Qed.

Lemma foldl_restore_lookup_ne (kes : list (OutPoint * UtxoEntry)) k :
  forall m : gmap OutPoint UtxoEntry, k ∉ kes.*1 ->
  foldl (fun m '(op, entry) => <[op := entry]> m) m kes !! k = m !! k.
Proof.
  induction kes as [|[k' e] kes IH]; intros m Hk; [done|]. cbn in Hk.
  apply not_elem_of_cons in Hk as [Hne Hk]. cbn [foldl]. rewrite IH by done. by apply lookup_insert_ne.
Qed.

(** Undoing from fewer coins gives fewer coins. *)
Lemma undo_utxos_mono undo m m' : m ⊆ m' -> undo_utxos undo m ⊆ undo_utxos undo m'.
Proof.
  unfold undo_utxos. intros Hm.
  assert (foldl (fun m op => delete op m) m (undo_created undo) ⊆
          foldl (fun m op => delete op m) m' (undo_created undo)) as Hd.
  { revert m m' Hm. induction (undo_created undo) as [|op ops IH]; intros m m' Hm; [done|].
    cbn. by apply IH, delete_mono. }
  revert Hd. generalize (foldl (fun m op => delete op m) m (undo_created undo)) as n.
  generalize (foldl (fun m op => delete op m) m' (undo_created undo)) as n'.
  induction (undo_spent undo) as [|[op e] kes IH]; intros n' n Hd; [done|].
  cbn. by apply IH, insert_mono.
Qed.

Lemma spent_for_undo_spec m seen :
  Forall (fun ke => m !! ke.1 = Some ke.2) (spent_for_undo m seen) /\
  forall k, k ∈ seen -> is_Some (m !! k) -> k ∈ (spent_for_undo m seen).*1.
Proof.
  unfold spent_for_undo. split.
  - apply Forall_forall. intros [k e] (k' & _ & Hk)%list_elem_of_omap.
    destruct (m !! k') as [e'|] eqn:He; [|done]. cbn in Hk. by simplify_eq.
  - intros k Hk [e He]. apply list_elem_of_fmap. exists (k, e). split; [done|].
    apply list_elem_of_omap. exists k. split; [by apply elem_of_elements | by rewrite He].
Qed.

Lemma foldl_difference (us : list ForeignOut) : forall X : gset ForeignOut,
  foldl (fun s o => s ∖ {[o]}) X us = X ∖ list_to_set us.
Proof.
  induction us as [|u us IH]; intros X; cbn [foldl list_to_set].
  - by rewrite difference_empty_L.
  - by rewrite IH, difference_difference_l_L.
Qed.

Lemma fresh_used_undo claimed used :
  fresh_used claimed used ->
  foldl (fun s o => s ∖ {[o]}) (claimed ∪ list_to_set used) used = claimed.
Proof.
  intros [_ Hf]. rewrite foldl_difference. apply set_eq. intros x.
  rewrite elem_of_difference, elem_of_union, elem_of_list_to_set.
  rewrite Forall_forall in Hf. specialize (Hf x). cbn in Hf. tauto.
Qed.

Lemma commit_undo_coins l height w subsidy l' undo :
  commit_block l height w subsidy = (l', undo) ->
  (forall op, op ∈ undo_created undo -> utxos l !! op = None) ->
  utxos (undo_block undo l') = utxos l.
Proof.
  unfold commit_block. intros [= <- <-] Hfresh. unfold undo_block, undo_utxos.
  cbn [utxos undo_created undo_spent] in *. apply map_eq. intros k.
  destruct (spent_for_undo_spec (utxos l) (seen_inputs (w_spending w))) as [Hsp Hin].
  apply foldl_restore_lookup; [done|]. rewrite foldl_delete_lookup. case_bool_decide as Hc.
  - left. by rewrite Hfresh.
  - rewrite foldl_created_lookup by done. rewrite foldl_delete_lookup.
    case_bool_decide as Hs; [|by left]. apply elem_of_elements in Hs.
    destruct (utxos l !! k) eqn:Hk; [right; apply Hin; [done | by eexists] | by left].
Qed.

(** Whatever the names of the outputs it created, undoing a block never gives
    back more than there was. *)
Lemma commit_undo_subseteq l height w subsidy l' undo :
  commit_block l height w subsidy = (l', undo) -> undo_utxos undo (utxos l') ⊆ utxos l.
Proof.
  unfold commit_block. intros [= <- <-]. unfold undo_utxos. cbn [utxos undo_created undo_spent].
  apply map_subseteq_spec. intros k e He.
  destruct (spent_for_undo_spec (utxos l) (seen_inputs (w_spending w))) as [Hsp _].
  destruct (decide (k ∈ (spent_for_undo (utxos l) (seen_inputs (w_spending w))).*1)) as [Hk|Hk].
  - rewrite (foldl_restore_lookup (utxos l)) in He by (done || by right). done.
  - rewrite foldl_restore_lookup_ne, foldl_delete_lookup in He by done.
    case_bool_decide as Hc; [done|]. rewrite foldl_created_lookup, foldl_delete_lookup in He by done.
    by case_bool_decide.
Qed.

Lemma commit_undo_claims l height w subsidy l' undo :
  commit_block l height w subsidy = (l', undo) ->
  fresh_used (claimed_btc_outpoints l) (btc_used (w_spending w)) ->
  fresh_used (claimed_ltc_outpoints l) (ltc_used (w_spending w)) ->
  claimed_btc_outpoints (undo_block undo l') = claimed_btc_outpoints l /\
  claimed_ltc_outpoints (undo_block undo l') = claimed_ltc_outpoints l.
Proof.
  unfold commit_block. intros [= <- <-] Hfb Hfl. unfold undo_block.
  cbn [claimed_btc_outpoints claimed_ltc_outpoints claimed_btc_outpoints_added
    claimed_ltc_outpoints_added]. by rewrite !fresh_used_undo.
Qed.

Lemma commit_undo_relays l height w subsidy l' undo :
  commit_block l height w subsidy = (l', undo) ->
  btc (undo_block undo l') = undo_relay (w_btc_update w) (w_btc w) /\
  ltc (undo_block undo l') = undo_relay (w_ltc_update w) (w_ltc w).
Proof. unfold commit_block. by intros [= <- <-]. Qed.

Lemma ledger_eq l l' :
  utxos l' = utxos l -> btc l' = btc l -> ltc l' = ltc l ->
  claimed_btc_outpoints l' = claimed_btc_outpoints l ->
  claimed_ltc_outpoints l' = claimed_ltc_outpoints l -> l' = l.
Proof. destruct l, l'. cbn. by intros -> -> -> -> ->. Qed.

(** *** Blocks without header batches *)
Definition carries_batch (tx : Transaction) : bool :=
  existsb (fun o => has_tag o BTC_HEADER_BATCH_TAG || has_tag o LTC_HEADER_BATCH_TAG) (tx_outputs tx).

Lemma apply_outputs_relays height bt id outs : forall index w w' r,
  existsb (fun o => has_tag o BTC_HEADER_BATCH_TAG || has_tag o LTC_HEADER_BATCH_TAG) outs = false ->
  apply_outputs p height bt id index outs w = (w', r) -> w_btc w' = w_btc w /\ w_ltc w' = w_ltc w.
Proof.
  induction outs as [|o outs IH]; intros index w w' r Hn H; [cbn in H; by simplify_eq|].
  cbn in Hn. rewrite !orb_false_iff in Hn. destruct Hn as [[H1 H2] Hn].
  cbn [apply_outputs] in H. rewrite H1, H2 in H. by apply IH in H.
Qed.

Lemma apply_transactions_relays l height bt txs : forall w w' r,
  existsb carries_batch txs = false ->
  apply_transactions env p l height bt txs w = (w', r) -> w_btc w' = w_btc w /\ w_ltc w' = w_ltc w.
Proof.
  induction txs as [|tx txs IH]; intros w w' r Hn H; [cbn in H; by simplify_eq|].
  cbn in Hn. rewrite orb_false_iff in Hn. destruct Hn as [Hn1 Hn]. cbn [apply_transactions] in H.
  destruct (validate_transaction_internal _ _ _ _ _ _) as [sp| |]; [|unfold fail in H; by simplify_eq..].
  destruct (apply_outputs _ _ _ _ _ _ _) as [w1 r1] eqn:Ho.
  apply apply_outputs_relays in Ho as [Hb Hl]; [|done]. cbn in Hb, Hl.
  destruct r1 as [[]| |]; [|by simplify_eq..]. apply IH in H as [-> ->]; [|done]. done.
Qed.

Lemma apply_coinbase_relays height bt outs : forall nb nl t w w' r,
  existsb (fun o => has_tag o BTC_HEADER_BATCH_TAG || has_tag o LTC_HEADER_BATCH_TAG) outs = false ->
  apply_coinbase p height bt nb nl outs t w = (w', r) -> w' = w.
Proof.
  induction outs as [|o outs IH]; intros nb nl t w w' r Hn H; [cbn in H; by simplify_eq|].
  cbn in Hn. rewrite !orb_false_iff in Hn. destruct Hn as [[H1 H2] Hn].
  cbn [apply_coinbase] in H. rewrite H1, H2 in H. destruct (_ && _); [by apply IH in H|].
  destruct (add_coinbase_value _ _ _ _); [by apply IH in H | by simplify_eq..].
Qed.

(** Whatever comes of it, such a block leaves the relays alone. *)
Lemma no_batch_keeps_relays l txs bt reward height enforce max l' r :
  validate_and_apply_transactions env p l txs bt reward height enforce max = (l', r) ->
  existsb carries_batch txs = false -> btc l' = btc l /\ ltc l' = ltc l.
Proof.
  unfold validate_and_apply_transactions. intros H Hn.
  destruct txs as [|cb txs]; [by simplify_eq|]. cbn in Hn. rewrite orb_false_iff in Hn.
  destruct Hn as [Hn1 Hn]. destruct (negb _); [by simplify_eq|]. destruct (_ =? 0); [by simplify_eq|].
  destruct (apply_transactions _ _ _ _ _ _ _) as [w rt] eqn:Ht.
  apply apply_transactions_relays in Ht as [Hb Hl]; [|done]. cbn in Hb, Hl.
  destruct rt as [[]| |]; [|by simplify_eq..].
  destruct (apply_coinbase _ _ _ _ _ _ _ _) as [w1 rc] eqn:Hc.
  apply apply_coinbase_relays in Hc as ->; [|done].
  destruct rc as [t| |]; [|by simplify_eq..].
  destruct (check_reward _ _ _ _ _) as [s| |]; [|by simplify_eq..].
  cbv zeta in H. unfold commit_block in H. by simplify_eq.
Qed.

Lemma applied_subsidy_max l txs bt reward height enforce m l' f total subsidy undo :
  validate_and_apply_transactions env p l txs bt reward height enforce (Some m)
    = (l', Ok (f, total, subsidy, undo)) -> subsidy <= m.
Proof.
  unfold validate_and_apply_transactions, check_reward. intros H.
  repeat (case_match; simplify_eq; try done); lia.
Qed.

(** A block that is not applied takes and creates no coin. *)
Lemma refused_keeps_coins l txs bt reward height enforce max l' r :
  validate_and_apply_transactions env p l txs bt reward height enforce max = (l', r) ->
  is_ok r = false ->
  utxos l' = utxos l /\ claimed_btc_outpoints l' = claimed_btc_outpoints l /\
  claimed_ltc_outpoints l' = claimed_ltc_outpoints l.
Proof.
  unfold validate_and_apply_transactions. intros H Hr. destruct r as [r| |]; [done|..];
  repeat (case_match; simplify_eq; try done).
Qed.

(** *** The whole block *)
Definition spent_by (txs : list Transaction) : list OutPoint :=
  match txs with [] => [] | _ :: txs => block_inputs txs end.

Record block_effect (l l' : Ledger) (txs : list Transaction) (reward : Z) (enforce : bool)
    (max : option Z) (subsidy : Z) (undo : BlockUndo) : Prop := {
  be_amounts : amounts (utxos l');
  be_relays : relays_ok l -> relays_ok l';
  be_supply : supply (utxos l') <= supply (utxos l) + subsidy;
  be_subsidy : 0 <= subsidy;
  be_reward : enforce = true -> subsidy <= reward;
  be_max : forall m, max = Some m -> subsidy <= m;
  be_distinct : NoDup (spent_by txs);
  be_unspent : forall k, k ∈ spent_by txs -> is_Some (utxos l !! k);
  be_gone : forall k, k ∈ spent_by txs -> k ∉ undo_created undo -> utxos l' !! k = None;
  be_undo_subsidy : subsidy_created undo = subsidy;
  be_undo_bound : undo_utxos undo (utxos l') ⊆ utxos l;
  be_undo_coins : (forall op, op ∈ undo_created undo -> utxos l !! op = None) ->
    utxos (undo_block undo l') = utxos l;
  be_undo : relays_ok l -> (forall op, op ∈ undo_created undo -> utxos l !! op = None) ->
    undo_block undo l' = l;
  be_btc_fresh : fresh_used (claimed_btc_outpoints l) (claimed_btc_outpoints_added undo);
  be_ltc_fresh : fresh_used (claimed_ltc_outpoints l) (claimed_ltc_outpoints_added undo);
  be_btc_claimed : claimed_btc_outpoints l' =
    claimed_btc_outpoints l ∪ list_to_set (claimed_btc_outpoints_added undo);
  be_ltc_claimed : claimed_ltc_outpoints l' =
    claimed_ltc_outpoints l ∪ list_to_set (claimed_ltc_outpoints_added undo)
}.

Lemma apply_block_ok l txs bt reward height enforce max l' f total subsidy undo :
  validate_and_apply_transactions env p l txs bt reward height enforce max
    = (l', Ok (f, total, subsidy, undo)) ->
  amounts (utxos l) -> Forall wire_tx txs -> 0 <= reward <= MAX_MONEY ->
  block_effect l l' txs reward enforce max subsidy undo.
Proof.
  unfold validate_and_apply_transactions. intros H Hl Hw Hr.
  destruct txs as [|cb txs]; [done|]. apply Forall_cons in Hw as [Hcb Hw].
  destruct (negb _); [done|]. destruct (_ =? 0); [done|].
  destruct (apply_transactions _ _ _ _ _ _ _) as [w [[]| |]] eqn:Ht; [|done..].
  apply apply_transactions_ok in Ht as (Hwo & Hseen & Hd & _);
    [|done | done | by apply start_work_ok].
  destruct (apply_coinbase _ _ _ _ _ _ _ _) as [w1 [t| |]] eqn:Hc; [|done..].
  pose proof MAX_MONEY_val.
  eapply (apply_coinbase_ok l) in Hc as ([Hrb Hrl] & Hsp & Hcr & Ht & Ham);
    [|split; [by apply wo_btc | by apply wo_ltc] | apply Hcb | lia].
  destruct (check_reward _ _ _ _ _) as [s| |] eqn:Hck; [|done..].
  rewrite Hsp in Hck. destruct Hwo as [Hfees Hsn Hsum Hcram _ _ _ _ Hbu Hlu].
  assert (0 <= zsum (coin <$> tx_outputs cb)) as Hnn.
  { assert (Forall (fun x => 0 <= x <= MAX_MONEY) (coin <$> tx_outputs cb)) as Hx.
    { apply Forall_fmap. eapply Forall_impl; [exact Ham|]. intros o [Ho ?]. cbn.
      pose proof (coin_bounds o Ho). lia. }
    apply zsum_bound in Hx. lia. }
  apply check_reward_ok in Hck as (Hs0 & Hs1 & Hs2 & Hs3); [|done|done|lia].
  cbv zeta in H. destruct (commit_block _ _ _ _) as [l1 u] eqn:Hcm. injection H as <- <- <- <- <-.
  pose proof (commit_undo_coins _ _ _ _ _ _ Hcm) as Hcoins.
  pose proof (commit_undo_subseteq _ _ _ _ _ _ Hcm) as Hsub.
  assert (relays_ok l -> (forall op, op ∈ undo_created u -> utxos l !! op = None) ->
    undo_block u l1 = l) as Hundo.
  { intros [Hib Hil] Hfr. destruct (Hrb Hib) as [_ Hub], (Hrl Hil) as [_ Hul].
    destruct (commit_undo_relays _ _ _ _ _ _ Hcm) as [Eb El].
    destruct (commit_undo_claims _ _ _ _ _ _ Hcm) as [Ecb Ecl]; [cbn [w_spending]; by rewrite Hsp..|].
    apply ledger_eq; [by apply Hcoins | by rewrite Eb | by rewrite El | done | done]. }
  assert (seen_inputs (w_spending w) = list_to_set (block_inputs txs)) as Hseen'.
  { rewrite Hseen. apply (right_id_L ∅ (∪)). }
  unfold commit_block in Hcm. cbn [w_spending w_created w_btc w_ltc w_btc_update w_ltc_update] in Hcm.
  rewrite Hsp, Hcr in Hcm. injection Hcm as <- <-.
  destruct (coinbase_created_coins cb) as [Hcc Hca].
  destruct (supply_insert_all height (w_created w ++ coinbase_created cb)
    (foldl (fun m k => delete k m) (utxos l) (elements (seen_inputs (w_spending w)))))
    as [Hsup Hamf]; [by apply amounts_delete_all | apply Forall_app; split; [done | by apply Hca] |].
  rewrite supply_delete_all, created_coins_app, Hcc in Hsup by apply NoDup_elements.
  split; cbn [utxos btc ltc undo_created subsidy_created claimed_btc_outpoints claimed_ltc_outpoints
    claimed_btc_outpoints_added claimed_ltc_outpoints_added spent_by]; try done.
  - intros [Hib Hil]. split; [apply (Hrb Hib) | apply (Hrl Hil)].
  - lia.
  - intros k Hk. apply Hsn. rewrite Hseen'. by apply elem_of_list_to_set.
  - intros k Hk Hn. rewrite foldl_created_lookup by done. rewrite foldl_delete_lookup.
    rewrite bool_decide_true; [done|]. apply elem_of_elements. rewrite Hseen'. by apply elem_of_list_to_set.
Qed.
End block.

(** ** Samples: a ledger with one coin, and a block that spends it *)
Definition no_env : Env := fun _ => None.

Definition sample_params : ChainParams :=
  {| pow_limit := {| bits := 0x207fffff |}; genesis_header := sample_header;
     htlcv1_activation_height := None; mpsov1_activation_height := None;
     lwma := LwmaParams_new None {| bits := 0x207fffff |}; lwma_v2 := None;
     auxpow_activation_height := None;
     btc_spv := Some {| btc_activation_height := 0; btc_anchor := sample_anchor |}; ltc_spv := None;
     htlc_btc_swap_v1_activation_height := None;
     btc_swap_bech32_payment_activation_height := None;
     htlc_ltc_swap_v1_activation_height := None; swap_order_v1_activation_height := None;
     ltc_swap_order_v1_activation_height := None;
     coinbase_header_batch_activation_height := None |}.

Definition sample_coin : TxOutput := {| value := 1000; script_pubkey := p2pkh_script (hash160 sample_pk) |}.

Definition sample_ledger : Ledger :=
  {| utxos := {[ (replicate 32 5, 0) := {| ue_output := sample_coin; ue_height := 3; ue_is_coinbase := false |} ]};
     btc := RelayState_new; claimed_btc_outpoints := ∅;
     ltc := RelayState_new; claimed_ltc_outpoints := ∅ |}.

Definition sample_payment : Transaction :=
  let sig := toy_sign (sample_tx [[]] sample_outputs) 0 (script_pubkey sample_coin) sample_pk in
  sample_tx [push_var sig ++ push_var sample_pk] sample_outputs.

Definition sample_coinbase (v : Z) : Transaction :=
  {| tx_version := 1;
     tx_inputs := [{| prev_txid := zeros 32; prev_index := U32_MAX; script_sig := [1; 2];
                      sequence := U32_MAX |}];
     tx_outputs := [{| value := v; script_pubkey := p2pkh_script (replicate 20 8) |}];
     tx_locktime := 0 |}.

Definition sample_block : list Transaction := [sample_coinbase 5100; sample_payment].

Definition sample_applied : Ledger * res BlockError (Z * Z * Z * BlockUndo) :=
  validate_and_apply_transactions no_env sample_params sample_ledger sample_block 1000 5000 10 true
    (Some MAX_MONEY).

Definition no_undo : BlockUndo :=
  {| undo_spent := []; undo_created := []; subsidy_created := 0; btc_relay_update := None;
     ltc_relay_update := None; claimed_btc_outpoints_added := []; claimed_ltc_outpoints_added := [] |}.

Definition undo_of (r : Ledger * res BlockError (Z * Z * Z * BlockUndo)) : BlockUndo :=
  match r.2 with Ok x => x.2 | _ => no_undo end.

Definition amounts_of (r : Ledger * res BlockError (Z * Z * Z * BlockUndo)) : option (Z * Z * Z) :=
  match r.2 with Ok x => Some x.1 | _ => None end.

Lemma applied_eq r a : amounts_of r = Some a -> r = (r.1, Ok (a, undo_of r)).
Proof. destruct r as [l [[x u]| |]]; cbn; intros [= ->] || intros [=]; done. Qed.

Lemma sample_applied_ok : sample_applied = (sample_applied.1, Ok (100, 5100, 5000, undo_of sample_applied)).
Proof. apply applied_eq. vm_compute. reflexivity. Qed.

Lemma sample_relays_ok : relays_ok sample_params sample_ledger.
Proof. split; apply relay_inv_new. Qed.

Lemma sample_amounts : amounts (utxos sample_ledger).
Proof.
  intros k e He. cbn in He. apply lookup_singleton_Some in He as [_ <-]. split; vm_compute; congruence.
Qed.

Lemma sample_block_wire : Forall wire_tx sample_block.
Proof.
  unfold sample_block, sample_payment, sample_coinbase, sample_tx, wire_tx, wire_input, wf_input, wf_output.
  cbn [tx_version tx_inputs tx_outputs tx_locktime imap sample_outputs].
  constructor; [|constructor; [|constructor]]; cbn [tx_version tx_inputs tx_outputs tx_locktime];
    unfold sample_outputs; wf_compute.
Qed.

(** ** The theorems *)

(** A valid transaction creates no value: when the fees of a transaction of
    at most 255 inputs and outputs (all the wire format carries) are computed,
    its inputs are different unspent outputs, every one of which it may spend,
    and the fee is exactly the coins of the inputs less the values of the
    outputs; no [i64] sum wraps around. *)
Theorem transaction_fee_exact `{C : Crypto} env p l height tx f :
  calculate_fees env p l height tx = Ok f -> amounts (utxos l) -> wire_tx tx ->
  let keys := input_key <$> tx_inputs tx in
  NoDup keys /\ (forall k, k ∈ keys -> is_Some (utxos l !! k)) /\
  (forall i txin, tx_inputs tx !! i = Some txin -> spends env p l height tx (Z.of_nat i) txin) /\
  f = spent_value (utxos l) keys - zsum (value <$> tx_outputs tx) /\ 0 <= f <= MAX_MONEY.
Proof.
  intros H Ha Hw keys. unfold calculate_fees in H. pose proof MAX_MONEY_val.
  destruct (validate_transaction_internal _ _ _ _ _ _) as [sp| |] eqn:Hv; [|done..].
  bind_simpl_in H. injection H as <-.
  apply validate_transaction_ok in Hv as (Hd & Hin & _ & Hf & Hfb & _ & _ & Hall); [|done|done|cbn; lia].
  rewrite as_u64_small by lia. split_and!; [done | by intros k [_ ?]%Hin | done | | lia | lia].
  cbn [fees no_spending] in Hf. fold keys in Hf. lia.
Qed.

Lemma transaction_fee_exact_witness :
  let keys := input_key <$> tx_inputs sample_payment in
  NoDup keys /\ (forall k, k ∈ keys -> is_Some (utxos sample_ledger !! k)) /\
  (forall i txin, tx_inputs sample_payment !! i = Some txin ->
     spends no_env sample_params sample_ledger 10 sample_payment (Z.of_nat i) txin) /\
  100 = spent_value (utxos sample_ledger) keys - zsum (value <$> tx_outputs sample_payment) /\
  0 <= 100 <= MAX_MONEY.
Proof.
  apply (transaction_fee_exact no_env sample_params sample_ledger 10 sample_payment 100).
  - vm_compute. reflexivity.
  - apply sample_amounts.
  - apply (proj1 (Forall_lookup _ _) sample_block_wire 1%nat). reflexivity.
Defined.

(** A transaction without inputs, of 1845 outputs that add up to [2^64]. *)
Definition minting_tx : Transaction :=
  {| tx_version := 1; tx_inputs := [];
     tx_outputs := replicate 1844 {| value := MAX_MONEY; script_pubkey := [] |} ++
                   [{| value := 6744073709551616; script_pubkey := [] |}];
     tx_locktime := 0 |}.

(** The limit of 255 outputs is what keeps the sums sound: they are added in
    an [i64] that wraps around, and a transaction with 1845 outputs and no
    input passes the checks of a block with fee 0 while its outputs are worth
    [2^64] units, far more than [MAX_MONEY]; only the one-byte output count of
    the wire format keeps such a transaction out of a block. *)
Theorem wide_transaction_would_mint :
  exists sp, validate_transaction_internal no_env sample_params sample_ledger minting_tx 10 no_spending
    = Ok sp /\ fees sp = 0 /\ zsum (value <$> tx_outputs minting_tx) = 2 ^ 64 /\
    Forall (fun o => value o <= MAX_MONEY) (tx_outputs minting_tx) /\
    255 < len (tx_outputs minting_tx).
Proof.
  exists no_spending. split_and!; [vm_compute; reflexivity | done | vm_compute; reflexivity | | vm_compute; done].
  cbn [tx_outputs minting_tx]. apply Forall_app. split; [|repeat constructor; vm_compute; congruence].
  apply Forall_replicate. cbn. lia.
Qed.

(** C4: A block creates no coins but its subsidy: when the transactions of a
    block are applied, the coins of all unspent outputs together grow by the
    subsidy at most, which is within the block reward and within the limit the
    caller gives; the amounts stay within bounds. *)
Theorem block_conserves_supply `{C : Crypto} env p l txs bt reward height enforce max l' f total subsidy undo :
  validate_and_apply_transactions env p l txs bt reward height enforce max
    = (l', Ok (f, total, subsidy, undo)) ->
  amounts (utxos l) -> Forall wire_tx txs -> 0 <= reward <= MAX_MONEY ->
  supply (utxos l') <= supply (utxos l) + subsidy /\ 0 <= subsidy /\
  (enforce = true -> subsidy <= reward) /\ (forall m, max = Some m -> subsidy <= m) /\ amounts (utxos l').
Proof. intros H Hl Hw Hr. by destruct (apply_block_ok _ _ _ _ _ _ _ _ _ _ _ _ _ _ H Hl Hw Hr). Qed.

Lemma block_conserves_supply_witness :
  supply (utxos sample_applied.1) <= supply (utxos sample_ledger) + 5000 /\ 0 <= 5000 /\
  (true = true -> 5000 <= 5000) /\ (forall m, Some MAX_MONEY = Some m -> 5000 <= m) /\
  amounts (utxos sample_applied.1).
Proof.
  apply (block_conserves_supply no_env sample_params sample_ledger sample_block 1000 5000 10 true
    (Some MAX_MONEY) sample_applied.1 100 5100 5000 (undo_of sample_applied) sample_applied_ok
    sample_amounts sample_block_wire). vm_compute. split; congruence.
Defined.

(** C5: No coin is spent twice: the inputs of all transactions of an accepted
    block (the coinbase apart) are different outpoints, all of them unspent
    before the block, and none of them is unspent after it (unless the block
    creates an output of the same name). *)
Theorem block_no_double_spend `{C : Crypto} env p l txs bt reward height enforce max l' f total subsidy undo :
  validate_and_apply_transactions env p l txs bt reward height enforce max
    = (l', Ok (f, total, subsidy, undo)) ->
  amounts (utxos l) -> Forall wire_tx txs -> 0 <= reward <= MAX_MONEY ->
  NoDup (spent_by txs) /\
  forall k, k ∈ spent_by txs ->
    is_Some (utxos l !! k) /\ (k ∉ undo_created undo -> utxos l' !! k = None).
Proof.
  intros H Hl Hw Hr. destruct (apply_block_ok _ _ _ _ _ _ _ _ _ _ _ _ _ _ H Hl Hw Hr). auto.
Qed.

Lemma block_no_double_spend_witness :
  NoDup (spent_by sample_block) /\
  forall k, k ∈ spent_by sample_block ->
    is_Some (utxos sample_ledger !! k) /\
    (k ∉ undo_created (undo_of sample_applied) -> utxos sample_applied.1 !! k = None).
Proof.
  apply (block_no_double_spend no_env sample_params sample_ledger sample_block 1000 5000 10 true
    (Some MAX_MONEY) sample_applied.1 100 5100 5000 (undo_of sample_applied) sample_applied_ok
    sample_amounts sample_block_wire). vm_compute. split; congruence.
Defined.

(** Undoing a block restores the ledger: if no output the block created
    carries the name of an output that was unspent before, then applying the
    undo record to the ledger after the block gives back the ledger before it,
    with both relays and both sets of claimed foreign outpoints. *)
Theorem block_undo_restores `{C : Crypto} env p l txs bt reward height enforce max l' f total subsidy undo :
  validate_and_apply_transactions env p l txs bt reward height enforce max
    = (l', Ok (f, total, subsidy, undo)) ->
  amounts (utxos l) -> relays_ok p l -> Forall wire_tx txs -> 0 <= reward <= MAX_MONEY ->
  (forall op, op ∈ undo_created undo -> utxos l !! op = None) ->
  undo_block undo l' = l.
Proof. intros H Hl Hb Hw Hr. by destruct (apply_block_ok _ _ _ _ _ _ _ _ _ _ _ _ _ _ H Hl Hw Hr); auto. Qed.

Lemma sample_created_fresh : Forall (fun op => utxos sample_ledger !! op = None) (undo_created (undo_of sample_applied)).
Proof. apply (bool_decide_unpack _). vm_compute. exact I. Qed.

Lemma block_undo_restores_witness : undo_block (undo_of sample_applied) sample_applied.1 = sample_ledger.
Proof.
  apply (block_undo_restores no_env sample_params sample_ledger sample_block 1000 5000 10 true
    (Some MAX_MONEY) sample_applied.1 100 5100 5000 (undo_of sample_applied) sample_applied_ok
    sample_amounts sample_relays_ok sample_block_wire).
  - vm_compute. split; congruence.
  - apply (proj1 (Forall_forall _ _) sample_created_fresh).
Defined.

(** A block that is refused takes and creates no coin: after an error the
    unspent outputs and the claimed foreign outpoints are as before. *)
Theorem failed_block_keeps_coins `{C : Crypto} env p l txs bt reward height enforce max l' e :
  validate_and_apply_transactions env p l txs bt reward height enforce max = (l', Err e) ->
  utxos l' = utxos l /\ claimed_btc_outpoints l' = claimed_btc_outpoints l /\
  claimed_ltc_outpoints l' = claimed_ltc_outpoints l.
Proof.
  intros H. by eapply refused_keeps_coins.
Qed.

(** A transaction without inputs that carries a header batch. *)
Definition relay_tx : Transaction :=
  {| tx_version := 1; tx_inputs := [];
     tx_outputs := [{| value := 0;
       script_pubkey := match encode_btc_header_batch sample_batch with Ok s => s | _ => [] end |}];
     tx_locktime := 0 |}.

Definition refused_block : list Transaction := [sample_coinbase 5001; relay_tx].

Definition refused : Ledger * res BlockError (Z * Z * Z * BlockUndo) :=
  validate_and_apply_transactions no_env sample_params sample_ledger refused_block 1000 5000 10 true
    (Some MAX_MONEY).

Definition relayed_hash : bytes := block_hash (sample_spv_header (replicate 32 3) 1000 0x2200ffff).

Definition error_of {A} (r : Ledger * res BlockError A) : option BlockError :=
  match r.2 with Err e => Some e | _ => None end.

Lemma failed_block_keeps_coins_witness :
  utxos refused.1 = utxos sample_ledger /\
  claimed_btc_outpoints refused.1 = claimed_btc_outpoints sample_ledger /\
  claimed_ltc_outpoints refused.1 = claimed_ltc_outpoints sample_ledger.
Proof.
  apply (failed_block_keeps_coins no_env sample_params sample_ledger refused_block 1000 5000 10 true
    (Some MAX_MONEY) refused.1 (Msg "Coinbase transaction exceeds allowed reward")).
  fold refused. rewrite (surjective_pairing refused) at 1. f_equal.
Defined.

(** A refused block can still change the header relay: this block is refused
    because its coinbase takes one unit too much, but the header batch of its
    second transaction stays applied, with nothing left to undo it; two nodes
    that agree on the chain then disagree on which foreign payments are proved,
    depending on which refused blocks they have seen. *)
Theorem refused_block_changes_relay :
  error_of refused = Some (Msg "Coinbase transaction exceeds allowed reward") /\
  bool_decide (is_Some (rl_headers (btc sample_ledger) !! relayed_hash)) = false /\
  bool_decide (is_Some (rl_headers (btc refused.1) !! relayed_hash)) = true.
Proof. split_and!; vm_compute; reflexivity. Qed.

(** The same coinbase in two blocks. *)
Definition cb_block : list Transaction := [sample_coinbase 5000].
Definition cb_outpoint : OutPoint := (txid (sample_coinbase 5000), 0).
Definition cb_once : Ledger * res BlockError (Z * Z * Z * BlockUndo) :=
  validate_and_apply_transactions no_env sample_params sample_ledger cb_block 1000 5000 10 true
    (Some MAX_MONEY).
Definition cb_twice : Ledger * res BlockError (Z * Z * Z * BlockUndo) :=
  validate_and_apply_transactions no_env sample_params cb_once.1 cb_block 1000 5000 11 true
    (Some (MAX_MONEY - 5000)).

(** A coinbase may repeat, and then coins are lost: nothing makes the
    coinbase of a block different from an earlier one, both blocks count a
    subsidy of 5000, but the second output replaces the first (the coins do
    not grow), and undoing the second block removes the output altogether
    although the first block still stands. *)
Theorem repeated_coinbase_loses_coin :
  amounts_of cb_once = Some (0, 5000, 5000) /\ amounts_of cb_twice = Some (0, 5000, 5000) /\
  supply (utxos cb_once.1) = 6000 /\ supply (utxos cb_twice.1) = 6000 /\
  bool_decide (is_Some (utxos cb_once.1 !! cb_outpoint)) = true /\
  bool_decide (is_Some (utxos (undo_block (undo_of cb_twice) cb_twice.1) !! cb_outpoint)) = false.
Proof. split_and!; vm_compute; reflexivity. Qed.
