(* ===== verification/Claims.v ===== *)
(** * Claims: foreign payments pay once
    ([src/src/chain.rs], [verify_transaction_signature] and
    [validate_and_apply_transactions])

    A claim of an output that waits for a payment on Bitcoin or Litecoin shows
    the foreign transaction.  Here it is read off the block itself, without the
    check of [Spend], which claims a block makes and which foreign output each of
    them names; the theorem compares that with what the ledger records. *)

From S2P Require Import Prelude Crypto Script Witness BtcTx Spv Spend Ledger.
From S2P Require Import TxCodec Activation Constants.

Open Scope list_scope.

(** ** What the claims of a block name *)

(** The output of a foreign transaction that carries the binding. *)
Definition carries (payload : bytes) (o : BtcTxOutputView) : bool :=
  match btc_script o with OpReturn data => beqb data payload | _ => false end.

Definition named_output `{C : Crypto} (claim : bytes * bytes) : option ForeignOut :=
  let '(payload, tx_raw) := claim in
  match btc_txid tx_raw, parse_btc_tx_outputs tx_raw with
  | Ok id, Ok outs => (fun o => (id, btc_vout o)) <$> List.find (carries payload) outs
  | _, _ => None
  end.

(** The binding and the foreign transaction of an input that claims [utxo]; none
    if it is no claim. *)
Definition btc_claim (utxo : TxOutput) (txin : TxInput) : option (bytes * bytes) :=
  match parse_output_encumbrance (script_pubkey utxo), parse_htlc_btc_swap_witness (script_sig txin) with
  | Ok (EncHtlcBtcSwapV1 swap), Ok (HbClaim _ _ _ _ _ tx_raw) =>
      Some (BTC_OP_RETURN_BINDING_MAGIC ++ hb_funding_binding swap, tx_raw)
  | _, _ => None
  end.
Definition ltc_claim (utxo : TxOutput) (txin : TxInput) : option (bytes * bytes) :=
  match parse_output_encumbrance (script_pubkey utxo), parse_htlc_ltc_swap_witness (script_sig txin) with
  | Ok (EncHtlcLtcSwapV1 swap), Ok (HlClaim _ _ _ _ _ tx_raw) =>
      Some (LTC_OP_RETURN_BINDING_MAGIC ++ hl_funding_binding swap, tx_raw)
  | _, _ => None
  end.

Definition claims_of (claim : TxOutput -> TxInput -> option (bytes * bytes)) (us : gmap OutPoint UtxoEntry)
    (ins : list TxInput) : list (bytes * bytes) :=
  omap (fun txin => e ← us !! input_key txin; claim (ue_output e) txin) ins.
(** The coinbase claims nothing. *)
Definition block_claims (claim : TxOutput -> TxInput -> option (bytes * bytes)) (us : gmap OutPoint UtxoEntry)
    (txs : list Transaction) : list (bytes * bytes) := claims_of claim us (concat (tx_inputs <$> tail txs)).

(** The claims name outputs that are all different, none of them recorded before,
    and exactly these are recorded in addition. *)
Definition paid_once `{C : Crypto} (claims : list (bytes * bytes)) (before after : gset ForeignOut) : Prop :=
  exists outs, Forall2 (fun c o => named_output c = Some o) claims outs /\ NoDup outs /\
    Forall (fun o => o ∉ before) outs /\ after = before ∪ list_to_set outs.

(** ** The check of an input *)
Section claims.
Context `{C : Crypto}.
Abbreviation named := (Forall2 (fun c o => named_output c = Some o)).

Lemma find_carries pre o post payload : btc_script o = OpReturn payload ->
  Forall (fun o => btc_script o <> OpReturn payload) pre -> List.find (carries payload) (pre ++ o :: post) = Some o.
Proof.
  intros Ho. induction 1 as [|x pre Hx _ IH]; cbn.
  - unfold carries. rewrite Ho. unfold beqb. by rewrite bool_decide_true.
  - assert (carries payload x = false) as ->; [|done]. unfold carries. destruct (btc_script x) as [| |d|]; [done..| |done].
    apply bool_decide_eq_false. congruence.
Qed.

Lemma checked_payment_named relay claimed used confs p2w recipient amount payload blk branch index raw out :
  check_payment relay claimed used confs p2w recipient amount payload blk branch index raw = Ok out ->
  named_output (payload, raw) = Some out.
Proof.
  unfold check_payment, named_output. intros H.
  destruct (rl_heights relay !! blk); bind_simpl_in H; [|done]. destruct (_ <? _); [done|].
  destruct (rl_headers relay !! blk); bind_simpl_in H; [|done].
  destruct (btc_txid raw) as [id| |]; bind_simpl_in H; [|done..]. destruct (negb _); [done|].
  destruct (parse_btc_tx_outputs raw) as [outs| |]; bind_simpl_in H; [|done..].
  destruct (scan_payment _ _ _ _ _ _ _) as [[pays vout]| |] eqn:Hs; bind_simpl_in H; [|done..].
  apply scan_payment_ok in Hs as [_ [[-> _]|(_ & pre & o & post & -> & -> & Ho & Hf)]];
    (destruct (negb pays); [done|]); bind_simpl_in H; [done|].
  repeat (case_bool_decide; [done|]). apply Ok_inj in H as <-. apply Forall_app in Hf as [Hf _].
  by rewrite find_carries.
Qed.

Lemma no_claims bu lu : exists nb nl : list ForeignOut, bu = bu ++ nb /\ lu = lu ++ nl /\ named [] nb /\ named [] nl.
Proof. exists [], []. rewrite !app_nil_r. repeat split; apply Forall2_nil; done. Qed.

Lemma verify_claims a tx i txin utxo height view bu lu bu' lu' :
  verify_transaction_signature a tx i txin utxo height view bu lu = Ok (bu', lu') ->
  exists nb nl, bu' = bu ++ nb /\ lu' = lu ++ nl /\
    named (option_list (btc_claim utxo txin)) nb /\ named (option_list (ltc_claim utxo txin)) nl.
Proof.
  unfold verify_transaction_signature, btc_claim, ltc_claim. intros H.
  destruct (parse_output_encumbrance _) as [e| |]; [|done..]. bind_simpl_in H.
  destruct e; try discriminate H; try (invert_parser H; injection H as <- <-; exact (no_claims bu lu)).
  - destruct (when_active _ _) as [u| |] eqn:Hw; bind_simpl_in H; [|done..]. apply Ok_inj, pair_eq in H as [-> <-].
    apply when_active_ok in Hw as [_ Hw]. unfold verify_btc_swap in Hw.
    destruct (parse_htlc_btc_swap_witness _) as [w| |]; bind_simpl_in Hw; [|done..]. destruct w.
    + destruct (check_payment _ _ _ _ _ _ _ _ _ _ _ _) as [out| |] eqn:Hc; bind_simpl_in Hw; [|done..].
      apply checked_payment_named in Hc. destruct (negb _); [done|]. destruct (require _); bind_simpl_in Hw; [|done..].
      apply Ok_inj in Hw as <-. exists [out], []. rewrite app_nil_r. cbn. split_and!; [done..| |by apply Forall2_nil].
      apply Forall2_cons. split; [done | by apply Forall2_nil].
    + invert_parser Hw. injection Hw as <-. exact (no_claims bu lu).
  - destruct (when_active _ _) as [u| |] eqn:Hw; bind_simpl_in H; [|done..]. apply Ok_inj, pair_eq in H as [<- ->].
    apply when_active_ok in Hw as [_ Hw]. unfold verify_ltc_swap in Hw.
    destruct (parse_htlc_ltc_swap_witness _) as [w| |]; bind_simpl_in Hw; [|done..]. destruct w.
    + destruct (check_payment _ _ _ _ _ _ _ _ _ _ _ _) as [out| |] eqn:Hc; bind_simpl_in Hw; [|done..].
      apply checked_payment_named in Hc. destruct (negb _); [done|]. destruct (require _); bind_simpl_in Hw; [|done..].
      apply Ok_inj in Hw as <-. exists [], [out]. rewrite app_nil_r. cbn. split_and!; [done..|by apply Forall2_nil|].
      apply Forall2_cons. split; [done | by apply Forall2_nil].
    + invert_parser Hw. injection Hw as <-. exact (no_claims bu lu).
Qed.

(** *** What the loops add to the outpoints used, for one kind of claim *)
Lemma claims_of_cons claim us txin ins : claims_of claim us (txin :: ins) =
  option_list (e ← us !! input_key txin; claim (ue_output e) txin) ++ claims_of claim us ins.
Proof. unfold claims_of. cbn. by destruct (us !! input_key txin) as [e|]; cbn; [destruct (claim _ _)|]. Qed.

Lemma claims_of_app claim us ins ins' : claims_of claim us (ins ++ ins') = claims_of claim us ins ++ claims_of claim us ins'.
Proof. apply omap_app. Qed.

(** From [sp] to [sp'] the claims of [ins] are recorded, once each. *)
Record recorded (l : Ledger) (ins : list TxInput) (sp sp' : Spending) : Prop := {
  rc_btc : exists nb, btc_used sp' = btc_used sp ++ nb /\ named (claims_of btc_claim (utxos l) ins) nb;
  rc_ltc : exists nl, ltc_used sp' = ltc_used sp ++ nl /\ named (claims_of ltc_claim (utxos l) ins) nl;
  rc_fresh : fresh_used (claimed_btc_outpoints l) (btc_used sp) -> fresh_used (claimed_ltc_outpoints l) (ltc_used sp) ->
    fresh_used (claimed_btc_outpoints l) (btc_used sp') /\ fresh_used (claimed_ltc_outpoints l) (ltc_used sp')
}.

Lemma recorded_nil l sp sp' : btc_used sp' = btc_used sp -> ltc_used sp' = ltc_used sp -> recorded l [] sp sp'.
Proof.
  intros Hb Hl. split; [exists []|exists []|by rewrite Hb, Hl]; rewrite app_nil_r; (split; [done | by apply Forall2_nil]).
Qed.

Lemma recorded_app l ins ins' sp sp' sp'' : recorded l ins sp sp' -> recorded l ins' sp' sp'' -> recorded l (ins ++ ins') sp sp''.
Proof.
  intros [(nb & Hb & Nb) (nl & Hl & Nl) Hf] [(nb' & Hb' & Nb') (nl' & Hl' & Nl') Hf'].
  split; [exists (nb ++ nb') | exists (nl ++ nl') | intros H1 H2; destruct (Hf H1 H2); by apply Hf'];
    (split; [by rewrite ?Hb', ?Hl', ?Hb, ?Hl, <- app_assoc | rewrite claims_of_app; by apply Forall2_app]).
Qed.

Context (env : Env) (p : ChainParams).

Lemma check_input_recorded l height tx idx txin sp sp' v :
  check_input env p l height tx idx txin sp = Ok (sp', v) -> recorded l [txin] sp sp'.
Proof.
  intros H. apply check_input_ok in H as (e & He & _ & _ & _ & _ & _ & _ & Hv).
  split.
  - apply verify_claims in Hv as (nb & nl & Hb & _ & Nb & _). exists nb. split; [done|].
    by rewrite claims_of_cons, He, app_nil_r.
  - apply verify_claims in Hv as (nb & nl & _ & Hl & _ & Nl). exists nl. split; [done|].
    by rewrite claims_of_cons, He, app_nil_r.
  - intros Hb Hl. by apply verify_used in Hv as (? & ? & _ & _).
Qed.

Lemma check_inputs_recorded l height tx ins : forall idx sp t sp' t',
  check_inputs env p l height tx ins idx sp t = Ok (sp', t') -> recorded l ins sp sp'.
Proof.
  induction ins as [|txin ins IH]; intros idx sp t sp' t' H; cbn [check_inputs] in H.
  { apply Ok_inj, pair_eq in H as [<- _]. by apply recorded_nil. }
  destruct (check_input _ _ _ _ _ _ _ _) as [[sp1 v]| |] eqn:Hc; bind_simpl_in H; [|done..].
  apply (recorded_app l [txin] ins _ sp1); [by eapply check_input_recorded | by eapply IH].
Qed.

Lemma validated_recorded l height tx sp sp' :
  validate_transaction_internal env p l tx height sp = Ok sp' -> recorded l (tx_inputs tx) sp sp'.
Proof.
  unfold validate_transaction_internal. intros H.
  destruct (check_inputs _ _ _ _ _ _ _ _ _) as [[sp1 t]| |] eqn:Hc; bind_simpl_in H; [|done..].
  destruct (check_outputs _ _ _ _) as [o| |]; bind_simpl_in H; [|done..].
  destruct (t <? o); [done|]. destruct (_ || _); [done|]. apply Ok_inj in H as <-.
  apply check_inputs_recorded in Hc. rewrite <- (app_nil_r (tx_inputs tx)). eapply recorded_app; [exact Hc|]. by apply recorded_nil.
Qed.

Lemma outputs_spending height bt id outs : forall index w w' r,
  apply_outputs p height bt id index outs w = (w', r) -> w_spending w' = w_spending w.
Proof.
  induction outs as [|o outs IH]; intros index w w' r H; [cbn in H; by simplify_eq|]. cbn [apply_outputs] in H.
  match type of H with (let '(_, _) := ?m in _) = _ => destruct m as [w1 r1] eqn:Hm end.
  assert (w_spending w1 = w_spending w) as <-.
  { destruct (has_tag o BTC_HEADER_BATCH_TAG); [|destruct (has_tag o LTC_HEADER_BATCH_TAG)];
      unfold apply_btc_output, apply_ltc_output, fail in Hm; repeat case_match; by simplify_eq. }
  destruct r1; [by eapply IH | by simplify_eq..].
Qed.

Lemma transactions_recorded l height bt txs : forall w w',
  apply_transactions env p l height bt txs w = (w', Ok tt) ->
  recorded l (concat (tx_inputs <$> txs)) (w_spending w) (w_spending w').
Proof.
  induction txs as [|tx txs IH]; intros w w' H; cbn [apply_transactions] in H.
  { apply pair_eq in H as [<- _]. by apply recorded_nil. }
  destruct (validate_transaction_internal _ _ _ _ _ _) as [sp| |] eqn:Hv; [|unfold fail in H; done..].
  destruct (apply_outputs _ _ _ _ _ _ _) as [w1 [[]| |]] eqn:Ho; [|done..]. apply outputs_spending in Ho.
  apply validated_recorded in Hv. apply IH in H. rewrite Ho in H. cbn [fmap list_fmap concat].
  eapply recorded_app; [|exact H]. destruct Hv as [Hb Hl Hf]. by split.
Qed.

Lemma coinbase_spending height bt outs : forall nb nl t w w' r,
  apply_coinbase p height bt nb nl outs t w = (w', r) -> w_spending w' = w_spending w.
Proof.
  induction outs as [|o outs IH]; intros nb nl t w w' r H; [cbn in H; by simplify_eq|]. cbn [apply_coinbase] in H.
  destruct (has_tag o BTC_HEADER_BATCH_TAG); [|destruct (has_tag o LTC_HEADER_BATCH_TAG)].
  - destruct (apply_coinbase_btc _ _ _ _ _ _) as [w1 r1] eqn:Hm.
    assert (w_spending w1 = w_spending w) as <- by (unfold apply_coinbase_btc, fail in Hm; repeat case_match; by simplify_eq).
    destruct r1; [by eapply IH | by simplify_eq..].
  - destruct (apply_coinbase_ltc _ _ _ _ _ _) as [w1 r1] eqn:Hm.
    assert (w_spending w1 = w_spending w) as <- by (unfold apply_coinbase_ltc, fail in Hm; repeat case_match; by simplify_eq).
    destruct r1; [by eapply IH | by simplify_eq..].
  - destruct (_ && _); [by eapply IH|]. destruct (add_coinbase_value _ _ _ _); [by eapply IH | by simplify_eq..].
Qed.

Lemma block_recorded l txs bt reward height enforce max l' r :
  validate_and_apply_transactions env p l txs bt reward height enforce max = (l', Ok r) ->
  exists sp, recorded l (concat (tx_inputs <$> tail txs)) no_spending sp /\
    claimed_btc_outpoints l' = claimed_btc_outpoints l ∪ list_to_set (btc_used sp) /\
    claimed_ltc_outpoints l' = claimed_ltc_outpoints l ∪ list_to_set (ltc_used sp).
Proof.
  unfold validate_and_apply_transactions. intros H. destruct txs as [|cb txs]; [done|].
  destruct (negb _); [done|]. destruct (_ =? 0); [done|].
  destruct (apply_transactions _ _ _ _ _ _ _) as [w [[]| |]] eqn:Ht; [|done..]. apply transactions_recorded in Ht.
  destruct (apply_coinbase _ _ _ _ _ _ _ _) as [w1 [t| |]] eqn:Hc; [|done..]. apply coinbase_spending in Hc.
  destruct (check_reward _ _ _ _ _) as [s| |]; [|done..]. cbv zeta in H. unfold commit_block in H.
  apply pair_eq in H as [<- _]. cbn [w_spending claimed_btc_outpoints claimed_ltc_outpoints].
  exists (w_spending w). rewrite Hc. by split.
Qed.

Lemma recorded_once l ins sp : recorded l ins no_spending sp ->
  paid_once (claims_of btc_claim (utxos l) ins) (claimed_btc_outpoints l) (claimed_btc_outpoints l ∪ list_to_set (btc_used sp)) /\
  paid_once (claims_of ltc_claim (utxos l) ins) (claimed_ltc_outpoints l) (claimed_ltc_outpoints l ∪ list_to_set (ltc_used sp)).
Proof.
  intros [(nb & Hb & Nb) (nl & Hl & Nl) Hf]. cbn [no_spending btc_used ltc_used app] in *. subst.
  destruct Hf as [[? ?] [? ?]]; [by split; constructor..|]. split; [by exists (btc_used sp) | by exists (ltc_used sp)].
Qed.
End claims.

(** C31: A foreign payment pays once: of the claims that a block makes, each names an
    output of the foreign transaction that it shows; these are all different, none
    of them had paid before the block, and they are exactly what is recorded as
    paid in addition, for Bitcoin and for Litecoin. *)
Theorem foreign_payment_pays_once `{C : Crypto} env p l txs bt reward height enforce max l' r :
  validate_and_apply_transactions env p l txs bt reward height enforce max = (l', Ok r) ->
  paid_once (block_claims btc_claim (utxos l) txs) (claimed_btc_outpoints l) (claimed_btc_outpoints l') /\
  paid_once (block_claims ltc_claim (utxos l) txs) (claimed_ltc_outpoints l) (claimed_ltc_outpoints l').
Proof.
  intros H. apply block_recorded in H as (sp & Hr & -> & ->). by apply recorded_once.
Qed.

(** ** Sample: two outputs that wait for the same Bitcoin payment *)
Definition swap : HtlcBtcSwapV1Output :=
  {| hb_confirmations_required := 6; hb_recipient_pkh := hash160 sample_pk; hb_refund_pkh := replicate 20 3;
     hb_btc_recipient_pkh := replicate 20 9; hb_btc_amount_sats := 5000; hb_timeout_height := 100;
     hb_funding_binding := replicate 8 4 |}.
Definition locked : TxOutput := {| value := 1000; script_pubkey := encode_htlc_btc_swap_v1_script swap |}.

(** The payment, with the binding in its second output, and the block it is in *)
Definition payment : BtcTransaction :=
  {| btx_version := [1; 0; 0; 0];
     btx_ins := [{| in_outpoint := replicate 36 7; in_script := [1; 2]; in_sequence := [255; 255; 255; 255] |}];
     btx_outs := [ {| out_value := 5000; out_script := [0x76; 0xa9; 0x14] ++ replicate 20 9 ++ [0x88; 0xac] |};
                   {| out_value := 0; out_script := [0x6a; 14] ++ BTC_OP_RETURN_BINDING_MAGIC ++ hb_funding_binding swap |} ];
     btx_locktime := [0; 0; 0; 0] |}.
Definition payment_raw : bytes := enc_legacy payment.
Definition payment_id : bytes := Eval vm_compute in sha256d payment_raw.
Definition payment_header : SpvHeader :=
  {| sh_version := 1; sh_prev_hash := replicate 32 3; sh_merkle_root := payment_id; sh_time := 1000; sh_bits := 0x2200ffff;
     sh_nonce := 0 |}.
Definition payment_block : bytes := replicate 32 6.

Definition swap_ledger : Ledger :=
  {| utxos := {[ (replicate 32 5, 0) := {| ue_output := locked; ue_height := 3; ue_is_coinbase := false |};
                 (replicate 32 5, 1) := {| ue_output := locked; ue_height := 3; ue_is_coinbase := false |} ]};
     btc := {| rl_headers := {[ payment_block := {| e_header := payment_header; e_height := 40; e_work := 1 |} ]};
               rl_heights := {[ payment_block := 40 ]}; rl_tip := Some payment_block; rl_tip_height := 50 |};
     claimed_btc_outpoints := {[ (zeros 32, 0) ]};
     ltc := RelayState_new; claimed_ltc_outpoints := ∅ |}.

Definition swap_params : ChainParams :=
  {| pow_limit := pow_limit sample_params; genesis_header := genesis_header sample_params;
     htlcv1_activation_height := None; mpsov1_activation_height := None;
     lwma := lwma sample_params; lwma_v2 := None; auxpow_activation_height := None;
     btc_spv := btc_spv sample_params; ltc_spv := None; htlc_btc_swap_v1_activation_height := Some 0;
     btc_swap_bech32_payment_activation_height := None; htlc_ltc_swap_v1_activation_height := None;
     swap_order_v1_activation_height := None; ltc_swap_order_v1_activation_height := None;
     coinbase_header_batch_activation_height := None |}.

(** A claim of the first [n] outputs, signed *)
Definition claiming (n : nat) : Transaction :=
  let witness i := default [] (encode_htlc_btc_swap_claim_witness
    (toy_sign (sample_tx (replicate n []) sample_outputs) i (encode_htlc_btc_swap_v1_script swap) sample_pk) sample_pk
    payment_block [] 0 payment_raw) in
  sample_tx (witness <$> seqZ 0 (Z.of_nat n)) sample_outputs.
Definition claimed (n : nat) : Ledger * res BlockError (Z * Z * Z * BlockUndo) :=
  validate_and_apply_transactions no_env swap_params swap_ledger [sample_coinbase 5000; claiming n] 1000 5000 10 true
    (Some MAX_MONEY).

Lemma claimed_ok : claimed 1 = ((claimed 1).1, Ok (100, 5000, 4900, undo_of (claimed 1))).
Proof. apply (applied_eq (claimed 1)). vm_compute. reflexivity. Qed.

Lemma swap_claims : block_claims btc_claim (utxos swap_ledger) [sample_coinbase 5000; claiming 1] =
  [(BTC_OP_RETURN_BINDING_MAGIC ++ hb_funding_binding swap, payment_raw)].
Proof. vm_compute. reflexivity. Qed.

Lemma foreign_payment_pays_once_witness :
  paid_once [(BTC_OP_RETURN_BINDING_MAGIC ++ hb_funding_binding swap, payment_raw)]
    (claimed_btc_outpoints swap_ledger) (claimed_btc_outpoints (claimed 1).1).
Proof.
  rewrite <- swap_claims.
  exact (proj1 (foreign_payment_pays_once no_env swap_params swap_ledger [sample_coinbase 5000; claiming 1] 1000 5000 10 true
    (Some MAX_MONEY) (claimed 1).1 (100, 5000, 4900, undo_of (claimed 1)) claimed_ok)).
Defined.

(** The output of the payment is recorded, and a second claim of it in the same
    block is refused. *)
Example payment_recorded : bool_decide ((payment_id, 1) ∈ claimed_btc_outpoints (claimed 1).1) = true.
Proof. vm_compute. reflexivity. Qed.
Example second_claim_refused : error_of (claimed 2) = Some (Msg "Transaction signature verification failed").
Proof. vm_compute. reflexivity. Qed.
