(* ===== verification/Mempool.v ===== *)
(** * Mempool: transactions waiting for a block ([src/src/mempool.rs],
    [classify_tx_priority] of [src/src/chain.rs])

    The pool keeps transactions by their id.  It is full at [max_entries]; a
    newcomer then takes the place of the lowest entry, if it ranks above it: a
    paying transaction above one that is exempt from fees, and among equals the
    one that pays more per byte.  Exempt transactions are limited to one in
    [HEADER_RELAY_PER_IP_INTERVAL_SECS] per address.

    The fee per byte is a 64-bit float, modelled with the binary64 operations
    of [SpecFloat].  The clock, the outcome of writing the file, the crate
    [hex], and the order in which a [HashMap] is walked are parameters. *)

From Stdlib Require Import Floats.SpecFloat.
From S2P Require Import Prelude Crypto Script TxCodec Activation Spv Spend Ledger.

(** ** 64-bit floats *)
Abbreviation f64 := spec_float.

(** [n as f64], rounded to the nearest; [/]; the order of [partial_cmp]. *)
Definition f64_of (n : Z) : f64 := binary_normalize 53 1024 n 0 false.
Definition f64_div (a b : f64) : f64 := SFdiv 53 1024 a b.
Definition f64_zero : f64 := S754_zero false.

(** [f64::total_cmp]: by sign and magnitude, [-0] below [+0], a NaN (taken to
    be positive) above everything. *)
Definition f64_key (x : f64) : Z * Z * Z :=
  match x with
  | S754_infinity true => (-3, 0, 0)
  | S754_finite true m e => (-2, - e, - Zpos m)
  | S754_zero true => (-1, 0, 0)
  | S754_zero false => (0, 0, 0)
  | S754_finite false m e => (1, e, Zpos m)
  | S754_infinity false => (2, 0, 0)
  | S754_nan => (3, 0, 0)
  end.

Definition cmp_then (a b : comparison) : comparison := match a with Eq => b | _ => a end.

Definition total_cmp (x y : f64) : comparison :=
  let '(c, e, m) := f64_key x in
  let '(c', e', m') := f64_key y in
  cmp_then (c ?= c') (cmp_then (e ?= e') (m ?= m')).

(** ** Data *)
Inductive MempoolPriority := ZeroFeeAllowed | Standard.

#[export] Instance MempoolPriority_eq_dec : EqDecision MempoolPriority.
Proof. solve_decision. Defined.

Definition rank (pr : MempoolPriority) : Z := match pr with ZeroFeeAllowed => 0 | Standard => 1 end.

Definition as_disk_str (pr : MempoolPriority) : string :=
  match pr with ZeroFeeAllowed => "zero_fee_allowed" | Standard => "standard" end.

Definition from_disk_str (s : string) : option MempoolPriority :=
  if bool_decide (s = "zero_fee_allowed"%string) then Some ZeroFeeAllowed else
  if bool_decide (s = "standard"%string) then Some Standard else None.

Record MempoolEntry := {
  me_tx : Transaction;
  me_raw : bytes;
  me_fee : Z;
  me_size : Z;
  me_fee_per_byte : f64;
  me_added : Z;
  me_relays : list string;
  me_relay_addresses : list string;
  me_priority : MempoolPriority
}.

Record AddOutcome := { ao_txid : bytes; ao_evicted : option bytes }.

Record DiskEntry := {
  de_hex : string;
  de_fee : option Z;
  de_size : option Z;
  de_fee_per_byte : option f64;
  de_added : option Z;
  de_txid : option string;
  de_relays : option (list string);
  de_relay_addresses : option (list string);
  de_priority : option string
}.

(** [std::net::IpAddr] by its octets. *)
Inductive IpAddr := V4 (octets : bytes) | V6 (octets : bytes).

#[export] Instance IpAddr_eq_dec : EqDecision IpAddr.
Proof. solve_decision. Defined.

#[export] Instance IpAddr_countable : Countable IpAddr.
Proof.
  refine (inj_countable' (fun a => match a with V4 o => inl o | V6 o => inr o end)
    (fun a => match a with inl o => V4 o | inr o => V6 o end) _).
  by intros [].
Defined.

Definition is_loopback (ip : IpAddr) : bool :=
  match ip with
  | V4 o => match o with b :: _ => b =? 127 | [] => false end
  | V6 o => beqb o (zeros 15 ++ [1])
  end.

(** [MempoolManager]; times are nanoseconds. *)
Record MempoolManager := {
  entries : gmap bytes MempoolEntry;
  max_entries : Z;
  min_fee_per_byte : f64;
  min_total_fee : Z;
  header_relay_last_seen : gmap IpAddr Z
}.

Definition HEADER_RELAY_PER_IP_INTERVAL_SECS : Z := 600.
Definition NANOS : Z := 1000000000.

Definition set_entries (m : MempoolManager) (es : gmap bytes MempoolEntry) : MempoolManager :=
  {| entries := es; max_entries := max_entries m; min_fee_per_byte := min_fee_per_byte m;
     min_total_fee := min_total_fee m; header_relay_last_seen := header_relay_last_seen m |}.

Definition set_last_seen (m : MempoolManager) (t : gmap IpAddr Z) : MempoolManager :=
  {| entries := entries m; max_entries := max_entries m; min_fee_per_byte := min_fee_per_byte m;
     min_total_fee := min_total_fee m; header_relay_last_seen := t |}.

(** [now.duration_since(t)], an error when [t] is later. *)
Definition duration_since (now t : Z) : option Z := if t <=? now then Some (now - t) else None.

(** What the table keeps: times less than the interval ago. *)
Definition rate_live (now t : Z) : bool :=
  match duration_since now t with
  | Some d => d <? HEADER_RELAY_PER_IP_INTERVAL_SECS * NANOS
  | None => false
  end.

Definition gc_header_relay_rate_table (m : MempoolManager) (now : Z) : MempoolManager :=
  set_last_seen m (filter (fun kt => rate_live now kt.2 = true) (header_relay_last_seen m)).

Definition has_btc_batch (tx : Transaction) : bool :=
  existsb (fun o => is_ok (parse_btc_header_batch (script_pubkey o))) (tx_outputs tx).
Definition has_ltc_batch (tx : Transaction) : bool :=
  existsb (fun o => is_ok (parse_ltc_header_batch (script_pubkey o))) (tx_outputs tx).

(** The comparator of [pick_eviction_target]. *)
Definition cmp_entries (a b : MempoolEntry) : comparison :=
  cmp_then (rank (me_priority a) ?= rank (me_priority b)) (total_cmp (me_fee_per_byte a) (me_fee_per_byte b)).

(** [Iterator::min_by]: the first of the least elements. *)
Definition min_by {A} (cmp : A -> A -> comparison) (l : list A) : option A :=
  match l with
  | [] => None
  | x :: l => Some (foldl (fun x y => match cmp x y with Gt => y | _ => x end) x l)
  end.

(** The comparator of [ordered_entries], and the stable sort by it. *)
Definition cmp_fee (a b : MempoolEntry) : comparison :=
  from_option id Eq (SFcompare (me_fee_per_byte b) (me_fee_per_byte a)).

Fixpoint insert_by_fee (x : MempoolEntry) (l : list MempoolEntry) : list MempoolEntry :=
  match l with
  | [] => [x]
  | y :: l' => match cmp_fee x y with Gt => y :: insert_by_fee x l' | _ => x :: l end
  end.

Definition sort_by_fee (l : list MempoolEntry) : list MempoolEntry := foldr insert_by_fee [] l.

Definition fee_rate (fee size : Z) : f64 := if 0 <? size then f64_div (f64_of fee) (f64_of size) else f64_zero.

Section mempool.
Context `{C : Crypto}.
(** The order of a [HashMap]; [hex::encode]; [hex::decode]; writing the file. *)
Context (walk : gmap bytes MempoolEntry -> list (bytes * MempoolEntry))
        (hex_encode : bytes -> string) (hex_decode : string -> option bytes)
        (persist : gmap bytes MempoolEntry -> res string unit).

(** ** The file *)
Definition to_disk (txid : bytes) (e : MempoolEntry) : DiskEntry :=
  {| de_hex := hex_encode (me_raw e); de_fee := Some (me_fee e); de_size := Some (me_size e);
     de_fee_per_byte := Some (me_fee_per_byte e); de_added := Some (me_added e);
     de_txid := Some (hex_encode txid); de_relays := Some (me_relays e);
     de_relay_addresses := Some (me_relay_addresses e);
     de_priority := Some (as_disk_str (me_priority e)) |}.

(** The entries [persist] writes. *)
Definition disk_entries (es : gmap bytes MempoolEntry) : list DiskEntry :=
  (fun kv => to_disk kv.1 kv.2) <$> walk es.

(** One turn of the loop of [load_from_disk]; [None] when the entry is skipped. *)
Definition from_disk (now_secs : Z) (d : DiskEntry) : res string (option (bytes * MempoolEntry)) :=
  match hex_decode (de_hex d) with
  | None => Ok None
  | Some raw =>
      match decode_full_tx raw with
      | Panic => Panic
      | Err _ => Ok None
      | Ok tx =>
          let size := from_option id (len raw) (de_size d) in
          let fee := from_option id 0 (de_fee d) in
          Ok (Some (txid tx,
            {| me_tx := tx; me_raw := raw; me_fee := fee; me_size := size;
               me_fee_per_byte := from_option id (fee_rate fee size) (de_fee_per_byte d);
               me_added := from_option id now_secs (de_added d);
               me_relays := from_option id [] (de_relays d);
               me_relay_addresses := from_option id [] (de_relay_addresses d);
               me_priority := from_option id Standard (de_priority d ≫= from_disk_str) |}))
      end
  end.

Fixpoint load_from_disk (now_secs : Z) (parsed : list DiskEntry) (es : gmap bytes MempoolEntry)
    : res string (gmap bytes MempoolEntry) :=
  match parsed with
  | [] => Ok es
  | d :: parsed =>
      o ← from_disk now_secs d;
      load_from_disk now_secs parsed (match o with Some (k, e) => <[k := e]> es | None => es end)
  end.

(** [MempoolManager::new], without a file. *)
Definition MempoolManager_new (max : Z) (min_rate : f64) (min_total : Z) : MempoolManager :=
  {| entries := ∅; max_entries := max; min_fee_per_byte := min_rate; min_total_fee := min_total;
     header_relay_last_seen := ∅ |}.

(** ** Admission *)

(** The loop over the entries for a pending carrier of the same chain. *)
Fixpoint check_batches (new_has_btc new_has_ltc : bool) (es : list (bytes * MempoolEntry)) : res string unit :=
  match es with
  | [] => Ok tt
  | (_, entry) :: es =>
      if new_has_btc && has_btc_batch (me_tx entry) then Err "duplicate_btc_header_batch_pending"%string else
      if new_has_ltc && has_ltc_batch (me_tx entry) then Err "duplicate_ltc_header_batch_pending"%string else
      check_batches new_has_btc new_has_ltc es
  end.

(** The address that is rate limited, if any. *)
Definition limited_ip (priority : MempoolPriority) (peer_ip : option IpAddr) : option IpAddr :=
  match priority, peer_ip with
  | ZeroFeeAllowed, Some ip => if is_loopback ip then None else Some ip
  | _, _ => None
  end.

Definition check_rate (m : MempoolManager) (limited : option IpAddr) (now : Z)
    : MempoolManager * res string unit :=
  match limited with
  | None => (m, Ok tt)
  | Some ip =>
      let m := gc_header_relay_rate_table m now in
      match header_relay_last_seen m !! ip with
      | Some prev =>
          let elapsed_under_limit :=
            match duration_since now prev with
            | Some d => d `div` NANOS <? HEADER_RELAY_PER_IP_INTERVAL_SECS
            | None => false
            end in
          if elapsed_under_limit then (m, Err "header_relay_rate_limit_per_ip"%string) else (m, Ok tt)
      | None => (m, Ok tt)
      end
  end.

Definition pick_eviction_target (m : MempoolManager) (incoming_priority : MempoolPriority)
    (incoming_fpb : f64) : option bytes :=
  '(lowest_txid, lowest_entry) ← min_by (fun a b => cmp_entries a.2 b.2) (walk (entries m));
  let incoming_rank := rank incoming_priority in
  let lowest_rank := rank (me_priority lowest_entry) in
  if (lowest_rank <? incoming_rank)
     || ((incoming_rank =? lowest_rank) && SFltb (me_fee_per_byte lowest_entry) incoming_fpb)
  then Some lowest_txid else None.

(** The entry to make room for, if room is needed. *)
Definition make_room (m : MempoolManager) (priority : MempoolPriority) (fee_per_byte : f64)
    : res string (option bytes) :=
  if max_entries m <=? Z.of_nat (size (entries m)) then
    match pick_eviction_target m priority fee_per_byte with
    | Some t => Ok (Some t)
    | None => Err "Mempool full and fee/priority too low"%string
    end
  else Ok None.

(** The clock is read three times: for the rate limit, for the entry (in
    seconds) and when the limit is recorded. *)
Definition add_transaction_with_priority (m : MempoolManager) (tx : Transaction) (raw : bytes) (fee : Z)
    (priority : MempoolPriority) (peer_ip : option IpAddr) (now added now' : Z)
    : MempoolManager * res string AddOutcome :=
  let id := txid tx in
  if bool_decide (is_Some (entries m !! id)) then (m, Err "Transaction already in mempool"%string) else
  let new_has_btc := has_btc_batch tx in
  let new_has_ltc := has_ltc_batch tx in
  match (if new_has_btc || new_has_ltc then check_batches new_has_btc new_has_ltc (walk (entries m)) else Ok tt) with
  | Err e => (m, Err e)
  | Panic => (m, Panic)
  | Ok _ =>
  let limited := limited_ip priority peer_ip in
  match check_rate m limited now with
  | (m, Err e) => (m, Err e)
  | (m, Panic) => (m, Panic)
  | (m, Ok _) =>
  let size := len raw in
  let fee_per_byte := fee_rate fee size in
  if bool_decide (priority = Standard) && SFltb fee_per_byte (min_fee_per_byte m)
  then (m, Err "Fee per byte below minimum policy"%string) else
  if bool_decide (priority = Standard) && (fee <? min_total_fee m)
  then (m, Err "Fee below minimum total policy"%string) else
  match make_room m priority fee_per_byte with
  | Err e => (m, Err e)
  | Panic => (m, Panic)
  | Ok evicted =>
      let es := match evicted with Some e => delete e (entries m) | None => entries m end in
      let entry := {| me_tx := tx; me_raw := raw; me_fee := fee; me_size := size;
                      me_fee_per_byte := fee_per_byte; me_added := added; me_relays := [];
                      me_relay_addresses := []; me_priority := priority |} in
      let m := set_entries m (<[id := entry]> es) in
      match persist (entries m) with
      | Err e => (m, Err e)
      | Panic => (m, Panic)
      | Ok _ =>
          let m := match limited with
                   | Some ip => set_last_seen m (<[ip := now']> (header_relay_last_seen m))
                   | None => m
                   end in
          (m, Ok {| ao_txid := id; ao_evicted := evicted |})
      end
  end
  end
  end.

Definition add_transaction (m : MempoolManager) (tx : Transaction) (raw : bytes) (fee now added now' : Z)
    : MempoolManager * res string AddOutcome :=
  add_transaction_with_priority m tx raw fee Standard None now added now'.

(** ** Upkeep; what [persist] says is ignored *)
Definition record_relay (m : MempoolManager) (id : bytes) (peer : string) : MempoolManager :=
  match entries m !! id with
  | Some e =>
      if bool_decide (peer ∈ me_relays e) then m else
      set_entries m (<[id := {| me_tx := me_tx e; me_raw := me_raw e; me_fee := me_fee e; me_size := me_size e;
        me_fee_per_byte := me_fee_per_byte e; me_added := me_added e; me_relays := me_relays e ++ [peer];
        me_relay_addresses := me_relay_addresses e; me_priority := me_priority e |}]> (entries m))
  | None => m
  end.

Definition record_relay_address (m : MempoolManager) (id : bytes) (address : string) : MempoolManager :=
  match entries m !! id with
  | Some e =>
      if bool_decide (address ∈ me_relay_addresses e) then m else
      set_entries m (<[id := {| me_tx := me_tx e; me_raw := me_raw e; me_fee := me_fee e; me_size := me_size e;
        me_fee_per_byte := me_fee_per_byte e; me_added := me_added e; me_relays := me_relays e;
        me_relay_addresses := me_relay_addresses e ++ [address]; me_priority := me_priority e |}]> (entries m))
  | None => m
  end.

Definition remove (m : MempoolManager) (id : bytes) : MempoolManager * bool :=
  (set_entries m (delete id (entries m)), bool_decide (is_Some (entries m !! id))).

(** ** Queries *)
Definition contains (m : MempoolManager) (id : bytes) : bool := bool_decide (is_Some (entries m !! id)).
Definition pool_len (m : MempoolManager) : Z := Z.of_nat (size (entries m)).
Definition ordered_entries (m : MempoolManager) : list MempoolEntry := sort_by_fee (walk (entries m)).*2.
Definition ordered_transactions (m : MempoolManager) : list Transaction := me_tx <$> ordered_entries m.
Definition raw_tx (m : MempoolManager) (id : bytes) : option bytes := me_raw <$> entries m !! id.
Definition relays_for (m : MempoolManager) (id : bytes) : list string :=
  from_option me_relays [] (entries m !! id).
Definition relay_addresses_for (m : MempoolManager) (id : bytes) : list string :=
  from_option me_relay_addresses [] (entries m !! id).

Definition find_conflicting (m : MempoolManager) (outpoint : OutPoint) : option bytes :=
  fst <$> find (fun kv => existsb (fun i => bool_decide ((prev_txid i, prev_index i) = outpoint))
                            (tx_inputs (me_tx kv.2))) (walk (entries m)).

(** ** With the chain *)
Context (env : Env) (p : ChainParams).

(** The loop of [evict_invalid_mempool_entries] and the count; it stops when a
    check panics. *)
Fixpoint evict_loop (l : Ledger) (chain_height : Z) (candidates : list Transaction) (m : MempoolManager)
    (evicted : Z) : MempoolManager * res string Z :=
  match candidates with
  | [] => (m, Ok evicted)
  | tx :: candidates =>
      match validate_transaction env p l chain_height tx with
      | Panic => (m, Panic)
      | Ok _ => evict_loop l chain_height candidates m evicted
      | Err _ =>
          let '(m, removed) := remove m (txid tx) in
          evict_loop l chain_height candidates m (if removed : bool then evicted + 1 else evicted)
      end
  end.

Definition evict_invalid_mempool_entries (l : Ledger) (chain_height : Z) (m : MempoolManager)
    : MempoolManager * res string Z :=
  evict_loop l chain_height (ordered_transactions m) m 0.

(** The first byte of the input script is 1: a claim, or the filling of a sale. *)
Definition first_is_one (s : bytes) : bool := match s with b :: _ => b =? 1 | [] => false end.

Definition classify_tx_priority (tx : Transaction) (l : Ledger) : MempoolPriority :=
  if existsb (fun o => has_tag o BTC_HEADER_BATCH_TAG || has_tag o LTC_HEADER_BATCH_TAG) (tx_outputs tx)
  then ZeroFeeAllowed else
  match tx_inputs tx with
  | [] => Standard
  | input0 :: _ =>
      match utxos l !! (prev_txid input0, prev_index input0) with
      | None => Standard
      | Some utxo =>
          let script := script_pubkey (ue_output utxo) in
          let first := first_is_one (script_sig input0) in
          if is_ok (parse_htlc_btc_swap_v1_script script) && first then ZeroFeeAllowed else
          if match parse_swap_order_script script with
             | Ok order => (so_direction order =? SWAP_ORDER_DIRECTION_SELL) && first
             | _ => false end then ZeroFeeAllowed else
          if is_ok (parse_htlc_ltc_swap_v1_script script) && first then ZeroFeeAllowed else
          if match parse_ltc_swap_order_script script with
             | Ok order => (lo_direction order =? LTC_SWAP_ORDER_DIRECTION_SELL) && first
             | _ => false end then ZeroFeeAllowed else Standard
      end
  end.
End mempool.

(** ** The order of the entries *)
Fixpoint cmp_list (a b : list Z) : comparison :=
  match a, b with
  | x :: a, y :: b => cmp_then (x ?= y) (cmp_list a b)
  | _, _ => Eq
  end.

Definition entry_key (e : MempoolEntry) : list Z :=
  let '(c, x, m) := f64_key (me_fee_per_byte e) in [rank (me_priority e); c; x; m].

Lemma cmp_entries_key a b : cmp_entries a b = cmp_list (entry_key a) (entry_key b).
Proof.
  unfold cmp_entries, entry_key, total_cmp.
  destruct (f64_key _) as [[c x] m], (f64_key (me_fee_per_byte b)) as [[c' x'] m']. cbn.
  repeat (destruct (_ ?= _); [cbn|done|done]). done.
Qed.

Lemma cmp_list_antisym a : forall b, cmp_list b a = CompOpp (cmp_list a b).
Proof.
  induction a as [|x a IH]; intros [|y b]; try done. cbn.
  rewrite (Z.compare_antisym x y), IH. by destruct (x ?= y).
Qed.

Lemma cmp_list_trans a : forall b c, length a = length b -> length b = length c ->
  cmp_list a b <> Gt -> cmp_list b c <> Gt -> cmp_list a c <> Gt.
Proof.
  induction a as [|x a IH]; intros [|y b] [|z c]; try done. cbn. intros [= Hab] [= Hbc] H1 H2.
  destruct (Z.compare_spec x y), (Z.compare_spec y z), (Z.compare_spec x z); cbn in *;
    try done; try lia; subst; by eapply IH.
Qed.

Lemma length_entry_key e : length (entry_key e) = 4%nat.
Proof. unfold entry_key. by destruct (f64_key _) as [[c x] m]. Qed.

Lemma cmp_entries_total a b : cmp_entries a b = Gt -> cmp_entries b a <> Gt.
Proof. rewrite !cmp_entries_key, (cmp_list_antisym (entry_key a)). by intros ->. Qed.

Lemma cmp_entries_trans a b c : cmp_entries a b <> Gt -> cmp_entries b c <> Gt -> cmp_entries a c <> Gt.
Proof. rewrite !cmp_entries_key. apply cmp_list_trans; by rewrite !length_entry_key. Qed.

(** [min_by] gives a least element, for a total preorder. *)
Lemma min_by_spec {A} (cmp : A -> A -> comparison) l x :
  (forall a b, cmp a b = Gt -> cmp b a <> Gt) ->
  (forall a b c, cmp a b <> Gt -> cmp b c <> Gt -> cmp a c <> Gt) ->
  min_by cmp l = Some x -> x ∈ l /\ forall y, y ∈ l -> cmp x y <> Gt.
Proof.
  intros Htot Htrans. destruct l as [|a l]; [done|]. cbn. intros [= <-].
  assert (forall b, cmp b b <> Gt) as Hrefl by (intros b Hb; by specialize (Htot _ _ Hb)).
  revert a. induction l as [|b l IH]; intros a; cbn.
  - split; [by left|]. intros y ->%list_elem_of_singleton. apply Hrefl.
  - destruct (cmp a b) eqn:Hab; [..|destruct (IH b) as [Hin Hle]];
      [destruct (IH a) as [Hin Hle] | destruct (IH a) as [Hin Hle] |].
    1,2: split; [apply elem_of_cons in Hin as [Hin|Hin]; apply elem_of_cons; [by left | right; by right]|]; intros y [->|[->|Hy]%elem_of_cons]%elem_of_cons;
      [by apply Hle; left | eapply Htrans; [by apply Hle; left | congruence] | by apply Hle; right].
    split; [by right|]. intros y [->|Hy]%elem_of_cons; [|by apply Hle].
    eapply Htrans; [by apply Hle; left | by apply Htot].
Qed.

(** ** Admission, step by step *)

(** What a newcomer must be to take the place of an entry. *)
Definition outranks (priority : MempoolPriority) (fpb : f64) (e : MempoolEntry) : Prop :=
  rank (me_priority e) < rank priority \/
  rank (me_priority e) = rank priority /\ SFltb (me_fee_per_byte e) fpb = true.

Section admission.
Context `{C : Crypto}.
Context (walk : gmap bytes MempoolEntry -> list (bytes * MempoolEntry))
        (persist : gmap bytes MempoolEntry -> res string unit).
(** Walking a [HashMap] visits every entry once. *)
Context (Hwalk : forall es, walk es ≡ₚ map_to_list es).

Abbreviation add := (add_transaction_with_priority walk persist).

Lemma elem_of_walk es k e : (k, e) ∈ walk es <-> es !! k = Some e.
Proof. by rewrite Hwalk, elem_of_map_to_list. Qed.

Lemma pick_eviction_target_spec m priority fpb id :
  pick_eviction_target walk m priority fpb = Some id -> exists e,
    entries m !! id = Some e /\ outranks priority fpb e /\
    forall id' e', entries m !! id' = Some e' -> cmp_entries e e' <> Gt.
Proof.
  unfold pick_eviction_target. intros H.
  destruct (min_by _ _) as [[id' e]|] eqn:Hm; [|done]. cbn in H.
  apply min_by_spec in Hm as [Hin Hle];
    [|intros ? ?; apply cmp_entries_total | intros ? ? ?; apply cmp_entries_trans].
  destruct (_ || _) eqn:Ho; [|done]. injection H as <-. apply elem_of_walk in Hin.
  exists e. split_and!; [done | | intros i e' He; apply (Hle (i, e')); by apply elem_of_walk].
  unfold outranks. apply orb_true_iff in Ho as [?|[? ?]%andb_true_iff]; [left; lia | right; split; [lia|done]].
Qed.

Lemma check_batches_ok nb nl es : check_batches nb nl es = Ok tt -> forall k e, (k, e) ∈ es ->
  (nb = true -> has_btc_batch (me_tx e) = false) /\ (nl = true -> has_ltc_batch (me_tx e) = false).
Proof.
  induction es as [|[k e] es IH]; intros H k' e' Hin; [by apply not_elem_of_nil in Hin|]. cbn in H.
  destruct (nb && _) eqn:Hb; [done|]. destruct (nl && _) eqn:Hl; [done|].
  apply elem_of_cons in Hin as [[= -> ->]|Hin]; [|by eapply IH].
  split; intros ->; [by rewrite andb_true_l in Hb | by rewrite andb_true_l in Hl].
Qed.

(** The manager when the checks up to the rate limit have been passed. *)
Definition after_gc (m : MempoolManager) (limited : option IpAddr) (now : Z) : MempoolManager :=
  match limited with Some _ => gc_header_relay_rate_table m now | None => m end.

Lemma check_rate_spec m limited now m' r :
  check_rate m limited now = (m', r) -> m' = after_gc m limited now /\ r <> Panic /\
  (r = Ok tt -> forall ip, limited = Some ip -> header_relay_last_seen m' !! ip = None).
Proof.
  unfold check_rate, after_gc. intros H. destruct limited as [ip|]; [|by simplify_eq].
  destruct (header_relay_last_seen (gc_header_relay_rate_table m now) !! ip) as [prev|] eqn:Hl;
    [|simplify_eq; split_and!; [done..|]; by intros _ ip' [= <-]].
  destruct (match duration_since now prev with Some _ => _ | None => _ end) eqn:Hd;
    [by simplify_eq|]. exfalso. cbn in Hl. apply map_lookup_filter_Some in Hl as [_ Hl]. cbn in Hl.
  unfold rate_live in Hl. destruct (duration_since now prev) as [d|]; [|done].
  unfold HEADER_RELAY_PER_IP_INTERVAL_SECS, NANOS in *.
  assert (d `div` 1000000000 < 600) by (apply Z.div_lt_upper_bound; lia). lia.
Qed.

(** What an admission that gets as far as the file has done. *)
Record admitted (m m' : MempoolManager) (tx : Transaction) (raw : bytes) (fee : Z) (priority : MempoolPriority)
    (limited : option IpAddr) (now added : Z) (evicted : option bytes) : Prop := {
  ad_new : entries m !! txid tx = None;
  ad_batches : forall id e, entries m !! id = Some e ->
    (has_btc_batch tx = true -> has_btc_batch (me_tx e) = false) /\
    (has_ltc_batch tx = true -> has_ltc_batch (me_tx e) = false);
  ad_rate : forall ip, limited = Some ip -> header_relay_last_seen (after_gc m limited now) !! ip = None;
  ad_floor : priority = Standard ->
    SFltb (fee_rate fee (len raw)) (min_fee_per_byte m) = false /\ min_total_fee m <= fee;
  ad_room : match evicted with
            | Some id => max_entries m <= Z.of_nat (size (entries m)) /\ exists e,
                entries m !! id = Some e /\ outranks priority (fee_rate fee (len raw)) e /\
                forall id' e', entries m !! id' = Some e' -> cmp_entries e e' <> Gt
            | None => Z.of_nat (size (entries m)) < max_entries m
            end;
  ad_entries : entries m' =
    <[txid tx := {| me_tx := tx; me_raw := raw; me_fee := fee; me_size := len raw;
                    me_fee_per_byte := fee_rate fee (len raw); me_added := added; me_relays := [];
                    me_relay_addresses := []; me_priority := priority |}]>
      (match evicted with Some id => delete id (entries m) | None => entries m end);
  ad_policy : max_entries m' = max_entries m /\ min_fee_per_byte m' = min_fee_per_byte m /\
    min_total_fee m' = min_total_fee m
}.

Lemma make_room_spec m priority fpb r :
  make_room walk m priority fpb = r -> r <> Panic /\ forall evicted, r = Ok evicted ->
  match evicted with
  | Some id => max_entries m <= Z.of_nat (size (entries m)) /\ exists e,
      entries m !! id = Some e /\ outranks priority fpb e /\
      forall id' e', entries m !! id' = Some e' -> cmp_entries e e' <> Gt
  | None => Z.of_nat (size (entries m)) < max_entries m
  end.
Proof.
  unfold make_room. intros <-. destruct (_ <=? _) eqn:Hle.
  - destruct (pick_eviction_target _ _ _ _) as [id|] eqn:Hp; [|done]. split; [done|].
    intros ? [= <-]. split; [lia | by apply pick_eviction_target_spec].
  - split; [done|]. intros ? [= <-]. lia.
Qed.

(** Every outcome of an admission: the pool changes only when the checks are
    passed, and then also if the file cannot be written. *)
Lemma add_spec m tx raw fee priority peer now added now' m' r :
  add m tx raw fee priority peer now added now' = (m', r) ->
  let limited := limited_ip priority peer in
  match r with
  | Ok o => ao_txid o = txid tx /\
      admitted m m' tx raw fee priority limited now added (ao_evicted o) /\ persist (entries m') = Ok tt /\
      header_relay_last_seen m' = match limited with
        | Some ip => <[ip := now']> (header_relay_last_seen (after_gc m limited now))
        | None => header_relay_last_seen m end
  | _ => (exists evicted, admitted m m' tx raw fee priority limited now added evicted /\
           (persist (entries m') <> Ok tt) /\
           header_relay_last_seen m' = header_relay_last_seen (after_gc m limited now)) \/
         (r <> Panic /\ (m' = m \/ m' = after_gc m limited now))
  end.
Proof.
  intros H limited. unfold add_transaction_with_priority in H. fold limited in H.
  case_bool_decide as Hnew; [simplify_eq; by right; split; [|left]|].
  set (cb := if _ || _ then _ else _) in H.
  assert (cb <> Panic) as Hnp.
  { unfold cb. destruct (_ || _); [|done]. generalize (walk (entries m)).
    intros l. induction l as [|[k e] l IH]; [done|]. cbn. by repeat destruct (_ && _). }
  assert (cb = Ok tt -> forall id e, entries m !! id = Some e ->
    (has_btc_batch tx = true -> has_btc_batch (me_tx e) = false) /\
    (has_ltc_batch tx = true -> has_ltc_batch (me_tx e) = false)) as Hb.
  { unfold cb. intros Hcb id e He. destruct (has_btc_batch tx || has_ltc_batch tx) eqn:Ho.
    - by eapply check_batches_ok; [|by apply elem_of_walk].
    - apply orb_false_iff in Ho as [-> ->]. done. }
  destruct cb as [[]|e|]; [|simplify_eq; by right; split; [|left]|done]. specialize (Hb eq_refl).
  destruct (check_rate m limited now) as [m1 [[]|e|]] eqn:Hr;
    apply check_rate_spec in Hr as (-> & Hrp & Hrate); [|simplify_eq; by right; split; [|right]|done].
  assert (entries (after_gc m limited now) = entries m /\ max_entries (after_gc m limited now) = max_entries m /\
    min_fee_per_byte (after_gc m limited now) = min_fee_per_byte m /\
    min_total_fee (after_gc m limited now) = min_total_fee m) as (He & Hmax & Hfpb & Htot)
    by (destruct limited; done).
  destruct (bool_decide (priority = Standard) && SFltb _ _) eqn:Hf1; [simplify_eq; by right; split; [|right]|].
  destruct (bool_decide (priority = Standard) && (_ <? _)) eqn:Hf2; [simplify_eq; by right; split; [|right]|].
  destruct (make_room _ _ _ _) as [evicted|e|] eqn:Hroom; apply make_room_spec in Hroom as [Hrm Hroom];
    [|simplify_eq; by right; split; [|right]|done].
  specialize (Hroom _ eq_refl). rewrite He in *. rewrite Hmax, Hfpb, Htot in *.
  assert (forall m2, entries m2 = <[txid tx := {| me_tx := tx; me_raw := raw; me_fee := fee; me_size := len raw;
                    me_fee_per_byte := fee_rate fee (len raw); me_added := added; me_relays := [];
                    me_relay_addresses := []; me_priority := priority |}]>
      (match evicted with Some id => delete id (entries m) | None => entries m end) ->
    max_entries m2 = max_entries m -> min_fee_per_byte m2 = min_fee_per_byte m ->
    min_total_fee m2 = min_total_fee m ->
    admitted m m2 tx raw fee priority limited now added evicted) as Had.
  { intros m2 E1 E2 E3 E4. split; try done.
    - by apply eq_None_not_Some.
    - by apply Hrate.
    - intros ->. rewrite bool_decide_true in Hf1, Hf2 by done. cbn in Hf1, Hf2. split; [done|lia]. }
  cbn [set_entries entries] in H.
  destruct (persist _) as [[]|e|] eqn:Hp; simplify_eq.
  - split_and!; [done|by destruct limited; apply Had |by destruct limited |by destruct limited].
  - left. exists evicted. split_and!; [by apply Had | cbn; by rewrite Hp | done].
  - left. exists evicted. split_and!; [by apply Had | cbn; by rewrite Hp | done].
Qed.

(** ** The invariant of the pool *)
Record pool_ok (m : MempoolManager) : Prop := {
  po_size : Z.of_nat (size (entries m)) <= max_entries m;
  po_keys : forall id e, entries m !! id = Some e -> id = txid (me_tx e);
  po_rate : forall id e, entries m !! id = Some e ->
    me_size e = len (me_raw e) /\ me_fee_per_byte e = fee_rate (me_fee e) (me_size e);
  po_floor : forall id e, entries m !! id = Some e -> me_priority e = Standard ->
    SFltb (me_fee_per_byte e) (min_fee_per_byte m) = false /\ min_total_fee m <= me_fee e;
  po_btc : forall id e id' e', entries m !! id = Some e -> entries m !! id' = Some e' ->
    has_btc_batch (me_tx e) = true -> has_btc_batch (me_tx e') = true -> id = id';
  po_ltc : forall id e id' e', entries m !! id = Some e -> entries m !! id' = Some e' ->
    has_ltc_batch (me_tx e) = true -> has_ltc_batch (me_tx e') = true -> id = id'
}.

(** The invariant looks at the entries up to the relays, and at fewer of them
    it holds a fortiori. *)
Definition covers (m m' : MempoolManager) : Prop :=
  max_entries m' = max_entries m /\ min_fee_per_byte m' = min_fee_per_byte m /\
  min_total_fee m' = min_total_fee m /\ (size (entries m') <= size (entries m))%nat /\
  forall id e', entries m' !! id = Some e' -> exists e, entries m !! id = Some e /\
    me_tx e' = me_tx e /\ me_raw e' = me_raw e /\ me_fee e' = me_fee e /\ me_size e' = me_size e /\
    me_fee_per_byte e' = me_fee_per_byte e /\ me_priority e' = me_priority e.

Lemma pool_ok_covers m m' : pool_ok m -> covers m m' -> pool_ok m'.
Proof.
  intros [Hs Hk Hr Hf Hb Hl] (Emax & Erate & Etot & Hsz & Hcov). rewrite <- Emax in Hs.
  split; [lia|..].
  - intros id e' (e & He & -> & _)%Hcov. by apply Hk.
  - intros id e' (e & He & _ & -> & -> & -> & -> & _)%Hcov. by eapply Hr.
  - intros id e' (e & He & _ & _ & -> & _ & -> & ->)%Hcov. rewrite Erate, Etot. by eapply Hf.
  - intros i1 e1 i2 e2 (f1 & H1 & -> & _)%Hcov (f2 & H2 & -> & _)%Hcov. by eapply Hb.
  - intros i1 e1 i2 e2 (f1 & H1 & -> & _)%Hcov (f2 & H2 & -> & _)%Hcov. by eapply Hl.
Qed.

Lemma covers_gc m limited now : covers m (after_gc m limited now).
Proof. destruct limited; (split_and!; [done..|]; intros id e He; exists e; by split_and!). Qed.

Lemma covers_delete m id : covers m (set_entries m (delete id (entries m))).
Proof.
  split_and!; [done..| |]; cbn.
  - destruct (entries m !! id) as [e|] eqn:He; [|by rewrite delete_id].
    rewrite (map_size_delete_Some id (entries m)) by done. lia.
  - intros id' e [_ He]%lookup_delete_Some. exists e. by split_and!.
Qed.

Lemma covers_update m id e e' :
  entries m !! id = Some e -> me_tx e' = me_tx e -> me_raw e' = me_raw e -> me_fee e' = me_fee e ->
  me_size e' = me_size e -> me_fee_per_byte e' = me_fee_per_byte e -> me_priority e' = me_priority e ->
  covers m (set_entries m (<[id := e']> (entries m))).
Proof.
  intros He ? ? ? ? ? ?. split_and!; [done..| |]; cbn.
  - by rewrite map_size_insert_Some.
  - intros id' f [[-> ->]|[_ Hf]]%lookup_insert_Some; [exists e | exists f]; by split_and!.
Qed.

Lemma covers_refl m : covers m m.
Proof. split_and!; [done..|]. intros id e He. exists e. by split_and!. Qed.

Lemma covers_record_relay m id peer : covers m (record_relay m id peer).
Proof.
  unfold record_relay. destruct (entries m !! id) as [e|] eqn:He; [|apply covers_refl].
  case_bool_decide; [apply covers_refl|]. by eapply covers_update.
Qed.

Lemma covers_record_relay_address m id address : covers m (record_relay_address m id address).
Proof.
  unfold record_relay_address. destruct (entries m !! id) as [e|] eqn:He; [|apply covers_refl].
  case_bool_decide; [apply covers_refl|]. by eapply covers_update.
Qed.

Lemma pool_ok_add m m' tx raw fee priority limited now added evicted :
  pool_ok m -> admitted m m' tx raw fee priority limited now added evicted -> pool_ok m'.
Proof.
  intros Hok [Hnew Hb _ Hf Hroom Hes (Emax & Erate & Etot)].
  set (base := set_entries m (match evicted with Some id => delete id (entries m) | None => entries m end)).
  assert (covers m base) as Hcov by (unfold base; destruct evicted; [apply covers_delete|];
    destruct m; apply covers_refl).
  assert (entries base !! txid tx = None) as Hn.
  { unfold base. cbn. destruct evicted; [|done]. apply lookup_delete_None. by right. }
  assert (Z.of_nat (size (entries base)) < max_entries m) as Hsz.
  { unfold base. cbn. pose proof (po_size _ Hok). destruct evicted as [id|]; [|done].
    destruct Hroom as [_ (e & He & _)]. rewrite (map_size_delete_Some id (entries m)) by done.
    assert (size (entries m) <> 0%nat); [|lia]. intros E. apply map_size_empty_inv in E.
    by rewrite E, lookup_empty in He. }
  assert (forall id e, entries base !! id = Some e -> exists e', entries m !! id = Some e' /\ me_tx e = me_tx e')
    as Hsub by (intros id e He; destruct Hcov as (_ & _ & _ & _ & Hc); apply Hc in He as (e' & ? & ? & _); eauto).
  assert (pool_ok base) as [_ Hk Hr Hfl Hbtc Hltc] by by eapply pool_ok_covers.
  change (entries m' = <[txid tx := {| me_tx := tx; me_raw := raw; me_fee := fee; me_size := len raw;
                    me_fee_per_byte := fee_rate fee (len raw); me_added := added; me_relays := [];
                    me_relay_addresses := []; me_priority := priority |}]> (entries base)) in Hes.
  split; rewrite ?Hes, ?Emax, ?Erate, ?Etot.
  - rewrite map_size_insert_None by done. lia.
  - intros id e [[<- <-]|[_ He]]%lookup_insert_Some; [done | by apply Hk].
  - intros id e [[<- <-]|[_ He]]%lookup_insert_Some; [done | by eapply Hr].
  - intros id e [[<- <-]|[_ He]]%lookup_insert_Some; [done | by eapply Hfl].
  - intros i1 e1 i2 e2 [[<- <-]|[_ H1]]%lookup_insert_Some [[<- <-]|[_ H2]]%lookup_insert_Some Hx Hy;
      [done|..|by eapply Hbtc].
    + apply Hsub in H2 as (f & H2 & E). rewrite E in Hy. by rewrite (proj1 (Hb _ _ H2) Hx) in Hy.
    + apply Hsub in H1 as (f & H1 & E). rewrite E in Hx. by rewrite (proj1 (Hb _ _ H1) Hy) in Hx.
  - intros i1 e1 i2 e2 [[<- <-]|[_ H1]]%lookup_insert_Some [[<- <-]|[_ H2]]%lookup_insert_Some Hx Hy;
      [done|..|by eapply Hltc].
    + apply Hsub in H2 as (f & H2 & E). rewrite E in Hy. by rewrite (proj2 (Hb _ _ H2) Hx) in Hy.
    + apply Hsub in H1 as (f & H1 & E). rewrite E in Hx. by rewrite (proj2 (Hb _ _ H1) Hy) in Hx.
Qed.

Lemma pool_ok_new max min_rate min_total : 0 <= max -> pool_ok (MempoolManager_new max min_rate min_total).
Proof. intros H. split; cbn; [done|..]; by intros ? ?. Qed.

(** ** Eviction behind a block *)
Context (env : Env) (p : ChainParams).

Definition bad (l : Ledger) (h : Z) (tx : Transaction) : bool :=
  match validate_transaction env p l h tx with Err _ => true | _ => false end.

Lemma evict_loop_spec l h txs : forall m n m' n',
  evict_loop env p l h txs m n = (m', Ok n') ->
  header_relay_last_seen m' = header_relay_last_seen m /\ covers m m' /\
  n' = n + Z.of_nat (size (entries m)) - Z.of_nat (size (entries m')) /\
  Forall (fun tx => validate_transaction env p l h tx <> Panic) txs /\
  forall id, entries m' !! id =
    if bool_decide (id ∈ txid <$> List.filter (bad l h) txs) then None else entries m !! id.
Proof.
  induction txs as [|tx txs IH]; intros m n m' n' H; cbn in H.
  { simplify_eq. split_and!; [done | apply covers_refl | lia | done |]. done. }
  unfold bad. cbn [List.filter]. destruct (validate_transaction env p l h tx) as [[]|e|] eqn:Hv; [..|done].
  - apply IH in H as (? & ? & ? & ? & Hi). split_and!; try done. by constructor; [rewrite Hv|].
  - cbn in H. apply IH in H as (Hs & Hc & Hn & Hp & Hi).
    pose proof (covers_delete m (txid tx)) as Hd. split_and!; [done| | |by constructor; [rewrite Hv|]|].
    + destruct Hd as (? & ? & ? & ? & Hd), Hc as (? & ? & ? & ? & Hc).
      split_and!; [congruence..|lia|]. intros id e' (e1 & He1 & E1)%Hc.
      apply Hd in He1 as (e2 & He2 & E2). exists e2. split; [done|]. destruct E1 as (-> & -> & -> & -> & -> & ->).
      done.
    + rewrite Hn. cbn. case_bool_decide as Hin.
      * destruct Hin as [e0 He0]. rewrite (map_size_delete_Some (txid tx) (entries m)) by done.
        assert (size (entries m) <> 0%nat); [|lia]. intros E. apply map_size_empty_inv in E.
        by rewrite E, lookup_empty in He0.
      * apply eq_None_not_Some in Hin. rewrite delete_id by done. lia.
    + intros id. rewrite Hi. cbn [entries set_entries].
      destruct (decide (id = txid tx)) as [->|Hne].
      * rewrite lookup_delete_eq. transitivity (@None MempoolEntry);
          [by destruct (bool_decide (txid tx ∈ txid <$> List.filter (bad l h) txs))|].
        symmetry. rewrite bool_decide_true; [done | by left].
      * rewrite lookup_delete_ne by congruence. erewrite bool_decide_ext; [reflexivity|].
        cbn. rewrite elem_of_cons. split; [by right | by intros [?|?]].
Qed.

(** ** The pool over time

    [pool_run clock log m]: the pool [m] is reached, the clock shows [clock],
    and [log] has the rate-limited admissions, the latest first, each with the
    times of its check and of its record.  The clock does not go back. *)
Inductive pool_run : Z -> list (IpAddr * Z * Z) -> MempoolManager -> Prop :=
| run_start clock max min_rate min_total :
    0 <= max -> pool_run clock [] (MempoolManager_new max min_rate min_total)
| run_add clock log m tx raw fee priority peer now added now' m' r :
    pool_run clock log m -> clock <= now -> now <= now' ->
    add m tx raw fee priority peer now added now' = (m', r) ->
    pool_run now' (match r, limited_ip priority peer with Ok _, Some ip => (ip, now, now') :: log | _, _ => log end) m'
| run_relay clock log m id peer : pool_run clock log m -> pool_run clock log (record_relay m id peer)
| run_address clock log m id address :
    pool_run clock log m -> pool_run clock log (record_relay_address m id address)
| run_remove clock log m id : pool_run clock log m -> pool_run clock log (remove m id).1
| run_evict clock log m l h m' n :
    pool_run clock log m -> evict_invalid_mempool_entries walk env p l h m = (m', Ok n) ->
    pool_run clock log m'.

Lemma pool_run_ok clock log m : pool_run clock log m -> pool_ok m.
Proof.
  induction 1 as [| clock log m tx raw fee priority peer now added now' m' r _ IH _ _ Ha | | |
                  | clock log m l h m' n _ IH He].
  - by apply pool_ok_new.
  - apply add_spec in Ha. destruct r as [o|e|].
    + destruct Ha as (_ & Ha & _). by eapply pool_ok_add.
    + destruct Ha as [(ev & Ha & _)|[_ [->| ->]]];
        [by eapply pool_ok_add | done | eapply pool_ok_covers; [done | apply covers_gc]].
    + destruct Ha as [(ev & Ha & _)|[? _]]; [by eapply pool_ok_add | done].
  - eapply pool_ok_covers; [done | apply covers_record_relay].
  - eapply pool_ok_covers; [done | apply covers_record_relay_address].
  - eapply pool_ok_covers; [done | apply covers_delete].
  - apply evict_loop_spec in He as (_ & Hc & _). by eapply pool_ok_covers.
Qed.

(** *** The rate limit *)
Abbreviation interval := (HEADER_RELAY_PER_IP_INTERVAL_SECS * NANOS).

Lemma record_relay_seen m id peer : header_relay_last_seen (record_relay m id peer) = header_relay_last_seen m.
Proof. unfold record_relay. destruct (_ !! id); [by case_bool_decide | done]. Qed.
Lemma record_relay_address_seen m id address :
  header_relay_last_seen (record_relay_address m id address) = header_relay_last_seen m.
Proof. unfold record_relay_address. destruct (_ !! id); [by case_bool_decide | done]. Qed.

(** Every admission in the log is on the table or the interval is over. *)
Definition logged (clock : Z) (log : list (IpAddr * Z * Z)) (seen : gmap IpAddr Z) : Prop :=
  forall ip t t', (ip, t, t') ∈ log ->
    (exists u, seen !! ip = Some u /\ t' <= u <= clock) \/ t' + interval <= clock.

Lemma logged_gc clock now log m limited :
  clock <= now -> logged clock log (header_relay_last_seen m) ->
  logged now log (header_relay_last_seen (after_gc m limited now)).
Proof.
  intros Hc Hl ip t t' Hin. destruct (Hl _ _ _ Hin) as [(u & Hu & Hle)|]; [|right; lia].
  destruct limited as [i|]; cbn; [|left; exists u; split; [done|lia]].
  destruct (rate_live now u) eqn:Hr.
  - left. exists u. split; [|lia]. by apply map_lookup_filter_Some.
  - right. unfold rate_live, duration_since in Hr. assert ((u <=? now) = true) as E by lia. rewrite E in Hr. lia.
Qed.

Lemma logged_later clock clock' log seen : clock <= clock' -> logged clock log seen -> logged clock' log seen.
Proof. intros Hc Hl ip t t' Hin. destruct (Hl _ _ _ Hin) as [(u & Hu & Hle)|]; [left; exists u; split; [done|lia] | right; lia]. Qed.

Lemma logged_insert now now' log seen ip t :
  now <= now' -> logged now log seen -> logged now' ((ip, t, now') :: log) (<[ip := now']> seen).
Proof.
  intros Hc Hl i u u' [[= -> -> ->]|Hin]%elem_of_cons.
  - left. exists now'. split; [apply lookup_insert_eq | lia].
  - destruct (Hl _ _ _ Hin) as [(w & Hw & Hle)|]; [|right; lia]. left.
    destruct (decide (i = ip)) as [->|Hne]; [exists now'; rewrite lookup_insert_eq | exists w; rewrite lookup_insert_ne by congruence];
      (split; [done|lia]).
Qed.

(** Admissions of one address, the later at least the interval behind. *)
Fixpoint spaced (log : list (IpAddr * Z * Z)) : Prop :=
  match log with
  | [] => True
  | (ip, t, _) :: log => (forall u u', (ip, u, u') ∈ log -> u' + interval <= t) /\ spaced log
  end.

Lemma pool_run_spaced clock log m :
  pool_run clock log m -> spaced log /\ logged clock log (header_relay_last_seen m).
Proof.
  induction 1 as [clock ? ? ? _ | clock log m tx raw fee priority peer now added now' m' r _ [IHs IHl] Hc Hc' Ha | | |
                  | clock log m l h m' n _ [IHs IHl] He].
  - split; [done|]. by intros ? ? ? ?%not_elem_of_nil.
  - pose proof (logged_gc clock now log m (limited_ip priority peer) Hc IHl) as Hg.
    apply add_spec in Ha. destruct r as [o|e|].
    + destruct Ha as (_ & Ha & _ & Hs). rewrite Hs. destruct Ha as [_ _ Ha _ _ _ _].
      destruct (limited_ip priority peer) as [ip|]; [|split; [done|]; by eapply logged_later; [|exact IHl]; lia].
      split; [|by eapply logged_insert]. split; [|done]. intros u u' Hin.
      destruct (Hg _ _ _ Hin) as [(w & Hw & _)|]; [|done]. by rewrite (Ha ip eq_refl) in Hw.
    + split; [done|]. destruct Ha as [(ev & _ & _ & ->)|[_ [->| ->]]];
        (eapply logged_later; [|done || exact IHl]); lia.
    + split; [done|]. destruct Ha as [(ev & _ & _ & ->)|[? _]]; [|done]. by eapply logged_later; [|exact Hg].
  - by rewrite record_relay_seen.
  - by rewrite record_relay_address_seen.
  - done.
  - apply evict_loop_spec in He as (-> & _). done.
Qed.
End admission.

(** ** Sorting *)
Lemma insert_by_fee_perm x l : insert_by_fee x l ≡ₚ x :: l.
Proof.
  induction l as [|y l IH]; [done|]. cbn. destruct (cmp_fee x y); [done..|].
  rewrite IH. constructor.
Qed.

Lemma sort_by_fee_perm l : sort_by_fee l ≡ₚ l.
Proof. induction l as [|x l IH]; [done|]. cbn. rewrite insert_by_fee_perm. by constructor. Qed.

Lemma ordered_transactions_elem walk m tx :
  (forall es, walk es ≡ₚ map_to_list es) ->
  tx ∈ ordered_transactions walk m <-> exists id e, entries m !! id = Some e /\ me_tx e = tx.
Proof.
  intros Hwalk. unfold ordered_transactions, ordered_entries. rewrite sort_by_fee_perm, Hwalk.
  rewrite list_elem_of_fmap. split.
  - intros (e & -> & He). apply list_elem_of_fmap in He as ([id e'] & -> & He).
    exists id, e'. split; [by apply elem_of_map_to_list | done].
  - intros (id & e & He & <-). exists e. split; [done|]. apply list_elem_of_fmap. exists (id, e).
    split; [done | by apply elem_of_map_to_list].
Qed.

(** ** Samples: a pool for one transaction *)
Definition ok_persist (es : gmap bytes MempoolEntry) : res string unit := Ok tt.
Definition one_pool : MempoolManager := MempoolManager_new 1 (f64_of 1) 10.
Abbreviation sample_add m tx fee priority now :=
  (add_transaction_with_priority map_to_list ok_persist m tx (serialize tx) fee priority
    (Some (V4 [10; 0; 0; 1])) now 7 (now + 1)).

Definition pool_of (r : MempoolManager * res string AddOutcome) : MempoolManager := r.1.
Definition outcome_of (r : MempoolManager * res string AddOutcome) : AddOutcome :=
  match r.2 with Ok o => o | _ => {| ao_txid := []; ao_evicted := None |} end.

Lemma outcome_ok r : is_ok r.2 = true -> r = (pool_of r, Ok (outcome_of r)).
Proof. by destruct r as [m [o| |]]. Qed.

(** A free transaction, then one that pays and takes its place, and another
    free one eleven minutes later. *)
Definition free_tx : Transaction := sample_coinbase 9.
Definition free_pool : MempoolManager := pool_of (sample_add one_pool free_tx 0 ZeroFeeAllowed 5).
Definition free_outcome : AddOutcome := outcome_of (sample_add one_pool free_tx 0 ZeroFeeAllowed 5).
Definition paid_pool : MempoolManager := pool_of (sample_add free_pool sample_payment 100000 Standard 9).
Definition paid_outcome : AddOutcome := outcome_of (sample_add free_pool sample_payment 100000 Standard 9).
Definition gone_pool : MempoolManager := (remove free_pool (txid free_tx)).1.
Definition later_pool : MempoolManager :=
  pool_of (sample_add gone_pool (sample_coinbase 8) 0 ZeroFeeAllowed (660 * NANOS)).
Definition later_outcome : AddOutcome :=
  outcome_of (sample_add gone_pool (sample_coinbase 8) 0 ZeroFeeAllowed (660 * NANOS)).

Lemma pool_flags :
  is_ok (sample_add one_pool free_tx 0 ZeroFeeAllowed 5).2 = true /\
  is_ok (sample_add free_pool sample_payment 100000 Standard 9).2 = true /\
  is_ok (sample_add gone_pool (sample_coinbase 8) 0 ZeroFeeAllowed (660 * NANOS)).2 = true.
Proof. vm_compute. split_and!; reflexivity. Qed.

Lemma free_pool_ok : sample_add one_pool free_tx 0 ZeroFeeAllowed 5 = (free_pool, Ok free_outcome).
Proof. unfold free_pool, free_outcome. exact (outcome_ok _ (proj1 pool_flags)). Qed.

Lemma paid_pool_ok : sample_add free_pool sample_payment 100000 Standard 9 = (paid_pool, Ok paid_outcome).
Proof. unfold paid_pool, paid_outcome. exact (outcome_ok _ (proj1 (proj2 pool_flags))). Qed.

Lemma later_pool_ok :
  sample_add gone_pool (sample_coinbase 8) 0 ZeroFeeAllowed (660 * NANOS) = (later_pool, Ok later_outcome).
Proof. unfold later_pool, later_outcome. exact (outcome_ok _ (proj2 (proj2 pool_flags))). Qed.

Opaque free_pool paid_pool gone_pool later_pool free_outcome paid_outcome later_outcome.

Definition sample_walk (es : gmap bytes MempoolEntry) : map_to_list es ≡ₚ map_to_list es := reflexivity _.

Lemma free_pool_run :
  pool_run map_to_list ok_persist no_env sample_params 6 [(V4 [10; 0; 0; 1], 5, 6)] free_pool.
Proof.
  refine (run_add map_to_list ok_persist no_env sample_params 5 [] one_pool free_tx (serialize free_tx) 0 ZeroFeeAllowed
    (Some (V4 [10; 0; 0; 1])) 5 7 6 free_pool (Ok free_outcome) _ _ _ free_pool_ok); [|lia|lia].
  by apply run_start.
Qed.

(** ** The theorems *)

(** C24: The pool keeps its promises over any history of admissions, relays,
    removals and evictions: it holds at most [max_entries], files every
    transaction under its id, charges every transaction that is not exempt the
    minimum rate and the minimum fee, and holds at most one carrier of Bitcoin
    and one of Litecoin headers. *)
Theorem mempool_invariant `{C : Crypto} walk persist env p clock log m :
  (forall es, walk es ≡ₚ map_to_list es) -> pool_run walk persist env p clock log m -> pool_ok m.
Proof. intros Hw. by apply pool_run_ok. Qed.

Lemma mempool_invariant_witness : pool_ok free_pool.
Proof. exact (mempool_invariant map_to_list ok_persist no_env sample_params _ _ _ sample_walk free_pool_run). Defined.

(** Admission to a full pool is fair: the entry that gives way ranks lowest
    of all and below the newcomer, so that a paying transaction is never
    displaced by an exempt one, nor by one that pays less per byte; a pool that
    is not full loses nothing; and beyond that only the newcomer is added. *)
Theorem eviction_respects_rank `{C : Crypto} walk persist m tx raw fee priority peer now added now' m' o :
  (forall es, walk es ≡ₚ map_to_list es) ->
  add_transaction_with_priority walk persist m tx raw fee priority peer now added now' = (m', Ok o) ->
  let fpb := fee_rate fee (len raw) in
  match ao_evicted o with
  | None => Z.of_nat (size (entries m)) < max_entries m /\ delete (txid tx) (entries m') = entries m
  | Some id =>
      max_entries m <= Z.of_nat (size (entries m)) /\ exists low,
        entries m !! id = Some low /\ delete (txid tx) (entries m') = delete id (entries m) /\
        (forall id' e, entries m !! id' = Some e -> cmp_entries low e <> Gt) /\
        (me_priority low = Standard -> priority = Standard /\ SFltb (me_fee_per_byte low) fpb = true) /\
        (priority = ZeroFeeAllowed -> me_priority low = ZeroFeeAllowed /\ SFltb (me_fee_per_byte low) fpb = true)
  end /\ exists e, entries m' !! txid tx = Some e /\ me_tx e = tx /\ me_priority e = priority /\ me_fee_per_byte e = fpb.
Proof.
  intros Hw H fpb. apply add_spec in H as (_ & [Hnew _ _ _ Hroom Hes _] & _); [|done]. split.
  - destruct (ao_evicted o) as [id|]; rewrite Hes.
    + destruct Hroom as [Hle (low & Hl & Ho & Hmin)]. split; [done|]. exists low.
      split_and!; [done | | done |..].
      * rewrite delete_insert_id; [done|]. apply lookup_delete_None. by right.
      * intros Hs. destruct Ho as [Ho|[Ho ?]]; rewrite Hs in Ho; destruct priority; cbn in Ho; done || lia.
      * intros ->. destruct Ho as [Ho|[Ho ?]]; destruct (me_priority low); cbn in Ho; done || lia.
    + split; [done|]. by apply delete_insert_id.
  - rewrite Hes. eexists. by rewrite lookup_insert_eq.
Qed.

Lemma eviction_respects_rank_witness :
  let fpb := fee_rate 100000 (len (serialize sample_payment)) in
  match ao_evicted paid_outcome with
  | None => Z.of_nat (size (entries free_pool)) < max_entries free_pool /\
      delete (txid sample_payment) (entries paid_pool) = entries free_pool
  | Some id =>
      max_entries free_pool <= Z.of_nat (size (entries free_pool)) /\ exists low,
        entries free_pool !! id = Some low /\
        delete (txid sample_payment) (entries paid_pool) = delete id (entries free_pool) /\
        (forall id' e, entries free_pool !! id' = Some e -> cmp_entries low e <> Gt) /\
        (me_priority low = Standard -> Standard = Standard /\ SFltb (me_fee_per_byte low) fpb = true) /\
        (Standard = ZeroFeeAllowed -> me_priority low = ZeroFeeAllowed /\ SFltb (me_fee_per_byte low) fpb = true)
  end /\ exists e, entries paid_pool !! txid sample_payment = Some e /\ me_tx e = sample_payment /\
    me_priority e = Standard /\ me_fee_per_byte e = fpb.
Proof.
  exact (eviction_respects_rank map_to_list ok_persist free_pool sample_payment (serialize sample_payment)
    100000 Standard (Some (V4 [10; 0; 0; 1])) 9 7 10 paid_pool paid_outcome sample_walk paid_pool_ok).
Defined.

(** Exempt transactions are rate limited: over any history in which the
    clock does not go back, of two such transactions admitted from one address
    that is not the local host, the later was checked at least
    [HEADER_RELAY_PER_IP_INTERVAL_SECS] seconds after the earlier was recorded. *)
Theorem zero_fee_rate_limit `{C : Crypto} walk persist env p clock log m i j ip t t' u u' :
  (forall es, walk es ≡ₚ map_to_list es) -> pool_run walk persist env p clock log m ->
  log !! i = Some (ip, t, t') -> log !! j = Some (ip, u, u') -> (i < j)%nat ->
  u' + HEADER_RELAY_PER_IP_INTERVAL_SECS * NANOS <= t.
Proof.
  intros Hw Hr Hi Hj Hlt. destruct (pool_run_spaced _ _ Hw _ _ _ _ _ Hr) as [Hs _]. clear Hr.
  revert i j Hi Hj Hlt. induction log as [|[[ip' w] w'] log IH]; intros i j Hi Hj Hlt; [done|].
  destruct Hs as [Hh Hs], j as [|j]; [lia|]. destruct i as [|i].
  - cbn in Hi. simplify_eq. apply (Hh u u'). by eapply list_elem_of_lookup_2.
  - eapply (IH Hs i j); [done | done | lia].
Qed.

Lemma later_pool_run :
  pool_run map_to_list ok_persist no_env sample_params (660 * NANOS + 1)
    [(V4 [10; 0; 0; 1], 660 * NANOS, 660 * NANOS + 1); (V4 [10; 0; 0; 1], 5, 6)] later_pool.
Proof.
  refine (run_add map_to_list ok_persist no_env sample_params 6 [(V4 [10; 0; 0; 1], 5, 6)] gone_pool (sample_coinbase 8) (serialize (sample_coinbase 8)) 0 ZeroFeeAllowed
    (Some (V4 [10; 0; 0; 1])) (660 * NANOS) 7 (660 * NANOS + 1) later_pool (Ok later_outcome) _ _ _ later_pool_ok);
    [|unfold NANOS; lia | unfold NANOS; lia].
  exact (run_remove map_to_list ok_persist no_env sample_params 6 _ free_pool (txid free_tx) free_pool_run).
Qed.

Lemma zero_fee_rate_limit_witness : 6 + HEADER_RELAY_PER_IP_INTERVAL_SECS * NANOS <= 660 * NANOS.
Proof.
  apply (zero_fee_rate_limit map_to_list ok_persist no_env sample_params _ _ _ 0 1 (V4 [10; 0; 0; 1])
    (660 * NANOS) (660 * NANOS + 1) 5 6 sample_walk later_pool_run); [reflexivity | reflexivity | lia].
Defined.

(** Behind a new block, [evict_invalid_mempool_entries] leaves exactly the
    transactions that are valid in the new ledger, and counts the others. *)
Theorem mempool_evicts_invalid `{C : Crypto} walk env p l h m m' n :
  (forall es, walk es ≡ₚ map_to_list es) -> (forall id e, entries m !! id = Some e -> id = txid (me_tx e)) ->
  evict_invalid_mempool_entries walk env p l h m = (m', Ok n) ->
  entries m' = filter (fun kv => is_ok (validate_transaction env p l h (me_tx kv.2)) = true) (entries m) /\
  n = Z.of_nat (size (entries m)) - Z.of_nat (size (entries m')).
Proof.
  intros Hw Hk H. apply evict_loop_spec in H as (_ & _ & Hn & Hp & Hi). split; [|lia].
  apply map_eq. intros id. rewrite Hi, map_lookup_filter.
  destruct (entries m !! id) as [e|] eqn:He; cbn; [|by destruct (bool_decide _)].
  assert (validate_transaction env p l h (me_tx e) <> Panic) as Hnp.
  { rewrite Forall_forall in Hp. apply Hp, ordered_transactions_elem; eauto. }
  assert (id ∈ txid <$> List.filter (bad env p l h) (ordered_transactions walk m) <->
    bad env p l h (me_tx e) = true) as Hb.
  { rewrite list_elem_of_fmap. split.
    - intros (tx & -> & Htx). apply list_elem_of_In, filter_In in Htx as [Htx Hb].
      apply list_elem_of_In, ordered_transactions_elem in Htx as (id' & e' & He' & <-); [|done].
      rewrite (Hk _ _ He') in He'. by simplify_eq.
    - intros Hb. exists (me_tx e). split; [by apply Hk|]. apply list_elem_of_In, filter_In.
      split; [apply list_elem_of_In, ordered_transactions_elem; eauto | done]. }
  rewrite (bool_decide_ext _ _ Hb). unfold bad.
  by destruct (validate_transaction _ _ _ _ _) as [[]| |].
Qed.

Abbreviation evict_free := (evict_invalid_mempool_entries map_to_list no_env sample_params sample_ledger 10 free_pool).

Definition swept_pool : MempoolManager := evict_free.1.

Definition one_swept (r : MempoolManager * res string Z) : bool :=
  match r.2 with Ok n => n =? 1 | _ => false end.

Lemma evict_free_flag : one_swept evict_free = true.
Proof. vm_compute. reflexivity. Qed.

Lemma swept_ok r : one_swept r = true -> r = (r.1, Ok 1).
Proof. destruct r as [m [n| |]]; cbn; [|done..]. by intros ->%Z.eqb_eq. Qed.

Lemma evict_free_ok : evict_free = (swept_pool, Ok 1).
Proof. unfold swept_pool. exact (swept_ok evict_free evict_free_flag). Qed.

Opaque swept_pool.

Lemma mempool_evicts_invalid_witness :
  entries swept_pool =
    filter (fun kv => is_ok (validate_transaction no_env sample_params sample_ledger 10 (me_tx kv.2)) = true)
      (entries free_pool) /\
  1 = Z.of_nat (size (entries free_pool)) - Z.of_nat (size (entries swept_pool)).
Proof.
  exact (mempool_evicts_invalid map_to_list no_env sample_params sample_ledger 10 free_pool swept_pool 1 sample_walk
    (po_keys _ (pool_run_ok map_to_list ok_persist sample_walk no_env sample_params _ _ _ free_pool_run)) evict_free_ok).
Defined.

(** ** The file *)
Section file.
Context `{C : Crypto} (walk : gmap bytes MempoolEntry -> list (bytes * MempoolEntry)).
Context (hex_encode : bytes -> string) (hex_decode : string -> option bytes).
Context (Hwalk : forall es, walk es ≡ₚ map_to_list es) (Hhex : forall b, wf_bytes b -> hex_decode (hex_encode b) = Some b).

(** An entry whose bytes are its transaction's. *)
Definition coded (k : bytes) (e : MempoolEntry) : Prop :=
  wf_bytes (me_raw e) /\ decode_full_tx (me_raw e) = Ok (me_tx e) /\ k = txid (me_tx e).

Lemma from_to_disk now k e : coded k e -> from_disk hex_decode now (to_disk hex_encode k e) = Ok (Some (k, e)).
Proof.
  intros (Hw & Hd & ->). unfold from_disk. cbn. rewrite Hhex, Hd by done. destruct e as [? ? ? ? ? ? ? ? []]; done.
Qed.

Lemma load_disk_entries now l : forall es, Forall (fun kv => coded kv.1 kv.2) l ->
  load_from_disk hex_decode now ((fun kv => to_disk hex_encode kv.1 kv.2) <$> l) es
  = Ok (foldl (fun m kv => <[kv.1 := kv.2]> m) es l).
Proof.
  induction l as [|[k e] l IH]; intros es Hl; [done|]. apply Forall_cons in Hl as [Hc Hl].
  cbn. rewrite from_to_disk by done. cbn. by apply IH.
Qed.
End file.

(** The file is a faithful copy: reading back the entries that [persist]
    writes, in whatever order, gives the pool that was written, if the bytes of
    every entry decode to its transaction. *)
Theorem mempool_disk_roundtrip `{C : Crypto} walk hex_encode hex_decode now es :
  (forall es, walk es ≡ₚ map_to_list es) -> (forall b, wf_bytes b -> hex_decode (hex_encode b) = Some b) ->
  map_Forall coded es ->
  load_from_disk hex_decode now (disk_entries walk hex_encode es) ∅ = Ok es.
Proof.
  intros Hw Hh Hc. unfold disk_entries. rewrite load_disk_entries; [|done|].
  - by rewrite (foldl_insert_perm es).
  - apply Forall_forall. intros [k e] Hin. rewrite Hw, elem_of_map_to_list in Hin. by apply (Hc k e).
Qed.

(** Bytes as characters, for the sample. *)
Fixpoint toy_hex (b : bytes) : string :=
  match b with [] => EmptyString | x :: b => String (Ascii.ascii_of_N (Z.to_N x)) (toy_hex b) end.
Fixpoint toy_unhex (s : string) : option bytes :=
  match s with
  | EmptyString => Some []
  | String c s => cons (Z.of_N (Ascii.N_of_ascii c)) <$> toy_unhex s
  end.

Lemma toy_unhex_hex b : wf_bytes b -> toy_unhex (toy_hex b) = Some b.
Proof.
  induction 1 as [|x b Hx _ IH]; [done|]. cbn. rewrite IH. cbn. unfold u8 in Hx.
  rewrite Ascii.N_ascii_embedding by lia. by rewrite Z2N.id by lia.
Qed.

Definition free_entry : MempoolEntry :=
  {| me_tx := free_tx; me_raw := serialize free_tx; me_fee := 0; me_size := len (serialize free_tx);
     me_fee_per_byte := f64_zero; me_added := 7; me_relays := ["peer"%string]; me_relay_addresses := [];
     me_priority := ZeroFeeAllowed |}.

Lemma mempool_disk_roundtrip_witness :
  load_from_disk toy_unhex 99 (disk_entries map_to_list toy_hex {[txid free_tx := free_entry]}) ∅
  = Ok {[txid free_tx := free_entry]}.
Proof.
  apply (mempool_disk_roundtrip map_to_list toy_hex toy_unhex 99 _ sample_walk toy_unhex_hex).
  apply map_Forall_singleton. split_and!; [apply wf_bytes_check; vm_compute; reflexivity | vm_compute; reflexivity | reflexivity].
Defined.

(** A transaction that the pool cannot write to its file is refused and yet
    admitted: the error of [persist] is returned, while the transaction is in
    the pool as if it had been accepted, and the rate limit takes no notice. *)
Theorem failed_write_admits `{C : Crypto} walk m tx raw fee priority peer now added now' m1 o e :
  add_transaction_with_priority walk (fun _ => Ok tt) m tx raw fee priority peer now added now' = (m1, Ok o) ->
  exists m2,
    add_transaction_with_priority walk (fun _ => Err e) m tx raw fee priority peer now added now' = (m2, Err e) /\
    entries m2 = entries m1 /\ contains m2 (txid tx) = true /\
    header_relay_last_seen m2 ⊆ header_relay_last_seen m.
Proof.
  intros H. unfold add_transaction_with_priority in H |- *.
  case_bool_decide; [done|]. destruct (if _ || _ then _ else _); [|done..].
  destruct (check_rate m _ now) as [m0 [u| |]] eqn:Hr; [|done..].
  destruct (_ && SFltb _ _); [done|]. destruct (_ && (_ <? _)); [done|].
  destruct (make_room _ _ _ _) as [ev| |]; [|done..]. apply pair_eq in H as [<- _].
  eexists. split; [reflexivity|]. split_and!.
  - by destruct (limited_ip priority peer).
  - unfold contains. cbn. rewrite lookup_insert_eq. by apply bool_decide_true.
  - apply check_rate_spec in Hr as (-> & _ & _). cbn.
    destruct (limited_ip priority peer); [apply map_filter_subseteq | done].
Qed.

Lemma failed_write_admits_witness : exists m2,
  add_transaction_with_priority map_to_list (fun _ => Err "disk full"%string) one_pool free_tx (serialize free_tx) 0
    ZeroFeeAllowed (Some (V4 [10; 0; 0; 1])) 5 7 6 = (m2, Err "disk full"%string) /\
  entries m2 = entries free_pool /\ contains m2 (txid free_tx) = true /\
  header_relay_last_seen m2 ⊆ header_relay_last_seen one_pool.
Proof.
  exact (failed_write_admits map_to_list one_pool free_tx (serialize free_tx) 0 ZeroFeeAllowed
    (Some (V4 [10; 0; 0; 1])) 5 7 6 free_pool free_outcome _ free_pool_ok).
Defined.
