(* ===== verification/Dominance.v ===== *)
(** * Dominance: recent rewards and the weight they cost
    ([src/src/poawx_dominance.rs])

    Under PoAW-X a miner that has lately taken a large share of the rewards is
    weighted down.  [PersistentDominance] counts rewards per miner and window of
    blocks; the chain applies the rewards of a block when it is connected and
    reverts them when it is disconnected.

    Shown here: the weight lies between half the score and the score and falls
    with the share; the shares of all miners add up to at most a thousand;
    reverting a block's rewards restores everything the weights are computed
    from; and the wire form is faithful. *)

From stdpp Require Import sorting.
From S2P Require Import Prelude Crypto TxCodec Activation Ledger.

(** ** Gates *)
Section gates.
Context (env : Env).

Definition anti_domination_activation_height : option Z :=
  env_u64 env "IRIUM_POAWX_ANTI_DOMINATION_ACTIVATION_HEIGHT".

Definition anti_domination_gate (network_id : Z) (activation : option Z) (height : Z) : bool :=
  active_at (poawx_effective_activation network_id activation) height.

Definition anti_domination_active (height : Z) : bool :=
  anti_domination_gate (network_id_byte env) anti_domination_activation_height height.

Definition anti_domination_required : bool :=
  if network_id_byte env =? 0 then true else
  env_flag env "IRIUM_POAWX_ANTI_DOMINATION_REQUIRED".

Definition anti_domination_enforced_gate (network_id : Z) (activation : option Z) (required : bool)
    (height : Z) : bool :=
  anti_domination_gate network_id activation height && required.

Definition anti_domination_enforced (height : Z) : bool :=
  anti_domination_enforced_gate (network_id_byte env) anti_domination_activation_height
    anti_domination_required height.

Definition DEFAULT_ANTI_DOMINATION_WINDOW : Z := 2016.
Definition DEFAULT_ANTI_DOMINATION_LOOKBACK : Z := 2.
Definition PRUNE_MARGIN_WINDOWS : Z := 8.
Definition DOMINANCE_BASE_WORK_SCORE : Z := 1000.

(** [.filter(|w| *w >= 1).unwrap_or(default)] *)
Definition at_least_one (o : option Z) (default : Z) : Z :=
  match o with Some w => if 1 <=? w then w else default | None => default end.

Definition anti_domination_window : Z :=
  at_least_one (env_u64 env "IRIUM_POAWX_ANTI_DOMINATION_WINDOW") DEFAULT_ANTI_DOMINATION_WINDOW.
Definition anti_domination_lookback : Z :=
  at_least_one (env_u64 env "IRIUM_POAWX_ANTI_DOMINATION_LOOKBACK") DEFAULT_ANTI_DOMINATION_LOOKBACK.
End gates.

(** ** Buckets *)
Inductive RoleRewardKind := Primary | Compute | Verify | Support.

Record DominanceBucket := {
  db_primary : Z;
  db_compute : Z;
  db_verify : Z;
  db_support : Z;
  db_total : Z;
  db_valid_role_count : Z;
  db_last_reward_height : Z
}.

Definition DominanceBucket_default : DominanceBucket :=
  {| db_primary := 0; db_compute := 0; db_verify := 0; db_support := 0; db_total := 0;
     db_valid_role_count := 0; db_last_reward_height := 0 |}.

Definition bucket_is_empty (b : DominanceBucket) : bool :=
  (db_primary b =? 0) && (db_compute b =? 0) && (db_verify b =? 0) && (db_support b =? 0)
  && (db_total b =? 0) && (db_valid_role_count b =? 0).

Definition bucket_add (b : DominanceBucket) (kind : RoleRewardKind) (amount height : Z) : DominanceBucket :=
  {| db_primary := match kind with Primary => sat_add64 (db_primary b) amount | _ => db_primary b end;
     db_compute := match kind with Compute => sat_add64 (db_compute b) amount | _ => db_compute b end;
     db_verify := match kind with Verify => sat_add64 (db_verify b) amount | _ => db_verify b end;
     db_support := match kind with Support => sat_add64 (db_support b) amount | _ => db_support b end;
     db_total := sat_add64 (db_total b) amount;
     db_valid_role_count := sat_add64 (db_valid_role_count b) 1;
     db_last_reward_height :=
       if db_last_reward_height b <? height then height else db_last_reward_height b |}.

Definition bucket_sub (b : DominanceBucket) (kind : RoleRewardKind) (amount : Z) : DominanceBucket :=
  {| db_primary := match kind with Primary => sat_sub (db_primary b) amount | _ => db_primary b end;
     db_compute := match kind with Compute => sat_sub (db_compute b) amount | _ => db_compute b end;
     db_verify := match kind with Verify => sat_sub (db_verify b) amount | _ => db_verify b end;
     db_support := match kind with Support => sat_sub (db_support b) amount | _ => db_support b end;
     db_total := sat_sub (db_total b) amount;
     db_valid_role_count := sat_sub (db_valid_role_count b) 1;
     db_last_reward_height := db_last_reward_height b |}.

(** ** The state *)
Abbreviation MinerWindow := (bytes * Z)%type.

Record PersistentDominance := {
  window_len : Z;
  lookback : Z;
  buckets : gmap MinerWindow DominanceBucket
}.

Definition PersistentDominance_new (window_len lookback : Z) : PersistentDominance :=
  {| window_len := Z.max window_len 1; lookback := Z.max lookback 1; buckets := ∅ |}.

Definition PersistentDominance_from_env (env : Env) : PersistentDominance :=
  PersistentDominance_new (anti_domination_window env) (anti_domination_lookback env).

Definition set_buckets (d : PersistentDominance) (m : gmap MinerWindow DominanceBucket) : PersistentDominance :=
  {| window_len := window_len d; lookback := lookback d; buckets := m |}.

Definition window_id (d : PersistentDominance) (height : Z) : Z := height `div` window_len d.

Definition recent_range (d : PersistentDominance) (height : Z) : Z * Z :=
  let hi := window_id d height in
  let lo := sat_sub hi (sat_sub (lookback d) 1) in
  (lo, hi).

(** The oldest window [prune] keeps. *)
Definition keep_floor (d : PersistentDominance) (height : Z) : Z :=
  sat_sub (window_id d height) (wadd64 (sat_sub (lookback d) 1) PRUNE_MARGIN_WINDOWS).

Definition prune (d : PersistentDominance) (height : Z) : PersistentDominance :=
  let floor := keep_floor d height in
  if floor =? 0 then d else set_buckets d (filter (fun kb => floor <= kb.1.2) (buckets d)).

Definition apply_event (d : PersistentDominance) (pkh : bytes) (kind : RoleRewardKind) (amount height : Z)
    : PersistentDominance :=
  let wid := window_id d height in
  let b := from_option id DominanceBucket_default (buckets d !! (pkh, wid)) in
  prune (set_buckets d (<[(pkh, wid) := bucket_add b kind amount height]> (buckets d))) height.

Definition revert_event (d : PersistentDominance) (pkh : bytes) (kind : RoleRewardKind) (amount height : Z)
    : PersistentDominance :=
  let wid := window_id d height in
  match buckets d !! (pkh, wid) with
  | None => d
  | Some b =>
      let b := bucket_sub b kind amount in
      if bucket_is_empty b then set_buckets d (delete (pkh, wid) (buckets d))
      else set_buckets d (<[(pkh, wid) := b]> (buckets d))
  end.

Definition recent_total (d : PersistentDominance) (pkh : bytes) (height : Z) : Z :=
  let '(lo, hi) := recent_range d height in
  foldl (fun sum wid => match buckets d !! (pkh, wid) with
                        | Some b => sat_add64 sum (db_total b) | None => sum end)
    0 (seqZ lo (hi - lo + 1)).

(** [BTreeMap] order: by the key hash, then the window. *)
Definition key_le (a b : MinerWindow * DominanceBucket) : Prop :=
  bytes_ltb b.1.1 a.1.1 = false /\ (a.1.1 = b.1.1 -> a.1.2 <= b.1.2).

#[export] Instance key_le_dec : RelDecision key_le.
Proof. unfold key_le. intros a b. apply _. Defined.

Definition sorted_buckets (d : PersistentDominance) : list (MinerWindow * DominanceBucket) :=
  merge_sort key_le (map_to_list (buckets d)).

Definition network_recent_total (d : PersistentDominance) (height : Z) : Z :=
  let '(lo, hi) := recent_range d height in
  foldl (fun sum '((_, wid), b) => if (lo <=? wid) && (wid <=? hi) then sat_add64 sum (db_total b) else sum)
    0 (sorted_buckets d).

Definition recent_reward_share_permille (d : PersistentDominance) (pkh : bytes) (height : Z) : Z :=
  let net := network_recent_total d height in
  if net =? 0 then 0 else
  let mine := recent_total d pkh height in
  Z.min ((mine * 1000) `div` net) 1000.

(** In 128 bits; the products do not overflow. *)
Definition fairness_weight (valid_work_score recent_reward_share_permille : Z) : Z :=
  as_u64 ((valid_work_score * 1000) `div` (1000 + recent_reward_share_permille)).

Definition weight (d : PersistentDominance) (valid_work_score : Z) (pkh : bytes) (height : Z) : Z :=
  fairness_weight valid_work_score (recent_reward_share_permille d pkh height).

(** ** Wire form and digest *)
Definition bucket_bytes (kb : MinerWindow * DominanceBucket) : bytes :=
  let '((pkh, wid), b) := kb in
  pkh ++ le_bytes 8 wid ++ le_bytes 8 (db_primary b) ++ le_bytes 8 (db_compute b) ++ le_bytes 8 (db_verify b)
  ++ le_bytes 8 (db_support b) ++ le_bytes 8 (db_total b) ++ le_bytes 8 (db_valid_role_count b)
  ++ le_bytes 8 (db_last_reward_height b).

Definition dominance_to_bytes (d : PersistentDominance) : bytes :=
  le_bytes 8 (window_len d) ++ le_bytes 8 (lookback d) ++ le_bytes 8 (Z.of_nat (size (buckets d)))
  ++ concat (bucket_bytes <$> sorted_buckets d).

(** [raw.get(off..off + n)], and the position behind it. *)
Definition get_range (n : Z) (e : string) (raw : bytes) (off : Z) : res string (bytes * Z) :=
  if (0 <=? off) && (off + n <=? len raw)
  then Ok (take (Z.to_nat n) (drop (Z.to_nat off) raw), off + n) else Err e.

Definition read_word (raw : bytes) (off : Z) : res string (Z * Z) :=
  '(s, off) ← get_range 8 "dominance: truncated" raw off; Ok (le_val s, off).

Definition read_bucket (raw : bytes) (off : Z) : res string ((MinerWindow * DominanceBucket) * Z) :=
  '(pkh, off) ← get_range 20 "dominance: truncated pkh" raw off;
  '(wid, off) ← read_word raw off;
  '(primary, off) ← read_word raw off;
  '(compute, off) ← read_word raw off;
  '(verify, off) ← read_word raw off;
  '(support, off) ← read_word raw off;
  '(total, off) ← read_word raw off;
  '(valid_role_count, off) ← read_word raw off;
  '(last_reward_height, off) ← read_word raw off;
  Ok (((pkh, wid), {| db_primary := primary; db_compute := compute; db_verify := verify; db_support := support;
                      db_total := total; db_valid_role_count := valid_role_count;
                      db_last_reward_height := last_reward_height |}), off).

(** The loop reads up to [count] buckets, each at least one byte further: a
    count beyond the length of the input ends in an error. *)
Definition dominance_from_bytes (raw : bytes) : res string PersistentDominance :=
  '(window_len, off) ← read_word raw 0;
  '(lookback, off) ← read_word raw off;
  '(count, off) ← read_word raw off;
  let d := PersistentDominance_new window_len lookback in
  '(bs, off) ← read_many read_bucket (Z.to_nat count) raw off;
  if negb (off =? len raw) then Err "dominance: trailing bytes"%string else
  Ok (set_buckets d (foldl (fun m kb => <[kb.1 := kb.2]> m) (buckets d) bs)).

Definition DOMINANCE_SECTION_MAGIC : bytes := byte_string "DOM1".
Definition DOMINANCE_WEIGHTS_WIRE : Z := 32.
Definition DOMINANCE_DIGEST_TAG : bytes := byte_string "IRIUM_POAWX_DOMINANCE_STATE_V1".

Definition digest_bucket (kb : MinerWindow * DominanceBucket) : bytes :=
  let '((pkh, wid), b) := kb in
  pkh ++ le_bytes 8 wid ++ le_bytes 8 (db_primary b) ++ le_bytes 8 (db_compute b) ++ le_bytes 8 (db_verify b)
  ++ le_bytes 8 (db_support b) ++ le_bytes 8 (db_total b) ++ le_bytes 8 (db_valid_role_count b).

Definition dominance_digest `{C : Crypto} (d : PersistentDominance) : bytes :=
  sha256 (DOMINANCE_DIGEST_TAG ++ le_bytes 8 (window_len d) ++ le_bytes 8 (lookback d)
          ++ le_bytes 8 (Z.of_nat (size (buckets d))) ++ concat (digest_bucket <$> sorted_buckets d)).

(** ** What the weights are computed from: the numbers of a bucket *)
Definition core (b : DominanceBucket) : list Z :=
  [db_primary b; db_compute b; db_verify b; db_support b; db_total b; db_valid_role_count b].

Definition zero6 : list Z := [0; 0; 0; 0; 0; 0].

(** The numbers of a miner in a window, all zero if there is no bucket. *)
Definition view (d : PersistentDominance) (k : MinerWindow) : list Z :=
  match buckets d !! k with Some b => core b | None => zero6 end.

Definition vtotal (v : list Z) : Z := nth 4 v 0.

Abbreviation vadd := (zip_with Z.add).
Abbreviation vsub := (zip_with sat_sub).

(** What one reward adds. *)
Definition event_vec (kind : RoleRewardKind) (amount : Z) : list Z :=
  match kind with
  | Primary => [amount; 0; 0; 0; amount; 1]
  | Compute => [0; amount; 0; 0; amount; 1]
  | Verify => [0; 0; amount; 0; amount; 1]
  | Support => [0; 0; 0; amount; amount; 1]
  end.

Definition in_u64 (v : list Z) : Prop := Forall (fun x => 0 <= x <= U64_MAX) v.

(** No bucket is empty, numbers are in range, and so are the parameters. *)
Record dom_ok (d : PersistentDominance) : Prop := {
  do_window : 1 <= window_len d;
  do_lookback : 1 <= lookback d < 2 ^ 63;
  do_buckets : forall k b, buckets d !! k = Some b -> in_u64 (core b) /\ core b <> zero6
}.

(** A reward event of a block. *)
Abbreviation RewardEvent := (bytes * RoleRewardKind * Z)%type.

(** The loops of [apply_block_dominance] and [revert_block_dominance]. *)
Definition apply_events (d : PersistentDominance) (evs : list RewardEvent) (height : Z) : PersistentDominance :=
  foldl (fun d '(pkh, kind, amount) => apply_event d pkh kind amount height) d evs.
Definition revert_events (d : PersistentDominance) (evs : list RewardEvent) (height : Z) : PersistentDominance :=
  foldl (fun d '(pkh, kind, amount) => revert_event d pkh kind amount height) d evs.

(** What a list of rewards adds for a miner. *)
Fixpoint vsum (pkh : bytes) (evs : list RewardEvent) : list Z :=
  match evs with
  | [] => zero6
  | (pkh', kind, amount) :: evs =>
      if bool_decide (pkh' = pkh) then vadd (event_vec kind amount) (vsum pkh evs) else vsum pkh evs
  end.

(** *** Buckets as vectors *)
Lemma bucket_is_empty_core b : bucket_is_empty b = true <-> core b = zero6.
Proof.
  unfold bucket_is_empty, core, zero6. rewrite !andb_true_iff, !Z.eqb_eq.
  split; [by intros (((((-> & ->) & ->) & ->) & ->) & ->) | by intros [= -> -> -> -> -> ->]].
Qed.

Ltac vec_lia := unfold in_u64, zero6, sat_sub, sat_add64 in *; unfold U64_MAX in *;
  repeat match goal with
  | H : Forall _ (_ :: _) |- _ => apply Forall_cons in H as [? H]
  | H : Forall _ [] |- _ => clear H
  end; cbn in *.

Lemma core_bucket_add b kind amount height :
  0 <= amount -> in_u64 (core b) -> in_u64 (vadd (core b) (event_vec kind amount)) ->
  core (bucket_add b kind amount height) = vadd (core b) (event_vec kind amount).
Proof.
  intros Ha Hb H. unfold core, bucket_add in *. destruct kind; cbn in *; vec_lia;
    repeat (apply (f_equal2 cons)); try reflexivity; try lia.
Qed.

Lemma core_bucket_sub b kind amount :
  in_u64 (core b) -> core (bucket_sub b kind amount) = vsub (core b) (event_vec kind amount).
Proof.
  intros Hb. unfold core, bucket_sub in *. destruct kind; cbn in *; vec_lia;
    repeat (apply (f_equal2 cons)); try reflexivity; try lia.
Qed.

Lemma length_core b : length (core b) = 6%nat.
Proof. done. Qed.

Lemma length_view d k : length (view d k) = 6%nat.
Proof. unfold view. by destruct (_ !! k). Qed.

Lemma vadd_zero_r v : length v = 6%nat -> vadd v zero6 = v.
Proof. intros H. do 6 (destruct v as [|? v]; [done|]). destruct v; [|done]. cbn. repeat f_equal; lia. Qed.

Lemma vadd_assoc u v w : vadd u (vadd v w) = vadd (vadd u v) w.
Proof. revert v w. induction u as [|x u IH]; intros [|y v] [|z w]; cbn; try done. rewrite IH. f_equal. lia. Qed.

Lemma vadd_comm u v : vadd u v = vadd v u.
Proof. revert v. induction u as [|x u IH]; intros [|y v]; cbn; try done. rewrite IH. f_equal. lia. Qed.

(** Taking off what was added. *)
Lemma vsub_vadd u v w :
  length u = length v -> length w = length v -> Forall (fun x => 0 <= x) u -> Forall (fun x => 0 <= x) w ->
  vsub (vadd u (vadd v w)) v = vadd u w.
Proof.
  revert v w. induction u as [|x u IH]; intros [|y v] [|z w]; cbn; try done.
  intros [= H1] [= H2] [Hx Hu]%Forall_cons [Hz Hw]%Forall_cons. rewrite IH by done.
  f_equal. unfold sat_sub. lia.
Qed.

(** *** Views under the operations *)
Lemma prune_params d h : window_len (prune d h) = window_len d /\ lookback (prune d h) = lookback d.
Proof. unfold prune. by destruct (_ =? 0). Qed.

Lemma view_prune d h k : 0 <= k.2 ->
  view (prune d h) k = if k.2 <? keep_floor d h then zero6 else view d k.
Proof.
  intros Hk. unfold prune, view. destruct (keep_floor d h =? 0) eqn:Hf.
  - destruct (k.2 <? keep_floor d h) eqn:Hlt; [lia | done].
  - cbn. rewrite map_lookup_filter. destruct (buckets d !! k) as [b|]; cbn; [|by destruct (_ <? _)].
    destruct (k.2 <? keep_floor d h) eqn:Hlt.
    + rewrite option_guard_False by lia. done.
    + rewrite option_guard_True by lia. done.
Qed.

Lemma in_u64_zero6 : in_u64 zero6.
Proof. unfold in_u64, zero6, U64_MAX. by repeat constructor. Qed.

Lemma view_in_u64 d k : dom_ok d -> in_u64 (view d k).
Proof.
  intros [_ _ Hb]. unfold view. destruct (buckets d !! k) as [b|] eqn:Hk; [by eapply Hb | apply in_u64_zero6].
Qed.

Lemma view_set_bucket d k k' b :
  view (set_buckets d (<[k := b]> (buckets d))) k' = if bool_decide (k' = k) then core b else view d k'.
Proof.
  unfold view. cbn. case_bool_decide as E; [subst; by rewrite lookup_insert_eq | by rewrite lookup_insert_ne].
Qed.

Lemma dom_ok_prune d h : dom_ok d -> dom_ok (prune d h).
Proof.
  intros [Hw Hl Hb]. unfold prune. destruct (_ =? 0); [done|]. split; [done..|].
  cbn. intros k b [Hk _]%map_lookup_filter_Some. by eapply Hb.
Qed.

Section event.
Context (d : PersistentDominance) (pkh : bytes) (kind : RoleRewardKind) (amount height : Z).
Context (Hd : dom_ok d) (Ha : 0 <= amount).
Abbreviation key := (pkh, window_id d height).

Lemma view_apply_event k : 0 <= k.2 -> in_u64 (vadd (view d key) (event_vec kind amount)) ->
  view (apply_event d pkh kind amount height) k =
    if k.2 <? keep_floor d height then zero6 else
    if bool_decide (k = key) then vadd (view d k) (event_vec kind amount) else view d k.
Proof.
  intros Hk Hfit. unfold apply_event. rewrite view_prune by done.
  change (keep_floor (set_buckets d _) height) with (keep_floor d height).
  destruct (_ <? _); [done|]. rewrite view_set_bucket. case_bool_decide as E; [|done]. subst k.
  pose proof (view_in_u64 d key Hd) as Hv. unfold view in *.
  destruct (buckets d !! key) as [b|]; by apply core_bucket_add.
Qed.

Lemma view_revert_event k :
  view (revert_event d pkh kind amount height) k =
    if bool_decide (k = key) then vsub (view d k) (event_vec kind amount) else view d k.
Proof.
  unfold revert_event. destruct (buckets d !! key) as [b|] eqn:Hb.
  - assert (core (bucket_sub b kind amount) = vsub (core b) (event_vec kind amount)) as Hs
      by (apply core_bucket_sub; by eapply (do_buckets d Hd)).
    destruct (bucket_is_empty _) eqn:He.
    + apply bucket_is_empty_core in He. rewrite He in Hs. unfold view. cbn.
      case_bool_decide as E; [subst; by rewrite lookup_delete_eq, Hb | by rewrite lookup_delete_ne].
    + rewrite view_set_bucket. case_bool_decide as E; [|done]. subst. unfold view. by rewrite Hb.
  - case_bool_decide as E; [|done]. subst. unfold view. rewrite Hb.
    destruct kind; cbn; unfold sat_sub; repeat (apply (f_equal2 cons)); try reflexivity; lia.
Qed.

Lemma dom_ok_apply : in_u64 (vadd (view d key) (event_vec kind amount)) ->
  dom_ok (apply_event d pkh kind amount height).
Proof.
  intros Hfit. unfold apply_event. apply dom_ok_prune. destruct Hd as [Hw Hl Hb]. split; [done..|].
  cbn. intros k b [[<- <-]|[_ Hk]]%lookup_insert_Some; [|by eapply Hb].
  pose proof (view_in_u64 d key Hd) as Hv. unfold view in *.
  assert (forall b0, in_u64 (core b0) -> in_u64 (vadd (core b0) (event_vec kind amount)) ->
    in_u64 (core (bucket_add b0 kind amount height)) /\ core (bucket_add b0 kind amount height) <> zero6) as Hc.
  { intros b0 H0 H1. rewrite core_bucket_add by done. split; [done|].
    unfold core, in_u64 in *. destruct kind; cbn in *; vec_lia; intros [=]; lia. }
  destruct (buckets d !! key) as [b0|] eqn:E; cbn; by apply Hc.
Qed.

Lemma dom_ok_revert : dom_ok (revert_event d pkh kind amount height).
Proof.
  unfold revert_event. destruct (buckets d !! key) as [b|] eqn:Hb; [|done].
  destruct Hd as [Hw Hl Hbs]. destruct (bucket_is_empty _) eqn:He; (split; [done..|]); cbn.
  - intros k b' [_ Hk]%lookup_delete_Some. by eapply Hbs.
  - intros k b' [[<- <-]|[_ Hk]]%lookup_insert_Some; [|by eapply Hbs]. split.
    + destruct (Hbs _ _ Hb) as [Hin _]. rewrite core_bucket_sub by done.
      unfold core in *. destruct kind; cbn in *; vec_lia; repeat (apply Forall_cons; split); try lia; constructor.
    + intros E. apply bucket_is_empty_core in E. by rewrite E in He.
Qed.

Lemma event_params :
  window_len (apply_event d pkh kind amount height) = window_len d /\
  lookback (apply_event d pkh kind amount height) = lookback d /\
  window_len (revert_event d pkh kind amount height) = window_len d /\
  lookback (revert_event d pkh kind amount height) = lookback d.
Proof.
  unfold apply_event, revert_event. rewrite !(proj1 (prune_params _ _)), !(proj2 (prune_params _ _)).
  destruct (buckets d !! key); [by destruct (bucket_is_empty _) | done].
Qed.
End event.

(** *** Blocks of rewards *)
Definition fits (d : PersistentDominance) (evs : list RewardEvent) (height : Z) : Prop :=
  Forall (fun ev => 0 <= ev.2) evs /\
  forall pkh, in_u64 (vadd (view d (pkh, window_id d height)) (vsum pkh evs)).

Lemma length_event_vec kind amount : length (event_vec kind amount) = 6%nat.
Proof. by destruct kind. Qed.

Lemma vsum_spec pkh evs : Forall (fun ev => 0 <= ev.2) evs ->
  length (vsum pkh evs) = 6%nat /\ Forall (fun x => 0 <= x) (vsum pkh evs).
Proof.
  induction 1 as [|[[p kind] amount] evs Ha _ [IHl IHf]]; [by split; [|unfold vsum, zero6; repeat constructor]|].
  cbn. case_bool_decide; [|done]. rewrite length_zip_with, IHl, length_event_vec. split; [done|]. cbn in Ha.
  generalize dependent (vsum pkh evs). intros v Hl Hf. do 6 (destruct v as [|? v]; [done|]).
  destruct kind; cbn; vec_lia; repeat (apply Forall_cons; split); try lia; constructor.
Qed.

Lemma in_u64_nonneg v : in_u64 v -> Forall (fun x => 0 <= x) v.
Proof. intros H. eapply Forall_impl; [exact H|]. cbn. lia. Qed.

Lemma event_vec_nonneg kind amount : 0 <= amount -> Forall (fun x => 0 <= x) (event_vec kind amount).
Proof. intros H. destruct kind; by repeat (apply Forall_cons; split); [lia..|constructor]. Qed.

Lemma in_u64_vadd_l u v w : length u = length v -> length v = length w ->
  Forall (fun x => 0 <= x) u -> Forall (fun x => 0 <= x) v -> Forall (fun x => 0 <= x) w ->
  in_u64 (vadd u (vadd v w)) -> in_u64 (vadd u v).
Proof.
  unfold in_u64. revert v w. induction u as [|x u IH]; intros [|y v] [|z w]; cbn; try done.
  intros [= ?] [= ?] [? ?]%Forall_cons [? ?]%Forall_cons [? ?]%Forall_cons [? ?]%Forall_cons.
  constructor; [lia|]. by eapply IH.
Qed.

Lemma keep_floor_le d height : 0 <= height -> 1 <= window_len d -> 0 <= keep_floor d height <= window_id d height.
Proof.
  intros Hh Hw. unfold keep_floor, sat_sub.
  assert (0 <= window_id d height) by (unfold window_id; apply Z.div_pos; lia).
  assert (0 <= wadd64 (Z.max 0 (lookback d - 1)) PRUNE_MARGIN_WINDOWS) by (unfold wadd64; apply Z.mod_pos; lia).
  lia.
Qed.

Lemma view_apply_events height evs : 0 <= height -> forall d, dom_ok d -> fits d evs height ->
  dom_ok (apply_events d evs height) /\ window_len (apply_events d evs height) = window_len d /\
  lookback (apply_events d evs height) = lookback d /\
  forall k, keep_floor d height <= k.2 -> view (apply_events d evs height) k =
    if bool_decide (k.2 = window_id d height) then vadd (view d k) (vsum k.1 evs) else view d k.
Proof.
  intros Hh. induction evs as [|[[p kind] amount] evs IH]; intros d Hd [Hev Hfit].
  { split_and!; [done..|]. intros k _. cbn. case_bool_decide; [|done]. by rewrite vadd_zero_r by apply length_view. }
  apply Forall_cons in Hev as [Ha Hev]. cbn in Ha. set (d1 := apply_event d p kind amount height).
  change (apply_events d ((p, kind, amount) :: evs) height) with (apply_events d1 evs height).
  assert (in_u64 (vadd (view d (p, window_id d height)) (event_vec kind amount))) as Hfit1.
  { specialize (Hfit p). cbn in Hfit. rewrite bool_decide_true in Hfit by done.
    destruct (vsum_spec p evs Hev) as [Hl Hn].
    eapply in_u64_vadd_l; [..|exact Hfit]; rewrite ?length_view, ?length_event_vec, ?Hl; try done;
      [by apply in_u64_nonneg, view_in_u64 | by apply event_vec_nonneg]. }
  destruct (event_params d p kind amount height) as (Hw & Hl & _). fold d1 in Hw, Hl.
  assert (window_id d1 height = window_id d height) as Hid by (unfold window_id; by rewrite Hw).
  assert (keep_floor d1 height = keep_floor d height) as Hkf by (unfold keep_floor; by rewrite Hid, Hl).
  pose proof (keep_floor_le d height Hh (do_window d Hd)) as Hfl.
  assert (forall k, keep_floor d height <= k.2 -> view d1 k =
    if bool_decide (k = (p, window_id d height)) then vadd (view d k) (event_vec kind amount) else view d k) as Hv1.
  { intros k Hk. unfold d1. rewrite view_apply_event by (done || lia).
    by replace (k.2 <? keep_floor d height) with false by lia. }
  destruct (IH d1) as (Hok & Hw' & Hl' & Hv).
  - by apply dom_ok_apply.
  - split; [done|]. intros pkh. rewrite Hid, Hv1 by (cbn; lia). specialize (Hfit pkh). cbn in Hfit.
    destruct (decide (p = pkh)) as [->|Hne].
    + rewrite bool_decide_true in Hfit |- * by done. by rewrite <- vadd_assoc.
    + rewrite !bool_decide_false in Hfit |- * by congruence. done.
  - split_and!; [done | congruence | congruence |]. intros k Hk.
    rewrite Hv, Hid by (by rewrite Hkf). case_bool_decide as Ek; rewrite Hv1 by done; cbn.
    + destruct (decide (p = k.1)) as [->|Hne].
      * rewrite !bool_decide_true by (done || by rewrite <- Ek; destruct k). by rewrite <- vadd_assoc.
      * rewrite !bool_decide_false by (done || by intros E; apply Hne; rewrite E). done.
    + rewrite bool_decide_false; [done|]. intros ->. done.
Qed.

Lemma view_revert_events height evs : Forall (fun ev => 0 <= ev.2) evs -> forall d, dom_ok d ->
  dom_ok (revert_events d evs height) /\ window_len (revert_events d evs height) = window_len d /\
  lookback (revert_events d evs height) = lookback d /\
  (forall k, k.2 <> window_id d height -> view (revert_events d evs height) k = view d k) /\
  forall pkh v, length v = 6%nat -> Forall (fun x => 0 <= x) v ->
    view d (pkh, window_id d height) = vadd v (vsum pkh evs) ->
    view (revert_events d evs height) (pkh, window_id d height) = v.
Proof.
  induction 1 as [|[[p kind] amount] evs Ha Hev IH]; intros d Hd.
  { split_and!; [done..|]. intros pkh v Hl _ Hv. cbn in Hv |- *. by rewrite Hv, vadd_zero_r. }
  set (d1 := revert_event d p kind amount height).
  change (revert_events d ((p, kind, amount) :: evs) height) with (revert_events d1 evs height).
  destruct (event_params d p kind amount height) as (_ & _ & Hw & Hl). fold d1 in Hw, Hl.
  assert (window_id d1 height = window_id d height) as Hid by (unfold window_id; by rewrite Hw).
  cbn in Ha. pose proof (view_revert_event d p kind amount height Hd Ha) as Hv1. fold d1 in Hv1.
  destruct (IH d1) as (Hok & Hw' & Hl' & Hother & Hsame); [by apply dom_ok_revert|].
  split_and!; [done | congruence | congruence |..].
  - intros k Hk. rewrite Hother by (by rewrite Hid). rewrite Hv1. case_bool_decide; [by subst k | done].
  - intros pkh v Hlv Hn Hv. rewrite <- Hid. apply Hsame; [done..|]. rewrite Hid, Hv1, Hv. cbn.
    destruct (vsum_spec pkh evs Hev) as [Hls Hns]. destruct (decide (p = pkh)) as [->|Hne].
    + rewrite !bool_decide_true by done. apply vsub_vadd; rewrite ?length_event_vec; done.
    + rewrite !bool_decide_false by congruence. done.
Qed.

(** ** States that no weight tells apart: they agree from a window on *)
Record dom_eq (floor : Z) (d d' : PersistentDominance) : Prop := {
  de_window : window_len d' = window_len d;
  de_lookback : lookback d' = lookback d;
  de_view : forall k, floor <= k.2 -> view d' k = view d k
}.

#[export] Instance dom_eq_equiv floor : Equivalence (dom_eq floor).
Proof.
  split.
  - by split.
  - intros d d' [Hw Hl Hv]. split; [done..|]. intros k Hk. symmetry. by apply Hv.
  - intros d d' d'' [Hw Hl Hv] [Hw' Hl' Hv']. split; [congruence..|]. intros k Hk. by rewrite Hv', Hv.
Qed.

(** The saturating sums. *)
Lemma sat_foldl (xs : list Z) : Forall (fun x => 0 <= x) xs -> forall s, 0 <= s <= U64_MAX ->
  foldl sat_add64 s xs = Z.min U64_MAX (s + zsum xs).
Proof.
  unfold zsum. induction 1 as [|x xs Hx Hxs IH]; intros s Hs; cbn; [lia|].
  assert (0 <= foldr Z.add 0 xs) by (clear -Hxs; induction Hxs; cbn; lia).
  rewrite IH by (unfold sat_add64; lia). unfold sat_add64. lia.
Qed.

Lemma sat_add64_0 s : 0 <= s <= U64_MAX -> sat_add64 s 0 = s.
Proof. unfold sat_add64. lia. Qed.

Lemma zsum_nonneg xs : Forall (fun x => 0 <= x) xs -> 0 <= zsum xs.
Proof. unfold zsum. induction 1; cbn; lia. Qed.

Lemma vtotal_nonneg d k : dom_ok d -> 0 <= vtotal (view d k) <= U64_MAX.
Proof.
  intros Hd. pose proof (view_in_u64 d k Hd) as H. unfold view, vtotal in *.
  destruct (buckets d !! k); unfold in_u64, core, zero6 in H; vec_lia; cbn; lia.
Qed.

Lemma recent_total_sum d pkh height : dom_ok d ->
  recent_total d pkh height =
    let '(lo, hi) := recent_range d height in
    Z.min U64_MAX (zsum ((fun wid => vtotal (view d (pkh, wid))) <$> seqZ lo (hi - lo + 1))).
Proof.
  intros Hd. unfold recent_total. destruct (recent_range d height) as [lo hi]. cbn zeta.
  assert (forall ws s, 0 <= s <= U64_MAX ->
    foldl (fun sum wid => match buckets d !! (pkh, wid) with
      | Some b => sat_add64 sum (db_total b) | None => sum end) s ws
    = foldl sat_add64 s ((fun wid => vtotal (view d (pkh, wid))) <$> ws)) as Hf.
  { induction ws as [|w ws IH]; intros s Hs; [done|]. cbn.
    pose proof (vtotal_nonneg d (pkh, w) Hd) as Hv. unfold view at 1. unfold view in Hv.
    destruct (buckets d !! (pkh, w)) as [b|].
    + apply IH. unfold sat_add64, vtotal in *. cbn in *. lia.
    + change (vtotal zero6) with 0. rewrite sat_add64_0 by done. by apply IH. }
  rewrite Hf by (unfold U64_MAX; lia).
  rewrite sat_foldl; [done | | unfold U64_MAX; lia]. apply Forall_fmap, Forall_forall.
  intros w _. apply vtotal_nonneg, Hd.
Qed.

(** The buckets of a range of windows. *)
Definition in_range (d : PersistentDominance) (lo hi : Z) : gmap MinerWindow DominanceBucket :=
  filter (fun kb => lo <= kb.1.2 <= hi) (buckets d).

Definition map_total (m : gmap MinerWindow DominanceBucket) : Z := zsum ((db_total ∘ snd) <$> map_to_list m).

Lemma map_total_insert m k b : m !! k = None -> map_total (<[k := b]> m) = db_total b + map_total m.
Proof. intros H. unfold map_total. by rewrite map_to_list_insert. Qed.

Lemma map_total_filter (P : MinerWindow * DominanceBucket -> Prop) `{forall x, Decision (P x)} m :
  map_total (filter P m) = zsum ((fun kb => if bool_decide (P kb) then db_total kb.2 else 0) <$> map_to_list m).
Proof.
  induction m as [|k b m Hk IH] using map_ind; [by rewrite map_filter_empty, map_to_list_empty|].
  rewrite map_to_list_insert by done. cbn. case_bool_decide as Hp.
  - rewrite map_filter_insert_True, map_total_insert, IH; [done| |done]. apply map_lookup_filter_None. by left.
  - rewrite map_filter_insert_not', IH; [done | done |]. intros y Hy. by rewrite Hk in Hy.
Qed.

Lemma network_total_sum d height : dom_ok d ->
  network_recent_total d height =
    let '(lo, hi) := recent_range d height in Z.min U64_MAX (map_total (in_range d lo hi)).
Proof.
  intros Hd. unfold network_recent_total. destruct (recent_range d height) as [lo hi]. cbn zeta.
  assert (forall l s, 0 <= s <= U64_MAX -> Forall (fun kb => 0 <= db_total kb.2) l ->
    foldl (fun sum '((_, wid), b) => if (lo <=? wid) && (wid <=? hi) then sat_add64 sum (db_total b) else sum) s l
    = foldl sat_add64 s ((fun kb : MinerWindow * DominanceBucket => if bool_decide (lo <= kb.1.2 <= hi) then db_total kb.2 else 0) <$> l)) as Hf.
  { induction l as [|[[pkh wid] b] l IH]; intros s Hs Hl; [done|]. apply Forall_cons in Hl as [Hb Hl]. cbn in *.
    destruct ((lo <=? wid) && (wid <=? hi)) eqn:E.
    + rewrite bool_decide_true by lia. apply IH; [unfold sat_add64; lia | done].
    + rewrite bool_decide_false by lia. rewrite sat_add64_0 by done. by apply IH. }
  assert (Forall (fun kb => 0 <= db_total kb.2) (sorted_buckets d)) as Hn.
  { apply Forall_forall. intros [k b] Hin. unfold sorted_buckets in Hin.
    rewrite merge_sort_Permutation, elem_of_map_to_list in Hin. apply (do_buckets d Hd) in Hin as [Hin _].
    unfold core in Hin. vec_lia. lia. }
  rewrite Hf by (done || unfold U64_MAX; lia). rewrite sat_foldl; [| |unfold U64_MAX; lia].
  - unfold in_range, sorted_buckets. rewrite map_total_filter, merge_sort_Permutation. done.
  - apply Forall_fmap. eapply Forall_impl; [exact Hn|]. intros kb Hkb. cbn in *. case_bool_decide; lia.
Qed.

Lemma in_range_core d d' floor lo hi : dom_ok d -> dom_ok d' -> dom_eq floor d d' -> floor <= lo ->
  core <$> in_range d' lo hi = core <$> in_range d lo hi.
Proof.
  intros Hd Hd' [_ _ Hv] Hlo. apply map_eq. intros k. rewrite !lookup_fmap. unfold in_range.
  rewrite !map_lookup_filter. specialize (Hv k). unfold view in Hv.
  destruct (buckets d !! k) as [b|] eqn:Eb, (buckets d' !! k) as [b'|] eqn:Eb'; cbn;
    try done; destruct (decide (lo <= k.2 <= hi)) as [Hk|Hk];
    rewrite ?option_guard_True by done; rewrite ?option_guard_False by done; try done; cbn.
  - by rewrite Hv by lia.
  - exfalso. apply (do_buckets d Hd k b Eb). rewrite <- Hv by lia. done.
  - exfalso. apply (do_buckets d' Hd' k b' Eb'). by rewrite Hv by lia.
Qed.

Lemma map_total_core m : map_total m = zsum (vtotal <$> (map_to_list (core <$> m)).*2).
Proof.
  unfold map_total. rewrite map_to_list_fmap. f_equal. induction (map_to_list m) as [|[k b] l IH]; [done|].
  cbn. by rewrite IH.
Qed.

Lemma dom_eq_weight floor d d' score pkh height :
  dom_ok d -> dom_ok d' -> dom_eq floor d d' -> floor <= (recent_range d height).1 ->
  weight d' score pkh height = weight d score pkh height.
Proof.
  intros Hd Hd' Heq Hlo. pose proof Heq as [Hw Hl Hv].
  assert (recent_range d' height = recent_range d height) as Hr
    by (unfold recent_range, window_id; by rewrite Hw, Hl).
  unfold weight, recent_reward_share_permille. rewrite !recent_total_sum, !network_total_sum by done.
  rewrite Hr. destruct (recent_range d height) as [lo hi]. cbn in Hlo |- *.
  rewrite !map_total_core, (in_range_core d d' floor lo hi Hd Hd' Heq Hlo).
  assert ((fun wid => vtotal (view d' (pkh, wid))) <$> seqZ lo (hi - lo + 1)
    = (fun wid => vtotal (view d (pkh, wid))) <$> seqZ lo (hi - lo + 1)) as ->; [|done].
  apply list_fmap_ext. intros i w Hi. f_equal. apply Hv. apply lookup_seqZ in Hi. cbn. lia.
Qed.

Lemma revert_apply_events d evs height : 0 <= height -> dom_ok d -> fits d evs height ->
  let d' := revert_events (apply_events d evs height) evs height in
  dom_ok d' /\ dom_eq (keep_floor d height) d d'.
Proof.
  intros Hh Hd Hfit d'. pose proof Hfit as [Hev _].
  destruct (view_apply_events height evs Hh d Hd Hfit) as (Hok & Hw & Hl & Hv).
  destruct (view_revert_events height evs Hev _ Hok) as (Hok' & Hw' & Hl' & Hother & Hsame).
  assert (window_id (apply_events d evs height) height = window_id d height) as Hid
    by (unfold window_id; by rewrite Hw).
  rewrite Hid in Hother, Hsame. split; [done|]. split; [unfold d'; congruence..|]. intros k Hk.
  destruct (decide (k.2 = window_id d height)) as [E|E].
  - destruct k as [pkh w]. cbn in E. subst w. apply Hsame.
    + apply length_view.
    + by apply in_u64_nonneg, view_in_u64.
    + rewrite Hv by done. cbn. by rewrite bool_decide_true.
  - unfold d'. rewrite Hother, Hv by done. by rewrite bool_decide_false.
Qed.

(** *** Rewards respect the states that no weight tells apart

    Here the numbers may meet their bounds. *)
Lemma core_bucket_add_core b b' kind amount height :
  core b = core b' -> core (bucket_add b kind amount height) = core (bucket_add b' kind amount height).
Proof. unfold core, bucket_add. cbn. intros [= -> -> -> -> -> ->]. done. Qed.

Lemma bucket_add_sound b kind amount height : 0 <= amount -> in_u64 (core b) ->
  in_u64 (core (bucket_add b kind amount height)) /\ core (bucket_add b kind amount height) <> zero6.
Proof.
  intros Ha Hb. unfold core, bucket_add in *. split.
  - destruct kind; cbn in *; vec_lia; repeat (apply Forall_cons; split); try lia; constructor.
  - intros [=]. vec_lia. lia.
Qed.

Lemma dom_ok_reward d pkh kind amount height : 0 <= amount -> dom_ok d -> dom_ok (apply_event d pkh kind amount height).
Proof.
  intros Ha [Hw Hl Hb]. unfold apply_event. apply dom_ok_prune. split; [done..|].
  cbn. intros k b [[<- <-]|[_ Hk]]%lookup_insert_Some; [|by eapply Hb].
  apply bucket_add_sound; [done|]. destruct (buckets d !! _) as [b|] eqn:E; [by eapply Hb | exact in_u64_zero6].
Qed.

Lemma view_core d k : view d k = core (from_option id DominanceBucket_default (buckets d !! k)).
Proof. unfold view. by destruct (_ !! k). Qed.

Lemma dom_eq_reward floor d d' pkh kind amount height : 0 <= floor -> dom_eq floor d d' ->
  dom_eq floor (apply_event d pkh kind amount height) (apply_event d' pkh kind amount height).
Proof.
  intros Hf [Hw Hl Hv]. destruct (event_params d pkh kind amount height) as (Hw1 & Hl1 & _),
    (event_params d' pkh kind amount height) as (Hw2 & Hl2 & _).
  split; [congruence..|]. intros k Hk. unfold apply_event. rewrite !view_prune by lia.
  assert (window_id d' height = window_id d height) as Hid by (unfold window_id; by rewrite Hw).
  change (keep_floor (set_buckets d _) height) with (keep_floor d height).
  change (keep_floor (set_buckets d' _) height) with (keep_floor d' height).
  assert (keep_floor d' height = keep_floor d height) as -> by (unfold keep_floor; by rewrite Hid, Hl).
  case_match; [done|]. rewrite Hid, !view_set_bucket. case_bool_decide; [|by apply Hv]. subst k.
  apply core_bucket_add_core. rewrite <- !view_core. by apply Hv.
Qed.

Lemma dom_eq_unreward floor d d' pkh kind amount height : 0 <= amount -> dom_ok d -> dom_ok d' -> dom_eq floor d d' ->
  dom_eq floor (revert_event d pkh kind amount height) (revert_event d' pkh kind amount height).
Proof.
  intros Ha Hd Hd' [Hw Hl Hv]. destruct (event_params d pkh kind amount height) as (_ & _ & Hw1 & Hl1),
    (event_params d' pkh kind amount height) as (_ & _ & Hw2 & Hl2).
  split; [congruence..|]. intros k Hk. rewrite !view_revert_event by done.
  assert (window_id d' height = window_id d height) as -> by (unfold window_id; by rewrite Hw).
  case_bool_decide; [|by apply Hv]. subst k. by rewrite Hv.
Qed.

(** Well-formed states that agree from a window on; the parameters are fixed. *)
Record dom_like (wl lb floor : Z) (d d' : PersistentDominance) : Prop := {
  dl_ok : dom_ok d; dl_ok' : dom_ok d'; dl_window : window_len d = wl; dl_lookback : lookback d = lb;
  dl_eq : dom_eq floor d d'
}.

#[export] Instance dom_like_per wl lb floor : RelationClasses.PER (dom_like wl lb floor).
Proof.
  split.
  - intros d d' [Hd Hd' Hw Hl He]. split; [done..| | |by symmetry]; by rewrite ?(de_window _ _ _ He), ?(de_lookback _ _ _ He).
  - intros d1 d2 d3 [? ? ? ? He] [? ? ? ? He']. split; [done..|]. by etransitivity.
Qed.

Lemma dom_like_apply wl lb floor evs height : 0 <= floor -> Forall (fun ev : RewardEvent => 0 <= ev.2) evs ->
  forall d d', dom_like wl lb floor d d' -> dom_like wl lb floor (apply_events d evs height) (apply_events d' evs height).
Proof.
  intros Hf. induction 1 as [|[[pkh kind] amount] evs Ha _ IH]; intros d d' H; [done|]. cbn in Ha. apply (IH (apply_event _ _ _ _ _)).
  destruct H as [Hd Hd' Hw Hl He]. destruct (event_params d pkh kind amount height) as (Hw1 & Hl1 & _).
  split; [by apply dom_ok_reward..| congruence | congruence |]. by apply dom_eq_reward.
Qed.

Lemma dom_like_revert wl lb floor evs height : Forall (fun ev : RewardEvent => 0 <= ev.2) evs ->
  forall d d', dom_like wl lb floor d d' -> dom_like wl lb floor (revert_events d evs height) (revert_events d' evs height).
Proof.
  induction 1 as [|[[pkh kind] amount] evs Ha _ IH]; intros d d' H; [done|]. cbn in Ha. apply (IH (revert_event _ _ _ _ _)).
  destruct H as [Hd Hd' Hw Hl He]. destruct (event_params d pkh kind amount height) as (_ & _ & Hw1 & Hl1).
  split; [by apply dom_ok_revert..| congruence | congruence |]. by apply dom_eq_unreward.
Qed.

Lemma dom_like_weight wl lb floor d d' score pkh height : dom_like wl lb floor d d' -> floor <= (recent_range d height).1 ->
  weight d' score pkh height = weight d score pkh height.
Proof. intros [? ? _ _ ?] Hf. by eapply dom_eq_weight. Qed.

Lemma dom_like_undone wl lb floor d evs height : 0 <= height -> dom_like wl lb floor d d -> fits d evs height ->
  keep_floor d height <= floor -> dom_like wl lb floor (revert_events (apply_events d evs height) evs height) d.
Proof.
  intros Hh [Hd _ Hw Hl _] Hf Hk. destruct (revert_apply_events d evs height Hh Hd Hf) as [Hd' [Ew El Ev]].
  split; [done..|congruence|congruence|]. split; [congruence..|]. intros k Hle. symmetry. apply Ev. lia.
Qed.

Lemma keep_floor_recent d h h' : dom_ok d -> 0 <= h -> 0 <= h' ->
  window_id d h <= window_id d h' + PRUNE_MARGIN_WINDOWS -> keep_floor d h <= (recent_range d h').1.
Proof.
  intros [Hw Hl _] Hh Hh' H. unfold keep_floor, recent_range, sat_sub, wadd64, PRUNE_MARGIN_WINDOWS in *. cbn.
  rewrite Z.mod_small by lia. lia.
Qed.

(** *** Shares *)
Definition bucket_total (m : gmap MinerWindow DominanceBucket) (k : MinerWindow) : Z :=
  match m !! k with Some b => db_total b | None => 0 end.

Lemma keys_total_le m ks : NoDup ks -> (forall k b, m !! k = Some b -> 0 <= db_total b) ->
  zsum (bucket_total m <$> ks) <= map_total m.
Proof.
  intros Hn. revert m. induction Hn as [|k ks Hk Hn IH]; intros m Hm.
  - apply zsum_nonneg. apply Forall_fmap, Forall_forall. intros [k b] Hin%elem_of_map_to_list. by eapply Hm.
  - assert (forall m', (forall k', k' ∈ ks -> m' !! k' = m !! k') ->
      bucket_total m <$> ks = bucket_total m' <$> ks) as Hext.
    { intros m' Hm'. apply list_fmap_ext. intros i k' Hi. unfold bucket_total.
      rewrite Hm'; [done|]. by eapply list_elem_of_lookup_2. }
    unfold zsum in *. cbn. unfold bucket_total at 1. destruct (m !! k) as [b|] eqn:Eb.
    + rewrite <- (insert_delete_id m k b Eb) at 2. rewrite map_total_insert by apply lookup_delete_eq.
      rewrite (Hext (delete k m)) by (intros k' Hk'; rewrite lookup_delete_ne by (by intros ->); done).
      specialize (IH (delete k m)). cbn in IH |- *.
      enough (foldr Z.add 0 (bucket_total (delete k m) <$> ks) <= map_total (delete k m)) by lia.
      apply IH. intros k' b' [_ ?]%lookup_delete_Some. by eapply Hm.
    + specialize (IH m Hm). lia.
Qed.

Lemma zsum_concat (xss : list (list Z)) : zsum (concat xss) = zsum (zsum <$> xss).
Proof. induction xss as [|xs xss IH]; [done|]. cbn. rewrite zsum_app, IH. done. Qed.

Lemma fmap_concat {A B} (f : A -> B) (xss : list (list A)) :
  fmap (M := list) f (concat xss) = concat (fmap (M := list) (fmap (M := list) f) xss).
Proof. induction xss as [|xs xss IH]; [done|]. cbn. by rewrite fmap_app, IH. Qed.

Lemma zsum_div xs n : 0 < n -> Forall (fun x => 0 <= x) xs ->
  zsum ((fun x => (x * 1000) `div` n) <$> xs) <= (zsum xs * 1000) `div` n.
Proof.
  intros Hn. unfold zsum. induction 1 as [|x xs Hx Hxs IH]; cbn; [by apply Z.div_pos|].
  etrans; [apply Z.add_le_mono_l, IH|]. apply Z.div_le_lower_bound; [done|].
  pose proof (Z.mul_div_le (x * 1000) n Hn). pose proof (Z.mul_div_le (foldr Z.add 0 xs * 1000) n Hn). lia.
Qed.

Lemma zsum_le_ext {A} (f g : A -> Z) xs : (forall x, x ∈ xs -> f x <= g x) -> zsum (f <$> xs) <= zsum (g <$> xs).
Proof.
  unfold zsum. induction xs as [|x xs IH]; intros H; [done|]. cbn.
  pose proof (H x ltac:(left)). specialize (IH (fun y Hy => H y ltac:(by right))). lia.
Qed.

(** All recent rewards of distinct miners are part of the network's. *)
Lemma miners_total_le d pkhs height : dom_ok d -> NoDup pkhs ->
  let '(lo, hi) := recent_range d height in
  zsum ((fun pkh => recent_total d pkh height) <$> pkhs) <= map_total (in_range d lo hi).
Proof.
  intros Hd Hn. destruct (recent_range d height) as [lo hi] eqn:Hr.
  set (ks := concat ((fun pkh => (fun wid => (pkh, wid)) <$> seqZ lo (hi - lo + 1)) <$> pkhs)).
  etrans; [|apply (keys_total_le (in_range d lo hi) ks)].
  - unfold ks. rewrite fmap_concat, zsum_concat, <- !list_fmap_compose. apply zsum_le_ext. intros pkh _.
    rewrite recent_total_sum, Hr by done. cbn. etrans; [apply Z.le_min_r|].
    rewrite <- list_fmap_compose. apply zsum_le_ext. intros w Hw. cbn. unfold bucket_total, in_range, view.
    rewrite map_lookup_filter. apply elem_of_seqZ in Hw.
    destruct (buckets d !! (pkh, w)) as [b|]; cbn; [|done]. rewrite option_guard_True by (cbn; lia). done.
  - unfold ks. clear -Hn. induction Hn as [|p pkhs Hp Hn IH]; [constructor|]. cbn. apply NoDup_app.
    split_and!; [by apply NoDup_fmap; [intros ? ? [= ->]|apply NoDup_seqZ] | | done].
    intros [q w] (w' & [= -> ->] & _)%list_elem_of_fmap Hin.
    apply list_elem_of_In, in_concat in Hin as (l & Hl & Hin). apply list_elem_of_In in Hl, Hin.
    apply list_elem_of_fmap in Hl as (q & -> & Hq). by apply list_elem_of_fmap in Hin as (? & [= <- _] & _).
  - intros k b [Hb _]%map_lookup_filter_Some. apply (do_buckets d Hd) in Hb as [Hb _].
    unfold core in Hb. vec_lia. lia.
Qed.

(** *** Wire form *)
Lemma reads_range n e x : n = len x -> reads (get_range n e) x x.
Proof.
  intros -> pre post _. unfold get_range. rewrite !len_app.
  pose proof (len_nonneg pre). pose proof (len_nonneg x). pose proof (len_nonneg post).
  replace (_ && _) with true by lia. unfold len. rewrite !Nat2Z.id, drop_app_length, take_app_length. done.
Qed.

Lemma reads_word v : u64 v -> reads read_word (le_bytes 8 v) v.
Proof.
  intros Hv. eapply (reads_ext _ _ (le_bytes 8 v ++ [])); [|apply app_nil_r|].
  { intros raw off. reflexivity. }
  eapply reads_bind; [apply reads_range; by rewrite len_le_bytes|].
  rewrite le_val_u64 by done. apply reads_ret.
Qed.

Definition wire_bucket (kb : MinerWindow * DominanceBucket) : Prop :=
  len kb.1.1 = 20 /\ u64 kb.1.2 /\ Forall u64 (core kb.2) /\ u64 (db_last_reward_height kb.2).

Definition wire_dominance (d : PersistentDominance) : Prop :=
  1 <= window_len d < 2 ^ 64 /\ 1 <= lookback d < 2 ^ 64 /\ len (dominance_to_bytes d) < 2 ^ 63 /\
  map_Forall (fun k b => wire_bucket (k, b)) (buckets d).

Lemma reads_bucket kb : wire_bucket kb -> reads read_bucket (bucket_bytes kb) kb.
Proof.
  destruct kb as [[pkh wid] [p c v s t n h]]. unfold wire_bucket, core, read_bucket, bucket_bytes. cbn.
  intros (Hl & Hw & Hc & Hh).
  repeat match goal with H : Forall _ (_ :: _) |- _ => apply Forall_cons in H as [? H] end.
  eapply reads_bind; [by apply reads_range|].
  do 7 (eapply reads_bind; [by apply reads_word|]).
  rewrite <- (app_nil_r (le_bytes 8 h)). eapply reads_bind; [by apply reads_word|]. apply reads_ret.
Qed.

(** The reader without the final check. *)
Definition read_snapshot (raw : bytes) (off : Z)
    : res string ((Z * Z * list (MinerWindow * DominanceBucket)) * Z) :=
  '(w, off) ← read_word raw off;
  '(l, off) ← read_word raw off;
  '(count, off) ← read_word raw off;
  '(bs, off) ← read_many read_bucket (Z.to_nat count) raw off;
  Ok ((w, l, bs), off).

Lemma from_bytes_snapshot raw :
  dominance_from_bytes raw =
    ('((w, l, bs), off) ← read_snapshot raw 0;
     if negb (off =? len raw) then Err "dominance: trailing bytes"%string else
     Ok (set_buckets (PersistentDominance_new w l) (foldl (fun m kb => <[kb.1 := kb.2]> m) ∅ bs))).
Proof.
  unfold dominance_from_bytes, read_snapshot.
  destruct (read_word raw 0) as [[w off]| |]; bind_simpl; [|done..].
  destruct (read_word raw off) as [[l off1]| |]; bind_simpl; [|done..].
  destruct (read_word raw off1) as [[c off2]| |]; bind_simpl; [|done..].
  destruct (read_many _ _ raw off2) as [[bs off3]| |]; bind_simpl; done.
Qed.

Lemma sorted_buckets_perm d : sorted_buckets d ≡ₚ map_to_list (buckets d).
Proof. apply merge_sort_Permutation. Qed.

Lemma reads_snapshot d : wire_dominance d ->
  reads read_snapshot (dominance_to_bytes d) (window_len d, lookback d, sorted_buckets d).
Proof.
  intros (Hw & Hl & Hlen & Hb). unfold read_snapshot, dominance_to_bytes.
  assert (Forall wire_bucket (sorted_buckets d)) as Hsb.
  { apply Forall_forall. intros [k b] Hin. rewrite sorted_buckets_perm, elem_of_map_to_list in Hin. by apply Hb. }
  assert (length (sorted_buckets d) = size (buckets d)) as Hn
    by (rewrite sorted_buckets_perm; apply length_map_to_list).
  eapply reads_bind; [apply reads_word; unfold u64; lia|]. eapply reads_bind; [apply reads_word; unfold u64; lia|].
  eapply reads_bind; [apply reads_word|].
  { unfold u64. split; [lia|]. unfold dominance_to_bytes in Hlen. rewrite !len_app, !len_le_bytes in Hlen.
    enough (Z.of_nat (size (buckets d)) <= len (concat (bucket_bytes <$> sorted_buckets d))) by lia.
    rewrite <- Hn. clear -Hsb. induction Hsb as [|[[k w] b] l (Hk & _) _ IH]; [done|]. cbn in *.
    rewrite len_app, !len_app. pose proof (len_nonneg (le_bytes 8 w)). unfold len in *. lia. }
  rewrite <- (app_nil_r (concat _)). eapply reads_bind; [|apply reads_ret].
  apply reads_many; [|by rewrite Nat2Z.id]. eapply Forall_impl; [exact Hsb|]. apply reads_bucket.
Qed.

(** ** The theorems *)

(** Disconnecting a block takes its rewards back: when the numbers stay in
    64 bits, reverting the rewards of a block right after they were applied
    gives a state with the same weight for every miner at every height, down to
    eight windows below the block. *)
Theorem dominance_revert_restores d evs height score pkh height' :
  dom_ok d -> 0 <= height -> 0 <= height' -> fits d evs height ->
  window_id d height <= window_id d height' + PRUNE_MARGIN_WINDOWS ->
  weight (revert_events (apply_events d evs height) evs height) score pkh height' = weight d score pkh height'.
Proof.
  intros Hd Hh Hh' Hf Hw. destruct (revert_apply_events d evs height Hh Hd Hf) as [Hd' Heq].
  by eapply dom_eq_weight; [| |exact Heq|apply keep_floor_recent].
Qed.

(** The weights are fair: the shares of distinct miners add up to at most a
    thousand (while the network's total fits 64 bits), and the weight of a
    miner is the score divided by one plus its share: from the full score down
    to half of it, and never more for a larger share. *)
Theorem dominance_weights_bounded d pkhs height score share share' :
  dom_ok d -> NoDup pkhs -> network_recent_total d height < U64_MAX -> u64 score ->
  0 <= share <= share' -> share' <= 1000 ->
  zsum ((fun pkh => recent_reward_share_permille d pkh height) <$> pkhs) <= 1000 /\
  score `div` 2 <= fairness_weight score share' <= fairness_weight score share /\
  fairness_weight score share <= score /\ fairness_weight score 0 = score.
Proof.
  intros Hd Hn Hnet Hs Hsh Hsh'. split.
  - pose proof (miners_total_le d pkhs height Hd Hn) as Hle.
    unfold recent_reward_share_permille. rewrite network_total_sum in * by done.
    destruct (recent_range d height) as [lo hi] eqn:Hr. rewrite Z.min_r in * by lia.
    set (net := map_total _) in *.
    assert (forall pkh, 0 <= recent_total d pkh height) as Hpos.
    { intros pkh. rewrite recent_total_sum, Hr by done. apply Z.min_glb; [done|].
      apply zsum_nonneg, Forall_fmap, Forall_forall. intros w _. by apply vtotal_nonneg. }
    destruct (net =? 0) eqn:Hz.
    { clear. unfold zsum. induction pkhs as [|p pkhs IH]; [done|]. cbn in *. lia. }
    assert (0 < net).
    { assert (0 <= zsum ((fun pkh => recent_total d pkh height) <$> pkhs)); [|lia].
      apply zsum_nonneg, Forall_fmap, Forall_forall. intros p _. apply Hpos. }
    etrans; [apply (zsum_le_ext _ (fun pkh => (recent_total d pkh height * 1000) `div` net)); intros p _; apply Z.le_min_l|].
    rewrite (list_fmap_compose (fun pkh => recent_total d pkh height) (fun x => (x * 1000) `div` net)).
    etrans; [apply zsum_div; [done|]; apply Forall_fmap, Forall_forall; intros p _; apply Hpos|].
    apply Z.div_le_upper_bound; [done|]. lia.
  - unfold u64 in Hs. unfold fairness_weight, as_u64.
    assert (forall x, 0 <= x -> 0 <= (score * 1000) `div` (1000 + x) <= score) as Hb.
    { intros x Hx. split; [apply Z.div_pos; lia|]. apply Z.div_le_upper_bound; [lia|]. nia. }
    rewrite !Z.mod_small by (pose proof (Hb share); pose proof (Hb share'); pose proof (Hb 0); lia).
    split_and!.
    + apply Z.div_le_lower_bound; [lia|]. pose proof (Z.mul_div_le score 2). nia.
    + apply Z.div_le_compat_l; lia.
    + apply Hb. lia.
    + rewrite Z.add_0_r, Z.div_mul by lia. done.
Qed.

(** The snapshot a miner fetches is faithful: reading the wire form of a
    dominance state gives that state, whatever the order of the buckets. *)
Theorem dominance_snapshot_roundtrip d :
  wire_dominance d -> dominance_from_bytes (dominance_to_bytes d) = Ok d.
Proof.
  intros Hd. pose proof Hd as (Hw & Hl & Hlen & _).
  pose proof (reads_snapshot d Hd [] []) as H. rewrite app_nil_r in H. cbn [app] in H.
  rewrite from_bytes_snapshot. change 0 with (len (@nil Z)). rewrite H by done. bind_simpl.
  change (len []) with 0. rewrite Z.add_0_l, Z.eqb_refl. cbn [negb].
  rewrite (foldl_insert_perm (buckets d)) by apply sorted_buckets_perm.
  unfold set_buckets, PersistentDominance_new. cbn. rewrite !Z.max_l by lia. by destruct d.
Qed.

(** ** Samples *)
Definition sample_events : list RewardEvent :=
  [(replicate 20 1, Primary, 55); (replicate 20 2, Compute, 22); (replicate 20 1, Support, 23)].
Definition sample_bucket : DominanceBucket :=
  {| db_primary := 0; db_compute := 0; db_verify := 7; db_support := 0; db_total := 7;
     db_valid_role_count := 1; db_last_reward_height := 3 |}.
Definition sample_dominance : PersistentDominance :=
  {| window_len := 10; lookback := 2; buckets := {[ (replicate 20 1, 0) := sample_bucket ]} |}.

Lemma sample_dominance_ok : dom_ok sample_dominance /\ fits sample_dominance sample_events 4 /\
  wire_dominance sample_dominance.
Proof.
  assert (buckets sample_dominance = {[ (replicate 20 1, 0) := sample_bucket ]}) as Hb by reflexivity.
  split_and!.
  - split; [done | done |]. rewrite Hb. intros k b [<- <-]%lookup_singleton_Some.
    split; [decided | done].
  - split; [decided|]. intros pkh. unfold view. rewrite Hb. cbn [vsum sample_events].
    change (window_id sample_dominance 4) with 0.
    destruct (decide (pkh = replicate 20 1)) as [->|H1]; [decided|].
    rewrite lookup_singleton_ne by (intros E; apply H1; by apply pair_eq in E as [<- _]).
    rewrite (bool_decide_false (replicate 20 1 = pkh)) by (by intros <-).
    destruct (bool_decide _); decided.
  - split_and!; [done..|]. rewrite Hb. apply map_Forall_singleton.
    decided.
Qed.

Lemma dominance_revert_restores_witness :
  weight (revert_events (apply_events sample_dominance sample_events 4) sample_events 4) 1000 (replicate 20 1) 4
  = weight sample_dominance 1000 (replicate 20 1) 4.
Proof.
  destruct sample_dominance_ok as (Hd & Hf & _).
  apply (dominance_revert_restores sample_dominance sample_events 4 1000 (replicate 20 1) 4 Hd); [done|done|exact Hf|done].
Defined.

Lemma dominance_weights_bounded_witness :
  zsum ((fun pkh => recent_reward_share_permille sample_dominance pkh 4) <$> [replicate 20 1; replicate 20 2]) <= 1000 /\
  1000 `div` 2 <= fairness_weight 1000 700 <= fairness_weight 1000 300 /\
  fairness_weight 1000 300 <= 1000 /\ fairness_weight 1000 0 = 1000.
Proof.
  destruct sample_dominance_ok as (Hd & _).
  apply (dominance_weights_bounded sample_dominance [replicate 20 1; replicate 20 2] 4 1000 300 700 Hd);
    [|vm_compute; reflexivity|done|done|done].
  decided.
Defined.

Lemma dominance_snapshot_roundtrip_witness :
  dominance_from_bytes (dominance_to_bytes sample_dominance) = Ok sample_dominance.
Proof. apply (dominance_snapshot_roundtrip sample_dominance), sample_dominance_ok. Defined.
