(* ===== verification/Penalty.v ===== *)
(** * Penalty: misbehaviour and slashing ([src/src/poawx_penalty.rs])

    [PersistentPenalty] records the offences that accepted fraud proofs have
    shown and slashes the offenders; the chain applies the offences of a block
    when it is connected and reverts them when it is disconnected.

    Shown here: an identity is slashed exactly while an offence of it is on
    record; reverting the offences of a block restores the offences and the
    standing of everyone; the record's wire form is faithful; and what is not
    restored, though the comments say so. *)

From stdpp Require Import sorting.
From S2P Require Import Prelude Crypto TxCodec Activation Ledger.

(** ** Gates *)
Section gates.
Context (env : Env).

Definition penalty_state_activation_height : option Z :=
  env_u64 env "IRIUM_POAWX_PENALTY_STATE_ACTIVATION_HEIGHT".
Definition penalty_gate (network_id : Z) (activation : option Z) (height : Z) : bool :=
  active_at (poawx_effective_activation network_id activation) height.
Definition penalty_state_active (height : Z) : bool :=
  penalty_gate (network_id_byte env) penalty_state_activation_height height.
Definition penalty_state_required : bool :=
  if network_id_byte env =? 0 then true else
  env_flag env "IRIUM_POAWX_PENALTY_STATE_REQUIRED".
Definition penalty_state_enforced (height : Z) : bool := penalty_state_active height && penalty_state_required.
End gates.

(** ** Status *)
Inductive PenaltyStatus :=
| Clean | Warned | TemporarilyReduced | SuspendedForEpoch | SlashedPlaceholder | Slashed.

#[export] Instance PenaltyStatus_eq_dec : EqDecision PenaltyStatus.
Proof. solve_decision. Defined.

Definition status_id (s : PenaltyStatus) : Z :=
  match s with
  | Clean => 0 | Warned => 1 | TemporarilyReduced => 2 | SuspendedForEpoch => 3
  | SlashedPlaceholder => 4 | Slashed => 5
  end.

Definition status_from_id (b : Z) : option PenaltyStatus :=
  if b =? 0 then Some Clean else if b =? 1 then Some Warned else if b =? 2 then Some TemporarilyReduced else
  if b =? 3 then Some SuspendedForEpoch else if b =? 4 then Some SlashedPlaceholder else
  if b =? 5 then Some Slashed else None.

Definition eligible_for_high_trust_role (s : PenaltyStatus) : bool :=
  match s with Clean | Warned | TemporarilyReduced => true | _ => false end.

Definition weight_multiplier_permille (s : PenaltyStatus) : Z :=
  match s with
  | Clean | Warned => 1000 | TemporarilyReduced => 500
  | SuspendedForEpoch | SlashedPlaceholder | Slashed => 0
  end.

Record PenaltyThresholds := { warn_at : Z; reduce_at : Z; suspend_at : Z; suspend_epochs : Z }.

Definition PenaltyThresholds_default : PenaltyThresholds :=
  {| warn_at := 1; reduce_at := 3; suspend_at := 5; suspend_epochs := 1 |}.

(** ** The record of an identity *)
Record PenaltyRecord := {
  pr_status : PenaltyStatus;
  pr_invalid_count : Z;
  pr_valid_count : Z;
  pr_suspended_until_epoch : Z;
  pr_last_update_height : Z;
  pr_slash_count : Z
}.

Definition PenaltyRecord_default : PenaltyRecord :=
  {| pr_status := Clean; pr_invalid_count := 0; pr_valid_count := 0; pr_suspended_until_epoch := 0;
     pr_last_update_height := 0; pr_slash_count := 0 |}.

Definition record_valid_work (r : PenaltyRecord) (height : Z) : PenaltyRecord :=
  {| pr_status := pr_status r; pr_invalid_count := pr_invalid_count r;
     pr_valid_count := sat_add32 (pr_valid_count r) 1;
     pr_suspended_until_epoch := pr_suspended_until_epoch r; pr_last_update_height := height;
     pr_slash_count := pr_slash_count r |}.

Definition record_invalid_work (r : PenaltyRecord) (height epoch : Z) (t : PenaltyThresholds) : PenaltyRecord :=
  let invalid_count := sat_add32 (pr_invalid_count r) 1 in
  let '(status, until) :=
    if suspend_at t <=? invalid_count then (SuspendedForEpoch, sat_add64 epoch (suspend_epochs t))
    else if reduce_at t <=? invalid_count then (TemporarilyReduced, pr_suspended_until_epoch r)
    else if warn_at t <=? invalid_count then (Warned, pr_suspended_until_epoch r)
    else (pr_status r, pr_suspended_until_epoch r) in
  {| pr_status := status; pr_invalid_count := invalid_count; pr_valid_count := pr_valid_count r;
     pr_suspended_until_epoch := until; pr_last_update_height := height;
     pr_slash_count := pr_slash_count r |}.

Definition set_status (r : PenaltyRecord) (s : PenaltyStatus) : PenaltyRecord :=
  {| pr_status := s; pr_invalid_count := pr_invalid_count r; pr_valid_count := pr_valid_count r;
     pr_suspended_until_epoch := pr_suspended_until_epoch r; pr_last_update_height := pr_last_update_height r;
     pr_slash_count := pr_slash_count r |}.

Definition expire_if_due (r : PenaltyRecord) (current_epoch : Z) : PenaltyRecord :=
  if bool_decide (pr_status r = SuspendedForEpoch) && (pr_suspended_until_epoch r <=? current_epoch)
  then set_status r Warned else r.

Definition slash (r : PenaltyRecord) (height : Z) : PenaltyRecord :=
  {| pr_status := Slashed; pr_invalid_count := pr_invalid_count r; pr_valid_count := pr_valid_count r;
     pr_suspended_until_epoch := pr_suspended_until_epoch r;
     pr_last_update_height := if pr_last_update_height r <? height then height else pr_last_update_height r;
     pr_slash_count := sat_add32 (pr_slash_count r) 1 |}.

Definition unslash (r : PenaltyRecord) : PenaltyRecord :=
  let slash_count := sat_sub (pr_slash_count r) 1 in
  {| pr_status := if (slash_count =? 0) && bool_decide (pr_status r = Slashed) then Clean else pr_status r;
     pr_invalid_count := pr_invalid_count r; pr_valid_count := pr_valid_count r;
     pr_suspended_until_epoch := pr_suspended_until_epoch r; pr_last_update_height := pr_last_update_height r;
     pr_slash_count := slash_count |}.

Definition PENALTY_RECORD_WIRE : Z := 29.

Definition serialize_record (r : PenaltyRecord) : bytes :=
  [status_id (pr_status r)] ++ le_bytes 4 (pr_invalid_count r) ++ le_bytes 4 (pr_valid_count r)
  ++ le_bytes 8 (pr_suspended_until_epoch r) ++ le_bytes 8 (pr_last_update_height r)
  ++ le_bytes 4 (pr_slash_count r).

Definition deserialize_record (raw : bytes) : res string PenaltyRecord :=
  if negb (len raw =? PENALTY_RECORD_WIRE) then Err "penalty record: bad length"%string else
  b ← idx raw 0;
  status ← ok_or (status_from_id b) "penalty record: bad status"%string;
  invalid_count ← slice raw 1 5;
  valid_count ← slice raw 5 9;
  suspended_until_epoch ← slice raw 9 17;
  last_update_height ← slice raw 17 25;
  slash_count ← slice raw 25 29;
  Ok {| pr_status := status; pr_invalid_count := le_val invalid_count; pr_valid_count := le_val valid_count;
        pr_suspended_until_epoch := le_val suspended_until_epoch;
        pr_last_update_height := le_val last_update_height; pr_slash_count := le_val slash_count |}.

(** ** The state on the chain *)
Abbreviation Offence := (bytes * Z * Z)%type.

Record PersistentPenalty := {
  records : gmap bytes PenaltyRecord;
  offences : gset Offence
}.

Definition PersistentPenalty_new : PersistentPenalty := {| records := ∅; offences := ∅ |}.

Definition recent_offence_count (s : PersistentPenalty) (since_height : Z) : Z :=
  Z.of_nat (size (filter (fun o => since_height <= o.1.2) (offences s))).

Definition penalty_status (s : PersistentPenalty) (pkh : bytes) : PenaltyStatus :=
  match records s !! pkh with Some r => pr_status r | None => Clean end.

Definition is_slashed (s : PersistentPenalty) (pkh : bytes) : bool :=
  bool_decide (penalty_status s pkh = Slashed).

Definition is_offence_recorded (s : PersistentPenalty) (offender : bytes) (target_height kind : Z) : bool :=
  bool_decide ((offender, target_height, kind) ∈ offences s).

Definition apply_slash (s : PersistentPenalty) (offender : bytes) (target_height kind height : Z)
    : PersistentPenalty :=
  let o := (offender, target_height, kind) in
  if bool_decide (o ∈ offences s) then s else
  {| offences := {[o]} ∪ offences s;
     records := <[offender := slash (from_option id PenaltyRecord_default (records s !! offender)) height]>
                  (records s) |}.

Definition revert_slash (s : PersistentPenalty) (offender : bytes) (target_height kind : Z) : PersistentPenalty :=
  let o := (offender, target_height, kind) in
  if bool_decide (o ∈ offences s) then
    {| offences := offences s ∖ {[o]};
       records := match records s !! offender with
                  | Some rec =>
                      let rec := unslash rec in
                      if pr_slash_count rec =? 0 then delete offender (records s)
                      else <[offender := rec]> (records s)
                  | None => records s
                  end |}
  else s.

(** [BTreeSet] and [BTreeMap] order. *)
Definition offence_le (a b : Offence) : Prop :=
  bytes_ltb b.1.1 a.1.1 = false /\ (a.1.1 = b.1.1 -> a.1.2 < b.1.2 \/ a.1.2 = b.1.2 /\ a.2 <= b.2).
#[export] Instance offence_le_dec : RelDecision offence_le.
Proof. unfold offence_le. intros a b. apply _. Defined.

Definition record_le (a b : bytes * PenaltyRecord) : Prop := bytes_ltb b.1 a.1 = false.
#[export] Instance record_le_dec : RelDecision record_le.
Proof. unfold record_le. intros a b. apply _. Defined.

Definition PENALTY_DIGEST_TAG : bytes := byte_string "IRIUM_POAWX_PENALTY_STATE_V1".

(** The bytes [digest] hashes. *)
Definition digest_input (s : PersistentPenalty) : bytes :=
  PENALTY_DIGEST_TAG ++ le_bytes 8 (Z.of_nat (size (offences s)))
  ++ concat ((fun '(pkh, height, kind) => pkh ++ le_bytes 8 height ++ [kind])
               <$> merge_sort offence_le (elements (offences s)))
  ++ le_bytes 8 (Z.of_nat (size (records s)))
  ++ concat ((fun '(pkh, rec) => pkh ++ serialize_record rec) <$> merge_sort record_le (map_to_list (records s))).

Definition penalty_digest `{C : Crypto} (s : PersistentPenalty) : bytes := sha256 (digest_input s).

(** The loops of [apply_block_fraud_slashing] and [revert_block_fraud_slashing]. *)
Definition apply_slashes (s : PersistentPenalty) (evs : list Offence) (height : Z) : PersistentPenalty :=
  foldl (fun s '(offender, target_height, kind) => apply_slash s offender target_height kind height) s evs.
Definition revert_slashes (s : PersistentPenalty) (evs : list Offence) : PersistentPenalty :=
  foldl (fun s '(offender, target_height, kind) => revert_slash s offender target_height kind) s evs.

(** ** The records follow the offences *)
Definition offences_of (s : PersistentPenalty) (pkh : bytes) : gset Offence :=
  filter (fun o => o.1.1 = pkh) (offences s).

Record penalty_ok (s : PersistentPenalty) : Prop := {
  pk_some : forall pkh r, records s !! pkh = Some r ->
    pr_status r = Slashed /\ pr_slash_count r = Z.of_nat (size (offences_of s pkh)) /\ 0 < pr_slash_count r;
  pk_none : forall pkh, records s !! pkh = None -> offences_of s pkh = ∅;
  pk_width : Z.of_nat (size (offences s)) <= U32_MAX
}.

Lemma penalty_ok_new : penalty_ok PersistentPenalty_new.
Proof. split; [done | | done]. intros pkh _. unfold offences_of. cbn. set_solver. Qed.

Lemma offences_of_union s o pkh : o ∉ offences s ->
  offences_of {| records := records s; offences := {[o]} ∪ offences s |} pkh =
    if bool_decide (o.1.1 = pkh) then {[o]} ∪ offences_of s pkh else offences_of s pkh.
Proof. intros Ho. unfold offences_of. cbn. case_bool_decide; set_solver. Qed.

Lemma offences_of_difference s o pkh :
  offences_of {| records := records s; offences := offences s ∖ {[o]} |} pkh = offences_of s pkh ∖ {[o]}.
Proof. unfold offences_of. cbn. set_solver. Qed.

Lemma offences_of_subset s pkh : (size (offences_of s pkh) <= size (offences s))%nat.
Proof. apply subseteq_size. unfold offences_of. set_solver. Qed.

Lemma apply_slash_ok s offender th kind height :
  penalty_ok s -> Z.of_nat (size (offences s)) < U32_MAX -> penalty_ok (apply_slash s offender th kind height).
Proof.
  intros [Hs Hn Hw] Hlt. unfold apply_slash. set (o := (offender, th, kind)). case_bool_decide as Ho; [done|].
  assert (size ({[o]} ∪ offences s) = S (size (offences s))) as Hsz
    by (rewrite size_union, size_singleton by set_solver; done).
  assert (forall pkh, size (offences_of {| records := records s; offences := {[o]} ∪ offences s |} pkh) =
    if bool_decide (offender = pkh) then S (size (offences_of s pkh)) else size (offences_of s pkh)) as Hof.
  { intros pkh. rewrite offences_of_union by done. cbn. case_bool_decide; [|done].
    rewrite size_union, size_singleton; [done|]. unfold offences_of. set_solver. }
  split; cbn.
  - intros pkh r [[<- <-]|[Hne Hr]]%lookup_insert_Some.
    + change (offences_of _ offender) with (offences_of {| records := records s; offences := {[o]} ∪ offences s |} offender).
      rewrite Hof, bool_decide_true by done. cbn. pose proof (offences_of_subset s offender).
      unfold sat_add32. destruct (records s !! offender) as [r|] eqn:Hr; cbn.
      * destruct (Hs _ _ Hr) as (_ & -> & _). split_and!; [done|..]; lia.
      * rewrite (Hn _ Hr), size_empty. split_and!; [done | unfold U32_MAX; lia..].
    + change (offences_of _ pkh) with (offences_of {| records := records s; offences := {[o]} ∪ offences s |} pkh).
      rewrite Hof, bool_decide_false by done. by apply Hs.
  - intros pkh [Hr Hne]%lookup_insert_None.
    change (offences_of _ pkh) with (offences_of {| records := records s; offences := {[o]} ∪ offences s |} pkh).
    rewrite offences_of_union, bool_decide_false by done. by apply Hn.
  - rewrite Hsz. lia.
Qed.

Lemma revert_slash_ok s offender th kind : penalty_ok s -> penalty_ok (revert_slash s offender th kind).
Proof.
  intros [Hs Hn Hw]. unfold revert_slash. set (o := (offender, th, kind)). case_bool_decide as Ho; [|done].
  assert (o ∈ offences_of s offender) as Hin by (unfold offences_of; set_solver).
  assert (forall pkh rs, offences_of {| records := rs; offences := offences s ∖ {[o]} |} pkh
    = offences_of s pkh ∖ {[o]}) as Hof by (intros pkh rs; apply (offences_of_difference s)).
  assert (size (offences_of s offender ∖ {[o]}) = (size (offences_of s offender) - 1)%nat) as Hsz.
  { rewrite size_difference by set_solver. by rewrite size_singleton. }
  assert (forall pkh, pkh <> offender -> offences_of s pkh ∖ {[o]} = offences_of s pkh) as Hother.
  { intros pkh Hne. unfold offences_of. set_solver. }
  destruct (records s !! offender) as [r|] eqn:Hr; [|by rewrite (Hn _ Hr), elem_of_empty in Hin].
  destruct (Hs _ _ Hr) as (Hst & Hcnt & Hpos).
  split.
  - intros pkh r' Hr'. cbn [records] in Hr'. rewrite Hof.
    destruct (pr_slash_count (unslash r) =? 0) eqn:Hz.
    + apply lookup_delete_Some in Hr' as [Hne Hr']. rewrite Hother by done. by apply Hs.
    + apply lookup_insert_Some in Hr' as [[<- <-]|[Hne Hr']]; [|rewrite Hother by done; by apply Hs].
      rewrite Hsz. unfold unslash, sat_sub in *. cbn in *. rewrite Hz, Hst. cbn. split_and!; [done|lia|lia].
  - intros pkh Hr'. cbn [records] in Hr'. rewrite Hof.
    destruct (pr_slash_count (unslash r) =? 0) eqn:Hz.
    + apply lookup_delete_None in Hr' as [<-|Hr'].
      * apply leibniz_equiv, size_empty_inv. rewrite Hsz.
        unfold unslash, sat_sub in Hz. cbn in Hz. lia.
      * rewrite (Hn _ Hr'). set_solver.
    + apply lookup_insert_None in Hr' as [Hr' Hne]. rewrite Hother by done. by apply Hn.
  - cbn. pose proof (subseteq_size (offences s ∖ {[o]}) (offences s) ltac:(set_solver)). lia.
Qed.

Lemma penalty_status_spec s pkh : penalty_ok s ->
  penalty_status s pkh = if bool_decide (offences_of s pkh = ∅) then Clean else Slashed.
Proof.
  intros [Hs Hn _]. unfold penalty_status. destruct (records s !! pkh) as [r|] eqn:Hr.
  - destruct (Hs _ _ Hr) as (-> & Hc & Hp). rewrite bool_decide_false; [done|]. intros E.
    rewrite E, size_empty in Hc. lia.
  - by rewrite bool_decide_true by (by apply Hn).
Qed.

(** *** Blocks of offences *)
Lemma offences_apply_slashes height evs : forall s,
  offences (apply_slashes s evs height) = list_to_set evs ∪ offences s.
Proof.
  induction evs as [|[[p th] k] evs IH]; intros s; cbn; [set_solver|].
  change (offences (apply_slashes (apply_slash s p th k height) evs height)
    = {[(p, th, k)]} ∪ list_to_set evs ∪ offences s).
  rewrite IH. unfold apply_slash. case_bool_decide; cbn; set_solver.
Qed.

Lemma offences_revert_slashes evs : forall s,
  offences (revert_slashes s evs) = offences s ∖ list_to_set evs.
Proof.
  induction evs as [|[[p th] k] evs IH]; intros s; cbn; [set_solver|].
  change (offences (revert_slashes (revert_slash s p th k) evs)
    = offences s ∖ ({[(p, th, k)]} ∪ list_to_set evs)).
  rewrite IH. unfold revert_slash. case_bool_decide; cbn; set_solver.
Qed.

Lemma apply_slashes_ok height evs : forall s,
  penalty_ok s -> Z.of_nat (size (offences s)) + len evs <= U32_MAX -> penalty_ok (apply_slashes s evs height).
Proof.
  induction evs as [|[[p th] k] evs IH]; intros s Hs Hw; [done|]. rewrite len_cons in Hw.
  pose proof (len_nonneg evs). apply IH; [apply apply_slash_ok; [done|lia]|].
  unfold apply_slash. case_bool_decide; [lia|]. cbn.
  pose proof (size_union_alt ({[(p, th, k)]} : gset Offence) (offences s)) as E.
  rewrite E, size_singleton. pose proof (subseteq_size (offences s ∖ {[(p, th, k)]}) (offences s) ltac:(set_solver)). lia.
Qed.

Lemma revert_slashes_ok evs : forall s, penalty_ok s -> penalty_ok (revert_slashes s evs).
Proof. induction evs as [|[[p th] k] evs IH]; intros s Hs; [done|]. by apply IH, revert_slash_ok. Qed.

Lemma revert_apply_slashes s evs height :
  penalty_ok s -> Z.of_nat (size (offences s)) + len evs <= U32_MAX -> Forall (fun o => o ∉ offences s) evs ->
  let s' := revert_slashes (apply_slashes s evs height) evs in penalty_ok s' /\ offences s' = offences s.
Proof.
  intros Hs Hw Hf s'. split; [by apply revert_slashes_ok, apply_slashes_ok|].
  unfold s'. rewrite offences_revert_slashes, offences_apply_slashes.
  rewrite Forall_forall in Hf. apply set_eq. intros o. rewrite elem_of_difference, elem_of_union, elem_of_list_to_set.
  split; [tauto|]. intros Ho. split; [tauto|]. intros Hin. by apply (Hf o).
Qed.

(** ** The theorems *)

(** The penalty states of a chain: offences come and go with blocks. *)
Inductive penalty_run : PersistentPenalty -> Prop :=
| penalty_start : penalty_run PersistentPenalty_new
| penalty_slash s offender th kind height :
    penalty_run s -> Z.of_nat (size (offences s)) < U32_MAX ->
    penalty_run (apply_slash s offender th kind height)
| penalty_unslash s offender th kind : penalty_run s -> penalty_run (revert_slash s offender th kind).

Lemma penalty_run_ok s : penalty_run s -> penalty_ok s.
Proof.
  induction 1; [apply penalty_ok_new | by apply apply_slash_ok | by apply revert_slash_ok].
Qed.

(** Slashing follows the offences: over any sequence of blocks connected and
    disconnected, an identity is slashed exactly while an offence of it is on
    record, is then kept out of high-trust roles, and is clean otherwise. *)
Theorem slashed_while_on_record s pkh :
  penalty_run s ->
  (is_slashed s pkh = true <-> exists th kind, is_offence_recorded s pkh th kind = true) /\
  penalty_status s pkh = (if is_slashed s pkh then Slashed else Clean) /\
  eligible_for_high_trust_role (penalty_status s pkh) = negb (is_slashed s pkh).
Proof.
  intros Hs%penalty_run_ok. unfold is_slashed. rewrite penalty_status_spec by done.
  destruct (decide (offences_of s pkh = ∅)) as [He|He];
    [rewrite !(bool_decide_true _ He) | rewrite !(bool_decide_false _ He)]; (split; [|split; reflexivity]).
  - split; [done|]. intros (th & kind & Ho%bool_decide_eq_true).
    assert ((pkh, th, kind) ∈ offences_of s pkh) as Hin by (by apply elem_of_filter).
    by rewrite He, elem_of_empty in Hin.
  - split; [|done]. intros _. apply set_choose_L in He as [[[p th] kind] Ho].
    unfold offences_of in Ho. apply elem_of_filter in Ho as [Hp Ho]. cbn in Hp. subst p.
    exists th, kind. by apply bool_decide_eq_true.
Qed.

Lemma slashed_while_on_record_witness :
  let s := apply_slash PersistentPenalty_new (replicate 20 1) 7 2 9 in
  (is_slashed s (replicate 20 1) = true <->
    exists th kind, is_offence_recorded s (replicate 20 1) th kind = true) /\
  penalty_status s (replicate 20 1) = (if is_slashed s (replicate 20 1) then Slashed else Clean) /\
  eligible_for_high_trust_role (penalty_status s (replicate 20 1)) = negb (is_slashed s (replicate 20 1)).
Proof.
  intros s. apply (slashed_while_on_record s (replicate 20 1)).
  apply penalty_slash; [apply penalty_start | done].
Defined.

(** Disconnecting a block takes its offences back: when none of them was on
    record before, as the check of fraud proofs makes sure, reverting them
    right after they were applied restores the offences and with them the
    status of every identity. *)
Theorem penalty_revert_restores s evs height pkh :
  penalty_ok s -> Z.of_nat (size (offences s)) + len evs <= U32_MAX ->
  Forall (fun '(p, th, k) => is_offence_recorded s p th k = false) evs ->
  let s' := revert_slashes (apply_slashes s evs height) evs in
  offences s' = offences s /\ penalty_status s' pkh = penalty_status s pkh /\
  forall since, recent_offence_count s' since = recent_offence_count s since.
Proof.
  intros Hs Hw Hf s'. destruct (revert_apply_slashes s evs height Hs Hw) as [Hs' Ho].
  { eapply Forall_impl; [exact Hf|]. by intros [[p th] k] H%bool_decide_eq_false. }
  fold s' in Hs', Ho. split; [done|]. split.
  - rewrite !penalty_status_spec by done. unfold offences_of. by rewrite Ho.
  - intros since. unfold recent_offence_count. by rewrite Ho.
Qed.

Definition one_offence : PersistentPenalty := apply_slash PersistentPenalty_new (replicate 20 1) 3 1 5.

Lemma one_offence_ok : penalty_ok one_offence.
Proof. apply apply_slash_ok; [apply penalty_ok_new | done]. Qed.

Lemma penalty_revert_restores_witness :
  let evs := [(replicate 20 1, 7, 2); (replicate 20 4, 7, 1)] in
  let s' := revert_slashes (apply_slashes one_offence evs 9) evs in
  offences s' = offences one_offence /\ penalty_status s' (replicate 20 1) = penalty_status one_offence (replicate 20 1) /\
  forall since, recent_offence_count s' since = recent_offence_count one_offence since.
Proof.
  intros evs. apply (penalty_revert_restores one_offence evs 9 (replicate 20 1) one_offence_ok).
  - vm_compute. discriminate.
  - repeat constructor; vm_compute; reflexivity.
Defined.

(** What is not taken back: after a second offence of an identity has been
    applied and reverted, the record still has the height of the reverted block,
    and the state no longer hashes the same bytes; so two nodes with the same
    chain can have different digests, though the code calls the revert an exact
    inverse and the digest canonical. *)
Theorem penalty_revert_leaves_height :
  let s := revert_slash (apply_slash one_offence (replicate 20 1) 7 2 9) (replicate 20 1) 7 2 in
  offences s = offences one_offence /\ digest_input s <> digest_input one_offence.
Proof. split; decided. Qed.

Lemma status_from_to_id st : status_from_id (status_id st) = Some st.
Proof. by destruct st. Qed.

Lemma status_to_from_id b st : status_from_id b = Some st -> status_id st = b.
Proof.
  unfold status_from_id. intros H.
  repeat (case_match; [simplify_eq; cbn; lia|]). done.
Qed.

(** The record's wire form is faithful in both directions: reading what was
    written gives the record, and what can be read is what is written. *)
Theorem penalty_record_roundtrip r raw :
  u32 (pr_invalid_count r) -> u32 (pr_valid_count r) -> u64 (pr_suspended_until_epoch r) ->
  u64 (pr_last_update_height r) -> u32 (pr_slash_count r) -> wf_bytes raw ->
  deserialize_record (serialize_record r) = Ok r /\
  (forall r', deserialize_record raw = Ok r' -> serialize_record r' = raw).
Proof.
  intros H1 H2 H3 H4 H5 Hw. split.
  - unfold deserialize_record, serialize_record.
    replace (negb _) with false by (by rewrite !len_app, !len_le_bytes).
    repeat parse_step. rewrite status_from_to_id. bind_simpl. repeat parse_step.
    rewrite !le_val_u32, !le_val_u64 by done. by destruct r.
  - intros r' H. unfold deserialize_record in H. invert_parser H. injection H as <-.
    destruct (status_from_id a) as [st|] eqn:Hst; [|done]. injection Heqr1 as <-.
    apply status_to_from_id in Hst. unfold serialize_record. cbn [pr_status pr_invalid_count pr_valid_count
      pr_suspended_until_epoch pr_last_update_height pr_slash_count].
    rewrite Hst, !(le_bytes_val_n 4), !(le_bytes_val_n 8) by (eapply slice_arr; [exact Hw | eassumption | reflexivity]).
    apply negb_false_iff, Z.eqb_eq in Heqb.
    eapply (slice_full_inv (E := string)).
    + eapply slice_cat; [eapply idx_slice; [eassumption | reflexivity]|].
      repeat (eapply slice_cat; [eassumption|]). eassumption.
    + unfold PENALTY_RECORD_WIRE in Heqb. lia.
Qed.

Lemma penalty_record_roundtrip_witness :
  deserialize_record (serialize_record (slash PenaltyRecord_default 9)) = Ok (slash PenaltyRecord_default 9) /\
  (forall r', deserialize_record (replicate 29 0) = Ok r' -> serialize_record r' = replicate 29 0).
Proof. apply (penalty_record_roundtrip (slash PenaltyRecord_default 9) (replicate 29 0)); try done. decided. Defined.
