(* ===== verification/Adaptive.v ===== *)
(** * Adaptive: the node's security posture ([src/src/poawx_adaptive.rs])

    A state machine over four modes, driven by signals observed on the chain.
    The posture is advice: no block is refused because of it.

    Shown here: which signals lead where, from every mode; that the policy is
    never laxer under attack; and that leaving [Defense] does not always pass
    through [Recovery]. *)

From S2P Require Import Prelude Activation.

Inductive AdaptiveMode := Normal | Caution | Defense | Recovery.

#[export] Instance AdaptiveMode_eq_dec : EqDecision AdaptiveMode.
Proof. solve_decision. Defined.

Definition mode_as_str (m : AdaptiveMode) : string :=
  match m with Normal => "normal" | Caution => "caution" | Defense => "defense" | Recovery => "recovery" end.

Record NetworkSignals := {
  active_miner_count : Z;
  ns_valid_role_count : Z;
  recent_invalid_work : Z;
  recent_reorg_signal : Z;
  reward_concentration_permille : Z;
  finality_available : bool
}.

Record AdaptivePolicy := {
  ap_mode : AdaptiveMode;
  confirmation_multiplier : Z;
  stricter_verification : bool;
  require_ticket_threshold : bool;
  require_finality : bool;
  role_fallback : bool
}.

Definition CAUTION_MIN_MINERS : Z := 3.
Definition CAUTION_MIN_ROLES : Z := 3.
Definition DEFENSE_INVALID_WORK : Z := 5.
Definition DEFENSE_REORG_SIGNAL : Z := 2.
Definition DEFENSE_CONCENTRATION_PERMILLE : Z := 700.

Definition can_produce_block (s : NetworkSignals) : bool := 1 <=? active_miner_count s.

Definition is_defense (s : NetworkSignals) : bool :=
  (DEFENSE_INVALID_WORK <=? recent_invalid_work s) || (DEFENSE_REORG_SIGNAL <=? recent_reorg_signal s)
  || (DEFENSE_CONCENTRATION_PERMILLE <=? reward_concentration_permille s).

Definition is_low_participation (s : NetworkSignals) : bool :=
  (active_miner_count s <? CAUTION_MIN_MINERS) || (ns_valid_role_count s <? CAUTION_MIN_ROLES).

Definition is_stable (s : NetworkSignals) : bool :=
  (recent_invalid_work s =? 0) && (recent_reorg_signal s =? 0)
  && (reward_concentration_permille s <? DEFENSE_CONCENTRATION_PERMILLE).

Definition policy_for (mode : AdaptiveMode) : AdaptivePolicy :=
  match mode with
  | Normal => {| ap_mode := mode; confirmation_multiplier := 1; stricter_verification := false;
                 require_ticket_threshold := false; require_finality := false; role_fallback := false |}
  | Caution => {| ap_mode := mode; confirmation_multiplier := 2; stricter_verification := false;
                  require_ticket_threshold := false; require_finality := false; role_fallback := true |}
  | Defense => {| ap_mode := mode; confirmation_multiplier := 4; stricter_verification := true;
                  require_ticket_threshold := true; require_finality := true; role_fallback := true |}
  | Recovery => {| ap_mode := mode; confirmation_multiplier := 2; stricter_verification := true;
                   require_ticket_threshold := true; require_finality := false; role_fallback := true |}
  end.

Definition assess (s : NetworkSignals) (prior_mode : AdaptiveMode) : AdaptivePolicy :=
  if is_defense s then policy_for Defense else
  if bool_decide (prior_mode = Defense) && is_stable s then policy_for Recovery else
  if is_low_participation s then policy_for Caution else
  if bool_decide (prior_mode = Recovery) then
    if is_stable s then policy_for Normal else policy_for Recovery
  else policy_for Normal.

Definition adaptive_mode_activation_height (env : Env) : option Z :=
  env_u64 env "IRIUM_POAWX_ADAPTIVE_MODE_ACTIVATION_HEIGHT".
Definition adaptive_mode_gate (network_id : Z) (activation : option Z) (height : Z) : bool :=
  active_at (poawx_effective_activation network_id activation) height.
Definition adaptive_mode_active (env : Env) (height : Z) : bool :=
  adaptive_mode_gate (network_id_byte env) (adaptive_mode_activation_height env) height.

(** One round over signals that do not change. *)
Fixpoint settle (n : nat) (s : NetworkSignals) (m : AdaptiveMode) : AdaptiveMode :=
  match n with O => m | S n => settle n s (ap_mode (assess s m)) end.

(** ** The theorems *)

(** The posture reacts and calms down: signals of attack lead to [Defense]
    from every mode, and only they do; when the signals are clean and enough
    miners take part, every mode is back to [Normal] within two rounds, passing
    through [Recovery] from [Defense]; with too few miners it comes to rest in
    [Caution], where blocks are still produced; and a mode with a stricter
    verification always has the longer confirmations. *)
Theorem adaptive_posture s m :
  (ap_mode (assess s m) = Defense <-> is_defense s = true) /\
  (is_stable s = true -> is_low_participation s = false ->
     settle 2 s m = Normal /\ (m = Defense -> ap_mode (assess s m) = Recovery)) /\
  (is_stable s = true -> is_low_participation s = true -> settle 2 s m = Caution) /\
  (stricter_verification (assess s m) = true -> 2 <= confirmation_multiplier (assess s m)).
Proof.
  assert (is_stable s = true -> is_defense s = false) as Hsd.
  { unfold is_stable, is_defense, DEFENSE_INVALID_WORK, DEFENSE_REORG_SIGNAL, DEFENSE_CONCENTRATION_PERMILLE. lia. }
  split_and!.
  - unfold assess. destruct (is_defense s), m, (is_stable s), (is_low_participation s); cbn; split; done.
  - intros Hs Hl. unfold settle, assess. rewrite Hl, Hs, (Hsd Hs). by destruct m.
  - intros Hs Hl. unfold settle, assess. rewrite Hl, Hs, (Hsd Hs). by destruct m.
  - unfold assess. destruct (is_defense s), m, (is_stable s), (is_low_participation s); cbn; done || lia.
Qed.

Definition calm : NetworkSignals :=
  {| active_miner_count := 5; ns_valid_role_count := 4; recent_invalid_work := 0; recent_reorg_signal := 0;
     reward_concentration_permille := 300; finality_available := true |}.

Lemma adaptive_posture_witness :
  (ap_mode (assess calm Defense) = Defense <-> is_defense calm = true) /\
  (is_stable calm = true -> is_low_participation calm = false ->
     settle 2 calm Defense = Normal /\ (Defense = Defense -> ap_mode (assess calm Defense) = Recovery)) /\
  (is_stable calm = true -> is_low_participation calm = true -> settle 2 calm Defense = Caution) /\
  (stricter_verification (assess calm Defense) = true -> 2 <= confirmation_multiplier (assess calm Defense)).
Proof. exact (adaptive_posture calm Defense). Defined.

(** [Defense] can be left without recovery: while some invalid work is
    still seen, too little for [Defense] but too much for calm, the posture
    falls from [Defense] to [Normal] at once, although signals that are calm
    would have kept it in [Recovery] for a round. *)
Theorem defense_falls_to_normal s :
  is_defense s = false -> is_stable s = false -> is_low_participation s = false ->
  ap_mode (assess s Defense) = Normal.
Proof. intros H1 H2 H3. unfold assess. by rewrite H1, H2, H3. Qed.

Lemma defense_falls_to_normal_witness :
  ap_mode (assess {| active_miner_count := 5; ns_valid_role_count := 4; recent_invalid_work := 4;
                     recent_reorg_signal := 1; reward_concentration_permille := 699;
                     finality_available := true |} Defense) = Normal.
Proof. apply (defense_falls_to_normal _); reflexivity. Defined.
