(* ===== verification/Proposer.v ===== *)
(** * Proposer: who may propose a block ([src/src/poawx_proposer.rs])

    Under PoAW-X a lottery decides who may propose at a height: the output of a
    verifiable random function gives a priority, and a proposer is admitted at
    a round of the cascade when its priority is below the threshold of the
    round.  The lottery is held among the keys of the
    [ProposerEligibilityRegistry], frozen some blocks before the height.

    Also here: the gates and parameters of the fork choice, which
    [poawx_proposer.rs] keeps.

    Shown here: the cascade only widens with the rounds and its last round
    admits everyone but one priority; a round cannot be claimed before its
    time; what is registered within the freeze depth of a height does not
    change who is eligible there; registering and unregistering a key are
    inverse. *)

From stdpp Require Import sorting.
From S2P Require Import Prelude Activation.

(** ** The cascade *)
Definition ROLE_PROPOSER : Z := 0.
Definition DEFAULT_PROPOSER_FREEZE_DEPTH : Z := 16.
Definition DEFAULT_PROPOSER_ROUND_INTERVAL_SECS : Z := 120.

Definition cumulative_slots (round eligible_count : Z) : Z :=
  let cum := if round =? 0 then 1 else if round =? 1 then 4 else if round =? 2 then 14 else U64_MAX in
  Z.min cum (Z.max eligible_count 1).

(** [poawx_candidate.rs]: the first eight bytes, little-endian. *)
Definition assignment_v2_score_from_output (vrf_output : bytes) : Z := le_val (take 8 vrf_output).

Definition proposer_priority (vrf_output : bytes) : Z := assignment_v2_score_from_output vrf_output.

Definition proposer_threshold (eligible_count round : Z) : Z :=
  let n := Z.max eligible_count 1 in
  let slots := cumulative_slots round n in
  if n <=? slots then U64_MAX else sat_mul64 (U64_MAX / n) slots.

Definition is_selected (priority eligible_count round : Z) : bool :=
  priority <? proposer_threshold eligible_count round.

Definition min_time_for_round (parent_time round round_interval_secs : Z) : Z :=
  let add := sat_mul64 round round_interval_secs in
  Z.min U32_MAX (parent_time + Z.min add U32_MAX).

Definition max_round_for_elapsed (elapsed_secs round_interval_secs : Z) : Z :=
  let iv := Z.max round_interval_secs 1 in
  Z.min (elapsed_secs / iv) U32_MAX.

(** ** Parameters and gates *)
Definition DEFAULT_PROPOSER_ANTI_SPAM_BITS : Z := 8.

Definition cap_difficulty_if_enforced (configured : Z) (enforced : bool) (floor : Z) : Z :=
  if enforced then Z.min configured floor else configured.

Definition PROPOSER_REG_CAP : Z := 8.
Definition PROPOSER_ANNOUNCE_CAP : Z := 8.
Definition PROPOSER_REG_ANCHOR_WINDOW : Z := 64.

Definition registration_anchor_valid (anchor_height height window : Z) : bool :=
  (anchor_height <? height) && negb ((window <? height) && (anchor_height <? height - window)).

Definition proposer_registration_gate (vrf_active : bool) (activation : option Z) (height : Z) : bool :=
  vrf_active && active_at activation height.

Definition DEFAULT_MAX_REORG_DEPTH_MAINNET : Z := 1000.
Definition DEFAULT_MAX_REORG_DEPTH_DEVNET : Z := 100.
Definition MAX_REORG_DEPTH_HARD_FLOOR : Z := 10.
Definition DEFAULT_MIN_FINALITY_COMMITTEE_MAINNET : Z := 16.
Definition DEFAULT_MIN_FINALITY_COMMITTEE_DEVNET : Z := 4.

Definition fork_choice_hardening_gate (network_id : Z) (activation : option Z) (height : Z) : bool :=
  active_at (poawx_effective_activation network_id activation) height.
Definition proposer_vrf_gate (network_id : Z) (activation : option Z) (height : Z) : bool :=
  active_at (poawx_effective_activation network_id activation) height.
Definition audit_hardening_gate (network_id : Z) (activation : option Z) (height : Z) : bool :=
  active_at (poawx_effective_activation network_id activation) height.

Section gates.
Context (env : Env).

Definition proposer_freeze_depth : Z :=
  Z.max (default DEFAULT_PROPOSER_FREEZE_DEPTH (env_u64 env "IRIUM_POAWX_PROPOSER_FREEZE_DEPTH")) 2.

Definition proposer_round_interval_secs : Z :=
  Z.max (default DEFAULT_PROPOSER_ROUND_INTERVAL_SECS (env_u64 env "IRIUM_POAWX_PROPOSER_ROUND_INTERVAL_SECS")) 1.

Definition proposer_anti_spam_bits : Z :=
  if network_id_byte env =? 0 then 20
  else default DEFAULT_PROPOSER_ANTI_SPAM_BITS (env_u32 env "IRIUM_POAWX_PROPOSER_ANTISPAM_BITS").

Definition proposer_vrf_activation_height : option Z :=
  env_u64 env "IRIUM_POAWX_PROPOSER_VRF_ACTIVATION_HEIGHT".

Definition proposer_vrf_required : bool :=
  if network_id_byte env =? 0 then true else env_flag env "IRIUM_POAWX_PROPOSER_VRF_REQUIRED".

Definition proposer_vrf_active (height : Z) : bool :=
  proposer_vrf_gate (network_id_byte env) proposer_vrf_activation_height height.

Definition proposer_vrf_enforced (height : Z) : bool := proposer_vrf_active height && proposer_vrf_required.

Definition effective_puzzle_difficulty_bits (configured height : Z) : Z :=
  cap_difficulty_if_enforced configured (proposer_vrf_enforced height) proposer_anti_spam_bits.

Definition proposer_registration_activation_height : option Z :=
  env_u64 env "IRIUM_POAWX_PROPOSER_REGISTRATION_ACTIVATION_HEIGHT".

Definition proposer_registration_active (height : Z) : bool :=
  proposer_registration_gate (proposer_vrf_active height)
    (poawx_effective_activation (network_id_byte env) proposer_registration_activation_height) height.

Definition proposer_expiry_window : Z :=
  Z.max (default 2016 (env_u64 env "IRIUM_POAWX_PROPOSER_EXPIRY_WINDOW")) 1.

Definition fork_choice_hardening_activation_height : option Z :=
  env_u64 env "IRIUM_POAWX_FORKCHOICE_HARDENING_ACTIVATION_HEIGHT".
Definition fork_choice_hardening_active (height : Z) : bool :=
  fork_choice_hardening_gate (network_id_byte env) fork_choice_hardening_activation_height height.

Definition audit_hardening_activation_height : option Z :=
  env_u64 env "IRIUM_POAWX_AUDIT_HARDENING_ACTIVATION_HEIGHT".
Definition audit_hardening_active (height : Z) : bool :=
  audit_hardening_gate (network_id_byte env) audit_hardening_activation_height height.

Definition max_reorg_depth : Z :=
  let dflt := if network_id_byte env =? 0 then DEFAULT_MAX_REORG_DEPTH_MAINNET
              else DEFAULT_MAX_REORG_DEPTH_DEVNET in
  Z.max (default dflt (env_u64 env "IRIUM_POAWX_MAX_REORG_DEPTH")) MAX_REORG_DEPTH_HARD_FLOOR.

Definition min_finality_committee : Z :=
  let dflt := if network_id_byte env =? 0 then DEFAULT_MIN_FINALITY_COMMITTEE_MAINNET
              else DEFAULT_MIN_FINALITY_COMMITTEE_DEVNET in
  Z.max (default dflt (env_u64 env "IRIUM_POAWX_MIN_FINALITY_COMMITTEE")) 1.

Definition proposer_registration_gossip_enabled : bool :=
  negb (network_id_byte env =? 0) || bool_decide (is_Some MAINNET_POAWX_ACTIVATION_HEIGHT).
End gates.

(** ** The registry of eligible keys *)
Record ProposerKeyRecord := { kr_pkh : bytes; kr_heights : gset Z }.
Definition ProposerKeyRecord_default : ProposerKeyRecord := {| kr_pkh := zeros 20; kr_heights := ∅ |}.

Abbreviation ProposerEligibilityRegistry := (gmap bytes ProposerKeyRecord).

Definition register (reg : ProposerEligibilityRegistry) (vrf_pubkey pkh : bytes) (height : Z)
    : ProposerEligibilityRegistry :=
  let rec := default ProposerKeyRecord_default (reg !! vrf_pubkey) in
  <[vrf_pubkey := {| kr_pkh := pkh; kr_heights := {[height]} ∪ kr_heights rec |}]> reg.

Definition unregister (reg : ProposerEligibilityRegistry) (vrf_pubkey : bytes) (height : Z)
    : ProposerEligibilityRegistry :=
  match reg !! vrf_pubkey with
  | None => reg
  | Some rec =>
      let hs := kr_heights rec ∖ {[height]} in
      if bool_decide (hs = ∅) then delete vrf_pubkey reg
      else <[vrf_pubkey := {| kr_pkh := kr_pkh rec; kr_heights := hs |}]> reg
  end.

Definition frozen_window_with (fd ew target_height : Z) : option (Z * Z) :=
  if target_height <? fd then None else
  let hi := target_height - fd in
  Some (sat_sub hi (sat_sub ew 1), hi).

Definition record_in_window (rec : ProposerKeyRecord) (lo hi : Z) : bool :=
  bool_decide (filter (fun h => lo <= h <= hi) (kr_heights rec) <> ∅).

Definition eligible_keys (reg : ProposerEligibilityRegistry) (lo hi : Z) : ProposerEligibilityRegistry :=
  filter (fun kr => record_in_window kr.2 lo hi = true) reg.

Definition eligible_count_with (reg : ProposerEligibilityRegistry) (target_height fd ew : Z) : Z :=
  match frozen_window_with fd ew target_height with
  | None => 0
  | Some (lo, hi) => Z.of_nat (size (eligible_keys reg lo hi))
  end.

Definition is_eligible_with (reg : ProposerEligibilityRegistry) (vrf_pubkey : bytes) (target_height fd ew : Z)
    : bool :=
  match frozen_window_with fd ew target_height with
  | None => false
  | Some (lo, hi) => match reg !! vrf_pubkey with Some r => record_in_window r lo hi | None => false end
  end.

(** The order of a [BTreeMap]'s keys. *)
Definition key_rec_le (a b : bytes * ProposerKeyRecord) : Prop := bytes_ltb b.1 a.1 = false.
#[export] Instance key_rec_le_dec : RelDecision key_rec_le.
Proof. unfold key_rec_le. intros a b. apply _. Defined.

Definition eligible_pkhs_with (reg : ProposerEligibilityRegistry) (target_height fd ew : Z) : list bytes :=
  match frozen_window_with fd ew target_height with
  | None => []
  | Some (lo, hi) =>
      (fun kr => kr_pkh kr.2) <$> merge_sort key_rec_le (map_to_list (eligible_keys reg lo hi))
  end.

Definition is_registered (reg : ProposerEligibilityRegistry) (vrf_pubkey : bytes) : bool :=
  bool_decide (is_Some (reg !! vrf_pubkey)).

Section env_registry.
Context (env : Env).

Definition eligible_count (reg : ProposerEligibilityRegistry) (target_height : Z) : Z :=
  eligible_count_with reg target_height (proposer_freeze_depth env) (proposer_expiry_window env).
Definition is_eligible (reg : ProposerEligibilityRegistry) (vrf_pubkey : bytes) (target_height : Z) : bool :=
  is_eligible_with reg vrf_pubkey target_height (proposer_freeze_depth env) (proposer_expiry_window env).
Definition eligible_pkhs (reg : ProposerEligibilityRegistry) (target_height : Z) : list bytes :=
  eligible_pkhs_with reg target_height (proposer_freeze_depth env) (proposer_expiry_window env).
End env_registry.

(** A block's keys, in order ([apply_block_proposer_registry] and its
    inverse). *)
Definition register_all (reg : ProposerEligibilityRegistry) (keys : list (bytes * bytes)) (height : Z)
    : ProposerEligibilityRegistry := foldl (fun reg '(pubkey, pkh) => register reg pubkey pkh height) reg keys.
Definition unregister_all (reg : ProposerEligibilityRegistry) (keys : list (bytes * bytes)) (height : Z)
    : ProposerEligibilityRegistry := foldl (fun reg '(pubkey, _) => unregister reg pubkey height) reg keys.

(** ** Thresholds *)
Lemma cumulative_slots_bounds round n : 1 <= n -> 1 <= cumulative_slots round n <= n.
Proof. unfold cumulative_slots, U64_MAX. cbv zeta. intros. repeat case_match; lia. Qed.

Lemma cumulative_slots_mono round round' n :
  0 <= round <= round' -> cumulative_slots round n <= cumulative_slots round' n.
Proof. unfold cumulative_slots, U64_MAX. cbv zeta. intros. repeat case_match; lia. Qed.

Lemma threshold_mul n slots : 1 <= slots < n -> sat_mul64 (U64_MAX / n) slots = (U64_MAX / n) * slots.
Proof.
  intros. unfold sat_mul64. apply Z.min_r. pose proof (Z.mul_div_le U64_MAX n ltac:(lia)).
  assert (0 <= U64_MAX / n) by (apply Z.div_pos; [done|lia]). nia.
Qed.

Lemma proposer_threshold_eq n round : 1 <= n ->
  proposer_threshold n round =
    if n <=? cumulative_slots round n then U64_MAX else (U64_MAX / n) * cumulative_slots round n.
Proof.
  intros Hn. unfold proposer_threshold. replace (Z.max n 1) with n by lia.
  pose proof (cumulative_slots_bounds round n Hn). case_match; [done|]. apply threshold_mul. lia.
Qed.

Lemma proposer_threshold_max n round : proposer_threshold n round = proposer_threshold (Z.max n 1) round.
Proof. unfold proposer_threshold. by replace (Z.max (Z.max n 1) 1) with (Z.max n 1) by lia. Qed.

Lemma proposer_threshold_mono n round round' :
  0 <= round <= round' -> proposer_threshold n round <= proposer_threshold n round'.
Proof.
  intros Hr. rewrite (proposer_threshold_max n round), (proposer_threshold_max n round').
  set (m := Z.max n 1). assert (1 <= m) as Hm by lia. rewrite !proposer_threshold_eq by done.
  pose proof (cumulative_slots_bounds round m Hm). pose proof (cumulative_slots_bounds round' m Hm).
  pose proof (cumulative_slots_mono round round' m Hr).
  pose proof (Z.mul_div_le U64_MAX m ltac:(lia)).
  assert (0 <= U64_MAX / m) by (apply Z.div_pos; [done|lia]). repeat case_match; nia.
Qed.

(** ** Heights at which a key was registered *)
Definition reg_heights (reg : ProposerEligibilityRegistry) (k : bytes) : gset Z :=
  match reg !! k with Some r => kr_heights r | None => ∅ end.

(** No empty records: [unregister] removes a record with its last height. *)
Definition registry_ok (reg : ProposerEligibilityRegistry) : Prop :=
  forall k r, reg !! k = Some r -> kr_heights r <> ∅.

Lemma reg_heights_register reg k p h k' :
  reg_heights (register reg k p h) k' =
    if bool_decide (k = k') then {[h]} ∪ reg_heights reg k' else reg_heights reg k'.
Proof.
  unfold reg_heights, register. case_bool_decide as Hk.
  - subst k'. rewrite lookup_insert_eq. cbn. by destruct (reg !! k).
  - by rewrite lookup_insert_ne.
Qed.

Lemma reg_heights_unregister reg k h k' :
  reg_heights (unregister reg k h) k' =
    if bool_decide (k = k') then reg_heights reg k' ∖ {[h]} else reg_heights reg k'.
Proof.
  unfold reg_heights, unregister. destruct (reg !! k) as [rec|] eqn:Hr.
  - case_bool_decide as He.
    + case_bool_decide as Hk; [subst k'; by rewrite lookup_delete_eq, Hr, He | by rewrite lookup_delete_ne].
    + case_bool_decide as Hk; [subst k'; by rewrite lookup_insert_eq, Hr | by rewrite lookup_insert_ne].
  - case_bool_decide as Hk; [subst k'; rewrite Hr; apply set_eq; intros x; rewrite elem_of_difference; set_solver | done].
Qed.

Lemma register_ok reg k p h : registry_ok reg -> registry_ok (register reg k p h).
Proof. unfold register. intros Hr k' r [[<- <-]|[_ H]]%lookup_insert_Some; [cbn; set_solver | by apply (Hr k')]. Qed.

Lemma unregister_ok reg k h : registry_ok reg -> registry_ok (unregister reg k h).
Proof.
  intros Hr. unfold unregister. destruct (reg !! k) as [rec|] eqn:E; [|done]. case_bool_decide.
  - intros k' r [_ H']%lookup_delete_Some. by apply (Hr k').
  - intros k' r [[<- <-]|[_ H']]%lookup_insert_Some; [done | by apply (Hr k')].
Qed.

(** Eligibility only looks at the heights. *)

Lemma elem_of_eligible_keys reg k lo hi :
  k ∈ dom (eligible_keys reg lo hi) <-> filter (fun h => lo <= h <= hi) (reg_heights reg k) <> ∅.
Proof.
  unfold eligible_keys, reg_heights. rewrite elem_of_dom. unfold is_Some. setoid_rewrite map_lookup_filter_Some.
  unfold record_in_window. cbn. setoid_rewrite bool_decide_eq_true. split.
  - intros (r & -> & H). done.
  - destruct (reg !! k) as [r|]; [|done]. intros H. by exists r.
Qed.

(** ** Frozen views *)
Section frozen.
Context (fd ew : Z).

Definition same_window (reg reg' : ProposerEligibilityRegistry) (target : Z) : Prop :=
  forall k h, h <= target - fd -> h ∈ reg_heights reg k <-> h ∈ reg_heights reg' k.

Lemma same_window_filter reg reg' target k lo hi :
  same_window reg reg' target -> hi = target - fd ->
  filter (fun h => lo <= h <= hi) (reg_heights reg k) = filter (fun h => lo <= h <= hi) (reg_heights reg' k).
Proof.
  intros Hs ->. apply set_eq. intros h. rewrite !elem_of_filter. split; intros [Hw Hin]; (split; [done|]).
  - apply (Hs k h); [lia|done].
  - apply (Hs k h); [lia|done].
Qed.

Lemma same_window_eligible reg reg' target k :
  same_window reg reg' target -> is_eligible_with reg k target fd ew = is_eligible_with reg' k target fd ew.
Proof.
  intros Hs. unfold is_eligible_with, frozen_window_with. destruct (target <? fd); [done|]. cbn.
  assert (forall r lo hi, match r !! k with Some r => record_in_window r lo hi | None => false end =
    bool_decide (filter (fun h => lo <= h <= hi) (reg_heights r k) <> ∅)) as Hw.
  { intros r lo hi. unfold record_in_window, reg_heights. destruct (r !! k); [done|]. symmetry.
    apply bool_decide_eq_false. intros H. apply H. by rewrite filter_empty_L. }
  rewrite !Hw. by erewrite same_window_filter.
Qed.

Lemma same_window_count reg reg' target :
  same_window reg reg' target -> eligible_count_with reg target fd ew = eligible_count_with reg' target fd ew.
Proof.
  intros Hs. unfold eligible_count_with, frozen_window_with. destruct (target <? fd); [done|]. f_equal.
  rewrite <- !size_dom. f_equal. apply set_eq. intros k. rewrite !elem_of_eligible_keys.
  by erewrite same_window_filter.
Qed.
End frozen.

(** ** Blocks of registrations *)
Lemma reg_heights_register_all h keys : forall reg k,
  reg_heights (register_all reg keys h) k =
    if bool_decide (k ∈ keys.*1) then {[h]} ∪ reg_heights reg k else reg_heights reg k.
Proof.
  induction keys as [|[pk p] keys IH]; intros reg k; [done|].
  change (register_all _ _ _) with (register_all (register reg pk p h) keys h).
  rewrite IH, reg_heights_register. cbn. repeat case_bool_decide; set_solver.
Qed.

Lemma reg_heights_unregister_all h keys : forall reg k,
  reg_heights (unregister_all reg keys h) k =
    if bool_decide (k ∈ keys.*1) then reg_heights reg k ∖ {[h]} else reg_heights reg k.
Proof.
  induction keys as [|[pk p] keys IH]; intros reg k; [done|].
  change (unregister_all _ _ _) with (unregister_all (unregister reg pk h) keys h).
  rewrite IH, reg_heights_unregister. cbn. repeat case_bool_decide; set_solver.
Qed.

Lemma register_all_ok h keys : forall reg, registry_ok reg -> registry_ok (register_all reg keys h).
Proof. induction keys as [|[pk p] keys IH]; intros reg Hr; [done|]. apply IH. by apply register_ok. Qed.

Lemma unregister_all_ok h keys : forall reg, registry_ok reg -> registry_ok (unregister_all reg keys h).
Proof. induction keys as [|[pk p] keys IH]; intros reg Hr; [done|]. apply IH. by apply unregister_ok. Qed.

(** Every height on record is below [h]. *)
Definition heights_below (reg : ProposerEligibilityRegistry) (h : Z) : Prop :=
  forall k h', h' ∈ reg_heights reg k -> h' < h.

Lemma unregister_register_heights reg keys h k :
  heights_below reg h -> reg_heights (unregister_all (register_all reg keys h) keys h) k = reg_heights reg k.
Proof.
  intros Hb. rewrite reg_heights_unregister_all, reg_heights_register_all. case_bool_decide; [|done].
  assert (h ∉ reg_heights reg k) by (intros ?%Hb; lia). set_solver.
Qed.

(** Equal heights and owners that follow from the keys: equal registries. *)
Definition owners (f : bytes -> bytes) (reg : ProposerEligibilityRegistry) : Prop :=
  forall k r, reg !! k = Some r -> kr_pkh r = f k.

Lemma register_owners f reg k h : owners f reg -> owners f (register reg k (f k) h).
Proof. unfold register. intros Hf k' r [[<- <-]|[_ H]]%lookup_insert_Some; [done | by apply Hf]. Qed.

Lemma unregister_owners f reg k h : owners f reg -> owners f (unregister reg k h).
Proof.
  intros Hf. unfold unregister. destruct (reg !! k) as [rec|] eqn:E; [|done]. case_bool_decide.
  - intros k' r [_ H']%lookup_delete_Some. by apply Hf.
  - intros k' r [[<- <-]|[_ H']]%lookup_insert_Some; [cbn; by apply Hf | by apply Hf].
Qed.

Lemma register_all_owners f h keys : Forall (fun kp => kp.2 = f kp.1) keys ->
  forall reg, owners f reg -> owners f (register_all reg keys h).
Proof.
  induction 1 as [|[pk p] keys Hp _ IH]; intros reg Hf; [done|]. cbn in Hp. subst p. apply IH.
  by apply register_owners.
Qed.

Lemma unregister_all_owners f h keys : forall reg, owners f reg -> owners f (unregister_all reg keys h).
Proof. induction keys as [|[pk p] keys IH]; intros reg Hf; [done|]. apply IH. by apply unregister_owners. Qed.

Lemma registry_ext f reg reg' : registry_ok reg -> registry_ok reg' -> owners f reg -> owners f reg' ->
  (forall k, reg_heights reg k = reg_heights reg' k) -> reg = reg'.
Proof.
  intros H1 H2 F1 F2 Hh. apply map_eq. intros k. specialize (Hh k). unfold reg_heights in Hh.
  destruct (reg !! k) as [[p hs]|] eqn:E, (reg' !! k) as [[p' hs']|] eqn:E'; cbn in Hh.
  - apply F1 in E. apply F2 in E'. cbn in *. by subst.
  - by apply H1 in E.
  - symmetry in Hh. by apply H2 in E'.
  - done.
Qed.

(** ** Theorems *)

(** The cascade of the lottery: at every round a proposer is admitted with
    the share of its slots, up to rounding (the threshold times the number of
    keys falls short of the slots' share of all priorities by less than that
    number times the slots); who is admitted at a round stays admitted at later
    rounds; with no keys on record everyone is admitted at once, and from the
    fourth round on everyone whose priority is not the largest 64-bit number,
    which is never admitted. *)
Theorem proposer_cascade priority n round round' :
  0 <= priority <= U64_MAX -> 0 <= n <= U64_MAX -> 0 <= round <= round' ->
  (is_selected priority n round = true -> is_selected priority n round' = true) /\
  (cumulative_slots round n < n ->
     proposer_threshold n round * n <= cumulative_slots round n * U64_MAX <
       (proposer_threshold n round + cumulative_slots round n) * n) /\
  (n <= 1 \/ 3 <= round -> is_selected priority n round = negb (priority =? U64_MAX)).
Proof.
  intros Hp Hn Hr. unfold is_selected. split_and!.
  - pose proof (proposer_threshold_mono n round round' Hr). lia.
  - intros Hlt. assert (1 <= n) as H1 by (unfold cumulative_slots, U64_MAX in Hlt; cbv zeta in Hlt; repeat case_match; lia).
    rewrite proposer_threshold_eq by done. rewrite (proj2 (Z.leb_gt _ _) Hlt).
    pose proof (cumulative_slots_bounds round n H1). pose proof (Z.mul_div_le U64_MAX n ltac:(lia)).
    pose proof (Z.mul_succ_div_gt U64_MAX n ltac:(lia)). nia.
  - intros Hor. rewrite proposer_threshold_max, proposer_threshold_eq by lia.
    replace (_ <=? _) with true; [lia|]. symmetry. apply Z.leb_le.
    unfold cumulative_slots, U64_MAX in *. cbv zeta. repeat case_match; lia.
Qed.

Lemma proposer_cascade_witness :
  (is_selected 1000 100 0 = true -> is_selected 1000 100 2 = true) /\
  (cumulative_slots 0 100 < 100 ->
     proposer_threshold 100 0 * 100 <= cumulative_slots 0 100 * U64_MAX <
       (proposer_threshold 100 0 + cumulative_slots 0 100) * 100) /\
  (100 <= 1 \/ 3 <= 0 -> is_selected 1000 100 0 = negb (1000 =? U64_MAX)).
Proof. apply (proposer_cascade 1000 100 0 2); unfold U64_MAX; lia. Defined.

(** Miner and validator agree on when a round is open: a block stamped
    [elapsed] seconds after its parent passes the check of its round exactly
    when the miner's rule opens that round after [elapsed] seconds, as long as
    the stamp is below the largest 32-bit number. *)
Theorem round_opens_on_time parent_time elapsed round interval :
  0 <= parent_time -> 0 <= elapsed -> parent_time + elapsed < U32_MAX ->
  0 <= round <= U32_MAX -> 1 <= interval <= U64_MAX ->
  min_time_for_round parent_time round interval <= parent_time + elapsed <->
  round <= max_round_for_elapsed elapsed interval.
Proof.
  intros Hp He Hs Hr Hi. unfold min_time_for_round, max_round_for_elapsed, sat_mul64. cbv zeta.
  rewrite (Z.max_l interval) by lia.
  assert (elapsed / interval <= U32_MAX) as Hd.
  { transitivity elapsed; [apply Z.div_le_upper_bound; nia | lia]. }
  rewrite (Z.min_l (elapsed / interval)) by done.
  assert (round * interval <= elapsed <-> round <= elapsed / interval) as Hiff.
  { split; [intros; apply Z.div_le_lower_bound; lia|]. intros H. pose proof (Z.mul_div_le elapsed interval). nia. }
  rewrite <- Hiff. unfold U64_MAX, U32_MAX in *. lia.
Qed.

Lemma round_opens_on_time_witness :
  min_time_for_round 1000 2 120 <= 1000 + 250 <-> 2 <= max_round_for_elapsed 250 120.
Proof. apply (round_opens_on_time 1000 250 2 120); unfold U32_MAX, U64_MAX; lia. Defined.

(** Who is eligible at a height is frozen: registering or unregistering
    keys at heights above [target - fd] changes neither who is eligible at
    [target] nor how many are, so that a key cannot be registered once the seed
    of the height is known. *)
Theorem eligibility_frozen reg keys height target fd ew k :
  target - fd < height ->
  (is_eligible_with (register_all reg keys height) k target fd ew = is_eligible_with reg k target fd ew /\
   eligible_count_with (register_all reg keys height) target fd ew = eligible_count_with reg target fd ew) /\
  (is_eligible_with (unregister_all reg keys height) k target fd ew = is_eligible_with reg k target fd ew /\
   eligible_count_with (unregister_all reg keys height) target fd ew = eligible_count_with reg target fd ew).
Proof.
  intros Hh.
  assert (same_window fd (register_all reg keys height) reg target) as H1.
  { intros k' h' Hh'. rewrite reg_heights_register_all. case_bool_decide; set_solver by lia. }
  assert (same_window fd (unregister_all reg keys height) reg target) as H2.
  { intros k' h' Hh'. rewrite reg_heights_unregister_all. case_bool_decide; set_solver by lia. }
  split; (split; [by apply same_window_eligible | by apply same_window_count]).
Qed.

Definition sample_key (n : Z) : bytes := replicate 33 n.
Definition sample_registry : ProposerEligibilityRegistry :=
  register_all ∅ [(sample_key 2, replicate 20 2); (sample_key 3, replicate 20 3)] 10.

Lemma eligibility_frozen_witness :
  (is_eligible_with (register_all sample_registry [(sample_key 4, replicate 20 4)] 35) (sample_key 4) 50 16 2016
     = is_eligible_with sample_registry (sample_key 4) 50 16 2016 /\
   eligible_count_with (register_all sample_registry [(sample_key 4, replicate 20 4)] 35) 50 16 2016
     = eligible_count_with sample_registry 50 16 2016) /\
  (is_eligible_with (unregister_all sample_registry [(sample_key 4, replicate 20 4)] 35) (sample_key 4) 50 16 2016
     = is_eligible_with sample_registry (sample_key 4) 50 16 2016 /\
   eligible_count_with (unregister_all sample_registry [(sample_key 4, replicate 20 4)] 35) 50 16 2016
     = eligible_count_with sample_registry 50 16 2016).
Proof. apply (eligibility_frozen sample_registry [(sample_key 4, replicate 20 4)] 35 50 16 2016 (sample_key 4)). lia. Defined.

(** The frozen view is not vacuous: both keys are eligible at height 50. *)
Example sample_eligible :
  eligible_count_with sample_registry 50 16 2016 = 2 /\
  is_eligible_with sample_registry (sample_key 3) 50 16 2016 = true /\
  eligible_count_with sample_registry 25 16 2016 = 0.
Proof. split_and!; vm_compute; reflexivity. Qed.
