(* ===== verification/Ticket.v ===== *)
(** * Ticket: work tickets and their proofs ([src/src/poawx_ticket.rs])

    A miner's identity costs a small proof of work, bound to the network, the
    parent block, the miner and its key.  [MinerWorkTicket] is the token of an
    epoch, [TicketProof] the compact form a receipt carries for each rewarded
    role.

    Shown here: the proof's wire form is faithful; a proof made for a role is
    accepted for it; on mainnet no proof is ever accepted. *)

From S2P Require Import Prelude Crypto Wire Activation Penalty Proposer.

(** ** Roles of [poawx.rs] *)
Definition ROLE_COMPUTE_CONTRIBUTOR : Z := 1.
Definition ROLE_VERIFY_CONTRIBUTOR : Z := 2.
Definition ROLE_SUPPORT_CONTRIBUTOR : Z := 3.

(** ** Sybil work *)
Definition TICKET_VERSION : Z := 1.
Definition TICKET_DOMAIN : bytes := byte_string "IRIUM_POAWX_TICKET_V1".
Definition SYBIL_DOMAIN : bytes := byte_string "IRIUM_POAWX_SYBIL_WORK_V1".
Definition TICKET_PROOF_DOMAIN : bytes := byte_string "IRIUM_POAWX_TICKET_PROOF_V1".

Definition compute_sybil_digest `{C : Crypto} (network_id : Z) (prev_hash miner_pkh : bytes) (epoch : Z)
    (assignment_public_key nonce : bytes) : bytes :=
  sha256 (SYBIL_DOMAIN ++ [network_id] ++ prev_hash ++ miner_pkh ++ le_bytes 8 epoch
          ++ assignment_public_key ++ nonce).

(** [u8::leading_zeros] *)
Definition leading_zeros (b : Z) : Z := if b =? 0 then 8 else 7 - Z.log2 b.

Fixpoint leading_zero_bits (d : bytes) : Z :=
  match d with
  | [] => 0
  | b :: d => if b =? 0 then 8 + leading_zero_bits d else leading_zeros b
  end.

Definition meets_sybil_target (digest : bytes) (bits : Z) : bool := bits <=? leading_zero_bits digest.

Definition MIN_TICKET_SYBIL_BITS : Z := 8.
Definition MAINNET_TICKET_SYBIL_BITS : Z := 20.

Definition tickets_gate (network_id : Z) (activation : option Z) (height : Z) : bool :=
  active_at (poawx_effective_activation network_id activation) height.

Section gates.
Context (env : Env).

Definition tickets_activation_height : option Z := env_u64 env "IRIUM_POAWX_TICKETS_ACTIVATION_HEIGHT".
Definition tickets_active (height : Z) : bool :=
  tickets_gate (network_id_byte env) tickets_activation_height height.
Definition tickets_required : bool :=
  if network_id_byte env =? 0 then true else env_flag env "IRIUM_POAWX_TICKETS_REQUIRED".
Definition tickets_enforced (height : Z) : bool := tickets_active height && tickets_required.

Definition sybil_threshold_bits : Z :=
  if network_id_byte env =? 0 then 0 else
  match env_u32 env "IRIUM_POAWX_TICKET_SYBIL_BITS" with
  | Some b => if b <=? 32 then b else 0
  | None => 0
  end.

Definition effective_sybil_bits : Z :=
  if network_id_byte env =? 0 then MAINNET_TICKET_SYBIL_BITS else
  let configured := sybil_threshold_bits in
  if tickets_required then Z.max configured MIN_TICKET_SYBIL_BITS else configured.
End gates.

(** ** Tickets *)
Record MinerWorkTicket := {
  mt_version : Z;
  mt_network_id : Z;
  mt_miner_pkh : bytes;
  mt_epoch : Z;
  mt_assignment_public_key : bytes;
  mt_sybil_work_nonce : bytes;
  mt_sybil_work_digest : bytes;
  mt_recent_reward_score : Z;
  mt_valid_work_count : Z;
  mt_invalid_work_count : Z;
  mt_penalty_status : Z;
  mt_bond_reference : option bytes;
  mt_issued_height : Z;
  mt_expiry_height : Z
}.

Definition serialize_ticket (t : MinerWorkTicket) : bytes :=
  [mt_version t] ++ [mt_network_id t] ++ mt_miner_pkh t ++ le_bytes 8 (mt_epoch t)
  ++ mt_assignment_public_key t ++ mt_sybil_work_nonce t ++ mt_sybil_work_digest t
  ++ le_bytes 8 (mt_recent_reward_score t) ++ le_bytes 4 (mt_valid_work_count t)
  ++ le_bytes 4 (mt_invalid_work_count t) ++ [mt_penalty_status t]
  ++ match mt_bond_reference t with Some b => [1] ++ b | None => [0] end
  ++ le_bytes 8 (mt_issued_height t) ++ le_bytes 8 (mt_expiry_height t).

Definition read_bond (raw : bytes) : res string (option bytes * bytes) :=
  '(bond_flag, raw) ← rd_u8 raw;
  if bond_flag =? 0 then Ok (None, raw) else
  if bond_flag =? 1 then
    if len raw <? 32 + 16 then Err "ticket: truncated bond"%string else
    '(bond, raw) ← rd 32 raw;
    Ok (Some bond, raw)
  else Err "ticket: bad bond flag"%string.

Definition deserialize_ticket (raw : bytes) : res string MinerWorkTicket :=
  if len raw <? 144 + 1 then Err "ticket: too short"%string else
  '(version, raw) ← rd_u8 raw;
  if negb (version =? TICKET_VERSION) then Err "ticket: bad version"%string else
  '(network_id, raw) ← rd_u8 raw;
  '(miner_pkh, raw) ← rd 20 raw;
  '(epoch, raw) ← rd_le 8 raw;
  '(assignment_public_key, raw) ← rd 33 raw;
  '(sybil_work_nonce, raw) ← rd 32 raw;
  '(sybil_work_digest, raw) ← rd 32 raw;
  '(recent_reward_score, raw) ← rd_le 8 raw;
  '(valid_work_count, raw) ← rd_le 4 raw;
  '(invalid_work_count, raw) ← rd_le 4 raw;
  '(penalty_status, raw) ← rd_u8 raw;
  '(bond_reference, raw) ← read_bond raw;
  if len raw <? 16 then Err "ticket: truncated tail"%string else
  '(issued_height, raw) ← rd_le 8 raw;
  '(expiry_height, raw) ← rd_le 8 raw;
  Ok {| mt_version := version; mt_network_id := network_id; mt_miner_pkh := miner_pkh; mt_epoch := epoch;
        mt_assignment_public_key := assignment_public_key; mt_sybil_work_nonce := sybil_work_nonce;
        mt_sybil_work_digest := sybil_work_digest; mt_recent_reward_score := recent_reward_score;
        mt_valid_work_count := valid_work_count; mt_invalid_work_count := invalid_work_count;
        mt_penalty_status := penalty_status; mt_bond_reference := bond_reference;
        mt_issued_height := issued_height; mt_expiry_height := expiry_height |}.

Section ticket.
Context `{C : Crypto}.

Definition ticket_digest_of (t : MinerWorkTicket) : bytes := sha256 (TICKET_DOMAIN ++ serialize_ticket t).

Definition recompute_sybil (t : MinerWorkTicket) : bytes :=
  compute_sybil_digest (mt_network_id t) (zeros 32) (mt_miner_pkh t) (mt_epoch t)
    (mt_assignment_public_key t) (mt_sybil_work_nonce t).

Definition validate_ticket (t : MinerWorkTicket) (expected_network current_height require_bits : Z)
    : res string unit :=
  if expected_network =? 0 then Err "ticket: mainnet hard-off"%string else
  if negb (mt_version t =? TICKET_VERSION) then Err "ticket: bad version"%string else
  if negb (mt_network_id t =? expected_network) then Err "ticket: network mismatch"%string else
  if current_height <? mt_issued_height t then Err "ticket: issued in the future"%string else
  if mt_expiry_height t <=? current_height then Err "ticket: expired"%string else
  if bool_decide (status_from_id (mt_penalty_status t) = None) then Err "ticket: bad penalty status"%string else
  if negb (beqb (mt_sybil_work_digest t) (recompute_sybil t)) then Err "ticket: sybil_work_digest mismatch"%string else
  if (0 <? require_bits) && negb (meets_sybil_target (mt_sybil_work_digest t) require_bits)
  then Err "ticket: insufficient sybil work"%string else
  Ok tt.

Definition ticket_eligible_for_high_trust_role (t : MinerWorkTicket) : bool :=
  match status_from_id (mt_penalty_status t) with
  | Some s => eligible_for_high_trust_role s
  | None => false
  end.

(** The nonce counts up in its first eight bytes. *)
Definition sybil_nonce (i : Z) : bytes := le_bytes 8 i ++ zeros 24.

Fixpoint grind_from (iters : nat) (i : Z) (network_id : Z) (prev_hash miner_pkh : bytes) (epoch : Z)
    (assignment_public_key : bytes) (bits : Z) : option (bytes * bytes) :=
  match iters with
  | O => None
  | S iters =>
      let nonce := sybil_nonce i in
      let d := compute_sybil_digest network_id prev_hash miner_pkh epoch assignment_public_key nonce in
      if meets_sybil_target d bits then Some (nonce, d)
      else grind_from iters (i + 1) network_id prev_hash miner_pkh epoch assignment_public_key bits
  end.

Definition grind_sybil_nonce (network_id : Z) (prev_hash miner_pkh : bytes) (epoch : Z)
    (assignment_public_key : bytes) (bits : Z) (max_iters : nat) : option (bytes * bytes) :=
  grind_from max_iters 0 network_id prev_hash miner_pkh epoch assignment_public_key bits.
End ticket.

(** ** Proofs for a role *)
Definition TICKET_PROOF_WIRE : Z := 176.
Definition TICKET_SECTION_MAGIC : bytes := byte_string "TPK1".

Definition is_high_trust_role (role_id : Z) : bool :=
  (role_id =? ROLE_VERIFY_CONTRIBUTOR) || (role_id =? ROLE_SUPPORT_CONTRIBUTOR).

Definition compute_ticket_proof_digest `{C : Crypto} (network_id target_height role_id : Z) (miner_pkh : bytes)
    (epoch expiry_height : Z) (assignment_public_key sybil_work_digest : bytes) : bytes :=
  sha256 (TICKET_PROOF_DOMAIN ++ [network_id] ++ le_bytes 8 target_height ++ [role_id] ++ miner_pkh
          ++ le_bytes 8 epoch ++ le_bytes 8 expiry_height ++ assignment_public_key ++ sybil_work_digest).

Record TicketProof := {
  tp_network_id : Z;
  tp_target_height : Z;
  tp_role_id : Z;
  tp_miner_pkh : bytes;
  tp_epoch : Z;
  tp_expiry_height : Z;
  tp_assignment_public_key : bytes;
  tp_sybil_work_nonce : bytes;
  tp_sybil_work_digest : bytes;
  tp_penalty_status : Z;
  tp_ticket_digest : bytes
}.

Definition serialize_ticket_proof (t : TicketProof) : bytes :=
  [tp_network_id t] ++ le_bytes 8 (tp_target_height t) ++ [tp_role_id t] ++ tp_miner_pkh t
  ++ le_bytes 8 (tp_epoch t) ++ le_bytes 8 (tp_expiry_height t) ++ tp_assignment_public_key t
  ++ tp_sybil_work_nonce t ++ tp_sybil_work_digest t ++ [tp_penalty_status t] ++ tp_ticket_digest t.

Definition deserialize_ticket_proof (raw : bytes) : res string TicketProof :=
  if negb (len raw =? TICKET_PROOF_WIRE) then Err "ticket proof: bad len"%string else
  '(network_id, raw) ← rd_u8 raw;
  '(target_height, raw) ← rd_le 8 raw;
  '(role_id, raw) ← rd_u8 raw;
  '(miner_pkh, raw) ← rd 20 raw;
  '(epoch, raw) ← rd_le 8 raw;
  '(expiry_height, raw) ← rd_le 8 raw;
  '(assignment_public_key, raw) ← rd 33 raw;
  '(sybil_work_nonce, raw) ← rd 32 raw;
  '(sybil_work_digest, raw) ← rd 32 raw;
  '(penalty_status, raw) ← rd_u8 raw;
  '(ticket_digest, raw) ← rd 32 raw;
  Ok {| tp_network_id := network_id; tp_target_height := target_height; tp_role_id := role_id;
        tp_miner_pkh := miner_pkh; tp_epoch := epoch; tp_expiry_height := expiry_height;
        tp_assignment_public_key := assignment_public_key; tp_sybil_work_nonce := sybil_work_nonce;
        tp_sybil_work_digest := sybil_work_digest; tp_penalty_status := penalty_status;
        tp_ticket_digest := ticket_digest |}.

Record ticket_proof_ok (t : TicketProof) : Prop := {
  tpo_network : u8 (tp_network_id t);
  tpo_height : u64 (tp_target_height t);
  tpo_role : u8 (tp_role_id t);
  tpo_pkh : arr 20 (tp_miner_pkh t);
  tpo_epoch : u64 (tp_epoch t);
  tpo_expiry : u64 (tp_expiry_height t);
  tpo_key : arr 33 (tp_assignment_public_key t);
  tpo_nonce : arr 32 (tp_sybil_work_nonce t);
  tpo_digest : arr 32 (tp_sybil_work_digest t);
  tpo_penalty : u8 (tp_penalty_status t);
  tpo_ticket : arr 32 (tp_ticket_digest t)
}.

#[export] Instance TicketProof_wire : Wire TicketProof :=
  {| to_wire := serialize_ticket_proof; of_wire := deserialize_ticket_proof; wire_ok := ticket_proof_ok |}.

Lemma ticket_proof_len t : ticket_proof_ok t -> len (serialize_ticket_proof t) = 176.
Proof. revert t. fixed_len serialize_ticket_proof. Qed.

#[export] Instance TicketProof_fixed : FixedWire TicketProof_wire TICKET_PROOF_WIRE.
Proof.
  unfold TICKET_PROOF_WIRE. split; [split|]; cbn [of_wire to_wire wire_ok TicketProof_wire].
  - fixed_read ticket_proof_len serialize_ticket_proof deserialize_ticket_proof.
  - fixed_canonical deserialize_ticket_proof serialize_ticket_proof.
  - fixed_total deserialize_ticket_proof.
  - apply ticket_proof_len.
Qed.

Section proofs.
Context `{C : Crypto} (env : Env).

Definition TicketProof_new (network_id target_height : Z) (prev_hash : bytes) (role_id : Z) (miner_pkh : bytes)
    (epoch expiry_height : Z) (assignment_public_key sybil_work_nonce : bytes) (penalty_status : Z) : TicketProof :=
  let sybil_work_digest :=
    compute_sybil_digest network_id prev_hash miner_pkh epoch assignment_public_key sybil_work_nonce in
  let ticket_digest :=
    compute_ticket_proof_digest network_id target_height role_id miner_pkh epoch expiry_height
      assignment_public_key sybil_work_digest in
  {| tp_network_id := network_id; tp_target_height := target_height; tp_role_id := role_id;
     tp_miner_pkh := miner_pkh; tp_epoch := epoch; tp_expiry_height := expiry_height;
     tp_assignment_public_key := assignment_public_key; tp_sybil_work_nonce := sybil_work_nonce;
     tp_sybil_work_digest := sybil_work_digest; tp_penalty_status := penalty_status;
     tp_ticket_digest := ticket_digest |}.

Definition validate_ticket_proof (t : TicketProof) (expected_network height : Z) (prev_hash : bytes) (role_id : Z)
    (role_solver_pkh : bytes) (require_sybil_bits : Z) (penalty_enforced : bool) : res string unit :=
  if expected_network =? 0 then Err "ticket proof: mainnet hard-off"%string else
  if negb (tp_network_id t =? expected_network) then Err "ticket proof: network mismatch"%string else
  if negb (tp_target_height t =? height) then Err "ticket proof: height mismatch"%string else
  if audit_hardening_active env height && negb (tp_epoch t =? tp_target_height t)
  then Err "ticket proof: epoch not bound to height (audit)"%string else
  if negb (tp_role_id t =? role_id) then Err "ticket proof: role mismatch"%string else
  if negb (beqb (tp_miner_pkh t) role_solver_pkh) then Err "ticket proof: miner pkh != role solver"%string else
  if tp_expiry_height t <=? height then Err "ticket proof: expired"%string else
  let recomputed_sybil :=
    compute_sybil_digest (tp_network_id t) prev_hash (tp_miner_pkh t) (tp_epoch t)
      (tp_assignment_public_key t) (tp_sybil_work_nonce t) in
  if negb (beqb recomputed_sybil (tp_sybil_work_digest t)) then Err "ticket proof: sybil digest mismatch"%string else
  if (0 <? require_sybil_bits) && negb (meets_sybil_target (tp_sybil_work_digest t) require_sybil_bits)
  then Err "ticket proof: insufficient sybil work"%string else
  let expect_digest :=
    compute_ticket_proof_digest (tp_network_id t) (tp_target_height t) (tp_role_id t) (tp_miner_pkh t)
      (tp_epoch t) (tp_expiry_height t) (tp_assignment_public_key t) (tp_sybil_work_digest t) in
  if negb (beqb expect_digest (tp_ticket_digest t)) then Err "ticket proof: ticket_digest mismatch"%string else
  pen ← ok_or (status_from_id (tp_penalty_status t)) "ticket proof: bad penalty status"%string;
  if penalty_enforced && is_high_trust_role role_id && negb (eligible_for_high_trust_role pen)
  then Err "ticket proof: penalized identity ineligible for high-trust role"%string else
  Ok tt.

(** *** Grinding *)
Lemma grind_from_spec net prev pkh epoch key bits iters : forall i nonce d,
  grind_from iters i net prev pkh epoch key bits = Some (nonce, d) ->
  d = compute_sybil_digest net prev pkh epoch key nonce /\ meets_sybil_target d bits = true /\
  exists k, i <= k < i + Z.of_nat iters /\ nonce = sybil_nonce k.
Proof.
  induction iters as [|iters IH]; intros i nonce d H; [done|]. cbn in H.
  destruct (meets_sybil_target _ _) eqn:Hm.
  - injection H as <- <-. split_and!; [done | done|]. exists i. split; [lia|done].
  - destruct (IH _ _ _ H) as (? & ? & k & ? & ?). split_and!; [done | done|]. exists k. split; [lia|done].
Qed.

Lemma mainnet_refuses_proof t height prev role solver bits pen :
  validate_ticket_proof t 0 height prev role solver bits pen = Err "ticket proof: mainnet hard-off"%string.
Proof. done. Qed.

(** What an accepted proof shows. *)
Lemma ticket_proof_sound t net height prev role solver bits pen :
  validate_ticket_proof t net height prev role solver bits pen = Ok tt ->
  net <> 0 /\ tp_network_id t = net /\ tp_target_height t = height /\ tp_role_id t = role /\
  tp_miner_pkh t = solver /\ height < tp_expiry_height t /\
  (0 < bits -> bits <= leading_zero_bits (compute_sybil_digest net prev solver (tp_epoch t)
     (tp_assignment_public_key t) (tp_sybil_work_nonce t))).
Proof.
  intros H. unfold validate_ticket_proof in H. unfold meets_sybil_target in H. cbv zeta in H.
  repeat match type of H with (if ?b then _ else _) = _ => destruct b eqn:?; [discriminate H|] end.
  unfold beqb in *. repeat match goal with H : negb (bool_decide _) = false |- _ =>
    apply negb_false_iff, bool_decide_eq_true in H end.
  assert (tp_network_id t = net) as <- by lia. assert (tp_target_height t = height) as <- by lia.
  split_and!; [lia | done | done | lia | done | lia |]. intros Hb.
  rewrite <- Heqb4, Heqb6. lia.
Qed.
End proofs.

(** ** Theorems *)

(** A ticket proof made for a role with a nonce found by grinding is
    accepted for that role, unless an identity that is suspended or slashed
    asks for a role of high trust while penalties are enforced. *)
Theorem ground_ticket_accepted `{C : Crypto} env net height prev role pkh expiry key bits iters nonce digest
    st (penalty_enforced : bool) :
  net <> 0 -> height < expiry ->
  grind_sybil_nonce net prev pkh height key bits iters = Some (nonce, digest) ->
  (penalty_enforced && is_high_trust_role role && negb (eligible_for_high_trust_role st)) = false ->
  validate_ticket_proof env (TicketProof_new net height prev role pkh height expiry key nonce (status_id st))
    net height prev role pkh bits penalty_enforced = Ok tt.
Proof.
  intros Hnet Hexp Hg Hp. apply grind_from_spec in Hg as (Hd & Hm & _).
  unfold validate_ticket_proof, TicketProof_new. cbn -[le_bytes]. unfold beqb. rewrite !bool_decide_true by done.
  rewrite !Z.eqb_refl, <- Hd, Hm, status_from_to_id. cbn. rewrite !andb_false_r, Hp.
  by rewrite (proj2 (Z.eqb_neq net 0)), (proj2 (Z.leb_gt expiry height)) by done.
Qed.

Lemma ground_ticket_accepted_witness :
  exists nonce, validate_ticket_proof (fun _ => None)
    (TicketProof_new 1 100 (zeros 32) 2 (replicate 20 1) 100 200 (replicate 33 2) nonce (status_id Clean))
    1 100 (zeros 32) 2 (replicate 20 1) 2 true = Ok tt.
Proof.
  assert (exists nd, grind_sybil_nonce 1 (zeros 32) (replicate 20 1) 100 (replicate 33 2) 2 3 = Some nd) as [[n d] Hg].
  { eexists. vm_compute. reflexivity. }
  exists n. apply (ground_ticket_accepted (fun _ => None) 1 100 (zeros 32) 2 (replicate 20 1) 200 (replicate 33 2) 2
    3 n d Clean true); [lia | lia | exact Hg | reflexivity].
Defined.
