(* ===== verification/Candidate.v ===== *)
(** * Candidate: candidate sets and assignment proofs ([src/src/poawx_candidate.rs])

    For each role of a block there is a set of candidates; the one with the
    best effective score is to be chosen.  A candidate is bound to the block by
    an assignment proof: version 1 is a digest that anyone can recompute,
    version 2 carries the output of a verifiable random function.

    The curve and the random function (crates [secp256kfun], [vrf_fun]) and
    the decoder of their proofs ([bincode]) are the operations of the class
    [Vrf]; nothing is assumed of them.

    Shown here: the wire forms are faithful; the chosen candidate is one of the
    role and none is better; the choice does not depend on the order of the
    set. *)

From stdpp Require Import sorting.
From S2P Require Import Prelude Crypto Wire Activation Penalty Proposer Ticket.

Class Vrf := {
  Point : Type;
  VrfProof : Type;
  VrfVerified : Type;
  Point_from_bytes : bytes -> option Point;
  (** the proof and the number of bytes it took *)
  decode_vrf_proof : bytes -> option (VrfProof * Z);
  tai_verify : Point -> bytes -> VrfProof -> option VrfVerified;
  tai_output : VrfVerified -> bytes
}.

(** ** Constants *)
Definition ASSIGNMENT_PROOF_DOMAIN : bytes := byte_string "IRIUM_POAWX_ASSIGNMENT_PROOF_V1".
Definition CANDIDATE_SET_DOMAIN : bytes := byte_string "IRIUM_POAWX_CANDIDATE_SET_V1".
Definition CANDIDATE_SECTION_MAGIC : bytes := byte_string "CND1".
Definition ROLE_CANDIDATE_WIRE : Z := 175.
Definition MAX_CANDIDATES : Z := 256.
Definition EFFECTIVE_SCORE_SCALE : Z := 1000000.
Definition ASSIGNMENT_PROOF_V2_VERSION : Z := 2.
Definition VRF_PROOF_WIRE : Z := 81.
Definition ASSIGNMENT_PROOF_V2_WIRE : Z := 273.
Definition ASSIGNMENT_V2_DOMAIN : bytes := byte_string "IRIUM_POAWX_ASSIGNMENT_PROOF_V2".
Definition ASSIGNMENT_V2_SECTION_MAGIC : bytes := byte_string "AVR2".
Definition VRF_MESSAGE_DOMAIN : bytes := byte_string "IRIUM_POAWX_VRF_MESSAGE_V2".

(** ** Version 1 proofs and scores *)
Definition compute_assignment_proof_digest `{C : Crypto} (network_id target_height role_id : Z)
    (solver_pkh assignment_public_key ticket_digest seed : bytes) : bytes :=
  sha256 (ASSIGNMENT_PROOF_DOMAIN ++ [network_id] ++ le_bytes 8 target_height ++ [role_id] ++ solver_pkh
          ++ assignment_public_key ++ ticket_digest ++ seed).

Definition assignment_score_from_digest (proof_digest : bytes) : Z := le_val (take 8 proof_digest).

Definition U128_MAX : Z := 340282366920938463463374607431768211455.
Definition sat_mul128 (a b : Z) : Z := Z.min U128_MAX (a * b).

Definition effective_score (assignment_score dominance_weight penalty_weight : Z) : Z :=
  let v := sat_mul128 (sat_mul128 assignment_score dominance_weight) penalty_weight / EFFECTIVE_SCORE_SCALE in
  Z.min v U64_MAX.

Record AssignmentProofV1 := {
  a1_network_id : Z;
  a1_target_height : Z;
  a1_role_id : Z;
  a1_solver_pkh : bytes;
  a1_assignment_public_key : bytes;
  a1_ticket_digest : bytes;
  a1_seed : bytes;
  a1_proof_digest : bytes
}.

Section v1.
Context `{C : Crypto}.

Definition AssignmentProofV1_new (network_id target_height role_id : Z)
    (solver_pkh assignment_public_key ticket_digest seed : bytes) : AssignmentProofV1 :=
  {| a1_network_id := network_id; a1_target_height := target_height; a1_role_id := role_id;
     a1_solver_pkh := solver_pkh; a1_assignment_public_key := assignment_public_key;
     a1_ticket_digest := ticket_digest; a1_seed := seed;
     a1_proof_digest := compute_assignment_proof_digest network_id target_height role_id solver_pkh
                          assignment_public_key ticket_digest seed |}.

Definition score_v1 (a : AssignmentProofV1) : Z := assignment_score_from_digest (a1_proof_digest a).

Definition validate_assignment_v1 (a : AssignmentProofV1) (network_id target_height role_id : Z)
    (ticket_digest seed : bytes) : res string unit :=
  if negb (a1_network_id a =? network_id) then Err "assignment proof: wrong network"%string else
  if negb (a1_target_height a =? target_height) then Err "assignment proof: wrong height"%string else
  if negb (a1_role_id a =? role_id) then Err "assignment proof: wrong role"%string else
  if negb (beqb (a1_ticket_digest a) ticket_digest) then Err "assignment proof: wrong ticket digest"%string else
  if negb (beqb (a1_seed a) seed) then Err "assignment proof: wrong seed"%string else
  let expect := compute_assignment_proof_digest (a1_network_id a) (a1_target_height a) (a1_role_id a)
                  (a1_solver_pkh a) (a1_assignment_public_key a) (a1_ticket_digest a) (a1_seed a) in
  if negb (beqb expect (a1_proof_digest a)) then Err "assignment proof: digest mismatch"%string else
  Ok tt.
End v1.

(** ** Version 2 proofs *)
Record AssignmentProofV2 := {
  a2_version : Z;
  a2_network_id : Z;
  a2_target_height : Z;
  a2_role_id : Z;
  a2_solver_pkh : bytes;
  a2_assignment_public_key : bytes;
  a2_ticket_digest : bytes;
  a2_seed : bytes;
  a2_vrf_output : bytes;
  a2_vrf_proof : bytes;
  a2_digest : bytes
}.

Definition vrf_message (network_id target_height role_id : Z)
    (solver_pkh ticket_digest seed assignment_public_key : bytes) : bytes :=
  VRF_MESSAGE_DOMAIN ++ [network_id] ++ le_bytes 8 target_height ++ [role_id] ++ solver_pkh ++ ticket_digest
  ++ seed ++ assignment_public_key.

Definition serialize_assignment_v2 (a : AssignmentProofV2) : bytes :=
  [a2_version a] ++ [a2_network_id a] ++ le_bytes 8 (a2_target_height a) ++ [a2_role_id a] ++ a2_solver_pkh a
  ++ a2_assignment_public_key a ++ a2_ticket_digest a ++ a2_seed a ++ a2_vrf_output a ++ a2_vrf_proof a
  ++ a2_digest a.

Definition deserialize_assignment_v2 (raw : bytes) : res string AssignmentProofV2 :=
  if negb (len raw =? ASSIGNMENT_PROOF_V2_WIRE) then Err "assignment v2: bad length"%string else
  '(version, raw) ← rd_u8 raw;
  '(network_id, raw) ← rd_u8 raw;
  '(target_height, raw) ← rd_le 8 raw;
  '(role_id, raw) ← rd_u8 raw;
  '(solver_pkh, raw) ← rd 20 raw;
  '(assignment_public_key, raw) ← rd 33 raw;
  '(ticket_digest, raw) ← rd 32 raw;
  '(seed, raw) ← rd 32 raw;
  '(vrf_output, raw) ← rd 32 raw;
  '(vrf_proof, raw) ← rd 81 raw;
  '(digest, raw) ← rd 32 raw;
  Ok {| a2_version := version; a2_network_id := network_id; a2_target_height := target_height;
        a2_role_id := role_id; a2_solver_pkh := solver_pkh; a2_assignment_public_key := assignment_public_key;
        a2_ticket_digest := ticket_digest; a2_seed := seed; a2_vrf_output := vrf_output;
        a2_vrf_proof := vrf_proof; a2_digest := digest |}.

Record assignment_v2_ok (a : AssignmentProofV2) : Prop := {
  a2o_version : u8 (a2_version a);
  a2o_network : u8 (a2_network_id a);
  a2o_height : u64 (a2_target_height a);
  a2o_role : u8 (a2_role_id a);
  a2o_pkh : arr 20 (a2_solver_pkh a);
  a2o_key : arr 33 (a2_assignment_public_key a);
  a2o_ticket : arr 32 (a2_ticket_digest a);
  a2o_seed : arr 32 (a2_seed a);
  a2o_output : arr 32 (a2_vrf_output a);
  a2o_proof : arr 81 (a2_vrf_proof a);
  a2o_digest : arr 32 (a2_digest a)
}.

#[export] Instance AssignmentProofV2_wire : Wire AssignmentProofV2 :=
  {| to_wire := serialize_assignment_v2; of_wire := deserialize_assignment_v2; wire_ok := assignment_v2_ok |}.

Section v2.
Context `{C : Crypto} `{V : Vrf} (env : Env).

Definition compute_digest_v2 (a : AssignmentProofV2) : bytes :=
  sha256 (ASSIGNMENT_V2_DOMAIN ++ [a2_version a] ++ [a2_network_id a] ++ le_bytes 8 (a2_target_height a)
          ++ [a2_role_id a] ++ a2_solver_pkh a ++ a2_assignment_public_key a ++ a2_ticket_digest a
          ++ a2_seed a ++ a2_vrf_output a ++ a2_vrf_proof a).

Definition score_v2 (a : AssignmentProofV2) : Z := assignment_v2_score_from_output (a2_vrf_output a).

Definition validate_assignment_v2 (a : AssignmentProofV2) (network_id target_height : Z) : res string unit :=
  if negb (a2_version a =? ASSIGNMENT_PROOF_V2_VERSION) then Err "assignment v2: bad version"%string else
  if negb (a2_network_id a =? network_id) then Err "assignment v2: wrong network"%string else
  if negb (a2_target_height a =? target_height) then Err "assignment v2: wrong height"%string else
  if negb (beqb (compute_digest_v2 a) (a2_digest a)) then Err "assignment v2: digest mismatch"%string else
  pk ← ok_or (Point_from_bytes (a2_assignment_public_key a)) "assignment v2: bad vrf public key"%string;
  '(proof, used) ← ok_or (decode_vrf_proof (a2_vrf_proof a)) "assignment v2: malformed vrf proof"%string;
  if negb (used =? VRF_PROOF_WIRE) then Err "assignment v2: trailing proof bytes"%string else
  let alpha := vrf_message (a2_network_id a) (a2_target_height a) (a2_role_id a) (a2_solver_pkh a)
                 (a2_ticket_digest a) (a2_seed a) (a2_assignment_public_key a) in
  verified ← ok_or (tai_verify pk alpha proof) "assignment v2: vrf verification failed"%string;
  if negb (beqb (tai_output verified) (a2_vrf_output a)) then Err "assignment v2: vrf output mismatch"%string else
  if audit_hardening_active env target_height && (a2_role_id a =? ROLE_PROPOSER)
     && negb (beqb (a2_solver_pkh a) (hash160 (a2_assignment_public_key a)))
  then Err "assignment v2: solver pkh not derived from vrf key (audit)"%string else
  Ok tt.
End v2.

(** ** Candidates *)
Record RoleCandidate := {
  rc_role_id : Z;
  rc_solver_pkh : bytes;
  rc_assignment_public_key : bytes;
  rc_ticket_digest : bytes;
  rc_penalty_status : Z;
  rc_assignment_proof_digest : bytes;
  rc_dominance_weight : Z;
  rc_penalty_weight : Z;
  rc_effective_score : Z;
  rc_role_claim_digest : bytes
}.

Definition penalty_weight_of (penalty_status : Z) : Z :=
  match status_from_id penalty_status with Some p => weight_multiplier_permille p | None => 0 end.

(** What [build] and [from_assignment_v2] share. *)
Definition candidate_with (role_id : Z) (solver_pkh assignment_public_key ticket_digest : bytes)
    (penalty_status : Z) (assignment_proof_digest : bytes) (dominance_weight : Z) (role_claim_digest : bytes)
    : RoleCandidate :=
  {| rc_role_id := role_id; rc_solver_pkh := solver_pkh; rc_assignment_public_key := assignment_public_key;
     rc_ticket_digest := ticket_digest; rc_penalty_status := penalty_status;
     rc_assignment_proof_digest := assignment_proof_digest; rc_dominance_weight := dominance_weight;
     rc_penalty_weight := penalty_weight_of penalty_status;
     rc_effective_score := effective_score (assignment_score_from_digest assignment_proof_digest)
                             dominance_weight (penalty_weight_of penalty_status);
     rc_role_claim_digest := role_claim_digest |}.

Definition RoleCandidate_build `{C : Crypto} (network_id target_height : Z) (seed : bytes) (role_id : Z)
    (solver_pkh assignment_public_key ticket_digest : bytes) (penalty_status dominance_weight : Z)
    (role_claim_digest : bytes) : RoleCandidate :=
  candidate_with role_id solver_pkh assignment_public_key ticket_digest penalty_status
    (compute_assignment_proof_digest network_id target_height role_id solver_pkh assignment_public_key
       ticket_digest seed) dominance_weight role_claim_digest.

Definition from_assignment_v2 (proof : AssignmentProofV2) (penalty_status dominance_weight : Z)
    (role_claim_digest : bytes) : RoleCandidate :=
  candidate_with (a2_role_id proof) (a2_solver_pkh proof) (a2_assignment_public_key proof)
    (a2_ticket_digest proof) penalty_status (a2_vrf_output proof) dominance_weight role_claim_digest.

Definition serialize_candidate (c : RoleCandidate) : bytes :=
  [rc_role_id c] ++ rc_solver_pkh c ++ rc_assignment_public_key c ++ rc_ticket_digest c ++ [rc_penalty_status c]
  ++ rc_assignment_proof_digest c ++ le_bytes 8 (rc_dominance_weight c) ++ le_bytes 8 (rc_penalty_weight c)
  ++ le_bytes 8 (rc_effective_score c) ++ rc_role_claim_digest c.

Definition deserialize_candidate (raw : bytes) : res string RoleCandidate :=
  if negb (len raw =? ROLE_CANDIDATE_WIRE) then Err "role candidate: bad length"%string else
  '(role_id, raw) ← rd_u8 raw;
  '(solver_pkh, raw) ← rd 20 raw;
  '(assignment_public_key, raw) ← rd 33 raw;
  '(ticket_digest, raw) ← rd 32 raw;
  '(penalty_status, raw) ← rd_u8 raw;
  '(assignment_proof_digest, raw) ← rd 32 raw;
  '(dominance_weight, raw) ← rd_le 8 raw;
  '(penalty_weight, raw) ← rd_le 8 raw;
  '(effective_score, raw) ← rd_le 8 raw;
  '(role_claim_digest, raw) ← rd 32 raw;
  Ok {| rc_role_id := role_id; rc_solver_pkh := solver_pkh; rc_assignment_public_key := assignment_public_key;
        rc_ticket_digest := ticket_digest; rc_penalty_status := penalty_status;
        rc_assignment_proof_digest := assignment_proof_digest; rc_dominance_weight := dominance_weight;
        rc_penalty_weight := penalty_weight; rc_effective_score := effective_score;
        rc_role_claim_digest := role_claim_digest |}.

Record candidate_ok (c : RoleCandidate) : Prop := {
  rco_role : u8 (rc_role_id c);
  rco_pkh : arr 20 (rc_solver_pkh c);
  rco_key : arr 33 (rc_assignment_public_key c);
  rco_ticket : arr 32 (rc_ticket_digest c);
  rco_penalty : u8 (rc_penalty_status c);
  rco_proof : arr 32 (rc_assignment_proof_digest c);
  rco_dominance : u64 (rc_dominance_weight c);
  rco_weight : u64 (rc_penalty_weight c);
  rco_score : u64 (rc_effective_score c);
  rco_claim : arr 32 (rc_role_claim_digest c)
}.

#[export] Instance RoleCandidate_wire : Wire RoleCandidate :=
  {| to_wire := serialize_candidate; of_wire := deserialize_candidate; wire_ok := candidate_ok |}.

Definition validate_scoring (c : RoleCandidate) : res string unit :=
  ps ← ok_or (status_from_id (rc_penalty_status c)) "candidate: bad penalty status"%string;
  if negb (rc_penalty_weight c =? weight_multiplier_permille ps) then Err "candidate: penalty weight mismatch"%string else
  let score := assignment_score_from_digest (rc_assignment_proof_digest c) in
  if negb (rc_effective_score c =? effective_score score (rc_dominance_weight c) (rc_penalty_weight c))
  then Err "candidate: effective score mismatch"%string else
  Ok tt.

Definition validate_self `{C : Crypto} (c : RoleCandidate) (network_id target_height : Z) (seed : bytes)
    : res string unit :=
  let expect_digest := compute_assignment_proof_digest network_id target_height (rc_role_id c) (rc_solver_pkh c)
                         (rc_assignment_public_key c) (rc_ticket_digest c) seed in
  if negb (beqb expect_digest (rc_assignment_proof_digest c))
  then Err "candidate: assignment proof digest mismatch"%string else
  validate_scoring c.

(** Is [a] strictly better than [b]? *)
Definition candidate_better (a b : RoleCandidate) : bool :=
  if negb (rc_effective_score a =? rc_effective_score b) then rc_effective_score b <? rc_effective_score a else
  if negb (beqb (rc_assignment_proof_digest a) (rc_assignment_proof_digest b))
  then bytes_ltb (rc_assignment_proof_digest a) (rc_assignment_proof_digest b) else
  if negb (beqb (rc_solver_pkh a) (rc_solver_pkh b)) then bytes_ltb (rc_solver_pkh a) (rc_solver_pkh b) else
  bytes_ltb (rc_ticket_digest a) (rc_ticket_digest b).

(** ** Candidate sets *)
Record CandidateSet := {
  cset_network_id : Z;
  cset_target_height : Z;
  cset_seed : bytes;
  cset_candidates : list RoleCandidate
}.

Definition CandidateSet_new (network_id target_height : Z) (seed : bytes) : CandidateSet :=
  {| cset_network_id := network_id; cset_target_height := target_height; cset_seed := seed;
     cset_candidates := [] |}.

Definition set_candidates (s : CandidateSet) (cs : list RoleCandidate) : CandidateSet :=
  {| cset_network_id := cset_network_id s; cset_target_height := cset_target_height s; cset_seed := cset_seed s;
     cset_candidates := cs |}.

Definition push_candidate (s : CandidateSet) (c : RoleCandidate) : CandidateSet :=
  set_candidates s (cset_candidates s ++ [c]).

(** The key [(role_id, solver_pkh, ticket_digest, assignment_proof_digest)],
    compared field by field. *)
Definition sort_key (c : RoleCandidate) : list bytes :=
  [[rc_role_id c]; rc_solver_pkh c; rc_ticket_digest c; rc_assignment_proof_digest c].

Fixpoint key_ltb (a b : list bytes) : bool :=
  match a, b with
  | x :: a, y :: b => if bytes_ltb x y then true else if bytes_ltb y x then false else key_ltb a b
  | [], _ :: _ => true
  | _, _ => false
  end.

Definition key_leq (a b : RoleCandidate) : Prop := key_ltb (sort_key b) (sort_key a) = false.
#[export] Instance key_leq_dec : RelDecision key_leq.
Proof. unfold key_leq. intros a b. apply _. Defined.

Definition sort_canonical (s : CandidateSet) : CandidateSet :=
  set_candidates s (merge_sort key_leq (cset_candidates s)).

Fixpoint windows_increase (cs : list RoleCandidate) : bool :=
  match cs with
  | a :: (b :: _) as rest => key_ltb (sort_key a) (sort_key b) && windows_increase rest
  | _ => true
  end.

Definition is_canonical (s : CandidateSet) : bool := windows_increase (cset_candidates s).

Definition serialize_candidate_set (s : CandidateSet) : bytes :=
  [cset_network_id s] ++ le_bytes 8 (cset_target_height s) ++ cset_seed s
  ++ le_bytes 2 (as_u16 (len (cset_candidates s))) ++ write_all (cset_candidates s).

Definition deserialize_candidate_set (raw : bytes) : res string CandidateSet :=
  if len raw <? 1 + 8 + 32 + 2 then Err "candidate set: truncated header"%string else
  '(network_id, raw) ← rd_u8 raw;
  '(target_height, raw) ← rd_le 8 raw;
  '(seed, raw) ← rd 32 raw;
  '(count, raw) ← rd_le 2 raw;
  if MAX_CANDIDATES <? count then Err "candidate set: too many candidates"%string else
  if negb (len raw =? count * ROLE_CANDIDATE_WIRE) then Err "candidate set: bad length"%string else
  candidates ← read_list ROLE_CANDIDATE_WIRE (Z.to_nat count) raw;
  Ok {| cset_network_id := network_id; cset_target_height := target_height; cset_seed := seed;
        cset_candidates := candidates |}.

Record candidate_set_ok (s : CandidateSet) : Prop := {
  cso_network : u8 (cset_network_id s);
  cso_height : u64 (cset_target_height s);
  cso_seed : arr 32 (cset_seed s);
  cso_candidates : Forall candidate_ok (cset_candidates s);
  cso_count : len (cset_candidates s) <= 256
}.

#[export] Instance CandidateSet_wire : Wire CandidateSet :=
  {| to_wire := serialize_candidate_set; of_wire := deserialize_candidate_set; wire_ok := candidate_set_ok |}.

Definition candidate_set_root `{C : Crypto} (s : CandidateSet) : bytes :=
  sha256 (CANDIDATE_SET_DOMAIN ++ serialize_candidate_set s).

Fixpoint best_of (best : option RoleCandidate) (cs : list RoleCandidate) : option RoleCandidate :=
  match cs with
  | [] => best
  | c :: cs =>
      best_of (match best with
               | None => Some c
               | Some b => if candidate_better c b then Some c else Some b
               end) cs
  end.

Definition best_for_role (s : CandidateSet) (role_id : Z) : option RoleCandidate :=
  best_of None (filter (fun c => rc_role_id c = role_id) (cset_candidates s)).

(** ** Gates *)
Definition poawx_phase21d_gate (network_id : Z) (activation : option Z) (height : Z) : bool :=
  active_at (poawx_effective_activation network_id activation) height.
Definition poawx_phase21d_enforced_gate (network_id : Z) (activation : option Z) (required : bool) (height : Z) : bool :=
  poawx_phase21d_gate network_id activation height && required.

Section gates.
Context (env : Env).

Definition candidate_set_activation_height : option Z := env_u64 env "IRIUM_POAWX_CANDIDATE_SET_ACTIVATION_HEIGHT".
Definition candidate_set_required : bool :=
  if network_id_byte env =? 0 then true else env_flag env "IRIUM_POAWX_CANDIDATE_SET_REQUIRED".
Definition assignment_proof_activation_height : option Z :=
  env_u64 env "IRIUM_POAWX_ASSIGNMENT_PROOF_ACTIVATION_HEIGHT".
Definition assignment_proof_required : bool :=
  if network_id_byte env =? 0 then true else env_flag env "IRIUM_POAWX_ASSIGNMENT_PROOF_REQUIRED".
Definition true_vrf_activation_height : option Z := env_u64 env "IRIUM_POAWX_TRUE_VRF_ACTIVATION_HEIGHT".
Definition true_vrf_required : bool :=
  if network_id_byte env =? 0 then true else env_flag env "IRIUM_POAWX_TRUE_VRF_REQUIRED".

Definition candidate_set_active (height : Z) : bool :=
  poawx_phase21d_gate (network_id_byte env) candidate_set_activation_height height.
Definition candidate_set_enforced (height : Z) : bool :=
  poawx_phase21d_enforced_gate (network_id_byte env) candidate_set_activation_height candidate_set_required height.
Definition assignment_proof_active (height : Z) : bool :=
  poawx_phase21d_gate (network_id_byte env) assignment_proof_activation_height height.
Definition assignment_proof_enforced (height : Z) : bool :=
  poawx_phase21d_enforced_gate (network_id_byte env) assignment_proof_activation_height
    assignment_proof_required height.
Definition true_vrf_active (height : Z) : bool :=
  poawx_phase21d_gate (network_id_byte env) true_vrf_activation_height height.
Definition true_vrf_enforced (height : Z) : bool :=
  poawx_phase21d_enforced_gate (network_id_byte env) true_vrf_activation_height true_vrf_required height.
End gates.

(** ** Wire forms *)
Lemma assignment_v2_len a : assignment_v2_ok a -> len (serialize_assignment_v2 a) = 273.
Proof. revert a. fixed_len serialize_assignment_v2. Qed.

#[export] Instance AssignmentProofV2_fixed : FixedWire AssignmentProofV2_wire ASSIGNMENT_PROOF_V2_WIRE.
Proof.
  unfold ASSIGNMENT_PROOF_V2_WIRE. split; [split|]; cbn [of_wire to_wire wire_ok AssignmentProofV2_wire].
  - fixed_read assignment_v2_len serialize_assignment_v2 deserialize_assignment_v2.
  - fixed_canonical deserialize_assignment_v2 serialize_assignment_v2.
  - fixed_total deserialize_assignment_v2.
  - apply assignment_v2_len.
Qed.

Lemma candidate_len c : candidate_ok c -> len (serialize_candidate c) = 175.
Proof. revert c. fixed_len serialize_candidate. Qed.

#[export] Instance RoleCandidate_fixed : FixedWire RoleCandidate_wire ROLE_CANDIDATE_WIRE.
Proof.
  unfold ROLE_CANDIDATE_WIRE. split; [split|]; cbn [of_wire to_wire wire_ok RoleCandidate_wire].
  - fixed_read candidate_len serialize_candidate deserialize_candidate.
  - fixed_canonical deserialize_candidate serialize_candidate.
  - fixed_total deserialize_candidate.
  - apply candidate_len.
Qed.

#[export] Instance CandidateSet_exact : ExactWire CandidateSet_wire.
Proof.
  split; cbn [of_wire to_wire wire_ok CandidateSet_wire].
  - intros s [? ? [? ?] Hc Hn]. pose proof (len_write_all (W := RoleCandidate_wire) 175 _ Hc) as Hlen.
    unfold deserialize_candidate_set, serialize_candidate_set. pose proof (len_nonneg (cset_candidates s)).
    assert (u16 (len (cset_candidates s))) by (unfold u16; lia). rewrite as_u16_small by lia.
    replace (_ <? _) with false by len_lia. repeat read_field. unfold MAX_CANDIDATES, ROLE_CANDIDATE_WIRE.
    replace (256 <? _) with false by lia. replace (negb _) with false by lia.
    replace (Z.to_nat (len _)) with (length (cset_candidates s)) by (unfold len; lia).
    rewrite (read_list_app (W := RoleCandidate_wire) 175) by done. res_simpl. by destruct s.
  - intros raw s Hw H. unfold deserialize_candidate_set in H. wire_inv H. injection H as <-. wire_split Hw.
    unfold MAX_CANDIDATES, ROLE_CANDIDATE_WIRE in *.
    pose proof (arr_le_val 2 x0 ltac:(by split)) as Hb.
    match goal with H : read_list _ _ _ = Ok ?p |- _ => rename p into cs;
      apply (read_list_inv (W := RoleCandidate_wire) 175) in H as (Hc & <- & Hn); [| done | lia] end.
    assert (len cs = le_val x0) as Hlen by (unfold len; lia).
    split; [constructor; cbn; first [wire_leaf | done | lia]|].
    unfold serialize_candidate_set. cbn -[le_bytes le_val app as_u16]. rewrite Hlen, as_u16_small by lia.
    wire_unread. done.
  - intros raw. unfold deserialize_candidate_set, MAX_CANDIDATES, ROLE_CANDIDATE_WIRE. reads_total.
Qed.

(** ** The best candidate *)
Lemma better_irrefl a : candidate_better a a = false.
Proof.
  unfold candidate_better, beqb. rewrite Z.eqb_refl, !bool_decide_true by done. cbn. apply bytes_ltb_irrefl.
Qed.

(** One field of the comparison: the first difference decides. *)
Definition field_better (a b : bytes) (rest : bool) : bool := if negb (beqb a b) then bytes_ltb a b else rest.

Lemma field_better_trans a b c (r1 r2 r3 : bool) :
  (r1 = true -> r2 = true -> r3 = true) ->
  field_better a b r1 = true -> field_better b c r2 = true -> field_better a c r3 = true.
Proof.
  intros Hr. unfold field_better, beqb. repeat case_bool_decide; cbn; subst; try done; try (by eauto).
  - intros Hx Hy. by rewrite (bytes_ltb_asym _ _ Hx) in Hy.
  - intros Hx Hy. by eapply bytes_ltb_trans.
Qed.

Lemma better_trans a b c : candidate_better a b = true -> candidate_better b c = true -> candidate_better a c = true.
Proof.
  unfold candidate_better. intros Ha Hb.
  destruct (negb (rc_effective_score a =? rc_effective_score b)) eqn:E1; [repeat case_match; lia|].
  destruct (negb (rc_effective_score b =? rc_effective_score c)) eqn:E2; [repeat case_match; lia|].
  destruct (negb (rc_effective_score a =? rc_effective_score c)) eqn:E3; [lia|]. revert Ha Hb.
  apply (field_better_trans _ _ _ _ _ _ (field_better_trans _ _ _ _ _ _ (bytes_ltb_trans _ _ _))).
Qed.

Lemma bytes_ltb_neg a b c : bytes_ltb a c = true -> bytes_ltb a b = true \/ bytes_ltb b c = true.
Proof.
  intros H. destruct (bytes_ltb a b) eqn:Hab; [by left|]. right. destruct (bytes_ltb b a) eqn:Hba.
  - by eapply bytes_ltb_trans.
  - by rewrite <- (bytes_ltb_total a b).
Qed.

Lemma field_better_neg a b c (r1 r2 r3 : bool) :
  (r3 = true -> r1 = true \/ r2 = true) ->
  field_better a c r3 = true -> field_better a b r1 = true \/ field_better b c r2 = true.
Proof.
  intros Hr. unfold field_better, beqb. repeat case_bool_decide; cbn; subst; try done; try (by eauto).
  - intros _. destruct (bytes_ltb c b) eqn:E; [by left|]. right. apply dec_stable. intros E'.
    apply not_true_is_false in E'. by apply (bytes_ltb_total c b) in E.
  - apply bytes_ltb_neg.
Qed.

Lemma better_neg a b c : candidate_better a c = true -> candidate_better a b = true \/ candidate_better b c = true.
Proof.
  unfold candidate_better. intros H.
  destruct (negb (rc_effective_score a =? rc_effective_score c)) eqn:E1; [repeat case_match; lia|].
  destruct (negb (rc_effective_score a =? rc_effective_score b)) eqn:E2; [repeat case_match; lia|].
  destruct (negb (rc_effective_score b =? rc_effective_score c)) eqn:E3; [lia|]. revert H.
  apply (field_better_neg _ _ _ _ _ _ (field_better_neg _ _ _ _ _ _ (bytes_ltb_neg _ _ _))).
Qed.

Lemma best_of_spec cs : forall best,
  match best_of best cs with
  | None => best = None /\ cs = []
  | Some w => (best = Some w \/ w ∈ cs) /\
      (forall b, best = Some b -> candidate_better b w = false) /\ (forall c, c ∈ cs -> candidate_better c w = false)
  end.
Proof.
  induction cs as [|c cs IH]; intros best; cbn.
  - destruct best as [b|]; [|done]. split_and!; [by left | intros ? [= <-]; apply better_irrefl | set_solver].
  - assert (forall a n w, candidate_better a n = false -> candidate_better n w = false -> candidate_better a w = false) as Hneg.
    { intros a n w Ha Hn. destruct (candidate_better a w) eqn:E; [|done].
      apply (better_neg a n w) in E as [E|E]; congruence. }
    assert (exists n, match best with None => Some c | Some b => if candidate_better c b then Some c else Some b end = Some n
      /\ (best = Some n \/ n = c) /\ candidate_better c n = false /\
      forall b, best = Some b -> candidate_better b n = false) as (n & -> & Hor & Hc & Hb).
    { destruct best as [b|]; [destruct (candidate_better c b) eqn:E|].
      - exists c. split_and!; [done | by right | apply better_irrefl |]. intros b' [= <-].
        destruct (candidate_better b c) eqn:Hbc; [|done]. pose proof (better_trans _ _ _ E Hbc) as Hcc.
        by rewrite better_irrefl in Hcc.
      - exists b. split_and!; [done | by left | done |]. intros ? [= <-]. apply better_irrefl.
      - exists c. split_and!; [done | by right | apply better_irrefl | done]. }
    specialize (IH (Some n)). destruct (best_of (Some n) cs) as [w|]; [|by destruct IH].
    destruct IH as (Hw & Hbest & Hcs). specialize (Hbest n eq_refl). split_and!.
    + destruct Hw as [[= ->]|Hw]; [destruct Hor as [Hor| ->]; [by left | by right; left] | by right; right].
    + intros b Hbe. by eapply Hneg; [apply Hb|].
    + intros d [->|Hd]%elem_of_cons; [by eapply Hneg | by apply Hcs].
Qed.

Lemma best_for_role_spec s role_id :
  match best_for_role s role_id with
  | None => forall c, c ∈ cset_candidates s -> rc_role_id c <> role_id
  | Some w => w ∈ cset_candidates s /\ rc_role_id w = role_id /\
      forall c, c ∈ cset_candidates s -> rc_role_id c = role_id -> candidate_better c w = false
  end.
Proof.
  unfold best_for_role. pose proof (best_of_spec (filter (fun c => rc_role_id c = role_id) (cset_candidates s)) None) as H.
  destruct (best_of _ _) as [w|].
  - destruct H as ([?|Hw] & _ & Hc); [done|]. apply list_elem_of_filter in Hw as [Hr Hw].
    split_and!; [done | done|]. intros c Hin Hrc. apply Hc. by apply list_elem_of_filter.
  - destruct H as [_ H]. intros c Hin Hrc. assert (c ∈ filter (fun c => rc_role_id c = role_id) (cset_candidates s)) as Hf
      by (by apply list_elem_of_filter). rewrite H in Hf. by apply elem_of_nil in Hf.
Qed.

(** Candidates that neither beats the other agree on what the key of a set
    tells apart. *)
Lemma not_better_eq a b : candidate_better a b = false -> candidate_better b a = false ->
  rc_role_id a = rc_role_id b -> sort_key a = sort_key b.
Proof.
  unfold candidate_better, beqb, sort_key. intros H1 H2 ->.
  rewrite (Z.eqb_sym (rc_effective_score b)) in H2.
  destruct (negb (rc_effective_score a =? rc_effective_score b)) eqn:E1; [lia|].
  destruct (decide (rc_assignment_proof_digest a = rc_assignment_proof_digest b)) as [Hd|Hd].
  - rewrite bool_decide_true in H1, H2 by done. cbn in H1, H2.
    destruct (decide (rc_solver_pkh a = rc_solver_pkh b)) as [Hp|Hp].
    + rewrite bool_decide_true in H1, H2 by done. cbn in H1, H2. by rewrite Hd, Hp, (bytes_ltb_total _ _ H1 H2).
    + rewrite bool_decide_false in H1, H2 by done. cbn in H1, H2. by apply (bytes_ltb_total _ _ H1) in H2.
  - rewrite bool_decide_false in H1, H2 by done. cbn in H1, H2. by apply (bytes_ltb_total _ _ H1) in H2.
Qed.

Lemma best_for_role_perm s cs cs' role_id : cs ≡ₚ cs' -> NoDup (sort_key <$> cs) ->
  best_for_role (set_candidates s cs) role_id = best_for_role (set_candidates s cs') role_id.
Proof.
  intros Hp Hn. pose proof (best_for_role_spec (set_candidates s cs) role_id) as H1.
  pose proof (best_for_role_spec (set_candidates s cs') role_id) as H2. cbn [cset_candidates set_candidates] in H1, H2.
  destruct (best_for_role (set_candidates s cs) role_id) as [w|],
    (best_for_role (set_candidates s cs') role_id) as [w'|].
  - destruct H1 as (Hw & Hr & Hb), H2 as (Hw' & Hr' & Hb'). f_equal.
    rewrite <- Hp in Hw'. pose proof (Hb w' Hw' Hr') as E1. pose proof (Hb' w ltac:(by rewrite <- Hp) Hr) as E2.
    pose proof (not_better_eq w w' E2 E1 ltac:(congruence)) as Hk.
    apply list_elem_of_lookup in Hw as [i Hi], Hw' as [j Hj].
    assert (i = j) as <-; [|congruence]. eapply NoDup_lookup; [exact Hn | |]; rewrite list_lookup_fmap.
    + by rewrite Hi.
    + rewrite Hj. cbn. by rewrite Hk.
  - destruct H1 as (Hw & Hr & _). rewrite Hp in Hw. by apply H2 in Hr.
  - destruct H2 as (Hw & Hr & _). rewrite <- Hp in Hw. by apply H1 in Hr.
  - done.
Qed.

(** *** Canonical order *)
Lemma key_ltb_irrefl a : key_ltb a a = false.
Proof. induction a as [|x a IH]; [done|]. cbn. by rewrite bytes_ltb_irrefl. Qed.

Lemma key_ltb_trans a : forall b c, key_ltb a b = true -> key_ltb b c = true -> key_ltb a c = true.
Proof.
  induction a as [|x a IH]; intros [|y b] [|z c]; cbn; try done.
  destruct (bytes_ltb x y) eqn:E1, (bytes_ltb y z) eqn:E2; try done.
  - by rewrite (bytes_ltb_trans _ _ _ E1 E2).
  - destruct (bytes_ltb z y) eqn:E3; [done|]. by rewrite <- (bytes_ltb_total _ _ E2 E3), E1.
  - destruct (bytes_ltb y x) eqn:E3; [done|]. by rewrite (bytes_ltb_total _ _ E1 E3), E2.
  - destruct (bytes_ltb y x) eqn:E3; [done|]. destruct (bytes_ltb z y) eqn:E4; [done|].
    rewrite (bytes_ltb_total _ _ E1 E3), (bytes_ltb_total _ _ E2 E4), bytes_ltb_irrefl. apply IH.
Qed.

Lemma key_ltb_total a : forall b, key_ltb a b = false -> key_ltb b a = false -> a = b.
Proof.
  induction a as [|x a IH]; intros [|y b]; cbn; try done.
  destruct (bytes_ltb x y) eqn:E1, (bytes_ltb y x) eqn:E2; try done. intros H1 H2.
  by rewrite (bytes_ltb_total _ _ E1 E2), (IH _ H1 H2).
Qed.

#[export] Instance key_leq_total : Total key_leq.
Proof.
  intros a b. unfold key_leq. destruct (key_ltb (sort_key b) (sort_key a)) eqn:E; [right|by left].
  destruct (key_ltb (sort_key a) (sort_key b)) eqn:E'; [|done].
  by rewrite <- (key_ltb_irrefl (sort_key a)), (key_ltb_trans _ _ _ E' E).
Qed.

Lemma windows_increase_spec cs : Sorted key_leq cs -> NoDup (sort_key <$> cs) -> windows_increase cs = true.
Proof.
  induction 1 as [|a cs Hs IH Hh]; [done|]. cbn [fmap list_fmap]. intros [Ha Hn]%NoDup_cons.
  destruct cs as [|b cs]; [done|]. change (key_ltb (sort_key a) (sort_key b) && windows_increase (b :: cs) = true). rewrite IH by done. inversion Hh as [|? ? Hab]; subst.
  unfold key_leq in Hab. rewrite andb_true_r. destruct (key_ltb (sort_key a) (sort_key b)) eqn:E; [done|].
  exfalso. apply Ha. rewrite (key_ltb_total _ _ E Hab). cbn. by left.
Qed.

Lemma sort_canonical_canonical s : NoDup (sort_key <$> cset_candidates s) -> is_canonical (sort_canonical s) = true.
Proof.
  intros Hn. apply windows_increase_spec; cbn; [apply Sorted_merge_sort; apply _|].
  by rewrite merge_sort_Permutation.
Qed.

(** ** Theorems *)

(** The candidate chosen for a role is one of the role's candidates and no
    other of them is better; there is none only when the role has no candidate.
    When the keys of the set are distinct, bringing it into canonical order
    makes it canonical and changes the choice for no role. *)
Theorem best_candidate_chosen s role_id :
  NoDup (sort_key <$> cset_candidates s) ->
  is_canonical (sort_canonical s) = true /\
  best_for_role (sort_canonical s) role_id = best_for_role s role_id /\
  match best_for_role s role_id with
  | None => forall c, c ∈ cset_candidates s -> rc_role_id c <> role_id
  | Some w => w ∈ cset_candidates s /\ rc_role_id w = role_id /\
      forall c, c ∈ cset_candidates s -> rc_role_id c = role_id -> candidate_better c w = false
  end.
Proof.
  intros Hn. split_and!; [by apply sort_canonical_canonical | | apply best_for_role_spec].
  transitivity (best_for_role (set_candidates s (cset_candidates s)) role_id); [|by destruct s].
  unfold sort_canonical. apply best_for_role_perm; [apply merge_sort_Permutation|].
  by rewrite merge_sort_Permutation.
Qed.

(** Two candidates of one role and one of another, out of order. *)
Definition sample_candidates : CandidateSet :=
  set_candidates (CandidateSet_new 1 9 (zeros 32))
    [candidate_with 2 (replicate 20 5) (replicate 33 2) (zeros 32) 0 (replicate 32 9) 1000 (zeros 32);
     candidate_with 1 (replicate 20 6) (replicate 33 2) (zeros 32) 0 (replicate 32 4) 1000 (zeros 32);
     candidate_with 1 (replicate 20 4) (replicate 33 2) (zeros 32) 2 (replicate 32 7) 1000 (zeros 32)].

Lemma best_candidate_chosen_witness :
  is_canonical (sort_canonical sample_candidates) = true /\
  best_for_role (sort_canonical sample_candidates) 1 = best_for_role sample_candidates 1 /\
  match best_for_role sample_candidates 1 with
  | None => forall c, c ∈ cset_candidates sample_candidates -> rc_role_id c <> 1
  | Some w => w ∈ cset_candidates sample_candidates /\ rc_role_id w = 1 /\
      forall c, c ∈ cset_candidates sample_candidates -> rc_role_id c = 1 -> candidate_better c w = false
  end.
Proof. apply (best_candidate_chosen sample_candidates 1). decided. Defined.

(** The reduced identity has the larger draw and loses. *)
Example sample_choice :
  is_canonical sample_candidates = false /\
  (rc_solver_pkh <$> best_for_role sample_candidates 1) = Some (replicate 20 6).
Proof. split; vm_compute; reflexivity. Qed.
