(* ===== verification/Puzzle.v ===== *)
(** * Puzzle: assigned work ([src/src/poawx_puzzle.rs])

    Every rewarded role of a block has a puzzle, derived from the block, the
    role, the solver and its ticket.  Three of the five modes ask for a nonce
    whose output has enough leading zero bits (a double SHA-256, a walk through
    a scratch memory, a bundle of lanes); the other two ask for a digest.

    Shown here: what the solver returns is accepted; a solution is accepted
    exactly when it is the output of its nonce and heavy enough; the memory walk
    stays inside its scratch memory, whatever the profile. *)

From S2P Require Import Prelude Crypto Wire Activation Proposer Ticket.

Definition MODE_DOMAIN : bytes := byte_string "IRIUM_POAWX_PUZZLE_MODE_V1".
Definition CHALLENGE_DOMAIN : bytes := byte_string "IRIUM_POAWX_PUZZLE_CHALLENGE_V1".
Definition ANCHOR_DOMAIN : bytes := byte_string "IRIUM_POAWX_PUZZLE_ANCHOR_V1".
Definition MEM_DOMAIN : bytes := byte_string "IRIUM_POAWX_PUZZLE_MEM_V1".
Definition PAR_DOMAIN : bytes := byte_string "IRIUM_POAWX_PUZZLE_PAR_V1".
Definition VERIFY_DOMAIN : bytes := byte_string "IRIUM_POAWX_PUZZLE_VERIFY_V1".
Definition FINALITY_DOMAIN : bytes := byte_string "IRIUM_POAWX_PUZZLE_FINALITY_V1".
Definition PUZZLE_SECTION_MAGIC : bytes := byte_string "PZL1".
Definition PUZZLE_SOLUTION_WIRE : Z := 41.
Definition MAX_MEM_WORDS : Z := 4096.
Definition MAX_LANES : Z := 16.
Definition MAX_ITERATIONS : Z := 4096.
Definition MAX_ANCHOR_BITS : Z := 24.
Definition SOLVE_NONCE_CAP : Z := 16777216.

(** ** Modes and profiles *)
Inductive PuzzleMode := Sha256dAnchor | RandomMemory | ParallelCompute | VerificationWork | FinalityWorkPlaceholder.

#[export] Instance PuzzleMode_eq_dec : EqDecision PuzzleMode.
Proof. solve_decision. Defined.

Definition mode_id (m : PuzzleMode) : Z :=
  match m with
  | Sha256dAnchor => 0 | RandomMemory => 1 | ParallelCompute => 2 | VerificationWork => 3
  | FinalityWorkPlaceholder => 4
  end.

Definition mode_from_id (b : Z) : option PuzzleMode :=
  if b =? 0 then Some Sha256dAnchor else if b =? 1 then Some RandomMemory else
  if b =? 2 then Some ParallelCompute else if b =? 3 then Some VerificationWork else
  if b =? 4 then Some FinalityWorkPlaceholder else None.

(** [from_id(i % 5).expect(...)]: [None] is the panic, which cannot happen. *)
Definition mode_from_index (i : Z) : option PuzzleMode := mode_from_id (i mod 5).

Definition is_threshold_work (m : PuzzleMode) : bool :=
  match m with Sha256dAnchor | RandomMemory | ParallelCompute => true | _ => false end.

Record PuzzleDifficultyProfile := { anchor_bits : Z; mem_words : Z; lanes : Z; iterations : Z }.

Definition PuzzleDifficultyProfile_default : PuzzleDifficultyProfile :=
  {| anchor_bits := 8; mem_words := 64; lanes := 4; iterations := 16 |}.

Definition clamped (p : PuzzleDifficultyProfile) : PuzzleDifficultyProfile :=
  {| anchor_bits := Z.min (anchor_bits p) MAX_ANCHOR_BITS;
     mem_words := Z.min (Z.max (mem_words p) 1) MAX_MEM_WORDS;
     lanes := Z.min (Z.max (lanes p) 1) MAX_LANES;
     iterations := Z.min (iterations p) MAX_ITERATIONS |}.

Definition serialize_profile (p : PuzzleDifficultyProfile) : bytes :=
  let c := clamped p in
  [anchor_bits c] ++ le_bytes 4 (mem_words c) ++ [lanes c] ++ le_bytes 4 (iterations c).

Definition with_bits (p : PuzzleDifficultyProfile) (b : Z) : PuzzleDifficultyProfile :=
  {| anchor_bits := b; mem_words := mem_words p; lanes := lanes p; iterations := iterations p |}.

Definition default_profile (env : Env) : PuzzleDifficultyProfile :=
  clamped (match env_u8 env "IRIUM_POAWX_PUZZLE_BITS" with
           | Some b => with_bits PuzzleDifficultyProfile_default b
           | None => PuzzleDifficultyProfile_default
           end).

Definition profile_with_bits (bits : Z) : PuzzleDifficultyProfile :=
  clamped (with_bits PuzzleDifficultyProfile_default bits).

(** ** Challenges *)
Record PuzzleChallengeV1 := {
  pc_network_id : Z;
  pc_target_height : Z;
  pc_role_id : Z;
  pc_solver_pkh : bytes;
  pc_ticket_digest : bytes;
  pc_assignment_proof_digest : bytes;
  pc_candidate_digest : bytes;
  pc_seed : bytes;
  pc_mode : PuzzleMode;
  pc_profile : PuzzleDifficultyProfile;
  pc_challenge_digest : bytes
}.

Record PuzzleSolutionV1 := { ps_mode : Z; ps_nonce : Z; ps_proof_digest : bytes }.

Definition serialize_solution (s : PuzzleSolutionV1) : bytes :=
  [ps_mode s] ++ le_bytes 8 (ps_nonce s) ++ ps_proof_digest s.

Definition deserialize_solution (raw : bytes) : res string PuzzleSolutionV1 :=
  if negb (len raw =? PUZZLE_SOLUTION_WIRE) then Err "puzzle solution: bad length"%string else
  '(mode, raw) ← rd_u8 raw;
  '(nonce, raw) ← rd_le 8 raw;
  '(proof_digest, raw) ← rd 32 raw;
  Ok {| ps_mode := mode; ps_nonce := nonce; ps_proof_digest := proof_digest |}.

Record solution_ok (s : PuzzleSolutionV1) : Prop := {
  pso_mode : u8 (ps_mode s);
  pso_nonce : u64 (ps_nonce s);
  pso_digest : arr 32 (ps_proof_digest s)
}.

#[export] Instance PuzzleSolutionV1_wire : Wire PuzzleSolutionV1 :=
  {| to_wire := serialize_solution; of_wire := deserialize_solution; wire_ok := solution_ok |}.

(** ** 64-bit words *)
Definition wmul64 (a b : Z) : Z := (a * b) mod 2 ^ 64.
Definition rotate_left64 (x n : Z) : Z := Z.lor (Z.shiftl x n mod 2 ^ 64) (Z.shiftr x (64 - n)).

(** The scratch memory is filled from a linear congruential generator ... *)
Fixpoint fill_scratch (n : nat) (i acc : Z) : list Z * Z :=
  match n with
  | O => ([], acc)
  | S n =>
      let acc := wadd64 (wmul64 acc 6364136223846793005) (Z.lxor 1442695040888963407 i) in
      let '(rest, last) := fill_scratch n (i + 1) acc in
      (acc :: rest, last)
  end.

(** ... and walked: the index is always taken modulo its length. *)
Fixpoint walk_scratch (iters : nat) (scratch : list Z) (acc : Z) : Z :=
  match iters with
  | O => acc
  | S iters =>
      let idx := Z.to_nat (acc mod len scratch) in
      let acc := Z.lxor (rotate_left64 acc 13) (wmul64 (scratch !!! idx) 11400714819323198485) in
      walk_scratch iters (<[idx := acc]> scratch) acc
  end.

Section puzzle.
Context `{C : Crypto}.

Definition assign_puzzle_mode (network_id target_height role_id : Z)
    (solver_pkh ticket_digest assignment_proof_digest seed : bytes) : option PuzzleMode :=
  let d := sha256 (MODE_DOMAIN ++ [network_id] ++ le_bytes 8 target_height ++ [role_id] ++ solver_pkh
                   ++ ticket_digest ++ assignment_proof_digest ++ seed) in
  b ← d !! 0%nat;
  mode_from_index b.

Definition compute_challenge_digest (network_id target_height role_id : Z)
    (solver_pkh ticket_digest assignment_proof_digest candidate_digest seed : bytes) (mode : PuzzleMode)
    (profile : PuzzleDifficultyProfile) : bytes :=
  sha256 (CHALLENGE_DOMAIN ++ [network_id] ++ le_bytes 8 target_height ++ [role_id] ++ solver_pkh ++ ticket_digest
          ++ assignment_proof_digest ++ candidate_digest ++ seed ++ [mode_id mode] ++ serialize_profile profile).

Definition PuzzleChallengeV1_build (network_id target_height role_id : Z)
    (solver_pkh ticket_digest assignment_proof_digest candidate_digest seed : bytes)
    (profile : PuzzleDifficultyProfile) : option PuzzleChallengeV1 :=
  let profile := clamped profile in
  mode ← assign_puzzle_mode network_id target_height role_id solver_pkh ticket_digest assignment_proof_digest seed;
  Some {| pc_network_id := network_id; pc_target_height := target_height; pc_role_id := role_id;
          pc_solver_pkh := solver_pkh; pc_ticket_digest := ticket_digest;
          pc_assignment_proof_digest := assignment_proof_digest; pc_candidate_digest := candidate_digest;
          pc_seed := seed; pc_mode := mode; pc_profile := profile;
          pc_challenge_digest := compute_challenge_digest network_id target_height role_id solver_pkh ticket_digest
                                   assignment_proof_digest candidate_digest seed mode profile |}.

Definition anchor_output (challenge_digest : bytes) (nonce : Z) : bytes :=
  sha256d (ANCHOR_DOMAIN ++ challenge_digest ++ le_bytes 8 nonce).

Definition memory_output (challenge_digest : bytes) (nonce : Z) (p : PuzzleDifficultyProfile) : bytes :=
  let p := clamped p in
  let '(scratch, acc) :=
    fill_scratch (Z.to_nat (mem_words p)) 0 (Z.lxor (le_val (take 8 challenge_digest)) nonce) in
  let acc := walk_scratch (Z.to_nat (iterations p)) scratch acc in
  sha256 (MEM_DOMAIN ++ challenge_digest ++ le_bytes 8 nonce ++ le_bytes 8 acc).

Definition parallel_output (challenge_digest : bytes) (nonce : Z) (p : PuzzleDifficultyProfile) : bytes :=
  let p := clamped p in
  sha256 (PAR_DOMAIN ++ challenge_digest ++ le_bytes 8 nonce
          ++ concat ((fun lane => sha256 (challenge_digest ++ le_bytes 8 nonce ++ [lane])) <$> seqZ 0 (lanes p))).

Definition verification_digest (c : PuzzleChallengeV1) : bytes :=
  sha256 (VERIFY_DOMAIN ++ pc_challenge_digest c ++ pc_candidate_digest c ++ pc_assignment_proof_digest c).

Definition finality_digest (c : PuzzleChallengeV1) : bytes :=
  sha256 (FINALITY_DOMAIN ++ pc_challenge_digest c ++ pc_seed c).

Definition threshold_output (c : PuzzleChallengeV1) (nonce : Z) : bytes :=
  match pc_mode c with
  | Sha256dAnchor => anchor_output (pc_challenge_digest c) nonce
  | RandomMemory => memory_output (pc_challenge_digest c) nonce (pc_profile c)
  | ParallelCompute => parallel_output (pc_challenge_digest c) nonce (pc_profile c)
  | _ => zeros 32
  end.

Fixpoint solve_from (cap : nat) (nonce : Z) (c : PuzzleChallengeV1) : option PuzzleSolutionV1 :=
  match cap with
  | O => None
  | S cap =>
      let out := threshold_output c nonce in
      if anchor_bits (pc_profile c) <=? leading_zero_bits out
      then Some {| ps_mode := mode_id (pc_mode c); ps_nonce := nonce; ps_proof_digest := out |}
      else solve_from cap (nonce + 1) c
  end.

Definition solve_dev (c : PuzzleChallengeV1) : option PuzzleSolutionV1 :=
  match pc_mode c with
  | VerificationWork =>
      Some {| ps_mode := mode_id (pc_mode c); ps_nonce := 0; ps_proof_digest := verification_digest c |}
  | FinalityWorkPlaceholder =>
      Some {| ps_mode := mode_id (pc_mode c); ps_nonce := 0; ps_proof_digest := finality_digest c |}
  | _ => solve_from (Z.to_nat SOLVE_NONCE_CAP) 0 c
  end.

(** [Ok tt] is [Valid], [Err] is [Invalid]. *)
Definition verify_solution (c : PuzzleChallengeV1) (s : PuzzleSolutionV1) : res string unit :=
  if negb (ps_mode s =? mode_id (pc_mode c)) then Err "wrong mode"%string else
  match pc_mode c with
  | VerificationWork =>
      if negb (ps_nonce s =? 0) || negb (beqb (ps_proof_digest s) (verification_digest c))
      then Err "bad verification reference"%string else Ok tt
  | FinalityWorkPlaceholder =>
      if negb (ps_nonce s =? 0) || negb (beqb (ps_proof_digest s) (finality_digest c))
      then Err "bad finality reference"%string else Ok tt
  | _ =>
      let out := threshold_output c (ps_nonce s) in
      if negb (beqb out (ps_proof_digest s)) then Err "proof digest mismatch"%string else
      if leading_zero_bits out <? anchor_bits (pc_profile c) then Err "below assigned-work threshold"%string else
      Ok tt
  end.
End puzzle.

(** ** Gates *)
Definition puzzle_work_gate (network_id : Z) (activation : option Z) (height : Z) : bool :=
  active_at (poawx_effective_activation network_id activation) height.
Definition puzzle_work_enforced_gate (network_id : Z) (activation : option Z) (required : bool) (height : Z) : bool :=
  puzzle_work_gate network_id activation height && required.

Section gates.
Context (env : Env).
Definition puzzle_work_activation_height : option Z := env_u64 env "IRIUM_POAWX_PUZZLE_WORK_ACTIVATION_HEIGHT".
Definition puzzle_work_required : bool :=
  if network_id_byte env =? 0 then true else env_flag env "IRIUM_POAWX_PUZZLE_WORK_REQUIRED".
Definition puzzle_work_active (height : Z) : bool :=
  puzzle_work_gate (network_id_byte env) puzzle_work_activation_height height.
Definition puzzle_work_enforced (height : Z) : bool :=
  puzzle_work_enforced_gate (network_id_byte env) puzzle_work_activation_height puzzle_work_required height.
End gates.

(** ** Wire form *)
Lemma solution_len s : solution_ok s -> len (serialize_solution s) = 41.
Proof. revert s. fixed_len serialize_solution. Qed.

#[export] Instance PuzzleSolutionV1_fixed : FixedWire PuzzleSolutionV1_wire PUZZLE_SOLUTION_WIRE.
Proof.
  unfold PUZZLE_SOLUTION_WIRE. split; [split|]; cbn [of_wire to_wire wire_ok PuzzleSolutionV1_wire].
  - fixed_read solution_len serialize_solution deserialize_solution.
  - fixed_canonical deserialize_solution serialize_solution.
  - fixed_total deserialize_solution.
  - apply solution_len.
Qed.

(** ** Facts *)
Lemma mode_from_index_total i : is_Some (mode_from_index i).
Proof.
  unfold mode_from_index, mode_from_id. pose proof (Z.mod_pos_bound i 5 ltac:(lia)).
  repeat (case_match; [by eexists|]). lia.
Qed.

Lemma fill_scratch_length n : forall i acc, length (fill_scratch n i acc).1 = n.
Proof.
  induction n as [|n IH]; intros i acc; [done|]. cbn.
  specialize (IH (i + 1) (wadd64 (wmul64 acc 6364136223846793005) (Z.lxor 1442695040888963407 i))).
  destruct (fill_scratch n _ _) as [rest l]. cbn in *. lia.
Qed.

Lemma clamped_words p : 1 <= mem_words (clamped p) <= 4096.
Proof. cbn. unfold MAX_MEM_WORDS. lia. Qed.

Lemma solve_from_spec `{C : Crypto} c cap : forall nonce s, solve_from cap nonce c = Some s ->
  ps_mode s = mode_id (pc_mode c) /\ ps_proof_digest s = threshold_output c (ps_nonce s) /\
  anchor_bits (pc_profile c) <= leading_zero_bits (ps_proof_digest s).
Proof.
  induction cap as [|cap IH]; intros nonce s H; [done|]. cbn in H. case_match.
  - injection H as <-. cbn. split_and!; [done | done | lia].
  - by eapply IH.
Qed.

(** ** Theorems *)

(** The assigned work: a solution the solver returns is accepted; in the
    modes that ask for work a solution is accepted exactly when its digest is
    the output of its nonce and has the leading zero bits of the profile; in
    the other two modes exactly one solution is accepted. *)
Theorem puzzle_verification `{C : Crypto} c s :
  (solve_dev c = Some s -> verify_solution c s = Ok tt) /\
  (is_threshold_work (pc_mode c) = true ->
     verify_solution c s = Ok tt <->
       ps_mode s = mode_id (pc_mode c) /\ ps_proof_digest s = threshold_output c (ps_nonce s) /\
       anchor_bits (pc_profile c) <= leading_zero_bits (ps_proof_digest s)) /\
  (is_threshold_work (pc_mode c) = false ->
     verify_solution c s = Ok tt <-> solve_dev c = Some s).
Proof.
  assert (is_threshold_work (pc_mode c) = true ->
     verify_solution c s = Ok tt <->
       ps_mode s = mode_id (pc_mode c) /\ ps_proof_digest s = threshold_output c (ps_nonce s) /\
       anchor_bits (pc_profile c) <= leading_zero_bits (ps_proof_digest s)) as H1.
  { intros Ht. unfold verify_solution, beqb.
    destruct (Z.eqb_spec (ps_mode s) (mode_id (pc_mode c))) as [Hm|Hm]; [|split; [done | by intros (? & _)]].
    destruct (pc_mode c) eqn:Hmode; try done; cbn [negb];
      (case_bool_decide as Hd; [|split; [done | intros (_ & Hd' & _); by rewrite Hd' in Hd]]); cbn [negb]; rewrite <- Hd;
      (destruct (_ <? _) eqn:Hb; [split; [done | lia] | split; [intros _; split_and!; [done | done | lia] | done]]). }
  assert (is_threshold_work (pc_mode c) = false -> verify_solution c s = Ok tt <-> solve_dev c = Some s) as H2.
  { intros Ht. unfold verify_solution, solve_dev, beqb. destruct s as [m n d]. cbn [ps_mode ps_nonce ps_proof_digest].
    destruct (Z.eqb_spec m (mode_id (pc_mode c))) as [Hm|Hm];
      [|split; [done | intros H; destruct (pc_mode c); try done; injection H; congruence]].
    destruct (pc_mode c) eqn:Hmode; try done; cbn [negb];
      (destruct (Z.eqb_spec n 0) as [Hn|Hn]; [|split; [done | by intros [= ? ? ?]]]);
      (case_bool_decide as Hd; [|split; [done | by intros [= ? ? ?]]]); subst; done. }
  split_and!; [|done|done]. intros Hs. destruct (is_threshold_work (pc_mode c)) eqn:Ht; [|by apply H2].
  apply H1; [done|]. unfold solve_dev in Hs. destruct (pc_mode c) eqn:Hmode; try done; rewrite <- Hmode;
    by eapply solve_from_spec.
Qed.

(** The memory puzzle is bounded whatever the profile asks for: at most 4096
    words, at most 4096 steps, and every index of the walk lies inside the
    scratch memory. *)
Theorem memory_walk_bounded p acc0 acc :
  let '(scratch, _) := fill_scratch (Z.to_nat (mem_words (clamped p))) 0 acc0 in
  1 <= len scratch <= 4096 /\ 0 <= acc mod len scratch < len scratch /\
  (Z.to_nat (iterations (clamped p)) <= 4096)%nat /\
  (forall idx v, length (<[idx := v]> scratch) = length scratch).
Proof.
  pose proof (fill_scratch_length (Z.to_nat (mem_words (clamped p))) 0 acc0) as Hl.
  destruct (fill_scratch _ _ _) as [scratch l]. cbn [fst] in Hl. pose proof (clamped_words p).
  assert (1 <= len scratch <= 4096) as Hb by (unfold len; lia).
  split_and!; [lia | lia | apply Z.mod_pos_bound; lia | apply Z.mod_pos_bound; lia | | intros; apply length_insert].
  cbn. unfold MAX_ITERATIONS. lia.
Qed.
