(* ===== verification/Finality.v ===== *)
(** * Finality: committee votes, finality proofs and fraud proofs
    ([src/src/poawx_finality.rs], [src/src/poawx_challenge.rs])

    A committee votes on a block; a proof with enough commit votes finalizes it.
    Two votes of one member for different blocks at one height are a fraud
    proof against it.  Votes travel by gossip through a cache.

    Shown here: the wire forms are faithful; a signed vote verifies; an accepted
    proof is a quorum of distinct members; two accepted proofs for different
    blocks give fraud proofs against their common members, when they name the
    same epoch, and what happens when they do not; the cache never holds two
    conflicting commit votes of a member. *)

From stdpp Require Import sorting.
From S2P Require Import Prelude Crypto Wire Activation Proposer.

(** ** Constants *)
Definition VOTE_DOMAIN : bytes := byte_string "IRIUM_POAWX_FINALITY_VOTE_V1".
Definition PROOF_DOMAIN : bytes := byte_string "IRIUM_POAWX_FINALITY_PROOF_V1".
Definition FINALITY_SECTION_MAGIC : bytes := byte_string "FIN1".
Definition FINALITY_VOTE_VERSION : Z := 1.
Definition FINALITY_PROOF_VERSION : Z := 1.
Definition FINALITY_VOTE_WIRE : Z := 232.
Definition FINALITY_PROOF_HEADER : Z := 88.
Definition FINALITY_MAX_VOTES : Z := 256.
Definition FINALITY_VOTE_MAX_BYTES : Z := 512.
Definition FINALITY_SEEN_CAP : Z := 100000.
Definition FINALITY_PRUNE_KEEP : Z := 64.
Definition DEFAULT_FINALITY_GOSSIP_WINDOW : Z := 64.
Definition FRAUD_PROOF_SECTION_MAGIC : bytes := byte_string "FRD1".
Definition FRAUD_PROOF_VERSION : Z := 1.
Definition FRAUD_PROOF_V1_WIRE : Z := 515.
Definition FRAUD_PROOF_MAX_PER_BLOCK : Z := 16.

(** ** Votes *)
Inductive FinalityVoteType := Precommit | Commit | Checkpoint.

Definition vote_type_id (t : FinalityVoteType) : Z :=
  match t with Precommit => 0 | Commit => 1 | Checkpoint => 2 end.
Definition vote_type_from_id (b : Z) : option FinalityVoteType :=
  if b =? 0 then Some Precommit else if b =? 1 then Some Commit else if b =? 2 then Some Checkpoint else None.

Record FinalityVoteV1 := {
  fv_version : Z;
  fv_network_id : Z;
  fv_target_height : Z;
  fv_block_hash : bytes;
  fv_parent_hash : bytes;
  fv_committee_epoch : Z;
  fv_member_pkh : bytes;
  fv_member_pubkey : bytes;
  fv_ticket_digest : bytes;
  fv_vote_type : Z;
  fv_signature : bytes
}.

Definition vote_digest `{C : Crypto} (network_id target_height : Z) (block_hash parent_hash : bytes)
    (committee_epoch : Z) (member_pkh ticket_digest : bytes) (vote_type : Z) : bytes :=
  sha256 (VOTE_DOMAIN ++ [FINALITY_VOTE_VERSION] ++ [network_id] ++ le_bytes 8 target_height ++ block_hash
          ++ parent_hash ++ le_bytes 8 committee_epoch ++ member_pkh ++ ticket_digest ++ [vote_type]).

Definition fv_digest `{C : Crypto} (v : FinalityVoteV1) : bytes :=
  vote_digest (fv_network_id v) (fv_target_height v) (fv_block_hash v) (fv_parent_hash v) (fv_committee_epoch v)
    (fv_member_pkh v) (fv_ticket_digest v) (fv_vote_type v).

Definition vote_signed `{C : Crypto} {S : Signer C} (sk : SigningKey) (network_id target_height : Z)
    (block_hash parent_hash : bytes) (committee_epoch : Z) (ticket_digest : bytes) (vote_type : FinalityVoteType)
    : FinalityVoteV1 :=
  let member_pubkey := public_key sk in
  let member_pkh := hash160 member_pubkey in
  let digest := vote_digest network_id target_height block_hash parent_hash committee_epoch member_pkh
                  ticket_digest (vote_type_id vote_type) in
  {| fv_version := FINALITY_VOTE_VERSION; fv_network_id := network_id; fv_target_height := target_height;
     fv_block_hash := block_hash; fv_parent_hash := parent_hash; fv_committee_epoch := committee_epoch;
     fv_member_pkh := member_pkh; fv_member_pubkey := member_pubkey; fv_ticket_digest := ticket_digest;
     fv_vote_type := vote_type_id vote_type; fv_signature := sign_prehash sk digest |}.

Definition serialize_vote (v : FinalityVoteV1) : bytes :=
  [fv_version v] ++ [fv_network_id v] ++ le_bytes 8 (fv_target_height v) ++ fv_block_hash v ++ fv_parent_hash v
  ++ le_bytes 8 (fv_committee_epoch v) ++ fv_member_pkh v ++ fv_member_pubkey v ++ fv_ticket_digest v
  ++ [fv_vote_type v] ++ fv_signature v.

Definition deserialize_vote (raw : bytes) : res string FinalityVoteV1 :=
  if negb (len raw =? FINALITY_VOTE_WIRE) then Err "finality vote: bad length"%string else
  '(version, raw) ← rd_u8 raw;
  '(network_id, raw) ← rd_u8 raw;
  '(target_height, raw) ← rd_le 8 raw;
  '(block_hash, raw) ← rd 32 raw;
  '(parent_hash, raw) ← rd 32 raw;
  '(committee_epoch, raw) ← rd_le 8 raw;
  '(member_pkh, raw) ← rd 20 raw;
  '(member_pubkey, raw) ← rd 33 raw;
  '(ticket_digest, raw) ← rd 32 raw;
  '(vote_type, raw) ← rd_u8 raw;
  '(signature, raw) ← rd 64 raw;
  Ok {| fv_version := version; fv_network_id := network_id; fv_target_height := target_height;
        fv_block_hash := block_hash; fv_parent_hash := parent_hash; fv_committee_epoch := committee_epoch;
        fv_member_pkh := member_pkh; fv_member_pubkey := member_pubkey; fv_ticket_digest := ticket_digest;
        fv_vote_type := vote_type; fv_signature := signature |}.

Record vote_ok (v : FinalityVoteV1) : Prop := {
  fvo_version : u8 (fv_version v);
  fvo_network : u8 (fv_network_id v);
  fvo_height : u64 (fv_target_height v);
  fvo_block : arr 32 (fv_block_hash v);
  fvo_parent : arr 32 (fv_parent_hash v);
  fvo_epoch : u64 (fv_committee_epoch v);
  fvo_pkh : arr 20 (fv_member_pkh v);
  fvo_key : arr 33 (fv_member_pubkey v);
  fvo_ticket : arr 32 (fv_ticket_digest v);
  fvo_type : u8 (fv_vote_type v);
  fvo_signature : arr 64 (fv_signature v)
}.

#[export] Instance FinalityVoteV1_wire : Wire FinalityVoteV1 :=
  {| to_wire := serialize_vote; of_wire := deserialize_vote; wire_ok := vote_ok |}.

Definition verify_vote `{C : Crypto} (v : FinalityVoteV1) (network_id target_height : Z) (block_hash : bytes)
    : res string unit :=
  if negb (fv_version v =? FINALITY_VOTE_VERSION) then Err "finality vote: bad version"%string else
  if negb (fv_network_id v =? network_id) then Err "finality vote: wrong network"%string else
  if negb (fv_target_height v =? target_height) then Err "finality vote: wrong height"%string else
  if negb (beqb (fv_block_hash v) block_hash) then Err "finality vote: wrong block hash"%string else
  if bool_decide (vote_type_from_id (fv_vote_type v) = None) then Err "finality vote: bad vote type"%string else
  if negb (beqb (hash160 (fv_member_pubkey v)) (fv_member_pkh v)) then Err "finality vote: pubkey/pkh mismatch"%string else
  vk ← ok_or (VerifyingKey_from_sec1_bytes (fv_member_pubkey v)) "finality vote: bad pubkey"%string;
  sg ← ok_or (Signature_from_slice (fv_signature v)) "finality vote: bad signature encoding"%string;
  if verify_prehash vk (fv_digest v) sg then Ok tt else Err "finality vote: signature verification failed"%string.

#[export] Instance FinalityVoteType_eq_dec : EqDecision FinalityVoteType.
Proof. solve_decision. Defined.

(** ** Proofs *)
Record FinalityProofV1 := {
  fp_version : Z;
  fp_network_id : Z;
  fp_target_height : Z;
  fp_block_hash : bytes;
  fp_parent_hash : bytes;
  fp_committee_epoch : Z;
  fp_threshold_num : Z;
  fp_threshold_den : Z;
  fp_votes : list FinalityVoteV1
}.

Definition FinalityProofV1_new (network_id target_height : Z) (block_hash parent_hash : bytes)
    (committee_epoch threshold_num threshold_den : Z) : FinalityProofV1 :=
  {| fp_version := FINALITY_PROOF_VERSION; fp_network_id := network_id; fp_target_height := target_height;
     fp_block_hash := block_hash; fp_parent_hash := parent_hash; fp_committee_epoch := committee_epoch;
     fp_threshold_num := threshold_num; fp_threshold_den := threshold_den; fp_votes := [] |}.

Definition set_votes (p : FinalityProofV1) (vs : list FinalityVoteV1) : FinalityProofV1 :=
  {| fp_version := fp_version p; fp_network_id := fp_network_id p; fp_target_height := fp_target_height p;
     fp_block_hash := fp_block_hash p; fp_parent_hash := fp_parent_hash p;
     fp_committee_epoch := fp_committee_epoch p; fp_threshold_num := fp_threshold_num p;
     fp_threshold_den := fp_threshold_den p; fp_votes := vs |}.

Definition push_vote (p : FinalityProofV1) (v : FinalityVoteV1) : FinalityProofV1 :=
  set_votes p (fp_votes p ++ [v]).

Definition vote_leq (a b : FinalityVoteV1) : Prop :=
  bytes_ltb (fv_member_pkh b) (fv_member_pkh a) = false /\
  (fv_member_pkh a = fv_member_pkh b -> fv_vote_type a <= fv_vote_type b).
#[export] Instance vote_leq_dec : RelDecision vote_leq.
Proof. unfold vote_leq. intros a b. apply _. Defined.

Definition sort_votes (p : FinalityProofV1) : FinalityProofV1 := set_votes p (merge_sort vote_leq (fp_votes p)).

Fixpoint members_increase (vs : list FinalityVoteV1) : bool :=
  match vs with
  | a :: (b :: _) as rest => bytes_ltb (fv_member_pkh a) (fv_member_pkh b) && members_increase rest
  | _ => true
  end.

Definition proof_is_canonical (p : FinalityProofV1) : bool := members_increase (fp_votes p).

Definition serialize_finality_proof (p : FinalityProofV1) : bytes :=
  [fp_version p] ++ [fp_network_id p] ++ le_bytes 8 (fp_target_height p) ++ fp_block_hash p ++ fp_parent_hash p
  ++ le_bytes 8 (fp_committee_epoch p) ++ le_bytes 2 (fp_threshold_num p) ++ le_bytes 2 (fp_threshold_den p)
  ++ le_bytes 2 (as_u16 (len (fp_votes p))) ++ write_all (fp_votes p).

Definition deserialize_finality_proof (raw : bytes) : res string FinalityProofV1 :=
  if len raw <? FINALITY_PROOF_HEADER then Err "finality proof: truncated header"%string else
  '(version, raw) ← rd_u8 raw;
  '(network_id, raw) ← rd_u8 raw;
  '(target_height, raw) ← rd_le 8 raw;
  '(block_hash, raw) ← rd 32 raw;
  '(parent_hash, raw) ← rd 32 raw;
  '(committee_epoch, raw) ← rd_le 8 raw;
  '(threshold_num, raw) ← rd_le 2 raw;
  '(threshold_den, raw) ← rd_le 2 raw;
  '(count, raw) ← rd_le 2 raw;
  if FINALITY_MAX_VOTES <? count then Err "finality proof: too many votes"%string else
  if negb (len raw =? count * FINALITY_VOTE_WIRE) then Err "finality proof: bad length"%string else
  votes ← read_list FINALITY_VOTE_WIRE (Z.to_nat count) raw;
  Ok {| fp_version := version; fp_network_id := network_id; fp_target_height := target_height;
        fp_block_hash := block_hash; fp_parent_hash := parent_hash; fp_committee_epoch := committee_epoch;
        fp_threshold_num := threshold_num; fp_threshold_den := threshold_den; fp_votes := votes |}.

Record finality_proof_ok (p : FinalityProofV1) : Prop := {
  fpo_version : u8 (fp_version p);
  fpo_network : u8 (fp_network_id p);
  fpo_height : u64 (fp_target_height p);
  fpo_block : arr 32 (fp_block_hash p);
  fpo_parent : arr 32 (fp_parent_hash p);
  fpo_epoch : u64 (fp_committee_epoch p);
  fpo_num : u16 (fp_threshold_num p);
  fpo_den : u16 (fp_threshold_den p);
  fpo_votes : Forall vote_ok (fp_votes p);
  fpo_count : len (fp_votes p) <= 256
}.

#[export] Instance FinalityProofV1_wire : Wire FinalityProofV1 :=
  {| to_wire := serialize_finality_proof; of_wire := deserialize_finality_proof; wire_ok := finality_proof_ok |}.

Definition finality_proof_digest `{C : Crypto} (p : FinalityProofV1) : bytes :=
  sha256 (PROOF_DOMAIN ++ serialize_finality_proof p).

Definition required_votes (p : FinalityProofV1) (committee_size : Z) : Z :=
  if committee_size =? 0 then 0 else
  let num := Z.max (fp_threshold_num p) 1 in
  let den := Z.max (fp_threshold_den p) 1 in
  let needed := (committee_size * num + den - 1) / den in
  Z.min (Z.max needed 1) committee_size.

(** The loop over the votes of [validate]. *)
Fixpoint count_commits `{C : Crypto} (p : FinalityProofV1) (network_id target_height : Z) (block_hash : bytes)
    (committee : list bytes) (vs : list FinalityVoteV1) (commit_votes : Z) : res string Z :=
  match vs with
  | [] => Ok commit_votes
  | v :: vs =>
      _ ← verify_vote v network_id target_height block_hash;
      if negb (beqb (fv_block_hash v) block_hash) || negb (fv_committee_epoch v =? fp_committee_epoch p)
      then Err "finality proof: vote context mismatch"%string else
      if negb (bool_decide (fv_member_pkh v ∈ committee))
      then Err "finality proof: vote from non-committee member"%string else
      count_commits p network_id target_height block_hash committee vs
        (if fv_vote_type v =? vote_type_id Commit then commit_votes + 1 else commit_votes)
  end.

Definition validate_finality_proof `{C : Crypto} (p : FinalityProofV1) (network_id target_height : Z)
    (block_hash : bytes) (committee : list bytes) : res string unit :=
  if negb (fp_version p =? FINALITY_PROOF_VERSION) then Err "finality proof: bad version"%string else
  if negb (fp_network_id p =? network_id) then Err "finality proof: wrong network"%string else
  if negb (fp_target_height p =? target_height) then Err "finality proof: wrong height"%string else
  if negb (beqb (fp_block_hash p) block_hash) then Err "finality proof: wrong block hash"%string else
  if negb (proof_is_canonical p) then Err "finality proof: not canonical / duplicate member"%string else
  if bool_decide (committee = []) then Err "finality proof: empty committee"%string else
  commit_votes ← count_commits p network_id target_height block_hash committee (fp_votes p) 0;
  if commit_votes <? required_votes p (len committee) then Err "finality proof: insufficient commit votes"%string else
  Ok tt.

(** ** Fraud proofs *)
Inductive FraudKind := FinalityEquivocation.
Definition fraud_kind_id (k : FraudKind) : Z := match k with FinalityEquivocation => 0 end.
Definition fraud_kind_from_id (b : Z) : option FraudKind := if b =? 0 then Some FinalityEquivocation else None.

Record FraudOffence := { fo_offender_pkh : bytes; fo_target_height : Z; fo_kind : Z }.

Record FraudProofV1 := {
  fr_version : Z;
  fr_kind : Z;
  fr_network_id : Z;
  fr_target_height : Z;
  fr_offender_pkh : bytes;
  fr_reporter_pkh : bytes;
  fr_vote_a : FinalityVoteV1;
  fr_vote_b : FinalityVoteV1
}.

Definition finality_equivocation (network_id : Z) (reporter_pkh : bytes) (vote_a vote_b : FinalityVoteV1)
    : FraudProofV1 :=
  let '(a, b) := if bytes_ltb (fv_block_hash vote_b) (fv_block_hash vote_a) then (vote_b, vote_a)
                 else (vote_a, vote_b) in
  {| fr_version := FRAUD_PROOF_VERSION; fr_kind := fraud_kind_id FinalityEquivocation; fr_network_id := network_id;
     fr_target_height := fv_target_height vote_a; fr_offender_pkh := fv_member_pkh vote_a;
     fr_reporter_pkh := reporter_pkh; fr_vote_a := a; fr_vote_b := b |}.

Definition serialize_fraud_proof (f : FraudProofV1) : bytes :=
  [fr_version f] ++ [fr_kind f] ++ [fr_network_id f] ++ le_bytes 8 (fr_target_height f) ++ fr_offender_pkh f
  ++ fr_reporter_pkh f ++ serialize_vote (fr_vote_a f) ++ serialize_vote (fr_vote_b f).

Definition deserialize_fraud_proof (raw : bytes) : res string FraudProofV1 :=
  if negb (len raw =? FRAUD_PROOF_V1_WIRE) then Err "fraud proof: bad length"%string else
  '(version, raw) ← rd_u8 raw;
  '(kind, raw) ← rd_u8 raw;
  '(network_id, raw) ← rd_u8 raw;
  '(target_height, raw) ← rd_le 8 raw;
  '(offender_pkh, raw) ← rd 20 raw;
  '(reporter_pkh, raw) ← rd 20 raw;
  '(a, raw) ← rd 232 raw;
  vote_a ← deserialize_vote a;
  '(b, raw) ← rd 232 raw;
  vote_b ← deserialize_vote b;
  Ok {| fr_version := version; fr_kind := kind; fr_network_id := network_id; fr_target_height := target_height;
        fr_offender_pkh := offender_pkh; fr_reporter_pkh := reporter_pkh; fr_vote_a := vote_a;
        fr_vote_b := vote_b |}.

Record fraud_proof_ok (f : FraudProofV1) : Prop := {
  fro_version : u8 (fr_version f);
  fro_kind : u8 (fr_kind f);
  fro_network : u8 (fr_network_id f);
  fro_height : u64 (fr_target_height f);
  fro_offender : arr 20 (fr_offender_pkh f);
  fro_reporter : arr 20 (fr_reporter_pkh f);
  fro_vote_a : vote_ok (fr_vote_a f);
  fro_vote_b : vote_ok (fr_vote_b f)
}.

#[export] Instance FraudProofV1_wire : Wire FraudProofV1 :=
  {| to_wire := serialize_fraud_proof; of_wire := deserialize_fraud_proof; wire_ok := fraud_proof_ok |}.

Section challenge.
Context `{C : Crypto}.

Definition verify_finality_equivocation (f : FraudProofV1) (network_id current_height : Z)
    : res string FraudOffence :=
  let a := fr_vote_a f in
  let b := fr_vote_b f in
  if current_height <? fr_target_height f then Err "fraud proof: target height in the future"%string else
  _ ← map_err (fun e => "fraud proof: vote_a invalid: " +:+ e)
        (verify_vote a network_id (fv_target_height a) (fv_block_hash a));
  _ ← map_err (fun e => "fraud proof: vote_b invalid: " +:+ e)
        (verify_vote b network_id (fv_target_height b) (fv_block_hash b));
  if negb (beqb (fv_member_pkh a) (fv_member_pkh b)) then Err "fraud proof: votes from different signers"%string else
  if negb (beqb (fv_member_pkh a) (fr_offender_pkh f)) then Err "fraud proof: offender_pkh mismatch"%string else
  if negb (fv_target_height a =? fv_target_height b) then Err "fraud proof: vote height mismatch"%string else
  if negb (fv_target_height a =? fr_target_height f) then Err "fraud proof: target height mismatch"%string else
  if negb (fv_committee_epoch a =? fv_committee_epoch b) then Err "fraud proof: committee epoch mismatch"%string else
  if negb (fv_vote_type a =? fv_vote_type b) then Err "fraud proof: vote type mismatch"%string else
  if beqb (fv_block_hash a) (fv_block_hash b) then Err "fraud proof: not an equivocation (same block hash)"%string else
  if negb (bytes_ltb (fv_block_hash a) (fv_block_hash b)) then Err "fraud proof: non-canonical vote ordering"%string else
  Ok {| fo_offender_pkh := fr_offender_pkh f; fo_target_height := fr_target_height f; fo_kind := fr_kind f |}.

Definition verify_fraud_proof (f : FraudProofV1) (network_id current_height : Z) : res string FraudOffence :=
  if network_id =? 0 then Err "fraud proof: mainnet hard-off"%string else
  if negb (fr_version f =? FRAUD_PROOF_VERSION) then Err "fraud proof: bad version"%string else
  if negb (fr_network_id f =? network_id) then Err "fraud proof: wrong network"%string else
  kind ← ok_or (fraud_kind_from_id (fr_kind f)) "fraud proof: unknown/unimplemented kind"%string;
  match kind with FinalityEquivocation => verify_finality_equivocation f network_id current_height end.
End challenge.

(** ** Gates *)
Definition finality_committee_gate (network_id : Z) (activation : option Z) (height : Z) : bool :=
  active_at (poawx_effective_activation network_id activation) height.
Definition finality_committee_enforced_gate (network_id : Z) (activation : option Z) (required : bool) (height : Z)
    : bool := finality_committee_gate network_id activation height && required.
Definition finality_gossip_gate (network_id : Z) (activation : option Z) (height : Z) : bool :=
  active_at (poawx_effective_activation network_id activation) height.
Definition finality_gossip_enforced_gate (network_id : Z) (activation : option Z) (required : bool) (height : Z)
    : bool := finality_gossip_gate network_id activation height && required.
Definition fraud_proof_gate (network_id : Z) (activation : option Z) (height : Z) : bool :=
  active_at (poawx_effective_activation network_id activation) height.
Definition fraud_proof_enforced_gate (network_id : Z) (activation : option Z) (required : bool) (height : Z) : bool :=
  fraud_proof_gate network_id activation height && required.

(** [filter(|n| *n >= 1).unwrap_or(d)] *)
Definition positive_or (v : option Z) (d : Z) : Z :=
  match v with Some n => if 1 <=? n then n else d | None => d end.

Definition finality_threshold_values (num den : option Z) : Z * Z := (positive_or num 2, positive_or den 3).

Section gates.
Context (env : Env).
Definition finality_committee_activation_height : option Z :=
  env_u64 env "IRIUM_POAWX_FINALITY_COMMITTEE_ACTIVATION_HEIGHT".
Definition finality_committee_required : bool :=
  if network_id_byte env =? 0 then true else env_flag env "IRIUM_POAWX_FINALITY_COMMITTEE_REQUIRED".
Definition finality_threshold : Z * Z :=
  finality_threshold_values (env_u16 env "IRIUM_POAWX_FINALITY_THRESHOLD_NUM")
    (env_u16 env "IRIUM_POAWX_FINALITY_THRESHOLD_DEN").
Definition finality_committee_active (height : Z) : bool :=
  finality_committee_gate (network_id_byte env) finality_committee_activation_height height.
Definition finality_committee_enforced (height : Z) : bool :=
  finality_committee_enforced_gate (network_id_byte env) finality_committee_activation_height
    finality_committee_required height.

Definition finality_gossip_window : Z :=
  positive_or (env_u64 env "IRIUM_POAWX_FINALITY_GOSSIP_WINDOW") DEFAULT_FINALITY_GOSSIP_WINDOW.
Definition finality_gossip_activation_height : option Z :=
  env_u64 env "IRIUM_POAWX_FINALITY_GOSSIP_ACTIVATION_HEIGHT".
Definition finality_gossip_required : bool := env_flag env "IRIUM_POAWX_FINALITY_GOSSIP_REQUIRED".
Definition finality_gossip_active (height : Z) : bool :=
  finality_gossip_gate (network_id_byte env) finality_gossip_activation_height height.
Definition finality_gossip_enforced (height : Z) : bool :=
  finality_gossip_enforced_gate (network_id_byte env) finality_gossip_activation_height finality_gossip_required height.
Definition finality_gossip_enabled : bool :=
  bool_decide (is_Some (poawx_effective_activation (network_id_byte env) finality_gossip_activation_height)).

Definition fraud_proof_activation_height : option Z := env_u64 env "IRIUM_POAWX_FRAUD_PROOF_ACTIVATION_HEIGHT".
Definition fraud_proof_active (height : Z) : bool :=
  fraud_proof_gate (network_id_byte env) fraud_proof_activation_height height.
Definition fraud_proof_required : bool :=
  if network_id_byte env =? 0 then true else env_flag env "IRIUM_POAWX_FRAUD_PROOF_REQUIRED".
Definition fraud_proof_enforced (height : Z) : bool :=
  fraud_proof_enforced_gate (network_id_byte env) fraud_proof_activation_height fraud_proof_required height.
End gates.

(** ** The cache of votes *)
Inductive GossipOutcome := AcceptedNew | Duplicate | Rejected (e : string).

(** [(target_height, block_hash, vote_type, member_pkh)] *)
Abbreviation VoteKey := (Z * bytes * Z * bytes)%type.

Record NodeFinalityVoteCache := {
  fc_votes : gmap VoteKey FinalityVoteV1;
  fc_seen : gset bytes;
  fc_tip : Z
}.

Definition NodeFinalityVoteCache_new : NodeFinalityVoteCache := {| fc_votes := ∅; fc_seen := ∅; fc_tip := 0 |}.

Definition set_tip (c : NodeFinalityVoteCache) (tip : Z) : NodeFinalityVoteCache :=
  {| fc_votes := fc_votes c; fc_seen := fc_seen c; fc_tip := tip |}.

Definition mark_seen (s : gset bytes) (d : bytes) : gset bytes :=
  {[d]} ∪ (if FINALITY_SEEN_CAP <=? Z.of_nat (size s) then ∅ else s).

Definition vote_key (v : FinalityVoteV1) : VoteKey :=
  (fv_target_height v, fv_block_hash v, fv_vote_type v, fv_member_pkh v).

(** A vote on record that conflicts: same height, member and type, other block. *)
Definition conflicts (k k' : VoteKey) : bool :=
  let '(h, bh, vt, m) := k in
  let '(h', bh', vt', m') := k' in
  (h' =? h) && beqb m' m && (vt' =? vt) && negb (beqb bh' bh).

Section cache.
Context `{C : Crypto} (env : Env).

Definition in_window (c : NodeFinalityVoteCache) (target : Z) : bool :=
  (fc_tip c <=? target) && (target <=? sat_add64 (fc_tip c) (finality_gossip_window env)).

Definition equivocates (c : NodeFinalityVoteCache) (v : FinalityVoteV1) : bool :=
  audit_hardening_active env (fv_target_height v) && (fv_vote_type v =? vote_type_id Commit)
  && existsb (fun kv => conflicts (vote_key v) kv.1) (map_to_list (fc_votes c)).

Definition ingest_vote (c : NodeFinalityVoteCache) (raw : bytes) : GossipOutcome * NodeFinalityVoteCache :=
  if negb (finality_gossip_enabled env) then (Rejected "finality gossip disabled", c) else
  if FINALITY_VOTE_MAX_BYTES <? len raw then (Rejected "finality vote oversize", c) else
  match deserialize_vote raw with
  | Err e => (Rejected e, c)
  | Panic => (Rejected "panic", c)
  | Ok v =>
      if negb (fv_network_id v =? network_id_byte env) then (Rejected "wrong network", c) else
      match verify_vote v (fv_network_id v) (fv_target_height v) (fv_block_hash v) with
      | Err e => (Rejected e, c)
      | Panic => (Rejected "panic", c)
      | Ok _ =>
          if negb (in_window c (fv_target_height v)) then (Rejected "out of finality window", c) else
          let d := fv_digest v in
          if bool_decide (d ∈ fc_seen c) then (Duplicate, c) else
          match fc_votes c !! vote_key v with
          | Some ex =>
              if negb (beqb (fv_digest ex) d) then (Rejected "conflicting vote for member", c) else (Duplicate, c)
          | None =>
              if equivocates c v
              then (Rejected "equivocating finality vote: member voted two blocks at one height", c) else
              (AcceptedNew, {| fc_votes := <[vote_key v := v]> (fc_votes c); fc_seen := mark_seen (fc_seen c) d;
                               fc_tip := fc_tip c |})
          end
      end
  end.

(** The order of the [BTreeMap]. *)
Definition vote_key_le (a b : VoteKey * FinalityVoteV1) : Prop :=
  let '((h, bh, vt, m), _) := a in
  let '((h', bh', vt', m'), _) := b in
  h < h' \/ (h = h' /\ (bytes_ltb bh bh' = true \/ (bh = bh' /\ (vt < vt' \/ (vt = vt' /\ bytes_ltb m' m = false))))).
#[export] Instance vote_key_le_dec : RelDecision vote_key_le.
Proof. intros [[[[h bh] vt] m] v] [[[[h' bh'] vt'] m'] v']. unfold vote_key_le. apply _. Defined.

Definition votes_for (c : NodeFinalityVoteCache) (height : Z) (block_hash : bytes) (vote_type : Z)
    : list FinalityVoteV1 :=
  snd <$> filter (fun kv => kv.1.1.1.1 = height /\ kv.1.1.1.2 = block_hash /\ kv.1.1.2 = vote_type)
            (merge_sort vote_key_le (map_to_list (fc_votes c))).

Definition votes_for_height (c : NodeFinalityVoteCache) (height : Z) : list FinalityVoteV1 :=
  snd <$> filter (fun kv => kv.1.1.1.1 = height) (merge_sort vote_key_le (map_to_list (fc_votes c))).

Definition vote_count (c : NodeFinalityVoteCache) (height : Z) : Z := len (votes_for_height c height).

Definition VOTE_CACHE_ROOT_DOMAIN : bytes := byte_string "IRIUM_POAWX_FINALITY_VOTE_CACHE_ROOT_V1".
Definition vote_cache_root (c : NodeFinalityVoteCache) (height : Z) (block_hash : bytes) (vote_type : Z) : bytes :=
  sha256 (VOTE_CACHE_ROOT_DOMAIN ++ concat (fv_digest <$> votes_for c height block_hash vote_type)).

Definition prune_votes (c : NodeFinalityVoteCache) (tip : Z) : NodeFinalityVoteCache :=
  let c := set_tip c tip in
  let floor := sat_sub tip FINALITY_PRUNE_KEEP in
  if floor =? 0 then c else
  {| fc_votes := filter (fun kv => floor <= kv.1.1.1.1) (fc_votes c); fc_seen := fc_seen c; fc_tip := fc_tip c |}.

Definition clear_votes (c : NodeFinalityVoteCache) : NodeFinalityVoteCache :=
  {| fc_votes := ∅; fc_seen := ∅; fc_tip := fc_tip c |}.

(** What a node does with the cache. *)
Inductive cache_step : NodeFinalityVoteCache -> NodeFinalityVoteCache -> Prop :=
| step_ingest c raw : cache_step c (ingest_vote c raw).2
| step_prune c tip : cache_step c (prune_votes c tip)
| step_tip c tip : cache_step c (set_tip c tip)
| step_clear c : cache_step c (clear_votes c).

Inductive cache_reachable : NodeFinalityVoteCache -> Prop :=
| reach_new : cache_reachable NodeFinalityVoteCache_new
| reach_step c c' : cache_reachable c -> cache_step c c' -> cache_reachable c'.
End cache.

(** ** Wire forms *)
Lemma vote_len v : vote_ok v -> len (serialize_vote v) = 232.
Proof. revert v. fixed_len serialize_vote. Qed.

#[export] Instance FinalityVoteV1_fixed : FixedWire FinalityVoteV1_wire FINALITY_VOTE_WIRE.
Proof.
  unfold FINALITY_VOTE_WIRE. split; [split|]; cbn [of_wire to_wire wire_ok FinalityVoteV1_wire].
  - fixed_read vote_len serialize_vote deserialize_vote.
  - fixed_canonical deserialize_vote serialize_vote.
  - fixed_total deserialize_vote.
  - apply vote_len.
Qed.

Lemma read_vote v : vote_ok v -> deserialize_vote (serialize_vote v) = Ok v.
Proof. apply (wire_read (W := FinalityVoteV1_wire)). Qed.

Lemma vote_canonical raw v : wf_bytes raw -> deserialize_vote raw = Ok v -> vote_ok v /\ serialize_vote v = raw.
Proof. apply (wire_canonical (W := FinalityVoteV1_wire)). Qed.

Lemma vote_total raw : deserialize_vote raw <> Panic.
Proof. apply (wire_total (W := FinalityVoteV1_wire)). Qed.

Lemma fraud_proof_len f : fraud_proof_ok f -> len (serialize_fraud_proof f) = 515.
Proof.
  intros [? ? ? ? [? _] [? _] Ha%vote_len Hb%vote_len]. unfold serialize_fraud_proof. len_lia.
Qed.

#[export] Instance FraudProofV1_fixed : FixedWire FraudProofV1_wire FRAUD_PROOF_V1_WIRE.
Proof.
  unfold FRAUD_PROOF_V1_WIRE. split; [split|]; cbn [of_wire to_wire wire_ok FraudProofV1_wire].
  - intros f Hf. unfold deserialize_fraud_proof. rewrite (fraud_proof_len f Hf). cbn [negb Z.eqb].
    destruct Hf as [? ? ? ? [? _] [? _] Ha Hb]. pose proof (vote_len _ Ha). pose proof (vote_len _ Hb).
    unfold serialize_fraud_proof. rewrite <- (app_nil_r (serialize_vote (fr_vote_b f))).
    unfold FRAUD_PROOF_V1_WIRE. change (515 =? 515) with true. cbn [negb].
    repeat first [read_field | rewrite read_vote by assumption; res_simpl]. by destruct f.
  - intros raw f Hw H. unfold deserialize_fraud_proof in H. wire_inv H. injection H as <-.
    apply negb_false_iff, Z.eqb_eq in Heqb. eval_width Heqb. wire_split Hw.
    repeat match goal with H : deserialize_vote ?s = Ok _ |- _ =>
      apply vote_canonical in H as [? <-]; [|assumption] end.
    autorewrite with lens in Heqb. wire_rest.
    split; [constructor; cbn; first [wire_leaf | assumption]|].
    unfold serialize_fraud_proof. cbn [fr_version fr_kind fr_network_id fr_target_height fr_offender_pkh fr_reporter_pkh
      fr_vote_a fr_vote_b]. wire_unread. by rewrite !app_nil_r.
  - intros raw. unfold deserialize_fraud_proof. destruct (negb (len raw =? _)) eqn:E; [done|].
    apply negb_false_iff, Z.eqb_eq in E. eval_width E.
    change deserialize_vote with (of_wire (A := FinalityVoteV1)). reads_total.
  - apply fraud_proof_len.
Qed.

#[export] Instance FinalityProofV1_exact : ExactWire FinalityProofV1_wire.
Proof.
  split; cbn [of_wire to_wire wire_ok FinalityProofV1_wire].
  - intros s [? ? ? [? ?] [? ?] ? ? ? Hc Hn]. pose proof (len_write_all (W := FinalityVoteV1_wire) 232 _ Hc) as Hlen.
    unfold deserialize_finality_proof, serialize_finality_proof. pose proof (len_nonneg (fp_votes s)).
    assert (u16 (len (fp_votes s))) by (unfold u16; lia). rewrite as_u16_small by lia.
    unfold FINALITY_PROOF_HEADER. replace (_ <? _) with false by len_lia. repeat read_field.
    unfold FINALITY_MAX_VOTES, FINALITY_VOTE_WIRE.
    replace (256 <? _) with false by lia. replace (negb _) with false by lia.
    replace (Z.to_nat (len _)) with (length (fp_votes s)) by (unfold len; lia).
    rewrite (read_list_app (W := FinalityVoteV1_wire) 232) by done. res_simpl. by destruct s.
  - intros raw s Hw H. unfold deserialize_finality_proof in H. wire_inv H. injection H as <-. wire_split Hw.
    unfold FINALITY_MAX_VOTES, FINALITY_VOTE_WIRE in *.
    match goal with H : read_list _ (Z.to_nat (le_val ?x)) _ = Ok ?p |- _ =>
      pose proof (arr_le_val 2 x ltac:(by split)) as Hb;
      apply (read_list_inv (W := FinalityVoteV1_wire) 232) in H as (Hc & <- & Hn); [rename p into vs, x into cnt | done | lia] end.
    assert (len vs = le_val cnt) as Hlen by (unfold len; lia).
    split; [constructor; cbn; first [wire_leaf | done | lia]|].
    unfold serialize_finality_proof. cbn -[le_bytes le_val app as_u16]. rewrite Hlen, as_u16_small by lia.
    wire_unread. done.
  - intros raw. unfold deserialize_finality_proof, FINALITY_PROOF_HEADER, FINALITY_MAX_VOTES, FINALITY_VOTE_WIRE.
    reads_total.
Qed.

(** ** Votes and quorums *)
Section votes.
Context `{C : Crypto}.

Lemma verify_vote_inv v net h bh : verify_vote v net h bh = Ok tt ->
  fv_network_id v = net /\ fv_target_height v = h /\ fv_block_hash v = bh /\
  verify_vote v net (fv_target_height v) (fv_block_hash v) = Ok tt.
Proof.
  intros H. assert (fv_network_id v = net /\ fv_target_height v = h /\ fv_block_hash v = bh) as (-> & -> & ->); [|done].
  unfold verify_vote, beqb in H.
  repeat match type of H with (if ?b then _ else _) = _ => destruct b eqn:?; [discriminate H|] end.
  repeat match goal with H : negb (bool_decide _) = false |- _ =>
    apply negb_false_iff, bool_decide_eq_true in H end. split_and!; [lia | lia | done].
Qed.

(** A vote counted for a proof. *)
Definition counted (p : FinalityProofV1) (net h : Z) (bh : bytes) (committee : list bytes) (v : FinalityVoteV1) : Prop :=
  verify_vote v net h bh = Ok tt /\ fv_committee_epoch v = fp_committee_epoch p /\ fv_member_pkh v ∈ committee.

Definition commits (p : FinalityProofV1) : list FinalityVoteV1 := filter (fun v => fv_vote_type v = 1) (fp_votes p).

Lemma count_commits_spec p net h bh committee vs : forall n n',
  count_commits p net h bh committee vs n = Ok n' ->
  Forall (counted p net h bh committee) vs /\ n' = n + len (filter (fun v => fv_vote_type v = 1) vs).
Proof.
  induction vs as [|v vs IH]; intros n n' H; cbn [count_commits] in H.
  - injection H as <-. split; [constructor|]. unfold len. cbn. lia.
  - destruct (verify_vote v net h bh) as [[]| |] eqn:Hv; [cbn [mbind res_bind] in H | done | done].
    destruct (_ || _) eqn:He; [done|]. destruct (negb (bool_decide _)) eqn:Hm; [done|].
    apply IH in H as [Hvs ->]. apply negb_false_iff, bool_decide_eq_true in Hm.
    split; [constructor; [|done]; split_and!; [done | lia | done]|].
    rewrite filter_cons. cbn [vote_type_id]. case_decide as Hd; [|rewrite (proj2 (Z.eqb_neq _ _)) by done; done].
    rewrite Hd, len_cons. cbn. lia.
Qed.

Lemma members_increase_sorted vs : members_increase vs = true ->
  StronglySorted (fun a b => bytes_ltb (fv_member_pkh a) (fv_member_pkh b) = true) vs.
Proof.
  intros H. apply Sorted_StronglySorted.
  { intros a b c. apply bytes_ltb_trans. }
  induction vs as [|a [|b vs] IH]; [constructor | repeat constructor|].
  change (bytes_ltb (fv_member_pkh a) (fv_member_pkh b) && members_increase (b :: vs) = true) in H.
  apply andb_true_iff in H as [Hab H]. constructor; [by apply IH | by constructor].
Qed.

Lemma members_NoDup vs : members_increase vs = true -> NoDup (fv_member_pkh <$> vs).
Proof.
  intros H%members_increase_sorted. induction H as [|v vs Hs IH Hv]; [constructor|]. cbn. constructor; [|done].
  intros (w & E & Hw)%list_elem_of_fmap. rewrite Forall_forall in Hv. specialize (Hv w Hw).
  by rewrite E, bytes_ltb_irrefl in Hv.
Qed.

Lemma NoDup_fmap_filter {A B} (f : A -> B) (P : A -> Prop) `{forall x, Decision (P x)} (l : list A) :
  NoDup (f <$> l) -> NoDup (f <$> filter P l).
Proof.
  induction l as [|x l IH]; intros Hn; [constructor|]. cbn in Hn. apply NoDup_cons in Hn as [Hx Hn].
  rewrite filter_cons. case_decide; [|by apply IH]. cbn. constructor; [|by apply IH].
  intros (y & E & Hy)%list_elem_of_fmap. apply list_elem_of_filter in Hy as [_ Hy]. apply Hx. rewrite E.
  by apply list_elem_of_fmap_2.
Qed.

(** What an accepted proof shows. *)
Record quorum (p : FinalityProofV1) (net h : Z) (bh : bytes) (committee : list bytes) : Prop := {
  q_committee : committee <> [];
  q_counted : Forall (counted p net h bh committee) (fp_votes p);
  q_distinct : NoDup (fv_member_pkh <$> commits p);
  q_enough : required_votes p (len committee) <= len (commits p)
}.

Lemma validate_quorum p net h bh committee :
  validate_finality_proof p net h bh committee = Ok tt -> quorum p net h bh committee.
Proof.
  intros H. unfold validate_finality_proof in H.
  repeat match type of H with (if ?b then _ else _) = _ => destruct b eqn:?; [discriminate H|] end.
  destruct (count_commits _ _ _ _ _ _ _) as [n| |] eqn:Hc; [cbn [mbind res_bind] in H | done | done].
  destruct (n <? _) eqn:Hn; [done|]. apply count_commits_spec in Hc as [Hv ->].
  apply negb_false_iff in Heqb3. apply bool_decide_eq_false in Heqb4.
  split; [done | done | | unfold commits; lia].
  by apply NoDup_fmap_filter, members_NoDup.
Qed.

Lemma required_votes_bounds p n : 0 < n -> 1 <= required_votes p n <= n.
Proof. intros Hn. unfold required_votes. replace (n =? 0) with false by lia. lia. Qed.

(** A threshold above one half asks for more than half of the committee. *)
Lemma required_votes_majority p n : 0 < n -> Z.max (fp_threshold_den p) 1 < 2 * Z.max (fp_threshold_num p) 1 ->
  n < 2 * required_votes p n.
Proof.
  intros Hn Ht. unfold required_votes. replace (n =? 0) with false by lia. cbv zeta.
  set (num := Z.max (fp_threshold_num p) 1) in *. set (den := Z.max (fp_threshold_den p) 1) in *.
  assert (1 <= den) by lia.
  pose proof (Z.mul_succ_div_gt (n * num + den - 1) den ltac:(lia)) as Hd.
  set (q := (n * num + den - 1) / den) in *. assert (n * num <= q * den) by lia.
  assert (n < 2 * q) by nia. lia.
Qed.

(** ** Equivocation *)
Lemma equivocation_accepted a b net h current reporter :
  net <> 0 -> h <= current ->
  verify_vote a net h (fv_block_hash a) = Ok tt -> verify_vote b net h (fv_block_hash b) = Ok tt ->
  fv_member_pkh a = fv_member_pkh b -> fv_committee_epoch a = fv_committee_epoch b ->
  fv_vote_type a = fv_vote_type b -> fv_block_hash a <> fv_block_hash b ->
  verify_fraud_proof (finality_equivocation net reporter a b) net current =
    Ok {| fo_offender_pkh := fv_member_pkh a; fo_target_height := h; fo_kind := 0 |}.
Proof.
  intros Hnet Hcur Ha Hb Hm He Ht Hne.
  destruct (verify_vote_inv _ _ _ _ Ha) as (_ & Hha & _ & Ha'), (verify_vote_inv _ _ _ _ Hb) as (_ & Hhb & _ & Hb').
  unfold verify_fraud_proof, finality_equivocation, verify_finality_equivocation, beqb.
  destruct (bytes_ltb (fv_block_hash b) (fv_block_hash a)) eqn:Hlt;
    cbn [fr_version fr_kind fr_network_id fr_target_height fr_offender_pkh fr_reporter_pkh fr_vote_a fr_vote_b];
    rewrite Ha', Hb', Hha, Hhb; cbn [map_err mbind res_bind fraud_kind_id fraud_kind_from_id ok_or Z.eqb negb];
    rewrite (proj2 (Z.eqb_neq net 0)), !Z.eqb_refl, (proj2 (Z.ltb_ge current h)) by lia; cbn [negb];
    rewrite !bool_decide_true by congruence; rewrite He, Ht, !Z.eqb_refl, bool_decide_false by congruence; cbn [negb].
  - by rewrite Hlt.
  - destruct (bytes_ltb (fv_block_hash a) (fv_block_hash b)) eqn:Hgt; [done|]. by apply (bytes_ltb_total _ _ Hgt) in Hlt.
Qed.

(** Different epochs: no fraud proof. *)
Lemma epochs_differ_refused f net current :
  fv_committee_epoch (fr_vote_a f) <> fv_committee_epoch (fr_vote_b f) -> is_ok (verify_fraud_proof f net current) = false.
Proof.
  intros Hne. unfold verify_fraud_proof.
  repeat match goal with |- context [if ?b then Err _ else _] => destruct b; [done|] end.
  destruct (ok_or _ _) as [[]| |]; [|done|done]. cbn [mbind res_bind]. unfold verify_finality_equivocation.
  rewrite (proj2 (Z.eqb_neq _ _) Hne). cbn [negb].
  repeat first [ done
               | match goal with |- context [mbind _ (map_err _ ?m)] =>
                   destruct m; [cbn [map_err mbind res_bind] | done | done] end
               | match goal with |- context [if ?b then Err _ else _] => destruct b; [done|] end ].
Qed.
End votes.

(** ** The cache of votes *)
Section cache_invariant.
Context `{C : Crypto} (env : Env).

(** No two commit votes of one member for different blocks at one height. *)
Definition conflict_free (c : NodeFinalityVoteCache) : Prop :=
  forall k a k' b, fc_votes c !! k = Some a -> fc_votes c !! k' = Some b ->
    audit_hardening_active env (fv_target_height a) = true -> fv_vote_type a = 1 -> conflicts k k' = false.

Record cache_ok (c : NodeFinalityVoteCache) : Prop := {
  co_key : forall k v, fc_votes c !! k = Some v -> vote_key v = k;
  co_verified : forall k v, fc_votes c !! k = Some v ->
    verify_vote v (network_id_byte env) (fv_target_height v) (fv_block_hash v) = Ok tt;
  co_conflicts : conflict_free c
}.

Lemma cache_ok_sub c c' : cache_ok c -> fc_votes c' ⊆ fc_votes c -> cache_ok c'.
Proof.
  intros [Hk Hv Hc] Hsub. assert (forall k v, fc_votes c' !! k = Some v -> fc_votes c !! k = Some v) as Hl
    by (intros; by eapply lookup_weaken).
  split; [eauto.. |]. intros k a k' b Ha Hb. apply (Hc k a k' b); eauto.
Qed.

Lemma conflicts_sym k k' : conflicts k k' = conflicts k' k.
Proof.
  destruct k as [[[h bh] vt] m], k' as [[[h' bh'] vt'] m']. unfold conflicts, beqb.
  rewrite (Z.eqb_sym h'), (Z.eqb_sym vt'), (bool_decide_ext (m' = m) (m = m')), (bool_decide_ext (bh' = bh) (bh = bh')); [done | |];
    split; congruence.
Qed.

Lemma conflicts_irrefl k : conflicts k k = false.
Proof. destruct k as [[[h bh] vt] m]. unfold conflicts, beqb. rewrite (bool_decide_true (bh = bh)) by done. by rewrite andb_false_r. Qed.

Lemma conflicts_same a b : conflicts (vote_key a) (vote_key b) = true ->
  fv_target_height a = fv_target_height b /\ fv_vote_type a = fv_vote_type b.
Proof. unfold conflicts, vote_key, beqb. rewrite !andb_true_iff, !Z.eqb_eq. naive_solver. Qed.

(** A vote that does not equivocate conflicts with none on record. *)
Lemma no_equivocation c v k b : cache_ok c -> equivocates env c v = false -> fc_votes c !! k = Some b ->
  audit_hardening_active env (fv_target_height v) = true -> fv_vote_type v = 1 -> conflicts (vote_key v) k = false.
Proof.
  intros Hok He Hb Ha Ht. unfold equivocates in He. rewrite Ha, Ht in He. cbn [andb Z.eqb vote_type_id Pos.eqb] in He.
  destruct (conflicts (vote_key v) k) eqn:Hc; [|done]. exfalso.
  assert (existsb (fun kv => conflicts (vote_key v) kv.1) (map_to_list (fc_votes c)) = true) as Hx; [|congruence].
  apply existsb_exists. exists (k, b). split; [|done]. by apply list_elem_of_In, elem_of_map_to_list.
Qed.

Lemma insert_vote_ok c v seen : cache_ok c ->
  verify_vote v (network_id_byte env) (fv_target_height v) (fv_block_hash v) = Ok tt -> equivocates env c v = false ->
  cache_ok {| fc_votes := <[vote_key v := v]> (fc_votes c); fc_seen := seen; fc_tip := fc_tip c |}.
Proof.
  intros Hok Hv He. pose proof Hok as [Hk Hw Hc]. split; cbn [fc_votes].
  - intros k w [[<- <-]|[_ ?]]%lookup_insert_Some; eauto.
  - intros k w [[<- <-]|[_ ?]]%lookup_insert_Some; eauto.
  - intros k a k' b Ha Hb Hau Hty; cbn [fc_votes] in Ha, Hb.
    apply lookup_insert_Some in Ha as [[<- <-]|[Hne Ha]]; apply lookup_insert_Some in Hb as [[<- <-]|[Hne' Hb]].
    + apply conflicts_irrefl.
    + by eapply no_equivocation.
    + destruct (conflicts k (vote_key v)) eqn:Hcf; [|done]. rewrite <- (Hk _ _ Ha) in Hcf.
      destruct (conflicts_same _ _ Hcf) as [Hh Ht]. rewrite conflicts_sym in Hcf.
      rewrite (Hk _ _ Ha) in Hcf. rewrite (no_equivocation c v k a) in Hcf; congruence.
    + by eapply Hc.
Qed.

Lemma ingest_ok c raw : cache_ok c -> cache_ok (ingest_vote env c raw).2.
Proof.
  intros Hok. unfold ingest_vote. repeat case_match; try exact Hok. cbn [snd]. apply insert_vote_ok; [done | | done].
  match goal with H : negb (fv_network_id ?v =? _) = false, u : unit |- _ =>
    apply negb_false_iff, Z.eqb_eq in H; rewrite <- H; by destruct u end.
Qed.

Lemma cache_step_ok c c' : cache_ok c -> cache_step env c c' -> cache_ok c'.
Proof.
  intros Hok Hs. revert Hok. destruct Hs as [c raw|c tip|c tip|c]; intros Hok;
    [by apply ingest_ok | | by apply (cache_ok_sub c) | ].
  - apply (cache_ok_sub c); [done|]. unfold prune_votes. case_match; [done|]. apply map_filter_subseteq.
  - apply (cache_ok_sub c); [done|]. apply map_empty_subseteq.
Qed.

Lemma reachable_cache_ok c : cache_reachable env c -> cache_ok c.
Proof.
  induction 1 as [|c c' _ IH Hs]; [|by apply (cache_step_ok c)]. split; [by intros ? ?.. |]. by intros ? ? ? ?.
Qed.
End cache_invariant.

(** ** The common members of two quorums *)
Section accountable.
Context `{C : Crypto} (net h : Z) (committee : list bytes).

Definition commit_set (p : FinalityProofV1) : gset bytes := list_to_set (fv_member_pkh <$> commits p).

Lemma elem_of_commit_set p m : m ∈ commit_set p <->
  exists v, v ∈ fp_votes p /\ fv_vote_type v = 1 /\ fv_member_pkh v = m.
Proof.
  unfold commit_set, commits. rewrite elem_of_list_to_set, list_elem_of_fmap. setoid_rewrite list_elem_of_filter.
  split; [intros (v & -> & ? & ?); by exists v | intros (v & ? & ? & <-); by exists v].
Qed.

Lemma commit_set_size p bh : quorum p net h bh committee ->
  required_votes p (len committee) <= Z.of_nat (size (commit_set p)) /\ commit_set p ⊆ list_to_set committee.
Proof.
  intros [_ Hc Hd He]. split.
  - unfold commit_set. rewrite size_list_to_set by done. unfold len in He. rewrite length_fmap. done.
  - intros m (v & Hv & _ & <-)%elem_of_commit_set. rewrite Forall_forall in Hc. apply Hc in Hv as (_ & _ & ?).
    by apply elem_of_list_to_set.
Qed.

Lemma size_list_to_set_le (l : list bytes) : (size (list_to_set l : gset bytes) <= length l)%nat.
Proof.
  induction l as [|c l IH]; [cbn; by rewrite size_empty|]. rewrite list_to_set_cons, size_union_alt, size_singleton.
  cbn [length]. assert ((list_to_set l : gset bytes) ∖ {[c]} ⊆ list_to_set l) as Hs%subseteq_size by set_solver. lia.
Qed.

Lemma common_members p1 p2 bh1 bh2 : quorum p1 net h bh1 committee -> quorum p2 net h bh2 committee ->
  required_votes p1 (len committee) + required_votes p2 (len committee) - len committee
    <= Z.of_nat (size (commit_set p1 ∩ commit_set p2)).
Proof.
  intros [H1 S1]%commit_set_size [H2 S2]%commit_set_size.
  pose proof (size_union_alt (commit_set p1) (commit_set p2)) as Hu.
  assert (size (commit_set p1 ∪ commit_set p2) <= length committee)%nat as Hk.
  { etrans; [apply subseteq_size; apply union_least; [exact S1 | exact S2]|].
    apply size_list_to_set_le. }
  assert (size (commit_set p2) = size (commit_set p2 ∖ commit_set p1) + size (commit_set p1 ∩ commit_set p2))%nat as Hs.
  { rewrite <- size_union by set_solver. f_equal. apply set_eq. intros x.
    destruct (decide (x ∈ commit_set p1)); set_solver. }
  unfold len in *. lia.
Qed.

Lemma common_member_fraud p1 p2 bh1 bh2 current m :
  net <> 0 -> h <= current -> bh1 <> bh2 -> fp_committee_epoch p1 = fp_committee_epoch p2 ->
  quorum p1 net h bh1 committee -> quorum p2 net h bh2 committee -> m ∈ commit_set p1 ∩ commit_set p2 ->
  exists f, verify_fraud_proof f net current =
    Ok {| fo_offender_pkh := m; fo_target_height := h; fo_kind := 0 |}.
Proof.
  intros Hnet Hcur Hne Hep [_ Hc1 _ _] [_ Hc2 _ _] Hm.
  apply elem_of_intersection in Hm as [(a & Ha & Hta & <-)%elem_of_commit_set (b & Hb & Htb & Hmb)%elem_of_commit_set].
  rewrite Forall_forall in Hc1, Hc2. destruct (Hc1 a Ha) as (Hva & Hea & _), (Hc2 b Hb) as (Hvb & Heb & _).
  destruct (verify_vote_inv _ _ _ _ Hva) as (_ & Hha & Hba & Va), (verify_vote_inv _ _ _ _ Hvb) as (_ & Hhb & Hbb & Vb).
  exists (finality_equivocation net (zeros 20) a b).
  apply equivocation_accepted; congruence.
Qed.
End accountable.

(** ** Theorems *)

(** A signed vote is accepted, whatever it votes on. *)
Theorem signed_vote_accepted `{C : Crypto} {CL : CryptoLaws C} {S : Signer C} {SL : SignerLaws S}
    sk net h block parent epoch ticket ty :
  verify_vote (vote_signed sk net h block parent epoch ticket ty) net h block = Ok tt.
Proof.
  unfold verify_vote, vote_signed, beqb. cbn [fv_version fv_network_id fv_target_height fv_block_hash fv_vote_type
    fv_member_pkh fv_member_pubkey fv_signature]. rewrite !Z.eqb_refl, !bool_decide_true by done. cbn [negb].
  rewrite bool_decide_false, bool_decide_true by (by destruct ty). cbn [negb].
  unfold fv_digest. cbn [fv_network_id fv_target_height fv_block_hash fv_parent_hash fv_committee_epoch fv_vote_type
    fv_member_pkh fv_ticket_digest].
  destruct (sign_verifies sk (vote_digest net h block parent epoch (hash160 (public_key sk)) ticket (vote_type_id ty)))
    as (vk & sg & -> & -> & Hv); [apply sha256_arr|]. cbn [ok_or mbind res_bind]. by rewrite Hv.
Qed.

(** C22: Finality is accountable: when two proofs for different blocks at one
    height are accepted for the same committee and epoch, every member of the
    two quorums that overlap can be shown to have voted twice by a fraud proof
    that the node accepts, and there are at least as many of them as the two
    quorums exceed the committee; with thresholds above one half, there is at
    least one. *)
Theorem finality_accountable `{C : Crypto} p1 p2 net h bh1 bh2 committee current :
  net <> 0 -> h <= current -> bh1 <> bh2 -> fp_committee_epoch p1 = fp_committee_epoch p2 ->
  validate_finality_proof p1 net h bh1 committee = Ok tt ->
  validate_finality_proof p2 net h bh2 committee = Ok tt ->
  exists offenders, NoDup offenders /\
    required_votes p1 (len committee) + required_votes p2 (len committee) - len committee <= len offenders /\
    (Z.max (fp_threshold_den p1) 1 < 2 * Z.max (fp_threshold_num p1) 1 ->
     Z.max (fp_threshold_den p2) 1 < 2 * Z.max (fp_threshold_num p2) 1 -> offenders <> []) /\
    Forall (fun m => exists f, verify_fraud_proof f net current =
              Ok {| fo_offender_pkh := m; fo_target_height := h; fo_kind := 0 |}) offenders.
Proof.
  intros Hnet Hcur Hne Hep H1%validate_quorum H2%validate_quorum.
  pose proof (common_members _ _ _ _ _ _ _ H1 H2) as Hsize.
  exists (elements (commit_set p1 ∩ commit_set p2)). unfold len at 4.
  split_and!; [apply NoDup_elements | exact Hsize | |].
  - intros Ht1 Ht2. assert (0 < len committee) as Hpos.
    { destruct H1 as [Hc _ _ _]. destruct committee; [done|]. rewrite len_cons. pose proof (len_nonneg committee). lia. }
    pose proof (required_votes_majority p1 _ Hpos Ht1). pose proof (required_votes_majority p2 _ Hpos Ht2).
    intros E%(f_equal length). unfold size, set_size in Hsize. cbn in Hsize, E. lia.
  - apply Forall_forall. intros m Hm%elem_of_elements.
    by apply (common_member_fraud net h committee p1 p2 bh1 bh2).
Qed.

(** A committee of three, and a vote of each for a block. *)
Definition sample_members : list SigningKey := [Byte.x01; Byte.x02; Byte.x03].
Definition sample_committee : list bytes := (fun k => hash160 (public_key k)) <$> sample_members.
Definition sample_proof (bh : bytes) (epoch : Z) : FinalityProofV1 :=
  sort_votes (set_votes (FinalityProofV1_new 1 50 bh (zeros 32) epoch 2 3)
    ((fun k => vote_signed k 1 50 bh (zeros 32) epoch (zeros 32) Commit) <$> sample_members)).

Lemma finality_accountable_witness :
  exists offenders, NoDup offenders /\
    required_votes (sample_proof (replicate 32 1) 7) (len sample_committee)
      + required_votes (sample_proof (replicate 32 2) 7) (len sample_committee) - len sample_committee <= len offenders /\
    (Z.max (fp_threshold_den (sample_proof (replicate 32 1) 7)) 1 < 2 * Z.max (fp_threshold_num (sample_proof (replicate 32 1) 7)) 1 ->
     Z.max (fp_threshold_den (sample_proof (replicate 32 2) 7)) 1 < 2 * Z.max (fp_threshold_num (sample_proof (replicate 32 2) 7)) 1 ->
     offenders <> []) /\
    Forall (fun m => exists f, verify_fraud_proof f 1 60 =
              Ok {| fo_offender_pkh := m; fo_target_height := 50; fo_kind := 0 |}) offenders.
Proof.
  apply (finality_accountable (sample_proof (replicate 32 1) 7) (sample_proof (replicate 32 2) 7) 1 50
    (replicate 32 1) (replicate 32 2) sample_committee 60); [lia | lia | done | | |]; vm_compute; reflexivity.
Defined.

(** Accountability rests on the epoch, which nothing checks: a whole
    committee can finalize two blocks at one height by signing with a different
    epoch each time.  Both proofs are accepted, and no fraud proof with a vote
    of each is, at whatever height and on whatever network it is presented. *)
Theorem epoch_change_escapes_slashing :
  let p1 := sample_proof (replicate 32 1) 7 in
  let p2 := sample_proof (replicate 32 2) 8 in
  validate_finality_proof p1 1 50 (replicate 32 1) sample_committee = Ok tt /\
  validate_finality_proof p2 1 50 (replicate 32 2) sample_committee = Ok tt /\
  (fv_member_pkh <$> fp_votes p1) = (fv_member_pkh <$> fp_votes p2) /\
  forall f net current, (fr_vote_a f ∈ fp_votes p1 /\ fr_vote_b f ∈ fp_votes p2) \/
      (fr_vote_a f ∈ fp_votes p2 /\ fr_vote_b f ∈ fp_votes p1) ->
    is_ok (verify_fraud_proof f net current) = false.
Proof.
  intros p1 p2. split_and!; [vm_compute; reflexivity.. |]. intros f net current Hor. apply epochs_differ_refused.
  assert (Forall (fun v => fv_committee_epoch v = 7) (fp_votes p1)) as H1 by (vm_compute; repeat constructor).
  assert (Forall (fun v => fv_committee_epoch v = 8) (fp_votes p2)) as H2 by (vm_compute; repeat constructor).
  rewrite Forall_forall in H1, H2. destruct Hor as [[Ha Hb]|[Ha Hb]].
  - by rewrite (H1 _ Ha), (H2 _ Hb).
  - by rewrite (H2 _ Ha), (H1 _ Hb).
Qed.

(** The cache of votes never holds evidence against itself: whatever a node
    is sent, in whatever order, and however it prunes, resets and moves its tip,
    each vote on record is one that verifies on this network, filed under its own
    key, and two commit votes of one member at one height are for one block, from
    the audit-hardening height on. *)
Theorem vote_cache_invariant `{C : Crypto} env c : cache_reachable env c ->
  forall k a k' b, fc_votes c !! k = Some a -> fc_votes c !! k' = Some b ->
    vote_key a = k /\ verify_vote a (network_id_byte env) (fv_target_height a) (fv_block_hash a) = Ok tt /\
    (audit_hardening_active env (fv_target_height a) = true -> fv_vote_type a = 1 -> fv_vote_type b = 1 ->
     fv_member_pkh a = fv_member_pkh b -> fv_target_height a = fv_target_height b ->
     fv_block_hash a = fv_block_hash b).
Proof.
  intros [Hk Hv Hc]%reachable_cache_ok k a k' b Ha Hb. split_and!; [by apply Hk | by apply (Hv k)|].
  intros Hau Hta Htb Hm Hh. specialize (Hc k a k' b Ha Hb Hau Hta). rewrite <- (Hk _ _ Ha), <- (Hk _ _ Hb) in Hc.
  unfold conflicts, vote_key, beqb in Hc. rewrite Hh, Hm, Hta, Htb, !Z.eqb_refl, bool_decide_true in Hc by done.
  cbn in Hc. apply negb_false_iff in Hc. case_bool_decide; congruence.
Qed.

(** A devnet node that relays votes, and one it accepted. *)
Definition gossip_env : Env := fun k =>
  if bool_decide (k = "IRIUM_NETWORK"%string) then Some "devnet"%string else
  if bool_decide (k = "IRIUM_POAWX_FINALITY_GOSSIP_ACTIVATION_HEIGHT"%string) then Some "0"%string else
  if bool_decide (k = "IRIUM_POAWX_AUDIT_HARDENING_ACTIVATION_HEIGHT"%string) then Some "0"%string else None.
Definition sample_vote : FinalityVoteV1 :=
  vote_signed Byte.x01 (network_id_byte gossip_env) 50 (replicate 32 1) (zeros 32) 7 (zeros 32) Commit.
Definition sample_cache : NodeFinalityVoteCache :=
  (ingest_vote gossip_env NodeFinalityVoteCache_new (serialize_vote sample_vote)).2.

Lemma vote_cache_invariant_witness :
  fc_votes sample_cache !! vote_key sample_vote = Some sample_vote /\
  verify_vote sample_vote (network_id_byte gossip_env) 50 (replicate 32 1) = Ok tt.
Proof.
  assert (fc_votes sample_cache !! vote_key sample_vote = Some sample_vote) as Hl by (vm_compute; reflexivity).
  split; [exact Hl|].
  assert (cache_reachable gossip_env sample_cache) as Hr by (eapply reach_step; [apply reach_new | apply step_ingest]).
  exact (proj1 (proj2 (vote_cache_invariant gossip_env sample_cache Hr _ _ _ _ Hl Hl))).
Defined.
