(* ===== verification/Admission.v ===== *)
(** * Admission: the committed set of candidates
    ([src/src/poawx_committed_admission.rs], the gates of
    [src/src/poawx_admission.rs])

    A block commits to the set of candidates of the next height (or its own) by
    the root of the set; the set of the later block must then be that one.  The
    file also has the seed from which the roles of a height are drawn.

    Shown here: the wire form of a commitment is faithful; a commitment built
    from a set of candidates is accepted and matches it; a commitment that is
    accepted and matches two sets exhibits a collision of the digest unless the
    sets are the same. *)

From S2P Require Import Prelude Crypto Wire Activation Candidate Finality.

(** ** Constants *)
Definition COMMITMENT_DOMAIN : bytes := byte_string "IRIUM_POAWX_ADMISSION_COMMITMENT_V1".
Definition COMMITTED_ADMISSION_SECTION_MAGIC : bytes := byte_string "CAC1".
Definition ADMISSION_COMMITMENT_VERSION : Z := 1.
Definition ADMISSION_COMMITMENT_WIRE : Z := 124.
Definition MAX_COMMITTED_CANDIDATES : Z := 4096.
Definition DEFAULT_COMMITTED_ADMISSION_WINDOW : Z := 64.
Definition ASSIGNMENT_SEED_DOMAIN_V2 : bytes := byte_string "IRIUM_POAWX_ASSIGNMENT_SEED_V2".
Definition SEED_EPOCH_LEN : Z := 2016.
Definition DEFAULT_CANDIDATE_ADMISSION_WINDOW : Z := 64.

(** ** The commitment *)
Record AdmissionCommitmentV1 := {
  ac_version : Z;
  ac_network_id : Z;
  ac_target_height : Z;
  ac_commit_height : Z;
  ac_seed : bytes;
  ac_candidate_admission_root : bytes;
  ac_candidate_count : Z;
  ac_window_id : Z;
  ac_digest : bytes
}.

#[export] Instance AdmissionCommitmentV1_eq_dec : EqDecision AdmissionCommitmentV1.
Proof. solve_decision. Defined.

Definition commitment_digest `{C : Crypto} (network_id target_height commit_height : Z)
    (seed candidate_admission_root : bytes) (candidate_count window_id : Z) : bytes :=
  sha256 (COMMITMENT_DOMAIN ++ [ADMISSION_COMMITMENT_VERSION] ++ [network_id] ++ le_bytes 8 target_height
          ++ le_bytes 8 commit_height ++ seed ++ candidate_admission_root ++ le_bytes 2 candidate_count
          ++ le_bytes 8 window_id).

Definition AdmissionCommitmentV1_new `{C : Crypto} (network_id target_height commit_height : Z)
    (seed candidate_admission_root : bytes) (candidate_count window_id : Z) : AdmissionCommitmentV1 :=
  {| ac_version := ADMISSION_COMMITMENT_VERSION; ac_network_id := network_id; ac_target_height := target_height;
     ac_commit_height := commit_height; ac_seed := seed; ac_candidate_admission_root := candidate_admission_root;
     ac_candidate_count := candidate_count; ac_window_id := window_id;
     ac_digest := commitment_digest network_id target_height commit_height seed candidate_admission_root
                    candidate_count window_id |}.

Definition serialize_commitment (a : AdmissionCommitmentV1) : bytes :=
  [ac_version a] ++ [ac_network_id a] ++ le_bytes 8 (ac_target_height a) ++ le_bytes 8 (ac_commit_height a)
  ++ ac_seed a ++ ac_candidate_admission_root a ++ le_bytes 2 (ac_candidate_count a) ++ le_bytes 8 (ac_window_id a)
  ++ ac_digest a.

Definition deserialize_commitment (raw : bytes) : res string AdmissionCommitmentV1 :=
  if negb (len raw =? ADMISSION_COMMITMENT_WIRE) then Err "admission commitment: bad length"%string else
  '(version, raw) ← rd_u8 raw;
  if negb (version =? ADMISSION_COMMITMENT_VERSION) then Err "admission commitment: unknown version"%string else
  '(network_id, raw) ← rd_u8 raw;
  '(target_height, raw) ← rd_le 8 raw;
  '(commit_height, raw) ← rd_le 8 raw;
  '(seed, raw) ← rd 32 raw;
  '(candidate_admission_root, raw) ← rd 32 raw;
  '(candidate_count, raw) ← rd_le 2 raw;
  '(window_id, raw) ← rd_le 8 raw;
  '(digest, raw) ← rd 32 raw;
  if MAX_COMMITTED_CANDIDATES <? candidate_count
  then Err "admission commitment: candidate count over cap"%string else
  Ok {| ac_version := version; ac_network_id := network_id; ac_target_height := target_height;
        ac_commit_height := commit_height; ac_seed := seed; ac_candidate_admission_root := candidate_admission_root;
        ac_candidate_count := candidate_count; ac_window_id := window_id; ac_digest := digest |}.

Record commitment_ok (a : AdmissionCommitmentV1) : Prop := {
  aco_version : ac_version a = 1;
  aco_network : u8 (ac_network_id a);
  aco_target : u64 (ac_target_height a);
  aco_commit : u64 (ac_commit_height a);
  aco_seed : arr 32 (ac_seed a);
  aco_root : arr 32 (ac_candidate_admission_root a);
  aco_count : u16 (ac_candidate_count a);
  aco_cap : ac_candidate_count a <= 4096;
  aco_window : u64 (ac_window_id a);
  aco_digest : arr 32 (ac_digest a)
}.

#[export] Instance AdmissionCommitmentV1_wire : Wire AdmissionCommitmentV1 :=
  {| to_wire := serialize_commitment; of_wire := deserialize_commitment; wire_ok := commitment_ok |}.

Definition validate_commitment `{C : Crypto} (a : AdmissionCommitmentV1) (network_id target_height : Z)
    : res string unit :=
  if negb (ac_version a =? ADMISSION_COMMITMENT_VERSION) then Err "admission commitment: bad version"%string else
  if negb (ac_network_id a =? network_id) then Err "admission commitment: wrong network"%string else
  if negb (ac_target_height a =? target_height) then Err "admission commitment: wrong target height"%string else
  if negb (ac_commit_height a =? ac_target_height a)
     && negb (wadd64 (ac_commit_height a) 1 =? ac_target_height a)
  then Err "admission commitment: commit_height must be target or target-1"%string else
  if MAX_COMMITTED_CANDIDATES <? ac_candidate_count a
  then Err "admission commitment: candidate count over cap"%string else
  if negb (beqb (commitment_digest (ac_network_id a) (ac_target_height a) (ac_commit_height a) (ac_seed a)
                   (ac_candidate_admission_root a) (ac_candidate_count a) (ac_window_id a)) (ac_digest a))
  then Err "admission commitment: digest mismatch"%string else
  Ok tt.

(** [len().min(u16::MAX) as u16] *)
Definition candidate_count_of (cs : CandidateSet) : Z := Z.min (len (cset_candidates cs)) U16_MAX.

Definition matches_candidate_set `{C : Crypto} (a : AdmissionCommitmentV1) (cs : CandidateSet) : bool :=
  beqb (candidate_set_root cs) (ac_candidate_admission_root a) && (candidate_count_of cs =? ac_candidate_count a)
  && beqb (cset_seed cs) (ac_seed a) && (cset_network_id cs =? ac_network_id a)
  && (cset_target_height cs =? ac_target_height a).

(** ** The seed of an epoch *)
Definition admission_epoch_seed (parent_prev_hash : option bytes) (block_prev_hash : bytes) : bytes :=
  match parent_prev_hash with
  | Some p => if negb (beqb p (zeros 32)) then p else block_prev_hash
  | None => block_prev_hash
  end.

Definition assignment_seed_v2 `{C : Crypto} (base finality_sig_digest precommit_digest : bytes) (epoch_index : Z)
    : bytes :=
  sha256 (ASSIGNMENT_SEED_DOMAIN_V2 ++ base ++ finality_sig_digest ++ precommit_digest ++ le_bytes 8 epoch_index).

Definition resolve_epoch_seed_parts_with `{C : Crypto} (multisource_active : bool) (target_height : Z)
    (base finality_sig_digest precommit_digest : bytes) : bytes :=
  if negb multisource_active then base else
  assignment_seed_v2 base finality_sig_digest precommit_digest (target_height / SEED_EPOCH_LEN).

(** ** Gates *)
Definition multisource_seed_gate (network_id : Z) (activation : option Z) (height : Z) : bool :=
  active_at (poawx_effective_activation network_id activation) height.
Definition committed_admission_gate (network_id : Z) (activation : option Z) (height : Z) : bool :=
  active_at (poawx_effective_activation network_id activation) height.
Definition committed_admission_enforced_gate (network_id : Z) (activation : option Z) (required : bool) (height : Z)
    : bool := committed_admission_gate network_id activation height && required.
Definition candidate_admission_gate (network_id : Z) (activation : option Z) (height : Z) : bool :=
  active_at (poawx_effective_activation network_id activation) height.
Definition candidate_admission_enforced_gate (network_id : Z) (activation : option Z) (required : bool) (height : Z)
    : bool := candidate_admission_gate network_id activation height && required.

Section gates.
Context (env : Env).

Definition multisource_seed_activation_height : option Z :=
  env_u64 env "IRIUM_POAWX_MULTISOURCE_SEED_ACTIVATION_HEIGHT".
Definition multisource_seed_active (height : Z) : bool :=
  multisource_seed_gate (network_id_byte env) multisource_seed_activation_height height.

Definition resolve_epoch_seed_parts `{C : Crypto} (target_height : Z) (base finality_sig_digest precommit_digest : bytes)
    : bytes :=
  resolve_epoch_seed_parts_with (multisource_seed_active target_height) target_height base finality_sig_digest
    precommit_digest.

Definition committed_admission_window : Z :=
  positive_or (env_u64 env "IRIUM_POAWX_COMMITTED_ADMISSION_WINDOW") DEFAULT_COMMITTED_ADMISSION_WINDOW.
Definition committed_admission_window_id (target_height : Z) : Z := target_height / committed_admission_window.
Definition committed_admission_activation_height : option Z :=
  env_u64 env "IRIUM_POAWX_COMMITTED_ADMISSION_ACTIVATION_HEIGHT".
Definition committed_admission_required : bool :=
  if network_id_byte env =? 0 then true else env_flag env "IRIUM_POAWX_COMMITTED_ADMISSION_REQUIRED".
Definition committed_admission_active (height : Z) : bool :=
  committed_admission_gate (network_id_byte env) committed_admission_activation_height height.
Definition committed_admission_enforced (height : Z) : bool :=
  committed_admission_enforced_gate (network_id_byte env) committed_admission_activation_height
    committed_admission_required height.

Definition from_candidate_set `{C : Crypto} (cs : CandidateSet) (commit_height : Z) : AdmissionCommitmentV1 :=
  AdmissionCommitmentV1_new (cset_network_id cs) (cset_target_height cs) commit_height (cset_seed cs)
    (candidate_set_root cs) (candidate_count_of cs) (committed_admission_window_id (cset_target_height cs)).

Definition candidate_admission_window : Z :=
  positive_or (env_u64 env "IRIUM_POAWX_CANDIDATE_ADMISSION_WINDOW") DEFAULT_CANDIDATE_ADMISSION_WINDOW.
Definition candidate_admission_activation_height : option Z :=
  env_u64 env "IRIUM_POAWX_CANDIDATE_ADMISSION_ACTIVATION_HEIGHT".
Definition candidate_admission_required : bool :=
  if network_id_byte env =? 0 then true else env_flag env "IRIUM_POAWX_CANDIDATE_ADMISSION_REQUIRED".
Definition candidate_admission_active (height : Z) : bool :=
  candidate_admission_gate (network_id_byte env) candidate_admission_activation_height height.
Definition candidate_admission_enforced (height : Z) : bool :=
  candidate_admission_enforced_gate (network_id_byte env) candidate_admission_activation_height
    candidate_admission_required height.
Definition candidate_admission_gossip_enabled : bool :=
  bool_decide (is_Some (poawx_effective_activation (network_id_byte env) candidate_admission_activation_height)).
End gates.

(** ** Wire form *)
Lemma commitment_len a : commitment_ok a -> len (serialize_commitment a) = 124.
Proof. revert a. fixed_len serialize_commitment. Qed.

#[export] Instance AdmissionCommitmentV1_fixed : FixedWire AdmissionCommitmentV1_wire ADMISSION_COMMITMENT_WIRE.
Proof.
  unfold ADMISSION_COMMITMENT_WIRE. split; [split|]; cbn [of_wire to_wire wire_ok AdmissionCommitmentV1_wire].
  - intros a Ha. unfold deserialize_commitment. rewrite (commitment_len a Ha).
    change (124 =? ADMISSION_COMMITMENT_WIRE) with true. cbn [negb].
    rewrite <- (app_nil_r (serialize_commitment a)). unfold serialize_commitment. rewrite <- ?app_assoc.
    destruct Ha; unfold arr in *; destruct_and?. read_field.
    rewrite aco_version0. change (1 =? ADMISSION_COMMITMENT_VERSION) with true. cbn [negb].
    repeat read_field. unfold MAX_COMMITTED_CANDIDATES. replace (4096 <? _) with false by lia. rewrite <- aco_version0. by destruct a.
  - intros raw a Hw H. unfold deserialize_commitment in H. wire_inv H. injection H as <-.
    apply negb_false_iff, Z.eqb_eq in Heqb. apply negb_false_iff, Z.eqb_eq in Heqb0. apply Z.ltb_ge in Heqb1.
    eval_width Heqb. wire_split Hw. autorewrite with lens in Heqb. wire_rest.
    unfold MAX_COMMITTED_CANDIDATES, ADMISSION_COMMITMENT_VERSION in *. subst. split; [constructor; cbn -[le_val]; first [wire_leaf | reflexivity | assumption]|].
    unfold serialize_commitment. cbn -[le_bytes le_val app]. wire_unread. by rewrite ?app_nil_r.
  - fixed_total deserialize_commitment.
  - apply commitment_len.
Qed.

(** ** The commitment and the set *)
Section binding.
Context `{C : Crypto}.

Lemma matches_spec a cs : matches_candidate_set a cs = true <->
  candidate_set_root cs = ac_candidate_admission_root a /\ candidate_count_of cs = ac_candidate_count a /\
  cset_seed cs = ac_seed a /\ cset_network_id cs = ac_network_id a /\ cset_target_height cs = ac_target_height a.
Proof.
  unfold matches_candidate_set, beqb. rewrite !andb_true_iff, !Z.eqb_eq, !bool_decide_eq_true. tauto.
Qed.

(** The root of a set determines it, up to a collision of the digest. *)
Lemma root_binds cs1 cs2 : candidate_set_ok cs1 -> candidate_set_ok cs2 ->
  candidate_set_root cs1 = candidate_set_root cs2 ->
  cs1 = cs2 \/ exists x y, x <> y /\ sha256 x = sha256 y.
Proof.
  intros H1 H2 Hr. destruct (decide (serialize_candidate_set cs1 = serialize_candidate_set cs2)) as [He|Hne].
  - left. apply (wire_read (W := CandidateSet_wire)) in H1, H2. cbn [of_wire to_wire CandidateSet_wire] in H1, H2.
    rewrite He, H2 in H1. by injection H1.
  - right. exists (CANDIDATE_SET_DOMAIN ++ serialize_candidate_set cs1), (CANDIDATE_SET_DOMAIN ++ serialize_candidate_set cs2).
    split; [|exact Hr]. intros He. by apply (inj _) in He.
Qed.

(** What [from_candidate_set] makes is accepted, at the height of the set and
    one block before it. *)
Lemma built_commitment_accepted env cs commit_height :
  len (cset_candidates cs) <= 4096 -> u64 (cset_target_height cs) -> 0 <= commit_height ->
  commit_height = cset_target_height cs \/ commit_height + 1 = cset_target_height cs ->
  let a := from_candidate_set env cs commit_height in
  validate_commitment a (cset_network_id cs) (cset_target_height cs) = Ok tt /\ matches_candidate_set a cs = true.
Proof.
  intros Hn Ht Hh Hc a. split; [|by apply matches_spec].
  unfold validate_commitment, a, from_candidate_set, AdmissionCommitmentV1_new. cbn [ac_version ac_network_id
    ac_target_height ac_commit_height ac_candidate_count ac_digest ac_seed ac_candidate_admission_root ac_window_id].
  rewrite !Z.eqb_refl. cbn [negb]. unfold beqb. rewrite bool_decide_true by done. cbn [negb].
  assert (candidate_count_of cs <= 4096) by (unfold candidate_count_of; lia). unfold MAX_COMMITTED_CANDIDATES.
  replace (4096 <? _) with false by lia. replace (_ && _) with false; [done|]. symmetry.
  destruct Hc as [->|Hc]; [by rewrite Z.eqb_refl|]. unfold wadd64, u64 in *. rewrite Z.mod_small by lia.
  rewrite Hc, Z.eqb_refl. apply andb_false_r.
Qed.
End binding.

(** ** Theorems *)

(** The commitment to the candidates of a height works and binds: what is
    built from a set of at most 4096 candidates, at the height of the set or one
    block before, is accepted for that height and matches the set; and two
    well-formed sets that match one commitment are the same set, or their
    serializations are a collision of SHA-256. *)
Theorem admission_commitment_binds `{C : Crypto} env cs commit_height :
  len (cset_candidates cs) <= 4096 -> u64 (cset_target_height cs) -> 0 <= commit_height ->
  commit_height = cset_target_height cs \/ commit_height + 1 = cset_target_height cs ->
  let a := from_candidate_set env cs commit_height in
  validate_commitment a (cset_network_id cs) (cset_target_height cs) = Ok tt /\ matches_candidate_set a cs = true /\
  forall a' cs1 cs2, candidate_set_ok cs1 -> candidate_set_ok cs2 ->
    matches_candidate_set a' cs1 = true -> matches_candidate_set a' cs2 = true ->
    cs1 = cs2 \/ exists x y, x <> y /\ sha256 x = sha256 y.
Proof.
  intros Hn Ht Hh Hc a. destruct (built_commitment_accepted env cs commit_height Hn Ht Hh Hc) as [Hv Hm].
  split_and!; [exact Hv | exact Hm|]. intros a' cs1 cs2 H1 H2 [E1 _]%matches_spec [E2 _]%matches_spec.
  apply root_binds; congruence.
Qed.

Lemma admission_commitment_binds_witness :
  let a := from_candidate_set (fun _ => None) sample_candidates 8 in
  validate_commitment a (cset_network_id sample_candidates) 9 = Ok tt /\ matches_candidate_set a sample_candidates = true.
Proof.
  cbv zeta. destruct (admission_commitment_binds (fun _ => None) sample_candidates 8) as (H1 & H2 & _);
    [vm_compute; discriminate | vm_compute; split; [discriminate | reflexivity] | lia | right; vm_compute; reflexivity |].
  split; [exact H1 | exact H2].
Defined.
