(* ===== verification/AdmissionCache.v ===== *)
(** * AdmissionCache: gossip of candidates
    ([src/src/poawx_admission.rs], lines 33 to 47 and 104 to 680)

    A miner announces itself as a candidate for a role of a coming height with an
    admission.  A node keeps the admissions it has checked, one for each height,
    role and solver, writes them to a snapshot and reads them back when it starts
    again; [validate_block_candidate_sets] compares the set of a block with it.
    Each source address has a rate limit.

    Shown here: the wire form is faithful; the cache holds only what was checked,
    under its own key; a restarted node has the same cache; a source that keeps
    to the rate is never dropped, whatever the others do; who comes first holds
    the place of a solver, whoever the solver is. *)

From stdpp Require Import sorting.
From S2P Require Import Prelude Crypto Wire Activation Mempool Candidate Finality Admission.

Definition CANDIDATE_ADMISSION_DOMAIN : bytes := byte_string "IRIUM_POAWX_CANDIDATE_ADMISSION_V1".
Definition CANDIDATE_ADMISSION_VERSION : Z := 1.
Definition CANDIDATE_ADMISSION_WIRE : Z := 249.
Definition CANDIDATE_ADMISSION_V2_WIRE : Z := 522.
Definition CANDIDATE_ADMISSION_MAX_BYTES : Z := 4096.
Definition ADMISSION_SEEN_CAP : Z := 100000.
Definition ADMISSION_PRUNE_KEEP : Z := 64.

(** ** Admissions *)
Record CandidateAdmissionV1 := {
  ca_version : Z;
  ca_network_id : Z;
  ca_target_height : Z;
  ca_seed : bytes;
  ca_candidate : RoleCandidate;
  ca_assignment_proof_v2 : option AssignmentProofV2;
  ca_digest : bytes
}.

Definition admission_digest `{C : Crypto} (network_id target_height : Z) (seed : bytes) (candidate : RoleCandidate)
    (v2 : option AssignmentProofV2) : bytes :=
  sha256 (CANDIDATE_ADMISSION_DOMAIN ++ [CANDIDATE_ADMISSION_VERSION] ++ [network_id] ++ le_bytes 8 target_height
          ++ seed ++ serialize_candidate candidate
          ++ match v2 with Some p => byte_string "IRIUM_POAWX_ADMISSION_V2" ++ a2_digest p | None => [] end).

Definition new_with_v2 `{C : Crypto} (network_id target_height : Z) (seed : bytes) (candidate : RoleCandidate)
    (v2 : option AssignmentProofV2) : CandidateAdmissionV1 :=
  {| ca_version := CANDIDATE_ADMISSION_VERSION; ca_network_id := network_id; ca_target_height := target_height;
     ca_seed := seed; ca_candidate := candidate; ca_assignment_proof_v2 := v2;
     ca_digest := admission_digest network_id target_height seed candidate v2 |}.

Definition serialize_admission (a : CandidateAdmissionV1) : bytes :=
  [ca_version a] ++ [ca_network_id a] ++ le_bytes 8 (ca_target_height a) ++ ca_seed a
  ++ serialize_candidate (ca_candidate a) ++ ca_digest a
  ++ match ca_assignment_proof_v2 a with Some p => serialize_assignment_v2 p | None => [] end.

Definition deserialize_admission (raw : bytes) : res string CandidateAdmissionV1 :=
  if negb (len raw =? CANDIDATE_ADMISSION_WIRE) && negb (len raw =? CANDIDATE_ADMISSION_V2_WIRE)
  then Err "candidate admission: bad length"%string else
  let long := len raw =? CANDIDATE_ADMISSION_V2_WIRE in
  '(version, raw) ← rd_u8 raw;
  if negb (version =? CANDIDATE_ADMISSION_VERSION) then Err "candidate admission: unknown version"%string else
  '(network_id, raw) ← rd_u8 raw;
  '(target_height, raw) ← rd_le 8 raw;
  '(seed, raw) ← rd 32 raw;
  '(c, raw) ← rd ROLE_CANDIDATE_WIRE raw;
  candidate ← deserialize_candidate c;
  '(digest, raw) ← rd 32 raw;
  v2 ← (if long then p ← deserialize_assignment_v2 raw; Ok (Some p) else Ok None);
  Ok {| ca_version := version; ca_network_id := network_id; ca_target_height := target_height; ca_seed := seed;
        ca_candidate := candidate; ca_assignment_proof_v2 := v2; ca_digest := digest |}.

Record admission_ok (a : CandidateAdmissionV1) : Prop := {
  cao_version : ca_version a = 1;
  cao_network : u8 (ca_network_id a);
  cao_height : u64 (ca_target_height a);
  cao_seed : arr 32 (ca_seed a);
  cao_candidate : candidate_ok (ca_candidate a);
  cao_v2 : from_option assignment_v2_ok True (ca_assignment_proof_v2 a);
  cao_digest : arr 32 (ca_digest a)
}.

(** ** The cache; the path of the snapshot is left out *)
Abbreviation AdmissionKey := (Z * Z * bytes)%type.

Record NodeCandidateAdmissionCache := {
  admissions : gmap AdmissionKey CandidateAdmissionV1;
  adm_seen : gset bytes;
  adm_tip : Z
}.
Definition NodeCandidateAdmissionCache_new : NodeCandidateAdmissionCache :=
  {| admissions := ∅; adm_seen := ∅; adm_tip := 0 |}.

Definition admission_key (a : CandidateAdmissionV1) : AdmissionKey :=
  (ca_target_height a, rc_role_id (ca_candidate a), rc_solver_pkh (ca_candidate a)).

Definition set_admission_tip (c : NodeCandidateAdmissionCache) (tip : Z) : NodeCandidateAdmissionCache :=
  {| admissions := admissions c; adm_seen := adm_seen c; adm_tip := tip |}.

Definition mark_admission_seen (s : gset bytes) (d : bytes) : gset bytes :=
  {[d]} ∪ (if ADMISSION_SEEN_CAP <=? Z.of_nat (size s) then ∅ else s).

Definition store_admission (c : NodeCandidateAdmissionCache) (a : CandidateAdmissionV1) : NodeCandidateAdmissionCache :=
  {| admissions := <[admission_key a := a]> (admissions c); adm_seen := mark_admission_seen (adm_seen c) (ca_digest a);
     adm_tip := adm_tip c |}.

(** [BTreeMap] order: by the height, then the role, then the solver. *)
Definition admission_le (a b : AdmissionKey * CandidateAdmissionV1) : Prop :=
  let '((h, r, m), _) := a in
  let '((h', r', m'), _) := b in
  h < h' \/ (h = h' /\ (r < r' \/ (r = r' /\ bytes_ltb m' m = false))).
#[export] Instance admission_le_dec : RelDecision admission_le.
Proof. intros [[[h r] m] a] [[[h' r'] m'] a']. unfold admission_le. apply _. Defined.
Definition sorted_admissions (c : NodeCandidateAdmissionCache) : list (AdmissionKey * CandidateAdmissionV1) :=
  merge_sort admission_le (map_to_list (admissions c)).

Section cache.
Context `{C : Crypto} `{V : Vrf} (env : Env).

Definition check_v2 (a : CandidateAdmissionV1) (p : AssignmentProofV2) : res string unit :=
  let c := ca_candidate a in
  _ ← validate_assignment_v2 env p (ca_network_id a) (ca_target_height a);
  if negb (a2_role_id p =? rc_role_id c) then Err "candidate admission: v2 role mismatch"%string else
  if negb (beqb (a2_solver_pkh p) (rc_solver_pkh c)) then Err "candidate admission: v2 solver mismatch"%string else
  if negb (beqb (a2_ticket_digest p) (rc_ticket_digest c)) then Err "candidate admission: v2 ticket mismatch"%string else
  if negb (beqb (a2_assignment_public_key p) (rc_assignment_public_key c))
  then Err "candidate admission: v2 assignment key mismatch"%string else
  if negb (beqb (a2_seed p) (ca_seed a)) then Err "candidate admission: v2 seed mismatch"%string else
  if negb (beqb (a2_vrf_output p) (rc_assignment_proof_digest c))
  then Err "candidate admission: v2 output != candidate digest"%string else Ok tt.

Definition validate_admission (a : CandidateAdmissionV1) (network_id target_height : Z) : res string unit :=
  if negb (ca_version a =? CANDIDATE_ADMISSION_VERSION) then Err "candidate admission: bad version"%string else
  if negb (ca_network_id a =? network_id) then Err "candidate admission: wrong network"%string else
  if negb (ca_target_height a =? target_height) then Err "candidate admission: wrong height"%string else
  _ ← (if true_vrf_active env (ca_target_height a) then validate_scoring (ca_candidate a)
       else validate_self (ca_candidate a) (ca_network_id a) (ca_target_height a) (ca_seed a));
  _ ← (if true_vrf_active env (ca_target_height a) then
         p ← ok_or (ca_assignment_proof_v2 a) "candidate admission: true-VRF proof required"%string; check_v2 a p
       else Ok tt);
  if negb (beqb (admission_digest (ca_network_id a) (ca_target_height a) (ca_seed a) (ca_candidate a)
                   (ca_assignment_proof_v2 a)) (ca_digest a))
  then Err "candidate admission: digest mismatch"%string else Ok tt.

Definition admission_in_window (c : NodeCandidateAdmissionCache) (target : Z) : bool :=
  (adm_tip c <=? target) && (target <=? sat_add64 (adm_tip c) (candidate_admission_window env)).

(** An admission of this network that passes its own check. *)
Definition read_admission (raw : bytes) : res string CandidateAdmissionV1 :=
  a ← deserialize_admission raw;
  if negb (ca_network_id a =? network_id_byte env) then Err "wrong network"%string else
  _ ← validate_admission a (ca_network_id a) (ca_target_height a);
  Ok a.

Definition ingest_admission (c : NodeCandidateAdmissionCache) (raw : bytes)
    : GossipOutcome * NodeCandidateAdmissionCache :=
  if negb (candidate_admission_gossip_enabled env) then (Rejected "candidate admission disabled", c) else
  if CANDIDATE_ADMISSION_MAX_BYTES <? len raw then (Rejected "candidate admission oversize", c) else
  match read_admission raw with
  | Err e => (Rejected e, c)
  | Panic => (Rejected "panic", c)
  | Ok a =>
      if negb (admission_in_window c (ca_target_height a)) then (Rejected "out of admission window", c) else
      if bool_decide (ca_digest a ∈ adm_seen c) then (Duplicate, c) else
      match admissions c !! admission_key a with
      | Some ex =>
          if negb (beqb (ca_digest ex) (ca_digest a))
          then (Rejected "conflicting admission for (height,role,solver)", c) else (Duplicate, c)
      | None => (AcceptedNew, store_admission c a)
      end
  end.

Definition candidates_for (c : NodeCandidateAdmissionCache) (target_height : Z) (seed : bytes) : list RoleCandidate :=
  let cands := (fun ka => ca_candidate ka.2) <$>
    filter (fun ka => ka.1.1.1 = target_height /\ ca_seed ka.2 = seed) (sorted_admissions c) in
  cset_candidates (sort_canonical (set_candidates (CandidateSet_new (network_id_byte env) target_height seed) cands)).

Definition admitted_candidate_set (c : NodeCandidateAdmissionCache) (network_id target_height : Z) (seed : bytes)
    : CandidateSet :=
  set_candidates (CandidateSet_new network_id target_height seed) (candidates_for c target_height seed).

Definition admissions_for_height (c : NodeCandidateAdmissionCache) (target_height : Z) : list CandidateAdmissionV1 :=
  snd <$> filter (fun ka => ka.1.1.1 = target_height) (sorted_admissions c).
Definition admission_count (c : NodeCandidateAdmissionCache) (target_height : Z) : Z :=
  len (admissions_for_height c target_height).

Definition prune_admissions (c : NodeCandidateAdmissionCache) (tip : Z) : NodeCandidateAdmissionCache :=
  let c := set_admission_tip c tip in
  let floor := sat_sub tip ADMISSION_PRUNE_KEEP in
  if floor =? 0 then c else
  {| admissions := filter (fun ka => floor <= ka.1.1.1) (admissions c); adm_seen := adm_seen c; adm_tip := adm_tip c |}.

Definition clear_admissions (c : NodeCandidateAdmissionCache) : NodeCandidateAdmissionCache :=
  {| admissions := ∅; adm_seen := ∅; adm_tip := adm_tip c |}.

(** *** The snapshot *)
Definition snapshot_record (r : bytes) : bytes :=
  if (len r =? 0) || (CANDIDATE_ADMISSION_MAX_BYTES <? len r) then [] else le_bytes 4 (as_u32 (len r)) ++ r.

Definition persist_snapshot (c : NodeCandidateAdmissionCache) : bytes :=
  concat ((fun ka => snapshot_record (serialize_admission ka.2)) <$> sorted_admissions c).

Definition reload_persisted_bytes (c : NodeCandidateAdmissionCache) (raw : bytes) : bool * NodeCandidateAdmissionCache :=
  if (len raw =? 0) || (CANDIDATE_ADMISSION_MAX_BYTES <? len raw) then (false, c) else
  match read_admission raw with
  | Err _ | Panic => (false, c)
  | Ok a =>
      match admissions c !! admission_key a with
      | Some ex => (beqb (ca_digest ex) (ca_digest a), c)
      | None => (true, store_admission c a)
      end
  end.

(** The loop over the data: each round takes five bytes or more. *)
Fixpoint load_persisted (fuel : nat) (c : NodeCandidateAdmissionCache) (data : bytes) (loaded : Z)
    : Z * NodeCandidateAdmissionCache :=
  match fuel with
  | O => (loaded, c)
  | S fuel =>
      if len data <? 4 then (loaded, c) else
      let l := le_val (take 4 data) in
      let data := drop 4 data in
      if (l =? 0) || (CANDIDATE_ADMISSION_MAX_BYTES <? l) || (len data <? l) then (loaded, c) else
      let '(stored, c) := reload_persisted_bytes c (take (Z.to_nat l) data) in
      load_persisted fuel c (drop (Z.to_nat l) data) (if stored then loaded + 1 else loaded)
  end.
End cache.

(** ** The rate limit; times are in nanoseconds *)
Record AdmissionRate := { window_start : Z; ar_count : Z; strikes : Z; cooldown_until : option Z }.

Section rate.
Context (env : Env).

Definition clamp (lo hi v : Z) : Z := Z.min hi (Z.max lo v).
Definition admission_rate_window_secs : Z := clamp 1 3600 (default 10 (env_u64 env "IRIUM_POAWX_ADMISSION_RATE_WINDOW_SECS")).
Definition admission_rate_max : Z := clamp 4 1000000 (default 50 (env_u32 env "IRIUM_POAWX_ADMISSION_RATE_MAX")).
Definition admission_flood_cooldown_secs : Z := clamp 0 86400 (default 300 (env_u64 env "IRIUM_POAWX_ADMISSION_COOLDOWN_SECS")).

Definition rate_window : Z := admission_rate_window_secs * NANOS.
Definition rate_cooldown : Z := admission_flood_cooldown_secs * NANOS.

Definition fresh_rate (now : Z) : AdmissionRate :=
  {| window_start := now; ar_count := 0; strikes := 0; cooldown_until := None |}.

(** [retain], when there are too many sources. *)
Definition keep_rate (now : Z) (r : AdmissionRate) : bool :=
  match cooldown_until r with Some t => now <? t | None => false end || (now - window_start r <? rate_window).
Definition retain_rates (now : Z) (m : gmap IpAddr AdmissionRate) : gmap IpAddr AdmissionRate :=
  if 8192 <? Z.of_nat (size m) then filter (fun kr => keep_rate now kr.2 = true) m else m.

(** The entry of the source: whether it may pass, and its new state. *)
Definition rate_step (now : Z) (e : AdmissionRate) : bool * AdmissionRate :=
  if match cooldown_until e with Some until => now <? until | None => false end then (false, e) else
  let e := match cooldown_until e with Some _ => fresh_rate now | None => e end in
  let e := if rate_window <=? now - window_start e
           then {| window_start := now; ar_count := 0;
                   strikes := if ar_count e <=? admission_rate_max then 0 else strikes e; cooldown_until := None |}
           else e in
  let count := Z.min U32_MAX (ar_count e + 1) in
  if admission_rate_max <? count then
    let strikes := Z.min U32_MAX (strikes e + 1) in
    (false, {| window_start := window_start e; ar_count := count; strikes := strikes;
               cooldown_until := if (3 <=? strikes) && (0 <? admission_flood_cooldown_secs)
                                 then Some (now + rate_cooldown) else None |})
  else (true, {| window_start := window_start e; ar_count := count; strikes := strikes e; cooldown_until := None |}).

Definition admission_rate_allowed (m : gmap IpAddr AdmissionRate) (src : IpAddr) (now : Z)
    : bool * gmap IpAddr AdmissionRate :=
  let m := retain_rates now m in
  let '(ok, e) := rate_step now (default (fresh_rate now) (m !! src)) in
  (ok, <[src := e]> m).
End rate.

(** ** The wire form *)
Lemma admission_len a : admission_ok a ->
  len (serialize_admission a) = match ca_assignment_proof_v2 a with Some _ => 522 | None => 249 end.
Proof.
  intros [? ? ? [? _] Hc Hv [? _]]. pose proof (candidate_len _ Hc). unfold serialize_admission.
  destruct (ca_assignment_proof_v2 a) as [p|]; [pose proof (assignment_v2_len p Hv)|]; len_lia.
Qed.

Lemma read_serialized_admission a : admission_ok a -> deserialize_admission (serialize_admission a) = Ok a.
Proof.
  intros Ha. pose proof (admission_len a Ha) as Hl. unfold deserialize_admission.
  set (s := serialize_admission a) in Hl |- * at 1 2 3. rewrite Hl. unfold s, serialize_admission.
  destruct Ha as [Hv Hn Hh [Hs Hs'] Hc Hp [Hd Hd']]. rewrite Hv.
  pose proof (candidate_len _ Hc) as Hcl. pose proof (wire_read (W := RoleCandidate_wire) _ Hc) as Hcr. cbn [of_wire to_wire RoleCandidate_wire] in Hcr.
  unfold CANDIDATE_ADMISSION_WIRE, CANDIDATE_ADMISSION_V2_WIRE, ROLE_CANDIDATE_WIRE in *.
  destruct (ca_assignment_proof_v2 a) as [p|] eqn:E; cbn [Z.eqb Pos.eqb negb andb]; cbv zeta; repeat read_field;
    rewrite Hcr; res_simpl; repeat read_field.
  - pose proof (wire_read (W := AssignmentProofV2_wire) _ Hp) as Hpr. cbn [of_wire to_wire AssignmentProofV2_wire] in Hpr. rewrite Hpr. res_simpl.
    destruct a; cbn in *; congruence.
  - destruct a; cbn in *; congruence.
Qed.

Lemma admission_canonical raw a : wf_bytes raw -> deserialize_admission raw = Ok a ->
  admission_ok a /\ serialize_admission a = raw.
Proof.
  intros Hw H. unfold deserialize_admission in H. wire_inv H. injection H as <-. wire_split Hw.
  unfold CANDIDATE_ADMISSION_WIRE, CANDIDATE_ADMISSION_V2_WIRE, ROLE_CANDIDATE_WIRE in *.
  match goal with Hc : deserialize_candidate _ = Ok ?c |- _ =>
    apply (wire_canonical (W := RoleCandidate_wire)) in Hc as [Hco Hcs]; [|assumption] end.
  cbn [of_wire to_wire wire_ok RoleCandidate_wire] in Hco, Hcs.
  match goal with Hv : negb (z =? _) = false |- _ => apply negb_false_iff, Z.eqb_eq in Hv; change (z = 1) in Hv; subst z end.
  match goal with Hx : negb _ && negb _ = false |- _ => autorewrite with lens in Hx; rename Hx into Hlen end.
  match goal with Hx : (if _ then _ else Ok None) = Ok ?o |- _ => rename Hx into Hv2, o into v2; autorewrite with lens in Hv2 end.
  assert (from_option assignment_v2_ok True v2 /\
    match v2 with Some q => serialize_assignment_v2 q | None => [] end = l7) as [Hok Hser].
  { destruct (_ =? 522) eqn:E in Hv2.
    - destruct (deserialize_assignment_v2 l7) as [q| |] eqn:Hq; [|discriminate Hv2..]. injection Hv2 as <-.
      by apply (wire_canonical (W := AssignmentProofV2_wire)).
    - injection Hv2 as <-. split; [done|]. symmetry. apply len_0_nil. pose_len_nonneg. lia. }
  split; [constructor; cbn; first [wire_leaf | done]|].
  unfold serialize_admission. cbn -[le_bytes le_val app serialize_candidate serialize_assignment_v2].
  rewrite Hcs, Hser. wire_unread. done.
Qed.

Lemma admission_total raw : deserialize_admission raw <> Panic.
Proof.
  unfold deserialize_admission. destruct (negb _ && negb _) eqn:E; [done|].
  unfold CANDIDATE_ADMISSION_WIRE, CANDIDATE_ADMISSION_V2_WIRE, ROLE_CANDIDATE_WIRE in *.
  assert (249 <= len raw) as Hl by lia. clear E. cbv zeta. set (long := len raw =? 522). clearbody long.
  reads_total_step. destruct (negb _); [done|]. do 4 reads_total_step.
  match goal with |- context [deserialize_candidate ?s] => pose proof (wire_total (W := RoleCandidate_wire) s) as Hc end.
  cbn [of_wire RoleCandidate_wire] in Hc. destruct (deserialize_candidate _); [|done..]. res_simpl. reads_total_step.
  destruct long; [|done].
  match goal with |- context [deserialize_assignment_v2 ?s] => pose proof (wire_total (W := AssignmentProofV2_wire) s) as Hv end.
  cbn [of_wire AssignmentProofV2_wire] in Hv. by destruct (deserialize_assignment_v2 _).
Qed.

(** ** What the cache holds *)
Section cache_invariant.
Context `{C : Crypto} `{V : Vrf} (env : Env).

(** An entry is under its own key, well formed, of this network and checked. *)
Record entry_ok (k : AdmissionKey) (a : CandidateAdmissionV1) : Prop := {
  eo_key : admission_key a = k;
  eo_wire : admission_ok a;
  eo_network : ca_network_id a = network_id_byte env;
  eo_valid : validate_admission env a (ca_network_id a) (ca_target_height a) = Ok tt
}.

Definition admissions_ok (c : NodeCandidateAdmissionCache) : Prop := map_Forall entry_ok (admissions c).

(** What a node does with the cache. *)
Inductive admission_step : NodeCandidateAdmissionCache -> NodeCandidateAdmissionCache -> Prop :=
| astep_ingest c raw : wf_bytes raw -> admission_step c (ingest_admission env c raw).2
| astep_reload c raw : wf_bytes raw -> admission_step c (reload_persisted_bytes env c raw).2
| astep_prune c tip : admission_step c (prune_admissions c tip)
| astep_tip c tip : admission_step c (set_admission_tip c tip)
| astep_clear c : admission_step c (clear_admissions c).

Lemma read_admission_ok raw a : wf_bytes raw -> read_admission env raw = Ok a ->
  entry_ok (admission_key a) a /\ serialize_admission a = raw.
Proof.
  unfold read_admission. intros Hw H. destruct (deserialize_admission raw) as [a'| |] eqn:Hd; [|discriminate H..].
  cbn [mbind res_bind] in H. destruct (negb _) eqn:Hn; [discriminate H|].
  destruct (validate_admission env a' _ _) as [[]| |] eqn:Hv; [|discriminate H..]. injection H as <-.
  apply admission_canonical in Hd as [Hok Hs]; [|done]. split; [|done]. split; [done | done | lia | done].
Qed.

Lemma store_ok c a : admissions_ok c -> entry_ok (admission_key a) a -> admissions_ok (store_admission c a).
Proof. intros Hc Ha. by apply map_Forall_insert_2. Qed.

Lemma admission_step_ok c c' : admissions_ok c -> admission_step c c' -> admissions_ok c'.
Proof.
  intros Hc. destruct 1 as [c raw Hw | c raw Hw | c tip | c tip | c]; [| | | exact Hc | apply map_Forall_empty].
  - unfold ingest_admission. repeat (case_match; try exact Hc).
    apply store_ok; [exact Hc|]. by eapply read_admission_ok.
  - unfold reload_persisted_bytes. repeat (case_match; try exact Hc).
    apply store_ok; [exact Hc|]. by eapply read_admission_ok.
  - unfold prune_admissions. case_match; [exact Hc|]. intros k a [Ha _]%map_lookup_filter_Some. by apply Hc.
Qed.

Lemma admission_run_ok c : rtc admission_step NodeCandidateAdmissionCache_new c -> admissions_ok c.
Proof.
  intros Hr. assert (forall c0, admissions_ok c0 -> rtc admission_step c0 c -> admissions_ok c) as H.
  { intros c0 H0 Hs. induction Hs; [done | eauto using admission_step_ok]. }
  apply (H _ (map_Forall_empty _) Hr).
Qed.

(** *** The set of candidates *)
Definition of_height (h : Z) (seed : bytes) (ka : AdmissionKey * CandidateAdmissionV1) : Prop :=
  ka.1.1.1 = h /\ ca_seed ka.2 = seed.

Lemma sorted_admissions_perm c : sorted_admissions c ≡ₚ map_to_list (admissions c).
Proof. apply merge_sort_Permutation. Qed.

Lemma elem_of_sorted_admissions c k a : (k, a) ∈ sorted_admissions c <-> admissions c !! k = Some a.
Proof. by rewrite sorted_admissions_perm, elem_of_map_to_list. Qed.

Lemma NoDup_sorted_admissions c : NoDup (sorted_admissions c).
Proof. rewrite sorted_admissions_perm. apply NoDup_map_to_list. Qed.

Lemma elem_of_candidates_for c h seed cand : cand ∈ candidates_for env c h seed <->
  exists k a, admissions c !! k = Some a /\ k.1.1 = h /\ ca_seed a = seed /\ ca_candidate a = cand.
Proof.
  unfold candidates_for, sort_canonical. cbn [cset_candidates set_candidates]. rewrite merge_sort_Permutation.
  rewrite list_elem_of_fmap. split.
  - intros ([k a] & -> & [[Hh Hs] Ha%elem_of_sorted_admissions]%list_elem_of_filter). by exists k, a.
  - intros (k & a & Ha & Hh & Hs & <-). exists (k, a). split; [done|]. apply list_elem_of_filter.
    split; [done|]. by apply elem_of_sorted_admissions.
Qed.

Lemma candidate_keys_nodup c h seed : admissions_ok c ->
  NoDup (sort_key <$> ((fun ka => ca_candidate ka.2) <$> filter (of_height h seed) (sorted_admissions c))).
Proof.
  intros Hc. rewrite <- list_fmap_compose. apply NoDup_fmap_2_strong.
  - intros [k a] [k' a'] [[Hh _] Ha%elem_of_sorted_admissions]%list_elem_of_filter [[Hh' _] Ha'%elem_of_sorted_admissions]%list_elem_of_filter He.
    cbn in Hh, Hh'. destruct (Hc _ _ Ha) as [Hk _ _ _], (Hc _ _ Ha') as [Hk' _ _ _].
    injection He as Hrole Hpkh _ _. unfold admission_key in *. subst k k'. cbn in Hh, Hh'. assert (a = a') as <-; [|done].
    assert (admission_key a = admission_key a') as Hkk by (unfold admission_key; congruence).
    unfold admission_key in Hkk. rewrite Hkk in Ha. congruence.
  - apply NoDup_filter, NoDup_sorted_admissions.
Qed.

Lemma admitted_canonical c net h seed : admissions_ok c -> is_canonical (admitted_candidate_set env c net h seed) = true.
Proof.
  intros Hc. unfold admitted_candidate_set, candidates_for, sort_canonical, is_canonical. cbn [cset_candidates set_candidates].
  apply windows_increase_spec; [apply Sorted_merge_sort; apply _|]. rewrite merge_sort_Permutation.
  by apply candidate_keys_nodup.
Qed.

(** *** The snapshot *)
Lemma read_own_admission k a : entry_ok k a -> read_admission env (serialize_admission a) = Ok a.
Proof.
  intros [_ Hw Hn Hv]. unfold read_admission. rewrite read_serialized_admission by done. cbn [mbind res_bind].
  rewrite Hn, Z.eqb_refl. cbn [negb]. rewrite <- Hn, Hv. done.
Qed.

Lemma admission_bounds k a : entry_ok k a -> 249 <= len (serialize_admission a) <= 522.
Proof. intros [_ Hw _ _]. rewrite admission_len by done. case_match; lia. Qed.

Lemma load_one c k a rest fuel n : entry_ok k a -> admissions c !! k = None ->
  load_persisted env (S fuel) c (snapshot_record (serialize_admission a) ++ rest) n =
  load_persisted env fuel (store_admission c a) rest (n + 1).
Proof.
  intros Ha Hk. pose proof (admission_bounds k a Ha) as Hb. pose proof (len_nonneg rest).
  set (s := serialize_admission a) in *. unfold snapshot_record, CANDIDATE_ADMISSION_MAX_BYTES.
  replace ((len s =? 0) || (4096 <? len s)) with false by lia. rewrite as_u32_small by lia.
  cbn [load_persisted]. rewrite <- app_assoc.
  replace (_ <? 4) with false by (symmetry; apply Z.ltb_ge; len_lia).
  rewrite (take_app_length' (le_bytes 4 (len s))), (drop_app_length' (le_bytes 4 (len s))) by (by rewrite length_le_bytes).
  rewrite le_val_u32 by (unfold u32; lia). unfold CANDIDATE_ADMISSION_MAX_BYTES.
  replace ((len s =? 0) || (4096 <? len s) || (len (s ++ rest) <? len s)) with false by (rewrite len_app; lia).
  rewrite take_app_length', drop_app_length' by (unfold len; lia).
  unfold reload_persisted_bytes, CANDIDATE_ADMISSION_MAX_BYTES. replace ((len s =? 0) || (4096 <? len s)) with false by lia.
  unfold s. rewrite (read_own_admission k a Ha). destruct (eo_key k a Ha). by rewrite Hk.
Qed.

Lemma load_all l : forall c fuel n, NoDup l.*1 -> Forall (fun ka => entry_ok ka.1 ka.2) l ->
  (forall k, k ∈ l.*1 -> admissions c !! k = None) ->
  (length (concat ((fun ka => snapshot_record (serialize_admission ka.2)) <$> l)) <= fuel)%nat ->
  exists c', load_persisted env fuel c (concat ((fun ka => snapshot_record (serialize_admission ka.2)) <$> l)) n =
      (n + len l, c') /\
    admissions c' = foldl (fun m kv => <[kv.1 := kv.2]> m) (admissions c) l /\ adm_tip c' = adm_tip c.
Proof.
  induction l as [|[k a] l IH]; intros c fuel n Hn Hl Hk Hf.
  - exists c. split; [|done]. change (len []) with 0. rewrite Z.add_0_r. by destruct fuel.
  - apply NoDup_cons in Hn as [Hk1 Hn]. apply Forall_cons in Hl as [Ha Hl]. cbn [fst snd] in Ha.
    rewrite fmap_cons in Hf |- *. cbn [concat snd] in Hf |- *. rewrite length_app in Hf.
    assert (length (snapshot_record (serialize_admission a)) <> 0)%nat as Hr.
    { pose proof (admission_bounds k a Ha). unfold snapshot_record, CANDIDATE_ADMISSION_MAX_BYTES.
      replace (_ || _) with false by lia. rewrite length_app, length_le_bytes. lia. }
    destruct fuel as [|fuel]; [lia|].
    rewrite (load_one c k a) by (first [exact Ha | apply Hk; cbn; left]).
    destruct (IH (store_admission c a) fuel (n + 1) Hn Hl) as (c' & Hc' & Hm & Ht); [| lia |].
    + intros k' Hk'. cbn [store_admission admissions]. destruct (eo_key k a Ha).
      rewrite lookup_insert_ne by (intros <-; done). apply Hk. cbn. by right.
    + exists c'. rewrite Hc', Hm, Ht. rewrite len_cons. split; [f_equal; lia|]. split; [|done].
      cbn [foldl fst snd store_admission admissions]. by rewrite (eo_key k a Ha).
Qed.
End cache_invariant.

(** ** The rate limit *)
Section rate_limit.
Context (env : Env).

(** Messages in order of arrival: the source and the time. *)
Fixpoint serve (m : gmap IpAddr AdmissionRate) (msgs : list (IpAddr * Z)) : list bool * gmap IpAddr AdmissionRate :=
  match msgs with
  | [] => ([], m)
  | (src, now) :: msgs =>
      let '(ok, m) := admission_rate_allowed env m src now in
      let '(oks, m) := serve m msgs in
      (ok :: oks, m)
  end.

(** The messages of a source in the window that starts at [t]. *)
Definition in_rate_window (src : IpAddr) (t : Z) (msg : IpAddr * Z) : Prop :=
  msg.1 = src /\ t <= msg.2 < t + rate_window env.
#[export] Instance in_rate_window_dec src t msg : Decision (in_rate_window src t msg).
Proof. unfold in_rate_window. apply _. Defined.

(** A source that sends at most the maximum in any window. *)
Definition polite (src : IpAddr) (msgs : list (IpAddr * Z)) : Prop :=
  forall t, len (filter (in_rate_window src t) msgs) <= admission_rate_max env.

Fixpoint in_order (msgs : list (IpAddr * Z)) : Prop :=
  match msgs with
  | [] => True
  | m :: rest => Forall (fun m' => m.2 <= m'.2) rest /\ in_order rest
  end.

Lemma rate_window_pos : 0 < rate_window env.
Proof. unfold rate_window, admission_rate_window_secs, clamp, NANOS. lia. Qed.

Lemma rate_max_bounds : 4 <= admission_rate_max env <= 1000000.
Proof. unfold admission_rate_max, clamp. lia. Qed.

(** The entry of a polite source that has sent [past]: no cooldown, and its
    count is that of its messages since the start of the window. *)
Record entry_fits (src : IpAddr) (past : list (IpAddr * Z)) (e : AdmissionRate) : Prop := {
  ef_cool : cooldown_until e = None;
  ef_count : 0 <= ar_count e <= len (filter (in_rate_window src (window_start e)) past);
  ef_past : Forall (fun msg => msg.1 = src -> window_start e <= msg.2 -> msg.2 < window_start e + rate_window env) past
}.

Lemma filter_snoc_in src t past msg : in_rate_window src t msg ->
  len (filter (in_rate_window src t) (past ++ [msg])) = len (filter (in_rate_window src t) past) + 1.
Proof. intros H. rewrite filter_app, filter_cons_True, len_app by done. by rewrite filter_nil. Qed.

(** A message of a polite source passes, and its entry still fits. *)
Lemma polite_step src past now e :
  Forall (fun msg => msg.2 <= now) past -> polite src (past ++ [(src, now)]) ->
  entry_fits src past e -> window_start e <= now ->
  exists e', rate_step env now e = (true, e') /\ entry_fits src (past ++ [(src, now)]) e' /\ window_start e' <= now.
Proof.
  intros Hp Hpol [Hc Hn Hw] Hs. unfold rate_step. rewrite Hc. pose proof rate_max_bounds as Hmax. pose proof rate_window_pos as Hpos.
  set (e2 := if rate_window env <=? now - window_start e then _ else e).
  assert (entry_fits src past e2 /\ window_start e2 <= now < window_start e2 + rate_window env) as [[Hc2 Hn2 Hw2] Hs2].
  { unfold e2. destruct (_ <=? _) eqn:E; [|split; [done|lia]]. split; [|cbn; lia]. split; cbn; [done | split; [lia|apply len_nonneg] |].
    apply Forall_forall. intros msg Hin _ Hle. rewrite Forall_forall in Hp. specialize (Hp msg Hin). cbn in Hp. lia. }
  clearbody e2. pose proof (Hpol (window_start e2)) as Hq.
  assert (in_rate_window src (window_start e2) (src, now)) as Hin by (split; [done|cbn; lia]).
  rewrite filter_snoc_in in Hq by done. rewrite (Z.min_r U32_MAX) by (unfold U32_MAX; lia).
  replace (admission_rate_max env <? ar_count e2 + 1) with false by lia.
  eexists. split; [reflexivity|]. cbn [window_start]. split; [|lia]. split; cbn [cooldown_until ar_count window_start]; [done | |].
  - rewrite filter_snoc_in by done. lia.
  - apply Forall_app. split; [done|]. constructor; [|done]. cbn. lia.
Qed.

Lemma other_step src past other now e : other <> src ->
  entry_fits src past e -> entry_fits src (past ++ [(other, now)]) e.
Proof.
  intros Hne [Hc Hn Hw]. split; [done | |].
  - rewrite filter_app, len_app. pose proof (len_nonneg (filter (in_rate_window src (window_start e)) [(other, now)])). lia.
  - apply Forall_app. split; [done|]. constructor; [by intros|done].
Qed.

(** What the table says of a source: nothing, or an entry that fits. *)
Definition table_fits (src : IpAddr) (past : list (IpAddr * Z)) (m : gmap IpAddr AdmissionRate) (now : Z) : Prop :=
  match m !! src with
  | Some e => entry_fits src past e /\ window_start e <= now
  | None => True
  end.

Lemma retain_fits src past m now now' : now <= now' -> table_fits src past m now -> table_fits src past (retain_rates env now' m) now'.
Proof.
  intros Hle Hf. unfold table_fits, retain_rates in *. destruct (8192 <? _).
  - rewrite map_lookup_filter. destruct (m !! src) as [e|]; cbn [mbind option_bind]; [|done].
    destruct Hf. unfold guard. case_decide; cbn; [|done]. split; [done|lia].
  - destruct (m !! src); [|done]. destruct Hf. split; [done|lia].
Qed.

Lemma fresh_fits src past now : Forall (fun msg => msg.2 <= now) past -> entry_fits src past (fresh_rate now).
Proof.
  intros Hp. split; cbn; [done | split; [lia|apply len_nonneg] |]. pose proof rate_window_pos.
  eapply Forall_impl; [exact Hp|]. cbn. intros. lia.
Qed.

Lemma polite_prefix src past rest : polite src (past ++ rest) -> forall n, polite src (past ++ take n rest).
Proof.
  intros Hp n t. specialize (Hp t). rewrite <- (take_drop n rest), app_assoc, filter_app, len_app in Hp.
  pose proof (len_nonneg (filter (in_rate_window src t) (drop n rest))). lia.
Qed.

Lemma serve_polite src msgs : forall past m last,
  polite src (past ++ msgs) -> in_order msgs -> Forall (fun msg => msg.2 <= last) past ->
  Forall (fun msg => last <= msg.2) msgs -> table_fits src past m last ->
  Forall (fun '(ok, msg) => msg.1 = src -> ok = true) (zip (serve m msgs).1 msgs).
Proof.
  induction msgs as [|[who now] msgs IH]; intros past m last Hp Ho Hpast Hl Hf; [constructor|].
  destruct Ho as [Hge Ho]. apply Forall_cons in Hl as [Hln Hl]. cbn [snd] in *. cbn [serve].
  assert (Forall (fun msg => msg.2 <= now) past) as Hpast' by (eapply Forall_impl; [exact Hpast|]; cbn; lia).
  apply (retain_fits src past m last now Hln) in Hf. unfold admission_rate_allowed.
  set (m1 := retain_rates env now m) in *.
  destruct (rate_step env now (default (fresh_rate now) (m1 !! who))) as [ok e] eqn:Hs.
  assert ((who = src -> ok = true) /\ table_fits src (past ++ [(who, now)]) (<[who := e]> m1) now) as [Hok Hf'].
  { unfold table_fits in *. destruct (decide (who = src)) as [->|Hne].
    - rewrite lookup_insert_eq. pose proof (polite_prefix src past _ Hp 1) as Hp1. cbn [take] in Hp1.
      assert (entry_fits src past (default (fresh_rate now) (m1 !! src)) /\
              window_start (default (fresh_rate now) (m1 !! src)) <= now) as [He Hw].
      { destruct (m1 !! src); [done|]. cbn. split; [by apply fresh_fits | lia]. }
      destruct (polite_step src past now _ Hpast' Hp1 He Hw) as (e' & Hs' & He' & Hw'). rewrite Hs' in Hs. by simplify_eq.
    - rewrite lookup_insert_ne by done. split; [done|]. destruct (m1 !! src); [|done]. destruct Hf. split; [by apply other_step | done]. }
  specialize (IH (past ++ [(who, now)]) (<[who := e]> m1) now). rewrite <- app_assoc in IH.
  specialize (IH Hp Ho ltac:(apply Forall_app; split; [done|]; constructor; [done|done]) Hge Hf').
  destruct (serve (<[who := e]> m1) msgs) as [oks m2]. cbn [fst zip zip_with] in *. constructor; [exact Hok | exact IH].
Qed.
End rate_limit.

(** ** Theorems *)

(** The wire form of an admission is faithful: an admission is read back as
    it was written, only what is written that way is read, and the reader does
    not panic on any input. *)
Theorem admission_codec a raw :
  (admission_ok a -> deserialize_admission (serialize_admission a) = Ok a) /\
  (wf_bytes raw -> deserialize_admission raw = Ok a -> admission_ok a /\ serialize_admission a = raw) /\
  deserialize_admission raw <> Panic.
Proof. split_and!; [apply read_serialized_admission | apply admission_canonical | apply admission_total]. Qed.

(** C29: Whatever a node received, reloaded, pruned or cleared, every admission
    in its cache is of its network, passed its check and is filed under its own
    height, role and solver; and the set of candidates it makes of them for a
    height and a seed is canonical and has exactly the candidates admitted
    there. *)
Theorem admission_cache_invariant `{C : Crypto} `{V : Vrf} env c :
  rtc (admission_step env) NodeCandidateAdmissionCache_new c ->
  map_Forall (entry_ok env) (admissions c) /\
  forall net h seed, is_canonical (admitted_candidate_set env c net h seed) = true /\
    forall cand, cand ∈ cset_candidates (admitted_candidate_set env c net h seed) <->
      exists a, admissions c !! admission_key a = Some a /\ ca_target_height a = h /\ ca_seed a = seed /\ ca_candidate a = cand.
Proof.
  intros Hr. pose proof (admission_run_ok env c Hr) as Hc. split; [exact Hc|].
  intros net h seed. split; [by apply admitted_canonical|]. intros cand.
  change (cset_candidates (admitted_candidate_set env c net h seed)) with (candidates_for env c h seed).
  rewrite elem_of_candidates_for. split.
  - intros (k & a & Ha & Hh & Hs & Hca). destruct (Hc _ _ Ha) as [<- _ _ _]. by exists a.
  - intros (a & Ha & Hh & Hs & Hca). exists (admission_key a), a. by rewrite Ha.
Qed.

(** A node that starts again has the admissions it had: reading back the
    snapshot of any cache it can have into an empty cache gives the same
    admissions, none refused, however far the tip has moved on since. *)
Theorem admission_snapshot_reload `{C : Crypto} `{V : Vrf} env c :
  rtc (admission_step env) NodeCandidateAdmissionCache_new c ->
  exists c', load_persisted env (length (persist_snapshot c)) NodeCandidateAdmissionCache_new (persist_snapshot c) 0 =
      (Z.of_nat (size (admissions c)), c') /\ admissions c' = admissions c.
Proof.
  intros Hr. pose proof (admission_run_ok env c Hr) as Hc.
  destruct (load_all env (sorted_admissions c) NodeCandidateAdmissionCache_new (length (persist_snapshot c)) 0)
    as (c' & Hl & Hm & _).
  - rewrite sorted_admissions_perm. apply NoDup_fst_map_to_list.
  - apply Forall_forall. intros [k a] Ha%elem_of_sorted_admissions. by apply Hc.
  - intros. apply lookup_empty.
  - done.
  - exists c'. unfold persist_snapshot in *. rewrite Hl, Hm. split; [rewrite Z.add_0_l; unfold len; by rewrite sorted_admissions_perm, length_map_to_list|]. cbn [admissions NodeCandidateAdmissionCache_new]. rewrite (foldl_insert_perm (admissions c)) by apply sorted_admissions_perm. done.
Qed.

(** The flood limit spares the innocent: a source that sends at most the
    maximum in every window is never dropped, whatever other sources send in
    between and however many they are. *)
Theorem polite_source_served env src msgs :
  polite env src msgs -> in_order msgs ->
  Forall (fun '(ok, msg) => msg.1 = src -> ok = true) (zip (serve env ∅ msgs).1 msgs).
Proof.
  intros Hp Ho. destruct msgs as [|[who now] msgs]; [constructor|].
  apply (serve_polite env src _ [] ∅ now); [done | done | constructor | | done].
  destruct Ho as [Hge _]. constructor; [cbn; lia | exact Hge].
Qed.

(** ** A devnet with one miner *)
Definition admission_env : Env := fun k =>
  if String.eqb k "IRIUM_NETWORK" then Some "devnet"%string else
  if String.eqb k "IRIUM_POAWX_CANDIDATE_ADMISSION_ACTIVATION_HEIGHT" then Some "0"%string else None.

(** The assignment draws of this network are not verifiable random ones. *)
Definition no_vrf : Vrf := {|
  Point := unit; VrfProof := unit; VrfVerified := unit;
  Point_from_bytes := fun _ => None; decode_vrf_proof := fun _ => None;
  tai_verify := fun _ _ _ => None; tai_output := fun _ => []
|}.

Definition sample_admission : CandidateAdmissionV1 :=
  let pkh := replicate 20 6 in
  let key := replicate 33 2 in
  let net := network_id_byte admission_env in
  new_with_v2 net 9 (zeros 32)
    (candidate_with 1 pkh key (zeros 32) 0
       (compute_assignment_proof_digest net 9 1 pkh key (zeros 32) (zeros 32)) 1000 (zeros 32)) None.
Definition sample_cache : NodeCandidateAdmissionCache :=
  (ingest_admission (V := no_vrf) admission_env NodeCandidateAdmissionCache_new (serialize_admission sample_admission)).2.

Lemma sample_cache_reached :
  rtc (admission_step (V := no_vrf) admission_env) NodeCandidateAdmissionCache_new sample_cache.
Proof.
  apply rtc_once. apply astep_ingest. apply wf_bytes_check. vm_compute. reflexivity.
Qed.

Lemma admission_cache_invariant_witness :
  size (admissions sample_cache) = 1%nat /\
  map_Forall (entry_ok (V := no_vrf) admission_env) (admissions sample_cache).
Proof.
  split; [vm_compute; reflexivity|].
  exact (proj1 (admission_cache_invariant (V := no_vrf) admission_env sample_cache sample_cache_reached)).
Defined.

Lemma admission_snapshot_reload_witness :
  exists c', load_persisted (V := no_vrf) admission_env (length (persist_snapshot sample_cache))
      NodeCandidateAdmissionCache_new (persist_snapshot sample_cache) 0 =
      (Z.of_nat (size (admissions sample_cache)), c') /\ admissions c' = admissions sample_cache.
Proof. exact (admission_snapshot_reload (V := no_vrf) admission_env sample_cache sample_cache_reached). Defined.

(** Four messages fit the least limit there is; the fifth, of another source,
    does not disturb them. *)
Definition sample_messages : list (IpAddr * Z) :=
  [(V4 [10; 0; 0; 1], 5); (V4 [10; 0; 0; 2], 5); (V4 [10; 0; 0; 1], 6); (V4 [10; 0; 0; 1], 6)].

Lemma polite_source_served_witness :
  Forall (fun '(ok, msg) => msg.1 = V4 [10; 0; 0; 1] -> ok = true) (zip (serve (fun _ => None) ∅ sample_messages).1 sample_messages).
Proof.
  apply (polite_source_served (fun _ => None) (V4 [10; 0; 0; 1]) sample_messages).
  - intros t. pose proof (rate_max_bounds (fun _ => None)) as Hb.
    assert (len (filter (in_rate_window (fun _ => None) (V4 [10; 0; 0; 1]) t) sample_messages) <= 4) as Hl; [|lia].
    unfold len. pose proof (length_filter (in_rate_window (fun _ => None) (V4 [10; 0; 0; 1]) t) sample_messages) as Hf.
    cbn [length sample_messages] in Hf. lia.
  - cbn. repeat split; repeat constructor; cbn; lia.
Defined.
