(* ===== verification/Roles.v ===== *)
(** * Roles: rewards, fees, lanes and role claims
    ([src/src/poawx.rs], lines 66 to 610)

    A block pays four roles: its producer and three contributors.  A pool may
    take a fee out of the producer's part.  Contributors reveal role claims: the
    lane of a claim is drawn from the previous block, and the secret behind it
    was committed to one block earlier, by a root over the sorted leaves.

    Shown here: the four amounts are exactly the reward and the fee is at most
    two per cent of the producer's part; claims and rewards are read back as
    they were written; a claim made for its assigned lane is accepted; the
    precommit root does not depend on the order of the leaves and determines
    them. *)

From stdpp Require Import sorting.
From S2P Require Import Prelude Crypto Wire Ticket.

(** ** Constants *)
Definition MULTI_ROLE_PRIMARY_BPS : Z := 5500.
Definition MULTI_ROLE_COMPUTE_BPS : Z := 2200.
Definition MULTI_ROLE_VERIFY_BPS : Z := 1300.
Definition MULTI_ROLE_SUPPORT_BPS : Z := 1000.
Definition MULTI_ROLE_TOTAL_BPS : Z := 10000.
Definition THIRD_PARTY_FEE_CAP_BPS : Z := 200.
Definition LANE_CPU_FRIENDLY : Z := 0.
Definition LANE_GPU_PARALLEL : Z := 1.
Definition LANE_ASIC_STREAMING : Z := 2.
Definition LANE_UNIVERSAL_FALLBACK : Z := 255.
Definition FAIRNESS_DOMAIN_V1 : bytes := byte_string "IRIUM_POAWX_FAIRNESS_V1".
Definition ROLE_CLAIM_DOMAIN_V1 : bytes := byte_string "IRIUM_POAWX_ROLE_CLAIM_V1".
Definition FAIRNESS_CPU_UPPER : Z := 3400.
Definition FAIRNESS_GPU_UPPER : Z := 6700.
Definition ROLE_PRECOMMIT_DOMAIN_V1 : bytes := byte_string "IRIUM_POAWX_ROLE_PRECOMMIT_V1".
Definition ROLE_PRECOMMIT_COMMIT_DOMAIN_V1 : bytes := byte_string "IRIUM_POAWX_ROLE_PRECOMMIT_COMMIT_V1".

(** ** Rewards *)
Record RoleReward := {
  compute_contributor_pkh : bytes;
  verify_contributor_pkh : bytes;
  support_contributor_pkh : bytes
}.

#[export] Instance RoleReward_eq_dec : EqDecision RoleReward.
Proof. solve_decision. Defined.

Definition ROLE_REWARD_WIRE : Z := 60.

Definition serialize_role_reward (r : RoleReward) : bytes :=
  compute_contributor_pkh r ++ verify_contributor_pkh r ++ support_contributor_pkh r.

Definition deserialize_role_reward (raw : bytes) : res string RoleReward :=
  if negb (len raw =? ROLE_REWARD_WIRE) then Err "role reward bad length"%string else
  '(c, raw) ← rd 20 raw;
  '(v, raw) ← rd 20 raw;
  '(s, raw) ← rd 20 raw;
  Ok {| compute_contributor_pkh := c; verify_contributor_pkh := v; support_contributor_pkh := s |}.

Record role_reward_ok (r : RoleReward) : Prop := {
  rro_compute : arr 20 (compute_contributor_pkh r);
  rro_verify : arr 20 (verify_contributor_pkh r);
  rro_support : arr 20 (support_contributor_pkh r)
}.

#[export] Instance RoleReward_wire : Wire RoleReward :=
  {| to_wire := serialize_role_reward; of_wire := deserialize_role_reward; wire_ok := role_reward_ok |}.

Definition role_reward_digest `{C : Crypto} (r : RoleReward) : bytes := sha256 (serialize_role_reward r).

Definition bps_of (total_reward b : Z) : Z := as_u64 (total_reward * b / 10000).

Definition multi_role_amounts (total_reward : Z) : Z * Z * Z * Z :=
  let compute := bps_of total_reward MULTI_ROLE_COMPUTE_BPS in
  let verify := bps_of total_reward MULTI_ROLE_VERIFY_BPS in
  let support := bps_of total_reward MULTI_ROLE_SUPPORT_BPS in
  let primary_floor := bps_of total_reward MULTI_ROLE_PRIMARY_BPS in
  let remainder := as_u64 (total_reward - primary_floor - compute - verify - support) in
  let primary := wadd64 primary_floor remainder in
  (primary, compute, verify, support).

(** ** Fees *)
Definition validate_fee_terms (fee_bps : Z) (fee_pkh : bytes) (third_party_mode : bool) : res string unit :=
  if fee_bps =? 0 then Ok tt else
  if negb third_party_mode then Err "fee_bps > 0 requires explicit third-party pool mode"%string else
  if THIRD_PARTY_FEE_CAP_BPS <? fee_bps then Err "fee_bps exceeds third-party cap (2.00%)"%string else
  if beqb fee_pkh (zeros 20) then Err "fee_bps > 0 requires a fee_pkh"%string else
  Ok tt.

Definition apply_fee (gross fee_bps : Z) : Z * Z :=
  let fee := as_u64 (gross * fee_bps / 10000) in
  (as_u64 (gross - fee), fee).

(** ** Lanes and role slots *)
Inductive PoawxLane := CpuFriendly | GpuParallel | AsicStreaming | UniversalFallback.

#[export] Instance PoawxLane_eq_dec : EqDecision PoawxLane.
Proof. solve_decision. Defined.

Definition lane_id (l : PoawxLane) : Z :=
  match l with
  | CpuFriendly => LANE_CPU_FRIENDLY
  | GpuParallel => LANE_GPU_PARALLEL
  | AsicStreaming => LANE_ASIC_STREAMING
  | UniversalFallback => LANE_UNIVERSAL_FALLBACK
  end.
Definition lane_from_id (b : Z) : option PoawxLane :=
  if b =? LANE_CPU_FRIENDLY then Some CpuFriendly else
  if b =? LANE_GPU_PARALLEL then Some GpuParallel else
  if b =? LANE_ASIC_STREAMING then Some AsicStreaming else
  if b =? LANE_UNIVERSAL_FALLBACK then Some UniversalFallback else None.
Definition is_fairness_lane (l : PoawxLane) : bool :=
  match l with CpuFriendly | GpuParallel | AsicStreaming => true | UniversalFallback => false end.

Inductive PoawxRoleSlot := ComputeContributor | VerifyContributor | SupportContributor.

Definition role_slot_id (r : PoawxRoleSlot) : Z :=
  match r with
  | ComputeContributor => ROLE_COMPUTE_CONTRIBUTOR
  | VerifyContributor => ROLE_VERIFY_CONTRIBUTOR
  | SupportContributor => ROLE_SUPPORT_CONTRIBUTOR
  end.
Definition role_slot_from_id (b : Z) : option PoawxRoleSlot :=
  if b =? ROLE_COMPUTE_CONTRIBUTOR then Some ComputeContributor else
  if b =? ROLE_VERIFY_CONTRIBUTOR then Some VerifyContributor else
  if b =? ROLE_SUPPORT_CONTRIBUTOR then Some SupportContributor else None.

Section lanes.
Context `{C : Crypto}.

Definition fairness_assignment_digest (network_id height : Z) (prev_hash : bytes) (role_id slot_index : Z) : bytes :=
  sha256 (FAIRNESS_DOMAIN_V1 ++ [network_id] ++ le_bytes 8 height ++ prev_hash ++ [role_id] ++ le_bytes 4 slot_index).

Definition assign_lane (network_id height : Z) (prev_hash : bytes) (role_id slot_index : Z) : PoawxLane :=
  let d := fairness_assignment_digest network_id height prev_hash role_id slot_index in
  let v := as_u32 (le_val (take 8 d) mod 10000) in
  if v <? FAIRNESS_CPU_UPPER then CpuFriendly else if v <? FAIRNESS_GPU_UPPER then GpuParallel else AsicStreaming.

Definition role_claim_digest (network_id height : Z) (prev_hash : bytes) (role_id lane_id : Z)
    (solver_pkh nonce secret : bytes) : bytes :=
  sha256 (ROLE_CLAIM_DOMAIN_V1 ++ [network_id] ++ le_bytes 8 height ++ prev_hash ++ [role_id] ++ [lane_id]
          ++ solver_pkh ++ nonce ++ secret).
End lanes.

(** ** Role claims *)
Record PoawxRoleClaim := {
  cl_role_id : Z;
  cl_lane_id : Z;
  cl_solver_pkh : bytes;
  cl_nonce : bytes;
  cl_secret : bytes;
  cl_claim_digest : bytes;
  cl_commitment_hash : option bytes
}.

#[export] Instance PoawxRoleClaim_eq_dec : EqDecision PoawxRoleClaim.
Proof. solve_decision. Defined.

Definition CLAIM_FIXED_SIZE : Z := 118.

(** A flag byte, and the bytes when it is one. *)
Definition serialize_flagged (o : option bytes) : bytes := match o with Some c => [1] ++ c | None => [0] end.

Definition serialize_claim (c : PoawxRoleClaim) : bytes :=
  [cl_role_id c] ++ [cl_lane_id c] ++ cl_solver_pkh c ++ cl_nonce c ++ cl_secret c ++ cl_claim_digest c
  ++ serialize_flagged (cl_commitment_hash c).

Definition read_commitment (flag : Z) (raw : bytes) : res string (option bytes * bytes) :=
  if flag =? 0 then Ok (None, raw) else
  if flag =? 1 then
    _ ← need 32 "role claim: commitment flag set but bytes truncated" raw;
    '(c, raw) ← rd 32 raw;
    Ok (Some c, raw)
  else Err "role claim: bad commitment flag"%string.

Definition deserialize_claim (raw : bytes) : res string PoawxRoleClaim :=
  if len raw <? CLAIM_FIXED_SIZE + 1 then Err "role claim too short"%string else
  '(role_id, raw) ← rd_u8 raw;
  '(lane_id, raw) ← rd_u8 raw;
  '(solver_pkh, raw) ← rd 20 raw;
  '(nonce, raw) ← rd 32 raw;
  '(secret, raw) ← rd 32 raw;
  '(claim_digest, raw) ← rd 32 raw;
  '(flag, raw) ← rd_u8 raw;
  '(commitment_hash, raw) ← read_commitment flag raw;
  if negb (len raw =? 0) then Err "role claim: trailing bytes"%string else
  Ok {| cl_role_id := role_id; cl_lane_id := lane_id; cl_solver_pkh := solver_pkh; cl_nonce := nonce;
        cl_secret := secret; cl_claim_digest := claim_digest; cl_commitment_hash := commitment_hash |}.

Record claim_ok (c : PoawxRoleClaim) : Prop := {
  clo_role : u8 (cl_role_id c);
  clo_lane : u8 (cl_lane_id c);
  clo_solver : arr 20 (cl_solver_pkh c);
  clo_nonce : arr 32 (cl_nonce c);
  clo_secret : arr 32 (cl_secret c);
  clo_digest : arr 32 (cl_claim_digest c);
  clo_commitment : from_option (arr 32) True (cl_commitment_hash c)
}.

#[export] Instance PoawxRoleClaim_wire : Wire PoawxRoleClaim :=
  {| to_wire := serialize_claim; of_wire := deserialize_claim; wire_ok := claim_ok |}.

(** [Ord] on byte arrays, as a preorder for sorting. *)
Definition bytes_le (a b : bytes) : Prop := bytes_ltb b a = false.
#[export] Instance bytes_le_dec : RelDecision bytes_le.
Proof. unfold bytes_le. intros a b. apply _. Defined.

Section claims.
Context `{C : Crypto}.

Definition validate_role_claim (claim : PoawxRoleClaim) (network_id height : Z) (prev_hash : bytes) (slot_index : Z)
    : res string unit :=
  role ← ok_or (role_slot_from_id (cl_role_id claim)) "role claim: unknown role id"%string;
  lane ← ok_or (lane_from_id (cl_lane_id claim)) "role claim: unknown lane id"%string;
  if negb (is_fairness_lane lane) then Err "role claim: lane is not a production fairness lane"%string else
  if negb (beqb (role_claim_digest network_id height prev_hash (cl_role_id claim) (cl_lane_id claim)
                   (cl_solver_pkh claim) (cl_nonce claim) (cl_secret claim)) (cl_claim_digest claim))
  then Err "role claim: digest does not verify from revealed fields"%string else
  let assigned := assign_lane network_id height prev_hash (role_slot_id role) slot_index in
  if negb (bool_decide (assigned = lane)) then Err "role claim: lane != assigned lane"%string else
  Ok tt.

(** ** Precommits *)
Definition role_precommit_commitment (secret nonce : bytes) : bytes :=
  sha256 (ROLE_PRECOMMIT_COMMIT_DOMAIN_V1 ++ secret ++ nonce).

Definition role_precommit_leaf (network_id target_height role_id : Z) (solver_pkh commitment_hash : bytes) : bytes :=
  sha256 (ROLE_PRECOMMIT_DOMAIN_V1 ++ [network_id] ++ le_bytes 8 target_height ++ [role_id] ++ solver_pkh
          ++ commitment_hash).

Definition role_precommit_root (leaves : list bytes) : bytes := sha256 (concat (merge_sort bytes_le leaves)).

Definition role_precommit_leaf_for_claim (claim : PoawxRoleClaim) (network_id target_height : Z) : res string bytes :=
  commitment ← ok_or (cl_commitment_hash claim) "role precommit: claim missing commitment_hash"%string;
  if negb (beqb (role_precommit_commitment (cl_secret claim) (cl_nonce claim)) commitment)
  then Err "role precommit: commitment_hash != H(secret||nonce) (mutated reveal)"%string else
  Ok (role_precommit_leaf network_id target_height (cl_role_id claim) (cl_solver_pkh claim) commitment).
End claims.

(** ** Wire forms *)
Lemma role_reward_len r : role_reward_ok r -> len (serialize_role_reward r) = 60.
Proof. revert r. fixed_len serialize_role_reward. Qed.

#[export] Instance RoleReward_fixed : FixedWire RoleReward_wire ROLE_REWARD_WIRE.
Proof.
  unfold ROLE_REWARD_WIRE. split; [split|]; cbn [of_wire to_wire wire_ok RoleReward_wire].
  - fixed_read role_reward_len serialize_role_reward deserialize_role_reward.
  - fixed_canonical deserialize_role_reward serialize_role_reward.
  - fixed_total deserialize_role_reward.
  - apply role_reward_len.
Qed.

Lemma serialize_flagged_len o : from_option (arr 32) True o -> 1 <= len (serialize_flagged o) <= 33.
Proof. destruct o as [c|]; cbn -[len app]; [intros [Hc _]|intros _]; len_lia. Qed.

#[export] Instance PoawxRoleClaim_exact : ExactWire PoawxRoleClaim_wire.
Proof.
  split; cbn [of_wire to_wire wire_ok PoawxRoleClaim_wire].
  - intros c [? ? [? _] [? _] [? _] [? _] Hf]. pose proof (serialize_flagged_len _ Hf) as Hl. unfold deserialize_claim, serialize_claim.
    replace (_ <? _) with false by (unfold CLAIM_FIXED_SIZE; len_lia). rewrite <- ?app_assoc. repeat read_field.
    destruct c as [? ? ? ? ? ? [c|]]; cbn [cl_role_id cl_lane_id cl_solver_pkh cl_nonce cl_secret cl_claim_digest
      cl_commitment_hash serialize_flagged] in *.
    + read_field. unfold read_commitment. cbn [Z.eqb Pos.eqb]. destruct Hf as [Hf _]. rewrite need_ok by lia. res_simpl.
      rewrite <- (app_nil_r c). read_field. by rewrite app_nil_r.
    + change [0] with ([0] ++ []). by read_field.
  - intros raw c Hw H. unfold deserialize_claim in H. wire_inv H. injection H as <-.
    apply negb_false_iff, Z.eqb_eq, len_0_nil in Heqb0. subst. wire_split Hw. unfold read_commitment in Hr6.
    destruct (z1 =? 0) eqn:Hz; [|destruct (z1 =? 1) eqn:Hz1; [|done]].
    + apply Z.eqb_eq in Hz as ->. injection Hr6 as <- ->.
      split; [constructor; cbn -[app]; first [wire_leaf | done]|].
      unfold serialize_claim. cbn -[app]. by rewrite ?app_nil_r.
    + apply Z.eqb_eq in Hz1 as ->. wire_inv Hr6. injection Hr6 as <- ->. wire_split Hw.
      split; [constructor; cbn -[app]; wire_leaf|].
      unfold serialize_claim. cbn -[app]. by rewrite ?app_nil_r.
  - intros raw. unfold deserialize_claim. destruct (len raw <? _) eqn:E; [done|]. apply Z.ltb_ge in E.
    unfold CLAIM_FIXED_SIZE in E. do 7 reads_total_step. unfold read_commitment.
    case_match; [res_simpl; reads_total|]. case_match; [|done]. unfold need. case_match; [done|]. res_simpl. reads_total.
Qed.

Lemma claim_len c : claim_ok c -> 119 <= len (serialize_claim c) <= 151.
Proof.
  intros [? ? [? _] [? _] [? _] [? _] Hf%serialize_flagged_len]. unfold serialize_claim. len_lia.
Qed.

(** ** Rewards and fees *)
Lemma bps_of_exact total b : u64 total -> 0 <= b <= 10000 -> bps_of total b = total * b / 10000.
Proof.
  intros Ht Hb. unfold bps_of, as_u64, u64 in *. apply Z.mod_small. split; [apply Z.div_pos; nia|].
  apply Z.div_lt_upper_bound; nia.
Qed.

Lemma multi_role_amounts_exact total : u64 total ->
  let '(primary, compute, verify, support) := multi_role_amounts total in
  primary + compute + verify + support = total /\
  compute = total * 2200 / 10000 /\ verify = total * 1300 / 10000 /\ support = total * 1000 / 10000 /\
  total * 5500 / 10000 <= primary <= total * 5500 / 10000 + 3.
Proof.
  intros Ht. unfold multi_role_amounts. unfold MULTI_ROLE_COMPUTE_BPS, MULTI_ROLE_VERIFY_BPS, MULTI_ROLE_SUPPORT_BPS,
    MULTI_ROLE_PRIMARY_BPS. rewrite !bps_of_exact by (done || lia). unfold u64, as_u64, wadd64 in *.
  pose proof (Z.div_mod (total * 2200) 10000 ltac:(lia)). pose proof (Z.mod_pos_bound (total * 2200) 10000 ltac:(lia)).
  pose proof (Z.div_mod (total * 1300) 10000 ltac:(lia)). pose proof (Z.mod_pos_bound (total * 1300) 10000 ltac:(lia)).
  pose proof (Z.div_mod (total * 1000) 10000 ltac:(lia)). pose proof (Z.mod_pos_bound (total * 1000) 10000 ltac:(lia)).
  pose proof (Z.div_mod (total * 5500) 10000 ltac:(lia)). pose proof (Z.mod_pos_bound (total * 5500) 10000 ltac:(lia)).
  rewrite !Z.mod_small by (rewrite ?Z.mod_small; lia). lia.
Qed.

Lemma apply_fee_exact gross fee_bps : u64 gross -> 0 <= fee_bps <= 10000 ->
  let '(net, fee) := apply_fee gross fee_bps in
  net + fee = gross /\ 0 <= net /\ fee = gross * fee_bps / 10000.
Proof.
  intros Hg Hf. unfold apply_fee, as_u64, u64 in *.
  assert (0 <= gross * fee_bps / 10000 <= gross).
  { split; [apply Z.div_pos; nia|]. apply Z.div_le_upper_bound; nia. }
  rewrite !Z.mod_small by (rewrite ?Z.mod_small; lia). lia.
Qed.

Lemma validate_fee_terms_cap fee_bps fee_pkh mode : 0 <= fee_bps -> validate_fee_terms fee_bps fee_pkh mode = Ok tt ->
  fee_bps <= 200.
Proof.
  unfold validate_fee_terms, THIRD_PARTY_FEE_CAP_BPS. intros H0 H. repeat case_match; try done; lia.
Qed.

(** ** Sorted leaves *)
#[export] Instance bytes_le_total : Total bytes_le.
Proof.
  intros a b. unfold bytes_le. destruct (bytes_ltb b a) eqn:E; [right | by left]. by apply bytes_ltb_asym.
Qed.

#[export] Instance bytes_le_trans : Transitive bytes_le.
Proof.
  intros a b c Hab Hbc. unfold bytes_le in *. destruct (bytes_ltb c a) eqn:E; [|done]. exfalso.
  destruct (bytes_ltb b c) eqn:Ebc.
  - by rewrite (bytes_ltb_trans _ _ _ Ebc E) in Hab.
  - assert (c = b) by (by apply bytes_ltb_total). congruence.
Qed.

#[export] Instance bytes_le_antisym : AntiSymm (=) bytes_le.
Proof. intros a b Hab Hba. by apply bytes_ltb_total. Qed.

Lemma sort_unique (l1 l2 : list bytes) : l1 ≡ₚ l2 -> merge_sort bytes_le l1 = merge_sort bytes_le l2.
Proof.
  intros Hp. apply (StronglySorted_unique bytes_le); [apply StronglySorted_merge_sort; apply _..|].
  by rewrite !merge_sort_Permutation.
Qed.

Lemma concat_inj (n : nat) (l1 l2 : list bytes) : (0 < n)%nat -> Forall (fun x => length x = n) l1 ->
  Forall (fun x => length x = n) l2 -> concat l1 = concat l2 -> l1 = l2.
Proof.
  intros Hn H1. revert l2. induction H1 as [|x l1 Hx H1 IH]; intros l2 H2 He.
  - destruct H2 as [|y l2 Hy _]; [done|]. apply (f_equal length) in He. cbn in He. rewrite length_app in He. lia.
  - destruct H2 as [|y l2 Hy H2]; [apply (f_equal length) in He; cbn in He; rewrite length_app in He; lia|].
    cbn in He. apply app_inj_1 in He as [-> He]; [|congruence]. f_equal. by apply IH.
Qed.

(** ** Theorems *)

(** The reward of a block is split exactly: for every reward a block can
    have and every fee the rules admit, the four amounts and the fee add up to
    the reward with no overflow on the way; each contributor gets its share
    rounded down; the producer keeps the rounding, at most three units, and
    pays at most two per cent of its part to the pool. *)
Theorem role_split_exact total fee_bps fee_pkh mode :
  u64 total -> u16 fee_bps -> validate_fee_terms fee_bps fee_pkh mode = Ok tt ->
  let '(primary, compute, verify, support) := multi_role_amounts total in
  let '(net, fee) := apply_fee primary fee_bps in
  net + fee + compute + verify + support = total /\
  compute = total * 2200 / 10000 /\ verify = total * 1300 / 10000 /\ support = total * 1000 / 10000 /\
  total * 5500 / 10000 <= net + fee <= total * 5500 / 10000 + 3 /\ 0 <= net /\ 0 <= fee /\ 50 * fee <= net + fee.
Proof.
  intros Ht Hb Hv. pose proof (multi_role_amounts_exact total Ht) as Hm.
  destruct (multi_role_amounts total) as [[[p c] v] s]. destruct Hm as (Hsum & -> & -> & -> & Hp).
  pose proof (validate_fee_terms_cap _ _ _ (proj1 Hb) Hv) as Hcap. unfold u64, u16 in *.
  assert (forall k, 0 <= k -> 0 <= total * k / 10000) as Hk by (intros; apply Z.div_pos; nia).
  pose proof (Hk 2200 ltac:(lia)). pose proof (Hk 1300 ltac:(lia)). pose proof (Hk 1000 ltac:(lia)). pose proof (Hk 5500 ltac:(lia)).
  assert (u64 p) as Hup by (unfold u64; lia). pose proof (apply_fee_exact p fee_bps Hup ltac:(lia)) as Hf.
  destruct (apply_fee p fee_bps) as [net fee]. destruct Hf as (Hn & Hpos & ->).
  assert (0 <= p * fee_bps / 10000) by (apply Z.div_pos; nia).
  assert (50 * (p * fee_bps / 10000) <= p).
  { pose proof (Z.mul_div_le (p * fee_bps) 10000 ltac:(lia)). nia. }
  lia.
Qed.

Lemma role_split_exact_witness :
  validate_fee_terms 150 (replicate 20 1) true = Ok tt /\
  let '(primary, compute, verify, support) := multi_role_amounts 5000000001 in
  let '(net, fee) := apply_fee primary 150 in
  net + fee + compute + verify + support = 5000000001 /\
  compute = 5000000001 * 2200 / 10000 /\ verify = 5000000001 * 1300 / 10000 /\ support = 5000000001 * 1000 / 10000 /\
  5000000001 * 5500 / 10000 <= net + fee <= 5000000001 * 5500 / 10000 + 3 /\ 0 <= net /\ 0 <= fee /\ 50 * fee <= net + fee.
Proof.
  split; [reflexivity|]. apply (role_split_exact 5000000001 150 (replicate 20 1) true); [split; lia | split; lia | reflexivity].
Defined.

(** The precommit root is a set commitment: it does not depend on the order
    in which the leaves are given, and two lists of leaves with the same root are
    the same leaves, or exhibit a collision of SHA-256. *)
Theorem precommit_root_commits `{C : Crypto} (l1 l2 : list bytes) :
  (l1 ≡ₚ l2 -> role_precommit_root l1 = role_precommit_root l2) /\
  (Forall (arr 32) l1 -> Forall (arr 32) l2 -> role_precommit_root l1 = role_precommit_root l2 ->
   l1 ≡ₚ l2 \/ exists x y, x <> y /\ sha256 x = sha256 y).
Proof.
  split; unfold role_precommit_root; [by intros ->%sort_unique|]. intros H1 H2 He.
  assert (forall l, Forall (arr 32) l -> Forall (fun x => length x = 32%nat) (merge_sort bytes_le l)) as Hl.
  { intros l Hl. rewrite merge_sort_Permutation. eapply Forall_impl; [exact Hl|]. intros x [Hx _]. unfold len in Hx. lia. }
  destruct (decide (concat (merge_sort bytes_le l1) = concat (merge_sort bytes_le l2))) as [Hc|Hc]; [left | right; eauto].
  apply (concat_inj 32) in Hc; [|lia | by apply Hl..].
  rewrite <- (merge_sort_Permutation bytes_le l1), <- (merge_sort_Permutation bytes_le l2). by rewrite Hc.
Qed.

(** A claim made out for the lane of its slot is accepted. *)
Lemma honest_claim_accepted `{C : Crypto} net h prev role slot solver nonce secret commitment :
  let lane := lane_id (assign_lane net h prev (role_slot_id role) slot) in
  validate_role_claim {| cl_role_id := role_slot_id role; cl_lane_id := lane; cl_solver_pkh := solver; cl_nonce := nonce;
    cl_secret := secret; cl_claim_digest := role_claim_digest net h prev (role_slot_id role) lane solver nonce secret;
    cl_commitment_hash := commitment |} net h prev slot = Ok tt.
Proof.
  intros lane. unfold validate_role_claim. cbn [cl_role_id cl_lane_id cl_solver_pkh cl_nonce cl_secret cl_claim_digest].
  assert (role_slot_from_id (role_slot_id role) = Some role) as -> by (by destruct role). res_simpl.
  set (l := assign_lane net h prev (role_slot_id role) slot) in *.
  assert (is_fairness_lane l = true) as Hl by (unfold l, assign_lane; by repeat case_match).
  assert (lane_from_id lane = Some l) as -> by (unfold lane; by destruct l). res_simpl. rewrite Hl. cbn [negb].
  unfold beqb. rewrite !bool_decide_true by done. done.
Qed.
