(* ===== verification/Registration.v ===== *)
(** * Registration: proposers announce their keys
    ([src/src/poawx.rs], lines 610 to 860; the pool of
    [src/src/poawx_proposer.rs], lines 433 to 553)

    A miner registers a proposer key with a record that pays for itself by work
    bound to a recent block, and signs it.  Nodes gossip such records through a
    pool; a block announces some of them.

    Shown here: the wire forms are faithful; what [build_signed] makes is
    accepted; the pool holds each key once, under its own key and signed; what
    the pool does not check. *)

From stdpp Require Import sorting.
From S2P Require Import Prelude Crypto Wire Activation Proposer Ticket Candidate Finality.
From S2P Require Import Roles.

(** ** The assignment of a block's proposer *)
Definition PROPOSER_SECTION_MAGIC : bytes := byte_string "PRP1".
Definition PROPOSER_ASSIGNMENT_V1_WIRE : Z := 277.

Record ProposerAssignmentV1 := { pa_round : Z; pa_proof : AssignmentProofV2 }.

Definition serialize_proposer_assignment (a : ProposerAssignmentV1) : bytes :=
  le_bytes 4 (pa_round a) ++ serialize_assignment_v2 (pa_proof a).

Definition deserialize_proposer_assignment (raw : bytes) : res string ProposerAssignmentV1 :=
  if negb (len raw =? PROPOSER_ASSIGNMENT_V1_WIRE) then Err "proposer assignment: bad wire len"%string else
  '(round, raw) ← rd_le 4 raw;
  '(p, raw) ← rd 273 raw;
  proof ← deserialize_assignment_v2 p;
  Ok {| pa_round := round; pa_proof := proof |}.

Record proposer_assignment_ok (a : ProposerAssignmentV1) : Prop := {
  pao_round : u32 (pa_round a);
  pao_proof : assignment_v2_ok (pa_proof a)
}.

#[export] Instance ProposerAssignmentV1_wire : Wire ProposerAssignmentV1 :=
  {| to_wire := serialize_proposer_assignment; of_wire := deserialize_proposer_assignment;
     wire_ok := proposer_assignment_ok |}.

(** ** Registrations *)
Definition PROPOSER_REGISTRATION_V1_WIRE : Z := 169.
Definition PROPOSER_REG_SIGN_DOMAIN : bytes := byte_string "IRIUM_POAWX_PROPOSER_REG_V1".
Definition PROPOSER_REG_SECTION_MAGIC : bytes := byte_string "PRG1".
Definition PROPOSER_REG_POOL_MAX : Z := 1024.

Record ProposerRegistrationV1 := {
  pr_vrf_pubkey : bytes;
  pr_anchor_height : Z;
  pr_sybil_nonce : bytes;
  pr_sybil_digest : bytes;
  pr_signature : bytes
}.

#[export] Instance ProposerRegistrationV1_eq_dec : EqDecision ProposerRegistrationV1.
Proof. solve_decision. Defined.

Definition pr_pkh `{C : Crypto} (r : ProposerRegistrationV1) : bytes := hash160 (pr_vrf_pubkey r).

Definition serialize_registration (r : ProposerRegistrationV1) : bytes :=
  pr_vrf_pubkey r ++ le_bytes 8 (pr_anchor_height r) ++ pr_sybil_nonce r ++ pr_sybil_digest r ++ pr_signature r.

Definition deserialize_registration (raw : bytes) : res string ProposerRegistrationV1 :=
  if negb (len raw =? PROPOSER_REGISTRATION_V1_WIRE) then Err "proposer registration: bad wire len"%string else
  '(vrf_pubkey, raw) ← rd 33 raw;
  '(anchor_height, raw) ← rd_le 8 raw;
  '(sybil_nonce, raw) ← rd 32 raw;
  '(sybil_digest, raw) ← rd 32 raw;
  '(signature, raw) ← rd 64 raw;
  Ok {| pr_vrf_pubkey := vrf_pubkey; pr_anchor_height := anchor_height; pr_sybil_nonce := sybil_nonce;
        pr_sybil_digest := sybil_digest; pr_signature := signature |}.

Record registration_ok (r : ProposerRegistrationV1) : Prop := {
  pro_key : arr 33 (pr_vrf_pubkey r);
  pro_anchor : u64 (pr_anchor_height r);
  pro_nonce : arr 32 (pr_sybil_nonce r);
  pro_digest : arr 32 (pr_sybil_digest r);
  pro_signature : arr 64 (pr_signature r)
}.

#[export] Instance ProposerRegistrationV1_wire : Wire ProposerRegistrationV1 :=
  {| to_wire := serialize_registration; of_wire := deserialize_registration; wire_ok := registration_ok |}.

(** The announces of a block and the activations it draws from the queue. *)
Record ProposerRegistrationSection := {
  announces : list ProposerRegistrationV1;
  activations : list ProposerRegistrationV1
}.

Definition section_is_empty (s : ProposerRegistrationSection) : bool :=
  bool_decide (announces s = []) && bool_decide (activations s = []).

Section registrations.
Context `{C : Crypto}.

Definition reg_signing_digest (r : ProposerRegistrationV1) (network_id : Z) : bytes :=
  sha256 (PROPOSER_REG_SIGN_DOMAIN ++ [network_id] ++ pr_vrf_pubkey r ++ le_bytes 8 (pr_anchor_height r)
          ++ pr_sybil_nonce r ++ pr_sybil_digest r).

Definition validate_registration (r : ProposerRegistrationV1) (network_id : Z) (anchor_hash : bytes) (required_bits : Z)
    : res string unit :=
  let expect := compute_sybil_digest network_id anchor_hash (pr_pkh r) (pr_anchor_height r) (pr_vrf_pubkey r)
                  (pr_sybil_nonce r) in
  if negb (beqb (pr_sybil_digest r) expect) then Err "registration: sybil_digest mismatch"%string else
  if negb (meets_sybil_target (pr_sybil_digest r) required_bits)
  then Err "registration: insufficient sybil work"%string else
  vk ← ok_or (VerifyingKey_from_sec1_bytes (pr_vrf_pubkey r)) "registration: invalid vrf_pubkey"%string;
  sg ← ok_or (Signature_from_slice (pr_signature r)) "registration: malformed signature"%string;
  if verify_prehash vk (reg_signing_digest r network_id) sg then Ok tt
  else Err "registration: signature verification failed"%string.

Definition signature_ok (r : ProposerRegistrationV1) (network_id : Z) : bool :=
  match VerifyingKey_from_sec1_bytes (pr_vrf_pubkey r), Signature_from_slice (pr_signature r) with
  | Some vk, Some sg => verify_prehash vk (reg_signing_digest r network_id) sg
  | _, _ => false
  end.

Definition set_reg_signature (r : ProposerRegistrationV1) (s : bytes) : ProposerRegistrationV1 :=
  {| pr_vrf_pubkey := pr_vrf_pubkey r; pr_anchor_height := pr_anchor_height r; pr_sybil_nonce := pr_sybil_nonce r;
     pr_sybil_digest := pr_sybil_digest r; pr_signature := s |}.

(** [build_signed]: the loop tries the counters from 0 to 200,000,000. The
    key is what [SigningKey::from_slice] makes of the secret. *)
Definition GRIND_BUDGET : Z := 200000000.

Definition build_signed_in {S : Signer C} (tries : nat) (secret : option SigningKey) (network_id anchor_height : Z)
    (anchor_hash : bytes) (required_bits : Z) : res string ProposerRegistrationV1 :=
  sk ← ok_or secret "registration: invalid secret"%string;
  let vrf_pubkey := public_key sk in
  '(nonce, sybil_digest) ←
    ok_or (grind_from tries 0 network_id anchor_hash (hash160 vrf_pubkey) anchor_height
             vrf_pubkey required_bits) "registration: sybil grind exceeded budget"%string;
  let me := {| pr_vrf_pubkey := vrf_pubkey; pr_anchor_height := anchor_height; pr_sybil_nonce := nonce;
               pr_sybil_digest := sybil_digest; pr_signature := zeros 64 |} in
  Ok (set_reg_signature me (sign_prehash sk (reg_signing_digest me network_id))).

Definition build_signed {S : Signer C} : option SigningKey -> Z -> Z -> bytes -> Z -> res string ProposerRegistrationV1 :=
  build_signed_in (Z.to_nat (GRIND_BUDGET + 1)).
End registrations.

(** ** The pool *)
Abbreviation NodeProposerRegistrationPool := (gmap bytes ProposerRegistrationV1).

Definition proposer_registration_gossip_enabled (env : Env) : bool :=
  negb (network_id_byte env =? 0) || bool_decide (is_Some MAINNET_POAWX_ACTIVATION_HEIGHT).

(** Key order of the [BTreeMap]. *)
Definition reg_key_le (a b : bytes * ProposerRegistrationV1) : Prop := bytes_le a.1 b.1.
#[export] Instance reg_key_le_dec : RelDecision reg_key_le.
Proof. unfold reg_key_le. intros a b. apply _. Defined.

Section pool.
Context `{C : Crypto} (env : Env).

Definition light_check (r : ProposerRegistrationV1) : res string unit :=
  if negb (meets_sybil_target (pr_sybil_digest r) (effective_sybil_bits env))
  then Err "registration: insufficient sybil work"%string else
  if negb (signature_ok r (network_id_byte env)) then Err "registration: bad signature"%string else Ok tt.

Definition ingest_registration (pending : NodeProposerRegistrationPool) (raw : bytes)
    : GossipOutcome * NodeProposerRegistrationPool :=
  if negb (proposer_registration_gossip_enabled env) then (Rejected "registration gossip disabled", pending) else
  if negb (len raw =? PROPOSER_REGISTRATION_V1_WIRE) then (Rejected "registration: bad length", pending) else
  match (r ← deserialize_registration raw; _ ← light_check r; Ok r) with
  | Err e => (Rejected e, pending)
  | Panic => (Rejected "panic", pending)
  | Ok r =>
      match pending !! pr_vrf_pubkey r with
      | Some existing =>
          if pr_anchor_height r <=? pr_anchor_height existing then (Duplicate, pending)
          else (AcceptedNew, <[pr_vrf_pubkey r := r]> pending)
      | None =>
          if PROPOSER_REG_POOL_MAX <=? Z.of_nat (size pending) then (Rejected "registration: pool full", pending)
          else (AcceptedNew, <[pr_vrf_pubkey r := r]> pending)
      end
  end.

Definition submit_registration (pending : NodeProposerRegistrationPool) (r : ProposerRegistrationV1)
    : bytes * NodeProposerRegistrationPool :=
  if negb (meets_sybil_target (pr_sybil_digest r) (effective_sybil_bits env))
     || negb (signature_ok r (network_id_byte env))
  then ([], pending) else
  (serialize_registration r, <[pr_vrf_pubkey r := r]> pending).
End pool.

Definition announce_candidates (pending : NodeProposerRegistrationPool) (max : nat) (exclude : gset bytes)
    : list ProposerRegistrationV1 :=
  take max (filter (fun r => pr_vrf_pubkey r ∉ exclude) (snd <$> merge_sort reg_key_le (map_to_list pending))).

Definition forget_registrations (pending : NodeProposerRegistrationPool) (keys : list bytes)
    : NodeProposerRegistrationPool := fold_left (fun p k => delete k p) keys pending.

Inductive pool_step `{C : Crypto} (env : Env) : NodeProposerRegistrationPool -> NodeProposerRegistrationPool -> Prop :=
| pool_ingest p raw : pool_step env p (ingest_registration env p raw).2
| pool_submit p r : pool_step env p (submit_registration env p r).2
| pool_forget p keys : pool_step env p (forget_registrations p keys).

(** ** Wire forms *)
Lemma registration_len r : registration_ok r -> len (serialize_registration r) = 169.
Proof. revert r. fixed_len serialize_registration. Qed.

#[export] Instance ProposerRegistrationV1_fixed : FixedWire ProposerRegistrationV1_wire PROPOSER_REGISTRATION_V1_WIRE.
Proof.
  unfold PROPOSER_REGISTRATION_V1_WIRE. split; [split|]; cbn [of_wire to_wire wire_ok ProposerRegistrationV1_wire].
  - fixed_read registration_len serialize_registration deserialize_registration.
  - fixed_canonical deserialize_registration serialize_registration.
  - fixed_total deserialize_registration.
  - apply registration_len.
Qed.

Lemma proposer_assignment_len a : proposer_assignment_ok a -> len (serialize_proposer_assignment a) = 277.
Proof.
  intros [? Hp]. apply (fixed_len (W := AssignmentProofV2_wire) (n := 273)) in Hp. cbn [to_wire AssignmentProofV2_wire] in Hp.
  unfold serialize_proposer_assignment. len_lia.
Qed.

#[export] Instance ProposerAssignmentV1_fixed : FixedWire ProposerAssignmentV1_wire PROPOSER_ASSIGNMENT_V1_WIRE.
Proof.
  unfold PROPOSER_ASSIGNMENT_V1_WIRE. split; [split|]; cbn [of_wire to_wire wire_ok ProposerAssignmentV1_wire].
  - intros a Ha. unfold deserialize_proposer_assignment. rewrite (proposer_assignment_len a Ha).
    change (277 =? PROPOSER_ASSIGNMENT_V1_WIRE) with true. cbn [negb]. destruct Ha as [? Hp].
    pose proof (fixed_len (W := AssignmentProofV2_wire) (n := 273) _ Hp) as Hl.
    pose proof (wire_read (W := AssignmentProofV2_wire) _ Hp) as Hr. cbn [to_wire of_wire AssignmentProofV2_wire] in Hl, Hr.
    unfold serialize_proposer_assignment. rewrite <- (app_nil_r (serialize_assignment_v2 _)).
    do 2 read_field. rewrite Hr. by destruct a.
  - intros raw a Hw H. unfold deserialize_proposer_assignment in H. wire_inv H. injection H as <-.
    apply negb_false_iff, Z.eqb_eq in Heqb. eval_width Heqb. wire_split Hw. autorewrite with lens in Heqb. wire_rest.
    apply (wire_canonical (W := AssignmentProofV2_wire)) in Hr1 as [? <-]; [|done].
    split; [constructor; cbn; first [wire_leaf | assumption]|].
    unfold serialize_proposer_assignment. cbn -[le_bytes le_val app serialize_assignment_v2]. wire_unread. by rewrite app_nil_r.
  - intros raw. unfold deserialize_proposer_assignment. destruct (negb (len raw =? _)) eqn:E; [done|].
    apply negb_false_iff, Z.eqb_eq in E. eval_width E.
    change deserialize_assignment_v2 with (of_wire (A := AssignmentProofV2)). reads_total.
  - apply proposer_assignment_len.
Qed.

(** ** Registrations *)
Section lemmas.
Context `{C : Crypto}.

Lemma validate_signature r net hash bits : validate_registration r net hash bits = Ok tt -> signature_ok r net = true.
Proof.
  unfold validate_registration, signature_ok. do 2 (case_match; [done|]).
  destruct (VerifyingKey_from_sec1_bytes _); [|done]. destruct (Signature_from_slice _); [|done]. cbn. by case_match.
Qed.

Lemma validate_light env r hash :
  validate_registration r (network_id_byte env) hash (effective_sybil_bits env) = Ok tt -> light_check env r = Ok tt.
Proof.
  intros H. pose proof (validate_signature _ _ _ _ H) as Hs. unfold validate_registration in H. unfold light_check.
  rewrite Hs. destruct (negb (beqb _ _)); [done|]. by destruct (negb (meets_sybil_target _ _)).
Qed.

Context {CL : CryptoLaws C} {S : Signer C} {SL : SignerLaws S}.

(** Signing makes any registration under the key pass [signature_ok]. *)
Lemma signed_registration_ok sk r net : pr_vrf_pubkey r = public_key sk ->
  exists vk sg, VerifyingKey_from_sec1_bytes (pr_vrf_pubkey r) = Some vk /\
    Signature_from_slice (sign_prehash sk (reg_signing_digest r net)) = Some sg /\
    verify_prehash vk (reg_signing_digest r net) sg = true.
Proof. intros ->. apply (sign_verifies sk), sha256_arr. Qed.

Lemma build_signed_in_valid tries sk net anchor hash bits r :
  build_signed_in tries (Some sk) net anchor hash bits = Ok r ->
  validate_registration r net hash bits = Ok tt /\ pr_vrf_pubkey r = public_key sk /\ pr_anchor_height r = anchor.
Proof.
  unfold build_signed_in. cbn [ok_or mbind res_bind]. destruct (grind_from _ _ _ _ _ _ _ _) as [[nonce d]|] eqn:Hg; [|done].
  cbn [ok_or mbind res_bind]. intros [= <-]. apply grind_from_spec in Hg as (Hd & Hm & _).
  split; [|done]. unfold validate_registration, pr_pkh, set_reg_signature, beqb.
  cbn [pr_sybil_digest pr_vrf_pubkey pr_anchor_height pr_sybil_nonce pr_signature]. rewrite bool_decide_true by done. cbn [negb].
  rewrite Hm. cbn [negb].
  destruct (signed_registration_ok sk {| pr_vrf_pubkey := public_key sk; pr_anchor_height := anchor; pr_sybil_nonce := nonce;
    pr_sybil_digest := d; pr_signature := zeros 64 |} net) as (vk & sg & Hvk & Hsg & Hv); [done|].
  cbn [pr_vrf_pubkey] in Hvk. rewrite Hvk, Hsg. cbn [ok_or mbind res_bind].
  unfold reg_signing_digest in *. cbn in Hv |- *. by rewrite Hv.
Qed.

Lemma build_signed_in_arr tries sk net anchor hash bits r : u64 anchor ->
  build_signed_in tries (Some sk) net anchor hash bits = Ok r -> registration_ok r.
Proof.
  intros Ha. unfold build_signed_in. cbn [ok_or mbind res_bind].
  destruct (grind_from _ _ _ _ _ _ _ _) as [[nonce d]|] eqn:Hg; [|done]. cbn [ok_or mbind res_bind]. intros [= <-].
  apply grind_from_spec in Hg as (-> & _ & k & _ & ->).
  split; cbn [set_reg_signature pr_vrf_pubkey pr_anchor_height pr_sybil_nonce pr_sybil_digest pr_signature];
    [apply public_key_arr | done | | apply sha256_arr | apply sign_prehash_arr, sha256_arr].
  unfold sybil_nonce. split; [len_lia|]. apply Forall_app. split; [apply wf_le_bytes | by apply Forall_replicate].
Qed.

(** A registration for which no work was done. *)
Definition workless_registration (net : Z) (sk : SigningKey) : ProposerRegistrationV1 :=
  let me := {| pr_vrf_pubkey := public_key sk; pr_anchor_height := 0; pr_sybil_nonce := zeros 32;
               pr_sybil_digest := zeros 32; pr_signature := zeros 64 |} in
  set_reg_signature me (sign_prehash sk (reg_signing_digest me net)).

Lemma workless_wire net sk : registration_ok (workless_registration net sk).
Proof.
  split; cbn [workless_registration set_reg_signature pr_vrf_pubkey pr_anchor_height pr_sybil_nonce pr_sybil_digest
    pr_signature]; [apply public_key_arr | by split | split; [done | by apply Forall_replicate]..|].
  apply sign_prehash_arr, sha256_arr.
Qed.

Lemma effective_sybil_bits_small env : effective_sybil_bits env <= 32.
Proof.
  unfold effective_sybil_bits, sybil_threshold_bits, MAINNET_TICKET_SYBIL_BITS, MIN_TICKET_SYBIL_BITS.
  repeat case_match; lia.
Qed.

Lemma workless_light env sk : 
  light_check env (workless_registration (network_id_byte env) sk) = Ok tt.
Proof.
  pose proof (effective_sybil_bits_small env) as Hb. unfold light_check. unfold meets_sybil_target. cbn [pr_sybil_digest workless_registration set_reg_signature].
  change (leading_zero_bits (zeros 32)) with 256. replace (_ <=? 256) with true by lia. cbn [negb].
  assert (signature_ok (workless_registration (network_id_byte env) sk) (network_id_byte env) = true) as ->; [|done].
  destruct (signed_registration_ok sk (set_reg_signature (workless_registration (network_id_byte env) sk) (zeros 64))
    (network_id_byte env)) as (vk & sg & Hvk & Hsg & Hv); [done|].
  unfold signature_ok. cbn [pr_vrf_pubkey pr_signature workless_registration set_reg_signature] in Hvk, Hsg |- *.
  rewrite Hvk. unfold reg_signing_digest in *. cbn in Hsg, Hv |- *. by rewrite Hsg.
Qed.

Lemma workless_ingested env p sk : proposer_registration_gossip_enabled env = true ->
  p !! public_key sk = None -> (size p < 1024)%nat ->
  let r := workless_registration (network_id_byte env) sk in
  ingest_registration env p (serialize_registration r) = (AcceptedNew, <[public_key sk := r]> p).
Proof.
  intros Hg Hp Hs r. unfold ingest_registration. rewrite Hg. cbn [negb].
  pose proof (workless_wire (network_id_byte env) sk) as Hw. fold r in Hw. rewrite (registration_len r Hw).
  change (169 =? PROPOSER_REGISTRATION_V1_WIRE) with true. cbn [negb].
  pose proof (wire_read (W := ProposerRegistrationV1_wire) r Hw) as Hr. cbn [of_wire to_wire ProposerRegistrationV1_wire] in Hr.
  rewrite Hr. cbn [mbind res_bind]. unfold r. rewrite workless_light. cbn [mbind res_bind].
  change (pr_vrf_pubkey (workless_registration (network_id_byte env) sk)) with (public_key sk). rewrite Hp.
  unfold PROPOSER_REG_POOL_MAX. by replace (1024 <=? _) with false by lia.
Qed.
End lemmas.

(** ** The pool *)
Section pool_lemmas.
Context `{C : Crypto} (env : Env).

Record pool_wf (p : NodeProposerRegistrationPool) : Prop := {
  pw_key : forall k r, p !! k = Some r -> pr_vrf_pubkey r = k;
  pw_light : forall k r, p !! k = Some r -> light_check env r = Ok tt
}.

Lemma pool_wf_insert p r : pool_wf p -> light_check env r = Ok tt -> pool_wf (<[pr_vrf_pubkey r := r]> p).
Proof.
  intros [Hk Hl] Hr. split; intros k r' [[<- <-]|[_ ?]]%lookup_insert_Some; eauto.
Qed.

Lemma pool_wf_delete p k : pool_wf p -> pool_wf (delete k p).
Proof. intros [Hk Hl]. split; intros k' r [_ ?]%lookup_delete_Some; eauto. Qed.

Lemma ingest_spec p raw : let '(o, p') := ingest_registration env p raw in
  p' = p \/ exists r, p' = <[pr_vrf_pubkey r := r]> p /\ light_check env r = Ok tt /\ deserialize_registration raw = Ok r /\
    match p !! pr_vrf_pubkey r with
    | Some old => pr_anchor_height old < pr_anchor_height r
    | None => Z.of_nat (size p) < 1024
    end.
Proof.
  unfold ingest_registration. destruct (negb (proposer_registration_gossip_enabled env)); [by left|].
  destruct (negb (len raw =? _)); [by left|].
  destruct (deserialize_registration raw) as [r| |]; [|by left|by left]. cbn [mbind res_bind].
  destruct (light_check env r) as [[]| |] eqn:Hl; [|by left|by left]. cbn [mbind res_bind].
  destruct (p !! pr_vrf_pubkey r) as [old|] eqn:Ho.
  - destruct (_ <=? _) eqn:E; [by left|]. right. exists r. rewrite Ho. split_and!; [done.. | lia].
  - destruct (PROPOSER_REG_POOL_MAX <=? _) eqn:E; [by left|]. right. exists r. rewrite Ho. unfold PROPOSER_REG_POOL_MAX in E.
    split_and!; [done.. | lia].
Qed.

Lemma light_submit p r : submit_registration env p r = ([], p) \/
  (submit_registration env p r = (serialize_registration r, <[pr_vrf_pubkey r := r]> p) /\ light_check env r = Ok tt).
Proof.
  unfold submit_registration, light_check. destruct (meets_sybil_target _ _); [|by left]. cbn [negb orb].
  destruct (signature_ok _ _); [by right | by left].
Qed.

Lemma pool_step_wf p p' : pool_wf p -> pool_step env p p' -> pool_wf p'.
Proof.
  intros Hp Hs. revert Hp. destruct Hs as [p raw|p r|p keys]; intros Hp.
  - pose proof (ingest_spec p raw) as H. destruct (ingest_registration env p raw) as [o p'].
    destruct H as [->|(r & -> & Hl & _)]; [done | by apply pool_wf_insert].
  - destruct (light_submit p r) as [->|[-> Hl]]; [done | by apply pool_wf_insert].
  - unfold forget_registrations. revert p Hp. induction keys as [|k keys IH]; intros p Hp; [done|]. cbn.
    by apply IH, pool_wf_delete.
Qed.

Lemma pool_run_wf p : rtc (pool_step env) ∅ p -> pool_wf p.
Proof.
  revert p. apply rtc_ind_r; [by split | intros y z _ Hs Hy; by apply (pool_step_wf y)].
Qed.
End pool_lemmas.

(** Records with no work, one per key, all accepted. *)
Definition flood `{C : Crypto} {S : Signer C} (env : Env) (sks : list SigningKey) (p : NodeProposerRegistrationPool)
    : NodeProposerRegistrationPool :=
  fold_left (fun p sk => (ingest_registration env p
    (serialize_registration (workless_registration (network_id_byte env) sk))).2) sks p.

Lemma flood_spec `{C : Crypto} {CL : CryptoLaws C} {S : Signer C} {SL : SignerLaws S} env (sks : list SigningKey) :
  forall p,
  proposer_registration_gossip_enabled env = true ->
  NoDup (public_key <$> sks) -> (forall sk, sk ∈ sks -> p !! public_key sk = None) -> (size p + length sks <= 1024)%nat ->
  (size (flood env sks p) = size p + length sks)%nat /\
  forall sk, sk ∈ sks -> flood env sks p !! public_key sk = Some (workless_registration (network_id_byte env) sk).
Proof.
  assert (forall k sks p r, proposer_registration_gossip_enabled env = true ->
    k ∉ (public_key <$> sks) -> p !! k = Some r -> flood env sks p !! k = Some r) as Hkeep.
  { intros k sks'. induction sks' as [|sk sks' IH]; intros p r Hg Hk Hp; [done|]. cbn. apply IH; [done | set_solver|].
    pose proof (ingest_spec env p (serialize_registration (workless_registration (network_id_byte env) sk))) as H.
    destruct (ingest_registration _ _ _) as [o p']. destruct H as [->|(r' & -> & _ & Hr & _)]; [done|]. cbn.
    pose proof (wire_read (W := ProposerRegistrationV1_wire) _ (workless_wire (network_id_byte env) sk)) as Hr'.
    cbn [of_wire to_wire ProposerRegistrationV1_wire] in Hr'. rewrite Hr' in Hr. injection Hr as <-.
    rewrite lookup_insert_ne; [done|]. cbn. set_solver. }
  induction sks as [|sk sks IH]; intros p Hg Hn Hp Hs; [cbn in *; split; [lia | set_solver]|].
  cbn [fmap list_fmap] in Hn. apply NoDup_cons in Hn as [Hnot Hn]. cbn [length] in *. cbn [flood fold_left].
  rewrite workless_ingested; [| done | apply Hp; set_solver | lia]. cbn [snd].
  assert (size (<[public_key sk := workless_registration (network_id_byte env) sk]> p) = 1 + size p)%nat as Hsz
    by (apply map_size_insert_None, Hp; set_solver).
  destruct (IH (<[public_key sk := workless_registration (network_id_byte env) sk]> p)) as [H1 H2]; [done | done | | lia|].
  { intros sk' Hin. rewrite lookup_insert_ne; [apply Hp; set_solver|]. intros He. apply Hnot. rewrite He. by apply list_elem_of_fmap_2. }
  split; [unfold flood in H1; lia|]. intros sk' [->|Hin]%elem_of_cons; [|by apply H2].
  apply Hkeep; [done | done | by rewrite lookup_insert_eq].
Qed.

Lemma flood_keys `{C : Crypto} {CL : CryptoLaws C} {S : Signer C} {SL : SignerLaws S} env (sks : list SigningKey) k :
  k ∉ (public_key <$> sks) -> flood env sks ∅ !! k = None.
Proof.
  assert (forall p, p !! k = None -> k ∉ (public_key <$> sks) -> flood env sks p !! k = None) as H;
    [|intros; by apply H].
  induction sks as [|sk sks IH]; intros p Hp Hk; [done|]. cbn in Hk |- *. apply IH; [|set_solver].
  pose proof (ingest_spec env p (serialize_registration (workless_registration (network_id_byte env) sk))) as H.
  destruct (ingest_registration _ _ _) as [o p']. destruct H as [->|(r & -> & _ & Hr & _)]; [done|]. cbn.
  pose proof (wire_read (W := ProposerRegistrationV1_wire) _ (workless_wire (network_id_byte env) sk)) as Hr'.
  cbn [of_wire to_wire ProposerRegistrationV1_wire] in Hr'. rewrite Hr' in Hr. injection Hr as <-.
  rewrite lookup_insert_ne; [done|]. cbn. set_solver.
Qed.

(** ** Theorems *)

(** Registering works: what [build_signed] returns for a key, whatever
    the number of tries it is given, passes the full check of a block against the same anchor, is read back as it was written, and
    an empty pool takes it in and offers it as a candidate. *)
Theorem registration_roundtrip `{C : Crypto} {CL : CryptoLaws C} {S : Signer C} {SL : SignerLaws S}
    env tries sk anchor hash r :
  u64 anchor -> proposer_registration_gossip_enabled env = true ->
  build_signed_in tries (Some sk) (network_id_byte env) anchor hash (effective_sybil_bits env) = Ok r ->
  validate_registration r (network_id_byte env) hash (effective_sybil_bits env) = Ok tt /\
  deserialize_registration (serialize_registration r) = Ok r /\
  ingest_registration env ∅ (serialize_registration r) = (AcceptedNew, {[ public_key sk := r ]}) /\
  announce_candidates {[ public_key sk := r ]} 8 ∅ = [r].
Proof.
  intros Ha Hg Hb. pose proof (build_signed_in_arr _ _ _ _ _ _ _ Ha Hb) as Hok.
  apply build_signed_in_valid in Hb as (Hv & Hk & _). split; [done|].
  pose proof (wire_read (W := ProposerRegistrationV1_wire) r Hok) as Hr. cbn [of_wire to_wire ProposerRegistrationV1_wire] in Hr.
  split_and!; [done| |].
  - unfold ingest_registration. rewrite Hg. cbn [negb]. rewrite (registration_len r Hok).
    change (169 =? PROPOSER_REGISTRATION_V1_WIRE) with true. cbn [negb]. rewrite Hr. cbn [mbind res_bind].
    rewrite (validate_light env r hash Hv). cbn [mbind res_bind]. rewrite Hk, lookup_empty, map_size_empty. done.
  - unfold announce_candidates. rewrite map_to_list_singleton.
    change (merge_sort reg_key_le [(public_key sk, r)]) with [(public_key sk, r)]. cbn [fmap list_fmap snd].
    by rewrite filter_cons_True, filter_nil by set_solver.
Qed.

Definition sample_sk : SigningKey := Byte.x07.

Lemma registration_roundtrip_witness :
  exists r, validate_registration r 1 (zeros 32) 0 = Ok tt /\
    announce_candidates {[ public_key sample_sk := r ]} 8 ∅ = [r].
Proof.
  pose (env := fun k : string => if bool_decide (k = "IRIUM_NETWORK"%string) then Some "testnet"%string else None).
  assert (exists r, build_signed_in 1 (Some sample_sk) (network_id_byte env) 90 (zeros 32) (effective_sybil_bits env) = Ok r)
    as [r Hr] by (vm_compute; eexists; reflexivity).
  exists r. destruct (registration_roundtrip env 1 sample_sk 90 (zeros 32) r) as (H1 & _ & _ & H4); [split; lia | reflexivity | exact Hr|].
  split; [exact H1 | exact H4].
Defined.

(** The pool of registrations is well kept but costs nothing to fill.
    Whatever a node is sent and submits, each registration of the pool is filed
    under its own key, claims enough work and is signed by the key; by gossip a
    key's registration only changes to one with a later anchor and the pool does
    not grow past its bound.  But the work is only claimed: a record with the
    digest zero and no work behind it is accepted under any key, so 1024 keys
    fill the pool, and no registration of another key is accepted any more. *)
Theorem registration_pool_flooded `{C : Crypto} {CL : CryptoLaws C} {S : Signer C} {SL : SignerLaws S} env
    (sks : list SigningKey) :
  proposer_registration_gossip_enabled env = true -> NoDup (public_key <$> sks) -> (length sks <= 1024)%nat ->
  (forall p, rtc (pool_step env) ∅ p -> forall k r, p !! k = Some r ->
     pr_vrf_pubkey r = k /\ meets_sybil_target (pr_sybil_digest r) (effective_sybil_bits env) = true /\
     signature_ok r (network_id_byte env) = true) /\
  (forall p raw k old new, p !! k = Some old -> (ingest_registration env p raw).2 !! k = Some new ->
     new = old \/ pr_anchor_height old < pr_anchor_height new) /\
  let full := flood env sks ∅ in
  (size full = length sks)%nat /\
  (length sks = 1024%nat -> forall r, registration_ok r -> pr_vrf_pubkey r ∉ (public_key <$> sks) ->
     exists e, ingest_registration env full (serialize_registration r) = (Rejected e, full)).
Proof.
  intros Hg Hn Hs. split_and!.
  - intros p [Hk Hl]%pool_run_wf k r Hp. split; [by apply Hk|]. specialize (Hl k r Hp). unfold light_check in Hl.
    destruct (meets_sybil_target _ _); [|done]. by destruct (signature_ok _ _).
  - intros p raw k old new Hold Hnew. pose proof (ingest_spec env p raw) as H.
    destruct (ingest_registration env p raw) as [o p']. cbn in Hnew.
    destruct H as [->|(r & -> & _ & _ & Hm)]; [left; congruence|].
    apply lookup_insert_Some in Hnew as [[<- <-]|[_ ?]]; [rewrite Hold in Hm; by right | left; congruence].
  - cbv zeta. destruct (flood_spec env sks ∅ Hg Hn) as [Hsz _]; [done | rewrite map_size_empty; lia|].
    rewrite map_size_empty in Hsz. split; [exact Hsz|]. intros Hl r Hr Hk.
    assert (flood env sks ∅ !! pr_vrf_pubkey r = None) as Hnone by (by apply flood_keys).
    unfold ingest_registration. rewrite Hg. cbn [negb]. rewrite (registration_len r Hr).
    change (169 =? PROPOSER_REGISTRATION_V1_WIRE) with true. cbn [negb].
    pose proof (wire_read (W := ProposerRegistrationV1_wire) r Hr) as Hd. cbn [of_wire to_wire ProposerRegistrationV1_wire] in Hd.
    rewrite Hd. cbn [mbind res_bind]. destruct (light_check env r) as [[]|e|]; cbn [mbind res_bind]; [|by exists e|by eexists].
    rewrite Hnone. unfold PROPOSER_REG_POOL_MAX. replace (1024 <=? _) with true by lia. by eexists.
Qed.

Lemma registration_pool_flooded_witness :
  (size (flood (fun _ => None) [sample_sk] ∅) = 1)%nat.
Proof.
  assert (NoDup (public_key <$> [sample_sk])) as Hn by (apply NoDup_singleton).
  exact (proj1 (proj2 (proj2 (registration_pool_flooded (fun _ => None) [sample_sk] eq_refl Hn ltac:(cbn; lia))))).
Defined.
