(* ===== verification/Receipt.v ===== *)
(** * Receipt: what a block proves about its work
    ([src/src/poawx.rs], lines 860 to 1766)

    A receipt names the worker of a block, optionally with a delegation to a
    pool and an extension.  The extension carries the rewards and claims of the
    roles, and up to ten sections behind a magic of four bytes, in any order.
    The receipts are committed to in the coinbase by a root.

    Shown here: receipts, delegations and extensions are read back as they were
    written; the decoder of the extension ends and never panics; the root does
    not depend on the order of the receipts. *)

From stdpp Require Import sorting.
From S2P Require Import Prelude Crypto Wire Proposer Ticket Dominance Candidate Puzzle Finality.
From S2P Require Import Admission Roles Registration.

Definition PHASE20_EXT_VERSION : Z := 1.
Definition RECEIPT_MODE_DIRECT : Z := 0.
Definition RECEIPT_MODE_DELEGATED : Z := 1.
Definition DOMAIN_DELEG : bytes := byte_string "irium.poawx.delegation.v1".

(** ** The sections of the extension *)
Inductive SectionKind :=
  KTickets | KDominance | KCandidates | KPuzzles | KFinality | KCommitted | KVrf | KFraud | KProposer | KRegistrations.

#[export] Instance SectionKind_eq_dec : EqDecision SectionKind.
Proof. solve_decision. Defined.

(** The body of a section.  The arrays of three proofs and four weights are
    lists. *)
Inductive SectionBody :=
| STickets (proofs : list TicketProof)
| SDominance (weights : list Z)
| SCandidates (cs : CandidateSet)
| SPuzzles (sols : list PuzzleSolutionV1)
| SFinality (fp : FinalityProofV1)
| SCommitted (ca : AdmissionCommitmentV1)
| SVrf (proofs : list AssignmentProofV2)
| SFraud (proofs : list FraudProofV1)
| SProposer (pa : ProposerAssignmentV1)
| SRegistrations (reg : ProposerRegistrationSection).

Definition body_kind (b : SectionBody) : SectionKind :=
  match b with
  | STickets _ => KTickets | SDominance _ => KDominance | SCandidates _ => KCandidates | SPuzzles _ => KPuzzles
  | SFinality _ => KFinality | SCommitted _ => KCommitted | SVrf _ => KVrf | SFraud _ => KFraud
  | SProposer _ => KProposer | SRegistrations _ => KRegistrations
  end.

Definition section_magic (k : SectionKind) : bytes :=
  match k with
  | KTickets => TICKET_SECTION_MAGIC
  | KDominance => DOMINANCE_SECTION_MAGIC
  | KCandidates => CANDIDATE_SECTION_MAGIC
  | KPuzzles => PUZZLE_SECTION_MAGIC
  | KFinality => FINALITY_SECTION_MAGIC
  | KCommitted => COMMITTED_ADMISSION_SECTION_MAGIC
  | KVrf => ASSIGNMENT_V2_SECTION_MAGIC
  | KFraud => FRAUD_PROOF_SECTION_MAGIC
  | KProposer => PROPOSER_SECTION_MAGIC
  | KRegistrations => PROPOSER_REG_SECTION_MAGIC
  end.

(** In the order of the tests of the decoder. *)
Definition all_kinds : list SectionKind :=
  [KTickets; KDominance; KCandidates; KPuzzles; KFinality; KCommitted; KVrf; KFraud; KProposer; KRegistrations].

Definition kind_of_magic (m : bytes) : option SectionKind :=
  head (filter (fun k => m = section_magic k) all_kinds).

Definition duplicate_error (k : SectionKind) : string :=
  match k with
  | KTickets => "phase20 ext: duplicate ticket section"
  | KDominance => "phase20 ext: duplicate dominance section"
  | KCandidates => "phase20 ext: duplicate candidate section"
  | KPuzzles => "phase20 ext: duplicate puzzle section"
  | KFinality => "phase20 ext: duplicate finality section"
  | KCommitted => "phase20 ext: duplicate committed-admission section"
  | KVrf => "phase20 ext: duplicate true-vrf section"
  | KFraud => "phase20 ext: duplicate fraud-proof section"
  | KProposer => "phase20 ext: duplicate proposer section"
  | KRegistrations => "phase20 ext: duplicate proposer registration section"
  end.

(** A length, and a record of that many bytes. *)
Definition write_sized (body : bytes) : bytes := le_bytes 4 (as_u32 (len body)) ++ body.
(** A count, and fixed records. *)
Definition write_counted {A} `{Wire A} (xs : list A) : bytes := le_bytes 2 (as_u16 (len xs)) ++ write_all xs.

Definition write_body (b : SectionBody) : bytes :=
  match b with
  | STickets ps => write_all ps
  | SDominance ws => concat (le_bytes 8 <$> ws)
  | SCandidates cs => write_sized (serialize_candidate_set cs)
  | SPuzzles ss => write_all ss
  | SFinality fp => write_sized (serialize_finality_proof fp)
  | SCommitted ca => serialize_commitment ca
  | SVrf ps => write_all ps
  | SFraud fs => write_counted fs
  | SProposer pa => serialize_proposer_assignment pa
  | SRegistrations r => write_counted (announces r) ++ write_counted (activations r)
  end.

(** What [need] says. *)
Definition truncated (what : string) : string := "phase20 ext: truncated reading " +:+ what.

Definition read_sized {A} `{Wire A} (what1 what2 : string) (raw : bytes) : res string (A * bytes) :=
  _ ← need 4 (truncated what1) raw;
  '(l, raw) ← rd_le 4 raw;
  _ ← need l (truncated what2) raw;
  '(s, raw) ← rd l raw;
  a ← of_wire s;
  Ok (a, raw).

Definition read_one {A} `{Wire A} (n : Z) (what : string) (raw : bytes) : res string (A * bytes) :=
  _ ← need n (truncated what) raw;
  '(s, raw) ← rd n raw;
  a ← of_wire s;
  Ok (a, raw).

(** A count of two bytes up to [cap], and records of width [n]. *)
Definition read_counted {A} `{Wire A} (n cap : Z) (what1 e what2 : string) (raw : bytes) : res string (list A * bytes) :=
  _ ← need 2 (truncated what1) raw;
  '(count, raw) ← rd_le 2 raw;
  if cap <? count then Err e else read_fixed n (truncated what2) (Z.to_nat count) raw.

Fixpoint read_weights (n : nat) (raw : bytes) : res string (list Z * bytes) :=
  match n with
  | O => Ok ([], raw)
  | S n => '(w, raw) ← rd_le 8 raw; '(ws, raw) ← read_weights n raw; Ok (w :: ws, raw)
  end.

Definition read_fraud_proofs (raw : bytes) : res string (list FraudProofV1 * bytes) :=
  _ ← need 2 (truncated "fraud-proof count") raw;
  '(count, raw) ← rd_le 2 raw;
  if (count =? 0) || (FRAUD_PROOF_MAX_PER_BLOCK <? count)
  then Err "phase20 ext: fraud-proof count out of range"%string else
  read_fixed FRAUD_PROOF_V1_WIRE (truncated "fraud proof") (Z.to_nat count) raw.

Definition read_registrations (raw : bytes) : res string (ProposerRegistrationSection * bytes) :=
  '(an, raw) ← read_counted PROPOSER_REGISTRATION_V1_WIRE PROPOSER_ANNOUNCE_CAP "registration announce count"
                 "phase20 ext: registration announce count over cap" "registration announce" raw;
  '(ac, raw) ← read_counted PROPOSER_REGISTRATION_V1_WIRE PROPOSER_REG_CAP "registration activation count"
                 "phase20 ext: registration activation count over cap" "registration activation" raw;
  Ok ({| announces := an; activations := ac |}, raw).

Definition read_body (k : SectionKind) (raw : bytes) : res string (SectionBody * bytes) :=
  match k with
  | KTickets => '(ps, raw) ← read_fixed TICKET_PROOF_WIRE (truncated "ticket proof") 3 raw; Ok (STickets ps, raw)
  | KDominance =>
      _ ← need DOMINANCE_WEIGHTS_WIRE (truncated "dominance weights") raw;
      '(ws, raw) ← read_weights 4 raw; Ok (SDominance ws, raw)
  | KCandidates =>
      '(cs, raw) ← read_sized "candidate section length" "candidate section body" raw; Ok (SCandidates cs, raw)
  | KPuzzles => '(ss, raw) ← read_fixed PUZZLE_SOLUTION_WIRE (truncated "puzzle solution") 3 raw; Ok (SPuzzles ss, raw)
  | KFinality =>
      '(fp, raw) ← read_sized "finality section length" "finality section body" raw; Ok (SFinality fp, raw)
  | KCommitted => '(ca, raw) ← read_one ADMISSION_COMMITMENT_WIRE "committed admission" raw; Ok (SCommitted ca, raw)
  | KVrf =>
      '(ps, raw) ← read_fixed ASSIGNMENT_PROOF_V2_WIRE (truncated "v2 assignment proof") 3 raw; Ok (SVrf ps, raw)
  | KFraud => '(fs, raw) ← read_fraud_proofs raw; Ok (SFraud fs, raw)
  | KProposer => '(pa, raw) ← read_one PROPOSER_ASSIGNMENT_V1_WIRE "proposer assignment" raw; Ok (SProposer pa, raw)
  | KRegistrations => '(r, raw) ← read_registrations raw; Ok (SRegistrations r, raw)
  end.

(** The sections that are there: the optional fields of the extension from
    [role_ticket_proofs] to [proposer_registrations]. *)
Record Sections := {
  role_ticket_proofs : option (list TicketProof);
  role_dominance_weights : option (list Z);
  candidate_set : option CandidateSet;
  role_puzzle_proofs : option (list PuzzleSolutionV1);
  finality_proof : option FinalityProofV1;
  committed_admission : option AdmissionCommitmentV1;
  role_assignment_v2 : option (list AssignmentProofV2);
  fraud_proofs : option (list FraudProofV1);
  proposer_assignment : option ProposerAssignmentV1;
  proposer_registrations : option ProposerRegistrationSection
}.

Definition no_sections : Sections :=
  {| role_ticket_proofs := None; role_dominance_weights := None; candidate_set := None; role_puzzle_proofs := None;
     finality_proof := None; committed_admission := None; role_assignment_v2 := None; fraud_proofs := None;
     proposer_assignment := None; proposer_registrations := None |}.

(** [new.or(old)] in each field. *)
Definition or_else {A} (new old : option A) : option A := match new with Some a => Some a | None => old end.
Definition or_sections (s t : Sections) : Sections :=
  {| role_ticket_proofs := or_else (role_ticket_proofs s) (role_ticket_proofs t);
     role_dominance_weights := or_else (role_dominance_weights s) (role_dominance_weights t);
     candidate_set := or_else (candidate_set s) (candidate_set t);
     role_puzzle_proofs := or_else (role_puzzle_proofs s) (role_puzzle_proofs t);
     finality_proof := or_else (finality_proof s) (finality_proof t);
     committed_admission := or_else (committed_admission s) (committed_admission t);
     role_assignment_v2 := or_else (role_assignment_v2 s) (role_assignment_v2 t);
     fraud_proofs := or_else (fraud_proofs s) (fraud_proofs t);
     proposer_assignment := or_else (proposer_assignment s) (proposer_assignment t);
     proposer_registrations := or_else (proposer_registrations s) (proposer_registrations t) |}.

Definition one_section (b : SectionBody) : Sections :=
  {| role_ticket_proofs := match b with STickets x => Some x | _ => None end;
     role_dominance_weights := match b with SDominance x => Some x | _ => None end;
     candidate_set := match b with SCandidates x => Some x | _ => None end;
     role_puzzle_proofs := match b with SPuzzles x => Some x | _ => None end;
     finality_proof := match b with SFinality x => Some x | _ => None end;
     committed_admission := match b with SCommitted x => Some x | _ => None end;
     role_assignment_v2 := match b with SVrf x => Some x | _ => None end;
     fraud_proofs := match b with SFraud x => Some x | _ => None end;
     proposer_assignment := match b with SProposer x => Some x | _ => None end;
     proposer_registrations := match b with SRegistrations x => Some x | _ => None end |}.

(** The assignment to one of the variables. *)
Definition set_section (b : SectionBody) (s : Sections) : Sections := or_sections (one_section b) s.

Definition bodies_of {A} (f : A -> SectionBody) (o : option A) : list SectionBody :=
  match o with Some a => [f a] | None => [] end.

(** In the order of [serialize]. *)
Definition section_bodies (s : Sections) : list SectionBody :=
  bodies_of STickets (role_ticket_proofs s) ++ bodies_of SDominance (role_dominance_weights s)
  ++ bodies_of SCandidates (candidate_set s) ++ bodies_of SPuzzles (role_puzzle_proofs s)
  ++ bodies_of SFinality (finality_proof s) ++ bodies_of SCommitted (committed_admission s)
  ++ bodies_of SVrf (role_assignment_v2 s) ++ bodies_of SFraud (fraud_proofs s)
  ++ bodies_of SProposer (proposer_assignment s) ++ bodies_of SRegistrations (proposer_registrations s).

Definition is_some {A} (o : option A) : bool := match o with Some _ => true | None => false end.
Definition present (k : SectionKind) (s : Sections) : bool :=
  match k with
  | KTickets => is_some (role_ticket_proofs s) | KDominance => is_some (role_dominance_weights s)
  | KCandidates => is_some (candidate_set s) | KPuzzles => is_some (role_puzzle_proofs s)
  | KFinality => is_some (finality_proof s) | KCommitted => is_some (committed_admission s)
  | KVrf => is_some (role_assignment_v2 s) | KFraud => is_some (fraud_proofs s)
  | KProposer => is_some (proposer_assignment s) | KRegistrations => is_some (proposer_registrations s)
  end.

Definition write_section (b : SectionBody) : bytes := section_magic (body_kind b) ++ write_body b.

(** The [while] loop; each round takes at least the magic, so the length of the
    input is fuel enough. *)
Fixpoint read_sections (fuel : nat) (s : Sections) (raw : bytes) : res string Sections :=
  if len raw =? 0 then Ok s else
  match fuel with
  | O => Panic
  | S fuel =>
      _ ← need 4 (truncated "trailing section magic") raw;
      '(magic, raw) ← rd 4 raw;
      match kind_of_magic magic with
      | None => Err "phase20 ext: unknown trailing section magic"%string
      | Some k =>
          if present k s then Err (duplicate_error k) else
          '(b, raw) ← read_body k raw;
          read_sections fuel (set_section b s) raw
      end
  end.

(** ** The extension *)
Record Phase20ReceiptExt := {
  x_role_reward : RoleReward;
  x_compute_claim : PoawxRoleClaim;
  x_verify_claim : PoawxRoleClaim;
  x_support_claim : PoawxRoleClaim;
  x_fee_bps : Z;
  x_fee_pkh : bytes;
  x_precommit_root : option bytes;
  x_sections : Sections
}.

Definition write_claim (c : PoawxRoleClaim) : bytes :=
  let b := serialize_claim c in le_bytes 2 (as_u16 (len b)) ++ b.

Definition write_precommit (o : option bytes) (any : bool) : bytes :=
  match o with Some root => [1] ++ root | None => if any then [0] else [] end.

Definition serialize_ext (x : Phase20ReceiptExt) : bytes :=
  [PHASE20_EXT_VERSION] ++ serialize_role_reward (x_role_reward x) ++ write_claim (x_compute_claim x)
  ++ write_claim (x_verify_claim x) ++ write_claim (x_support_claim x) ++ le_bytes 2 (x_fee_bps x) ++ x_fee_pkh x
  ++ write_precommit (x_precommit_root x) (existsb (fun k => present k (x_sections x)) all_kinds)
  ++ concat (write_section <$> section_bodies (x_sections x)).

Definition read_claim (raw : bytes) : res string (PoawxRoleClaim * bytes) :=
  _ ← need 2 (truncated "claim len") raw;
  '(l, raw) ← rd_le 2 raw;
  _ ← need l (truncated "claim body") raw;
  '(s, raw) ← rd l raw;
  c ← deserialize_claim s;
  Ok (c, raw).

Definition read_precommit (raw : bytes) : res string (option bytes * bytes) :=
  if negb (len raw =? 0) then
    '(flag, raw) ← rd_u8 raw;
    if flag =? 0 then Ok (None, raw) else
    if flag =? 1 then
      _ ← need 32 (truncated "precommit_root") raw;
      '(r, raw) ← rd 32 raw;
      Ok (Some r, raw)
    else Err "phase20 ext: bad precommit flag"%string
  else Ok (None, raw).

Definition deserialize_ext (raw : bytes) : res string Phase20ReceiptExt :=
  _ ← need 1 (truncated "version") raw;
  '(version, raw) ← rd_u8 raw;
  if negb (version =? PHASE20_EXT_VERSION) then Err "phase20 ext: unknown version"%string else
  '(role_reward, raw) ← read_one ROLE_REWARD_WIRE "role_reward" raw;
  '(compute_claim, raw) ← read_claim raw;
  '(verify_claim, raw) ← read_claim raw;
  '(support_claim, raw) ← read_claim raw;
  _ ← need 2 (truncated "fee_bps") raw;
  '(fee_bps, raw) ← rd_le 2 raw;
  _ ← need 20 (truncated "fee_pkh") raw;
  '(fee_pkh, raw) ← rd 20 raw;
  '(precommit_root, raw) ← read_precommit raw;
  sections ← read_sections (length raw) no_sections raw;
  Ok {| x_role_reward := role_reward; x_compute_claim := compute_claim; x_verify_claim := verify_claim;
        x_support_claim := support_claim; x_fee_bps := fee_bps; x_fee_pkh := fee_pkh;
        x_precommit_root := precommit_root; x_sections := sections |}.

Definition ext_digest `{C : Crypto} (x : Phase20ReceiptExt) : bytes := sha256 (serialize_ext x).

(** ** Reading what was written *)
Definition triple_ok {A} `{Wire A} (xs : list A) : Prop := length xs = 3%nat /\ Forall wire_ok xs.
Definition few_ok {A} `{Wire A} (cap : Z) (xs : list A) : Prop := len xs <= cap /\ Forall wire_ok xs.

Definition body_ok (b : SectionBody) : Prop :=
  match b with
  | STickets ps => triple_ok ps
  | SDominance ws => length ws = 4%nat /\ Forall u64 ws
  | SCandidates cs => candidate_set_ok cs
  | SPuzzles ss => triple_ok ss
  | SFinality fp => finality_proof_ok fp
  | SCommitted ca => commitment_ok ca
  | SVrf ps => triple_ok ps
  | SFraud fs => fs <> [] /\ few_ok 16 fs
  | SProposer pa => proposer_assignment_ok pa
  | SRegistrations r => few_ok 8 (announces r) /\ few_ok 8 (activations r)
  end.

Section readers.
Context {A : Type} {W : Wire A}.

Lemma read_sized_app {X : ExactWire W} what1 what2 a t : wire_ok a -> len (to_wire a) < 2 ^ 32 ->
  read_sized what1 what2 (write_sized (to_wire a) ++ t) = Ok (a, t).
Proof.
  intros Ha Hl. pose proof (len_nonneg (to_wire a)). pose proof (len_nonneg t). unfold read_sized, write_sized.
  rewrite <- app_assoc, as_u32_small by (unfold u32; lia). rewrite need_ok by len_lia. res_simpl.
  rewrite rd_le4_app by (unfold u32; lia). res_simpl. rewrite need_ok by len_lia. res_simpl.
  rewrite rd_app by done. res_simpl. by rewrite (wire_read a Ha).
Qed.

Context (n : Z) {F : FixedWire W n}.

Lemma read_one_app what a t : wire_ok a -> read_one n what (to_wire a ++ t) = Ok (a, t).
Proof.
  intros Ha. pose proof (fixed_len a Ha). pose proof (len_nonneg t). unfold read_one. rewrite need_ok by len_lia. res_simpl.
  rewrite rd_app by done. res_simpl. by rewrite (wire_read a Ha).
Qed.

Lemma read_triple_app e xs t : triple_ok xs -> read_fixed n e 3 (write_all xs ++ t) = Ok (xs, t).
Proof. intros [<- Hx]. by apply read_fixed_app. Qed.

Lemma read_counted_app cap what1 e what2 xs t : cap < 2 ^ 16 -> few_ok cap xs ->
  read_counted n cap what1 e what2 (write_counted xs ++ t) = Ok (xs, t).
Proof.
  intros Hcap [Hc Hx]. pose proof (len_nonneg xs). pose proof (len_nonneg (write_all xs ++ t)).
  unfold read_counted, write_counted. rewrite <- app_assoc, as_u16_small by (unfold u16; lia).
  rewrite need_ok by len_lia. res_simpl. rewrite rd_le2_app by (unfold u16; lia). res_simpl.
  replace (cap <? len xs) with false by lia. unfold len. rewrite Nat2Z.id. by apply read_fixed_app.
Qed.

(** No panic, and no more bytes than before. *)
Definition good_read {B} (m : res string (B * bytes)) (raw : bytes) : Prop :=
  match m with Ok (_, t) => wf_bytes t /\ len t <= len raw | Err _ => True | Panic => False end.

Lemma good_rd {B} k raw (f : bytes -> bytes -> res string (B * bytes)) : wf_bytes raw -> 0 <= k <= len raw ->
  (forall s t, wf_bytes s -> wf_bytes t -> len s = k -> len t = len raw - k -> good_read (f s t) t) ->
  good_read ('(s, t) ← rd k raw; f s t) raw.
Proof.
  intros Hw Hk Hf. destruct (@rd_in string k raw Hk) as (s & t & Hr & Hs & Ht). rewrite Hr. res_simpl.
  apply rd_inv in Hr as [-> _]. apply wf_app in Hw as [Hws Hwt]. pose proof (Hf s t Hws Hwt Hs Ht) as H.
  unfold good_read in *. destruct (f s t) as [[b u]| |]; [|done..]. destruct H. split; [done|lia].
Qed.

Lemma good_rd_le {B} k raw (f : Z -> bytes -> res string (B * bytes)) : wf_bytes raw -> 0 <= k <= len raw ->
  (forall v t, 0 <= v -> wf_bytes t -> len t = len raw - k -> good_read (f v t) t) ->
  good_read ('(v, t) ← rd_le k raw; f v t) raw.
Proof.
  intros Hw Hk Hf. unfold rd_le. 
  replace ('(v, t) ← ('(s, t) ← rd k raw; Ok (le_val s, t)); f v t)
    with ('(s, t) ← rd k raw; f (le_val s) t) by (by destruct (rd k raw) as [[]| |]).
  apply good_rd; [done..|]. intros s t Hs Ht _ Hl. apply Hf; [|done..]. by apply le_val_bound.
Qed.

Lemma good_need {B} k e raw (m : res string (B * bytes)) : (k <= len raw -> good_read m raw) ->
  good_read (_ ← need k e raw; m) raw.
Proof. intros Hm. unfold need. destruct (len raw <? k) eqn:E; [done|]. apply Hm. lia. Qed.

Lemma good_bind {B D} (m : res string (B * bytes)) raw (f : B -> bytes -> res string (D * bytes)) :
  good_read m raw -> (forall b t, m = Ok (b, t) -> wf_bytes t -> good_read (f b t) t) ->
  good_read ('(b, t) ← m; f b t) raw.
Proof.
  unfold good_read. intros Hm Hf. destruct m as [[b t]| |]; [|done..]. destruct Hm as [Hw Hl]. res_simpl.
  specialize (Hf b t eq_refl Hw). destruct (f b t) as [[d u]| |]; [|done..]. destruct Hf. split; [done|lia].
Qed.

Lemma good_of_wire {B} {X : ExactWire W} s raw (f : A -> res string (B * bytes)) :
  (forall a, good_read (f a) raw) -> good_read (a ← of_wire s; f a) raw.
Proof. intros Hf. pose proof (wire_total s). destruct (of_wire s); [apply Hf | done | done]. Qed.

Lemma good_ok {B} (b : B) raw : wf_bytes raw -> good_read (Ok (b, raw)) raw.
Proof. intros Hw. split; [done|lia]. Qed.
End readers.

Section good_readers.
Context {A : Type} {W : Wire A}.

Lemma read_sized_good {X : ExactWire W} what1 what2 raw : wf_bytes raw -> good_read (read_sized what1 what2 raw) raw.
Proof.
  intros Hw. apply good_need. intros Hl. apply good_rd_le; [done | lia|]. intros l t Hl0 Ht _.
  apply good_need. intros Hl'. apply good_rd; [done | lia|]. intros s u Hs Hu _ _. apply good_of_wire. intros a. by apply good_ok.
Qed.

Context (n : Z) {F : FixedWire W n} (Hn : 0 <= n).

Lemma read_one_good what raw : wf_bytes raw -> good_read (read_one n what raw) raw.
Proof.
  intros Hw. apply good_need. intros Hl. apply good_rd; [done | lia|]. intros s u Hs Hu _ _.
  apply good_of_wire. intros a. by apply good_ok.
Qed.

Lemma read_fixed_good e count raw : wf_bytes raw -> good_read (read_fixed n e count raw) raw.
Proof.
  intros Hw. pose proof (read_fixed_total n e Hn count raw). destruct (read_fixed n e count raw) as [[xs t]| |] eqn:Hr; [|done..].
  apply (read_fixed_inv n e) in Hr as (_ & _ & -> & Ht); [|done]. split; [done|]. rewrite len_app. pose proof (len_nonneg (write_all xs)). lia.
Qed.

Lemma read_counted_good cap what1 e what2 raw : wf_bytes raw -> good_read (read_counted n cap what1 e what2 raw) raw.
Proof.
  intros Hw. apply good_need. intros Hl. apply good_rd_le; [done | lia|]. intros c t Hc Ht _.
  destruct (cap <? c); [done|]. by apply read_fixed_good.
Qed.
End good_readers.

Lemma read_weights_app ws t : Forall u64 ws -> read_weights (length ws) (concat (le_bytes 8 <$> ws) ++ t) = Ok (ws, t).
Proof.
  induction 1 as [|w ws Hw _ IH]; [done|]. cbn [read_weights length fmap list_fmap concat]. rewrite <- app_assoc.
  rewrite rd_le8_app by done. res_simpl. by rewrite IH.
Qed.

Lemma read_weights_good n : forall raw, wf_bytes raw -> 8 * Z.of_nat n <= len raw -> good_read (read_weights n raw) raw.
Proof.
  induction n as [|n IH]; intros raw Hw Hl; [by apply good_ok|]. cbn [read_weights].
  apply good_rd_le; [done | lia|]. intros w t _ Ht Hlt. apply good_bind; [apply IH; [done|lia]|].
  intros ws u _ Hu. by apply good_ok.
Qed.

(** ** Sections *)
Lemma magic_len k : len (section_magic k) = 4.
Proof. by destruct k. Qed.

Lemma kind_of_own_magic k : kind_of_magic (section_magic k) = Some k.
Proof. by destruct k. Qed.

Lemma candidate_set_short cs : candidate_set_ok cs -> len (serialize_candidate_set cs) < 2 ^ 32.
Proof.
  intros [? ? [? _] Hc Hn]. pose proof (len_write_all (W := RoleCandidate_wire) 175 _ Hc) as Hl.
  unfold serialize_candidate_set. autorewrite with lens. rewrite Hl. lia.
Qed.

Lemma finality_proof_short fp : finality_proof_ok fp -> len (serialize_finality_proof fp) < 2 ^ 32.
Proof.
  intros [? ? ? [? _] [? _] ? ? ? Hc Hn]. pose proof (len_write_all (W := FinalityVoteV1_wire) 232 _ Hc) as Hl.
  unfold serialize_finality_proof. autorewrite with lens. rewrite Hl. lia.
Qed.

Lemma read_fraud_proofs_app fs t : fs <> [] -> few_ok 16 fs -> read_fraud_proofs (write_counted fs ++ t) = Ok (fs, t).
Proof.
  intros Hne [Hc Hf]. assert (0 < len fs) by (destruct fs; [done|]; rewrite len_cons; pose proof (len_nonneg fs); lia).
  pose proof (len_nonneg (write_all fs ++ t)).
  unfold read_fraud_proofs, write_counted. rewrite <- app_assoc, as_u16_small by (unfold u16; lia).
  rewrite need_ok by len_lia. res_simpl. rewrite rd_le2_app by (unfold u16; lia). res_simpl.
  unfold FRAUD_PROOF_MAX_PER_BLOCK. replace (_ || _) with false by lia. unfold len. rewrite Nat2Z.id.
  by apply (read_fixed_app (W := FraudProofV1_wire) FRAUD_PROOF_V1_WIRE).
Qed.

Lemma read_body_app b t : body_ok b -> read_body (body_kind b) (write_body b ++ t) = Ok (b, t).
Proof.
  destruct b as [ps|ws|cs|ss|fp|ca|ps|fs|pa|[an ac]]; cbn [body_ok read_body write_body body_kind]; intros H.
  - by rewrite (read_triple_app (W := TicketProof_wire) TICKET_PROOF_WIRE).
  - destruct H as [Hl H]. pose proof (read_weights_app ws t H) as Hr. rewrite Hl in Hr. rewrite need_ok; [cbn [mbind res_bind]; by rewrite Hr|].
    rewrite len_app. unfold DOMINANCE_WEIGHTS_WIRE. pose proof (len_nonneg t).
    do 4 (destruct ws as [|? ws]; [done|]). destruct ws; [|done]. cbn [fmap list_fmap concat]. len_lia.
  - rewrite (read_sized_app (W := CandidateSet_wire)); [done | done | by apply candidate_set_short].
  - by rewrite (read_triple_app (W := PuzzleSolutionV1_wire) PUZZLE_SOLUTION_WIRE).
  - rewrite (read_sized_app (W := FinalityProofV1_wire)); [done | done | by apply finality_proof_short].
  - by rewrite (read_one_app (W := AdmissionCommitmentV1_wire) ADMISSION_COMMITMENT_WIRE).
  - by rewrite (read_triple_app (W := AssignmentProofV2_wire) ASSIGNMENT_PROOF_V2_WIRE).
  - destruct H as [Hne H]. by rewrite read_fraud_proofs_app.
  - by rewrite (read_one_app (W := ProposerAssignmentV1_wire) PROPOSER_ASSIGNMENT_V1_WIRE).
  - destruct H as [Han Hac]. cbn [announces activations] in *. unfold read_registrations. rewrite <- app_assoc.
    rewrite (read_counted_app (W := ProposerRegistrationV1_wire) PROPOSER_REGISTRATION_V1_WIRE) by done. res_simpl.
    by rewrite (read_counted_app (W := ProposerRegistrationV1_wire) PROPOSER_REGISTRATION_V1_WIRE).
Qed.

Lemma read_body_good k raw : wf_bytes raw -> good_read (read_body k raw) raw.
Proof.
  intros Hw'. destruct k; cbn [read_body].
  - apply good_bind; [apply (read_fixed_good (W := TicketProof_wire) TICKET_PROOF_WIRE); [done | exact Hw']|]. intros; by apply good_ok.
  - apply good_need. unfold DOMINANCE_WEIGHTS_WIRE. intros Hl.
    apply good_bind; [apply read_weights_good; [done|lia]|]. intros; by apply good_ok.
  - apply good_bind; [by apply (read_sized_good (W := CandidateSet_wire))|]. intros; by apply good_ok.
  - apply good_bind; [apply (read_fixed_good (W := PuzzleSolutionV1_wire) PUZZLE_SOLUTION_WIRE); [done | exact Hw']|]. intros; by apply good_ok.
  - apply good_bind; [by apply (read_sized_good (W := FinalityProofV1_wire))|]. intros; by apply good_ok.
  - apply good_bind; [apply (read_one_good (W := AdmissionCommitmentV1_wire) ADMISSION_COMMITMENT_WIRE); [done | exact Hw']|]. intros; by apply good_ok.
  - apply good_bind; [apply (read_fixed_good (W := AssignmentProofV2_wire) ASSIGNMENT_PROOF_V2_WIRE); [done | exact Hw']|]. intros; by apply good_ok.
  - apply good_bind; [|intros; by apply good_ok]. apply good_need. intros Hl. apply good_rd_le; [done | lia|].
    intros c t Hc Ht _. case_match; [done|]. clear Hw'. rename Ht into Hw'. apply (read_fixed_good (W := FraudProofV1_wire) FRAUD_PROOF_V1_WIRE); [done | exact Hw'].
  - apply good_bind; [apply (read_one_good (W := ProposerAssignmentV1_wire) PROPOSER_ASSIGNMENT_V1_WIRE); [done | exact Hw']|]. intros; by apply good_ok.
  - apply good_bind; [|intros; by apply good_ok]. unfold read_registrations.
    apply good_bind; [apply (read_counted_good (W := ProposerRegistrationV1_wire) PROPOSER_REGISTRATION_V1_WIRE); [done | exact Hw']|]. intros an t _ Ht. clear Hw'. rename Ht into Hw'.
    apply good_bind; [apply (read_counted_good (W := ProposerRegistrationV1_wire) PROPOSER_REGISTRATION_V1_WIRE); [done | exact Hw']|]. intros; by apply good_ok.
Qed.

Lemma set_section_present b s k : k <> body_kind b -> present k (set_section b s) = present k s.
Proof. by destruct b, k. Qed.

Lemma section_bodies_app t s : foldl (fun s b => set_section b s) s (section_bodies t) = or_sections t s.
Proof.
  destruct t as [[?|] [?|] [?|] [?|] [?|] [?|] [?|] [?|] [?|] [?|]]; try reflexivity. by destruct s.
Qed.

Lemma bodies_kind {A} (f : A -> SectionBody) k o : (forall a, body_kind (f a) = k) ->
  (body_kind <$> bodies_of f o) `sublist_of` [k].
Proof. intros Hk. destruct o as [a|]; cbn; [rewrite Hk; reflexivity | apply sublist_nil_l]. Qed.

Lemma section_kinds_nodup s : NoDup (body_kind <$> section_bodies s).
Proof.
  apply (sublist_NoDup _ all_kinds); [decided|]. unfold section_bodies. rewrite !fmap_app.
  change all_kinds with ([KTickets] ++ [KDominance] ++ [KCandidates] ++ [KPuzzles] ++ [KFinality] ++ [KCommitted]
    ++ [KVrf] ++ [KFraud] ++ [KProposer] ++ [KRegistrations]).
  repeat apply sublist_app; by apply bodies_kind.
Qed.

Lemma section_bodies_none s : existsb (fun k => present k s) all_kinds = false <-> section_bodies s = [].
Proof. destruct s as [[?|] [?|] [?|] [?|] [?|] [?|] [?|] [?|] [?|] [?|]]; cbn; split; done. Qed.

Lemma write_sections_cons b bs : concat (write_section <$> b :: bs) =
  section_magic (body_kind b) ++ write_body b ++ concat (write_section <$> bs).
Proof. cbn [fmap list_fmap concat]. unfold write_section at 1. by rewrite <- app_assoc. Qed.

Lemma read_sections_app fuel : forall s bs, Forall body_ok bs -> NoDup (body_kind <$> bs) ->
  (forall b, b ∈ bs -> present (body_kind b) s = false) -> len (concat (write_section <$> bs)) <= Z.of_nat fuel ->
  read_sections fuel s (concat (write_section <$> bs)) = Ok (foldl (fun s b => set_section b s) s bs).
Proof.
  induction fuel as [|fuel IH]; intros s bs Hok Hn Hp Hl; (destruct bs as [|b bs]; [done|]);
    rewrite write_sections_cons in *; pose proof (magic_len (body_kind b)) as Hm; pose proof (len_nonneg (write_body b));
    pose proof (len_nonneg (concat (write_section <$> bs))); autorewrite with lens in Hl; [lia|].
  apply Forall_cons in Hok as [Hb Hok]. cbn [fmap list_fmap] in Hn. apply NoDup_cons in Hn as [Hnot Hn].
  cbn [read_sections]. replace (len _ =? 0) with false by (symmetry; apply Z.eqb_neq; len_lia).
  rewrite need_ok by len_lia. cbn [mbind res_bind]. rewrite rd_app by done. cbn [mbind res_bind].
  rewrite kind_of_own_magic, (Hp b) by (by left). rewrite read_body_app by done. cbn [mbind res_bind].
  rewrite IH; [done | done | done | | lia].
  intros b' Hb'. rewrite set_section_present; [apply Hp; by right|]. intros He. apply Hnot. rewrite <- He.
  by apply list_elem_of_fmap_2.
Qed.

(** The loop ends: it never runs out of fuel. *)
Lemma read_sections_total fuel : forall s raw, wf_bytes raw -> len raw <= Z.of_nat fuel -> read_sections fuel s raw <> Panic.
Proof.
  induction fuel as [|fuel IH]; intros s raw Hw Hl; cbn [read_sections]; destruct (len raw =? 0) eqn:E; try done;
    apply Z.eqb_neq in E; pose proof (len_nonneg raw); [lia|].
  unfold need. destruct (len raw <? 4) eqn:E4; [done|]. apply Z.ltb_ge in E4. cbn [mbind res_bind].
  destruct (@rd_in string 4 raw) as (m & t & Hr & _ & Ht); [lia|]. rewrite Hr. cbn [mbind res_bind].
  apply rd_inv in Hr as [-> _]. apply wf_app in Hw as [_ Hw].
  destruct (kind_of_magic m) as [k|]; [|done]. destruct (present k s); [done|].
  pose proof (read_body_good k t Hw) as Hg. unfold good_read in Hg. destruct (read_body k t) as [[b u]| |]; [|done..].
  cbn [mbind res_bind]. destruct Hg. apply IH; [done|lia].
Qed.

(** ** The extension *)
Record ext_ok (x : Phase20ReceiptExt) : Prop := {
  xo_reward : role_reward_ok (x_role_reward x);
  xo_compute : claim_ok (x_compute_claim x);
  xo_verify : claim_ok (x_verify_claim x);
  xo_support : claim_ok (x_support_claim x);
  xo_fee : u16 (x_fee_bps x);
  xo_fee_pkh : arr 20 (x_fee_pkh x);
  xo_precommit : from_option (arr 32) True (x_precommit_root x);
  xo_sections : Forall body_ok (section_bodies (x_sections x))
}.

Lemma read_claim_app c t : claim_ok c -> read_claim (write_claim c ++ t) = Ok (c, t).
Proof.
  intros Hc. pose proof (claim_len c Hc). pose proof (len_nonneg t). unfold read_claim, write_claim. cbv zeta.
  rewrite <- app_assoc, as_u16_small by (unfold u16; lia). rewrite need_ok by len_lia. cbn [mbind res_bind].
  rewrite rd_le2_app by (unfold u16; lia). cbn [mbind res_bind]. rewrite need_ok by len_lia. cbn [mbind res_bind].
  rewrite rd_app by done. cbn [mbind res_bind].
  pose proof (wire_read (W := PoawxRoleClaim_wire) c Hc) as Hr. cbn [of_wire to_wire PoawxRoleClaim_wire] in Hr. by rewrite Hr.
Qed.

Lemma read_claim_good raw : wf_bytes raw -> good_read (read_claim raw) raw.
Proof.
  intros Hw. apply good_need. intros Hl. apply good_rd_le; [done | lia|]. intros l t Hl0 Ht _.
  apply good_need. intros Hl'. apply good_rd; [done | lia|]. intros s u Hs Hu _ _.
  change deserialize_claim with (of_wire (A := PoawxRoleClaim)). apply good_of_wire. intros a. by apply good_ok.
Qed.

Lemma read_precommit_app o (t : bytes) (any : bool) : from_option (arr 32) True o -> (any = false -> t = []) ->
  read_precommit (write_precommit o any ++ t) = Ok (o, t).
Proof.
  intros Ho Ht. unfold read_precommit, write_precommit. pose proof (len_nonneg t). destruct o as [r|].
  - destruct Ho as [Hr _]. replace (len _ =? 0) with false by (symmetry; apply Z.eqb_neq; len_lia). cbn [negb].
    rewrite <- app_assoc. cbn [app rd_u8 mbind res_bind Z.eqb Pos.eqb]. rewrite need_ok by len_lia. cbn [mbind res_bind].
    rewrite rd_app by done. done.
  - destruct any; [|by rewrite Ht]. replace (len _ =? 0) with false by (symmetry; apply Z.eqb_neq; len_lia). done.
Qed.

Lemma read_precommit_good raw : wf_bytes raw -> good_read (read_precommit raw) raw.
Proof.
  intros Hw. unfold read_precommit. destruct (len raw =? 0) eqn:E; [by apply good_ok|]. cbn [negb].
  destruct raw as [|f raw]; [done|]. cbn [rd_u8 mbind res_bind]. apply Forall_cons in Hw as [_ Hw].
  assert (good_read (if f =? 0 then Ok (None, raw) else if f =? 1 then
      _ ← need 32 (truncated "precommit_root") raw; '(r, raw) ← rd 32 raw; Ok (Some r, raw)
      else Err "phase20 ext: bad precommit flag"%string) raw) as H.
  { case_match; [by apply good_ok|]. case_match; [|done]. apply good_need. intros Hl. apply good_rd; [done | lia|].
    intros r t _ Ht _ _. by apply good_ok. }
  unfold good_read in *. rewrite len_cons. case_match; [|done..]. case_match. destruct H. split; [done|lia].
Qed.

Lemma read_ext x : ext_ok x -> deserialize_ext (serialize_ext x) = Ok x.
Proof.
  intros [Hr Hc Hv Hs Hf [Hp _] Ho Hb]. unfold deserialize_ext, serialize_ext.
  pose proof (section_bodies_none (x_sections x)) as Hnone.
  set (body := concat (write_section <$> section_bodies (x_sections x))).
  cbn [app]. rewrite need_ok by (rewrite len_cons; match goal with |- context [len ?l] => pose proof (len_nonneg l) end; lia).
  cbn [mbind res_bind rd_u8]. change (negb (PHASE20_EXT_VERSION =? PHASE20_EXT_VERSION)) with false. cbv iota.
  rewrite (read_one_app (W := RoleReward_wire) ROLE_REWARD_WIRE) by done. cbn [mbind res_bind].
  do 3 (rewrite read_claim_app by done; cbn [mbind res_bind]).
  rewrite need_ok by (pose_len_nonneg; len_lia). cbn [mbind res_bind]. rewrite rd_le2_app by done. cbn [mbind res_bind].
  rewrite need_ok by (pose_len_nonneg; len_lia). cbn [mbind res_bind]. rewrite rd_app by done. cbn [mbind res_bind].
  rewrite read_precommit_app; [cbn [mbind res_bind] | done |].
  - unfold body. rewrite read_sections_app; [cbn [mbind res_bind] | done | apply section_kinds_nodup | by intros b; destruct b | done].
    rewrite section_bodies_app. destruct x as [? ? ? ? ? ? ? [? ? ? ? ? ? ? ? ? ?]]. cbn.
    do 2 f_equal. unfold or_sections. cbn. f_equal; unfold or_else; by case_match.
  - intros Ha%Hnone. unfold body. by rewrite Ha.
Qed.

(** A reader that goes on to a result without rest. *)
Lemma safe_then {A B} (m : res string (A * bytes)) raw (f : A -> bytes -> res string B) :
  good_read m raw -> (forall a t, wf_bytes t -> f a t <> Panic) -> ('(a, t) ← m; f a t) <> Panic.
Proof. unfold good_read. intros Hm Hf. destruct m as [[a t]| |]; [|done..]. by apply Hf, Hm. Qed.

Lemma safe_need {B} k e raw (m : res string B) : (k <= len raw -> m <> Panic) -> (_ ← need k e raw; m) <> Panic.
Proof. intros Hm. unfold need. destruct (len raw <? k) eqn:E; [done|]. apply Hm. lia. Qed.

Lemma rd_good {n} raw : wf_bytes raw -> 0 <= n <= len raw -> good_read (rd n raw) raw.
Proof.
  intros Hw Hn. destruct (@rd_in string n raw Hn) as (s & t & Hr & _ & Ht). rewrite Hr. apply rd_inv in Hr as [-> _].
  apply wf_app in Hw as [_ Hw]. split; [done|lia].
Qed.

Lemma rd_le_good {n} raw : wf_bytes raw -> 0 <= n <= len raw -> good_read (rd_le n raw) raw.
Proof.
  intros Hw Hn. pose proof (rd_good raw Hw Hn) as H. unfold rd_le. destruct (@rd string n raw) as [[s t]| |]; done.
Qed.

Lemma rd_u8_good raw : wf_bytes raw -> 1 <= len raw -> good_read (rd_u8 raw) raw.
Proof.
  intros Hw Hn. destruct raw as [|b raw]; [by cbn in Hn|]. apply Forall_cons in Hw as [_ Hw]. cbn -[len]. rewrite len_cons.
  split; [done|lia].
Qed.

Lemma ext_total raw : wf_bytes raw -> deserialize_ext raw <> Panic.
Proof.
  intros Hw. unfold deserialize_ext. apply safe_need. intros H1. eapply safe_then; [by apply rd_u8_good|].
  intros ver t Ht. destruct (negb _); [done|]. clear dependent raw.
  eapply safe_then; [apply (read_one_good (W := RoleReward_wire) ROLE_REWARD_WIRE); done|]. intros r t0 H0. clear dependent t.
  do 3 (eapply safe_then; [by apply read_claim_good|]; intros ? ? ?).
  apply safe_need. intros Hl2. eapply safe_then; [apply rd_le_good; [done|lia]|]. intros fee t4 H4.
  apply safe_need. intros Hl3. eapply safe_then; [apply rd_good; [done|lia]|]. intros fp t5 H5.
  eapply safe_then; [by apply read_precommit_good|]. intros p t6 H6.
  pose proof (read_sections_total (length t6) no_sections t6 H6 ltac:(unfold len; lia)).
  by destruct (read_sections (length t6) no_sections t6).
Qed.

(** ** Delegations *)
Record Delegation := {
  dg_version : Z;
  dg_network_id : Z;
  dg_miner_pubkey : bytes;
  dg_pool_pubkey : bytes;
  dg_worker_tag : bytes;
  dg_expiry_height : Z;
  dg_fee_bps : Z;
  dg_fee_pkh : bytes;
  dg_nonce : bytes;
  dg_sig : bytes
}.

Definition DELEGATION_VERSION : Z := 1.
Definition DELEGATION_WIRE : Z := 226.

Definition serialize_delegation (d : Delegation) : bytes :=
  [dg_version d] ++ [dg_network_id d] ++ dg_miner_pubkey d ++ dg_pool_pubkey d ++ dg_worker_tag d
  ++ le_bytes 8 (dg_expiry_height d) ++ le_bytes 2 (dg_fee_bps d) ++ dg_fee_pkh d ++ dg_nonce d ++ dg_sig d.

(** A prefix reader: bytes after the record are not looked at. *)
Definition deserialize_delegation (raw : bytes) : res string Delegation :=
  if len raw <? DELEGATION_WIRE then Err "delegation too short"%string else
  '(version, raw) ← rd_u8 raw;
  '(network_id, raw) ← rd_u8 raw;
  '(miner_pubkey, raw) ← rd 33 raw;
  '(pool_pubkey, raw) ← rd 33 raw;
  '(worker_tag, raw) ← rd 32 raw;
  '(expiry_height, raw) ← rd_le 8 raw;
  '(fee_bps, raw) ← rd_le 2 raw;
  '(fee_pkh, raw) ← rd 20 raw;
  '(nonce, raw) ← rd 32 raw;
  '(sig, raw) ← rd 64 raw;
  Ok {| dg_version := version; dg_network_id := network_id; dg_miner_pubkey := miner_pubkey;
        dg_pool_pubkey := pool_pubkey; dg_worker_tag := worker_tag; dg_expiry_height := expiry_height;
        dg_fee_bps := fee_bps; dg_fee_pkh := fee_pkh; dg_nonce := nonce; dg_sig := sig |}.

Record delegation_ok (d : Delegation) : Prop := {
  dgo_version : u8 (dg_version d);
  dgo_network : u8 (dg_network_id d);
  dgo_miner : arr 33 (dg_miner_pubkey d);
  dgo_pool : arr 33 (dg_pool_pubkey d);
  dgo_tag : arr 32 (dg_worker_tag d);
  dgo_expiry : u64 (dg_expiry_height d);
  dgo_fee : u16 (dg_fee_bps d);
  dgo_fee_pkh : arr 20 (dg_fee_pkh d);
  dgo_nonce : arr 32 (dg_nonce d);
  dgo_sig : arr 64 (dg_sig d)
}.

Section delegation.
Context `{C : Crypto}.

Definition delegation_message_hash (d : Delegation) : bytes :=
  sha256 (DOMAIN_DELEG ++ [dg_version d] ++ [dg_network_id d] ++ dg_miner_pubkey d ++ dg_pool_pubkey d
          ++ dg_worker_tag d ++ le_bytes 8 (dg_expiry_height d) ++ le_bytes 2 (dg_fee_bps d) ++ dg_fee_pkh d
          ++ dg_nonce d).
Definition delegation_digest (d : Delegation) : bytes := sha256 (serialize_delegation d).
Definition miner_pkh (d : Delegation) : bytes := hash160 (dg_miner_pubkey d).

Definition verify_delegation_signature (d : Delegation) : res string unit :=
  vk ← ok_or (VerifyingKey_from_sec1_bytes (dg_miner_pubkey d)) "delegation: invalid miner_pubkey"%string;
  sg ← ok_or (Signature_from_slice (dg_sig d)) "delegation: malformed delegation_sig"%string;
  if verify_prehash vk (delegation_message_hash d) sg then Ok tt
  else Err "delegation: signature verification failed"%string.
End delegation.

(** ** Receipts *)
Record PoawxBlockReceipt := {
  rc_height : Z;
  rc_lane : Z;
  rc_worker_pkh : bytes;
  rc_worker_pubkey : bytes;
  rc_worker_sig : bytes;
  rc_solution : bytes;
  rc_commitment_nonce : bytes;
  rc_delegation : option Delegation;
  rc_phase20_ext : option Phase20ReceiptExt
}.

Definition RECEIPT_WIRE : Z := 166.

Definition receipt_mode (r : PoawxBlockReceipt) : Z :=
  match rc_delegation r with Some _ => RECEIPT_MODE_DELEGATED | None => RECEIPT_MODE_DIRECT end.

Definition set_delegation (r : PoawxBlockReceipt) (d : option Delegation) : PoawxBlockReceipt :=
  {| rc_height := rc_height r; rc_lane := rc_lane r; rc_worker_pkh := rc_worker_pkh r;
     rc_worker_pubkey := rc_worker_pubkey r; rc_worker_sig := rc_worker_sig r; rc_solution := rc_solution r;
     rc_commitment_nonce := rc_commitment_nonce r; rc_delegation := d; rc_phase20_ext := rc_phase20_ext r |}.
Definition set_ext (r : PoawxBlockReceipt) (x : option Phase20ReceiptExt) : PoawxBlockReceipt :=
  {| rc_height := rc_height r; rc_lane := rc_lane r; rc_worker_pkh := rc_worker_pkh r;
     rc_worker_pubkey := rc_worker_pubkey r; rc_worker_sig := rc_worker_sig r; rc_solution := rc_solution r;
     rc_commitment_nonce := rc_commitment_nonce r; rc_delegation := rc_delegation r; rc_phase20_ext := x |}.

Definition serialize_receipt (r : PoawxBlockReceipt) : bytes :=
  le_bytes 8 (rc_height r) ++ [rc_lane r] ++ rc_worker_pkh r ++ rc_worker_pubkey r ++ rc_worker_sig r
  ++ rc_solution r ++ rc_commitment_nonce r.

Definition deserialize_receipt (raw : bytes) : res string PoawxBlockReceipt :=
  if len raw <? RECEIPT_WIRE then Err "poawx receipt too short"%string else
  '(height, raw) ← rd_le 8 raw;
  '(lane, raw) ← rd_u8 raw;
  '(worker_pkh, raw) ← rd 20 raw;
  '(worker_pubkey, raw) ← rd 33 raw;
  '(worker_sig, raw) ← rd 64 raw;
  '(solution, raw) ← rd 8 raw;
  '(commitment_nonce, raw) ← rd 32 raw;
  Ok {| rc_height := height; rc_lane := lane; rc_worker_pkh := worker_pkh; rc_worker_pubkey := worker_pubkey;
        rc_worker_sig := worker_sig; rc_solution := solution; rc_commitment_nonce := commitment_nonce;
        rc_delegation := None; rc_phase20_ext := None |}.

Definition serialize_receipt_v2 (r : PoawxBlockReceipt) : bytes :=
  [receipt_mode r] ++ serialize_receipt r
  ++ match rc_delegation r with Some d => serialize_delegation d | None => [] end.

(** The receipt and the number of bytes it takes. *)
Definition deserialize_receipt_v2 (raw : bytes) : res string (PoawxBlockReceipt * Z) :=
  match raw with
  | [] => Err "poawx v2 receipt: missing mode byte"%string
  | mode :: body =>
      if len body <? RECEIPT_WIRE then Err "poawx v2 receipt: legacy body truncated"%string else
      receipt ← deserialize_receipt body;
      if mode =? RECEIPT_MODE_DIRECT then Ok (set_delegation receipt None, 1 + RECEIPT_WIRE) else
      if mode =? RECEIPT_MODE_DELEGATED then
        if len body <? RECEIPT_WIRE + DELEGATION_WIRE then Err "poawx v2 receipt: delegation truncated"%string else
        d ← deserialize_delegation (drop (Z.to_nat RECEIPT_WIRE) body);
        Ok (set_delegation receipt (Some d), 1 + RECEIPT_WIRE + DELEGATION_WIRE)
      else Err "poawx v2 receipt: unknown mode"%string
  end.

Definition serialize_receipt_v3 (r : PoawxBlockReceipt) : bytes :=
  serialize_receipt_v2 r
  ++ match rc_phase20_ext r with
     | Some x => let b := serialize_ext x in [1] ++ write_sized b
     | None => [0]
     end.

Definition deserialize_receipt_v3 (raw : bytes) : res string (PoawxBlockReceipt * Z) :=
  '(receipt, used) ← deserialize_receipt_v2 raw;
  if len raw <? used + 1 then Err "poawx v3 receipt: missing extension flag"%string else
  flag ← idx raw used;
  let used := used + 1 in
  if flag =? 0 then Ok (set_ext receipt None, used) else
  if flag =? 1 then
    if len raw <? used + 4 then Err "poawx v3 receipt: missing extension length"%string else
    '(l, rest) ← rd_le 4 (drop (Z.to_nat used) raw);
    let used := used + 4 in
    if len raw <? used + l then Err "poawx v3 receipt: extension truncated"%string else
    '(s, _) ← rd l rest;
    ext ← deserialize_ext s;
    Ok (set_ext receipt (Some ext), used + l)
  else Err "poawx v3 receipt: bad extension flag"%string.

Record receipt_ok (r : PoawxBlockReceipt) : Prop := {
  ro_height : u64 (rc_height r);
  ro_lane : u8 (rc_lane r);
  ro_pkh : arr 20 (rc_worker_pkh r);
  ro_key : arr 33 (rc_worker_pubkey r);
  ro_sig : arr 64 (rc_worker_sig r);
  ro_solution : arr 8 (rc_solution r);
  ro_nonce : arr 32 (rc_commitment_nonce r);
  ro_delegation : from_option delegation_ok True (rc_delegation r);
  ro_ext : from_option (fun x => ext_ok x /\ len (serialize_ext x) < 2 ^ 32) True (rc_phase20_ext r)
}.

(** ** The root over the receipts *)
(** [(height, lane, worker_pkh, commitment_nonce)] *)
Definition receipt_key_le (a b : PoawxBlockReceipt) : Prop :=
  rc_height a < rc_height b \/ (rc_height a = rc_height b /\ (rc_lane a < rc_lane b \/ (rc_lane a = rc_lane b /\
    (bytes_ltb (rc_worker_pkh a) (rc_worker_pkh b) = true \/ (rc_worker_pkh a = rc_worker_pkh b /\
     bytes_le (rc_commitment_nonce a) (rc_commitment_nonce b)))))).
#[export] Instance receipt_key_le_dec : RelDecision receipt_key_le.
Proof. unfold receipt_key_le. intros a b. apply _. Defined.

Section roots.
Context `{C : Crypto}.

Definition bound_digests (phase20_active : bool) (r : PoawxBlockReceipt) : bytes :=
  match rc_delegation r with Some d => delegation_digest d | None => [] end
  ++ (if phase20_active then match rc_phase20_ext r with Some x => ext_digest x | None => [] end else []).

Definition receipt_inner (phase20_active : bool) (r : PoawxBlockReceipt) : bytes :=
  sha256 (le_bytes 8 (rc_height r) ++ [rc_lane r] ++ rc_worker_pkh r ++ rc_solution r ++ rc_commitment_nonce r
          ++ bound_digests phase20_active r).

Definition receipt_inner_audit (phase20_active : bool) (r : PoawxBlockReceipt) : bytes :=
  sha256 (le_bytes 8 (rc_height r) ++ [rc_lane r] ++ rc_worker_pkh r ++ rc_worker_pubkey r ++ rc_worker_sig r
          ++ rc_solution r ++ rc_commitment_nonce r ++ bound_digests phase20_active r).

(** [sort_unstable_by] leaves the order of receipts with the same key open;
    here it is that of a stable sort. *)
Definition irx1_root_from_block_receipts_gated (receipts : list PoawxBlockReceipt) (phase20_active : bool) : bytes :=
  sha256 (concat (receipt_inner phase20_active <$> merge_sort receipt_key_le receipts)).

Definition irx1_root_from_block_receipts (receipts : list PoawxBlockReceipt) : bytes :=
  irx1_root_from_block_receipts_gated receipts false.

Definition irx1_root_from_block_receipts_audit (receipts : list PoawxBlockReceipt)
    (phase20_active audit_active : bool) : bytes :=
  if negb audit_active then irx1_root_from_block_receipts_gated receipts phase20_active else
  sha256 (concat (merge_sort bytes_le (receipt_inner_audit phase20_active <$> receipts))).
End roots.

Fixpoint count_leading_zero_bits (hash : bytes) : Z :=
  match hash with
  | [] => 0
  | b :: hash => let z := leading_zeros b in if z <? 8 then z else z + count_leading_zero_bits hash
  end.

(** ** Reading receipts *)
Lemma delegation_len d : delegation_ok d -> len (serialize_delegation d) = 226.
Proof. revert d. fixed_len serialize_delegation. Qed.

Lemma read_delegation d t : delegation_ok d -> deserialize_delegation (serialize_delegation d ++ t) = Ok d.
Proof.
  intros Hd. pose proof (delegation_len d Hd) as Hl. pose proof (len_nonneg t). unfold deserialize_delegation.
  replace (_ <? _) with false by (unfold DELEGATION_WIRE; len_lia). unfold serialize_delegation. rewrite <- ?app_assoc.
  destruct Hd; unfold arr in *; destruct_and?. repeat read_field. by destruct d.
Qed.

Lemma receipt_len r : receipt_ok r -> len (serialize_receipt r) = 166.
Proof. intros [? ? [? _] [? _] [? _] [? _] [? _] _ _]. unfold serialize_receipt. len_lia. Qed.

Lemma read_receipt r t : receipt_ok r ->
  deserialize_receipt (serialize_receipt r ++ t) = Ok (set_ext (set_delegation r None) None).
Proof.
  intros Hr. pose proof (receipt_len r Hr) as Hl. pose proof (len_nonneg t). unfold deserialize_receipt.
  replace (_ <? _) with false by (unfold RECEIPT_WIRE; len_lia). unfold serialize_receipt. rewrite <- ?app_assoc.
  destruct Hr; unfold arr in *; destruct_and?. repeat read_field. by destruct r.
Qed.

Lemma len_receipt_v2 r : receipt_ok r ->
  len (serialize_receipt_v2 r) = 1 + RECEIPT_WIRE + match rc_delegation r with Some _ => DELEGATION_WIRE | None => 0 end.
Proof.
  intros Hr. pose proof (receipt_len r Hr). unfold serialize_receipt_v2, RECEIPT_WIRE, DELEGATION_WIRE. destruct Hr.
  destruct (rc_delegation r) as [d|]; [pose proof (delegation_len d ltac:(done))|]; len_lia.
Qed.

Lemma read_receipt_v2 r t : receipt_ok r ->
  deserialize_receipt_v2 (serialize_receipt_v2 r ++ t) = Ok (set_ext r None, len (serialize_receipt_v2 r)).
Proof.
  intros Hr. rewrite len_receipt_v2 by done. pose proof (receipt_len r Hr) as Hl. pose proof (len_nonneg t).
  unfold serialize_receipt_v2. rewrite <- !app_assoc. cbn [app deserialize_receipt_v2].
  set (tail := _ ++ t). assert (0 <= len tail) by apply len_nonneg.
  replace (_ <? _) with false by (unfold RECEIPT_WIRE; len_lia).
  rewrite read_receipt by done. cbn [mbind res_bind]. unfold receipt_mode.
  destruct (rc_delegation r) as [d|] eqn:Hd.
  - assert (delegation_ok d) as Hok by (destruct Hr; by rewrite Hd in *).
    pose proof (delegation_len d Hok). change (RECEIPT_MODE_DELEGATED =? RECEIPT_MODE_DIRECT) with false.
    change (RECEIPT_MODE_DELEGATED =? RECEIPT_MODE_DELEGATED) with true. cbv iota.
    replace (_ <? _) with false by (unfold tail, RECEIPT_WIRE, DELEGATION_WIRE; len_lia).
    replace (drop (Z.to_nat RECEIPT_WIRE) (serialize_receipt r ++ tail)) with tail.
    + unfold tail. rewrite read_delegation by done. cbn [mbind res_bind]. do 2 f_equal. destruct r. cbn in *. by rewrite Hd.
    + unfold len in Hl. rewrite drop_app_length'; [done|]. unfold RECEIPT_WIRE. lia.
  - change (RECEIPT_MODE_DIRECT =? RECEIPT_MODE_DIRECT) with true. cbv iota. do 2 f_equal. destruct r. cbn in *. by rewrite Hd.
Qed.

Lemma read_receipt_v3 r t : receipt_ok r ->
  deserialize_receipt_v3 (serialize_receipt_v3 r ++ t) = Ok (r, len (serialize_receipt_v3 r)).
Proof.
  intros Hr. pose proof (len_nonneg t). unfold deserialize_receipt_v3, serialize_receipt_v3. rewrite <- !app_assoc.
  rewrite read_receipt_v2 by done. cbn [mbind res_bind].
  set (v2 := serialize_receipt_v2 r) in *. pose proof (len_nonneg v2).
  assert (forall l (rest : bytes), len v2 = l -> idx (E := string) (v2 ++ rest) l = idx rest 0) as Hidx.
  { intros l rest <-. unfold idx. replace (len v2 <? 0) with false by lia. cbn [Z.ltb Z.compare].
    unfold len. rewrite Nat2Z.id. rewrite lookup_app_r by lia. by rewrite Nat.sub_diag. }
  destruct (rc_phase20_ext r) as [x|] eqn:Hx.
  - assert (ext_ok x /\ len (serialize_ext x) < 2 ^ 32) as [Hox Hsx] by (destruct Hr; by rewrite Hx in *).
    pose proof (len_nonneg (serialize_ext x)). unfold write_sized. rewrite <- !app_assoc.
    rewrite as_u32_small by (unfold u32; lia).
    replace (_ <? _) with false by (symmetry; apply Z.ltb_ge; len_lia). rewrite Hidx by done.
    change (idx ([1] ++ ?y) 0) with (@Ok string Z 1). cbn [mbind res_bind Z.eqb Pos.eqb].
    replace (_ <? _) with false by (symmetry; apply Z.ltb_ge; len_lia).
    replace (drop _ _) with (le_bytes 4 (len (serialize_ext x)) ++ serialize_ext x ++ t).
    + rewrite rd_le4_app by (unfold u32; lia). cbn [mbind res_bind].
      replace (_ <? _) with false by (symmetry; apply Z.ltb_ge; len_lia). rewrite rd_app by done. cbn [mbind res_bind].
      rewrite read_ext by done. cbn [mbind res_bind]. do 2 f_equal; [destruct r; cbn in *; by rewrite Hx | len_lia].
    + rewrite (app_assoc v2 [1]). rewrite drop_app_length'; [done|]. rewrite length_app. unfold len. cbn. lia.
  - replace (_ <? _) with false by (symmetry; apply Z.ltb_ge; len_lia). rewrite Hidx by done.
    change (idx ([0] ++ ?y) 0) with (@Ok string Z 0). cbn [mbind res_bind Z.eqb].
    do 2 f_equal; [destruct r; cbn in *; by rewrite Hx | len_lia].
Qed.

(** ** No panic *)
Lemma delegation_total raw : deserialize_delegation raw <> Panic.
Proof.
  unfold deserialize_delegation. destruct (len raw <? _) eqn:E; [done|]. apply Z.ltb_ge in E.
  unfold DELEGATION_WIRE in E. reads_total.
Qed.

Lemma receipt_total raw : deserialize_receipt raw <> Panic.
Proof.
  unfold deserialize_receipt. destruct (len raw <? _) eqn:E; [done|]. apply Z.ltb_ge in E. unfold RECEIPT_WIRE in E. reads_total.
Qed.

Lemma receipt_v2_total raw : deserialize_receipt_v2 raw <> Panic /\
  forall r used, deserialize_receipt_v2 raw = Ok (r, used) -> 0 <= used <= len raw.
Proof.
  unfold deserialize_receipt_v2, RECEIPT_WIRE, DELEGATION_WIRE.
  destruct raw as [|mode body]; [split; [done | by intros]|]. rewrite len_cons.
  destruct (len body <? 166) eqn:E; [split; [done | by intros]|]. pose proof (receipt_total body).
  destruct (deserialize_receipt body) as [r| |]; [|split; [done | by intros]|done]. cbn [mbind res_bind].
  case_match; [split; [done | intros ? ? [= <- <-]; lia]|]. case_match; [|split; [done | by intros]].
  destruct (len body <? 166 + 226) eqn:E'; [split; [done | by intros]|].
  pose proof (delegation_total (drop (Z.to_nat 166) body)).
  destruct (deserialize_delegation _) as [d|e|]; cbn [mbind res_bind]; [|split; [done | by intros] | done].
  split; [done | intros ? ? [= <- <-]; lia].
Qed.

Lemma receipt_v3_total raw : wf_bytes raw -> deserialize_receipt_v3 raw <> Panic.
Proof.
  intros Hw. unfold deserialize_receipt_v3. destruct (receipt_v2_total raw) as [Hn Hu].
  destruct (deserialize_receipt_v2 raw) as [[r used]| |]; [|done..]. cbn [mbind res_bind]. specialize (Hu r used eq_refl).
  destruct (len raw <? used + 1) eqn:E1; [done|]. destruct (@idx_in string Z raw used) as [f ->]; [lia|]. cbn [mbind res_bind].
  cbv zeta. case_match; [done|]. case_match; [|done]. destruct (len raw <? used + 1 + 4) eqn:E2; [done|].
  assert (wf_bytes (drop (Z.to_nat (used + 1)) raw)) as Hd by (by apply Forall_drop).
  assert (len (drop (Z.to_nat (used + 1)) raw) = len raw - (used + 1)) as Hl by (unfold len in *; rewrite length_drop; lia).
  destruct (@rd_le_in string 4 (drop (Z.to_nat (used + 1)) raw)) as (l & t & Hr & Ht); [lia|]. rewrite Hr. cbn [mbind res_bind].
  apply rd_le_inv in Hr as (x & Hx & Hxl & ->). rewrite Hx in Hd. apply wf_app in Hd as [Hwx Hwt].
  pose proof (le_val_bound x Hwx). destruct (len raw <? used + 1 + 4 + le_val x) eqn:E3; [done|].
  destruct (@rd_in string (le_val x) t) as (s & u & Hs & _ & _); [lia|]. rewrite Hs. cbn [mbind res_bind].
  apply rd_inv in Hs as [-> _]. apply wf_app in Hwt as [Hws _]. pose proof (ext_total s Hws).
  by destruct (deserialize_ext s).
Qed.

(** ** The root over the receipts *)
Section root_lemmas.
Context `{C : Crypto}.

Definition sha_collision : Prop := exists x y, x <> y /\ sha256 x = sha256 y.

Lemma sha_eq x y : sha256 x = sha256 y -> x = y \/ sha_collision.
Proof. intros He. destruct (decide (x = y)); [by left | right; by exists x, y]. Qed.

Lemma delegation_digest_binds d1 d2 : delegation_ok d1 -> delegation_ok d2 ->
  delegation_digest d1 = delegation_digest d2 -> d1 = d2 \/ sha_collision.
Proof.
  intros H1 H2 [He|Hc]%sha_eq; [left | by right]. pose proof (read_delegation d1 [] H1) as R1.
  pose proof (read_delegation d2 [] H2) as R2. rewrite He, R2 in R1. by injection R1.
Qed.

Lemma ext_digest_binds x1 x2 : ext_ok x1 -> ext_ok x2 -> ext_digest x1 = ext_digest x2 -> x1 = x2 \/ sha_collision.
Proof.
  intros H1 H2 [He|Hc]%sha_eq; [left | by right]. pose proof (read_ext x1 H1) as R1. pose proof (read_ext x2 H2) as R2.
  rewrite He, R2 in R1. by injection R1.
Qed.

(** An extension is longer than a delegation. *)
Lemma ext_not_delegation x d : ext_ok x -> delegation_ok d -> ext_digest x = delegation_digest d -> sha_collision.
Proof.
  intros Hx Hd [He|Hc]%sha_eq; [exfalso | done]. apply (f_equal len) in He. rewrite delegation_len in He by done.
  destruct Hx as [Hr Hc1%claim_len Hc2%claim_len Hc3%claim_len _ [Hp _] _ _]. apply role_reward_len in Hr.
  unfold serialize_ext, write_claim in He. revert He. autorewrite with lens. cbn [Z.of_nat].
  pose proof (len_nonneg (write_precommit (x_precommit_root x) (existsb (fun k => present k (x_sections x)) all_kinds))).
  pose proof (len_nonneg (concat (write_section <$> section_bodies (x_sections x)))). lia.
Qed.

Context {CL : CryptoLaws C}.

Lemma digest_app_inj (a b s t : bytes) : len (sha256 a) = 32 /\ sha256 a ++ s = sha256 b ++ t -> sha256 a = sha256 b /\ s = t.
Proof.
  intros [_ He]. apply app_inj_1 in He; [done|]. pose proof (sha256_arr a) as [Ha _]. pose proof (sha256_arr b) as [Hb _].
  unfold len in *. lia.
Qed.

Lemma bound_digests_bind r1 r2 : receipt_ok r1 -> receipt_ok r2 -> bound_digests true r1 = bound_digests true r2 ->
  (rc_delegation r1 = rc_delegation r2 /\ rc_phase20_ext r1 = rc_phase20_ext r2) \/ sha_collision.
Proof.
  intros H1 H2. unfold bound_digests. destruct H1 as [_ _ _ _ _ _ _ D1 X1], H2 as [_ _ _ _ _ _ _ D2 X2].
  assert (forall x, len (sha256 x) = 32) as Hl by (intros x; apply sha256_arr).
  assert (forall x s t, sha256 x ++ s = t -> 32 <= len t) as Hlong.
  { intros x s t <-. rewrite len_app, Hl. pose proof (len_nonneg s). lia. }
  unfold delegation_digest, ext_digest.
  destruct (rc_delegation r1) as [d1|], (rc_delegation r2) as [d2|], (rc_phase20_ext r1) as [x1|], (rc_phase20_ext r2) as [x2|];
    cbn [from_option app] in *; rewrite ?app_nil_r; intros He; try (by left);
    try (apply (f_equal len) in He; rewrite ?len_app, ?Hl in He; change (len []) with 0 in He; lia).
  - destruct (digest_app_inj (serialize_delegation d1) (serialize_delegation d2) _ _ (conj (Hl _) He)) as [Ed Ex].
    destruct (delegation_digest_binds d1 d2 D1 D2 Ed) as [->|]; [|by right].
    destruct (ext_digest_binds x1 x2 (proj1 X1) (proj1 X2) Ex) as [->|]; [by left | by right].
  - destruct (delegation_digest_binds d1 d2 D1 D2 He) as [->|]; [by left | by right].
  - right. by apply (ext_not_delegation x2 d1 (proj1 X2) D1).
  - right. by apply (ext_not_delegation x1 d2 (proj1 X1) D2).
  - destruct (ext_digest_binds x1 x2 (proj1 X1) (proj1 X2) He) as [->|]; [by left | by right].
Qed.

Lemma inner_binds r1 r2 : receipt_ok r1 -> receipt_ok r2 ->
  receipt_inner_audit true r1 = receipt_inner_audit true r2 -> r1 = r2 \/ sha_collision.
Proof.
  intros H1 H2 [He|Hc]%sha_eq; [|by right].
  pose proof H1 as [Hh1 Hl1 [? _] [? _] [? _] [? _] [? _] _ _]. pose proof H2 as [Hh2 Hl2 [? _] [? _] [? _] [? _] [? _] _ _].
  unfold len in *. apply app_inj_1 in He as [Eh He]; [|by rewrite !length_le_bytes].
  apply (f_equal le_val) in Eh. rewrite !le_val_bytes in Eh by done.
  do 6 (apply app_inj_1 in He as [? He]; [|done || lia]).
  destruct (bound_digests_bind r1 r2 H1 H2 He) as [[Ed Ex]|]; [left | by right]. destruct r1, r2. cbn in *. congruence.
Qed.

Lemma inners_bind l1 l2 : Forall receipt_ok l1 -> Forall receipt_ok l2 ->
  receipt_inner_audit true <$> l1 = receipt_inner_audit true <$> l2 -> l1 = l2 \/ sha_collision.
Proof.
  intros H1. revert l2. induction H1 as [|r1 l1 Hr1 H1 IH]; intros l2 H2 He.
  - left. destruct l2; [done|]. discriminate He.
  - destruct H2 as [|r2 l2 Hr2 H2]; [discriminate He|]. cbn [fmap list_fmap] in He. injection He as Er Els.
    destruct (inner_binds r1 r2 Hr1 Hr2 Er) as [->|]; [|by right]. destruct (IH l2 H2 Els) as [->|]; [by left | by right].
Qed.

Lemma audit_root_binds l1 l2 : Forall receipt_ok l1 -> Forall receipt_ok l2 ->
  irx1_root_from_block_receipts_audit l1 true true = irx1_root_from_block_receipts_audit l2 true true ->
  l1 ≡ₚ l2 \/ sha_collision.
Proof.
  intros H1 H2. unfold irx1_root_from_block_receipts_audit. cbn [negb]. intros [He|]%sha_eq; [|by right].
  assert (forall l, Forall (fun x => length x = 32%nat) (merge_sort bytes_le (receipt_inner_audit true <$> l))) as Hl.
  { intros l. rewrite merge_sort_Permutation. apply Forall_fmap, Forall_true. intros r. unfold receipt_inner_audit. cbn -[sha256].
    match goal with |- context [sha256 ?x] => pose proof (sha256_arr x) as [Hx _] end. unfold len in Hx. lia. }
  apply (concat_inj 32) in He; [|lia | by apply Hl..].
  assert (receipt_inner_audit true <$> l1 ≡ₚ receipt_inner_audit true <$> l2) as Hp.
  { rewrite <- (merge_sort_Permutation bytes_le (receipt_inner_audit true <$> l1)), He. apply merge_sort_Permutation. }
  apply Permutation_map_inv in Hp as (l3 & Hm & Hp).
  destruct (inners_bind l1 l3) as [->|]; [done | by rewrite <- Hp | exact Hm | left; by symmetry | by right].
Qed.
End root_lemmas.

(** ** Theorems *)

(** Receipts travel faithfully: a well-formed receipt, with any delegation
    and any extension with any of the ten sections, is read back from its v3
    form, whatever follows it, and the decoder reports its length; the extension
    alone is read back from its bytes; and on arbitrary bytes the decoders of
    receipts, delegations and extensions end without a panic. *)
Theorem receipt_codec (r : PoawxBlockReceipt) t raw :
  receipt_ok r -> wf_bytes raw ->
  deserialize_receipt_v3 (serialize_receipt_v3 r ++ t) = Ok (r, len (serialize_receipt_v3 r)) /\
  (forall x, rc_phase20_ext r = Some x -> deserialize_ext (serialize_ext x) = Ok x) /\
  deserialize_receipt_v3 raw <> Panic /\ deserialize_ext raw <> Panic /\ deserialize_delegation raw <> Panic.
Proof.
  intros Hr Hw. split_and!; [by apply read_receipt_v3 | | by apply receipt_v3_total | by apply ext_total | apply delegation_total].
  intros x Hx. apply read_ext. destruct Hr as [_ _ _ _ _ _ _ _ Ho]. rewrite Hx in Ho. apply Ho.
Qed.

(** A delegated receipt with an extension of four sections. *)
Definition sample_claim (role : Z) (commitment : option bytes) : PoawxRoleClaim :=
  {| cl_role_id := role; cl_lane_id := 0; cl_solver_pkh := zeros 20; cl_nonce := zeros 32; cl_secret := zeros 32;
     cl_claim_digest := zeros 32; cl_commitment_hash := commitment |}.
Definition sample_registration : ProposerRegistrationV1 :=
  {| pr_vrf_pubkey := zeros 33; pr_anchor_height := 5; pr_sybil_nonce := zeros 32; pr_sybil_digest := zeros 32;
     pr_signature := zeros 64 |}.
Definition sample_sections : Sections :=
  {| role_ticket_proofs := None; role_dominance_weights := Some [1000; 500; 250; 1]; candidate_set := Some (CandidateSet_new 1 9 (zeros 32));
     role_puzzle_proofs := None; finality_proof := Some (FinalityProofV1_new 1 8 (zeros 32) (zeros 32) 0 2 3);
     committed_admission := None; role_assignment_v2 := None; fraud_proofs := None; proposer_assignment := None;
     proposer_registrations := Some {| announces := [sample_registration]; activations := [] |} |}.
Definition sample_ext : Phase20ReceiptExt :=
  {| x_role_reward := {| compute_contributor_pkh := zeros 20; verify_contributor_pkh := zeros 20;
                         support_contributor_pkh := zeros 20 |};
     x_compute_claim := sample_claim 1 None; x_verify_claim := sample_claim 2 (Some (zeros 32));
     x_support_claim := sample_claim 3 None; x_fee_bps := 100; x_fee_pkh := zeros 20; x_precommit_root := None;
     x_sections := sample_sections |}.
Definition sample_delegation : Delegation :=
  {| dg_version := 1; dg_network_id := 1; dg_miner_pubkey := zeros 33; dg_pool_pubkey := zeros 33; dg_worker_tag := zeros 32;
     dg_expiry_height := 700; dg_fee_bps := 100; dg_fee_pkh := zeros 20; dg_nonce := zeros 32; dg_sig := zeros 64 |}.
Definition sample_receipt : PoawxBlockReceipt :=
  {| rc_height := 9; rc_lane := 65; rc_worker_pkh := zeros 20; rc_worker_pubkey := zeros 33; rc_worker_sig := zeros 64;
     rc_solution := zeros 8; rc_commitment_nonce := zeros 32; rc_delegation := Some sample_delegation;
     rc_phase20_ext := Some sample_ext |}.

Lemma arr_zeros n : arr (Z.of_nat n) (zeros n).
Proof. split; [unfold len, zeros; by rewrite length_replicate | by apply Forall_replicate]. Qed.

Ltac zeros_ok :=
  first [ apply (arr_zeros 20) | apply (arr_zeros 32) | apply (arr_zeros 33) | apply (arr_zeros 64) | apply (arr_zeros 8)
        | lazymatch goal with |- u8 _ => split; lia | |- u16 _ => split; lia | |- u32 _ => split; lia | |- u64 _ => split; lia end | exact I ].

Lemma sample_claim_ok role o : u8 role -> from_option (arr 32) True o -> claim_ok (sample_claim role o).
Proof. intros Hr Ho. split; cbn; [done | zeros_ok..| done]. Qed.

Lemma sample_sections_ok : Forall body_ok (section_bodies sample_sections).
Proof.
  unfold section_bodies. cbn [sample_sections role_ticket_proofs role_dominance_weights candidate_set role_puzzle_proofs
    finality_proof committed_admission role_assignment_v2 fraud_proofs proposer_assignment proposer_registrations bodies_of app].
  repeat apply Forall_cons_2; [| | | |apply Forall_nil_2]; cbn [body_ok announces activations].
  - split; [done|]. repeat apply Forall_cons_2; [zeros_ok..|apply Forall_nil_2].
  - split; cbn; [zeros_ok..|apply Forall_nil_2 | by vm_compute].
  - split; cbn; unfold FINALITY_PROOF_VERSION; [zeros_ok..|apply Forall_nil_2 | by vm_compute].
  - split; (split; [by vm_compute|]); [|apply Forall_nil_2]. apply Forall_cons_2; [|apply Forall_nil_2]. split; cbn; zeros_ok.
Qed.

Lemma sample_receipt_ok : receipt_ok sample_receipt.
Proof.
  split; cbn [sample_receipt rc_height rc_lane rc_worker_pkh rc_worker_pubkey rc_worker_sig rc_solution rc_commitment_nonce
    rc_delegation rc_phase20_ext from_option]; try zeros_ok.
  - split; cbn; zeros_ok.
  - split; [|vm_compute; reflexivity]. split; cbn [sample_ext x_role_reward x_compute_claim x_verify_claim x_support_claim
      x_fee_bps x_fee_pkh x_precommit_root x_sections from_option]; try zeros_ok.
    + split; cbn; zeros_ok.
    + apply sample_claim_ok; zeros_ok.
    + apply sample_claim_ok; [zeros_ok|]. cbn. zeros_ok.
    + apply sample_claim_ok; zeros_ok.
    + apply sample_sections_ok.
Qed.

Lemma receipt_codec_witness :
  deserialize_receipt_v3 (serialize_receipt_v3 sample_receipt ++ [7]) =
    Ok (sample_receipt, len (serialize_receipt_v3 sample_receipt)) /\
  deserialize_ext (serialize_ext sample_ext) = Ok sample_ext.
Proof.
  destruct (receipt_codec sample_receipt [7] (zeros 32) sample_receipt_ok (proj2 (arr_zeros 32))) as (H1 & H2 & _).
  split; [exact H1 | exact (H2 _ eq_refl)].
Defined.

(** The receipts root of the audit rules is a commitment: it does not depend
    on the order of the receipts, and well-formed receipts with the same root are
    the same receipts, signatures, delegations and extensions included, or they
    exhibit a collision of SHA-256. *)
Theorem receipts_root_commits `{C : Crypto} {CL : CryptoLaws C} (l1 l2 : list PoawxBlockReceipt) (phase20 : bool) :
  (l1 ≡ₚ l2 -> irx1_root_from_block_receipts_audit l1 phase20 true = irx1_root_from_block_receipts_audit l2 phase20 true) /\
  (Forall receipt_ok l1 -> Forall receipt_ok l2 ->
   irx1_root_from_block_receipts_audit l1 true true = irx1_root_from_block_receipts_audit l2 true true ->
   l1 ≡ₚ l2 \/ exists x y, x <> y /\ sha256 x = sha256 y).
Proof.
  split; [|by apply audit_root_binds]. intros Hp. unfold irx1_root_from_block_receipts_audit. cbn [negb]. do 2 f_equal.
  apply sort_unique. by rewrite Hp.
Qed.

Lemma receipts_root_commits_witness :
  irx1_root_from_block_receipts_audit [sample_receipt; set_ext sample_receipt None] true true =
  irx1_root_from_block_receipts_audit [set_ext sample_receipt None; sample_receipt] true true.
Proof.
  apply (proj1 (receipts_root_commits [sample_receipt; set_ext sample_receipt None]
    [set_ext sample_receipt None; sample_receipt] true)). apply perm_swap.
Defined.
