(* ===== verification/Chain.v ===== *)
(** * Chain: connecting and disconnecting blocks ([src/src/chain.rs]:
    [validate_block_header], [connect_genesis], [connect_block],
    [is_hash_on_main_chain], [disconnect_tip_block], [prune_block_store])

    [ChainState] without the caches of unconnected headers and orphans.  The
    reward extension PoAW-X ([src/src/poawx*.rs]) is an interface: the class
    [Poawx] has the state it keeps, the checks [connect_block] runs, and what
    it does when a block is connected or disconnected.  Every theorem here
    holds for any such extension, in particular for the one that is switched
    off.  The clock, the environment and the activation height of the standard
    header encoding are arguments.

    Shown here: the number of coins never exceeds what was issued, nor that the
    cap; a connected block extends the tip with a valid proof of work;
    disconnecting the tip takes back exactly what connecting it did; the stored
    work is the work of the chain. *)

From S2P Require Import Prelude Crypto Pow Script TxCodec Activation Constants Merkle.
From S2P Require Import Header AuxPow Difficulty Spv Spend Ledger.

(** ** Blocks ([src/src/block.rs]); [R] is the type of the receipts *)
Record Block (R : Type) := {
  bheader : BlockHeader;
  transactions : list Transaction;
  auxpow : option AuxPoW;
  poawx_receipts : option (list R)
}.
Arguments bheader {R} _.
Arguments transactions {R} _.
Arguments auxpow {R} _.
Arguments poawx_receipts {R} _.

(** ** The interface to PoAW-X *)
Class Poawx (R : Type) := {
  PState : Type;
  (** the [validate_poawx_*] and [validate_block_*] calls of [connect_block] *)
  poawx_validate : PState -> list (Block R) -> Block R -> Z -> res string unit;
  (** [apply_block_*] and [update_adaptive_mode]; the chain includes the block *)
  poawx_apply : PState -> list (Block R) -> Z -> PState;
  (** whether the block finalizes its parent *)
  poawx_finalizes : PState -> list (Block R) -> Z -> bool;
  (** [revert_block_*] and the reorg counter *)
  poawx_revert : PState -> list (Block R) -> Block R -> Z -> PState
}.

(** The extension that is switched off. *)
#[export] Instance poawx_off : Poawx Empty_set := {|
  PState := unit;
  poawx_validate := fun _ _ _ _ => Ok tt;
  poawx_apply := fun s _ _ => s;
  poawx_finalizes := fun _ _ _ => false;
  poawx_revert := fun s _ _ _ => s
|}.

(** ** State *)
Record ChainState (R : Type) `{P : Poawx R} := {
  ledger : Ledger;
  height : Z;
  chain : list (Block R);
  total_work : Z;
  issued : Z;
  block_store : gmap bytes (Block R);
  heights : gmap bytes Z;
  cumulative_work : gmap bytes Z;
  best_tip : bytes;
  undo_logs : gmap bytes BlockUndo;
  poawx_state : PState;
  finalized_height : Z
}.
Arguments ledger {R P} _.
Arguments height {R P} _.
Arguments chain {R P} _.
Arguments total_work {R P} _.
Arguments issued {R P} _.
Arguments block_store {R P} _.
Arguments heights {R P} _.
Arguments cumulative_work {R P} _.
Arguments best_tip {R P} _.
Arguments undo_logs {R P} _.
Arguments poawx_state {R P} _.
Arguments finalized_height {R P} _.

Section chain.
Context `{C : Crypto} `{P : Poawx R} (env : Env) (p : ChainParams).
(** [std_header_activation]: when the standard header encoding starts;
    [now]: the clock; [window]: [block_store_window()]. *)
Context (std_header_activation now window : Z).

Abbreviation hash_at := (hash_for_height std_header_activation).

Definition tip_height (st : ChainState R) : Z := sat_sub (height st) 1.

Definition block_work (b : Block R) : Z := work_for_target (target (bheader b)).

(** [Block::merkle_root] *)
Definition block_merkle_root (b : Block R) : bytes :=
  match transactions b with
  | [] => zeros 32
  | txs => merkle_root_of ((fun tx => rev (txid tx)) <$> txs)
  end.

(** ** Headers *)

(** The check against the previous block: it is the tip, or there is none. *)
Definition check_parent (h : BlockHeader) (height : Z) (previous : option (Block R)) : res string unit :=
  match previous with
  | Some prev =>
      if negb (beqb (prev_hash h) (hash_at (bheader prev) (sat_sub height 1)))
      then Err "Block does not extend the current tip"%string else Ok tt
  | None =>
      if negb (beqb (prev_hash h) (zeros 32))
      then Err "Genesis block must reference null hash"%string else Ok tt
  end.

Definition check_time (h : BlockHeader) (height : Z) (previous : option (Block R))
    (chain : list (Block R)) : res string unit :=
  if now + MAX_FUTURE_BLOCK_TIME <? time h then Err "Block timestamp too far in future"%string else
  if MTP_ACTIVATION_HEIGHT <=? height then
    if time h <=? median_time_past (bheader <$> chain)
    then Err "Block timestamp must be greater than median time past"%string else Ok tt
  else
    match previous with
    | Some prev =>
        if time h <=? time (bheader prev)
        then Err "Block timestamp must be greater than previous block"%string else Ok tt
    | None => Ok tt
    end.

Definition auxpow_active (height : Z) : bool := active_at (auxpow_activation_height p) height.

(** The proof of work: the parent chain's for a merge-mined block, else the
    header's own hash in one of its two forms. *)
Definition check_pow (b : Block R) (height : Z) (t : Target) : res string unit :=
  let h := bheader b in
  if negb (Z.land (version h) AUXPOW_VERSION_BIT =? 0) && auxpow_active height then
    ap ← ok_or (auxpow b) "AuxPoW block is missing AuxPoW data"%string;
    AuxPow.validate ap (serialize_with_activation h height std_header_activation) t
  else if negb (meets_target (hash_at h height) t)
          && negb (match whatsminer_compat_pow_hash_for_height std_header_activation h height with
                   | Some w => meets_target w t | None => false end)
  then Err "Block does not satisfy proof-of-work target"%string
  else Ok tt.

Definition validate_block_header (chain : list (Block R)) (b : Block R) (height : Z)
    (previous : option (Block R)) : res string unit :=
  let h := bheader b in
  _ ← check_parent h height previous;
  _ ← check_time h height previous chain;
  _ ← (if (0 <? height) && negb (beqb (merkle_root h) (block_merkle_root b))
       then Err "Block merkle root mismatch"%string else Ok tt);
  t ← target_for_height env (genesis_header p) (pow_limit p) (lwma p) (lwma_v2 p)
        (bheader <$> chain) height;
  if negb (bits (target h) =? bits t) then Err "Block bits mismatch"%string else
  check_pow b height t.

(** ** The block store *)
Definition is_hash_on_main_chain (st : ChainState R) (hash : bytes) : option Z :=
  h ← heights st !! hash;
  match chain st !! Z.to_nat h with
  | Some b => if beqb (hash_at (bheader b) h) hash then Some h else None
  | None => None
  end.

(** [prune_block_store]: connected blocks far below the tip leave the store. *)
Definition prunable (min_height : Z) (chain : list (Block R)) (heights : gmap bytes Z) (hash : bytes)
    : bool :=
  match heights !! hash with
  | Some h =>
      (h <=? min_height) &&
      match chain !! Z.to_nat h with
      | Some b => beqb (hash_at (bheader b) h) hash
      | None => false
      end
  | None => false
  end.

Definition prune_block_store (tip : Z) (chain : list (Block R)) (heights : gmap bytes Z)
    (store : gmap bytes (Block R)) : gmap bytes (Block R) :=
  if (window =? 0) || (tip <=? window) then store else
  let min_height := sat_sub tip window in
  filter (fun kb => prunable min_height chain heights kb.1 = false) store.

(** ** Connecting *)
Definition set_ledger (st : ChainState R) (l : Ledger) : ChainState R :=
  {| ledger := l; height := height st; chain := chain st; total_work := total_work st;
     issued := issued st; block_store := block_store st; heights := heights st;
     cumulative_work := cumulative_work st; best_tip := best_tip st; undo_logs := undo_logs st;
     poawx_state := poawx_state st; finalized_height := finalized_height st |}.

(** What [connect_block] does once the block is valid. *)
Definition push_block (st : ChainState R) (b : Block R) (l : Ledger) (undo : BlockUndo)
    (new_supply : Z) : ChainState R :=
  let h := height st in
  let hash := hash_at (bheader b) h in
  let work := total_work st + block_work b in
  let chain := chain st ++ [b] in
  let heights := <[hash := h]> (heights st) in
  let ps := poawx_apply (poawx_state st) chain h in
  {| ledger := l;
     height := h + 1;
     chain := chain;
     total_work := work;
     issued := new_supply;
     block_store := prune_block_store (sat_sub (h + 1) 1) chain heights (<[hash := b]> (block_store st));
     heights := heights;
     cumulative_work := <[hash := work]> (cumulative_work st);
     best_tip := hash;
     undo_logs := <[hash := undo]> (undo_logs st);
     poawx_state := ps;
     finalized_height :=
       if poawx_finalizes ps chain h then Z.max (finalized_height st) (sat_sub h 1)
       else finalized_height st |}.

Definition connect_block (st : ChainState R) (b : Block R) : ChainState R * res BlockError unit :=
  let expected_height := height st in
  let checks :=
    _ ← validate_block_header (chain st) b expected_height (last (chain st));
    poawx_validate (poawx_state st) (chain st) b expected_height in
  match checks with
  | Panic => (st, Panic)
  | Err e => (st, Err (Msg e))
  | Ok _ =>
      match validate_and_apply_transactions env p (ledger st) (transactions b) (time (bheader b))
              (block_reward env expected_height) expected_height true
              (Some (as_u64 (MAX_MONEY - issued st))) with
      | (l, Panic) => (set_ledger st l, Panic)
      | (l, Err e) => (set_ledger st l, Err e)
      | (l, Ok (_, _, subsidy, undo)) =>
          match checked_add64 (issued st) subsidy with
          | None => (set_ledger st l, Err (Msg "Supply overflow"))
          | Some new_supply => (push_block st b l undo new_supply, Ok tt)
          end
      end
  end.

(** [ChainState::new] up to [connect_genesis], and the entries it adds. *)
Definition empty_ledger : Ledger :=
  {| utxos := ∅; btc := RelayState_new; claimed_btc_outpoints := ∅;
     ltc := RelayState_new; claimed_ltc_outpoints := ∅ |}.

Definition new_chain (genesis : Block R) (ps : PState) : res BlockError (ChainState R) :=
  _ ← map_err Msg (validate_block_header [] genesis 0 None);
  match validate_and_apply_transactions env p empty_ledger (transactions genesis)
          (time (bheader genesis)) 0 0 false (Some MAX_MONEY) with
  | (_, Panic) => Panic
  | (_, Err e) => Err e
  | (l, Ok (_, _, subsidy, _)) =>
      let hash := hash_at (bheader genesis) 0 in
      let work := block_work genesis in
      Ok {| ledger := l; height := 1; chain := [genesis]; total_work := work; issued := subsidy;
            block_store := {[hash := genesis]}; heights := {[hash := 0]};
            cumulative_work := {[hash := work]}; best_tip := hash; undo_logs := ∅;
            poawx_state := ps; finalized_height := 0 |}
  end.

(** ** Disconnecting *)
Definition disconnect_tip_block (st : ChainState R) : res string (Block R * ChainState R) :=
  match last (chain st) with
  | None => Err "cannot disconnect empty chain"%string
  | Some tip_block =>
      if (length (chain st) <=? 1)%nat then Err "cannot disconnect genesis"%string else
      let h := tip_height st in
      let tip_hash := hash_at (bheader tip_block) h in
      match undo_logs st !! tip_hash with
      | None => Err "missing undo data for tip block"%string
      | Some undo =>
          let work := block_work tip_block in
          let chain := take (length (chain st) - 1) (chain st) in
          let height := len chain in
          let new_tip := sat_sub height 1 in
          Ok (tip_block,
              {| ledger := undo_block undo (ledger st);
                 height := height;
                 chain := chain;
                 total_work := if work <=? total_work st then total_work st - work else 0;
                 issued := sat_sub (issued st) (subsidy_created undo);
                 block_store := block_store st;
                 heights := heights st;
                 cumulative_work := cumulative_work st;
                 best_tip := match last chain with
                             | Some b => hash_at (bheader b) new_tip | None => zeros 32 end;
                 undo_logs := delete tip_hash (undo_logs st);
                 poawx_state := poawx_revert (poawx_state st) chain tip_block h;
                 finalized_height := Z.min (finalized_height st) (sat_sub new_tip 1) |})
      end
  end.
End chain.

(** ** What a connected block satisfies *)
Section invariant.
Context `{C : Crypto} `{P : Poawx R} (env : Env) (p : ChainParams).
Context (std_header_activation now window : Z).
Abbreviation hash_at := (hash_for_height std_header_activation).
Abbreviation connect := (connect_block env p std_header_activation now window).
Abbreviation disconnect := (disconnect_tip_block std_header_activation).

Lemma block_work_nonneg (b : Block R) : 0 <= block_work b.
Proof.
  unfold block_work, work_for_target. case_match; [lia|].
  apply Z.div_pos; [lia|]. pose proof (to_target_nonneg (target (bheader b))). lia.
Qed.

Lemma connect_ok st b st' :
  connect st b = (st', Ok tt) ->
  exists l f total subsidy undo s,
    validate_block_header env p std_header_activation now (chain st) b (height st) (last (chain st)) = Ok tt /\
    validate_and_apply_transactions env p (ledger st) (transactions b) (time (bheader b))
      (block_reward env (height st)) (height st) true (Some (as_u64 (MAX_MONEY - issued st)))
      = (l, Ok (f, total, subsidy, undo)) /\
    checked_add64 (issued st) subsidy = Some s /\
    st' = push_block std_header_activation window st b l undo s.
Proof.
  unfold connect_block. intros H.
  destruct (validate_block_header _ _ _ _ _ _ _ _) as [[]| |] eqn:Hv; bind_simpl_in H; [|done..].
  destruct (poawx_validate _ _ _ _) as [[]| |]; [|done..].
  destruct (validate_and_apply_transactions _ _ _ _ _ _ _ _ _) as [l [[[[f t] s] u]| |]] eqn:Ha; [|done..].
  destruct (checked_add64 _ _) as [n|] eqn:Hs; [|done]. injection H as <-.
  exists l, f, t, s, u, n. split_and!; done.
Qed.

(** A header that passed: it names its parent, commits to the transactions,
    carries the bits the retarget asks for and meets them. *)
Lemma header_ok (bs : list (Block R)) b h :
  validate_block_header env p std_header_activation now bs b h (last bs) = Ok tt ->
  (forall prev, last bs = Some prev -> prev_hash (bheader b) = hash_at (bheader prev) (sat_sub h 1)) /\
  time (bheader b) <= now + MAX_FUTURE_BLOCK_TIME /\
  (MTP_ACTIVATION_HEIGHT <= h -> median_time_past (bheader <$> bs) < time (bheader b)) /\
  (0 < h -> merkle_root (bheader b) = block_merkle_root b) /\
  exists t, target_for_height env (genesis_header p) (pow_limit p) (lwma p) (lwma_v2 p)
      (bheader <$> bs) h = Ok t /\
    target (bheader b) = t /\ check_pow p std_header_activation b h t = Ok tt.
Proof.
  unfold validate_block_header. intros H. invert_parser H.
  unfold check_parent, check_time in *. split_and!.
  - intros prev Hp. rewrite Hp in *. invert_parser Heqr. by apply beqb_ok.
  - clear Heqr. invert_parser Heqr0; lia.
  - intros Hm. clear Heqr. invert_parser Heqr0; lia.
  - intros Hh. assert ((0 <? h) = true) as Hh' by lia. rewrite Hh' in Heqr1. cbn [andb] in Heqr1.
    invert_parser Heqr1. by apply beqb_ok.
  - exists a2. split_and!; [done | | done]. destruct a2, (target (bheader b)) eqn:Ht. cbn in *. f_equal. lia.
Qed.

(** ** The invariant *)

(** The coins of a ledger are covered by what was issued. *)
Record funds_ok (u : gmap OutPoint UtxoEntry) (issued : Z) : Prop := {
  fo_amounts : amounts u;
  fo_supply : supply u <= issued;
  fo_issued : 0 <= issued <= MAX_MONEY
}.

(** [backed u i bs logs]: for the chain [bs], tip first, the undo logs lead from
    the coins [u] back to those after the genesis block, through coins that are
    covered.  A log may be missing, then the chain is never cut there; and
    undoing may give fewer coins than there were. *)
Inductive backed : gmap OutPoint UtxoEntry -> Z -> list (Block R) -> gmap bytes BlockUndo -> Prop :=
| backed_genesis u i b logs : funds_ok u i -> backed u i [b] logs
| backed_stuck u i b bs logs :
    funds_ok u i -> bs <> [] -> logs !! hash_at (bheader b) (len bs) = None -> backed u i (b :: bs) logs
| backed_block u i b bs logs undo u0 :
    funds_ok u i -> bs <> [] -> logs !! hash_at (bheader b) (len bs) = Some undo ->
    0 <= subsidy_created undo -> undo_utxos undo u ⊆ u0 ->
    backed u0 (i - subsidy_created undo) bs (delete (hash_at (bheader b) (len bs)) logs) ->
    backed u i (b :: bs) logs.

(** Every block names the hash of the one below it; tip first. *)
Fixpoint linked (bs : list (Block R)) : Prop :=
  match bs with
  | b :: ((b' :: _) as bs') =>
      prev_hash (bheader b) = hash_at (bheader b') (len bs' - 1) /\ linked bs'
  | _ => True
  end.

Record chain_ok (st : ChainState R) : Prop := {
  co_backed : backed (utxos (ledger st)) (issued st) (rev (chain st)) (undo_logs st);
  co_linked : linked (rev (chain st));
  co_height : height st = len (chain st);
  co_work : total_work st = zsum (block_work <$> chain st)
}.

Lemma backed_funds u i bs logs : backed u i bs logs -> funds_ok u i.
Proof. by destruct 1. Qed.

Lemma backed_nonempty u i bs logs : backed u i bs logs -> bs <> [].
Proof. by destruct 1. Qed.

Lemma funds_ok_subseteq u v i : v ⊆ u -> funds_ok u i -> funds_ok v i.
Proof.
  intros Hv [Ha Hs Hi]. pose proof (supply_subseteq _ _ Hv Ha).
  split; [by eapply amounts_subseteq | lia | done].
Qed.

(** Fewer coins and fewer logs are still backed. *)
Lemma backed_subseteq u i bs logs : backed u i bs logs ->
  forall v logs', v ⊆ u -> logs' ⊆ logs -> backed v i bs logs'.
Proof.
  induction 1 as [u i b logs Hf | u i b bs logs Hf Hne Hl | u i b bs logs undo u0 Hf Hne Hl Hs Hu _ IH];
    intros v logs' Hv Hlogs; pose proof (funds_ok_subseteq _ _ _ Hv Hf).
  - by constructor.
  - apply backed_stuck; [done..|]. by eapply lookup_weaken_None.
  - destruct (logs' !! hash_at (bheader b) (len bs)) as [undo'|] eqn:Hl'; [|by apply backed_stuck].
    assert (undo' = undo) as -> by (eapply lookup_weaken in Hl'; [|exact Hlogs]; congruence).
    eapply backed_block; [done..| |].
    + etransitivity; [by apply undo_utxos_mono | exact Hu].
    + apply IH; [done | by apply delete_mono].
Qed.

Lemma zsum_works_nonneg (bs : list (Block R)) : 0 <= zsum (block_work <$> bs).
Proof.
  unfold zsum. induction bs as [|b bs IH]; cbn; [lia|]. pose proof (block_work_nonneg b). lia.
Qed.

Lemma linked_rev bs : linked (rev bs) -> forall i b b',
  bs !! i = Some b -> bs !! S i = Some b' -> prev_hash (bheader b') = hash_at (bheader b) (Z.of_nat i).
Proof.
  induction bs as [|c bs IH] using rev_ind; intros Hl i b b' Hi Hs; [done|].
  rewrite rev_unit in Hl. destruct (decide (S i < length bs)%nat) as [Hlt|Hge].
  - rewrite lookup_app_l in Hi, Hs by lia. apply IH; [|done|done].
    cbn [linked] in Hl. destruct (rev bs); [done | by destruct Hl].
  - assert (S i = length bs) as Hlen.
    { apply lookup_lt_Some in Hs. rewrite length_app in Hs. cbn in Hs. lia. }
    rewrite lookup_app_r, Hlen, Nat.sub_diag in Hs by lia. injection Hs as <-.
    rewrite lookup_app_l in Hi by lia.
    destruct bs as [|d bs _] using rev_ind; [done|]. rewrite length_app in Hlen. cbn in Hlen.
    rewrite lookup_app_r in Hi by lia. replace (i - length bs)%nat with O in Hi by lia. injection Hi as <-.
    rewrite rev_unit in Hl. destruct Hl as [-> _]. f_equal. rewrite len_cons, len_rev. unfold len. lia.
Qed.

Lemma reward_amount h : fork_wf env -> 0 <= h -> 0 <= block_reward env h <= MAX_MONEY.
Proof.
  intros Hf Hh. pose proof (block_reward_bounds env h Hf Hh). unfold INITIAL_SUBSIDY in *.
  pose proof MAX_MONEY_val. lia.
Qed.

(** A block a node can receive and that repeats nothing: transactions the wire
    format carries, no output of the name of an unspent one, a new hash. *)
Definition fresh_block (st st' : ChainState R) (b : Block R) : Prop :=
  Forall wire_tx (transactions b) /\ undo_logs st !! hash_at (bheader b) (height st) = None /\
  forall undo, undo_logs st' !! hash_at (bheader b) (height st) = Some undo ->
    forall op, op ∈ undo_created undo -> utxos (ledger st) !! op = None.

(** The state after disconnecting the block [b] that led from [st] to [st']. *)
Definition cut_back (st st' : ChainState R) (b : Block R) : ChainState R :=
  {| ledger := ledger st; height := height st; chain := chain st; total_work := total_work st;
     issued := issued st; block_store := block_store st'; heights := heights st';
     cumulative_work := cumulative_work st';
     best_tip := match last (chain st) with
                 | Some b => hash_at (bheader b) (sat_sub (height st) 1) | None => zeros 32 end;
     undo_logs := undo_logs st;
     poawx_state := poawx_revert (poawx_state st') (chain st) b (height st);
     finalized_height := Z.min (finalized_height st') (sat_sub (sat_sub (height st) 1) 1) |}.

(** What applying the transactions of a connected block did. *)
Lemma connect_effect st b st' :
  fork_wf env -> chain_ok st -> connect st b = (st', Ok tt) -> Forall wire_tx (transactions b) ->
  exists l undo, st' = push_block std_header_activation window st b l undo
      (issued st + subsidy_created undo) /\
    block_effect p (ledger st) l (transactions b) (block_reward env (height st)) true
      (Some (MAX_MONEY - issued st)) (subsidy_created undo) undo.
Proof.
  intros Hf [Hb Hl Hh Hwk] H Hw.
  apply connect_ok in H as (l & f & t & s & u & n & Hv & Ha & Hs & ->).
  pose proof (backed_funds _ _ _ _ Hb) as [Hlo Hsup Hiss].
  pose proof MAX_MONEY_val. pose proof (len_nonneg (chain st)).
  rewrite as_u64_small in Ha by lia.
  apply apply_block_ok in Ha; [|done|done|apply reward_amount; [done|lia]].
  assert (subsidy_created u = s) as Hus by apply Ha.
  unfold checked_add64 in Hs. destruct (_ <=? U64_MAX); [|done]. injection Hs as <-.
  exists l, u. by rewrite Hus.
Qed.

Lemma connect_chain_ok st b st' :
  fork_wf env -> chain_ok st -> connect st b = (st', Ok tt) -> Forall wire_tx (transactions b) ->
  chain_ok st'.
Proof.
  intros Hf Hok H Hw. pose proof H as Hc.
  apply connect_ok in Hc as (_ & _ & _ & _ & _ & _ & Hv & _). apply header_ok in Hv as (Hpar & _).
  destruct (connect_effect _ _ _ Hf Hok H Hw) as (l & u & -> & [Ham _ Hsp Hs0 _ Hmax _ _ _ _ Hu _ _ _ _ _ _]).
  specialize (Hmax _ eq_refl). destruct Hok as [Hb Hl Hh Hwk].
  pose proof (backed_funds _ _ _ _ Hb) as [Hlo Hsup Hiss].
  assert (rev (chain st ++ [b]) = b :: rev (chain st)) as Hrev by apply rev_unit.
  assert (len (rev (chain st)) = height st) as Hlr by (by rewrite len_rev, Hh).
  pose proof (backed_nonempty _ _ _ _ Hb) as Hne.
  split; cbn [push_block ledger issued chain undo_logs height total_work].
  - rewrite Hrev. eapply (backed_block _ _ _ _ _ u (utxos (ledger st)));
      [by split; [done|lia|lia] | done | rewrite Hlr; apply lookup_insert_eq | done | done | ].
    replace (issued st + subsidy_created u - subsidy_created u) with (issued st) by lia.
    eapply backed_subseteq; [exact Hb | done |].
    rewrite Hlr, delete_insert_eq. apply delete_subseteq.
  - rewrite Hrev. destruct (rev (chain st)) as [|b' bs] eqn:Hr; [done|]. split; [|done].
    rewrite Hlr. assert (last (chain st) = Some b') as Hlast.
    { rewrite <- (rev_involutive (chain st)), Hr. cbn [rev]. apply last_snoc. }
    rewrite (Hpar _ Hlast). f_equal. rewrite len_cons in Hlr. pose proof (len_nonneg bs).
    unfold sat_sub. lia.
  - rewrite len_app, Hh. done.
  - rewrite fmap_app, zsum_app, Hwk. unfold zsum at 3. cbn. lia.
Qed.

(** A block that repeats nothing is taken back exactly. *)
Lemma connect_disconnect st b st' :
  fork_wf env -> chain_ok st -> relays_ok p (ledger st) -> connect st b = (st', Ok tt) ->
  fresh_block st st' b -> disconnect st' = Ok (b, cut_back st st' b).
Proof.
  intros Hf Hok Hrel H (Hw & Hnew & Hfr).
  destruct (connect_effect _ _ _ Hf Hok H Hw) as (l & u & -> & [_ _ _ Hs0 _ _ _ _ _ _ _ _ Hu _ _ _ _]).
  cbn [push_block undo_logs] in Hfr. specialize (Hfr u (lookup_insert_eq _ _ _)).
  specialize (Hu Hrel Hfr). destruct Hok as [Hb Hl Hh Hwk].
  pose proof (backed_funds _ _ _ _ Hb) as [_ _ Hiss].
  pose proof (backed_nonempty _ _ _ _ Hb) as Hne.
  unfold disconnect_tip_block, cut_back. cbn [push_block chain]. rewrite last_snoc, length_app. cbn [length].
  destruct (chain st) as [|c0 cs] eqn:Hc; [done|].
  assert ((length (c0 :: cs) + 1 <=? 1)%nat = false) as -> by (apply Nat.leb_gt; cbn; lia).
  pose proof (len_nonneg (c0 :: cs)).
  unfold tip_height. cbn [push_block height].
  replace (sat_sub (height st + 1) 1) with (height st) by (unfold sat_sub; lia).
  cbn [push_block undo_logs]. rewrite lookup_insert_eq.
  replace (length (c0 :: cs) + 1 - 1)%nat with (length (c0 :: cs)) by lia.
  rewrite take_app_length. rewrite <- Hh. cbn [push_block ledger total_work issued block_store heights
    cumulative_work poawx_state finalized_height chain height].
  rewrite Hu, delete_insert_id by done. pose proof (block_work_nonneg b).
  assert (0 <= total_work st) by (rewrite Hwk; apply zsum_works_nonneg).
  replace (block_work b <=? total_work st + block_work b) with true by lia.
  replace (total_work st + block_work b - block_work b) with (total_work st) by lia.
  replace (sat_sub (issued st + subsidy_created u) (subsidy_created u)) with (issued st)
    by (unfold sat_sub; lia).
  by rewrite Hc.
Qed.

(** A refused block changes the relays at most. *)
Definition only_relays (l l' : Ledger) : Prop :=
  utxos l' = utxos l /\ claimed_btc_outpoints l' = claimed_btc_outpoints l /\
  claimed_ltc_outpoints l' = claimed_ltc_outpoints l.

Lemma refused_effect st b st' r :
  chain_ok st -> connect st b = (st', r) -> is_ok r = false ->
  exists l, st' = set_ledger st l /\ only_relays (ledger st) l /\
    (existsb carries_batch (transactions b) = false -> l = ledger st).
Proof.
  intros Hok H Hr. unfold connect_block in H. cbv zeta in H.
  destruct (_ ≫= _) as [[]| |].
  2,3: apply pair_eq in H as [<- _]; exists (ledger st); split_and!; [by destruct st | done | done].
  destruct (validate_and_apply_transactions _ _ _ _ _ _ _ _ _) as [l rv] eqn:Ha.
  assert (is_ok rv = false /\ st' = set_ledger st l) as [Hrv ->].
  { destruct rv as [[[[f t] s] u]| |]; [|by apply pair_eq in H as [<- _]..].
    exfalso. apply applied_subsidy_max in Ha. revert Hr.
    destruct (checked_add64 (issued st) s) as [n|] eqn:Hs; apply pair_eq in H as [_ <-]; [done|].
    intros _. destruct Hok as [Hb _ _ _]. apply backed_funds in Hb as [_ _ Hi].
    pose proof MAX_MONEY_val as Hm. rewrite as_u64_small in Ha by lia.
    unfold checked_add64 in Hs. destruct (_ <=? U64_MAX) eqn:Hle; [done|].
    unfold U64_MAX in Hle. clear -Hle Hi Ha Hm. lia. }
  pose proof (no_batch_keeps_relays _ _ _ _ _ _ _ _ _ _ _ Ha) as Hnb.
  apply refused_keeps_coins in Ha as (Hu & Hb & Hl); [|done].
  exists l. split_and!; [done..|]. intros [? ?]%Hnb. by apply ledger_eq.
Qed.

Lemma refused_chain_ok st b st' r :
  chain_ok st -> connect st b = (st', r) -> is_ok r = false -> chain_ok st'.
Proof.
  intros Hok H Hr. destruct (refused_effect _ _ _ _ Hok H Hr) as (l & -> & (Hu & _) & _).
  destruct Hok. split; cbn; [by rewrite Hu | done..].
Qed.

Lemma disconnect_chain_ok st b st' : chain_ok st -> disconnect st = Ok (b, st') -> chain_ok st'.
Proof.
  intros [Hb Hl Hh Hwk] H. unfold disconnect_tip_block in H.
  destruct (last (chain st)) as [tip|] eqn:Hlast; [|done].
  apply last_Some in Hlast as [bs Hbs]. rewrite Hbs in *. rewrite length_app in H. cbn [length] in H.
  destruct (_ <=? 1)%nat eqn:Hlen; [done|]. apply Nat.leb_gt in Hlen.
  unfold tip_height in H. rewrite Hh, len_app in H. change (len [tip]) with 1 in H.
  pose proof (len_nonneg bs) as Hnn.
  replace (sat_sub (len bs + 1) 1) with (len bs) in H by (unfold sat_sub; lia).
  destruct (undo_logs st !! _) as [undo|] eqn:Hundo; [|done].
  replace (length bs + 1 - 1)%nat with (length bs) in H by lia. rewrite take_app_length in H.
  apply Ok_inj, pair_eq in H as [<- <-]. rewrite rev_unit in Hb, Hl.
  assert (rev bs <> []) as Hne0.
  { intros E%(f_equal length). rewrite length_rev in E. cbn in E. lia. }
  inversion Hb as [| ? ? ? ? ? ? ? Hnone | ? ? ? ? ? undo' u0 Hfo Hne Hlog Hs0 Hsub Hback]; subst;
    [congruence | rewrite len_rev in Hnone; congruence |].
  rewrite len_rev in Hlog, Hback. rewrite Hundo in Hlog. injection Hlog as <-.
  pose proof (backed_funds _ _ _ _ Hback) as [_ _ Hi].
  split; cbn [ledger issued chain undo_logs height total_work].
  - replace (sat_sub (issued st) (subsidy_created undo)) with (issued st - subsidy_created undo)
      by (unfold sat_sub; lia). by eapply backed_subseteq.
  - cbn [linked] in Hl. destruct (rev bs); [done | by destruct Hl].
  - done.
  - rewrite Hwk, fmap_app, zsum_app. unfold zsum at 2 4. cbn. pose proof (zsum_works_nonneg bs).
    destruct (_ <=? _) eqn:?; lia.
Qed.

Lemma new_chain_ok genesis ps st :
  Forall wire_tx (transactions genesis) ->
  new_chain env p std_header_activation now genesis ps = Ok st -> chain_ok st.
Proof.
  intros Hw H. unfold new_chain in H.
  destruct (validate_block_header _ _ _ _ _ _ _ _); bind_simpl_in H; [|done..].
  destruct (validate_and_apply_transactions _ _ _ _ _ _ _ _ _) as [l [[[[f t] s] u]| |]] eqn:Ha; [|done..].
  injection H as <-. apply apply_block_ok in Ha as [Hok _ Hsup Hs0 _ Hmax _ _ _ _ _ _ _ _ _ _ _];
    [|by intros k e He; cbn in He; rewrite lookup_empty in He | done | pose proof MAX_MONEY_val; lia].
  specialize (Hmax _ eq_refl). cbn [empty_ledger utxos] in Hsup. rewrite supply_empty in Hsup.
  split; cbn; [|done|done|unfold zsum; cbn; lia].
  apply backed_genesis. split; [done | lia | lia].
Qed.

End invariant.

(** ** The chain states a node goes through: from the genesis block, by
    connecting blocks, refusing blocks and disconnecting the tip, each at its
    own time [now], and by filing blocks and dropping them from the store. *)

(** Two states that differ in what is filed about stored blocks only. *)
Record same_but_store `{P : Poawx R} (st st' : ChainState R) : Prop := {
  sb_ledger : ledger st' = ledger st;
  sb_height : height st' = height st;
  sb_chain : chain st' = chain st;
  sb_work : total_work st' = total_work st;
  sb_issued : issued st' = issued st;
  sb_best : best_tip st' = best_tip st;
  sb_logs : undo_logs st' = undo_logs st;
  sb_poawx : poawx_state st' = poawx_state st;
  sb_final : finalized_height st' = finalized_height st
}.

Section reachable.
Context `{C : Crypto} `{P : Poawx R} (env : Env) (p : ChainParams) (std_header_activation window : Z).

Inductive reachable : ChainState R -> Prop :=
| reach_genesis now genesis ps st :
    Forall wire_tx (transactions genesis) ->
    new_chain env p std_header_activation now genesis ps = Ok st -> reachable st
| reach_connect now st b st' :
    reachable st -> connect_block env p std_header_activation now window st b = (st', Ok tt) ->
    Forall wire_tx (transactions b) -> reachable st'
| reach_refuse now st b st' e :
    reachable st -> connect_block env p std_header_activation now window st b = (st', Err e) ->
    reachable st'
| reach_disconnect st b st' :
    reachable st -> disconnect_tip_block std_header_activation st = Ok (b, st') -> reachable st'
| reach_store st st' : reachable st -> same_but_store st st' -> reachable st'.

Lemma reachable_ok st : fork_wf env -> reachable st -> chain_ok std_header_activation st.
Proof.
  intros Hf. induction 1 as
    [now g ps st Hw Hn | now st b st' _ IH Hc Hw | now st b st' e _ IH Hc | st b st' _ IH Hd
    | st st' _ IH [Hl Hh Hc Hw Hi _ Hu _ _]].
  - by eapply new_chain_ok.
  - by eapply connect_chain_ok.
  - by eapply refused_chain_ok.
  - by eapply disconnect_chain_ok.
  - destruct IH. split; by rewrite ?Hl, ?Hh, ?Hc, ?Hw, ?Hi, ?Hu.
Qed.
End reachable.

(** ** Samples: a genesis block and one block on it *)
Definition easy : Target := {| bits := 0x207fffff |}.

Definition demo_header (prev root : bytes) (t n : Z) : BlockHeader :=
  {| version := 1; prev_hash := prev; merkle_root := root; time := t; hbits := bits easy; nonce := n |}.

Definition demo_genesis : Block Empty_set :=
  {| bheader := demo_header (zeros 32) (zeros 32) 1000 9; transactions := [sample_coinbase 7000];
     auxpow := None; poawx_receipts := None |}.

Definition demo_params : ChainParams :=
  {| pow_limit := easy; genesis_header := bheader demo_genesis;
     htlcv1_activation_height := None; mpsov1_activation_height := None;
     lwma := LwmaParams_new None easy; lwma_v2 := None; auxpow_activation_height := None;
     btc_spv := None; ltc_spv := None; htlc_btc_swap_v1_activation_height := None;
     btc_swap_bech32_payment_activation_height := None;
     htlc_ltc_swap_v1_activation_height := None; swap_order_v1_activation_height := None;
     ltc_swap_order_v1_activation_height := None;
     coinbase_header_batch_activation_height := None |}.

Definition demo_txs : list Transaction := [sample_coinbase 5000].

Definition demo_block : Block Empty_set :=
  {| bheader := demo_header (hash_for_height 0 (bheader demo_genesis) 0)
                  (block_merkle_root {| bheader := sample_header; transactions := demo_txs;
                                        auxpow := None; poawx_receipts := @None (list Empty_set) |}) 1600 30;
     transactions := demo_txs; auxpow := None; poawx_receipts := None |}.

Definition chain_or (d : ChainState Empty_set) (r : res BlockError (ChainState Empty_set))
    : ChainState Empty_set := match r with Ok st => st | _ => d end.

Definition no_chain : ChainState Empty_set :=
  {| ledger := empty_ledger; height := 0; chain := []; total_work := 0; issued := 0; block_store := ∅;
     heights := ∅; cumulative_work := ∅; best_tip := []; undo_logs := ∅; poawx_state := tt;
     finalized_height := 0 |}.

Definition demo_new : res BlockError (ChainState Empty_set) :=
  new_chain no_env demo_params 0 1000 demo_genesis tt.
Definition demo_start : ChainState Empty_set := chain_or no_chain demo_new.
Definition demo_connected : ChainState Empty_set * res BlockError unit :=
  connect_block no_env demo_params 0 1000 0 demo_start demo_block.

Lemma chain_or_ok d r : is_ok r = true -> r = Ok (chain_or d r).
Proof. by destruct r. Qed.

Lemma demo_start_flag : is_ok (new_chain no_env demo_params 0 1000 demo_genesis tt) = true.
Proof. vm_compute. reflexivity. Qed.

Lemma demo_start_ok : new_chain no_env demo_params 0 1000 demo_genesis tt = Ok demo_start.
Proof. exact (chain_or_ok no_chain (new_chain no_env demo_params 0 1000 demo_genesis tt) demo_start_flag). Qed.

Lemma pair_ok {A E} (x : A * res E unit) : is_ok x.2 = true -> x = (x.1, Ok tt).
Proof. by destruct x as [a [[]| |]]. Qed.

Lemma demo_connected_flag :
  is_ok (connect_block no_env demo_params 0 1000 0 demo_start demo_block).2 = true.
Proof. vm_compute. reflexivity. Qed.

Lemma demo_connected_ok :
  connect_block no_env demo_params 0 1000 0 demo_start demo_block = (demo_connected.1, Ok tt).
Proof.
  unfold demo_connected.
  exact (pair_ok (connect_block no_env demo_params 0 1000 0 demo_start demo_block) demo_connected_flag).
Qed.

Lemma demo_wire : Forall wire_tx [sample_coinbase 7000; sample_coinbase 5000].
Proof.
  unfold sample_coinbase, wire_tx, wire_input, wf_input, wf_output.
  constructor; [|constructor; [|constructor]]; cbn [tx_version tx_inputs tx_outputs tx_locktime]; wf_compute.
Qed.

Lemma demo_genesis_wire : Forall wire_tx (transactions demo_genesis).
Proof. constructor; [|constructor]. apply (proj1 (Forall_lookup _ _) demo_wire 0%nat). reflexivity. Qed.

Definition all_fresh (l : Ledger) (u : option BlockUndo) : bool :=
  match u with
  | Some u => forallb (fun op => match utxos l !! op with Some _ => false | None => true end) (undo_created u)
  | None => true
  end.

Lemma all_fresh_ok l u undo :
  all_fresh l u = true -> u = Some undo -> forall op, op ∈ undo_created undo -> utxos l !! op = None.
Proof.
  intros H -> op Hop. cbn in H. rewrite forallb_forall in H. apply list_elem_of_In, H in Hop.
  by destruct (utxos l !! op).
Qed.

Lemma demo_fresh : fresh_block 0 demo_start demo_connected.1 demo_block.
Proof.
  split_and!.
  - constructor; [|constructor]. apply (proj1 (Forall_lookup _ _) demo_wire 1%nat). reflexivity.
  - vm_compute. reflexivity.
  - intros undo Hu. refine (all_fresh_ok _ _ _ _ Hu). vm_compute. reflexivity.
Qed.

Lemma demo_fork_wf : fork_wf no_env.
Proof. vm_compute. congruence. Qed.

Lemma demo_start_reachable : reachable no_env demo_params 0 0 demo_start.
Proof.
  exact (reach_genesis no_env demo_params 0 0 1000 demo_genesis tt demo_start demo_genesis_wire demo_start_ok).
Qed.

Lemma demo_reachable : reachable no_env demo_params 0 0 demo_connected.1.
Proof.
  exact (reach_connect no_env demo_params 0 0 1000 demo_start demo_block demo_connected.1
    demo_start_reachable demo_connected_ok (proj1 demo_fresh)).
Qed.

Lemma demo_relays_ok : relays_ok demo_params (ledger demo_start).
Proof.
  assert (btc (ledger demo_start) = RelayState_new /\ ltc (ledger demo_start) = RelayState_new)
    as [Hb Hl] by (vm_compute; done).
  split; [rewrite Hb | rewrite Hl]; apply relay_inv_new.
Qed.

(** ** The theorems *)

(** The money supply is capped: in every chain state a node reaches by
    connecting blocks, refusing blocks and disconnecting tips, in any order, the
    coins of all unspent outputs together are at most what was issued, and what
    was issued is at most [MAX_MONEY]. *)
Theorem reachable_supply_capped `{C : Crypto} `{P : Poawx R} env p act window (st : ChainState R) :
  fork_wf env -> reachable env p act window st ->
  0 <= issued st <= MAX_MONEY /\ supply (utxos (ledger st)) <= issued st.
Proof.
  intros Hf Hr. destruct (reachable_ok _ _ _ _ _ Hf Hr) as [Hb _ _ _].
  by destruct (backed_funds _ _ _ _ _ Hb).
Qed.

Lemma reachable_supply_capped_witness :
  0 <= issued demo_connected.1 <= MAX_MONEY /\
  supply (utxos (ledger demo_connected.1)) <= issued demo_connected.1.
Proof.
  exact (reachable_supply_capped no_env demo_params 0 0 demo_connected.1 demo_fork_wf demo_reachable).
Defined.

(** The chain of a reachable state is a chain: its height is its length,
    every block names the hash of the block below it, and the total work is the
    work of its blocks. *)
Theorem reachable_chain_linked `{C : Crypto} `{P : Poawx R} env p act window (st : ChainState R) :
  fork_wf env -> reachable env p act window st ->
  height st = len (chain st) /\ total_work st = zsum (block_work <$> chain st) /\
  forall i b b', chain st !! i = Some b -> chain st !! S i = Some b' ->
    prev_hash (bheader b') = hash_for_height act (bheader b) (Z.of_nat i).
Proof.
  intros Hf Hr. destruct (reachable_ok _ _ _ _ _ Hf Hr) as [_ Hl Hh Hw].
  split_and!; [done | done |]. by apply linked_rev.
Qed.

Lemma reachable_chain_linked_witness :
  height demo_connected.1 = len (chain demo_connected.1) /\
  total_work demo_connected.1 = zsum (block_work <$> chain demo_connected.1) /\
  forall i b b', chain demo_connected.1 !! i = Some b -> chain demo_connected.1 !! S i = Some b' ->
    prev_hash (bheader b') = hash_for_height 0 (bheader b) (Z.of_nat i).
Proof.
  exact (reachable_chain_linked no_env demo_params 0 0 demo_connected.1 demo_fork_wf demo_reachable).
Defined.

(** C6: Disconnecting takes back connecting: from a reachable state with
    consistent relays, connecting a block that repeats nothing and then
    disconnecting the tip returns that block and the ledger, height, chain, work
    and issued supply of before, with the undo log of the block gone. *)
Theorem disconnect_inverts_connect `{C : Crypto} `{P : Poawx R} env p act now window (st st' : ChainState R) b :
  fork_wf env -> reachable env p act window st -> relays_ok p (ledger st) ->
  connect_block env p act now window st b = (st', Ok tt) -> fresh_block act st st' b ->
  exists st'', disconnect_tip_block act st' = Ok (b, st'') /\
    ledger st'' = ledger st /\ height st'' = height st /\ chain st'' = chain st /\
    total_work st'' = total_work st /\ issued st'' = issued st /\ undo_logs st'' = undo_logs st.
Proof.
  intros Hf Hr Hrel Hc Hfr. pose proof (reachable_ok _ _ _ _ _ Hf Hr) as Hok.
  rewrite (connect_disconnect _ _ _ _ _ _ _ _ Hf Hok Hrel Hc Hfr).
  eexists. split; [reflexivity|]. done.
Qed.

Lemma disconnect_inverts_connect_witness :
  exists st'', disconnect_tip_block 0 demo_connected.1 = Ok (demo_block, st'') /\
    ledger st'' = ledger demo_start /\ height st'' = height demo_start /\
    chain st'' = chain demo_start /\ total_work st'' = total_work demo_start /\
    issued st'' = issued demo_start /\ undo_logs st'' = undo_logs demo_start.
Proof.
  exact (disconnect_inverts_connect no_env demo_params 0 1000 0 demo_start demo_connected.1 demo_block
    demo_fork_wf demo_start_reachable demo_relays_ok demo_connected_ok demo_fresh).
Defined.

(** C30: A connected block is a valid extension of the tip: it names the tip's
    hash, is not more than two hours ahead of the clock, is later than the
    median of the last eleven blocks (once that rule holds), commits to its
    transactions, carries exactly the target the difficulty rule asks for, and
    passes the proof-of-work check for that target. *)
Theorem connected_block_valid `{C : Crypto} `{P : Poawx R} env p act now window (st st' : ChainState R) b :
  connect_block env p act now window st b = (st', Ok tt) ->
  chain st' = chain st ++ [b] /\
  (forall tip, last (chain st) = Some tip ->
     prev_hash (bheader b) = hash_for_height act (bheader tip) (sat_sub (height st) 1)) /\
  time (bheader b) <= now + MAX_FUTURE_BLOCK_TIME /\
  (MTP_ACTIVATION_HEIGHT <= height st -> median_time_past (bheader <$> chain st) < time (bheader b)) /\
  (0 < height st -> merkle_root (bheader b) = block_merkle_root b) /\
  target_for_height env (genesis_header p) (pow_limit p) (lwma p) (lwma_v2 p)
    (bheader <$> chain st) (height st) = Ok (target (bheader b)) /\
  check_pow p act b (height st) (target (bheader b)) = Ok tt.
Proof.
  intros H. apply connect_ok in H as (l & f & t & s & u & n & Hv & _ & _ & ->).
  apply header_ok in Hv as (? & ? & ? & ? & tg & ? & <- & ?). done.
Qed.

Lemma connected_block_valid_witness :
  chain demo_connected.1 = chain demo_start ++ [demo_block] /\
  (forall tip, last (chain demo_start) = Some tip ->
     prev_hash (bheader demo_block) = hash_for_height 0 (bheader tip) (sat_sub (height demo_start) 1)) /\
  time (bheader demo_block) <= 1000 + MAX_FUTURE_BLOCK_TIME /\
  (MTP_ACTIVATION_HEIGHT <= height demo_start ->
     median_time_past (bheader <$> chain demo_start) < time (bheader demo_block)) /\
  (0 < height demo_start -> merkle_root (bheader demo_block) = block_merkle_root demo_block) /\
  target_for_height no_env (genesis_header demo_params) (pow_limit demo_params) (lwma demo_params)
    (lwma_v2 demo_params) (bheader <$> chain demo_start) (height demo_start)
    = Ok (target (bheader demo_block)) /\
  check_pow demo_params 0 demo_block (height demo_start) (target (bheader demo_block)) = Ok tt.
Proof.
  exact (connected_block_valid no_env demo_params 0 1000 0 demo_start demo_connected.1 demo_block
    demo_connected_ok).
Defined.
