(* ===== verification/BlockWire.v ===== *)
(** * BlockWire: whole blocks on the wire ([src/src/block.rs], lines 220 to 451)

    A block is its header, the AuxPoW record when a version bit is set, the
    transactions one after the other up to the end, and the receipts behind a
    magic of eight bytes in one of three versions.  Nothing announces the number
    of transactions: before each, the decoder looks for the magic.

    Shown here: a block is read back from its bytes; no transaction is taken for
    the receipt section; the loop of the decoder ends. *)

From S2P Require Import Prelude Crypto Wire TxCodec Header AuxPow Activation Roles.
From S2P Require Import Receipt Chain.

Definition POAWX_RECEIPT_SECTION_MAGIC : bytes := byte_string "POAWXR" ++ [1; 0].
Definition POAWX_RECEIPT_SECTION_MAGIC_V2 : bytes := byte_string "POAWXR" ++ [2; 0].
Definition POAWX_RECEIPT_SECTION_MAGIC_V3 : bytes := byte_string "POAWXR" ++ [3; 0].

Abbreviation FullBlock := (Block PoawxBlockReceipt).

(** The version of the receipt section. *)
Inductive SectionVersion := V1 | V2 | V3.

Definition version_magic (v : SectionVersion) : bytes :=
  match v with
  | V1 => POAWX_RECEIPT_SECTION_MAGIC
  | V2 => POAWX_RECEIPT_SECTION_MAGIC_V2
  | V3 => POAWX_RECEIPT_SECTION_MAGIC_V3
  end.

Definition write_element (v : SectionVersion) (r : PoawxBlockReceipt) : bytes :=
  match v with V1 => serialize_receipt r | V2 => serialize_receipt_v2 r | V3 => serialize_receipt_v3 r end.

Definition section_version (receipts : list PoawxBlockReceipt) : SectionVersion :=
  if existsb (fun r => is_some (rc_phase20_ext r)) receipts then V3 else
  if existsb (fun r => is_some (rc_delegation r)) receipts then V2 else V1.

Definition serialize_receipt_section (b : FullBlock) : bytes :=
  match poawx_receipts b with
  | Some receipts =>
      if bool_decide (receipts = []) then [] else
      let v := section_version receipts in
      version_magic v ++ [as_u8 (len receipts)] ++ concat (write_element v <$> receipts)
  | None => []
  end.

Definition read_element (v : SectionVersion) (raw : bytes) (off : Z) : res string (PoawxBlockReceipt * Z) :=
  match v with
  | V1 =>
      if len raw - off <? RECEIPT_WIRE then Err "receipt section truncated"%string else
      r ← deserialize_receipt (drop (Z.to_nat off) raw); Ok (r, off + RECEIPT_WIRE)
  | V2 => '(r, used) ← deserialize_receipt_v2 (drop (Z.to_nat off) raw); Ok (r, off + used)
  | V3 => '(r, used) ← deserialize_receipt_v3 (drop (Z.to_nat off) raw); Ok (r, off + used)
  end.

Definition magic_version (magic : bytes) : option SectionVersion :=
  if beqb magic POAWX_RECEIPT_SECTION_MAGIC then Some V1 else
  if beqb magic POAWX_RECEIPT_SECTION_MAGIC_V2 then Some V2 else
  if beqb magic POAWX_RECEIPT_SECTION_MAGIC_V3 then Some V3 else None.

(** The receipts, if they begin here, and the offset behind them. *)
Definition try_parse_receipt_section (raw : bytes) (offset : Z) : res string (option (list PoawxBlockReceipt) * Z) :=
  if len raw - offset <? 8 then Ok (None, offset) else
  magic ← slice raw offset (offset + 8);
  match magic_version magic with
  | None => Ok (None, offset)
  | Some v =>
      let off := offset + 8 in
      if len raw <=? off then Err "receipt section: missing count byte"%string else
      count ← idx raw off;
      '(receipts, off) ← read_many (read_element v) (Z.to_nat count) raw (off + 1);
      Ok (Some receipts, off)
  end.

(** The [while] loop: every transaction takes a byte or more, so the length of
    the input is fuel enough. *)
Fixpoint read_block_body (fuel : nat) (raw : bytes) (offset : Z)
    : res string (list Transaction * option (list PoawxBlockReceipt) * Z) :=
  if len raw <=? offset then Ok ([], None, offset) else
  match fuel with
  | O => Panic
  | S fuel =>
      '(receipts, offset) ← try_parse_receipt_section raw offset;
      match receipts with
      | Some receipts => Ok ([], Some receipts, offset)
      | None =>
          '(tx, offset) ← decode_full_tx_at raw offset;
          '(txs, receipts, offset) ← read_block_body fuel raw offset;
          Ok (tx :: txs, receipts, offset)
      end
  end.

Definition read_aux (present : bool) (raw : bytes) (offset : Z) : res string (option AuxPoW * Z) :=
  if present then '(ap, offset) ← deserialize_auxpow raw offset; Ok (Some ap, offset) else Ok (None, offset).

Definition has_auxpow_bit (h : BlockHeader) : bool := negb (Z.land (version h) AUXPOW_VERSION_BIT =? 0).

(** The part that [deserialize] and [deserialize_for_height] share. *)
Definition read_block (header : BlockHeader) (offset : Z) (aux : bool) (raw : bytes) : res string (FullBlock * Z) :=
  '(auxpow, offset) ← read_aux aux raw offset;
  '(txs, receipts, offset) ← read_block_body (length raw) raw offset;
  Ok ({| bheader := header; transactions := txs; auxpow := auxpow; poawx_receipts := receipts |}, offset).

Definition deserialize_block (raw : bytes) : res string (FullBlock * Z) :=
  '(header, offset) ← deserialize_header raw;
  read_block header offset (has_auxpow_bit header) raw.

Definition auxpow_active_mainnet (height : Z) : bool := active_at MAINNET_AUXPOW_ACTIVATION_HEIGHT height.

Definition deserialize_block_for_height (raw : bytes) (height std_header_activation : Z) : res string (FullBlock * Z) :=
  '(header, offset) ← deserialize_with_activation raw height std_header_activation;
  read_block header offset (has_auxpow_bit header && auxpow_active_mainnet height) raw.

Definition serialize_body (b : FullBlock) : bytes :=
  match auxpow b with Some ap => serialize_auxpow ap | None => [] end
  ++ concat (serialize <$> transactions b) ++ serialize_receipt_section b.

Definition serialize_block (b : FullBlock) : bytes := serialize_header (bheader b) ++ serialize_body b.

Definition serialize_block_for_height (b : FullBlock) (height std_header_activation : Z) : bytes :=
  serialize_with_activation (bheader b) height std_header_activation ++ serialize_body b.

(** ** Well-formed blocks *)
Record block_ok (b : FullBlock) : Prop := {
  bo_header : wf_header (bheader b);
  bo_bit : has_auxpow_bit (bheader b) = is_some (auxpow b);
  bo_auxpow : from_option wire_auxpow True (auxpow b);
  bo_txs : Forall wire_tx (transactions b);
  bo_receipts : match poawx_receipts b with
                | Some rs => rs <> [] /\ len rs <= 255 /\ Forall receipt_ok rs
                | None => True
                end
}.

(** ** Receipts *)
Lemma drop_at (pre t : bytes) : drop (Z.to_nat (len pre)) (pre ++ t) = t.
Proof. unfold len. by rewrite Nat2Z.id, drop_app_length. Qed.

Lemma section_version_spec rs r : r ∈ rs ->
  match section_version rs with
  | V1 => rc_delegation r = None /\ rc_phase20_ext r = None
  | V2 => rc_phase20_ext r = None
  | V3 => True
  end.
Proof.
  intros Hr%list_elem_of_In. unfold section_version.
  destruct (existsb (fun r => is_some (rc_phase20_ext r)) rs) eqn:Hx; [done|].
  assert (rc_phase20_ext r = None) as Hn.
  { destruct (rc_phase20_ext r) eqn:E; [|done]. rewrite <- not_true_iff_false in Hx. exfalso. apply Hx, existsb_exists.
    exists r. by rewrite E. }
  destruct (existsb (fun r => is_some (rc_delegation r)) rs) eqn:Hd; [done|]. split; [|done]. destruct (rc_delegation r) eqn:E; [|done].
  rewrite <- not_true_iff_false in Hd. exfalso. apply Hd, existsb_exists. exists r. by rewrite E.
Qed.

Lemma reads_element v r : receipt_ok r ->
  match v with
  | V1 => rc_delegation r = None /\ rc_phase20_ext r = None
  | V2 => rc_phase20_ext r = None
  | V3 => True
  end -> reads (read_element v) (write_element v r) r.
Proof.
  intros Hr Hv pre post _. unfold read_element, write_element. rewrite drop_at. destruct v.
  - destruct Hv as [Hd Hx]. pose proof (receipt_len r Hr). pose proof (len_nonneg post).
    replace (_ <? _) with false by (symmetry; apply Z.ltb_ge; unfold RECEIPT_WIRE; len_lia).
    rewrite read_receipt by done. cbn [mbind res_bind]. do 2 f_equal; [|unfold RECEIPT_WIRE; lia].
    destruct r. cbn in Hd, Hx. by subst.
  - rewrite read_receipt_v2 by done. cbn [mbind res_bind]. do 2 f_equal. destruct r. cbn in Hv. by subst.
  - by rewrite read_receipt_v3.
Qed.

Lemma magic_version_own v : magic_version (version_magic v) = Some v.
Proof. by destruct v. Qed.

Lemma magic_version_inv m v : magic_version m = Some v -> m = version_magic v.
Proof.
  unfold magic_version, beqb. intros H. repeat (case_bool_decide; [by injection H as <-|]). done.
Qed.

Lemma slice_at {E} (pre m t : bytes) n : len m = n -> @slice E Z (pre ++ m ++ t) (len pre) (len pre + n) = Ok m.
Proof.
  intros <-. unfold slice. pose proof (len_nonneg pre). pose proof (len_nonneg m). pose proof (len_nonneg t).
  rewrite !len_app. replace (_ && _) with true by lia. replace (len pre + len m - len pre) with (len m) by lia.
  rewrite drop_at. unfold len. by rewrite Nat2Z.id, take_app_length.
Qed.

Lemma receipt_section_app pre rs post :
  rs <> [] -> len rs <= 255 -> Forall receipt_ok rs ->
  let enc := version_magic (section_version rs) ++ [as_u8 (len rs)] ++ concat (write_element (section_version rs) <$> rs) in
  len (pre ++ enc ++ post) < 2 ^ 63 ->
  try_parse_receipt_section (pre ++ enc ++ post) (len pre) = Ok (Some rs, len pre + len enc).
Proof.
  intros Hne Hn Hok. set (v := section_version rs). cbv zeta. intros Hlen. unfold try_parse_receipt_section.
  assert (len (version_magic v) = 8) as Hm by (by destruct v).
  set (body := concat (write_element v <$> rs)) in *.
  pose proof (len_nonneg pre). pose proof (len_nonneg body). pose proof (len_nonneg post). pose proof (len_nonneg rs).
  rewrite <- !app_assoc in *. replace (_ <? 8) with false by (symmetry; apply Z.ltb_ge; len_lia).
  rewrite slice_at by done. cbn [mbind res_bind]. rewrite magic_version_own. cbv zeta.
  replace (_ <=? _) with false by (symmetry; apply Z.leb_gt; len_lia).
  replace (len pre + 8) with (len (pre ++ version_magic v)) by len_lia.
  rewrite (app_assoc pre). rewrite idx_skip by lia. rewrite Z.sub_diag, idx_here by done. cbn [mbind res_bind].
  rewrite as_u8_small by lia. replace (Z.to_nat (len rs)) with (length rs) by (unfold len; lia).
  assert (reads (read_many (read_element v) (length rs)) body rs) as Hr.
  { apply reads_many; [|done]. apply Forall_forall. intros r Hin. apply reads_element.
    - rewrite Forall_forall in Hok. by apply Hok.
    - by apply section_version_spec. }
  specialize (Hr ((pre ++ version_magic v) ++ [len rs]) post). rewrite <- !app_assoc in *. rewrite as_u8_small in Hlen by lia.
  replace (len (pre ++ version_magic v) + 1) with (len (pre ++ version_magic v ++ [len rs])) by len_lia.
  rewrite Hr by done. cbn [mbind res_bind]. do 2 f_equal. len_lia.
Qed.

(** The bytes of a transaction never look like a receipt section: the fifth
    byte counts inputs, and the sixth is the length of a transaction id. *)
Lemma tx_not_receipts pre tx post : wire_tx tx ->
  try_parse_receipt_section (pre ++ serialize tx ++ post) (len pre) = Ok (None, len pre).
Proof.
  intros (Hv & Hi & Hil & _). unfold try_parse_receipt_section. destruct (len (pre ++ serialize tx ++ post) - len pre <? 8) eqn:E; [done|].
  apply Z.ltb_ge in E. destruct (@slice_in string Z (pre ++ serialize tx ++ post) (len pre) (len pre + 8)) as (m & Hs & Hl);
    [pose proof (len_nonneg pre); lia | lia|].
  rewrite Hs. cbn [mbind res_bind]. destruct (magic_version m) as [v|] eqn:Hm; [exfalso|done].
  apply magic_version_inv in Hm as ->. apply slice_Ok_inv in Hs as (_ & _ & Hs). rewrite drop_at in Hs.
  replace (len pre + 8 - len pre) with 8 in Hs by lia.
  assert (version_magic v !! 4%nat = Some 88 /\ version_magic v !! 5%nat = Some 82) as [H4 H5] by (by destruct v).
  rewrite Hs, lookup_take_lt in H4, H5 by (change (Z.to_nat 8) with 8%nat; lia). unfold serialize in H4, H5. rewrite <- !app_assoc in H4, H5.
  rewrite lookup_app_r in H4, H5 by (rewrite length_le_bytes; lia). rewrite length_le_bytes in H4, H5.
  cbn [Nat.sub app lookup list_lookup] in H4, H5. injection H4 as H4. pose proof (len_nonneg (tx_inputs tx)).
  rewrite as_u8_small in H4 by lia. destruct Hi as [|i ins Hin _]; [discriminate H4|].
  cbn [fmap list_fmap concat] in H5. destruct Hin as [[[Hh _] _] _]. unfold serialize_input in H5. cbn in H5.
  injection H5 as H5. rewrite as_u8_small in H5 by lia. lia.
Qed.

(** ** The loop over the transactions *)
Lemma serialize_tx_pos tx : 10 <= len (serialize tx).
Proof.
  unfold serialize. pose proof (len_nonneg (concat (serialize_input <$> tx_inputs tx))).
  pose proof (len_nonneg (concat (serialize_output <$> tx_outputs tx))). len_lia.
Qed.

Lemma read_block_body_app fuel : forall txs pre sec receipts,
  Forall wire_tx txs -> len (concat (serialize <$> txs)) + len sec <= Z.of_nat fuel ->
  len (pre ++ concat (serialize <$> txs) ++ sec) < 2 ^ 63 ->
  match receipts with
  | None => sec = []
  | Some rs => sec <> [] /\ forall pre, len (pre ++ sec) < 2 ^ 63 ->
      try_parse_receipt_section (pre ++ sec) (len pre) = Ok (Some rs, len pre + len sec)
  end ->
  read_block_body fuel (pre ++ concat (serialize <$> txs) ++ sec) (len pre)
    = Ok (txs, receipts, len pre + len (concat (serialize <$> txs)) + len sec).
Proof.
  induction fuel as [|fuel IH]; intros txs pre sec receipts Ht Hf Hl Hs; pose proof (len_nonneg sec);
    (destruct Ht as [|tx txs Htx Ht];
      [| pose proof (serialize_tx_pos tx); pose proof (len_nonneg (concat (serialize <$> txs)));
         cbn [fmap list_fmap concat] in *; change (list_fmap _ _ serialize txs) with (serialize <$> txs) in *;
         rewrite len_app in Hf]).
  - cbn [fmap list_fmap concat app] in *. change (len []) with 0 in *. assert (sec = []) as -> by (apply len_0_nil; lia).
    destruct receipts as [rs|]; [by destruct Hs|]. cbn [read_block_body]. rewrite app_nil_r. rewrite Z.leb_refl.
    do 2 f_equal. change (len []) with 0. lia.
  - lia.
  - cbn [read_block_body fmap list_fmap concat app] in *. change (len []) with 0 in *. destruct receipts as [rs|].
    + destruct Hs as [Hne Hs]. replace (_ <=? _) with false.
      2:{ symmetry. apply Z.leb_gt. destruct sec as [|b sec]; [done|]. rewrite len_app, len_cons in *. pose proof (len_nonneg sec). lia. }
      rewrite Hs by done. cbn [mbind res_bind]. do 2 f_equal. lia.
    + subst sec. rewrite app_nil_r, Z.leb_refl. do 2 f_equal. change (len []) with 0. lia.
  - cbn [read_block_body]. rewrite <- !app_assoc in *. replace (_ <=? _) with false by (symmetry; apply Z.leb_gt; len_lia).
    rewrite tx_not_receipts by done. cbn [mbind res_bind]. rewrite (reads_tx tx Htx) by done. cbn [mbind res_bind].
    specialize (IH txs (pre ++ serialize tx) sec receipts Ht ltac:(lia)). rewrite <- !app_assoc in IH.
    rewrite <- (len_app pre (serialize tx)). rewrite IH by done. cbn [mbind res_bind]. do 2 f_equal. len_lia.
Qed.

Lemma receipt_section_nonempty (b : FullBlock) rs : poawx_receipts b = Some rs -> rs <> [] ->
  serialize_receipt_section b =
    version_magic (section_version rs) ++ [as_u8 (len rs)] ++ concat (write_element (section_version rs) <$> rs).
Proof. intros Hb Hne. unfold serialize_receipt_section. rewrite Hb. by rewrite bool_decide_false. Qed.

Lemma read_block_app b header enc_h : block_ok b -> header = bheader b ->
  len (enc_h ++ serialize_body b) < 2 ^ 63 ->
  read_block header (len enc_h) (is_some (auxpow b)) (enc_h ++ serialize_body b)
    = Ok (b, len (enc_h ++ serialize_body b)).
Proof.
  intros [_ _ Ha Ht Hr] -> Hl. unfold read_block, serialize_body in *.
  set (txs := concat (serialize <$> transactions b)) in *. set (sec := serialize_receipt_section b) in *.
  set (aux := match auxpow b with Some ap => serialize_auxpow ap | None => [] end) in *.
  assert (read_aux (is_some (auxpow b)) (enc_h ++ aux ++ txs ++ sec) (len enc_h) = Ok (auxpow b, len (enc_h ++ aux))) as Hra.
  { unfold read_aux, aux in *. destruct (auxpow b) as [ap|]; cbn [is_some from_option] in *.
    - rewrite (reads_auxpow ap Ha) by done. cbn [mbind res_bind]. by rewrite len_app.
    - do 2 f_equal. by rewrite app_nil_r. }
  rewrite Hra. cbn [mbind res_bind]. rewrite (app_assoc enc_h aux) in *.
  pose proof (len_nonneg enc_h). pose proof (len_nonneg aux). pose proof (len_nonneg txs). pose proof (len_nonneg sec).
  assert (read_block_body (length ((enc_h ++ aux) ++ txs ++ sec)) ((enc_h ++ aux) ++ txs ++ sec) (len (enc_h ++ aux))
          = Ok (transactions b, poawx_receipts b, len (enc_h ++ aux) + len txs + len sec)) as ->.
  2:{ cbn [mbind res_bind]. do 2 f_equal; [by destruct b | rewrite !len_app; lia]. }
  destruct (poawx_receipts b) as [rs|] eqn:Hrs.
  - destruct Hr as (Hne & Hn & Hok). assert (sec = _) as Hsec by exact (receipt_section_nonempty b rs Hrs Hne).
    apply read_block_body_app; [done | | done |].
    + unfold len in *. rewrite !length_app in *. fold txs. lia.
    + split; [intros E; rewrite E in Hsec; by destruct (section_version rs)|]. intros pre Hp.
      pose proof (receipt_section_app pre rs [] Hne Hn Hok) as Hsa. cbv zeta in Hsa. rewrite <- Hsec, app_nil_r in Hsa.
      by apply Hsa.
  - assert (sec = []) as Hsec by (unfold sec, serialize_receipt_section; by rewrite Hrs).
    apply read_block_body_app; [done | | done | done]. unfold len in *. rewrite !length_app in *. fold txs. lia.
Qed.

(** ** The loop ends *)
Lemma decode_tx_progress raw off tx off' : wf_bytes raw -> 0 <= off <= len raw ->
  decode_full_tx_at raw off = Ok (tx, off') -> off + 4 <= off' <= len raw.
Proof.
  intros Hw Ho H. unfold decode_full_tx_at in H.
  destruct (read_u32 raw off) as [[v o1]| |] eqn:Hv; [cbn [mbind res_bind] in H | done | done].
  assert (o1 = off + 4 /\ off + 4 <= len raw) as [-> Ho1].
  { unfold read_u32 in Hv. destruct (len raw <? off + 4) eqn:E; [done|]. destruct (slice raw off (off + 4)); [|done..].
    injection Hv as _ <-. lia. }
  assert (sound (fun raw offset =>
    '(input_count, offset) ← read_u8 raw offset;
    '(inputs, offset) ← read_many read_input (Z.to_nat input_count) raw offset;
    '(output_count, offset) ← read_u8 raw offset;
    '(outputs, offset) ← read_many read_output (Z.to_nat output_count) raw offset;
    '(locktime, offset) ← read_u32 raw offset;
    Ok ({| tx_version := v; tx_inputs := inputs; tx_outputs := outputs; tx_locktime := locktime |}, offset)) (fun _ => True)) as Hs.
  { eapply sound_bind; [apply sound_u8|]. intros n Hn. eapply sound_bind; [apply sound_many, sound_input|]. intros ins _.
    eapply sound_bind; [apply sound_u8|]. intros m Hm. eapply sound_bind; [apply sound_many, sound_output|]. intros outs _.
    eapply sound_bind; [apply sound_u32|]. intros lt _. by apply sound_ret. }
  destruct (Hs raw (off + 4) tx off' Hw ltac:(lia) H) as [_ ?]. lia.
Qed.

Lemma try_parse_none raw off off' : try_parse_receipt_section raw off = Ok (None, off') -> off' = off.
Proof.
  unfold try_parse_receipt_section. destruct (_ <? 8); [by intros [= <-]|].
  destruct (slice raw off (off + 8)); [|done..]. cbn [mbind res_bind]. destruct (magic_version _); [|by intros [= <-]].
  cbv zeta. destruct (_ <=? _); [done|]. destruct (idx _ _); [|done..]. cbn [mbind res_bind].
  by destruct (read_many _ _ _ _) as [[? ?]| |].
Qed.

Lemma read_block_body_fuel raw f1 : wf_bytes raw -> forall f2 off, 0 <= off <= len raw ->
  len raw - off <= Z.of_nat f1 -> len raw - off <= Z.of_nat f2 -> read_block_body f1 raw off = read_block_body f2 raw off.
Proof.
  intros Hw. induction f1 as [|f1 IH]; intros f2 off Ho H1 H2; destruct f2 as [|f2]; cbn [read_block_body];
    destruct (len raw <=? off) eqn:E; try done; try (apply Z.leb_gt in E; lia).
  destruct (try_parse_receipt_section raw off) as [[[rs|] off1]| |] eqn:Hp; try done. cbn [mbind res_bind].
  apply try_parse_none in Hp as ->. destruct (decode_full_tx_at raw off) as [[tx off2]| |] eqn:Hd; try done. cbn [mbind res_bind].
  apply decode_tx_progress in Hd; [|done..]. by rewrite (IH f2 off2) by lia.
Qed.

(** ** Theorems *)

(** C33: A block survives the wire: a well-formed block, with or without AuxPoW
    and receipts of any kind, is read back from its bytes, with the whole length
    used up, in the encoding before the header fork and in that of any height at
    which the AuxPoW record may be there.  Below height 24,800 the second decoder
    never looks for the record, whatever the activation height of the network. *)
Theorem block_wire_roundtrip b height act :
  block_ok b -> len (serialize_block b) < 2 ^ 63 ->
  deserialize_block (serialize_block b) = Ok (b, len (serialize_block b)) /\
  (auxpow b = None \/ 24800 <= height ->
   deserialize_block_for_height (serialize_block_for_height b height act) height act =
     Ok (b, len (serialize_block_for_height b height act))) /\
  (height < 24800 -> forall raw b' off, deserialize_block_for_height raw height act = Ok (b', off) -> auxpow b' = None).
Proof.
  intros Hb Hl. pose proof Hb as [Hh Hbit _ _ _].
  pose proof (len_serialize_header (bheader b) 0 1 Hh) as L1. pose proof (len_serialize_header (bheader b) height act Hh) as L2.
  assert (serialize_header (bheader b) = serialize_with_activation (bheader b) 0 1) as E1 by reflexivity.
  unfold serialize_block, serialize_block_for_height in *. rewrite E1 in *. split_and!.
  - unfold deserialize_block. rewrite (deserialize_header_legacy _ 0 1) by lia. rewrite deserialize_serialize_aux by done.
    cbn [mbind res_bind]. rewrite Hbit. rewrite <- L1 at 1. by apply read_block_app.
  - intros Ha. unfold deserialize_block_for_height. rewrite deserialize_serialize_aux by done. cbn [mbind res_bind].
    replace (has_auxpow_bit (bheader b) && auxpow_active_mainnet height) with (is_some (auxpow b)).
    + rewrite <- L2 at 1. apply read_block_app; [done | done |]. rewrite len_app in *. lia.
    + rewrite Hbit. destruct Ha as [->|Ha]; [done|]. unfold auxpow_active_mainnet. cbn [active_at MAINNET_AUXPOW_ACTIVATION_HEIGHT].
      replace (24800 <=? height) with true by lia. by rewrite andb_true_r.
  - intros Hlow raw b' off H. unfold deserialize_block_for_height in H.
    destruct (deserialize_with_activation raw height act) as [[h o]| |]; [cbn [mbind res_bind] in H | done | done].
    replace (has_auxpow_bit h && auxpow_active_mainnet height) with false in H.
    + unfold read_block in H. cbn [read_aux mbind res_bind] in H.
      destruct (read_block_body _ _ _) as [[[? ?] ?]| |]; [|done..]. by injection H as <- _.
    + unfold auxpow_active_mainnet. cbn [active_at MAINNET_AUXPOW_ACTIVATION_HEIGHT].
      replace (24800 <=? height) with false by lia. by rewrite andb_false_r.
Qed.

(** The decoder of a block ends: on any bytes the loop over the transactions
    needs at most one round per byte, so it gives the same answer however many
    more rounds it may take. *)
Theorem block_reader_ends raw off fuel : wf_bytes raw -> 0 <= off <= len raw -> (length raw <= fuel)%nat ->
  read_block_body fuel raw off = read_block_body (length raw) raw off.
Proof. intros Hw Ho Hf. apply read_block_body_fuel; [done | done | unfold len in *; lia..]. Qed.

(** A block with a delegated receipt and its extension. *)
Definition sample_wire_header : BlockHeader :=
  {| version := 1; prev_hash := zeros 32; merkle_root := zeros 32; time := 7; hbits := 0; nonce := 5 |}.
Definition sample_wire_block : FullBlock :=
  {| bheader := sample_wire_header;
     transactions := [{| tx_version := 1; tx_inputs := []; tx_outputs := []; tx_locktime := 0 |}];
     auxpow := None; poawx_receipts := Some [sample_receipt] |}.

Lemma sample_wire_block_ok : block_ok sample_wire_block.
Proof.
  split; cbn [sample_wire_block bheader auxpow transactions poawx_receipts from_option is_some].
  - split_and!; cbn; zeros_ok.
  - reflexivity.
  - exact I.
  - apply Forall_cons_2; [|apply Forall_nil_2]. split_and!; cbn; first [zeros_ok | apply Forall_nil_2 | by vm_compute].
  - split_and!; [done | by vm_compute | apply Forall_cons_2; [apply sample_receipt_ok | apply Forall_nil_2]].
Qed.

Lemma block_wire_roundtrip_witness :
  deserialize_block (serialize_block sample_wire_block) = Ok (sample_wire_block, len (serialize_block sample_wire_block)).
Proof.
  assert (len (serialize_block sample_wire_block) < 2 ^ 63) as Hl by (vm_compute; reflexivity).
  exact (proj1 (block_wire_roundtrip sample_wire_block 0 0 sample_wire_block_ok Hl)).
Defined.

Lemma block_reader_ends_witness : read_block_body 90 (zeros 80) 0 = read_block_body 80 (zeros 80) 0.
Proof. apply (block_reader_ends (zeros 80) 0 90); [apply (arr_zeros 80) | split; by vm_compute | cbn; lia]. Defined.
