(* ===== verification/PoawxRules.v ===== *)
(** * PoawxRules: the receipts and the coinbase of a block
    ([src/src/chain.rs], lines 3344 to 4270, [block_has_irx1_commitment] and
    [irx1_root_from_block_bytes] of [src/src/poawx.rs], the seed of
    [src/src/poawx_committed_admission.rs])

    A block with the extension switched on carries receipts.  Their root is in
    the coinbase; each is signed by its worker or by the pool it delegated to, and
    solves a puzzle derived from the parent.  The coinbase pays the workers a
    tenth each or, in production mode, exactly the amounts of the four roles.

    Shown here: an accepted production coinbase pays the whole reward to exactly
    the expected outputs, and the expected coinbase is accepted; what an accepted
    receipt shows; no block of the main network passes from height 50,000 on. *)

From S2P Require Import Prelude Crypto Wire TxCodec Script Activation Constants Header Proposer.
From S2P Require Import Penalty.
From S2P Require Import Ticket Finality Admission Roles Registration Receipt Chain BlockWire.

Definition IRX1_TAG : bytes := byte_string "irx1".
Definition IRX1_SCRIPT_LEN : Z := 38.
Definition POAWX_WORKER_REWARD_PERMILLE : Z := 100.

(** ** The root in the coinbase *)
Definition irx1_script (s : bytes) : bool :=
  (len s =? IRX1_SCRIPT_LEN) && beqb (take 2 s) [0x6a; 0x24] && beqb (take 4 (drop 2 s)) IRX1_TAG.

Definition block_has_irx1_commitment (b : FullBlock) : bool :=
  match transactions b with
  | [] => false
  | coinbase :: _ =>
      existsb (fun out => irx1_script (script_pubkey out) && negb (beqb (drop 6 (script_pubkey out)) (zeros 32)))
        (tx_outputs coinbase)
  end.

Fixpoint first_irx1_root (outs : list TxOutput) : option bytes :=
  match outs with
  | [] => None
  | out :: outs => if irx1_script (script_pubkey out) then Some (drop 6 (script_pubkey out)) else first_irx1_root outs
  end.

Definition irx1_root_from_block_bytes (b : FullBlock) : option bytes :=
  coinbase ← head (transactions b); first_irx1_root (tx_outputs coinbase).

(** ** The seed of an epoch *)
Definition first_ext (b : FullBlock) : option Phase20ReceiptExt :=
  rs ← poawx_receipts b; r ← head rs; rc_phase20_ext r.

Definition first_sections (b : FullBlock) : option Sections := x_sections <$> first_ext b.

Section rules.
Context `{C : Crypto} (env : Env) (std_header_activation : Z).

Definition seed_components_from_block (b : option FullBlock) : bytes * bytes :=
  let ext := b ← b; first_ext b in
  (default (zeros 32) (x ← ext; fp ← finality_proof (x_sections x); Some (finality_proof_digest fp)),
   default (zeros 32) (x ← ext; x_precommit_root x)).

Definition expected_epoch_seed (target_height : Z) (target_prev_hash : bytes) (parent : option FullBlock) : bytes :=
  let base := admission_epoch_seed ((fun b => prev_hash (bheader b)) <$> parent) target_prev_hash in
  let '(fin, pre) := seed_components_from_block parent in
  resolve_epoch_seed_parts env target_height base fin pre.

(** ** Gates *)
Definition poawx_block_difficulty_bits : Z :=
  if network_id_byte env =? 0 then 20 else
  match env "IRIUM_POAWX_PUZZLE_DIFFICULTY_BITS"%string with
  | None => 8
  | Some v =>
      if (trim v =? "")%string then 8 else
      match parse_u64 (trim v) with
      | Some n => if n <=? U32_MAX then Z.min n 24 else 0
      | None => 0
      end
  end.

Definition poawx_delegation_active (height : Z) : bool :=
  if bool_decide (network_kind_from_env env = Mainnet) then false
  else active_at (poawx_delegation_activation_height env) height.

Definition multi_role_reward_active (height : Z) : bool :=
  active_at (poawx_effective_activation (network_id_byte env) (poawx_multi_role_reward_activation_height env)) height.

Definition fairness_matrix_active (height : Z) : bool :=
  active_at (poawx_effective_activation (network_id_byte env) (poawx_fairness_matrix_activation_height env)) height.

Definition third_party_fee_active (height : Z) : bool :=
  if bool_decide (network_kind_from_env env = Mainnet) then false
  else active_at (poawx_third_party_fee_activation_height env) height.

Definition third_party_pool_mode_enabled : bool :=
  if bool_decide (network_kind_from_env env = Mainnet) then false
  else env_flag env "IRIUM_POAWX_THIRD_PARTY_POOL_MODE".

Definition hidden_precommit_active (height : Z) : bool :=
  active_at (poawx_effective_activation (network_id_byte env) (poawx_hidden_precommit_activation_height env)) height.

Definition phase20_production_active (height : Z) : bool :=
  multi_role_reward_active height && fairness_matrix_active height.

(** ** The coinbase *)
Definition validate_poawx_coinbase (b : FullBlock) (height : Z) : res string unit :=
  if negb (poawx_consensus_active env height) then Ok tt else
  if negb (block_has_irx1_commitment b) then Err "connect_block: poawx irx1 commitment missing"%string else
  Ok tt.

Definition parse_p2pkh_pkh (script : bytes) : option bytes :=
  if (len script =? 25) && beqb (take 3 script) [0x76; 0xa9; 0x14] && beqb (drop 23 script) [0x88; 0xac]
  then Some (take 20 (drop 3 script)) else None.

(** The outputs to key hashes, in order; any other output must carry nothing. *)
Fixpoint p2pkh_outputs (e : string) (outs : list TxOutput) : res string (list (bytes * Z)) :=
  match outs with
  | [] => Ok []
  | out :: outs =>
      match parse_p2pkh_pkh (script_pubkey out) with
      | Some pkh => rest ← p2pkh_outputs e outs; Ok ((pkh, value out) :: rest)
      | None => if negb (value out =? 0) then Err e else p2pkh_outputs e outs
      end
  end.

(** The loop over [expected], both lists having the same length. *)
Definition match_outputs (order_error amount_error : string) (expected actual : list (bytes * Z)) : res string unit :=
  check_all (fun '((epkh, eval), (pkh, v)) =>
    if negb (beqb pkh epkh) then Err order_error else
    if negb (v =? eval) then Err amount_error else Ok tt) (zip expected actual).

(** [iter().sum()] on [u64] *)
Definition sum64 (vs : list Z) : Z := foldl wadd64 0 vs.

Definition validate_multi_role_coinbase_outputs (outs : list TxOutput) (primary_pkh : bytes) (role : RoleReward)
    (total_reward : Z) : res string unit :=
  let '(a0, a1, a2, a3) := multi_role_amounts total_reward in
  let expected := [(primary_pkh, a0); (compute_contributor_pkh role, a1); (verify_contributor_pkh role, a2);
                   (support_contributor_pkh role, a3)] in
  p2pkh ← p2pkh_outputs "multi-role coinbase: value-bearing non-p2pkh output (hidden fee?)" outs;
  if negb (len p2pkh =? 4) then Err "multi-role coinbase: expected exactly 4 role outputs"%string else
  _ ← match_outputs "multi-role coinbase: role index pkh/order mismatch"
        "multi-role coinbase: role index amount mismatch" expected p2pkh;
  if negb (sum64 [a0; a1; a2; a3] =? total_reward) then Err "multi-role coinbase: split sum != total reward"%string
  else Ok tt.

(** The outputs a coinbase must have. *)
Definition expected_payout (primary_pkh : bytes) (total_reward : Z) (role : option RoleReward)
    (fee : option (Z * bytes)) : list (bytes * Z) :=
  let '(primary_gross, role_outs) :=
    match role with
    | Some r =>
        let '(a0, a1, a2, a3) := multi_role_amounts total_reward in
        (a0, [(compute_contributor_pkh r, a1); (verify_contributor_pkh r, a2); (support_contributor_pkh r, a3)])
    | None => (total_reward, [])
    end in
  let '(primary_net, fee_out) :=
    match fee with
    | Some (bps, fpkh) =>
        if 0 <? bps then let '(net, f) := apply_fee primary_gross bps in (net, [(fpkh, f)]) else (primary_gross, [])
    | None => (primary_gross, [])
    end in
  (primary_pkh, primary_net) :: role_outs ++ fee_out.

Definition validate_poawx_coinbase_payout (outs : list TxOutput) (primary_pkh : bytes) (total_reward : Z)
    (role : option RoleReward) (fee : option (Z * bytes)) : res string unit :=
  let expected := expected_payout primary_pkh total_reward role fee in
  p2pkh ← p2pkh_outputs "poawx coinbase: value-bearing non-p2pkh output (hidden fee?)" outs;
  if negb (len p2pkh =? len expected) then Err "poawx coinbase: wrong number of payout outputs"%string else
  _ ← match_outputs "poawx coinbase: output pkh/order mismatch" "poawx coinbase: output amount mismatch" expected p2pkh;
  if negb (sum64 (snd <$> expected) =? total_reward) then Err "poawx coinbase: payout sum != total reward"%string
  else Ok tt.

Definition validate_phase20_production_payout (outs : list TxOutput) (primary_pkh : bytes) (total_reward height : Z)
    (prev_hash : bytes) (network_id : Z) (ext : Phase20ReceiptExt) (third_party_mode : bool) : res string unit :=
  _ ← check_all (fun '(expected_role, claim) =>
        if negb (cl_role_id claim =? expected_role) then Err "phase20: claim role_id != expected"%string else
        validate_role_claim claim network_id height prev_hash 0)
      [(ROLE_COMPUTE_CONTRIBUTOR, x_compute_claim ext); (ROLE_VERIFY_CONTRIBUTOR, x_verify_claim ext);
       (ROLE_SUPPORT_CONTRIBUTOR, x_support_claim ext)];
  let rr := x_role_reward ext in
  if negb (beqb (compute_contributor_pkh rr) (cl_solver_pkh (x_compute_claim ext)))
     || negb (beqb (verify_contributor_pkh rr) (cl_solver_pkh (x_verify_claim ext)))
     || negb (beqb (support_contributor_pkh rr) (cl_solver_pkh (x_support_claim ext)))
  then Err "phase20: RoleReward pkh does not match validated role claim"%string else
  _ ← validate_fee_terms (x_fee_bps ext) (x_fee_pkh ext) third_party_mode;
  let fee := if 0 <? x_fee_bps ext then Some (x_fee_bps ext, x_fee_pkh ext) else None in
  validate_poawx_coinbase_payout outs primary_pkh total_reward (Some rr) fee.

(** ** Tickets and precommits *)
Definition validate_phase20_ticket_proofs (receipts : list PoawxBlockReceipt) (height : Z) (prev_hash : bytes)
    (network_id : Z) : res string unit :=
  let require_sybil := effective_sybil_bits env in
  let penalty_enforced := penalty_state_enforced env height in
  check_all (fun r =>
    ext ← ok_or (rc_phase20_ext r) "phase20: ticket gate active but receipt missing extension"%string;
    proofs ← ok_or (role_ticket_proofs (x_sections ext)) "phase20: ticket gate active but receipt missing ticket proofs"%string;
    let rr := x_role_reward ext in
    check_all (fun '(j, (role_id, solver)) =>
      proof ← idx proofs j;
      map_err (fun e => "phase20: receipt role ticket proof invalid: " +:+ e)
        (validate_ticket_proof env proof network_id height prev_hash role_id solver require_sybil penalty_enforced))
      [(0, (ROLE_COMPUTE_CONTRIBUTOR, compute_contributor_pkh rr));
       (1, (ROLE_VERIFY_CONTRIBUTOR, verify_contributor_pkh rr));
       (2, (ROLE_SUPPORT_CONTRIBUTOR, support_contributor_pkh rr))]) receipts.

Definition validate_hidden_precommit (receipts : list PoawxBlockReceipt) (height network_id : Z) : res string unit :=
  if bool_decide (poawx_hidden_precommit_activation_height env = Some height) then Ok tt else
  check_all (fun r =>
    ext ← ok_or (rc_phase20_ext r) "hidden precommit: receipt missing extension"%string;
    own_root ← ok_or (x_precommit_root ext) "hidden precommit: receipt missing precommit_root"%string;
    l1 ← role_precommit_leaf_for_claim (x_compute_claim ext) network_id height;
    l2 ← role_precommit_leaf_for_claim (x_verify_claim ext) network_id height;
    l3 ← role_precommit_leaf_for_claim (x_support_claim ext) network_id height;
    if negb (beqb (role_precommit_root [l1; l2; l3]) own_root)
    then Err "hidden precommit: role-claim leaves root != own committed root"%string else Ok tt) receipts.

Definition validate_phase20_production_block (b : FullBlock) (receipts : list PoawxBlockReceipt) (height : Z)
    (prev_hash : bytes) : res string unit :=
  coinbase ← ok_or (head (transactions b)) "phase20: no coinbase for production payout check"%string;
  let total_reward := block_reward env height in
  let network_id := network_id_byte env in
  let third_party_mode := third_party_fee_active height && third_party_pool_mode_enabled in
  _ ← check_all (fun r =>
        ext ← ok_or (rc_phase20_ext r) "phase20: production active but receipt missing extension"%string;
        _ ← match rc_delegation r with
            | Some d =>
                if negb (x_fee_bps ext =? dg_fee_bps d) || negb (beqb (x_fee_pkh ext) (dg_fee_pkh d))
                then Err "phase20: receipt extension fee terms != signed delegation fee terms"%string else Ok tt
            | None => Ok tt
            end;
        validate_phase20_production_payout (tx_outputs coinbase) (rc_worker_pkh r) total_reward height prev_hash
          network_id ext third_party_mode) receipts;
  _ ← (if hidden_precommit_active height then validate_hidden_precommit receipts height network_id else Ok tt);
  if tickets_enforced env height then validate_phase20_ticket_proofs receipts height prev_hash network_id else Ok tt.

(** ** The reward of the workers, outside production mode *)
Definition count_workers (receipts : list PoawxBlockReceipt) : gmap bytes Z :=
  foldl (fun m r => <[rc_worker_pkh r := default 0 (m !! rc_worker_pkh r) + 1]> m) ∅ receipts.

Definition paid_to (outs : list TxOutput) (script : bytes) : Z :=
  sum64 (value <$> filter (fun out => script_pubkey out = script) outs).

(** The counts are checked in the order of the map, which only decides which
    error is reported. *)
Definition validate_poawx_reward_split_from_block (b : FullBlock) (receipts : list PoawxBlockReceipt) (height : Z)
    : res string unit :=
  if bool_decide (receipts = []) then Ok tt else
  coinbase ← ok_or (head (transactions b)) "connect_block: no coinbase for reward split check"%string;
  let worker_due := as_u64 (block_reward env height * POAWX_WORKER_REWARD_PERMILLE) / 1000 in
  check_all (fun '(pkh, count) =>
    if paid_to (tx_outputs coinbase) (p2pkh_script pkh) <? sat_mul64 worker_due count
    then Err "connect_block: worker underpaid"%string else Ok tt) (map_to_list (count_workers receipts)).

(** ** Receipts *)
Definition assignment_seed (parent_hash : bytes) (parent_height : Z) : bytes :=
  sha256 (parent_hash ++ le_bytes 8 parent_height ++ byte_string "poawx_assignment_seed_v1").
Definition assignment_nonce (seed : bytes) : bytes := sha256 (seed ++ byte_string "commitment_nonce").

Definition receipt_challenge (r : PoawxBlockReceipt) : bytes :=
  sha256 (rc_solution r ++ rc_commitment_nonce r ++ le_bytes 8 (rc_height r)).

(** Mode 0: the worker signs. *)
Definition validate_direct_receipt (r : PoawxBlockReceipt) (height : Z) : res string unit :=
  vk ← ok_or (VerifyingKey_from_sec1_bytes (rc_worker_pubkey r)) "connect_block: receipt invalid worker_pubkey"%string;
  if negb (beqb (hash160 (rc_worker_pubkey r)) (rc_worker_pkh r))
  then Err "connect_block: receipt worker_pkh/pubkey mismatch"%string else
  sg ← ok_or (Signature_from_slice (rc_worker_sig r)) "connect_block: receipt malformed worker_sig"%string;
  if audit_hardening_active env height && normalize_s_is_some sg
  then Err "connect_block: receipt non-canonical (high-S) worker_sig"%string else
  if negb (verify_prehash vk (receipt_challenge r) sg)
  then Err "connect_block: receipt worker_sig verification failed"%string else Ok tt.

(** Mode 1: the pool the miner delegated to signs. *)
Definition validate_delegated_receipt (r : PoawxBlockReceipt) (d : Delegation) (height : Z) : res string unit :=
  if negb (poawx_delegation_active height)
  then Err "connect_block: mode-1 delegated receipt before delegation activation"%string else
  if negb (dg_network_id d =? network_id_byte env) then Err "connect_block: receipt delegation network_id mismatch"%string else
  if negb (beqb (miner_pkh d) (rc_worker_pkh r)) then Err "connect_block: receipt delegation miner_pkh != worker_pkh"%string else
  if dg_expiry_height d <? height then Err "connect_block: receipt delegation expired"%string else
  _ ← (if negb (dg_fee_bps d =? 0) then
         if negb (third_party_fee_active height && third_party_pool_mode_enabled)
         then Err "connect_block: receipt nonzero delegation fee_bps rejected"%string else
         if THIRD_PARTY_FEE_CAP_BPS <? dg_fee_bps d then Err "connect_block: receipt delegation fee_bps exceeds cap"%string else
         if beqb (dg_fee_pkh d) (zeros 20)
         then Err "connect_block: receipt nonzero delegation fee_bps with zero fee_pkh"%string else Ok tt
       else Ok tt);
  _ ← map_err (fun e => "connect_block: receipt " +:+ e) (verify_delegation_signature d);
  if negb (beqb (rc_worker_pubkey r) (dg_pool_pubkey d))
  then Err "connect_block: receipt signer != delegated pool_pubkey"%string else
  vk ← ok_or (VerifyingKey_from_sec1_bytes (rc_worker_pubkey r)) "connect_block: receipt invalid signer pubkey"%string;
  sg ← ok_or (Signature_from_slice (rc_worker_sig r)) "connect_block: receipt malformed signer sig"%string;
  if audit_hardening_active env height && normalize_s_is_some sg
  then Err "connect_block: receipt non-canonical (high-S) signer sig"%string else
  if negb (verify_prehash vk (receipt_challenge r) sg)
  then Err "connect_block: receipt signer sig verification failed"%string else Ok tt.

Definition validate_receipt (seed expected_nonce : bytes) (difficulty height : Z) (r : PoawxBlockReceipt)
    : res string unit :=
  if negb (beqb (rc_commitment_nonce r) expected_nonce)
  then Err "connect_block: receipt commitment_nonce mismatch"%string else
  _ ← match rc_delegation r with
      | None => validate_direct_receipt r height
      | Some d => validate_delegated_receipt r d height
      end;
  let leading := count_leading_zero_bits (sha256d (seed ++ expected_nonce ++ rc_solution r)) in
  if leading <? difficulty then Err "connect_block: receipt insufficient puzzle PoW"%string else Ok tt.

Definition validate_poawx_block_receipts (b : FullBlock) (height : Z) (previous : option FullBlock)
    : res string unit :=
  _ ← (if bool_decide (network_kind_from_env env = Mainnet)
          && existsb (fun r => is_some (rc_delegation r)) (default [] (poawx_receipts b))
       then Err "connect_block: delegated (mode-1) poawx receipts rejected on mainnet"%string else Ok tt);
  if negb (poawx_consensus_active env height) then Ok tt else
  match default [] (poawx_receipts b) with
  | [] => Err "connect_block: poawx receipts missing or empty"%string
  | receipts =>
      coinbase_root ← ok_or (irx1_root_from_block_bytes b) "connect_block: no irx1 OP_RETURN in coinbase"%string;
      if beqb coinbase_root (zeros 32) then Err "connect_block: zero irx1 root"%string else
      let phase20_active := phase20_production_active height in
      if negb (beqb (irx1_root_from_block_receipts_audit receipts phase20_active (audit_hardening_active env height))
                 coinbase_root) then Err "connect_block: irx1 root mismatch"%string else
      if audit_hardening_active env height && existsb (fun r => negb (rc_lane r =? 65)) receipts
      then Err "connect_block: non-canonical receipt lane (audit)"%string else
      parent_block ← ok_or previous "connect_block: no parent block for poawx nonce derivation"%string;
      let parent_height := sat_sub height 1 in
      let parent_hash := hash_for_height std_header_activation (bheader parent_block) parent_height in
      let seed := assignment_seed parent_hash parent_height in
      let expected_nonce := assignment_nonce seed in
      let difficulty := effective_puzzle_difficulty_bits env poawx_block_difficulty_bits height in
      _ ← check_all (validate_receipt seed expected_nonce difficulty height) receipts;
      if phase20_active then validate_phase20_production_block b receipts height parent_hash
      else validate_poawx_reward_split_from_block b receipts height
  end.
End rules.

(** ** The coinbase *)
Definition payout_of (out : TxOutput) : option (bytes * Z) := (fun pkh => (pkh, value out)) <$> parse_p2pkh_pkh (script_pubkey out).

(** No output but those to key hashes carries a value. *)
Definition no_hidden_fee (out : TxOutput) : Prop := payout_of out = None -> value out = 0.

Lemma p2pkh_outputs_ok e outs l :
  p2pkh_outputs e outs = Ok l <-> Forall no_hidden_fee outs /\ omap payout_of outs = l.
Proof.
  revert l. induction outs as [|o outs IH]; intros l; cbn.
  - split; [intros [= <-]; done | intros [_ <-]; done].
  - rewrite Forall_cons. unfold no_hidden_fee at 1, payout_of at 1 2.
    destruct (parse_p2pkh_pkh (script_pubkey o)) as [pkh|]; cbn [fmap option_fmap option_map].
    + destruct (p2pkh_outputs e outs) as [r| |] eqn:Hr; cbn [mbind res_bind].
      * destruct (proj1 (IH r) eq_refl) as [Hf Ho]. split; [intros [= <-] | intros [_ <-]]; [|by rewrite Ho].
        by rewrite Ho.
      * split; [done|]. intros [[_ Hf] <-]. by specialize (proj2 (IH _) (conj Hf eq_refl)).
      * split; [done|]. intros [[_ Hf] <-]. by specialize (proj2 (IH _) (conj Hf eq_refl)).
    + destruct (value o =? 0) eqn:Hv; cbn [negb].
      * rewrite IH. split; [intros [Hf <-] | intros [[_ Hf] <-]]; [|done]. split; [split; [intros; lia | done] | done].
      * split; [done|]. intros [[Ho _] _]. specialize (Ho eq_refl). lia.
Qed.

Lemma match_outputs_ok e1 e2 l1 : forall l2, length l1 = length l2 -> match_outputs e1 e2 l1 l2 = Ok tt <-> l2 = l1.
Proof.
  unfold match_outputs. induction l1 as [|[k v] l1 IH]; intros [|[k' v'] l2] Hl; [done..|]. injection Hl as Hl. cbn.
  specialize (IH l2 Hl). unfold beqb. case_bool_decide as Hk; cbn [negb]; [|split; [done | intros [= ??]; done]].
  destruct (v' =? v) eqn:Hv; cbn [negb mbind res_bind]; [|split; [done | intros [= ???]; lia]].
  rewrite IH. apply Z.eqb_eq in Hv. subst. split; [by intros -> | by intros [= ->]].
Qed.

Lemma sum64_exact vs : forall acc, Forall (Z.le 0) vs -> 0 <= acc -> acc + foldr Z.add 0 vs < 2 ^ 64 ->
  foldl wadd64 acc vs = acc + foldr Z.add 0 vs.
Proof.
  induction vs as [|v vs IH]; intros acc Hv Ha Hs; cbn in *; [lia|]. apply Forall_cons in Hv as [Hv Hvs].
  assert (0 <= foldr Z.add 0 vs) as Hf by (clear -Hvs; induction Hvs; cbn; lia).
  assert (wadd64 acc v = acc + v) as -> by (unfold wadd64; apply Z.mod_small; lia). rewrite IH; [lia | done | lia | lia].
Qed.

Lemma sum64_app l1 l2 : foldr Z.add 0 (l1 ++ l2) = foldr Z.add 0 l1 + foldr Z.add 0 l2.
Proof. induction l1; cbn; lia. Qed.

(** The expected payout adds up to the reward. *)
Lemma expected_payout_sum primary total role fee : u64 total -> from_option (fun f => 0 <= f.1 <= 10000) True fee ->
  Forall (Z.le 0) (snd <$> expected_payout primary total role fee) /\
  foldr Z.add 0 (snd <$> expected_payout primary total role fee) = total.
Proof.
  intros Ht Hf. unfold expected_payout.
  set (g := match role with Some r => _ | None => _ end).
  assert (exists gross outs, g = (gross, outs) /\ Forall (Z.le 0) (snd <$> outs) /\ 0 <= gross <= total /\
    gross + foldr Z.add 0 (snd <$> outs) = total) as (gross & outs & -> & Hp & Hg & Hs).
  { unfold g. destruct role as [r|].
    - pose proof (multi_role_amounts_exact total Ht) as Hm. destruct (multi_role_amounts total) as [[[a0 a1] a2] a3].
      destruct Hm as (Hsum & -> & -> & -> & Hpp). eexists _, _. split; [done|]. unfold u64 in *.
      assert (forall k, 0 <= k -> 0 <= total * k / 10000) as Hk by (intros; apply Z.div_pos; nia).
      pose proof (Hk 2200 ltac:(lia)). pose proof (Hk 1300 ltac:(lia)). pose proof (Hk 1000 ltac:(lia)).
      pose proof (Hk 5500 ltac:(lia)). split_and!; [|lia..|cbn; lia]. repeat constructor; cbn; lia.
    - eexists _, _. split; [done|]. unfold u64 in *. cbn. split_and!; [constructor | lia..]. }
  set (x := match fee with Some _ => _ | None => _ end).
  assert (exists net fo, x = (net, fo) /\ Forall (Z.le 0) (snd <$> fo) /\ 0 <= net /\
    net + foldr Z.add 0 (snd <$> fo) = gross) as (net & fo & -> & Hpf & Hn & Hsf).
  { unfold x. destruct fee as [[bps fpkh]|]; [|eexists _, _; split; [done|]; cbn; split_and!; [constructor | lia..]].
    cbn in Hf. destruct (0 <? bps); [|eexists _, _; split; [done|]; cbn; split_and!; [constructor | lia..]].
    assert (u64 gross) as Hu by (unfold u64 in *; lia). pose proof (apply_fee_exact gross bps Hu Hf) as Ha.
    destruct (apply_fee gross bps) as [n f]. destruct Ha as (Hn1 & Hn2 & ->). eexists _, _. split; [done|].
    unfold u64 in *. assert (0 <= gross * bps / 10000) by (apply Z.div_pos; nia).
    cbn. split_and!; [by repeat constructor | lia | lia]. }
  rewrite fmap_cons, fmap_app. cbn [foldr snd]. rewrite sum64_app. split; [|lia].
  constructor; [done|]. by apply Forall_app.
Qed.

Lemma values_paid outs : Forall no_hidden_fee outs ->
  foldr Z.add 0 (value <$> outs) = foldr Z.add 0 (snd <$> omap payout_of outs).
Proof.
  induction 1 as [|o outs Ho Hf IH]; [done|]. cbn. unfold no_hidden_fee in Ho. unfold payout_of in *.
  destruct (parse_p2pkh_pkh _); cbn in *; [by rewrite IH|]. rewrite Ho by done. by rewrite IH.
Qed.

(** ** Receipts *)
Definition signed_by (pubkey challenge sig : bytes) `{C : Crypto} : Prop :=
  exists vk sg, VerifyingKey_from_sec1_bytes pubkey = Some vk /\ Signature_from_slice sig = Some sg /\
    verify_prehash vk challenge sg = true.

(** What a receipt must show: its puzzle, the signature of the worker over its
    solution, and that the worker is who is paid, or a pool the payee has
    delegated to for this height. *)
Record receipt_proved `{C : Crypto} (env : Env) (seed : bytes) (difficulty height : Z) (r : PoawxBlockReceipt) : Prop := {
  rp_nonce : rc_commitment_nonce r = assignment_nonce seed;
  rp_puzzle : difficulty <= count_leading_zero_bits (sha256d (seed ++ assignment_nonce seed ++ rc_solution r));
  rp_signed : signed_by (rc_worker_pubkey r) (receipt_challenge r) (rc_worker_sig r);
  rp_payee :
    match rc_delegation r with
    | None => hash160 (rc_worker_pubkey r) = rc_worker_pkh r
    | Some d =>
        network_id_byte env <> 0 /\ dg_network_id d = network_id_byte env /\ height <= dg_expiry_height d /\
        hash160 (dg_miner_pubkey d) = rc_worker_pkh r /\ dg_pool_pubkey d = rc_worker_pubkey r /\
        signed_by (dg_miner_pubkey d) (delegation_message_hash d) (dg_sig d)
    end
}.

Ltac beqb_facts :=
  repeat match goal with
  | H : negb _ = false |- _ => apply negb_false_iff in H
  | H : beqb ?a ?b = true |- _ => apply bool_decide_eq_true in H
  | H : (?a =? ?b) = true |- _ => apply Z.eqb_eq in H
  end.

Lemma delegation_signed `{C : Crypto} d u : verify_delegation_signature d = Ok u ->
  signed_by (dg_miner_pubkey d) (delegation_message_hash d) (dg_sig d).
Proof. intros H. unfold verify_delegation_signature in H. repeat accepted_step H. case_match; [|done]. by eexists _, _. Qed.

Section receipts.
Context `{C : Crypto} (env : Env).

Lemma direct_receipt_sound r height : validate_direct_receipt env r height = Ok tt ->
  signed_by (rc_worker_pubkey r) (receipt_challenge r) (rc_worker_sig r) /\ hash160 (rc_worker_pubkey r) = rc_worker_pkh r.
Proof. intros H. unfold validate_direct_receipt in H. repeat accepted_step H. beqb_facts. split; [by eexists _, _ | done]. Qed.

Lemma delegated_receipt_sound r d height : validate_delegated_receipt env r d height = Ok tt ->
  signed_by (rc_worker_pubkey r) (receipt_challenge r) (rc_worker_sig r) /\
  network_id_byte env <> 0 /\ dg_network_id d = network_id_byte env /\ height <= dg_expiry_height d /\
  hash160 (dg_miner_pubkey d) = rc_worker_pkh r /\ dg_pool_pubkey d = rc_worker_pubkey r /\
  signed_by (dg_miner_pubkey d) (delegation_message_hash d) (dg_sig d).
Proof.
  intros H. unfold validate_delegated_receipt in H. repeat accepted_step H. beqb_facts.
  split; [by eexists _, _|]. split_and!; [|done | lia | done | done |].
  - unfold poawx_delegation_active, network_id_byte in *. by destruct (network_kind_from_env env).
  - destruct (verify_delegation_signature d) eqn:Hv; [by eapply delegation_signed | done..].
Qed.

Lemma receipt_sound seed difficulty height r :
  validate_receipt env seed (assignment_nonce seed) difficulty height r = Ok tt ->
  receipt_proved env seed difficulty height r.
Proof.
  intros H. unfold validate_receipt in H. repeat accepted_step H. clear H. beqb_facts.
  destruct (rc_delegation r) as [d|] eqn:Hd; match goal with Hv : _ = Ok ?u |- _ => destruct u; rename Hv into Hs end.
  - apply delegated_receipt_sound in Hs as (? & ?). split; [done | lia | done | by rewrite Hd].
  - apply direct_receipt_sound in Hs as (? & ?). split; [done | lia | done | by rewrite Hd].
Qed.
End receipts.

(** ** The share of the workers *)
Lemma count_workers_spec rs : forall (m : gmap bytes Z) pkh, (default 0 (m !! pkh) +
  len (filter (fun r => rc_worker_pkh r = pkh) rs) =
  default 0 (foldl (fun m r => <[rc_worker_pkh r := default 0 (m !! rc_worker_pkh r) + 1]> m) m rs !! pkh)).
Proof.
  induction rs as [|r rs IH]; intros m pkh; [unfold len; cbn; lia|]. cbn [foldl]. rewrite <- IH. rewrite filter_cons.
  destruct (decide (rc_worker_pkh r = pkh)) as [<-|Hn].
  - rewrite lookup_insert_eq, len_cons. cbn. lia.
  - by rewrite lookup_insert_ne.
Qed.

Lemma worker_counted rs r : r ∈ rs ->
  count_workers rs !! rc_worker_pkh r = Some (len (filter (fun r' => rc_worker_pkh r' = rc_worker_pkh r) rs)).
Proof.
  intros Hr. unfold count_workers. pose proof (count_workers_spec rs ∅ (rc_worker_pkh r)) as H.
  rewrite lookup_empty in H. cbn [default] in H.
  assert (0 < len (filter (fun r' => rc_worker_pkh r' = rc_worker_pkh r) rs)) as Hp.
  { unfold len. destruct (filter _ rs) eqn:Hf; [|cbn; lia]. exfalso.
    assert (r ∈ filter (fun r' => rc_worker_pkh r' = rc_worker_pkh r) rs) as Hin by (by apply list_elem_of_filter).
    rewrite Hf in Hin. by apply not_elem_of_nil in Hin. }
  destruct (foldl _ _ _ !! _); cbn in H; [f_equal; lia | lia].
Qed.

Lemma split_pays env (b : FullBlock) rs h r : validate_poawx_reward_split_from_block env b rs h = Ok tt -> r ∈ rs ->
  exists coinbase, head (transactions b) = Some coinbase /\
    sat_mul64 (as_u64 (block_reward env h * POAWX_WORKER_REWARD_PERMILLE) / 1000)
      (len (filter (fun r' => rc_worker_pkh r' = rc_worker_pkh r) rs))
    <= paid_to (tx_outputs coinbase) (p2pkh_script (rc_worker_pkh r)).
Proof.
  intros H Hr. unfold validate_poawx_reward_split_from_block in H.
  case_bool_decide; [subst; by apply not_elem_of_nil in Hr|]. accepted_step H. exists t. split; [done|].
  apply check_all_ok in H. rewrite Forall_forall in H. specialize (H (rc_worker_pkh r, _)
    (proj2 (elem_of_map_to_list _ _ _) (worker_counted rs r Hr))). lazy beta iota zeta in H. case_match; [done | lia].
Qed.

(** ** The main network *)
Lemma mainnet_tickets_refused `{C : Crypto} env r rs h prev :
  validate_phase20_ticket_proofs env (r :: rs) h prev 0 <> Ok tt.
Proof.
  unfold validate_phase20_ticket_proofs. cbn [check_all]. destruct (rc_phase20_ext r) as [x|]; [|done]. res_simpl.
  destruct (role_ticket_proofs (x_sections x)) as [ps|]; [|done]. res_simpl.
  by destruct (idx ps 0); res_simpl; rewrite ?mainnet_refuses_proof.
Qed.

Lemma mainnet_production env h : network_id_byte env = 0 -> 50000 <= h ->
  poawx_consensus_active env h = true /\ phase20_production_active env h = true /\ tickets_enforced env h = true.
Proof.
  intros Hn Hh. unfold poawx_consensus_active, phase20_production_active, multi_role_reward_active,
    fairness_matrix_active, tickets_enforced, tickets_active, tickets_required, tickets_gate, poawx_effective_activation.
  rewrite Hn. cbn [Z.eqb]. unfold active_at, MAINNET_POAWX_ACTIVATION_HEIGHT. rewrite andb_true_r. lia.
Qed.

Lemma mainnet_receipts_refused `{C : Crypto} env act (b : FullBlock) h previous :
  network_id_byte env = 0 -> 50000 <= h -> validate_poawx_block_receipts env act b h previous <> Ok tt.
Proof.
  intros Hn Hh H. destruct (mainnet_production env h Hn Hh) as (Hc & Hp & Ht).
  unfold validate_poawx_block_receipts in H. rewrite Hc, Hp in H. cbn [negb] in H.
  accepted_step H. destruct (default [] (poawx_receipts b)) as [|r rs]; [done|].
  repeat accepted_step H. unfold validate_phase20_production_block in H. rewrite Ht, Hn in H.
  repeat accepted_step H. by apply mainnet_tickets_refused in H.
Qed.

(** The check of a coinbase, as a statement about its outputs. *)
Lemma payout_accepted_iff outs primary total role fee :
  u64 total -> from_option (fun f => 0 <= f.1 <= 10000) True fee ->
  validate_poawx_coinbase_payout outs primary total role fee = Ok tt <->
  Forall no_hidden_fee outs /\ omap payout_of outs = expected_payout primary total role fee.
Proof.
  intros Ht Hf. pose proof (expected_payout_sum primary total role fee Ht Hf) as [Hp Hs].
  unfold validate_poawx_coinbase_payout. set (e := expected_payout primary total role fee) in *.
  assert (sum64 (snd <$> e) = total) as He.
  { unfold sum64. rewrite sum64_exact; [lia | done | lia | unfold u64 in *; lia]. }
  rewrite He, Z.eqb_refl. cbn [negb]. split.
  - intros H. accepted_step H. apply p2pkh_outputs_ok in Heqr as [Hh <-]. accepted_step H.
    split; [done|]. destruct (match_outputs _ _ _ _) as [[]| |] eqn:Hm; [|done..].
    apply match_outputs_ok in Hm; [done|]. unfold len in *. lia.
  - intros [Hh Ho]. rewrite (proj2 (p2pkh_outputs_ok _ outs e)) by done. res_simpl. rewrite Z.eqb_refl. cbn [negb].
    rewrite (proj2 (match_outputs_ok _ _ e e eq_refl)) by done. done.
Qed.

(** ** Theorems *)

(** C8: A production coinbase pays exactly what it should: it is accepted if and
    only if its outputs to key hashes are the expected ones in order (the
    producer net of the fee, the three contributors, the fee) and no other output
    carries a value; its outputs then add up to the reward. *)
Theorem coinbase_pays_exactly outs primary total role fee :
  u64 total -> from_option (fun f => 0 <= f.1 <= 10000) True fee ->
  (validate_poawx_coinbase_payout outs primary total role fee = Ok tt <->
   Forall no_hidden_fee outs /\ omap payout_of outs = expected_payout primary total role fee) /\
  (validate_poawx_coinbase_payout outs primary total role fee = Ok tt -> foldr Z.add 0 (value <$> outs) = total).
Proof.
  intros Ht Hf. pose proof (expected_payout_sum primary total role fee Ht Hf) as [_ Hs].
  pose proof (payout_accepted_iff outs primary total role fee Ht Hf) as Hiff.
  split; [exact Hiff|]. intros H. apply Hiff in H as [Hh Ho]. rewrite values_paid by done. by rewrite Ho.
Qed.

Definition payout_outputs (l : list (bytes * Z)) : list TxOutput :=
  (fun '(k, v) => {| value := v; script_pubkey := p2pkh_script k |}) <$> l.

Definition sample_rewards : RoleReward :=
  {| compute_contributor_pkh := zeros 20; verify_contributor_pkh := replicate 20 7; support_contributor_pkh := zeros 20 |}.

Lemma coinbase_pays_exactly_witness :
  let outs := payout_outputs (expected_payout (zeros 20) 5000000001 (Some sample_rewards) (Some (150, replicate 20 9))) in
  validate_poawx_coinbase_payout outs (zeros 20) 5000000001 (Some sample_rewards) (Some (150, replicate 20 9)) = Ok tt /\
  foldr Z.add 0 (value <$> outs) = 5000000001.
Proof.
  split; [by vm_compute|]. apply (coinbase_pays_exactly _ (zeros 20) _ (Some sample_rewards) (Some (150, replicate 20 9)));
    [split; lia | cbn; lia | by vm_compute].
Defined.

(** The older check of the four role outputs is the general one without a
    fee: the two accept the same coinbases. *)
Theorem role_checks_agree outs primary total role : u64 total ->
  validate_multi_role_coinbase_outputs outs primary role total = Ok tt <->
  validate_poawx_coinbase_payout outs primary total (Some role) None = Ok tt.
Proof.
  intros Ht. rewrite (payout_accepted_iff _ primary total (Some role) None Ht I).
  pose proof (expected_payout_sum primary total (Some role) None Ht I) as [Hp Hs].
  unfold validate_multi_role_coinbase_outputs. unfold expected_payout in *.
  destruct (multi_role_amounts total) as [[[a0 a1] a2] a3]. cbn [app] in *. cbn [fmap list_fmap snd] in *.
  assert (sum64 [a0; a1; a2; a3] = total) as He.
  { unfold sum64. rewrite sum64_exact; [lia | done | lia | unfold u64 in *; lia]. }
  rewrite He, Z.eqb_refl. cbn [negb]. split.
  - intros H. accepted_step H. apply p2pkh_outputs_ok in Heqr as [Hh <-]. accepted_step H. split; [done|].
    destruct (match_outputs _ _ _ _) as [[]| |] eqn:Hm; [|done..]. apply match_outputs_ok in Hm; [done|]. unfold len in *. cbn. lia.
  - intros [Hh Ho]. rewrite (proj2 (p2pkh_outputs_ok _ outs _) (conj Hh Ho)). res_simpl.
    change (len _ =? 4) with true. cbn [negb]. by rewrite (proj2 (match_outputs_ok _ _ _ _ eq_refl)).
Qed.

Lemma role_checks_agree_witness :
  let outs := payout_outputs (expected_payout (zeros 20) 5000000001 (Some sample_rewards) None) in
  validate_multi_role_coinbase_outputs outs (zeros 20) sample_rewards 5000000001 = Ok tt.
Proof.
  cbv zeta. apply (role_checks_agree _ (zeros 20) 5000000001 sample_rewards); [split; lia | by vm_compute].
Defined.

(** C9: What an accepted block has shown: it carries receipts, committed to by
    the root in its coinbase; each has the nonce derived from the parent, solves
    the puzzle, is signed by its worker, and names as the payee the worker or a
    miner whose unexpired delegation names the worker; outside production mode
    the coinbase pays each worker a tenth of the reward for every receipt. *)
Theorem accepted_receipts_proved `{C : Crypto} env act (b : FullBlock) h previous :
  poawx_consensus_active env h = true -> validate_poawx_block_receipts env act b h previous = Ok tt ->
  exists receipts parent, poawx_receipts b = Some receipts /\ receipts <> [] /\ previous = Some parent /\
    irx1_root_from_block_bytes b =
      Some (irx1_root_from_block_receipts_audit receipts (phase20_production_active env h) (audit_hardening_active env h)) /\
    Forall (receipt_proved env
      (assignment_seed (hash_for_height act (bheader parent) (sat_sub h 1)) (sat_sub h 1))
      (effective_puzzle_difficulty_bits env (poawx_block_difficulty_bits env) h) h) receipts /\
    (phase20_production_active env h = false -> forall r, r ∈ receipts -> exists coinbase,
       head (transactions b) = Some coinbase /\
       sat_mul64 (as_u64 (block_reward env h * POAWX_WORKER_REWARD_PERMILLE) / 1000)
         (len (filter (fun r' => rc_worker_pkh r' = rc_worker_pkh r) receipts))
       <= paid_to (tx_outputs coinbase) (p2pkh_script (rc_worker_pkh r))).
Proof.
  intros Hc H. unfold validate_poawx_block_receipts in H. rewrite Hc in H. cbn [negb] in H. accepted_step H. clear Heqr a.
  destruct (default [] (poawx_receipts b)) as [|r0 rs0] eqn:Hrs; [done|]. set (rs := r0 :: rs0) in *.
  assert (poawx_receipts b = Some rs) as Hb.
  { destruct (poawx_receipts b) as [l|]; cbn in Hrs; [by f_equal | done]. }
  repeat accepted_step H. beqb_facts. subst.
  match goal with Hc : check_all _ _ = Ok ?u |- _ => destruct u; rename Hc into Hall end.
  eexists rs, _. split_and!; [done | done | done | done | |].
  - apply check_all_ok in Hall. eapply Forall_impl; [exact Hall|]. intros r Hr. by apply receipt_sound in Hr.
  - intros Hp r Hr. rewrite Hp in H. by eapply split_pays.
Qed.

(** A test network with the puzzle switched off. *)
Definition rules_env : Env := fun name =>
  if String.eqb name "IRIUM_NETWORK" then Some "testnet"%string else
  if String.eqb name "IRIUM_POAWX_MODE" then Some "active"%string else
  if String.eqb name "IRIUM_POAWX_ACTIVATION_HEIGHT" then Some "2"%string else
  if String.eqb name "IRIUM_POAWX_PUZZLE_DIFFICULTY_BITS" then Some "0"%string else None.

Definition rules_parent : FullBlock :=
  {| bheader := sample_wire_header; transactions := []; auxpow := None; poawx_receipts := None |}.
Definition rules_worker : bytes := hash160 (public_key sample_sk).
Definition rules_receipt : PoawxBlockReceipt :=
  let nonce := assignment_nonce (assignment_seed (hash_for_height 0 sample_wire_header 4) 4) in
  {| rc_height := 5; rc_lane := 65; rc_worker_pkh := rules_worker; rc_worker_pubkey := public_key sample_sk;
     rc_worker_sig := sign_prehash sample_sk (sha256 (zeros 8 ++ nonce ++ le_bytes 8 5)); rc_solution := zeros 8;
     rc_commitment_nonce := nonce; rc_delegation := None; rc_phase20_ext := None |}.
Definition rules_block : FullBlock :=
  {| bheader := sample_wire_header;
     transactions := [{| tx_version := 1; tx_inputs := [];
       tx_outputs := [{| value := 5000000000; script_pubkey := p2pkh_script rules_worker |};
         {| value := 0; script_pubkey := [0x6a; 0x24] ++ IRX1_TAG
              ++ irx1_root_from_block_receipts_audit [rules_receipt] false false |}]; tx_locktime := 0 |}];
     auxpow := None; poawx_receipts := Some [rules_receipt] |}.

Lemma accepted_receipts_proved_witness :
  poawx_consensus_active rules_env 5 = true /\
  validate_poawx_block_receipts rules_env 0 rules_block 5 (Some rules_parent) = Ok tt /\
  exists receipts, poawx_receipts rules_block = Some receipts /\ receipts <> [].
Proof.
  assert (poawx_consensus_active rules_env 5 = true) as Ha by (by vm_compute).
  assert (validate_poawx_block_receipts rules_env 0 rules_block 5 (Some rules_parent) = Ok tt) as Hv by (by vm_compute).
  split_and!; [exact Ha | exact Hv |].
  destruct (accepted_receipts_proved rules_env 0 rules_block 5 (Some rules_parent) Ha Hv)
    as (rs & parent & Hrs & Hne & _).
  exact (ex_intro _ rs (conj Hrs Hne)).
Defined.
