(* ===== verification/PoawxChain.v ===== *)
(** * PoawxChain: PoAW-X in [connect_block] and [disconnect_tip_block]
    ([src/src/chain.rs], lines 896 to 985 and 1083 to 2175)

    The state the chain keeps for PoAW-X: rewards by miner, the keys that may
    propose and the queue of keys waiting to, the record of offences, the posture
    of the node and the reorganisations it has seen.  Each block is checked
    against this state, changes it when connected and changes it back when
    disconnected.  The whole is an instance of the interface [Chain.Poawx], with
    which every theorem on the chain holds for the running extension.

    Shown here: on the main network nothing connects from height 50,000 on;
    disconnecting a block takes back what it did to the queue and to the keys;
    who is waiting in the queue is registered in time; a proposer that is
    accepted is eligible, in its turn and not early; finality can be had without
    any eligible member voting. *)

From S2P Require Import Prelude Crypto Wire Activation Constants Header Ledger Proposer Ticket Candidate.
From S2P Require Import Puzzle Finality Admission AdmissionCache Roles Registration Receipt Chain BlockWire.
From S2P Require Import Dominance Penalty Adaptive PoawxRules.

(** ** The state *)
Record PoawxState := {
  dominance : PersistentDominance;
  proposer_registry : ProposerEligibilityRegistry;
  proposer_reg_queue : list ProposerRegistrationV1;
  penalty : PersistentPenalty;
  adaptive_mode : AdaptiveMode;
  reorg_signal : Z;
  (** the process-wide pool [global_proposer_reg_pool()] *)
  reg_pool : NodeProposerRegistrationPool
}.

Definition set_dominance (s : PoawxState) (d : PersistentDominance) : PoawxState :=
  {| dominance := d; proposer_registry := proposer_registry s; proposer_reg_queue := proposer_reg_queue s;
     penalty := penalty s; adaptive_mode := adaptive_mode s; reorg_signal := reorg_signal s; reg_pool := reg_pool s |}.
Definition set_proposers (s : PoawxState) (reg : ProposerEligibilityRegistry) (queue : list ProposerRegistrationV1)
    (pool : NodeProposerRegistrationPool) : PoawxState :=
  {| dominance := dominance s; proposer_registry := reg; proposer_reg_queue := queue;
     penalty := penalty s; adaptive_mode := adaptive_mode s; reorg_signal := reorg_signal s; reg_pool := pool |}.
Definition set_penalty (s : PoawxState) (p : PersistentPenalty) : PoawxState :=
  {| dominance := dominance s; proposer_registry := proposer_registry s; proposer_reg_queue := proposer_reg_queue s;
     penalty := p; adaptive_mode := adaptive_mode s; reorg_signal := reorg_signal s; reg_pool := reg_pool s |}.
Definition set_posture (s : PoawxState) (m : AdaptiveMode) (signal : Z) : PoawxState :=
  {| dominance := dominance s; proposer_registry := proposer_registry s; proposer_reg_queue := proposer_reg_queue s;
     penalty := penalty s; adaptive_mode := m; reorg_signal := signal; reg_pool := reg_pool s |}.

(** ** What a block says *)
Definition receipts_of (b : FullBlock) : list PoawxBlockReceipt := default [] (poawx_receipts b).
(** The receipts that have an extension; the others are skipped. *)
Definition extended_receipts (b : FullBlock) : list (PoawxBlockReceipt * Phase20ReceiptExt) :=
  omap (fun r => (fun x => (r, x)) <$> rc_phase20_ext r) (receipts_of b).

(** The receipts loop of a check: without receipts there is nothing to do. *)
Definition check_extended (b : FullBlock) (f : PoawxBlockReceipt -> Phase20ReceiptExt -> res string unit) : res string unit :=
  check_all (fun '(r, x) => f r x) (extended_receipts b).

Definition dominance_events_from_block (env : Env) (b : FullBlock) (height : Z) : list RewardEvent :=
  concat ((fun '(r, x) =>
    let '(a0, a1, a2, a3) := multi_role_amounts (block_reward env height) in
    [(rc_worker_pkh r, Primary, a0); (compute_contributor_pkh (x_role_reward x), Compute, a1);
     (verify_contributor_pkh (x_role_reward x), Verify, a2); (support_contributor_pkh (x_role_reward x), Support, a3)])
    <$> extended_receipts b).

Definition block_finality_proof (b : FullBlock) : option FinalityProofV1 :=
  head (omap (fun rx => finality_proof (x_sections rx.2)) (extended_receipts b)).

Definition fraud_events_from_block (b : FullBlock) : list Offence :=
  concat ((fun rx => (fun fp => (fr_offender_pkh fp, fr_target_height fp, fr_kind fp))
            <$> default [] (fraud_proofs (x_sections rx.2))) <$> extended_receipts b).

Definition proposer_keys_from_block (b : FullBlock) (registration_active : bool) : list (bytes * bytes) :=
  concat ((fun rx =>
    (if negb registration_active
     then (fun p => (a2_assignment_public_key p, a2_solver_pkh p)) <$> default [] (role_assignment_v2 (x_sections rx.2))
     else [])
    ++ match proposer_assignment (x_sections rx.2) with
       | Some pa => [(a2_assignment_public_key (pa_proof pa), a2_solver_pkh (pa_proof pa))]
       | None => []
       end) <$> extended_receipts b).

Definition registration_sections (b : FullBlock) : list ProposerRegistrationSection :=
  omap (fun rx => proposer_registrations (x_sections rx.2)) (extended_receipts b).
Definition proposer_reg_section_from_block (b : FullBlock) : option ProposerRegistrationSection :=
  head (registration_sections b).

(** [(round, priority)] of the best assignment; none ranks last. *)
Definition rank_le (a b : Z * Z) : bool := (a.1 <? b.1) || ((a.1 =? b.1) && (a.2 <=? b.2)).
Definition block_proposer_rank (b : FullBlock) : Z * Z :=
  default (U32_MAX, U64_MAX)
    (foldl (fun best cand =>
       Some match best with Some b => if rank_le b cand then b else cand | None => cand end) None
       (omap (fun rx => (fun pa => (pa_round pa, proposer_priority (a2_vrf_output (pa_proof pa))))
                          <$> proposer_assignment (x_sections rx.2)) (extended_receipts b))).

Definition role_solvers (x : Phase20ReceiptExt) : list (Z * (Z * bytes)) :=
  [(0, (ROLE_COMPUTE_CONTRIBUTOR, compute_contributor_pkh (x_role_reward x)));
   (1, (ROLE_VERIFY_CONTRIBUTOR, verify_contributor_pkh (x_role_reward x)));
   (2, (ROLE_SUPPORT_CONTRIBUTOR, support_contributor_pkh (x_role_reward x)))].

Section poawx_chain.
Context `{C : Crypto} `{V : Vrf} (env : Env) (std_header_activation : Z).
(** [global_admission_cache()] *)
Context (adm : NodeCandidateAdmissionCache).

Abbreviation net := (network_id_byte env).

(** ** The checks *)

Definition validate_block_dominance_weights (s : PoawxState) (b : FullBlock) (height : Z) : res string unit :=
  check_extended b (fun r x =>
    weights ← ok_or (role_dominance_weights (x_sections x)) "phase21c: missing required role_dominance_weights"%string;
    let rr := x_role_reward x in
    check_all (fun '(i, pkh) =>
      w ← idx weights i;
      if negb (w =? weight (dominance s) DOMINANCE_BASE_WORK_SCORE pkh height)
      then Err "phase21c: dominance weight mismatch"%string else Ok tt)
      [(0, rc_worker_pkh r); (1, compute_contributor_pkh rr); (2, verify_contributor_pkh rr);
       (3, support_contributor_pkh rr)]).

Definition validate_candidate (s : PoawxState) (cs : CandidateSet) (height : Z) (cand : RoleCandidate) : res string unit :=
  _ ← (if true_vrf_active env height then validate_scoring cand
       else validate_self cand net height (cset_seed cs));
  if anti_domination_active env height
     && negb (rc_dominance_weight cand =? weight (dominance s) DOMINANCE_BASE_WORK_SCORE (rc_solver_pkh cand) height)
  then Err "phase21d: candidate dominance weight mismatch"%string else Ok tt.

Definition validate_block_candidate_sets (s : PoawxState) (chain : list FullBlock) (b : FullBlock) (height : Z)
    : res string unit :=
  let epoch_seed := expected_epoch_seed env height (prev_hash (bheader b)) (last chain) in
  check_extended b (fun r x =>
    cs ← ok_or (candidate_set (x_sections x)) "phase21d: missing required candidate set"%string;
    if negb (cset_network_id cs =? net) then Err "phase21d: candidate set wrong network"%string else
    if negb (cset_target_height cs =? height) then Err "phase21d: candidate set wrong height"%string else
    if negb (beqb (cset_seed cs) epoch_seed) then Err "phase21d: candidate set wrong seed"%string else
    if negb (is_canonical cs) then Err "phase21d: candidate set not canonical"%string else
    _ ← check_all (validate_candidate s cs height) (cset_candidates cs);
    _ ← check_all (fun '(_, (role_id, sel)) =>
          best ← ok_or (best_for_role cs role_id) "phase21d: no candidate for role"%string;
          if negb (beqb (rc_solver_pkh best) sel)
          then Err "phase21d: selected role solver is not the best candidate"%string else Ok tt) (role_solvers x);
    if candidate_admission_enforced env height && negb (committed_admission_enforced env height) then
      let admitted := admitted_candidate_set env adm net height epoch_seed in
      if negb (beqb (serialize_candidate_set cs) (serialize_candidate_set admitted))
      then Err "phase21e: candidate set does not match admitted candidates"%string else
      check_all (fun '(_, (role_id, _)) =>
        _ ← ok_or (best_for_role admitted role_id) "phase21e: no admitted candidate for role"%string; Ok tt)
        (role_solvers x)
    else Ok tt).

Definition validate_block_puzzle_proofs (b : FullBlock) (height : Z) : res string unit :=
  let profile := default_profile env in
  check_extended b (fun r x =>
    sols ← ok_or (role_puzzle_proofs (x_sections x)) "phase21f: missing required puzzle proofs"%string;
    cs ← ok_or (candidate_set (x_sections x)) "phase21f: puzzle enforcement requires candidate set"%string;
    check_all (fun '(i, (role, _)) =>
      cand ← ok_or (best_for_role cs role) "phase21f: no candidate for role"%string;
      let candidate_digest := sha256 (serialize_candidate cand) in
      match PuzzleChallengeV1_build net height role (rc_solver_pkh cand) (rc_ticket_digest cand)
              (rc_assignment_proof_digest cand) candidate_digest (prev_hash (bheader b)) profile with
      | None => Panic
      | Some challenge =>
          sol ← idx sols i;
          map_err (fun e => "phase21f: puzzle proof role invalid: " +:+ e) (verify_solution challenge sol)
      end) (role_solvers x)).

Definition validate_block_finality (b : FullBlock) (height : Z) : res string unit :=
  let '(num, den) := finality_threshold env in
  check_extended b (fun r x =>
    fp ← ok_or (finality_proof (x_sections x)) "phase21h: missing required finality proof"%string;
    cs ← ok_or (candidate_set (x_sections x)) "phase21h: finality enforcement requires candidate set"%string;
    let committee := rc_solver_pkh <$> filter (fun c => rc_role_id c = ROLE_SUPPORT_CONTRIBUTOR) (cset_candidates cs) in
    if negb (fp_threshold_num fp =? num) || negb (fp_threshold_den fp =? den)
    then Err "phase21h: finality threshold mismatch"%string else
    _ ← validate_finality_proof fp net height (prev_hash (bheader b)) committee;
    if audit_hardening_active env height && existsb (fun v => negb (beqb (fv_parent_hash v) (fp_parent_hash fp))) (fp_votes fp)
    then Err "phase21h: finality vote parent_hash mismatch (audit)"%string else Ok tt).

Definition validate_block_committed_admission (b : FullBlock) (previous : option FullBlock) (height : Z)
    : res string unit :=
  if bool_decide (committed_admission_activation_height env = Some height) then Ok tt else
  let expected_seed := expected_epoch_seed env height (prev_hash (bheader b)) previous in
  check_extended b (fun r x =>
    ca ← ok_or (committed_admission (x_sections x)) "phase22a: missing own committed admission"%string;
    _ ← validate_commitment ca net height;
    if negb (ac_commit_height ca =? height) then Err "phase22a: own commitment wrong commit height"%string else
    if negb (beqb (ac_seed ca) expected_seed) then Err "phase22a: own commitment wrong freeze seed"%string else
    cs ← ok_or (candidate_set (x_sections x)) "phase22a: committed admission requires a candidate set"%string;
    if negb (matches_candidate_set ca cs)
    then Err "phase22a: candidate set does not match committed admission root"%string else Ok tt).

Definition validate_block_true_vrf (b : FullBlock) (height : Z) : res string unit :=
  check_extended b (fun r x =>
    proofs ← ok_or (role_assignment_v2 (x_sections x)) "phase22d: missing required V2 assignment proofs"%string;
    cs ← ok_or (candidate_set (x_sections x)) "phase22d: true-VRF requires a candidate set"%string;
    check_all (fun '(i, (role, sel)) =>
      cand ← ok_or (best_for_role cs role) "phase22d: no candidate for role"%string;
      if negb (beqb (rc_solver_pkh cand) sel) then Err "phase22d: role selected != best candidate"%string else
      pr ← idx proofs i;
      _ ← validate_assignment_v2 env pr net height;
      if negb (a2_role_id pr =? role) then Err "phase22d: v2 proof wrong role"%string else
      if negb (beqb (a2_solver_pkh pr) (rc_solver_pkh cand)) then Err "phase22d: v2 proof wrong solver"%string else
      if negb (beqb (a2_ticket_digest pr) (rc_ticket_digest cand)) then Err "phase22d: v2 proof wrong ticket digest"%string else
      if negb (beqb (a2_assignment_public_key pr) (rc_assignment_public_key cand))
      then Err "phase22d: v2 proof wrong assignment key"%string else
      if negb (beqb (a2_seed pr) (cset_seed cs)) then Err "phase22d: v2 proof wrong seed"%string else
      if negb (beqb (a2_vrf_output pr) (rc_assignment_proof_digest cand))
      then Err "phase22d: candidate score not derived from VRF output"%string else Ok tt) (role_solvers x)).

Definition check_offence (pen : PersistentPenalty) (height : Z) (seen : gset Offence) (fp : FraudProofV1)
    : res string (gset Offence) :=
  off ← verify_fraud_proof fp net height;
  let key := (fo_offender_pkh off, fo_target_height off, fo_kind off) in
  if bool_decide (key ∈ seen) then Err "fraudproof: duplicate offence within block"%string else
  if is_offence_recorded pen (fo_offender_pkh off) (fo_target_height off) (fo_kind off)
  then Err "fraudproof: offence already slashed"%string else
  Ok ({[key]} ∪ seen).

Definition validate_block_fraud_proofs (s : PoawxState) (b : FullBlock) (height : Z) : res string unit :=
  _ ← fold_res (fun seen rx =>
        let proofs := default [] (fraud_proofs (x_sections rx.2)) in
        if FRAUD_PROOF_MAX_PER_BLOCK <? len proofs then Err "fraudproof: too many fraud proofs in receipt"%string else
        fold_res (check_offence (penalty s) height) seen proofs) ∅ (extended_receipts b);
  Ok tt.

Definition validate_proposer_receipt (s : PoawxState) (b : FullBlock) (height : Z) (seed : bytes)
    (parent_time n round_interval : Z) (r : PoawxBlockReceipt) : res string unit :=
  ext ← ok_or (rc_phase20_ext r) "proposer: receipt missing extension"%string;
  pa ← ok_or (proposer_assignment (x_sections ext)) "proposer: missing proposer assignment"%string;
  let proof := pa_proof pa in
  _ ← validate_assignment_v2 env proof net height;
  if negb (a2_role_id proof =? ROLE_PROPOSER) then Err "proposer: assignment proof wrong role"%string else
  if negb (beqb (a2_seed proof) seed) then Err "proposer: assignment proof wrong seed"%string else
  if negb (beqb (a2_ticket_digest proof) (zeros 32)) then Err "proposer: non-canonical ticket digest"%string else
  if negb (beqb (a2_solver_pkh proof) (hash160 (a2_assignment_public_key proof)))
  then Err "proposer: solver pkh not derived from vrf key"%string else
  if negb (beqb (a2_solver_pkh proof) (rc_worker_pkh r)) then Err "proposer: proposer is not the block worker"%string else
  if (0 <? n) && negb (is_eligible env (proposer_registry s) (a2_assignment_public_key proof) height)
  then Err "proposer: vrf key not eligible / not frozen-registered"%string else
  let priority := proposer_priority (a2_vrf_output proof) in
  let tau := proposer_threshold n (pa_round pa) in
  if tau <=? priority then Err "proposer: not selected at round"%string else
  let min_t := min_time_for_round parent_time (pa_round pa) round_interval in
  if time (bheader b) <? min_t then Err "proposer: round too early"%string else Ok tt.

Definition validate_block_proposer (s : PoawxState) (b : FullBlock) (height : Z) (previous : option FullBlock)
    : res string unit :=
  let seed := expected_epoch_seed env height (prev_hash (bheader b)) previous in
  let parent_time := from_option (fun p => time (bheader p)) 0 previous in
  let n := eligible_count env (proposer_registry s) height in
  check_all (validate_proposer_receipt s b height seed parent_time n (proposer_round_interval_secs env)) (receipts_of b).

Definition check_announce (chain : list FullBlock) (height : Z) (seen : gset bytes) (a : ProposerRegistrationV1)
    : res string (gset bytes) :=
  if negb (registration_anchor_valid (pr_anchor_height a) height PROPOSER_REG_ANCHOR_WINDOW)
  then Err "proposer registration: anchor outside the recent window"%string else
  anchor ← ok_or (chain !! Z.to_nat (pr_anchor_height a)) "proposer registration: unknown anchor height"%string;
  let anchor_hash := hash_for_height std_header_activation (bheader anchor) (pr_anchor_height a) in
  _ ← validate_registration a net anchor_hash (effective_sybil_bits env);
  if bool_decide (pr_vrf_pubkey a ∈ seen) then Err "proposer registration: duplicate or already-queued key"%string else
  Ok ({[pr_vrf_pubkey a]} ∪ seen).

Definition drained (queue : list ProposerRegistrationV1) : list ProposerRegistrationV1 :=
  take (Z.to_nat PROPOSER_REG_CAP) queue.

Definition validate_block_proposer_registrations (s : PoawxState) (chain : list FullBlock) (b : FullBlock) (height : Z)
    : res string unit :=
  if 1 <? len (registration_sections b) then Err "proposer registration: multiple sections in block"%string else
  let section := proposer_reg_section_from_block b in
  let queue := proposer_reg_queue s in
  let acts := from_option activations [] section in
  if negb (len acts =? len (drained queue)) then Err "proposer registration: must force-drain queue-head entries"%string else
  if negb (bool_decide (acts = drained queue)) then Err "proposer registration: activation does not match the queue head"%string else
  match section with
  | None => Ok tt
  | Some sec =>
      if PROPOSER_ANNOUNCE_CAP <? len (announces sec) then Err "proposer registration: announces over cap"%string else
      _ ← fold_res (check_announce chain height) (list_to_set (pr_vrf_pubkey <$> queue)) (announces sec);
      Ok tt
  end.

(** The checks of [connect_block], in order. *)
Definition gated (g : bool) (m : res string unit) : res string unit := if g then m else Ok tt.

Definition poawx_checks (s : PoawxState) (chain : list FullBlock) (b : FullBlock) (height : Z) : res string unit :=
  let previous := last chain in
  _ ← validate_poawx_coinbase env b height;
  _ ← validate_poawx_block_receipts env std_header_activation b height previous;
  _ ← gated (anti_domination_enforced env height) (validate_block_dominance_weights s b height);
  _ ← gated (candidate_set_enforced env height || candidate_admission_enforced env height)
        (validate_block_candidate_sets s chain b height);
  _ ← gated (puzzle_work_enforced env height) (validate_block_puzzle_proofs b height);
  _ ← gated (finality_committee_enforced env height) (validate_block_finality b height);
  _ ← gated (committed_admission_enforced env height) (validate_block_committed_admission b previous height);
  _ ← gated (true_vrf_enforced env height) (validate_block_true_vrf b height);
  _ ← gated (fraud_proof_enforced env height) (validate_block_fraud_proofs s b height);
  _ ← gated (proposer_vrf_enforced env height) (validate_block_proposer s b height previous);
  gated (proposer_registration_active env height) (validate_block_proposer_registrations s chain b height).

(** ** The effects *)
Definition apply_block_dominance (s : PoawxState) (b : FullBlock) (height : Z) : PoawxState :=
  if negb (anti_domination_active env height) then s else
  set_dominance s (apply_events (dominance s) (dominance_events_from_block env b height) height).

Definition revert_block_dominance (s : PoawxState) (b : FullBlock) (height : Z) : PoawxState :=
  if negb (anti_domination_active env height) then s else
  set_dominance s (revert_events (dominance s) (dominance_events_from_block env b height) height).

(** Registered keys leave the pool of pending registrations. *)
Definition apply_block_proposer_registry (s : PoawxState) (b : FullBlock) (height : Z) : PoawxState :=
  if negb (proposer_vrf_active env height) then s else
  let reg_active := proposer_registration_active env height in
  let keys := proposer_keys_from_block b reg_active in
  set_proposers s (register_all (proposer_registry s) keys height) (proposer_reg_queue s)
    (if reg_active then forget_registrations (reg_pool s) keys.*1 else reg_pool s).

Definition revert_block_proposer_registry (s : PoawxState) (b : FullBlock) (height : Z) : PoawxState :=
  if negb (proposer_vrf_active env height) then s else
  let keys := proposer_keys_from_block b (proposer_registration_active env height) in
  set_proposers s (unregister_all (proposer_registry s) keys height) (proposer_reg_queue s) (reg_pool s).

Definition activation_keys (sec : ProposerRegistrationSection) : list (bytes * bytes) :=
  (fun r => (pr_vrf_pubkey r, pr_pkh r)) <$> activations sec.

(** [pop_front] for each activation, [push_back] for each announce. *)
Definition apply_block_proposer_registrations (s : PoawxState) (b : FullBlock) (height : Z) : PoawxState :=
  if negb (proposer_registration_active env height) then s else
  match proposer_reg_section_from_block b with
  | None => s
  | Some sec =>
      set_proposers s (register_all (proposer_registry s) (activation_keys sec) height)
        (drop (length (activations sec)) (proposer_reg_queue s) ++ announces sec)
        (forget_registrations (reg_pool s) (activation_keys sec).*1)
  end.

(** [pop_back] for each announce, [push_front] for each activation from the
    last one on. *)
Definition revert_block_proposer_registrations (s : PoawxState) (b : FullBlock) (height : Z) : PoawxState :=
  if negb (proposer_registration_active env height) then s else
  match proposer_reg_section_from_block b with
  | None => s
  | Some sec =>
      let queue := take (length (proposer_reg_queue s) - length (announces sec)) (proposer_reg_queue s) in
      set_proposers s (unregister_all (proposer_registry s) (activation_keys sec) height)
        (activations sec ++ queue) (reg_pool s)
  end.

Definition apply_block_fraud_slashing (s : PoawxState) (b : FullBlock) (height : Z) : PoawxState :=
  if negb (fraud_proof_enforced env height) then s else
  set_penalty s (apply_slashes (penalty s) (fraud_events_from_block b) height).

Definition revert_block_fraud_slashing (s : PoawxState) (b : FullBlock) (height : Z) : PoawxState :=
  if negb (fraud_proof_enforced env height) then s else
  set_penalty s (revert_slashes (penalty s) (fraud_events_from_block b)).

(** ** The posture *)
Definition ADAPTIVE_SIGNAL_WINDOW : Z := 32.

Definition compute_network_signals (s : PoawxState) (chain : list FullBlock) (height : Z) : NetworkSignals :=
  let recent := drop (length chain - Z.to_nat ADAPTIVE_SIGNAL_WINDOW) chain in
  let miners : gset bytes := list_to_set (rc_worker_pkh <$> concat (receipts_of <$> recent)) in
  let roles : gset bytes :=
    list_to_set (concat ((fun rx => (fun jrs => jrs.2.2) <$> role_solvers rx.2) <$> concat (extended_receipts <$> recent))) in
  let max_share := foldr Z.max 0 ((fun m => recent_reward_share_permille (dominance s) m height) <$> elements miners) in
  {| active_miner_count := Z.min (Z.of_nat (size miners)) U32_MAX;
     ns_valid_role_count := Z.min (Z.of_nat (size roles)) U32_MAX;
     recent_invalid_work := Z.min (recent_offence_count (penalty s) (sat_sub height ADAPTIVE_SIGNAL_WINDOW)) U32_MAX;
     recent_reorg_signal := reorg_signal s;
     reward_concentration_permille := max_share;
     finality_available := finality_committee_active env height |}.

Definition update_adaptive_mode (s : PoawxState) (chain : list FullBlock) (height : Z) : PoawxState :=
  if negb (adaptive_mode_active env height) then s else
  set_posture s (ap_mode (assess (compute_network_signals s chain height) (adaptive_mode s))) (sat_sub (reorg_signal s) 1).

(** ** Connecting and disconnecting *)
Definition poawx_connect (s : PoawxState) (chain : list FullBlock) (height : Z) : PoawxState :=
  match last chain with
  | None => s
  | Some b =>
      let s := apply_block_dominance s b height in
      let s := apply_block_proposer_registry s b height in
      let s := apply_block_proposer_registrations s b height in
      let s := apply_block_fraud_slashing s b height in
      update_adaptive_mode s chain height
  end.

Definition poawx_disconnect (s : PoawxState) (b : FullBlock) (height : Z) : PoawxState :=
  let s := revert_block_dominance s b height in
  let s := revert_block_proposer_registrations s b height in
  let s := revert_block_proposer_registry s b height in
  let s := revert_block_fraud_slashing s b height in
  set_posture s (adaptive_mode s) (Z.min U32_MAX (reorg_signal s + 1)).

(** ** Finality *)
Definition genuine_voters (s : PoawxState) (p : FinalityProofV1) : gset bytes :=
  list_to_set (fv_member_pubkey <$> filter (fun v => fv_vote_type v = 1 /\
    is_registered (proposer_registry s) (fv_member_pubkey v) = true) (fp_votes p)).

Definition block_finality_has_genuine_quorum (s : PoawxState) (chain : list FullBlock) (height : Z) : bool :=
  match b ← last chain; block_finality_proof b with
  | None => false
  | Some proof =>
      let committee_size := eligible_count env (proposer_registry s) (sat_sub height 1) in
      if committee_size <? min_finality_committee env then false else
      let num := Z.max (fp_threshold_num proof) 1 in
      let den := Z.max (fp_threshold_den proof) 1 in
      let need := (committee_size * num + den - 1) / den in
      need <=? Z.of_nat (size (genuine_voters s proof))
  end.

Definition poawx_finality (s : PoawxState) (chain : list FullBlock) (height : Z) : bool :=
  finality_committee_enforced env height &&
  (if fork_choice_hardening_active env height then block_finality_has_genuine_quorum s chain height else true).

(** The running extension. *)
Definition poawx_running : Poawx PoawxBlockReceipt := {|
  PState := PoawxState;
  poawx_validate := poawx_checks;
  poawx_apply := poawx_connect;
  poawx_finalizes := poawx_finality;
  poawx_revert := fun s _ b height => poawx_disconnect s b height
|}.
End poawx_chain.

(** ** What the checks give *)
Section checks.
Context `{C : Crypto} `{V : Vrf} (env : Env) (act : Z) (adm : NodeCandidateAdmissionCache).
Abbreviation checks := (poawx_checks env act adm).

Lemma gated_ok g m : gated g m = Ok tt -> g = true -> m = Ok tt.
Proof. by intros H ->. Qed.

(** An accepted block passed each check whose gate is open. *)
Record all_checked (s : PoawxState) (chain : list FullBlock) (b : FullBlock) (h : Z) : Prop := {
  ck_receipts : validate_poawx_block_receipts env act b h (last chain) = Ok tt;
  ck_finality : finality_committee_enforced env h = true -> validate_block_finality env b h = Ok tt;
  ck_fraud : fraud_proof_enforced env h = true -> validate_block_fraud_proofs env s b h = Ok tt;
  ck_proposer : proposer_vrf_enforced env h = true -> validate_block_proposer env s b h (last chain) = Ok tt;
  ck_registrations : proposer_registration_active env h = true ->
    validate_block_proposer_registrations env act s chain b h = Ok tt
}.

Lemma poawx_checks_ok s chain b h : checks s chain b h = Ok tt -> all_checked s chain b h.
Proof.
  unfold poawx_checks. intros H. do 2 accepted_step H. destruct a, a0.
  do 8 (match type of H with (_ ← ?m; _) = _ => destruct m as [[]| |] eqn:?; [|discriminate H..] end;
        cbn [mbind res_bind] in H).
  split; [done|..]; intros Hg; eapply gated_ok; eauto.
Qed.

(** *** The queue *)
Lemma registrations_ok s chain b h sec : validate_block_proposer_registrations env act s chain b h = Ok tt ->
  from_option activations [] (proposer_reg_section_from_block b) = drained (proposer_reg_queue s) /\
  (proposer_reg_section_from_block b = Some sec ->
   NoDup (pr_vrf_pubkey <$> announces sec) /\
   forall r, r ∈ announces sec -> pr_vrf_pubkey r ∉ pr_vrf_pubkey <$> proposer_reg_queue s).
Proof.
  unfold validate_block_proposer_registrations. intros H. repeat accepted_step H.
  match goal with Hb : negb (bool_decide _) = false |- _ => apply negb_false_iff, bool_decide_eq_true in Hb; rename Hb into Hd end.
  split; [done|]. intros Hs. rewrite Hs in H. accepted_step H.
  destruct (fold_res _ _ _) as [seen| |] eqn:Hf; [|done..]. clear H.
  set (seen0 := (list_to_set (pr_vrf_pubkey <$> proposer_reg_queue s) : gset bytes)) in *.
  assert (NoDup (pr_vrf_pubkey <$> announces sec) /\ forall r, r ∈ announces sec -> pr_vrf_pubkey r ∉ seen0) as [Hn Hi].
  { clear Hs Hd. clearbody seen0. revert seen0 Hf. generalize (announces sec). induction l as [|a l IH]; intros seen0 Hf.
    - split; [constructor | by intros ? ?%not_elem_of_nil].
    - cbn [fold_res] in Hf. destruct (check_announce _ _ _ _ _ _) as [s1| |] eqn:Hc; [|done..]. cbn [mbind res_bind] in Hf.
      unfold check_announce in Hc. repeat accepted_step Hc. injection Hc as <-.
      match goal with Hb : bool_decide (_ ∈ _) = false |- _ => apply bool_decide_eq_false in Hb; rename Hb into Hni end.
      destruct (IH _ Hf) as [Hn Hi]. split.
      + cbn. constructor; [|done]. intros (r & Hr & Hin)%list_elem_of_fmap. apply (Hi r Hin). rewrite <- Hr. set_solver.
      + intros r [->|Hr]%elem_of_cons; [done|]. specialize (Hi r Hr). set_solver. }
  split; [done|]. intros r Hr Hq. apply (Hi r Hr). by apply elem_of_list_to_set.
Qed.
End checks.

(** ** The main network *)
Section mainnet.
Context `{C : Crypto} `{V : Vrf} (env : Env) (p : ChainParams) (act window : Z) (adm : NodeCandidateAdmissionCache).

#[local] Instance running_here : Poawx PoawxBlockReceipt := poawx_running env act adm.

Lemma mainnet_block_refused now st b : network_id_byte env = 0 -> 50000 <= height st ->
  exists r, connect_block env p act now window st b = (st, r) /\ r <> Ok tt.
Proof.
  intros Hn Hh. unfold connect_block.
  destruct (validate_block_header _ _ _ _ _ _ _ _) as [[]|e|]; cbn [mbind res_bind]; [|by eexists..].
  destruct (poawx_validate _ _ _ _) as [[]|e|] eqn:Hv; [|by eexists..]. exfalso.
  apply poawx_checks_ok in Hv as [Hr _ _ _ _]. by eapply mainnet_receipts_refused.
Qed.

Lemma mainnet_reachable st : network_id_byte env = 0 ->
  @reachable C PoawxBlockReceipt running_here env p act window st -> height st = len (chain st) /\ height st <= 50000.
Proof.
  intros Hn. induction 1 as [now g ps st _ Hg | now st b st' _ [Hl IH] Hc _ | now st b st' e _ IH Hc | st b st' _ [Hl IH] Hd
    | st st' _ IH Hs].
  - unfold new_chain in Hg. destruct (validate_block_header _ _ _ _ _ _ _ _) as [[]| |]; [|done..].
    cbn [mbind res_bind map_err] in Hg. destruct (validate_and_apply_transactions _ _ _ _ _ _ _ _ _) as [l [[[[f t] s] u]| |]]; [|done..].
    injection Hg as <-. by cbn.
  - destruct (decide (50000 <= height st)) as [Hge|Hlt].
    + destruct (mainnet_block_refused now st b Hn Hge) as (r & Hr & Hne). rewrite Hr in Hc. injection Hc as ? ?. done.
    + apply connect_ok in Hc as (l & f & t & s & u & n & _ & _ & _ & ->). cbn [push_block height chain].
      rewrite len_app. unfold len in *. cbn. lia.
  - assert (height st' = height st /\ chain st' = chain st) as [-> ->]; [|done]. unfold connect_block in Hc.
    repeat case_match; simplify_eq; done.
  - unfold disconnect_tip_block in Hd. repeat case_match; simplify_eq; cbn [height chain];
      (split; [done|]; unfold len in *; rewrite length_take; lia).
  - by rewrite (sb_height _ _ Hs), (sb_chain _ _ Hs).
Qed.
End mainnet.

(** ** The queue of registrations *)
Lemma queue_split (q : list ProposerRegistrationV1) : take 8 q ++ drop (length (take 8 q)) q = q.
Proof.
  rewrite length_take. destruct (decide (8 <= length q)%nat).
  - rewrite Nat.min_l by lia. apply take_drop.
  - rewrite Nat.min_r by lia. rewrite take_ge, drop_ge by lia. apply app_nil_r.
Qed.

Section queue.
Context `{C : Crypto} `{V : Vrf} (env : Env) (act : Z) (adm : NodeCandidateAdmissionCache).

(** Accepted blocks connected one after the other, at heights where keys can be
    registered. *)
Inductive extends : PoawxState -> list FullBlock -> Z -> list FullBlock -> PoawxState -> Prop :=
| ext_done s chain h : extends s chain h [] s
| ext_block s chain h b bs s' :
    proposer_registration_active env h = true -> poawx_checks env act adm s chain b h = Ok tt ->
    extends (poawx_connect env s (chain ++ [b]) h) (chain ++ [b]) (h + 1) bs s' ->
    extends s chain h (b :: bs) s'.

(** What a block adds to the queue and takes from it. *)
Definition announced (b : FullBlock) : list ProposerRegistrationV1 :=
  from_option announces [] (proposer_reg_section_from_block b).
Definition activated (b : FullBlock) : list ProposerRegistrationV1 :=
  from_option activations [] (proposer_reg_section_from_block b).

Lemma registration_vrf_active h : proposer_registration_active env h = true -> proposer_vrf_active env h = true.
Proof. unfold proposer_registration_active, proposer_registration_gate. by intros [H _]%andb_true_iff. Qed.

(** The queue and the keys after a block. *)
Lemma connect_proposers s chain b h : proposer_registration_active env h = true ->
  let s' := poawx_connect env s (chain ++ [b]) h in
  proposer_reg_queue s' = drop (length (activated b)) (proposer_reg_queue s) ++ announced b /\
  proposer_registry s' =
    register_all (register_all (proposer_registry s) (proposer_keys_from_block b true) h)
      ((fun r => (pr_vrf_pubkey r, pr_pkh r)) <$> activated b) h.
Proof.
  intros Hr. unfold poawx_connect. rewrite last_snoc. unfold update_adaptive_mode, apply_block_fraud_slashing.
  set (s2 := apply_block_proposer_registrations _ _ _ _).
  assert (proposer_reg_queue s2 = drop (length (activated b)) (proposer_reg_queue s) ++ announced b /\
    proposer_registry s2 =
      register_all (register_all (proposer_registry s) (proposer_keys_from_block b true) h)
        ((fun r => (pr_vrf_pubkey r, pr_pkh r)) <$> activated b) h) as [<- <-].
  { unfold s2, apply_block_proposer_registrations, apply_block_proposer_registry.
    rewrite Hr, (registration_vrf_active h Hr). cbn [negb]. unfold activated, announced, activation_keys.
    set (s0 := apply_block_dominance env s b h).
    assert (proposer_reg_queue s0 = proposer_reg_queue s /\ proposer_registry s0 = proposer_registry s) as [<- <-]
      by (unfold s0, apply_block_dominance; by case_match).
    destruct (proposer_reg_section_from_block b); cbn; [done|]. by rewrite app_nil_r. }
  by repeat case_match.
Qed.

Lemma connect_heights s chain b h k h' : proposer_registration_active env h = true ->
  h' ∈ reg_heights (proposer_registry s) k ->
  h' ∈ reg_heights (proposer_registry (poawx_connect env s (chain ++ [b]) h)) k.
Proof.
  intros Hr Hin. destruct (connect_proposers s chain b h Hr) as [_ ->]. rewrite !reg_heights_register_all.
  repeat case_bool_decide; set_solver.
Qed.

Lemma extends_heights s chain h bs s' k h' : extends s chain h bs s' ->
  h' ∈ reg_heights (proposer_registry s) k -> h' ∈ reg_heights (proposer_registry s') k.
Proof. induction 1 as [|s chain h b bs s' Hr _ _ IH]; intros Hin; [done|]. by apply IH, connect_heights. Qed.

(** A checked block drains the head of the queue. *)
Lemma checked_drains s chain b h : proposer_registration_active env h = true ->
  poawx_checks env act adm s chain b h = Ok tt ->
  activated b = take 8 (proposer_reg_queue s) /\ NoDup (pr_vrf_pubkey <$> announced b) /\
  forall r, r ∈ announced b -> pr_vrf_pubkey r ∉ pr_vrf_pubkey <$> proposer_reg_queue s.
Proof.
  intros Hr [_ _ _ _ Hc]%poawx_checks_ok. specialize (Hc Hr). unfold activated, announced.
  destruct (proposer_reg_section_from_block b) as [sec|] eqn:Hs.
  - destruct (registrations_ok _ _ _ _ _ _ sec Hc) as [Hd Hn]. rewrite Hs in Hd. destruct (Hn Hs). done.
  - destruct (registrations_ok _ _ _ _ _ _ {| announces := []; activations := [] |} Hc) as [Hd _]. rewrite Hs in Hd.
    split_and!; [done | constructor | by intros ? ?%not_elem_of_nil].
Qed.

Lemma queue_fifo_lemma s chain h bs s' : extends s chain h bs s' ->
  proposer_reg_queue s ++ concat (announced <$> bs) = concat (activated <$> bs) ++ proposer_reg_queue s'.
Proof.
  induction 1 as [s chain h | s chain h b bs s' Hr Hc _ IH]; [cbn; by rewrite app_nil_r|].
  destruct (checked_drains _ _ _ _ Hr Hc) as (Ha & _). destruct (connect_proposers s chain b h Hr) as [Hq _].
  rewrite Hq in IH. rewrite !fmap_cons. cbn [concat]. rewrite <- !app_assoc in *.
  rewrite <- IH, Ha. by rewrite (app_assoc (take 8 _)), queue_split.
Qed.

Lemma queue_nodup s chain h bs s' : extends s chain h bs s' ->
  NoDup (pr_vrf_pubkey <$> proposer_reg_queue s) -> NoDup (pr_vrf_pubkey <$> proposer_reg_queue s').
Proof.
  induction 1 as [s chain h | s chain h b bs s' Hr Hc _ IH]; intros Hn; [done|]. apply IH.
  destruct (checked_drains _ _ _ _ Hr Hc) as (Ha & Hnb & Hi). destruct (connect_proposers s chain b h Hr) as [-> _].
  rewrite fmap_app. apply NoDup_app. rewrite fmap_drop. split_and!; [by eapply sublist_NoDup, sublist_drop | | done].
  intros k Hk (r & -> & Hin)%list_elem_of_fmap. apply (Hi r Hin).
  by eapply elem_of_submseteq, sublist_submseteq, sublist_drop.
Qed.
End queue.

(** ** Disconnecting *)
Section disconnect.
Context `{C : Crypto} `{V : Vrf} (env : Env) (act : Z) (adm : NodeCandidateAdmissionCache).

(** The queue after connecting a block and disconnecting it. *)
Lemma disconnect_queue s chain b h : proposer_registration_active env h = true ->
  activated b = take 8 (proposer_reg_queue s) ->
  proposer_reg_queue (poawx_disconnect env (poawx_connect env s (chain ++ [b]) h) b h) = proposer_reg_queue s.
Proof.
  intros Hr Ha. destruct (connect_proposers env s chain b h Hr) as [Hq _]. set (s1 := poawx_connect _ _ _ _) in *.
  unfold poawx_disconnect, revert_block_fraud_slashing, revert_block_proposer_registry. cbn [set_posture proposer_reg_queue].
  set (s2 := revert_block_proposer_registrations _ _ _ _).
  assert (proposer_reg_queue s2 = proposer_reg_queue s) as <-; [|by repeat case_match].
  unfold s2, revert_block_proposer_registrations. rewrite Hr. cbn [negb].
  set (s0 := revert_block_dominance env s1 b h).
  assert (proposer_reg_queue s0 = proposer_reg_queue s1) as Hs0 by (unfold s0, revert_block_dominance; by case_match).
  unfold activated, announced in *. destruct (proposer_reg_section_from_block b) as [sec|]; cbn [from_option set_proposers proposer_reg_queue] in *.
  - rewrite Hs0, Hq, length_app, Nat.add_sub, take_app_length, Ha. apply queue_split.
  - rewrite Hs0, Hq. cbn. by rewrite app_nil_r.
Qed.

(** The keys and the heights at which they were registered. *)
Lemma disconnect_heights s chain b h k :
  (forall k, h ∉ reg_heights (proposer_registry s) k) ->
  reg_heights (proposer_registry (poawx_disconnect env (poawx_connect env s (chain ++ [b]) h) b h)) k =
  reg_heights (proposer_registry s) k.
Proof.
  intros Hf. unfold poawx_disconnect, poawx_connect. rewrite last_snoc. cbn zeta.
  unfold revert_block_fraud_slashing, update_adaptive_mode, apply_block_fraud_slashing.
  set (s1 := apply_block_proposer_registrations _ _ _ _).
  set (s1' := if negb (adaptive_mode_active env h) then _ else _).
  assert (proposer_registry s1' = proposer_registry s1) as H1 by (unfold s1'; by repeat case_match).
  set (s2 := revert_block_proposer_registrations _ _ _ _).
  set (s3 := revert_block_proposer_registry _ _ _ _).
  assert (reg_heights (proposer_registry s3) k = reg_heights (proposer_registry s) k) as <-; [|by repeat case_match].
  set (keys := proposer_keys_from_block b (proposer_registration_active env h)) in *.
  set (acts := if proposer_registration_active env h then
                 from_option activation_keys [] (proposer_reg_section_from_block b) else []).
  set (base := if proposer_vrf_active env h then register_all (proposer_registry s) keys h else proposer_registry s).
  assert (proposer_registry s1 = register_all base acts h) as Hs1.
  { unfold s1, acts, base, apply_block_proposer_registrations, apply_block_proposer_registry, apply_block_dominance.
    fold keys. by repeat case_match. }
  assert (proposer_registry s2 = unregister_all (proposer_registry s1') acts h) as Hs2.
  { unfold s2, acts, revert_block_proposer_registrations, revert_block_dominance. by repeat case_match. }
  assert (proposer_registry s3 = if proposer_vrf_active env h then unregister_all (proposer_registry s2) keys h
                                 else proposer_registry s2) as ->.
  { unfold s3, revert_block_proposer_registry. fold keys. by repeat case_match. }
  rewrite Hs2, H1, Hs1. clear -Hf. specialize (Hf k). unfold base. destruct (proposer_vrf_active env h);
    rewrite ?reg_heights_unregister_all, ?reg_heights_register_all; repeat case_bool_decide; set_solver.
Qed.
End disconnect.

(** ** Offences *)
Section offences.
Context `{C : Crypto} (env : Env).

Definition offence_of (fp : FraudProofV1) : Offence := (fr_offender_pkh fp, fr_target_height fp, fr_kind fp).

Lemma fraud_offence fp net h off : verify_fraud_proof fp net h = Ok off ->
  (fo_offender_pkh off, fo_target_height off, fo_kind off) = offence_of fp.
Proof.
  unfold verify_fraud_proof. intros H. repeat accepted_step H. destruct f.
  unfold verify_finality_equivocation in H. repeat accepted_step H. by injection H as <-.
Qed.

Lemma offences_fresh pen h fps : forall seen seen', fold_res (check_offence env pen h) seen fps = Ok seen' ->
  Forall (fun fp => offence_of fp ∉ offences pen) fps.
Proof.
  induction fps as [|fp fps IH]; intros seen seen' H; [constructor|]. cbn [fold_res] in H.
  destruct (check_offence env pen h seen fp) as [s1| |] eqn:Hc; [|discriminate H..]. cbn [mbind res_bind] in H.
  constructor; [|by eapply IH]. unfold check_offence in Hc. accepted_step Hc.
  match goal with Hv : verify_fraud_proof _ _ _ = Ok _ |- _ => apply fraud_offence in Hv as <- end.
  repeat accepted_step Hc. unfold is_offence_recorded in *. by case_bool_decide.
Qed.

Lemma fraud_events_fresh s b h : validate_block_fraud_proofs env s b h = Ok tt ->
  Forall (fun o => o ∉ offences (penalty s)) (fraud_events_from_block b).
Proof.
  unfold validate_block_fraud_proofs, fraud_events_from_block. generalize (extended_receipts b), (∅ : gset Offence).
  induction l as [|rx l IH]; intros seen H; [constructor|]. cbn [fold_res] in H.
  destruct (_ <? _); [discriminate H|].
  destruct (fold_res (check_offence _ _ _) seen _) as [s1| |] eqn:Hf; cbn [mbind res_bind] in H; [|discriminate H..].
  cbn [fmap list_fmap concat]. apply Forall_app. split; [|by eapply IH]. apply offences_fresh in Hf. by apply Forall_fmap.
Qed.

(** The offences after connecting a block and disconnecting it. *)
Lemma disconnect_offences `{V : Vrf} act adm s chain b h : poawx_checks env act adm s chain b h = Ok tt ->
  offences (penalty (poawx_disconnect env (poawx_connect env s (chain ++ [b]) h) b h)) = offences (penalty s).
Proof.
  intros [_ _ Hfr _ _]%poawx_checks_ok. unfold poawx_disconnect. cbn [set_posture penalty].
  unfold revert_block_fraud_slashing.
  set (s1 := poawx_connect _ _ _ _). set (s2 := revert_block_proposer_registry _ _ _ _).
  assert (penalty s2 = penalty s1) as H2.
  { unfold s2, revert_block_proposer_registry, revert_block_proposer_registrations, revert_block_dominance. by repeat case_match. }
  assert (penalty s1 = if fraud_proof_enforced env h then apply_slashes (penalty s) (fraud_events_from_block b) h
                       else penalty s) as H1.
  { unfold s1, poawx_connect. rewrite last_snoc. unfold update_adaptive_mode, apply_block_fraud_slashing,
      apply_block_proposer_registrations, apply_block_proposer_registry, apply_block_dominance. by repeat case_match. }
  destruct (fraud_proof_enforced env h); cbn [negb set_penalty penalty]; [|by rewrite H2, H1].
  rewrite H2, H1, offences_revert_slashes, offences_apply_slashes. specialize (Hfr eq_refl).
  apply fraud_events_fresh in Hfr. rewrite Forall_forall in Hfr. apply set_eq. intros o.
  rewrite elem_of_difference, elem_of_union, elem_of_list_to_set. naive_solver.
Qed.
End offences.

(** ** Theorems *)

(** C2: The main network stops at height 50,000: a block at that height or above
    is refused whatever it holds, and so no chain state a node can reach is
    higher.  From there on PoAW-X asks for tickets, and the check of a ticket
    refuses every ticket of the main network. *)
Theorem mainnet_halts `{C : Crypto} `{V : Vrf} env p act window adm :
  network_id_byte env = 0 ->
  (forall now st b, 50000 <= height st ->
     exists r, @connect_block C PoawxBlockReceipt (poawx_running env act adm) env p act now window st b = (st, r) /\
       r <> Ok tt) /\
  (forall st, @reachable C PoawxBlockReceipt (poawx_running env act adm) env p act window st -> height st <= 50000).
Proof.
  intros Hn. split; [intros now st b; by apply mainnet_block_refused|].
  intros st Hr. by eapply mainnet_reachable.
Qed.

(** A node that has admitted nothing. *)
Definition no_admitted : NodeCandidateAdmissionCache := NodeCandidateAdmissionCache_new.

(** The queue of registrations is first in, first out, whoever produces the
    blocks: over any run of accepted blocks, what was in the queue followed by
    what the blocks announce is what the blocks activate followed by what is in
    the queue, and no key is in the queue twice. *)
Theorem registration_queue_fifo `{C : Crypto} `{V : Vrf} env act adm s chain h bs s' :
  extends env act adm s chain h bs s' ->
  proposer_reg_queue s ++ concat (announced <$> bs) = concat (activated <$> bs) ++ proposer_reg_queue s' /\
  (NoDup (pr_vrf_pubkey <$> proposer_reg_queue s) -> NoDup (pr_vrf_pubkey <$> proposer_reg_queue s')).
Proof. intros He. split; [by eapply queue_fifo_lemma | by eapply queue_nodup]. Qed.

(** C21: No producer can keep a key out: the key at position [i] of the queue is
    registered by the block number [i / 8] from now, at that very height, and
    is not forgotten by later blocks of the run. *)
Theorem registered_in_time `{C : Crypto} `{V : Vrf} env act adm s chain h bs s' i r :
  extends env act adm s chain h bs s' -> proposer_reg_queue s !! i = Some r -> (i < 8 * length bs)%nat ->
  is_registered (proposer_registry s') (pr_vrf_pubkey r) = true /\
  h + Z.of_nat (i / 8) ∈ reg_heights (proposer_registry s') (pr_vrf_pubkey r).
Proof.
  intros He Hi Hl. assert (h + Z.of_nat (i / 8) ∈ reg_heights (proposer_registry s') (pr_vrf_pubkey r)) as Hin.
  { revert i Hi Hl. induction He as [s chain h | s chain h b bs s' Hr Hc He IH]; intros i Hi Hl; [cbn in Hl; lia|].
    destruct (checked_drains env act adm s chain b h Hr Hc) as [Ha _].
    destruct (connect_proposers env s chain b h Hr) as [Hq Hreg]. destruct (decide (i < 8)%nat) as [Hlt|Hge].
    - rewrite (Nat.div_small i 8) by done. replace (h + Z.of_nat 0) with h by lia. eapply extends_heights; [exact He|].
      rewrite Hreg, reg_heights_register_all. rewrite bool_decide_true; [set_solver|].
      rewrite <- list_fmap_compose. apply list_elem_of_fmap. exists r. split; [done|]. rewrite Ha.
      apply list_elem_of_lookup. exists i. by rewrite lookup_take_lt by lia.
    - assert (length (activated b) = 8%nat) as H8.
      { rewrite Ha, length_take. apply lookup_lt_Some in Hi. lia. }
      replace (h + Z.of_nat (i / 8)) with (h + 1 + Z.of_nat ((i - 8) / 8)).
      + apply IH; [|cbn in Hl; lia]. rewrite Hq, H8. apply lookup_app_l_Some. rewrite lookup_drop.
        by replace (8 + (i - 8))%nat with i by lia.
      + assert (i / 8 = S ((i - 8) / 8))%nat as ->; [|lia].
        replace i with ((i - 8) + 1 * 8)%nat at 1 by lia. rewrite Nat.div_add by done. lia. }
  split; [|done]. unfold is_registered. apply bool_decide_eq_true. unfold reg_heights in Hin.
  destruct (proposer_registry s' !! _); [done | set_solver].
Qed.

(** A test network where keys can be registered and nothing is enforced. *)
Definition queue_env : Env := fun name =>
  if String.eqb name "IRIUM_NETWORK" then Some "testnet"%string else
  if String.eqb name "IRIUM_POAWX_PROPOSER_VRF_ACTIVATION_HEIGHT" then Some "0"%string else
  if String.eqb name "IRIUM_POAWX_PROPOSER_REGISTRATION_ACTIVATION_HEIGHT" then Some "0"%string else None.

Definition queue_state : PoawxState :=
  {| dominance := PersistentDominance_new 10 2; proposer_registry := ∅; proposer_reg_queue := [sample_registration];
     penalty := PersistentPenalty_new; adaptive_mode := Normal; reorg_signal := 0; reg_pool := ∅ |}.

Definition with_sections (x : Phase20ReceiptExt) (t : Sections) : Phase20ReceiptExt :=
  {| x_role_reward := x_role_reward x; x_compute_claim := x_compute_claim x; x_verify_claim := x_verify_claim x;
     x_support_claim := x_support_claim x; x_fee_bps := x_fee_bps x; x_fee_pkh := x_fee_pkh x;
     x_precommit_root := x_precommit_root x; x_sections := t |}.

Definition queue_block : FullBlock :=
  {| bheader := sample_wire_header; transactions := []; auxpow := None;
     poawx_receipts := Some [set_ext sample_receipt (Some (with_sections sample_ext
       (one_section (SRegistrations {| announces := []; activations := [sample_registration] |}))))] |}.

Definition queue_after : PoawxState := poawx_connect queue_env queue_state [queue_block] 5.

(** The main network at height 50,000. *)
#[local] Instance mainnet_poawx : Poawx PoawxBlockReceipt := poawx_running (V := no_vrf) no_env 0 no_admitted.
Definition halted_state : ChainState PoawxBlockReceipt :=
  {| ledger := empty_ledger; height := 50000; chain := [queue_block]; total_work := 0; issued := 0; block_store := ∅;
     heights := ∅; cumulative_work := ∅; best_tip := []; undo_logs := ∅; poawx_state := queue_state;
     finalized_height := 0 |}.

Lemma mainnet_halts_witness :
  exists r, connect_block no_env demo_params 0 1000 0 halted_state queue_block = (halted_state, r) /\ r <> Ok tt.
Proof.
  exact (proj1 (mainnet_halts (V := no_vrf) no_env demo_params 0 0 no_admitted eq_refl) 1000 halted_state queue_block
    (Z.le_refl 50000)).
Defined.

Lemma queue_checked : proposer_registration_active queue_env 5 = true /\
  poawx_checks (V := no_vrf) queue_env 0 no_admitted queue_state [] queue_block 5 = Ok tt.
Proof. split; by vm_compute. Qed.

Lemma queue_run : extends (V := no_vrf) queue_env 0 no_admitted queue_state [] 5 [queue_block] queue_after.
Proof. destruct queue_checked. eapply ext_block; [done | done | apply ext_done]. Qed.

Lemma registration_queue_fifo_witness :
  proposer_reg_queue queue_state ++ concat (announced <$> [queue_block]) =
  concat (activated <$> [queue_block]) ++ proposer_reg_queue queue_after.
Proof. exact (proj1 (registration_queue_fifo _ _ _ _ _ _ _ _ queue_run)). Defined.

Lemma registered_in_time_witness :
  5 + 0 ∈ reg_heights (proposer_registry queue_after) (pr_vrf_pubkey sample_registration).
Proof.
  assert ((0 < 8 * length [queue_block])%nat) as Hl by (cbn; lia).
  exact (proj2 (registered_in_time _ _ _ _ _ _ _ _ 0%nat sample_registration queue_run eq_refl Hl)).
Defined.

(** C28: Disconnecting a block that was accepted takes back what it did: the
    queue, the heights at which each key was registered and with them who may
    propose at any height, and the offences on record are those of before. *)
Theorem disconnect_restores_poawx `{C : Crypto} `{V : Vrf} env act adm s chain b h :
  poawx_checks env act adm s chain b h = Ok tt -> (forall k, h ∉ reg_heights (proposer_registry s) k) ->
  let s' := poawx_disconnect env (poawx_connect env s (chain ++ [b]) h) b h in
  (proposer_registration_active env h = true -> proposer_reg_queue s' = proposer_reg_queue s) /\
  (forall k, reg_heights (proposer_registry s') k = reg_heights (proposer_registry s) k) /\
  (forall k target, is_eligible env (proposer_registry s') k target = is_eligible env (proposer_registry s) k target) /\
  (forall target, eligible_count env (proposer_registry s') target = eligible_count env (proposer_registry s) target) /\
  offences (penalty s') = offences (penalty s).
Proof.
  intros Hc Hf s'.
  assert (forall k, reg_heights (proposer_registry s') k = reg_heights (proposer_registry s) k) as Hh
    by (intros k; by apply disconnect_heights).
  assert (forall target, same_window (proposer_freeze_depth env) (proposer_registry s') (proposer_registry s) target) as Hw
    by (intros target k h' _; by rewrite Hh).
  split_and!; [ | exact Hh | intros k target; by apply same_window_eligible | intros target; by apply same_window_count |].
  - intros Hr. apply disconnect_queue; [done|]. by destruct (checked_drains env act adm s chain b h Hr Hc).
  - by eapply disconnect_offences.
Qed.

Lemma disconnect_restores_poawx_witness :
  proposer_reg_queue (poawx_disconnect queue_env (poawx_connect queue_env queue_state [queue_block] 5) queue_block 5) =
  [sample_registration].
Proof.
  destruct queue_checked as [Hr Hc].
  assert (forall k, 5 ∉ reg_heights (proposer_registry queue_state) k) as Hf
    by (intros k; change (5 ∉ reg_heights ∅ k); unfold reg_heights; rewrite lookup_empty; set_solver).
  exact (proj1 (disconnect_restores_poawx (V := no_vrf) queue_env 0 no_admitted queue_state [] queue_block 5 Hc Hf) Hr).
Defined.

(** C23: A block whose proposer was accepted: for each receipt, the worker is
    the hash of the key of the proof, the proof is valid for this height and the
    seed of the epoch, the key is eligible (unless no key is), its priority is
    under the threshold of its round, and the round has opened. *)
Theorem proposer_in_turn `{C : Crypto} `{V : Vrf} env act adm s chain b h r :
  poawx_checks env act adm s chain b h = Ok tt -> proposer_vrf_enforced env h = true -> r ∈ receipts_of b ->
  exists x pa, rc_phase20_ext r = Some x /\ proposer_assignment (x_sections x) = Some pa /\
    let key := a2_assignment_public_key (pa_proof pa) in
    let n := eligible_count env (proposer_registry s) h in
    validate_assignment_v2 env (pa_proof pa) (network_id_byte env) h = Ok tt /\
    a2_seed (pa_proof pa) = expected_epoch_seed env h (prev_hash (bheader b)) (last chain) /\
    rc_worker_pkh r = hash160 key /\
    (0 < n -> is_eligible env (proposer_registry s) key h = true) /\
    is_selected (proposer_priority (a2_vrf_output (pa_proof pa))) n (pa_round pa) = true /\
    min_time_for_round (from_option (fun p => time (bheader p)) 0 (last chain)) (pa_round pa)
      (proposer_round_interval_secs env) <= time (bheader b).
Proof.
  intros [_ _ _ Hp _]%poawx_checks_ok He Hr. specialize (Hp He). unfold validate_block_proposer in Hp.
  apply check_all_ok in Hp. rewrite Forall_forall in Hp. specialize (Hp r Hr). unfold validate_proposer_receipt in Hp.
  do 2 (match type of Hp with (_ ← ok_or ?o _; _) = _ => destruct o eqn:?; [|discriminate Hp] end; cbn [mbind res_bind ok_or] in Hp).
  exists p, p0. split_and!; [done|done|]. cbv zeta.
  match type of Hp with (_ ← ?m; _) = _ => destruct m as [[]| |] eqn:?; [|discriminate Hp..] end; cbn [mbind res_bind] in Hp.
  repeat accepted_step Hp. beqb_facts. unfold is_selected.
  split_and!; [done | congruence | congruence | intros Hn | lia | lia].
  match goal with Hx : _ && negb _ = false |- _ => apply andb_false_iff in Hx as [Hx|Hx]; [lia | by apply negb_false_iff in Hx] end.
Qed.

(** A VRF whose proofs are their own output, for the example. *)
Definition echo_vrf : Vrf := {|
  Point := bytes; VrfProof := bytes; VrfVerified := bytes; Point_from_bytes := fun pk => Some pk;
  decode_vrf_proof := fun raw => Some (raw, len raw); tai_verify := fun _ _ proof => Some proof;
  tai_output := fun proof => take 32 proof
|}.

Definition proposer_env : Env := fun name =>
  if String.eqb name "IRIUM_NETWORK" then Some "testnet"%string else
  if String.eqb name "IRIUM_POAWX_PROPOSER_VRF_ACTIVATION_HEIGHT" then Some "0"%string else
  if String.eqb name "IRIUM_POAWX_PROPOSER_VRF_REQUIRED" then Some "1"%string else None.

Definition proposer_proof : AssignmentProofV2 :=
  let key := public_key sample_sk in
  let a d := {| a2_version := 2; a2_network_id := 1; a2_target_height := 5; a2_role_id := ROLE_PROPOSER;
    a2_solver_pkh := hash160 key; a2_assignment_public_key := key; a2_ticket_digest := zeros 32; a2_seed := zeros 32;
    a2_vrf_output := zeros 32; a2_vrf_proof := zeros 81; a2_digest := d |} in
  a (compute_digest_v2 (a [])).

Definition proposer_receipt : PoawxBlockReceipt :=
  set_ext rules_receipt (Some (with_sections sample_ext
    (one_section (SProposer {| pa_round := 0; pa_proof := proposer_proof |})))).
Definition proposer_block : FullBlock :=
  {| bheader := sample_wire_header; transactions := []; auxpow := None; poawx_receipts := Some [proposer_receipt] |}.

Lemma proposer_in_turn_witness : exists x pa,
  rc_phase20_ext proposer_receipt = Some x /\ proposer_assignment (x_sections x) = Some pa /\
  rc_worker_pkh proposer_receipt = hash160 (a2_assignment_public_key (pa_proof pa)).
Proof.
  assert (poawx_checks (V := echo_vrf) proposer_env 0 no_admitted queue_state [] proposer_block 5 = Ok tt) as Hc by (by vm_compute).
  assert (proposer_vrf_enforced proposer_env 5 = true) as He by (by vm_compute).
  assert (proposer_receipt ∈ receipts_of proposer_block) as Hr by apply list_elem_of_here.
  destruct (proposer_in_turn (V := echo_vrf) proposer_env 0 no_admitted queue_state [] proposer_block 5 proposer_receipt Hc He Hr)
    as (x & pa & Hx & Hpa & _ & _ & Hw & _).
  exact (ex_intro _ x (ex_intro _ pa (conj Hx (conj Hpa Hw)))).
Defined.

(** ** Finality without members *)
Definition outsiders_header : BlockHeader :=
  {| version := 1; prev_hash := replicate 32 1; merkle_root := zeros 32; time := 7; hbits := 0; nonce := 5 |}.
Definition outsiders_candidates : CandidateSet :=
  set_candidates (CandidateSet_new 1 50 (zeros 32))
    ((fun k => candidate_with ROLE_SUPPORT_CONTRIBUTOR (hash160 (public_key k)) (public_key k) (zeros 32) 0 (zeros 32) 1000 (zeros 32))
     <$> sample_members).
Definition outsiders_block : FullBlock :=
  {| bheader := outsiders_header; transactions := []; auxpow := None;
     poawx_receipts := Some [set_ext sample_receipt (Some (with_sections sample_ext
       (or_sections (one_section (SFinality (sample_proof (replicate 32 1) 7)))
                    (one_section (SCandidates outsiders_candidates)))))] |}.

(** Four keys of long standing; the three voters registered in this block. *)
Definition outsiders_registry : ProposerEligibilityRegistry :=
  register_all (register_all ∅ ((fun n => (replicate 33 n, zeros 20)) <$> [11; 12; 13; 14]) 1)
    ((fun k => (public_key k, hash160 (public_key k))) <$> sample_members) 50.
Definition outsiders_state : PoawxState := set_proposers queue_state outsiders_registry [] ∅.

(** The quorum of finality counts the wrong keys: it is sized by the keys
    that are eligible, but met by any keys that are registered.  A block may be
    finalized by three keys registered in the very block that carries their
    votes, none of which is eligible, while none of the four eligible keys
    votes; the proof passes the check of the block too. *)
Theorem finality_without_members :
  eligible_count queue_env outsiders_registry 49 = 4 /\
  validate_block_finality queue_env outsiders_block 50 = Ok tt /\
  block_finality_has_genuine_quorum queue_env outsiders_state [outsiders_block] 50 = true /\
  forallb (fun v => negb (is_eligible queue_env outsiders_registry (fv_member_pubkey v) 49))
    (from_option fp_votes [] (block_finality_proof outsiders_block)) = true.
Proof. split_and!; by vm_compute. Qed.
