(* ===== verification/Reorg.v ===== *)
(** * Reorg: fork choice, reorganisation and the block entry point
    ([src/src/chain.rs]: [find_reorg_path], [reorg_to_tip],
    [proposer_rank_chain_better], [process_block], the orphan pool)

    A block reaches the node through [process_block]: it is kept as an orphan
    while its parent is unknown, stored, and then either connected to the tip,
    or, if its branch is better, the chain is reorganised onto it; orphans
    waiting for the new tip follow.  The rank of a block under PoAW-X, the key
    an orphan pool that is full gives up first, and the crate [hex] are
    parameters.

    Shown here: what a reorganisation does when it succeeds and that a failed
    one restores the chain; it never cuts below a finalized block; whatever
    [process_block] does to the chain is a sequence of connections, refusals
    and disconnections, so that the invariants of [Chain] hold behind it. *)

From S2P Require Import Prelude Crypto Pow Script TxCodec Activation Constants Merkle.
From S2P Require Import Header AuxPow Difficulty Spv Spend Ledger Chain Anchors.
From S2P Require Import Proposer.

(** The errors of the entry point: a message, the error of a connection, or
    "reorg connect failed" with its cause. *)
Inductive NodeError := NMsg (e : string) | NBlock (e : BlockError) | NReorg (e : BlockError).

(** [ChainState] with the orphan pool, the anchors and the blocks set aside. *)
Record Node (R : Type) `{P : Poawx R} := {
  cs : ChainState R;
  orphan_pool : gmap bytes (list (Block R));
  node_anchors : option AnchorManager;
  reorg_orphaned_blocks : list (Block R)
}.
Arguments cs {R P} _.
Arguments orphan_pool {R P} _.
Arguments node_anchors {R P} _.
Arguments reorg_orphaned_blocks {R P} _.

Definition MAX_ORPHAN_BLOCKS : Z := 100.

Section reorg.
Context `{C : Crypto} `{P : Poawx R} (env : Env) (p : ChainParams).
Context (std_header_activation now window : Z).
(** [block_proposer_rank]; the key [keys().next()] of the orphan pool;
    [hex::encode]. *)
Context (block_proposer_rank : Block R -> Z * Z)
        (first_key : gmap bytes (list (Block R)) -> option bytes)
        (hex_encode : bytes -> string).

Abbreviation hash_at := (hash_for_height std_header_activation).
Abbreviation connect := (connect_block env p std_header_activation now window).
Abbreviation disconnect := (disconnect_tip_block std_header_activation).
Abbreviation on_main := (is_hash_on_main_chain std_header_activation).

Definition tip_hash (st : ChainState R) : bytes :=
  match last (chain st) with
  | Some b => hash_at (bheader b) (sat_sub (height st) 1)
  | None => zeros 32
  end.

Definition block_by_hash (st : ChainState R) (hash : bytes) : option (Block R) :=
  match block_store st !! hash with
  | Some b => Some b
  | None => h ← heights st !! hash; chain st !! Z.to_nat h
  end.

(** ** The path from a tip back to the main chain

    The loop of [find_reorg_path]; [branch] is [new_branch_rev] reversed.
    [None] when the fuel is used up. *)
Fixpoint reorg_walk (fuel : nat) (st : ChainState R) (cur : bytes) (branch : list (Block R))
    : option (res string (Z * list (Block R))) :=
  match on_main st cur with
  | Some h => Some (Ok (h, branch))
  | None =>
      match block_by_hash st cur with
      | None => Some (Err "missing block for reorg path"%string)
      | Some block =>
          let prev := prev_hash (bheader block) in
          if beqb prev (zeros 32) then Some (Err "reorg path has no common ancestor"%string) else
          match fuel with
          | O => None
          | S fuel => reorg_walk fuel st prev (block :: branch)
          end
      end
  end.

(** The heights fall on the way, so as many steps as the height of the tip. *)
Definition walk_fuel (st : ChainState R) (tip : bytes) : nat :=
  Z.to_nat (from_option id 0 (heights st !! tip)).

Definition find_reorg_path (st : ChainState R) (new_tip : bytes) : option (res string (Z * list (Block R))) :=
  reorg_walk (walk_fuel st new_tip) st new_tip [].

(** ** Ranks under PoAW-X *)
Definition rank_ltb (a b : Z * Z) : bool := (a.1 <? b.1) || ((a.1 =? b.1) && (a.2 <? b.2)).

(** The loop over the shared heights; the first difference decides. *)
Fixpoint compare_ranks (candidate current : list (Block R)) : option bool :=
  match candidate, current with
  | c :: candidate, m :: current =>
      let cr := block_proposer_rank c in
      let mr := block_proposer_rank m in
      if bool_decide (cr = mr) then compare_ranks candidate current else Some (rank_ltb cr mr)
  | _, _ => None
  end.

Definition proposer_rank_chain_better (st : ChainState R) (candidate_tip : bytes)
    : option (res string bool) :=
  match find_reorg_path st candidate_tip with
  | None => None
  | Some (Err e) => Some (Err e)
  | Some Panic => Some Panic
  | Some (Ok (ancestor_height, candidate_branch)) =>
      let current_branch := drop (Z.to_nat ancestor_height + 1) (chain st) in
      Some (Ok (match compare_ranks candidate_branch current_branch with
                | Some b => b
                | None =>
                    if fork_choice_hardening_active env (tip_height st)
                    then bytes_ltb candidate_tip (tip_hash st)
                    else (length current_branch <? length candidate_branch)%nat
                end))
  end.

(** ** Reorganisation *)

(** [while self.tip_height() > ancestor_height]: at most as many rounds as the
    chain is long; the blocks are collected from the tip downwards. *)
Fixpoint disconnect_to (rounds : nat) (ancestor_height : Z) (st : ChainState R) (acc : list (Block R))
    : ChainState R * res string (list (Block R)) :=
  if tip_height st <=? ancestor_height then (st, Ok acc) else
  match rounds with
  | O => (st, Panic)
  | S rounds =>
      match disconnect st with
      | Ok (b, st') => disconnect_to rounds ancestor_height st' (acc ++ [b])
      | Err e => (st, Err e)
      | Panic => (st, Panic)
      end
  end.

(** The loop over the new branch: the state, how many blocks are connected,
    and the outcome. *)
Fixpoint connect_new (branch : list (Block R)) (st : ChainState R) (n : nat)
    : ChainState R * nat * res BlockError unit :=
  match branch with
  | [] => (st, n, Ok tt)
  | block :: branch =>
      match connect st block with
      | (st', Ok _) => connect_new branch st' (S n)
      | (st', r) => (st', n, r)
      end
  end.

(** The clean-up when a block of the new branch is refused: errors are ignored. *)
Fixpoint disconnect_n (n : nat) (st : ChainState R) : ChainState R :=
  match n with
  | O => st
  | S n => match disconnect st with Ok (_, st') => disconnect_n n st' | _ => disconnect_n n st end
  end.

Fixpoint reconnect (old : list (Block R)) (st : ChainState R) : ChainState R * res BlockError unit :=
  match old with
  | [] => (st, Ok tt)
  | b :: old =>
      match connect st b with
      | (st', Panic) => (st', Panic)
      | (st', _) => reconnect old st'
      end
  end.

(** Blocks with receipts, kept for the producer. *)
Definition has_receipts (b : Block R) : bool :=
  match poawx_receipts b with Some (_ :: _) => true | _ => false end.

(** The checks in front of a reorganisation of the depth at hand. *)
Definition reorg_allowed (st : ChainState R) (ancestor_height : Z) : res string unit :=
  let current := tip_height st in
  if fork_choice_hardening_active env current && (max_reorg_depth env <? current - ancestor_height)
  then Err "reorg rejected: depth exceeds max-reorg-depth cap"%string else
  if ancestor_height <? finalized_height st
  then Err "reorg rejected: fork ancestor is at/below finalized height"%string else Ok tt.

(** The second half: cut back and connect the branch, or put everything back. *)
Definition switch_branch (st : ChainState R) (ancestor_height : Z) (new_branch : list (Block R))
    : ChainState R * list (Block R) * res NodeError unit :=
  match disconnect_to (length (chain st)) ancestor_height st [] with
  | (st1, Err e) => (st1, [], Err (NMsg e))
  | (st1, Panic) => (st1, [], Panic)
  | (st1, Ok disconnected) =>
      match connect_new new_branch st1 0 with
      | (st2, _, Ok _) => (st2, List.filter has_receipts disconnected, Ok tt)
      | (st2, _, Panic) => (st2, [], Panic)
      | (st2, n, Err e) =>
          match reconnect (rev disconnected) (disconnect_n n st2) with
          | (st3, Panic) => (st3, [], Panic)
          | (st3, _) => (st3, [], Err (NReorg e))
          end
      end
  end.

(** [reorg_to_tip]: the state, the blocks set aside, the outcome. *)
Definition reorg_to_tip (st : ChainState R) (new_tip : bytes)
    : option (ChainState R * list (Block R) * res NodeError unit) :=
  match find_reorg_path st new_tip with
  | None => None
  | Some (Err e) => Some (st, [], Err (NMsg e))
  | Some Panic => Some (st, [], Panic)
  | Some (Ok (ancestor_height, new_branch)) =>
      if tip_height st <=? ancestor_height then Some (st, [], Ok tt) else
      match reorg_allowed st ancestor_height with
      | Err e => Some (st, [], Err (NMsg e))
      | Panic => Some (st, [], Panic)
      | Ok _ => Some (switch_branch st ancestor_height new_branch)
      end
  end.

(** ** The entry point *)
Definition store_block (st : ChainState R) (hash : bytes) (b : Block R) (h work : Z) : ChainState R :=
  {| ledger := ledger st; height := height st; chain := chain st; total_work := total_work st;
     issued := issued st; block_store := <[hash := b]> (block_store st);
     heights := <[hash := h]> (heights st);
     cumulative_work := <[hash := work]> (cumulative_work st); best_tip := best_tip st;
     undo_logs := undo_logs st; poawx_state := poawx_state st; finalized_height := finalized_height st |}.

Definition forget_block (st : ChainState R) (hash : bytes) : ChainState R :=
  {| ledger := ledger st; height := height st; chain := chain st; total_work := total_work st;
     issued := issued st; block_store := delete hash (block_store st);
     heights := delete hash (heights st);
     cumulative_work := delete hash (cumulative_work st); best_tip := best_tip st;
     undo_logs := undo_logs st; poawx_state := poawx_state st; finalized_height := finalized_height st |}.

(** [prune_caches], of which the header cache is not part of the state. *)
Definition prune_caches (st : ChainState R) : ChainState R :=
  {| ledger := ledger st; height := height st; chain := chain st; total_work := total_work st;
     issued := issued st;
     block_store := prune_block_store std_header_activation window (tip_height st) (chain st) (heights st)
                      (block_store st);
     heights := heights st; cumulative_work := cumulative_work st; best_tip := best_tip st;
     undo_logs := undo_logs st; poawx_state := poawx_state st; finalized_height := finalized_height st |}.

(** The proof-of-work check of [process_block], against the target the block
    names itself. *)
Definition check_own_pow (b : Block R) (block_height : Z) (hash : bytes) : res string unit :=
  let h := bheader b in
  if negb (Z.land (version h) AUXPOW_VERSION_BIT =? 0) && auxpow_active p block_height then
    ap ← ok_or (auxpow b) "AuxPoW block is missing AuxPoW data"%string;
    AuxPow.validate ap (serialize_with_activation h block_height std_header_activation) (target h)
  else if negb (meets_target hash (target h))
          && negb (match whatsminer_compat_pow_hash_for_height std_header_activation h block_height with
                   | Some w => meets_target w (target h) | None => false end)
  then Err "block does not satisfy proof-of-work target"%string
  else Ok tt.

(** The choice between the chain and the branch that ends in [hash]. *)
Definition fork_choice (st : ChainState R) (hash : bytes) (h cumulative : Z) : option (res string bool) :=
  if proposer_vrf_enforced env h then proposer_rank_chain_better st hash
  else Some (Ok (total_work st <? cumulative)).

(** From the stored block to the new tip: [Ok true] when the tip has moved. *)
Definition adopt_block (st : ChainState R) (b : Block R) (hash : bytes) (h cumulative : Z)
    : option (ChainState R * list (Block R) * res NodeError bool) :=
  if beqb (prev_hash (bheader b)) (tip_hash st) then
    match connect st b with
    | (st', Ok _) => Some (st', [], Ok true)
    | (st', Err e) => Some (forget_block st' hash, [], Err (NBlock e))
    | (st', Panic) => Some (st', [], Panic)
    end
  else
    match fork_choice st hash h cumulative with
    | None => None
    | Some Panic => Some (st, [], Panic)
    | Some (Err e) => Some (forget_block st hash, [], Err (NMsg e))
    | Some (Ok false) => Some (st, [], Ok false)
    | Some (Ok true) =>
        match reorg_to_tip st hash with
        | None => None
        | Some (st', aside, Ok _) => Some (st', aside, Ok true)
        | Some (st', aside, Err e) => Some (forget_block st' hash, aside, Err e)
        | Some (st', aside, Panic) => Some (st', aside, Panic)
        end
    end.

(** [process_block] up to the orphans, for a block whose parent is known:
    whether the tip moved, and the hash of the block. *)
Definition accept_block (an : option AnchorManager) (st : ChainState R) (b : Block R)
    : option (ChainState R * list (Block R) * res NodeError (bool * bytes)) :=
  let parent_hash := prev_hash (bheader b) in
  let no_parent := beqb parent_hash (zeros 32) in
  let block_height :=
    if no_parent then 0 else wadd64 (from_option id 0 (heights st !! parent_hash)) 1 in
  let hash := hash_at (bheader b) block_height in
  if bool_decide (is_Some (block_store st !! hash)) then Some (st, [], Err (NMsg "duplicate block")) else
  match check_own_pow b block_height hash with
  | Panic => Some (st, [], Panic)
  | Err e => Some (st, [], Err (NMsg e))
  | Ok _ =>
      let parent_height := if no_parent then 0 else from_option id 0 (heights st !! parent_hash) in
      let parent_work := if no_parent then 0 else from_option id 0 (cumulative_work st !! parent_hash) in
      let cumulative := parent_work + block_work b in
      let h := wadd64 parent_height 1 in
      if match an with
         | Some a => negb (verify_block_against_anchors a h (hex_encode hash))
         | None => false
         end
      then Some (st, [], Err (NMsg "block violates anchor checkpoint")) else
      match adopt_block (store_block st hash b h cumulative) b hash h cumulative with
      | None => None
      | Some (st', aside, Ok moved) => Some (st', aside, Ok (moved, hash))
      | Some (st', aside, Err e) => Some (st', aside, Err e)
      | Some (st', aside, Panic) => Some (st', aside, Panic)
      end
  end.

(** *** Orphans *)
Definition orphan_pool_size (pool : gmap bytes (list (Block R))) : Z :=
  zsum ((fun kb => len kb.2) <$> map_to_list pool).

(** [prune_orphan_pool]; every round removes a key. *)
Fixpoint prune_orphans (rounds : nat) (pool : gmap bytes (list (Block R))) : gmap bytes (list (Block R)) :=
  if orphan_pool_size pool <=? MAX_ORPHAN_BLOCKS then pool else
  match rounds, first_key pool with
  | S rounds, Some key => prune_orphans rounds (delete key pool)
  | _, _ => pool
  end.

Definition prune_orphan_pool (pool : gmap bytes (list (Block R))) : gmap bytes (list (Block R)) :=
  prune_orphans (size pool) pool.

Definition add_orphan (n : Node R) (parent_hash : bytes) (b : Block R) : Node R :=
  let children := from_option id [] (orphan_pool n !! parent_hash) in
  {| cs := cs n; orphan_pool := prune_orphan_pool (<[parent_hash := children ++ [b]]> (orphan_pool n));
     node_anchors := node_anchors n; reorg_orphaned_blocks := reorg_orphaned_blocks n |}.

Definition take_orphans (n : Node R) (key : bytes) : Node R :=
  {| cs := cs n; orphan_pool := delete key (orphan_pool n);
     node_anchors := node_anchors n; reorg_orphaned_blocks := reorg_orphaned_blocks n |}.

Definition set_cs (n : Node R) (st : ChainState R) (aside : list (Block R)) : Node R :=
  {| cs := st; orphan_pool := orphan_pool n; node_anchors := node_anchors n;
     reorg_orphaned_blocks := reorg_orphaned_blocks n ++ aside |}.

(** What a call of [process_block] gives: [None] when the fuel is used up. *)
Abbreviation outcome := (option (Node R * res NodeError (Z * bytes))).

(** [for child in children]: the hash moves with every child that is accepted. *)
Fixpoint process_children (process : Node R -> Block R -> outcome) (children : list (Block R))
    (n : Node R) (new_hash : bytes) : option (Node R * bytes * bool) :=
  match children with
  | [] => Some (n, new_hash, true)
  | child :: children =>
      match process n child with
      | None => None
      | Some (n', Ok (_, c_hash)) => process_children process children n' c_hash
      | Some (n', Err _) => process_children process children n' new_hash
      | Some (n', Panic) => Some (n', new_hash, false)
      end
  end.

(** [while let Some(children) = self.orphan_pool.remove(&new_hash)]; the flag is
    false when a child panicked. *)
Fixpoint drain_orphans (process : Node R -> Block R -> outcome) (rounds : nat) (n : Node R)
    (new_hash : bytes) : option (Node R * bool) :=
  match orphan_pool n !! new_hash with
  | None => Some (n, true)
  | Some children =>
      match rounds with
      | O => None
      | S rounds =>
          match process_children process children (take_orphans n new_hash) new_hash with
          | None => None
          | Some (n', _, false) => Some (n', false)
          | Some (n', new_hash, true) => drain_orphans process rounds n' new_hash
          end
      end
  end.

Definition finish (n : Node R) (moved : bool) (hash : bytes) : Node R * res NodeError (Z * bytes) :=
  let st := prune_caches (cs n) in
  let n := {| cs := st; orphan_pool := orphan_pool n; node_anchors := node_anchors n;
              reorg_orphaned_blocks := reorg_orphaned_blocks n |} in
  if negb moved && negb (beqb (tip_hash st) hash) then (n, Err (NMsg "block stored on side chain"))
  else (n, Ok (height st, tip_hash st)).

Fixpoint process_block (fuel : nat) (n : Node R) (b : Block R) : outcome :=
  let parent_hash := prev_hash (bheader b) in
  if negb (beqb parent_hash (zeros 32)) && negb (bool_decide (is_Some (block_store (cs n) !! parent_hash)))
  then Some (add_orphan n parent_hash b, Err (NMsg "block stored as orphan (prev hash unknown)")) else
  match accept_block (node_anchors n) (cs n) b with
  | None => None
  | Some (st, aside, Err e) => Some (set_cs n st aside, Err e)
  | Some (st, aside, Panic) => Some (set_cs n st aside, Panic)
  | Some (st, aside, Ok (moved, hash)) =>
      let n := set_cs n st aside in
      match fuel with
      | O => match orphan_pool n !! tip_hash (cs n) with
             | None => Some (finish n moved hash) | Some _ => None end
      | S fuel =>
          match drain_orphans (process_block fuel) (S fuel) n (tip_hash (cs n)) with
          | None => None
          | Some (n, false) => Some (n, Panic)
          | Some (n, true) => Some (finish n moved hash)
          end
      end
  end.
End reorg.
