(* ===== verification/ReorgSafety.v ===== *)
(** * ReorgSafety: what the block entry point can do to the chain

    The node's states under any sequence of submitted blocks
    ([node_reachable]), and the invariants that hold in all of them: whatever
    [process_block] does, by way of orphans, fork choice and reorganisations
    that succeed or fail, the chain behind it is one that connections,
    refusals and disconnections lead to. *)

From S2P Require Import Prelude Crypto Pow Script TxCodec Activation Constants Merkle.
From S2P Require Import Header AuxPow Difficulty Spv Spend Ledger Chain Anchors Reorg.

Section safety.
Context `{C : Crypto} `{P : Poawx R} (env : Env) (p : ChainParams).
Context (std_header_activation window : Z).
Context (block_proposer_rank : Block R -> Z * Z)
        (first_key : gmap bytes (list (Block R)) -> option bytes)
        (hex_encode : bytes -> string).
(** [keys().next()] gives a key of the map, if it has one. *)
Context (Hkey : forall pool, pool <> ∅ -> exists k, first_key pool = Some k /\ is_Some (pool !! k)).

Abbreviation reach := (reachable env p std_header_activation window).
Abbreviation connect now := (connect_block env p std_header_activation now window).
Abbreviation disconnect := (disconnect_tip_block std_header_activation).

(** Blocks that came over the wire. *)
Definition wire_block (b : Block R) : Prop := Forall wire_tx (transactions b).

(** The chain is reachable and every block at hand came over the wire. *)
Record state_ok (st : ChainState R) : Prop := {
  so_reach : reach st;
  so_store : map_Forall (fun _ b => wire_block b) (block_store st);
  so_chain : Forall wire_block (chain st)
}.

Record node_ok (n : Node R) : Prop := {
  no_state : state_ok (cs n);
  no_pool : map_Forall (fun _ bs => Forall wire_block bs) (orphan_pool n);
  no_size : orphan_pool_size (orphan_pool n) <= MAX_ORPHAN_BLOCKS
}.

Lemma wire_last st b : state_ok st -> last (chain st) = Some b -> wire_block b.
Proof.
  intros [_ _ Hc] Hl. apply last_Some in Hl as [l Hl]. rewrite Hl in Hc.
  apply Forall_app in Hc as [_ Hc]. by apply Forall_cons in Hc as [? _].
Qed.

Lemma prune_wire tip bs hs store :
  map_Forall (fun _ b => wire_block b) store ->
  map_Forall (fun _ b => wire_block b) (prune_block_store (R := R) std_header_activation window tip bs hs store).
Proof.
  intros H. unfold prune_block_store. destruct (_ || _); [done|].
  intros k b Hb. apply map_lookup_filter_Some in Hb as [Hb _]. by eapply H.
Qed.

(** *** The steps *)
Lemma connect_state_ok now st b st' r :
  state_ok st -> wire_block b -> connect now st b = (st', r) -> r <> Panic -> state_ok st'.
Proof.
  intros Hok Hb H Hr. pose proof Hok as [Hre Hs Hc]. destruct r as [[]| |]; [| |done].
  - split; [by eapply reach_connect|..]; apply connect_ok in H as (l & f & t & s & u & n & _ & _ & _ & ->);
      cbn [push_block block_store chain].
    + apply prune_wire. by apply map_Forall_insert_2.
    + apply Forall_app. split; [done | by constructor].
  - assert (block_store st' = block_store st /\ chain st' = chain st) as [Es Ec].
    { unfold connect_block in H.
      repeat (case_match; try (apply pair_eq in H as [<- ?]; done)). }
    split; [by eapply reach_refuse | by rewrite Es | by rewrite Ec].
Qed.

Lemma disconnect_state_ok st b st' :
  state_ok st -> disconnect st = Ok (b, st') -> state_ok st' /\ wire_block b.
Proof.
  intros Hok H. pose proof Hok as [Hre Hs Hc]. pose proof H as Hd. unfold disconnect_tip_block in H.
  destruct (last (chain st)) as [tip|] eqn:Hl; [|done]. destruct (_ <=? 1)%nat; [done|].
  destruct (undo_logs st !! _); [|done]. apply Ok_inj, pair_eq in H as [<- <-].
  split; [|by eapply wire_last]. split; [by eapply reach_disconnect | done |].
  by apply Forall_take.
Qed.

Lemma store_state_ok st st' :
  state_ok st -> same_but_store st st' -> map_Forall (fun _ b => wire_block b) (block_store st') ->
  state_ok st'.
Proof.
  intros [Hre _ Hc] Hs Hst. split; [by eapply reach_store | done |]. by rewrite (sb_chain _ _ Hs).
Qed.

(** *** Reorganisations *)
Lemma reorg_walk_wire fuel st cur branch a bs :
  state_ok st -> reorg_walk std_header_activation fuel st cur branch = Some (Ok (a, bs)) ->
  Forall wire_block branch -> Forall wire_block bs.
Proof.
  intros Hok. revert cur branch. induction fuel as [|fuel IH]; intros cur branch H Hb; cbn in H;
    (destruct (is_hash_on_main_chain _ _ _) as [h|]; [by simplify_eq|]);
    destruct (block_by_hash st cur) as [b|] eqn:Hbh; [|done| |done];
    (destruct (beqb _ _); [done|]); [done|].
  apply IH in H; [done|]. constructor; [|done]. unfold block_by_hash in Hbh.
  destruct (block_store st !! cur) eqn:Hs; [simplify_eq; by eapply (so_store _ Hok)|].
  destruct (heights st !! cur) as [h|]; [|done]. cbn in Hbh.
  eapply (proj1 (Forall_lookup _ _) (so_chain _ Hok)), Hbh.
Qed.

Lemma disconnect_to_ok rounds a st acc st' r :
  state_ok st -> Forall wire_block acc ->
  disconnect_to std_header_activation rounds a st acc = (st', r) ->
  state_ok st' /\ forall d, r = Ok d -> Forall wire_block d.
Proof.
  revert st acc. induction rounds as [|n IH]; intros st acc Hok Ha H; cbn in H;
    (destruct (_ <=? a); [simplify_eq; split; [done | by intros d [= <-]]|]);
    [by simplify_eq|].
  destruct (disconnect st) as [[b st1]| |] eqn:Hd; [|by simplify_eq..].
  apply disconnect_state_ok in Hd as [Hok1 Hb]; [|done].
  apply IH in H; [done | done | apply Forall_app; split; [done | by constructor]].
Qed.

Lemma connect_new_ok now branch st n st' n' r :
  state_ok st -> Forall wire_block branch ->
  connect_new env p std_header_activation now window branch st n = (st', n', r) ->
  r <> Panic -> state_ok st'.
Proof.
  revert st n. induction branch as [|b branch IH]; intros st n Hok Hb H Hr; cbn in H; [by simplify_eq|].
  apply Forall_cons in Hb as [Hb Hbs].
  destruct (connect now st b) as [st1 [[]|e|]] eqn:Hc.
  - eapply IH; [|done|exact H|done]. by eapply connect_state_ok.
  - simplify_eq. by eapply connect_state_ok.
  - by simplify_eq.
Qed.

Lemma disconnect_n_ok n st : state_ok st -> state_ok (disconnect_n std_header_activation n st).
Proof.
  revert st. induction n as [|n IH]; intros st Hok; [done|]. cbn.
  destruct (disconnect st) as [[b st1]| |] eqn:Hd; [|by apply IH..].
  apply IH. by apply (disconnect_state_ok _ _ _ Hok) in Hd as [? _].
Qed.

Lemma reconnect_ok now old st st' r :
  state_ok st -> Forall wire_block old ->
  reconnect env p std_header_activation now window old st = (st', r) -> r <> Panic -> state_ok st'.
Proof.
  revert st. induction old as [|b old IH]; intros st Hok Hb H Hr; cbn in H; [by simplify_eq|].
  apply Forall_cons in Hb as [Hb Hbs].
  destruct (connect now st b) as [st1 [[]|e|]] eqn:Hc; [| |by simplify_eq];
    (eapply IH; [by eapply connect_state_ok | done | exact H | done]).
Qed.

Lemma switch_branch_ok now st a branch st' aside r :
  state_ok st -> Forall wire_block branch ->
  switch_branch env p std_header_activation now window st a branch = (st', aside, r) ->
  r <> Panic -> state_ok st'.
Proof.
  intros Hok Hb H Hr. unfold switch_branch in H.
  destruct (disconnect_to _ _ _ _ _) as [st1 rd] eqn:Hd.
  apply disconnect_to_ok in Hd as [Hok1 Hd]; [|done|constructor].
  destruct rd as [d| |]; [|by simplify_eq..].
  specialize (Hd d eq_refl).
  destruct (connect_new _ _ _ _ _ _ _ _) as [[st2 n] [[]|e|]] eqn:Hc; [| |by simplify_eq].
  - apply connect_new_ok in Hc; [|done|done|done]. by simplify_eq.
  - apply connect_new_ok in Hc; [|done|done|done].
    destruct (reconnect _ _ _ _ _ _ _) as [st3 [[]|e'|]] eqn:Hrc; [| |by simplify_eq];
      (apply reconnect_ok in Hrc; [by simplify_eq | by apply disconnect_n_ok | by apply Forall_rev | done]).
Qed.

Lemma reorg_to_tip_ok now st tip st' aside r :
  state_ok st -> reorg_to_tip env p std_header_activation now window st tip = Some (st', aside, r) ->
  r <> Panic -> state_ok st'.
Proof.
  intros Hok H Hr. unfold reorg_to_tip, find_reorg_path in H.
  destruct (reorg_walk _ _ _ _ _) as [[[a bs]| |]|] eqn:Hw; [|by simplify_eq..].
  apply reorg_walk_wire in Hw; [|done|constructor]. destruct (_ <=? a); [by simplify_eq|].
  destruct (reorg_allowed _ _ _); [|by simplify_eq..].
  eapply switch_branch_ok; [done | exact Hw | by simplify_eq | done].
Qed.

(** *** The entry point *)
Lemma store_block_same (st : ChainState R) hash b h w : same_but_store st (store_block st hash b h w).
Proof. done. Qed.

Lemma forget_block_same (st : ChainState R) hash : same_but_store st (forget_block st hash).
Proof. done. Qed.

Lemma forget_state_ok st hash : state_ok st -> state_ok (forget_block st hash).
Proof.
  intros Hok. eapply store_state_ok; [done | apply forget_block_same |]. cbn.
  apply map_Forall_delete. apply Hok.
Qed.

Lemma adopt_block_ok now st b hash h w st' aside r :
  state_ok st -> wire_block b ->
  adopt_block env p std_header_activation now window block_proposer_rank st b hash h w
    = Some (st', aside, r) -> r <> Panic -> state_ok st'.
Proof.
  intros Hok Hb H Hr. unfold adopt_block in H. destruct (beqb _ _).
  - destruct (connect now st b) as [st1 [[]|e|]] eqn:Hc; simplify_eq; try done.
    + by eapply connect_state_ok.
    + apply forget_state_ok. by eapply connect_state_ok.
  - destruct (fork_choice _ _ _ _ _ _ _) as [[[]|e|]|]; simplify_eq; try done.
    + destruct (reorg_to_tip _ _ _ _ _ _ _) as [[[st1 aside1] [[]|e|]]|] eqn:Hre; simplify_eq; try done.
      * by eapply reorg_to_tip_ok.
      * apply forget_state_ok. by eapply reorg_to_tip_ok.
    + by apply forget_state_ok.
Qed.

Lemma accept_block_ok now an st b st' aside r :
  state_ok st -> wire_block b ->
  accept_block env p std_header_activation now window block_proposer_rank hex_encode an st b
    = Some (st', aside, r) -> r <> Panic -> state_ok st'.
Proof.
  intros Hok Hb H Hr. unfold accept_block in H. cbv zeta in H.
  case_bool_decide; [by simplify_eq|]. destruct (check_own_pow _ _ _ _); [|by simplify_eq..].
  destruct (match an with Some _ => _ | None => _ end); [by simplify_eq|].
  destruct (adopt_block _ _ _ _ _ _ _ _ _ _ _) as [[[st1 aside1] r1]|] eqn:Ha; [|done].
  assert (r1 <> Panic -> state_ok st1) as Hok1.
  { eapply adopt_block_ok; [|done|exact Ha].
    eapply store_state_ok; [done | apply store_block_same |]. cbn.
    apply map_Forall_insert_2; [done | apply Hok]. }
  destruct r1; simplify_eq; by apply Hok1.
Qed.

Lemma prune_orphans_wire rounds pool :
  map_Forall (fun _ bs => Forall wire_block bs) pool ->
  map_Forall (fun _ bs => Forall wire_block bs) (prune_orphans first_key rounds pool).
Proof.
  revert pool. induction rounds as [|n IH]; intros pool H; cbn; destruct (_ <=? _); try done.
  destruct (first_key pool); [|done]. by apply IH, map_Forall_delete.
Qed.

Lemma orphan_pool_size_delete (pool : gmap bytes (list (Block R))) key :
  orphan_pool_size (delete key pool) <= orphan_pool_size pool.
Proof.
  destruct (pool !! key) as [bs|] eqn:Hk; [|by rewrite delete_id].
  rewrite <- (insert_delete_id pool key bs Hk) at 2. unfold orphan_pool_size.
  rewrite map_to_list_insert by apply lookup_delete_eq. unfold zsum, len. cbn [fmap list_fmap foldr snd]. lia.
Qed.

Lemma prune_orphans_size rounds : forall pool,
  (size pool <= rounds)%nat -> orphan_pool_size (prune_orphans first_key rounds pool) <= MAX_ORPHAN_BLOCKS.
Proof.
  induction rounds as [|n IH]; intros pool Hs; cbn; destruct (_ <=? _) eqn:Hle; try lia.
  - assert (pool = ∅) as -> by (apply map_size_empty_inv; lia). done.
  - destruct (decide (pool = ∅)) as [->|Hne]; [done|]. destruct (Hkey pool Hne) as (k & -> & v & Hk).
    apply IH. rewrite (map_size_delete_Some k pool) by done. lia.
Qed.

Lemma prune_orphan_pool_size pool : orphan_pool_size (prune_orphan_pool first_key pool) <= MAX_ORPHAN_BLOCKS.
Proof. by apply prune_orphans_size. Qed.

Lemma add_orphan_ok n key b : node_ok n -> wire_block b -> node_ok (add_orphan first_key n key b).
Proof.
  intros [Hs Hp _] Hb. split; [done| |by apply prune_orphan_pool_size]. cbn.
  apply prune_orphans_wire, map_Forall_insert_2; [|done].
  apply Forall_app. split; [|by constructor].
  destruct (orphan_pool n !! key) eqn:Hk; [by eapply Hp | constructor].
Qed.

Abbreviation process now := (process_block env p std_header_activation now window block_proposer_rank
  first_key hex_encode).

(** A function that keeps nodes intact, whatever it returns but a panic. *)
Definition keeps (f : Node R -> Block R -> option (Node R * res NodeError (Z * bytes))) : Prop :=
  forall n b n' r, node_ok n -> wire_block b -> f n b = Some (n', r) -> r <> Panic -> node_ok n'.

Lemma process_children_ok f children n h n' h' flag :
  keeps f -> node_ok n -> Forall wire_block children ->
  process_children f children n h = Some (n', h', flag) -> flag = true -> node_ok n'.
Proof.
  intros Hf. revert n h. induction children as [|c cs IH]; intros n h Hn Hc H Ht; cbn in H; [by simplify_eq|].
  apply Forall_cons in Hc as [Hc Hcs].
  destruct (f n c) as [[n1 [[x c_hash]|e|]]|] eqn:Hfc; [| |by simplify_eq|done];
    (eapply IH; [by eapply Hf | done | exact H | done]).
Qed.

Lemma drain_orphans_ok f rounds n h n' flag :
  keeps f -> node_ok n -> drain_orphans f rounds n h = Some (n', flag) -> flag = true -> node_ok n'.
Proof.
  intros Hf. revert n h. induction rounds as [|k IH]; intros n h Hn H Ht; cbn in H;
    (destruct (orphan_pool n !! h) as [children|] eqn:Hk; [|by simplify_eq]); [done|].
  destruct (process_children _ _ _ _) as [[[n1 h1] [|]]|] eqn:Hc; [|by simplify_eq|done].
  eapply IH; [|exact H|done]. eapply process_children_ok; [done | | |exact Hc|done].
  - split; [apply Hn|..]; cbn; [apply map_Forall_delete, Hn|].
    etrans; [apply orphan_pool_size_delete | apply Hn].
  - by eapply (no_pool _ Hn).
Qed.

Lemma finish_ok n moved hash n' r :
  node_ok n -> finish std_header_activation window n moved hash = (n', r) -> node_ok n'.
Proof.
  intros [Hs Hp Hz] H. unfold finish in H.
  enough (node_ok {| cs := prune_caches std_header_activation window (cs n); orphan_pool := orphan_pool n;
    node_anchors := node_anchors n; reorg_orphaned_blocks := reorg_orphaned_blocks n |}) as Hok.
  { destruct (_ && _); by simplify_eq. }
  split; [|done|done]. eapply store_state_ok; [done | done |]. by apply prune_wire, Hs.
Qed.

Lemma process_block_ok now fuel : keeps (process now fuel).
Proof.
  induction fuel as [|fuel IH]; intros n b n' r Hn Hb H Hr; cbn [process_block] in H; cbv zeta in H;
    (destruct (negb _ && negb _); [simplify_eq; by apply add_orphan_ok|]);
    (destruct (accept_block _ _ _ _ _ _ _ _ _ _) as [[[st aside] ra]|] eqn:Ha; [|done]);
    (assert (ra <> Panic -> node_ok (set_cs n st aside)) as Hok
      by (intros Hra; split; [by eapply accept_block_ok; [apply Hn| | |] | apply Hn | apply Hn]));
    (destruct ra as [[moved hash]|e|]; [|by simplify_eq; apply Hok|by simplify_eq]);
    (specialize (Hok ltac:(done))).
  - destruct (orphan_pool (set_cs n st aside) !! _); [done|].
    injection H as H. by eapply finish_ok.
  - destruct (drain_orphans _ _ _ _) as [[n1 [|]]|] eqn:Hd; [|by simplify_eq|done].
    injection H as H. eapply finish_ok; [|exact H]. by eapply drain_orphans_ok.
Qed.

(** The states of a node: from the genesis block, under any sequence of
    submitted blocks, each at its own time. *)
Inductive node_reachable : Node R -> Prop :=
| node_start now genesis ps st an :
    wire_block genesis -> new_chain env p std_header_activation now genesis ps = Ok st ->
    node_reachable {| cs := st; orphan_pool := ∅; node_anchors := an; reorg_orphaned_blocks := [] |}
| node_process now fuel n b n' r :
    node_reachable n -> wire_block b -> process now fuel n b = Some (n', r) -> r <> Panic ->
    node_reachable n'.

Lemma node_reachable_ok n : node_reachable n -> node_ok n.
Proof.
  induction 1 as [now g ps st an Hw Hn | now fuel n b n' r _ IH Hw Hp Hr].
  - split; [split|..]; cbn.
    + by eapply reach_genesis.
    + unfold new_chain in Hn. destruct (validate_block_header _ _ _ _ _ _ _ _); bind_simpl_in Hn; [|done..].
      destruct (validate_and_apply_transactions _ _ _ _ _ _ _ _ _) as [l [[[[f t] s] u]| |]]; [|done..].
      apply Ok_inj in Hn. subst. cbn. by apply map_Forall_singleton.
    + unfold new_chain in Hn. destruct (validate_block_header _ _ _ _ _ _ _ _); bind_simpl_in Hn; [|done..].
      destruct (validate_and_apply_transactions _ _ _ _ _ _ _ _ _) as [l [[[[f t] s] u]| |]]; [|done..].
      apply Ok_inj in Hn. subst. cbn. by constructor.
    + by apply map_Forall_empty.
    + done.
  - by eapply process_block_ok.
Qed.
End safety.

(** ** Samples: the node that starts with the demo chain *)

(** No block is ranked, no pool is full, no block is anchored. *)
Definition no_rank (b : Block Empty_set) : Z * Z := (0, 0).
Definition least_key (pool : gmap bytes (list (Block Empty_set))) : option bytes := head (map_to_list pool).*1.
Definition no_hex (hash : bytes) : string := "".

Lemma least_key_ok pool : pool <> ∅ -> exists k, least_key pool = Some k /\ is_Some (pool !! k).
Proof.
  intros H. unfold least_key. destruct (map_to_list pool) as [|[k bs] l] eqn:Hl.
  - by apply map_to_list_empty_iff in Hl.
  - exists k. split; [done|]. exists bs. apply elem_of_map_to_list. rewrite Hl. by left.
Qed.

Definition demo_node : Node Empty_set :=
  {| cs := demo_start; orphan_pool := ∅; node_anchors := None; reorg_orphaned_blocks := [] |}.

Abbreviation demo_process := (process_block no_env demo_params 0 1000 0 no_rank least_key no_hex 1).

Definition node_after (r : option (Node Empty_set * res NodeError (Z * bytes))) : Node Empty_set :=
  match r with Some (n, _) => n | None => demo_node end.
Definition result_of (r : option (Node Empty_set * res NodeError (Z * bytes))) : res NodeError (Z * bytes) :=
  match r with Some (_, r) => r | None => Panic end.

Lemma result_ok r : is_ok (result_of r) = true -> r = Some (node_after r, result_of r) /\ result_of r <> Panic.
Proof. by destruct r as [[n [x| |]]|]. Qed.

Lemma demo_process_flag : is_ok (result_of (demo_process demo_node demo_block)) = true.
Proof. vm_compute. reflexivity. Qed.

Lemma demo_node_reachable :
  node_reachable no_env demo_params 0 0 no_rank least_key no_hex (node_after (demo_process demo_node demo_block)).
Proof.
  destruct (result_ok _ demo_process_flag) as [He Hp].
  refine (node_process no_env demo_params 0 0 no_rank least_key no_hex 1000 1 demo_node demo_block _ _ _ (proj1 demo_fresh) He Hp).
  exact (node_start no_env demo_params 0 0 no_rank least_key no_hex 1000 demo_genesis tt demo_start None
    demo_genesis_wire demo_start_ok).
Qed.

(** C1: Whatever blocks a node is sent, in any order, orphans, forks and
    refused blocks among them, its chain keeps its invariants: the unspent coins
    are at most what was issued, and that at most [MAX_MONEY]; the height is the
    length, every block names the hash of the block below it, the total work is
    that of the blocks; and the orphan pool holds at most [MAX_ORPHAN_BLOCKS]. *)
Theorem node_chain_invariant `{C : Crypto} `{P : Poawx R} env p act window rank first_key hex (n : Node R) :
  (forall pool, pool <> ∅ -> exists k, first_key pool = Some k /\ is_Some (pool !! k)) ->
  fork_wf env -> node_reachable env p act window rank first_key hex n ->
  0 <= issued (cs n) <= MAX_MONEY /\ supply (utxos (ledger (cs n))) <= issued (cs n) /\
  height (cs n) = len (chain (cs n)) /\ total_work (cs n) = zsum (block_work <$> chain (cs n)) /\
  (forall i b b', chain (cs n) !! i = Some b -> chain (cs n) !! S i = Some b' ->
    prev_hash (bheader b') = hash_for_height act (bheader b) (Z.of_nat i)) /\
  orphan_pool_size (orphan_pool n) <= MAX_ORPHAN_BLOCKS.
Proof.
  intros Hk Hf Hn. apply node_reachable_ok in Hn as [[Hr _ _] _ Hsz]; [|done].
  destruct (reachable_ok _ _ _ _ _ Hf Hr) as [Hb Hl Hh Hw].
  destruct (backed_funds _ _ _ _ _ Hb) as [_ Hs Hi].
  exact (conj Hi (conj Hs (conj Hh (conj Hw (conj (linked_rev _ _ Hl) Hsz))))).
Qed.

Lemma node_chain_invariant_witness :
  let n := node_after (demo_process demo_node demo_block) in
  0 <= issued (cs n) <= MAX_MONEY /\ supply (utxos (ledger (cs n))) <= issued (cs n) /\
  height (cs n) = len (chain (cs n)) /\ total_work (cs n) = zsum (block_work <$> chain (cs n)) /\
  (forall i b b', chain (cs n) !! i = Some b -> chain (cs n) !! S i = Some b' ->
    prev_hash (bheader b') = hash_for_height 0 (bheader b) (Z.of_nat i)) /\
  orphan_pool_size (orphan_pool n) <= MAX_ORPHAN_BLOCKS.
Proof.
  exact (node_chain_invariant no_env demo_params 0 0 no_rank least_key no_hex _ least_key_ok demo_fork_wf
    demo_node_reachable).
Defined.
