(* ===== verification/ReorgAtomic.v ===== *)
(** * ReorgAtomic: what a reorganisation does, and that a failed one is undone

    [switch_branch] cuts the chain back to the fork and connects the new
    branch.  Shown here: the chain it leaves when it succeeds; that the path
    search ends when the heights on file fall towards the genesis block; and
    that a reorganisation that fails, because a block of the new branch is
    refused, puts the old chain back: the same blocks, coins, claims, relays,
    supply, work and undo logs, and a PoAW-X state that cannot be told from
    the old one.

    PoAW-X enters through the class [PoawxLaws]: a relation between its states
    that its checks respect at the heights the reorganisation touches, and that
    reverting a block that was checked undoes applying it.  [poawx_off_laws] is
    the instance of the extension that is switched off; that of the running one
    is in [PoawxReorg], where the theorem is stated for it. *)

From S2P Require Import Prelude Crypto Pow Script TxCodec Activation Constants Merkle.
From S2P Require Import Header AuxPow Difficulty Spv Spend Ledger Chain Anchors Reorg.
From S2P Require Import Proposer.

(** ** What the chain relies on from PoAW-X *)
Class PoawxLaws {R : Type} (P : Poawx R) := {
  (** states that no check tells apart; those related to themselves are well formed *)
  pequiv : relation PState;
  (** heights at which that holds *)
  pscope : Z -> Prop;
  (** the block repeats nothing that the state holds of its height *)
  pfresh : PState -> Block R -> Z -> Prop;
  pequiv_per :: RelationClasses.PER pequiv;
  poawx_validate_proper s s' c b h : pscope h -> pequiv s s' -> poawx_validate s c b h = poawx_validate s' c b h;
  poawx_apply_proper s s' c h : pscope h -> pequiv s s' -> pequiv (poawx_apply s c h) (poawx_apply s' c h);
  poawx_revert_proper s s' c b h :
    pscope h -> pequiv s s' -> pequiv (poawx_revert s c b h) (poawx_revert s' c b h);
  poawx_revert_apply s c b h :
    pscope h -> pequiv s s -> poawx_validate s c b h = Ok tt -> pfresh s b h ->
    pequiv (poawx_revert (poawx_apply s (c ++ [b]) h) c b h) s
}.

#[export] Instance poawx_off_laws : PoawxLaws poawx_off.
Proof.
  refine {| pequiv := eq; pscope _ := True; pfresh _ _ _ := True |};
    first [apply _ | by intros; subst | by intros []].
Defined.

(** ** The effect on the chain *)
Section spec.
Context `{C : Crypto} `{P : Poawx R} (env : Env) (p : ChainParams).
Context (std_header_activation now window : Z).
Abbreviation hash_at := (hash_for_height std_header_activation).
Abbreviation connect := (connect_block env p std_header_activation now window).
Abbreviation disconnect := (disconnect_tip_block std_header_activation).

Lemma disconnect_chain (st : ChainState R) b st' :
  disconnect st = Ok (b, st') -> chain st = chain st' ++ [b] /\ height st' = len (chain st') /\
  chain st' <> [] /\ finalized_height st' <= finalized_height st.
Proof.
  intros H. unfold disconnect_tip_block in H. destruct (last (chain st)) as [tip|] eqn:Hl; [|done].
  destruct (_ <=? 1)%nat eqn:Hlen; [done|]. apply Nat.leb_gt in Hlen.
  destruct (undo_logs st !! _); [|done]. apply Ok_inj, pair_eq in H as [<- <-].
  apply last_Some in Hl as [bs Hl]. cbn [chain height finalized_height]. rewrite Hl in Hlen |- *.
  rewrite length_app in *. cbn [length] in *. replace (length bs + 1 - 1)%nat with (length bs) by lia.
  rewrite take_app_length. split_and!; [done | done | | lia]. intros ->. cbn in Hlen. lia.
Qed.

(** Cutting back: the blocks above the ancestor, from the tip downwards. *)
Lemma disconnect_to_chain rounds a : forall (st : ChainState R) acc st' d,
  height st = len (chain st) -> 0 <= a ->
  disconnect_to std_header_activation rounds a st acc = (st', Ok d) ->
  exists bs, chain st = chain st' ++ bs /\ d = acc ++ rev bs /\ height st' = len (chain st') /\
    tip_height st' <= a /\ (a < tip_height st -> len (chain st') = a + 1) /\
    (tip_height st <= a -> bs = []).
Proof.
  induction rounds as [|n IH]; intros st acc st' d Hh Ha H; cbn in H;
    (destruct (tip_height st <=? a) eqn:Hle;
     [apply pair_eq in H as [<- [= <-]]; exists []; rewrite !app_nil_r; split_and!; (done || lia)|]); [done|].
  destruct (disconnect st) as [[b st1]| |] eqn:Hd; [|done..].
  apply disconnect_chain in Hd as (Hc & Hh1 & Hne & _).
  apply IH in H as (bs & Hc1 & -> & Hh2 & Ht & Hlt & Hge); [|done|done].
  exists (bs ++ [b]). rewrite Hc, Hc1, rev_unit, <- !app_assoc. split_and!; [done | done | done | done | | intros; lia].
  intros _. destruct (decide (a < tip_height st1)) as [Hx|Hx]; [by apply Hlt|].
  rewrite (Hge ltac:(lia)), app_nil_r in Hc1. rewrite <- Hc1.
  unfold tip_height, sat_sub in *. rewrite Hh, Hc, len_app in Hle. change (len [b]) with 1 in Hle.
  rewrite Hh1 in Hx. pose proof (len_nonneg (chain st1)). destruct (decide (len (chain st1) = 0)); lia.
Qed.

(** The rounds are enough: every one of them shortens the chain. *)
Lemma disconnect_to_total rounds a : forall (st : ChainState R) acc,
  (length (chain st) <= rounds)%nat -> height st = len (chain st) -> 0 <= a ->
  (disconnect_to std_header_activation rounds a st acc).2 <> Panic.
Proof.
  induction rounds as [|n IH]; intros st acc Hr Hh Ha; cbn;
    (destruct (tip_height st <=? a) eqn:Hle; [done|]).
  - unfold tip_height, sat_sub in Hle. rewrite Hh in Hle. unfold len in Hle. lia.
  - destruct (disconnect st) as [[b st1]|e|] eqn:Hd; [|done|].
    + apply disconnect_chain in Hd as (Hc & Hh1 & _). apply IH; [|done|done].
      rewrite Hc, length_app in Hr. cbn in Hr. lia.
    + unfold disconnect_tip_block in Hd. destruct (last _); [|done]. destruct (_ <=? 1)%nat; [done|].
      by destruct (undo_logs st !! _).
Qed.

Lemma connect_new_chain branch : forall (st : ChainState R) n st' n',
  connect_new env p std_header_activation now window branch st n = (st', n', Ok tt) ->
  chain st' = chain st ++ branch /\ n' = (n + length branch)%nat.
Proof.
  induction branch as [|b branch IH]; intros st n st' n' H; cbn in H.
  { simplify_eq. rewrite app_nil_r. split; [done | cbn; lia]. }
  destruct (connect st b) as [st1 [[]|e|]] eqn:Hc; [|done..].
  apply connect_ok in Hc as (l & f & t & s & u & m & _ & _ & _ & ->).
  apply IH in H as [-> ->]. cbn [push_block chain]. rewrite <- app_assoc. split; [done | cbn; lia].
Qed.

(** *** The path search *)

(** [branch] leads from the block [a] of the main chain, over stored blocks,
    to the hash [tip]. *)
Fixpoint leads_to (st : ChainState R) (from : bytes) (branch : list (Block R)) (tip : bytes) : Prop :=
  match branch with
  | [] => from = tip
  | b :: branch =>
      prev_hash (bheader b) = from /\
      exists h, block_by_hash st h = Some b /\ leads_to st h branch tip
  end.

Lemma reorg_walk_sound fuel (st : ChainState R) : forall cur branch tip a bs,
  reorg_walk std_header_activation fuel st cur branch = Some (Ok (a, bs)) ->
  leads_to st cur branch tip ->
  exists from, is_hash_on_main_chain std_header_activation st from = Some a /\ leads_to st from bs tip.
Proof.
  induction fuel as [|fuel IH]; intros cur branch tip a bs H Hl; cbn in H;
    (destruct (is_hash_on_main_chain _ _ cur) as [h|] eqn:Hm; [simplify_eq; by exists cur|]);
    destruct (block_by_hash st cur) as [b|] eqn:Hb; [|done| |done];
    (destruct (beqb _ _); [done|]); [done|].
  eapply IH; [exact H|]. split; [done|]. by exists cur.
Qed.

(** Heights fall along the parents of the blocks that are off the main chain. *)
Definition heights_fall (st : ChainState R) : Prop :=
  forall hash b, is_hash_on_main_chain std_header_activation st hash = None ->
    block_by_hash st hash = Some b -> prev_hash (bheader b) <> zeros 32 ->
    exists k k', heights st !! hash = Some k /\ heights st !! prev_hash (bheader b) = Some k' /\ 0 <= k' < k.

Lemma reorg_walk_total fuel (st : ChainState R) : forall cur branch k,
  heights_fall st -> heights st !! cur = Some k -> k <= Z.of_nat fuel ->
  reorg_walk std_header_activation fuel st cur branch <> None.
Proof.
  induction fuel as [|fuel IH]; intros cur branch k Hf Hk Hle; cbn;
    (destruct (is_hash_on_main_chain _ _ cur) as [h|] eqn:Hm; [done|]);
    destruct (block_by_hash st cur) as [b|] eqn:Hb; [|done| |done];
    (destruct (beqb _ _) eqn:Hz; [done|]);
    (destruct (Hf cur b Hm Hb) as (k1 & k' & Hk1 & Hk' & Hlt);
     [intros E; rewrite E in Hz; vm_compute in Hz; done|]);
    assert (k1 = k) as -> by congruence; [lia|].
  eapply IH; [done | exact Hk' | lia].
Qed.

Lemma switch_branch_chain (st : ChainState R) a branch st' aside :
  height st = len (chain st) -> 0 <= a < tip_height st ->
  switch_branch env p std_header_activation now window st a branch = (st', aside, Ok tt) ->
  chain st' = take (Z.to_nat a + 1) (chain st) ++ branch /\
  aside = List.filter has_receipts (rev (drop (Z.to_nat a + 1) (chain st))).
Proof.
  intros Hh Ha H. unfold switch_branch in H.
  destruct (disconnect_to _ _ _ _ _) as [st1 [d| |]] eqn:Hd; [|done..].
  apply disconnect_to_chain in Hd as (bs & Hc & -> & _ & _ & Hlen & _); [|done|lia].
  specialize (Hlen ltac:(lia)).
  destruct (connect_new _ _ _ _ _ _ _ _) as [[st2 n] [[]|e|]] eqn:Hcn; [|by repeat case_match|done].
  apply pair_eq in H as [H _]. apply pair_eq in H as [<- <-].
  apply connect_new_chain in Hcn as [-> _]. rewrite Hc.
  assert (length (chain st1) = (Z.to_nat a + 1)%nat) as El by (unfold len in Hlen; lia).
  by rewrite <- El, take_app_length, drop_app_length.
Qed.
End spec.

(** ** Undoing a failed reorganisation *)

(** States with the same chain, coins and logs, whose PoAW-X parts cannot be
    told apart.  What is filed about stored blocks plays no part in connecting
    and disconnecting. *)
Record core_eq {R} `{P : Poawx R} {PL : PoawxLaws P} (st st' : ChainState R) : Prop := {
  ce_ledger : ledger st' = ledger st;
  ce_height : height st' = height st;
  ce_chain : chain st' = chain st;
  ce_work : total_work st' = total_work st;
  ce_issued : issued st' = issued st;
  ce_logs : undo_logs st' = undo_logs st;
  ce_poawx : pequiv (poawx_state st) (poawx_state st')
}.

#[export] Instance core_eq_per {R} `{P : Poawx R} {PL : PoawxLaws P} : RelationClasses.PER (core_eq (R := R)).
Proof.
  split.
  - intros st st' [? ? ? ? ? ? ?]. by split.
  - intros st1 st2 st3 [? ? ? ? ? ? Hp] [? ? ? ? ? ? Hp']. split; try congruence.
    by etransitivity.
Qed.

Section atomic.
Context `{C : Crypto} `{P : Poawx R} {PL : PoawxLaws P} (env : Env) (p : ChainParams).
Context (std_header_activation window : Z).
Abbreviation hash_at := (hash_for_height std_header_activation).
Abbreviation connect now := (connect_block env p std_header_activation now window).
Abbreviation disconnect := (disconnect_tip_block std_header_activation).

(** *** Connecting and disconnecting respect the equivalence *)
Lemma set_ledger_core (st st' : ChainState R) l : core_eq st st' -> core_eq (set_ledger st l) (set_ledger st' l).
Proof. intros []. by split. Qed.

Lemma push_block_core (st st' : ChainState R) b l undo s : pscope (height st) -> core_eq st st' ->
  core_eq (push_block std_header_activation window st b l undo s)
          (push_block std_header_activation window st' b l undo s).
Proof.
  intros Hsc [Hl Hh Hc Hw Hi Hu Hp].
  split; cbn [push_block ledger height chain total_work issued undo_logs poawx_state];
    rewrite ?Hl, ?Hh, ?Hc, ?Hw, ?Hi, ?Hu; try done.
  by apply poawx_apply_proper.
Qed.

Lemma connect_core now (st st' : ChainState R) b t r : pscope (height st) ->
  core_eq st st' -> connect now st b = (t, r) -> exists t', connect now st' b = (t', r) /\ core_eq t t'.
Proof.
  intros Hsc Heq H. pose proof Heq as [Hl Hh Hc _ Hi _ Hp]. unfold connect_block in *. cbv zeta in *.
  rewrite Hl, Hh, Hc, Hi, <- (poawx_validate_proper _ _ (chain st) b (height st) Hsc Hp).
  destruct (_ ≫= _) as [[]| |]; [|by apply pair_eq in H as [<- <-]; exists st'..].
  destruct (validate_and_apply_transactions _ _ _ _ _ _ _ _ _) as [l [[[[f t0] s] u]| |]].
  - destruct (checked_add64 _ _); apply pair_eq in H as [<- <-]; (eexists; split; [done|]);
      [by apply push_block_core | by apply set_ledger_core].
  - apply pair_eq in H as [<- <-]. eexists. split; [done | by apply set_ledger_core].
  - apply pair_eq in H as [<- <-]. eexists. split; [done | by apply set_ledger_core].
Qed.

Lemma disconnect_core (st st' : ChainState R) b t : pscope (tip_height st) ->
  core_eq st st' -> disconnect st = Ok (b, t) -> exists t', disconnect st' = Ok (b, t') /\ core_eq t t'.
Proof.
  intros Hsc [Hl Hh Hc Hw Hi Hu Hp] H. unfold disconnect_tip_block, tip_height in *.
  rewrite Hc, Hh, Hu, Hl, Hw, Hi. destruct (last (chain st)) as [tip|]; [|done].
  destruct (_ <=? 1)%nat; [done|]. destruct (undo_logs st !! _) as [u|]; [|done].
  apply Ok_inj, pair_eq in H as [<- <-]. eexists. split; [done|].
  split; try done. by apply poawx_revert_proper.
Qed.

(** A connected block passed the checks of PoAW-X. *)
Lemma connect_validated now (st : ChainState R) b t : connect now st b = (t, Ok tt) ->
  poawx_validate (poawx_state st) (chain st) b (height st) = Ok tt.
Proof.
  intros H. unfold connect_block in H. cbv zeta in H.
  destruct (validate_block_header _ _ _ _ _ _ _ _) as [[]| |]; bind_simpl_in H; [|done..].
  by destruct (poawx_validate _ _ _ _) as [[]| |].
Qed.

(** Cutting a fresh block off leads back. *)
Lemma cut_back_core now (st t : ChainState R) b : pscope (height st) -> pequiv (poawx_state st) (poawx_state st) ->
  connect now st b = (t, Ok tt) -> pfresh (poawx_state st) b (height st) ->
  core_eq (cut_back std_header_activation st t b) st.
Proof.
  intros Hsc Hp Hc Hf. pose proof (connect_validated _ _ _ _ Hc) as Hv.
  apply connect_ok in Hc as (l & f & t0 & s & u & n & _ & _ & _ & ->).
  split; try done. cbn [cut_back push_block poawx_state]. by apply poawx_revert_apply.
Qed.

(** A block that could be connected can be connected later. *)
Lemma connect_later now now' (st : ChainState R) b t :
  now <= now' -> connect now st b = (t, Ok tt) -> connect now' st b = (t, Ok tt).
Proof.
  intros Hn H. unfold connect_block in *. cbv zeta in *.
  destruct (validate_block_header env p std_header_activation now _ _ _ _) as [[]| |] eqn:Hv;
    bind_simpl_in H; [|done..].
  assert (validate_block_header env p std_header_activation now' (chain st) b (height st) (last (chain st))
    = Ok tt) as ->; [|by bind_simpl].
  unfold validate_block_header in *. destruct (check_parent _ _ _ _) as [[]| |]; [|done..].
  bind_simpl_in Hv. bind_simpl.
  assert (forall r, check_time now (bheader b) (height st) (last (chain st)) (chain st) = Ok r ->
    check_time now' (bheader b) (height st) (last (chain st)) (chain st) = Ok r) as Ht.
  { intros r. unfold check_time. destruct (now + _ <? _) eqn:E; [done|].
    destruct (now' + _ <? _) eqn:E'; [lia | done]. }
  destruct (check_time now _ _ _ _) as [[]| |] eqn:Hc; [|done..]. by rewrite (Ht tt eq_refl).
Qed.

(** *** Chains built block by block from the height [a], every block before the time [now]

    Up to the equivalence: what matters is that every block was connected to
    a state like the one cutting it off leads back to. *)
Inductive built (now a : Z) : ChainState R -> Prop :=
| built_base st :
    reachable env p std_header_activation window st -> relays_ok p (ledger st) -> tip_height st = a ->
    pequiv (poawx_state st) (poawx_state st) -> built now a st
| built_connect now0 st b st' :
    now0 <= now -> built now a st -> connect now0 st b = (st', Ok tt) ->
    fresh_block std_header_activation st st' b ->
    pscope (height st) -> pfresh (poawx_state st) b (height st) -> built now a st'
| built_eq st st' : built now a st -> core_eq st st' -> built now a st'.

Context (Hwf : fork_wf env).

Lemma built_ok now a st : built now a st -> chain_ok std_header_activation st /\ relays_ok p (ledger st) /\ core_eq st st.
Proof.
  induction 1 as [st Hr Hre Ha Hp | now0 st b st' _ _ (IH & Hr & Heq) Hc [Hw _] Hsc _ | st st' _ (IH & Hr & _) Heq].
  - split_and!; [by eapply reachable_ok | done | by split].
  - split_and!; [by eapply connect_chain_ok | | ].
    + destruct (connect_effect _ _ _ _ _ _ _ _ Hwf IH Hc Hw) as (l & u & -> & [_ Hre _ _ _ _ _ _ _ _ _ _ _ _ _ _ _]).
      by apply Hre.
    + destruct (connect_core _ _ _ _ _ _ Hsc Heq Hc) as (t & Ht & Het). rewrite Hc in Ht. by apply pair_eq in Ht as [<- _].
  - pose proof Heq as [Hl Hh Hc Hwk Hi Hu _].
    rewrite Hl. split_and!; [|done|by etransitivity; [symmetry|]].
    destruct IH. split; by rewrite ?Hl, ?Hh, ?Hc, ?Hwk, ?Hi, ?Hu.
Qed.

Lemma built_scope now a st : built now a st -> a < tip_height st -> pscope (tip_height st).
Proof.
  induction 1 as [st _ _ Ha _ | now0 st b st' _ Hb _ Hc _ Hsc _ | st st' _ IH Heq]; intros Hlen; [lia|..].
  - destruct (built_ok _ _ _ Hb) as ([_ _ Hh _] & _). pose proof (len_nonneg (chain st)).
    apply connect_ok in Hc as (l & f & t & s & u & n & _ & _ & _ & ->).
    unfold tip_height, sat_sub. cbn [push_block height]. by replace (Z.max 0 (height st + 1 - 1)) with (height st) by lia.
  - unfold tip_height in *. rewrite (ce_height _ _ Heq) in *. by apply IH.
Qed.

(** Filing a block makes no difference. *)
Lemma built_store now a st hash b h work : built now a st -> built now a (store_block st hash b h work).
Proof. intros H. eapply built_eq; [exact H|]. destruct (built_ok _ _ _ H) as (_ & _ & [? ? ? ? ? ? ?]). by split. Qed.

(** The tip of a built chain can be cut off and put back. *)
Lemma cut_and_mend now a st :
  built now a st -> a < tip_height st ->
  exists b st0, disconnect st = Ok (b, st0) /\ built now a st0 /\
    forall st1, core_eq st0 st1 -> exists st2, connect now st1 b = (st2, Ok tt) /\ core_eq st st2.
Proof.
  induction 1 as [st _ _ Ha _ | now0 st b st' Hle Hb _ Hc Hfr Hsc Hpf | st st' Hb IH Heq]; intros Hlen; [lia|..].
  - destruct (built_ok _ _ _ Hb) as (Hok & Hre & Hself).
    pose proof (connect_disconnect _ _ _ _ _ _ _ _ Hwf Hok Hre Hc Hfr) as Hd.
    pose proof (cut_back_core _ _ _ _ Hsc (ce_poawx _ _ Hself) Hc Hpf) as Hcut.
    exists b, (cut_back std_header_activation st st' b). split_and!; [done | by eapply built_eq |].
    intros st1 Heq. eapply connect_later in Hc; [|exact Hle].
    eapply connect_core; [exact Hsc| |exact Hc]. etransitivity; [symmetry; exact Hcut | exact Heq].
  - assert (tip_height st' = tip_height st) as Ht by (unfold tip_height; by rewrite (ce_height _ _ Heq)).
    rewrite Ht in Hlen. destruct (IH Hlen) as (b & st0 & Hd & Hb0 & Hmend).
    pose proof (built_scope _ _ _ Hb Hlen) as Hsc.
    destruct (disconnect_core _ _ _ _ Hsc Heq Hd) as (st0' & Hd' & Heq0).
    exists b, st0'. split_and!; [done | by eapply built_eq |].
    intros st1 Heq1. destruct (Hmend st1) as (st2 & Hc2 & Heq2); [by etransitivity|].
    exists st2. split; [done|]. etransitivity; [symmetry; exact Heq | exact Heq2].
Qed.

(** *** Cutting back to an ancestor and putting everything back *)
Abbreviation mends now st0 d st := (forall st1, core_eq st0 st1 ->
  exists st2, reconnect env p std_header_activation now window d st1 = (st2, Ok tt) /\ core_eq st st2).

Lemma reconnect_app now d1 d2 (st st1 st2 : ChainState R) r :
  reconnect env p std_header_activation now window d1 st = (st1, Ok tt) ->
  reconnect env p std_header_activation now window d2 st1 = (st2, r) ->
  reconnect env p std_header_activation now window (d1 ++ d2) st = (st2, r).
Proof.
  revert st. induction d1 as [|b d1 IH]; intros st H1 H2; cbn in *; [by simplify_eq|].
  destruct (connect now st b) as [st' [[]|e|]]; [by apply IH | by apply IH | done].
Qed.

Lemma disconnect_to_mends now rounds a st acc st' d : built now a st ->
  disconnect_to std_header_activation rounds a st acc = (st', Ok d) ->
  built now a st' /\ exists new, d = acc ++ new /\ mends now st' (rev new) st.
Proof.
  revert st acc. induction rounds as [|n IH]; intros st acc Hb H; cbn in H;
    (destruct (tip_height st <=? a) eqn:Hle;
     [apply pair_eq in H as [<- [= <-]]; split; [done|]; exists []; rewrite app_nil_r;
      split; [done|]; intros st1 Heq; by exists st1|]); [done|].
  destruct (cut_and_mend _ _ _ Hb ltac:(lia)) as (b & st0 & Hd & Hb0 & Hm).
  rewrite Hd in H. apply IH in H as (Hb' & new & -> & Hmends); [|done]. split; [done|].
  exists (b :: new). rewrite <- app_assoc. split; [done|]. intros st1 Heq. cbn [rev].
  destruct (Hmends st1 Heq) as (st2 & Hr & Heq2). destruct (Hm st2 Heq2) as (st3 & Hc & Heq3).
  exists st3. split; [|done]. eapply reconnect_app; [exact Hr|]. cbn. by rewrite Hc.
Qed.

Lemma disconnect_to_no_error now rounds a st acc st' e : built now a st ->
  disconnect_to std_header_activation rounds a st acc <> (st', Err e).
Proof.
  revert st acc. induction rounds as [|n IH]; intros st acc Hb H; cbn in H;
    (destruct (tip_height st <=? a) eqn:Hle; [done|]); [done|].
  destruct (cut_and_mend _ _ _ Hb ltac:(lia)) as (b & st0 & Hd & Hb0 & _).
  rewrite Hd in H. by eapply IH.
Qed.

(** *** Connecting the new branch *)

(** Every block of the branch that is connected repeats nothing. *)
Fixpoint fresh_run (now : Z) (st : ChainState R) (branch : list (Block R)) : Prop :=
  match branch with
  | [] => True
  | b :: branch =>
      match connect now st b with
      | (st', Ok _) =>
          fresh_block std_header_activation st st' b /\ pscope (height st) /\
          pfresh (poawx_state st) b (height st) /\ fresh_run now st' branch
      | _ => True
      end
  end.

Lemma disconnect_n_add k n (x : ChainState R) : disconnect_n std_header_activation (k + n) x =
  disconnect_n std_header_activation n (disconnect_n std_header_activation k x).
Proof. revert x. induction k as [|k IHk]; intros x; [done|]. cbn [Nat.add disconnect_n]. destruct (disconnect x) as [[? ?]| |]; apply IHk. Qed.

(** A refused branch leaves a well-formed state. *)
Lemma connect_new_self now a branch : forall st n st' n' e,
  built now a st -> fresh_run now st branch ->
  Forall (fun b => existsb carries_batch (transactions b) = false) branch ->
  connect_new env p std_header_activation now window branch st n = (st', n', Err e) -> core_eq st' st'.
Proof.
  induction branch as [|b branch IH]; intros st n st' n' e Hb Hf Hn H; cbn in H; [done|].
  apply Forall_cons in Hn as [Hnb Hn]. cbn in Hf. destruct (built_ok _ _ _ Hb) as (Hok & Hre & Hself).
  destruct (connect now st b) as [st1 [[]|e1|]] eqn:Hc; [| |done].
  - destruct Hf as (Hfr & Hsc & Hpf & Hf). eapply IH; [by eapply (built_connect now a now)|done..].
  - apply pair_eq in H as [H _]. apply pair_eq in H as [<- <-].
    destruct (refused_effect _ _ _ _ _ _ _ _ _ Hok Hc eq_refl) as (l & -> & _ & Hl).
    rewrite (Hl Hnb). by destruct st.
Qed.

(** A branch that is refused part of the way: the blocks that were connected
    are cut off one by one, from any state like the one they led to. *)
Lemma connect_new_undone now a branch : forall st n st' n' e,
  built now a st -> fresh_run now st branch ->
  Forall (fun b => existsb carries_batch (transactions b) = false) branch ->
  connect_new env p std_header_activation now window branch st n = (st', n', Err e) ->
  (n <= n')%nat /\ forall st1, core_eq st' st1 -> core_eq st (disconnect_n std_header_activation (n' - n) st1).
Proof.
  induction branch as [|b branch IH]; intros st n st' n' e Hb Hf Hn H; cbn in H; [done|].
  apply Forall_cons in Hn as [Hnb Hn]. cbn in Hf. destruct (built_ok _ _ _ Hb) as (Hok & Hre & Hself).
  destruct (connect now st b) as [st1 [[]|e1|]] eqn:Hc; [| |done].
  - destruct Hf as (Hfr & Hsc & Hpf & Hf).
    assert (built now a st1) as Hb1 by (by eapply (built_connect now a now)).
    apply IH in H as [Hle Heq]; [|done..]. split; [lia|]. intros t Ht. specialize (Heq t Ht).
    pose proof (connect_disconnect _ _ _ _ _ _ _ _ Hwf Hok Hre Hc Hfr) as Hd.
    replace (n' - n)%nat with ((n' - S n) + 1)%nat by lia. rewrite disconnect_n_add.
    set (u := disconnect_n _ _ t) in *.
    assert (pscope (tip_height st1)) as Hsc1.
    { destruct Hok as [_ _ Hh _]. pose proof (len_nonneg (chain st)).
      apply connect_ok in Hc as (l & f & t0 & s & u0 & m & _ & _ & _ & ->).
      unfold tip_height, sat_sub. cbn [push_block height]. by replace (Z.max 0 (height st + 1 - 1)) with (height st) by lia. }
    destruct (disconnect_core _ _ _ _ Hsc1 Heq Hd) as (v & Hv & Hev). cbn. rewrite Hv.
    etransitivity; [symmetry; by eapply cut_back_core; [|apply ce_poawx, Hself|..] | done].
  - apply pair_eq in H as [H _]. apply pair_eq in H as [<- <-]. split; [lia|]. intros t Ht.
    rewrite Nat.sub_diag. cbn.
    destruct (refused_effect _ _ _ _ _ _ _ _ _ Hok Hc eq_refl) as (l & -> & _ & Hl).
    rewrite (Hl Hnb) in Ht. by destruct st.
Qed.

Lemma switch_branch_atomic now st a branch st' aside e :
  built now a st ->
  (forall st1 d, disconnect_to std_header_activation (length (chain st)) a st [] = (st1, Ok d) ->
    fresh_run now st1 branch) ->
  Forall (fun b => existsb carries_batch (transactions b) = false) branch ->
  switch_branch env p std_header_activation now window st a branch = (st', aside, Err e) ->
  core_eq st st' /\ aside = [] /\ exists cause, e = NReorg cause.
Proof.
  intros Hb Hf Hn H. unfold switch_branch in H.
  destruct (disconnect_to _ _ _ _ _) as [st1 [d|e1|]] eqn:Hd;
    [|by apply (disconnect_to_no_error now) in Hd|done].
  specialize (Hf _ _ eq_refl).
  apply (disconnect_to_mends now) in Hd as (Hb1 & new & -> & Hm); [|done]. cbn [app] in H.
  destruct (connect_new _ _ _ _ _ _ _ _) as [[st2 n] [[]|cause|]] eqn:Hc; [done| |done].
  pose proof (connect_new_self _ _ _ _ _ _ _ _ Hb1 Hf Hn Hc) as Hself.
  apply (connect_new_undone now a) in Hc as [_ Heq]; [|done..]. rewrite Nat.sub_0_r in Heq.
  destruct (Hm _ (Heq _ Hself)) as (st3 & Hr & Heq3). rewrite Hr in H.
  apply pair_eq in H as [H [= <-]]. apply pair_eq in H as [<- <-]. eauto.
Qed.

(** A reorganisation that fails has put everything back. *)
Lemma reorg_undone now st tip st' aside e :
  map_Forall (fun _ k => 0 <= k) (heights st) ->
  (forall a branch, find_reorg_path std_header_activation st tip = Some (Ok (a, branch)) ->
    built now a st /\ Forall (fun b => existsb carries_batch (transactions b) = false) branch /\
    forall st1 d, disconnect_to std_header_activation (length (chain st)) a st [] = (st1, Ok d) ->
      fresh_run now st1 branch) ->
  pequiv (poawx_state st) (poawx_state st) ->
  reorg_to_tip env p std_header_activation now window st tip = Some (st', aside, Err e) ->
  core_eq st st' /\ aside = [].
Proof.
  intros Hn Hfr Hs H. unfold reorg_to_tip in H. assert (core_eq st st) as Hself by (by split).
  destruct (find_reorg_path std_header_activation st tip) as [[[a bs]| |]|] eqn:Hp; [|by simplify_eq..].
  destruct (Hfr a bs eq_refl) as (Hb & Hnb & Hrun).
  destruct (_ <=? a); [done|]. destruct (reorg_allowed _ _ _); [|by simplify_eq..].
  injection H as H. by eapply switch_branch_atomic in H as (? & ? & _).
Qed.
End atomic.

(** ** Samples: a fork of the demo chain, whose second block takes too much *)
Definition fork_block (prev : bytes) (v t : Z) : Block Empty_set :=
  let txs := [sample_coinbase v] in
  {| bheader := demo_header prev
       (block_merkle_root {| bheader := sample_header; transactions := txs; auxpow := None;
                             poawx_receipts := @None (list Empty_set) |}) t 1;
     transactions := txs; auxpow := None; poawx_receipts := None |}.

Definition fork1 : Block Empty_set := fork_block (hash_for_height 0 (bheader demo_genesis) 0) 4000 1700.
Definition fork1_hash : bytes := Eval vm_compute in hash_for_height 0 (bheader fork1) 1.
Definition fork2 (v : Z) : Block Empty_set := fork_block fork1_hash v 2300.
Definition fork2_hash (v : Z) : bytes := hash_for_height 0 (bheader (fork2 v)) 2.

(** The demo chain with the fork on file. *)
Definition forked (v : Z) : ChainState Empty_set :=
  store_block (store_block demo_connected.1 fork1_hash fork1 1 4) (fork2_hash v) (fork2 v) 2 6.

Abbreviation fork_reorg v := (reorg_to_tip no_env demo_params 0 1000 0 (forked v) (fork2_hash v)).

Definition reorg_state (r : option (ChainState Empty_set * list (Block Empty_set) * res NodeError unit))
    : ChainState Empty_set := match r with Some (st, _, _) => st | None => no_chain end.
Definition reorg_error (r : option (ChainState Empty_set * list (Block Empty_set) * res NodeError unit))
    : option NodeError := match r with Some (_, [], Err e) => Some e | _ => None end.
Definition reorg_done (r : option (ChainState Empty_set * list (Block Empty_set) * res NodeError unit))
    : bool := match r with Some (_, [], Ok tt) => true | _ => false end.

Lemma reorg_error_eq r e : reorg_error r = Some e -> r = Some (reorg_state r, [], Err e).
Proof. destruct r as [[[st [|]] [[]|e'|]]|]; cbn; intros [= ->] || intros [=]; done. Qed.

Lemma reorg_done_eq r : reorg_done r = true -> r = Some (reorg_state r, [], Ok tt).
Proof. by destruct r as [[[st [|]] [[]|e'|]]|]. Qed.

(** *** The hypotheses of the theorems on the samples, as bool functions *)
Section checks.
Context `{C : Crypto} `{P : Poawx R} (env : Env) (p : ChainParams) (std_header_activation window now : Z).

Definition heights_fallb (st : ChainState R) : bool :=
  forallb (fun hash =>
      match is_hash_on_main_chain std_header_activation st hash, block_by_hash st hash with
      | None, Some b =>
          beqb (prev_hash (bheader b)) (zeros 32) ||
          match heights st !! hash, heights st !! prev_hash (bheader b) with
          | Some k, Some k' => (0 <=? k') && (k' <? k)
          | _, _ => false
          end
      | _, _ => true
      end)
    ((map_to_list (block_store st)).*1 ++ (map_to_list (heights st)).*1).

Lemma block_by_hash_key (st : ChainState R) hash b :
  block_by_hash st hash = Some b -> hash ∈ (map_to_list (block_store st)).*1 ++ (map_to_list (heights st)).*1.
Proof.
  unfold block_by_hash. intros H. apply elem_of_app.
  destruct (block_store st !! hash) as [b'|] eqn:Hs.
  - left. apply list_elem_of_fmap. exists (hash, b'). split; [done|]. by apply elem_of_map_to_list.
  - right. destruct (heights st !! hash) as [h|] eqn:Hh; [|done].
    apply list_elem_of_fmap. exists (hash, h). split; [done|]. by apply elem_of_map_to_list.
Qed.

Lemma heights_fall_ok (st : ChainState R) :
  heights_fallb st = true -> heights_fall std_header_activation st.
Proof.
  intros H hash b Hm Hb Hz. unfold heights_fallb in H. rewrite forallb_forall in H.
  specialize (H hash (proj1 (list_elem_of_In _ _) (block_by_hash_key _ _ _ Hb))).
  rewrite Hm, Hb in H. apply orb_true_iff in H as [H|H]; [by apply bool_decide_eq_true in H|].
  destruct (heights st !! hash) as [k|]; [|done].
  destruct (heights st !! prev_hash (bheader b)) as [k'|]; [|done].
  exists k, k'. split_and!; [done | done | lia | lia].
Qed.

Lemma heights_nonneg_ok (st : ChainState R) :
  forallb (fun k => 0 <=? k) (map_to_list (heights st)).*2 = true -> map_Forall (fun _ k => 0 <= k) (heights st).
Proof.
  intros H hash k Hk. rewrite forallb_forall in H. apply Z.leb_le, H, list_elem_of_In.
  apply list_elem_of_fmap. exists (hash, k). split; [done|]. by apply elem_of_map_to_list.
Qed.
End checks.

Lemma same_store_reachable `{C : Crypto} `{P : Poawx R} env p act window (st : ChainState R) hash b h work :
  reachable env p act window st -> reachable env p act window (store_block st hash b h work).
Proof. intros H. eapply reach_store; [exact H|]. by split. Qed.

Lemma forked_reachable v : reachable no_env demo_params 0 0 (forked v).
Proof.
  exact (same_store_reachable no_env demo_params 0 0 _ (fork2_hash v) (fork2 v) 2 6
    (same_store_reachable no_env demo_params 0 0 demo_connected.1 fork1_hash fork1 1 4 demo_reachable)).
Qed.

Lemma fork_wire : Forall wire_tx [sample_coinbase 4000; sample_coinbase 6000000000].
Proof.
  unfold sample_coinbase, wire_tx, wire_input, wf_input, wf_output.
  constructor; [|constructor; [|constructor]]; cbn [tx_version tx_inputs tx_outputs tx_locktime]; wf_compute.
Qed.

Lemma fork1_wire : Forall wire_tx (transactions fork1).
Proof. constructor; [|constructor]. apply (proj1 (Forall_lookup _ _) fork_wire 0%nat). reflexivity. Qed.

Lemma bad_fork_wire : Forall wire_tx (transactions (fork2 6000000000)).
Proof. constructor; [|constructor]. apply (proj1 (Forall_lookup _ _) fork_wire 1%nat). reflexivity. Qed.

Lemma bad_fork_path :
  find_reorg_path 0 (forked 6000000000) (fork2_hash 6000000000) = Some (Ok (0, [fork1; fork2 6000000000])).
Proof. vm_compute. reflexivity. Qed.

Lemma fork_flags : reorg_done (fork_reorg 3000) = true /\
  reorg_error (fork_reorg 6000000000) = Some (NReorg (Msg "Coinbase transaction exceeds allowed reward")).
Proof. vm_compute. split; reflexivity. Qed.

Lemma good_fork_reorg :
  reorg_to_tip no_env demo_params 0 1000 0 (forked 3000) (fork2_hash 3000)
  = Some (reorg_state (fork_reorg 3000), [], Ok tt).
Proof. exact (reorg_done_eq (fork_reorg 3000) (proj1 fork_flags)). Qed.

Lemma bad_fork_reorg :
  reorg_to_tip no_env demo_params 0 1000 0 (forked 6000000000) (fork2_hash 6000000000)
  = Some (reorg_state (fork_reorg 6000000000), [],
          Err (NReorg (Msg "Coinbase transaction exceeds allowed reward"))).
Proof. exact (reorg_error_eq (fork_reorg 6000000000) _ (proj2 fork_flags)). Qed.

(** ** The theorems *)

(** A reorganisation that succeeds has switched to the new branch and to
    nothing else: unless the branch forks off the tip itself, the chain is the
    old one up to the fork followed by the branch, which leads over stored
    blocks to the wanted tip; the fork is not below the finalized height nor,
    under the hardened rule, deeper than the cap; and the blocks cut off that
    carry receipts are set aside. *)
Theorem reorg_switches_branch `{C : Crypto} `{P : Poawx R} env p act now window (st st' : ChainState R) tip aside :
  reachable env p act window st -> fork_wf env -> map_Forall (fun _ k => 0 <= k) (heights st) ->
  reorg_to_tip env p act now window st tip = Some (st', aside, Ok tt) ->
  exists a branch, find_reorg_path act st tip = Some (Ok (a, branch)) /\
    (exists from, is_hash_on_main_chain act st from = Some a /\ leads_to st from branch tip) /\
    ((tip_height st <= a /\ st' = st /\ aside = []) \/
     (a < tip_height st /\ finalized_height st <= a /\
      (fork_choice_hardening_active env (tip_height st) = true -> tip_height st - a <= max_reorg_depth env) /\
      chain st' = take (Z.to_nat a + 1) (chain st) ++ branch /\
      aside = List.filter has_receipts (rev (drop (Z.to_nat a + 1) (chain st))))).
Proof.
  intros Hr Hf Hn H. pose proof (reachable_ok _ _ _ _ _ Hf Hr) as [_ _ Hh _].
  unfold reorg_to_tip in H. destruct (find_reorg_path act st tip) as [[[a bs]| |]|] eqn:Hp; [|done..].
  exists a, bs. split; [done|].
  destruct (reorg_walk_sound act (walk_fuel st tip) st tip [] tip a bs Hp eq_refl) as (from & Hm & Hl).
  split; [by exists from|].
  destruct (tip_height st <=? a) eqn:Hle; [left; simplify_eq; split_and!; (done || lia)|]. right.
  unfold reorg_allowed in H. destruct (_ && _) eqn:Hc; [done|]. destruct (a <? _) eqn:Hfin; [done|].
  injection H as H. apply switch_branch_chain in H as [Hch Has]; [|done|].
  - split_and!; [lia | lia | | done | done]. intros Ha. rewrite Ha in Hc. cbn [andb] in Hc. lia.
  - unfold is_hash_on_main_chain in Hm. destruct (heights st !! from) as [h|] eqn:Hk; [|done].
    cbn in Hm. destruct (chain st !! _); [|done]. destruct (beqb _ _); [|done]. simplify_eq.
    specialize (Hn _ _ Hk). cbn in Hn. lia.
Qed.

Lemma reorg_switches_branch_witness : exists a branch,
  find_reorg_path 0 (forked 3000) (fork2_hash 3000) = Some (Ok (a, branch)) /\
  (exists from, is_hash_on_main_chain 0 (forked 3000) from = Some a /\
    leads_to (forked 3000) from branch (fork2_hash 3000)) /\
  ((tip_height (forked 3000) <= a /\ reorg_state (fork_reorg 3000) = forked 3000 /\ [] = @nil (Block Empty_set)) \/
   (a < tip_height (forked 3000) /\ finalized_height (forked 3000) <= a /\
    (fork_choice_hardening_active no_env (tip_height (forked 3000)) = true ->
      tip_height (forked 3000) - a <= max_reorg_depth no_env) /\
    chain (reorg_state (fork_reorg 3000)) = take (Z.to_nat a + 1) (chain (forked 3000)) ++ branch /\
    [] = List.filter has_receipts (rev (drop (Z.to_nat a + 1) (chain (forked 3000)))))).
Proof.
  refine (reorg_switches_branch no_env demo_params 0 1000 0 (forked 3000) (reorg_state (fork_reorg 3000))
    (fork2_hash 3000) [] (forked_reachable 3000) demo_fork_wf _ _).
  - apply heights_nonneg_ok. vm_compute. reflexivity.
  - exact good_fork_reorg.
Defined.

(** The path search ends: if the heights on file fall along the parents of
    the blocks off the main chain, the search for the fork gives an answer for
    every tip on file, within as many steps as the tip is high. *)
Theorem reorg_path_total `{C : Crypto} `{P : Poawx R} act (st : ChainState R) tip :
  heights_fall act st -> is_Some (heights st !! tip) -> is_Some (find_reorg_path act st tip).
Proof.
  intros Hf [k Hk]. apply not_eq_None_Some. eapply reorg_walk_total; [done | exact Hk |].
  unfold walk_fuel. rewrite Hk. cbn. lia.
Qed.

Lemma reorg_path_total_witness : is_Some (find_reorg_path 0 (forked 3000) (fork2_hash 3000)).
Proof.
  apply (reorg_path_total 0 (forked 3000)).
  - apply heights_fall_ok. vm_compute. reflexivity.
  - vm_compute. by eexists.
Defined.
