(* ===== verification/PoawxReorg.v ===== *)
(** * PoawxReorg: a reorganisation that fails, under the running PoAW-X
    ([src/src/chain.rs], [reorg_to_tip] with the calls of lines 896 to 985 and
    1083 to 2175)

    The running extension keeps the laws that [ReorgAtomic] asks for, within the
    span the code keeps its records for: eight windows of rewards.  Two states
    are alike when they have the same queue, the same heights for every key, the
    same offences, and the same rewards in the windows kept; the checks of a block
    answer the same for both, connecting and disconnecting a block keeps them
    alike, and disconnecting a checked block leads back.  With it a failed
    reorganisation restores the chain and the state of PoAW-X together. *)

From S2P Require Import Prelude Crypto Wire Activation Constants Header Ledger Proposer.
From S2P Require Import Adaptive Script TxCodec Spv Spend Merkle.
From S2P Require Import Candidate Penalty Dominance Finality Admission AdmissionCache Roles Registration.
From S2P Require Import Receipt Chain BlockWire Anchors Reorg ReorgAtomic PoawxRules PoawxChain.

Open Scope list_scope.

(** ** Checks of lists that answer alike *)
Lemma check_all_ext {A E} (f g : A -> res E unit) l : (forall x, f x = g x) -> check_all f l = check_all g l.
Proof. intros H. induction l as [|x l IH]; [done|]. cbn. by rewrite H, IH. Qed.

Lemma fold_res_ext {A B E} (f g : A -> B -> res E A) l : (forall a x, f a x = g a x) ->
  forall a, fold_res f a l = fold_res g a l.
Proof. intros H. induction l as [|x l IH]; intros a; [done|]. cbn. rewrite H. destruct (g a x); [apply IH | done..]. Qed.

(** ** States of PoAW-X that are alike *)
Section alike.
Context `{C : Crypto} `{V : Vrf} (env : Env) (act : Z) (adm : NodeCandidateAdmissionCache).
(** The windows of rewards, and the highest height in reach. *)
Context (wl lb top : Z).

(** The oldest window whose rewards are kept at the height [top], and the heights
    whose weights are computed from the windows kept. *)
Definition floor_at : Z := sat_sub (top `div` wl) (wadd64 (sat_sub lb 1) PRUNE_MARGIN_WINDOWS).
Definition in_span (h : Z) : Prop := 0 <= h <= top /\ top `div` wl <= h `div` wl + PRUNE_MARGIN_WINDOWS.

Record alike (s s' : PoawxState) : Prop := {
  al_dominance : dom_like wl lb floor_at (dominance s) (dominance s');
  al_registry : forall k, reg_heights (proposer_registry s') k = reg_heights (proposer_registry s) k;
  al_queue : proposer_reg_queue s' = proposer_reg_queue s;
  al_offences : offences (penalty s') = offences (penalty s)
}.

#[export] Instance alike_per : RelationClasses.PER alike.
Proof.
  split.
  - intros s s' [? ? ? ?]. split; [by symmetry | done..].
  - intros s1 s2 s3 [? H ? ?] [? H' ? ?]. split; [by etransitivity | intros k; by rewrite H', H | congruence..].
Qed.

(** *** The checks *)
Lemma alike_weight s s' pkh h : alike s s' -> in_span h ->
  weight (dominance s') DOMINANCE_BASE_WORK_SCORE pkh h = weight (dominance s) DOMINANCE_BASE_WORK_SCORE pkh h.
Proof.
  intros [Hd _ _ _] [Hh Hs]. eapply dom_like_weight; [exact Hd|]. destruct Hd as [[Hw Hl _] _ Ew El _].
  unfold floor_at, recent_range, window_id, sat_sub, wadd64, PRUNE_MARGIN_WINDOWS in *. cbn. rewrite <- Ew, <- El in *.
  rewrite Z.mod_small by lia. lia.
Qed.

Lemma alike_eligible s s' k h : alike s s' ->
  is_eligible env (proposer_registry s') k h = is_eligible env (proposer_registry s) k h.
Proof. intros [_ Hr _ _]. apply same_window_eligible. intros k' h' _. by rewrite Hr. Qed.

Lemma alike_count s s' h : alike s s' ->
  eligible_count env (proposer_registry s') h = eligible_count env (proposer_registry s) h.
Proof. intros [_ Hr _ _]. apply same_window_count. intros k' h' _. by rewrite Hr. Qed.

Lemma alike_candidates s s' chain b h : alike s s' -> in_span h ->
  validate_block_candidate_sets env adm s' chain b h = validate_block_candidate_sets env adm s chain b h.
Proof.
  intros H Hh. unfold validate_block_candidate_sets, check_extended. apply check_all_ext. intros [r x].
  destruct (candidate_set _) as [cs|]; [|done]. cbn [ok_or mbind res_bind]. repeat (case_match; [done|]).
  f_equal. apply check_all_ext. intros cand. unfold validate_candidate. by rewrite (alike_weight s s').
Qed.

Lemma alike_weights s s' b h : alike s s' -> in_span h ->
  validate_block_dominance_weights s' b h = validate_block_dominance_weights s b h.
Proof.
  intros H Hh. unfold validate_block_dominance_weights, check_extended. apply check_all_ext. intros [r x].
  destruct (role_dominance_weights _) as [ws|]; [|done]. cbn [ok_or mbind res_bind]. apply check_all_ext. intros [i pkh].
  destruct (idx ws i); [|done..]. cbn [mbind res_bind]. by rewrite (alike_weight s s').
Qed.

Lemma alike_fraud s s' b h : alike s s' -> validate_block_fraud_proofs env s' b h = validate_block_fraud_proofs env s b h.
Proof.
  intros [_ _ _ Ho]. unfold validate_block_fraud_proofs. f_equal. apply fold_res_ext. intros seen rx.
  case_match; [done|]. apply fold_res_ext. intros seen' fp. unfold check_offence, is_offence_recorded. by rewrite Ho.
Qed.

Lemma alike_proposer s s' b h previous : alike s s' ->
  validate_block_proposer env s' b h previous = validate_block_proposer env s b h previous.
Proof.
  intros H. unfold validate_block_proposer. rewrite (alike_count s s') by done. apply check_all_ext. intros r.
  unfold validate_proposer_receipt. destruct (rc_phase20_ext r); [|done]. cbn [ok_or mbind res_bind].
  destruct (proposer_assignment _); [|done]. cbn [ok_or mbind res_bind]. by rewrite (alike_eligible s s').
Qed.

Lemma alike_checks s s' chain b h : alike s s' -> in_span h ->
  poawx_checks env act adm s' chain b h = poawx_checks env act adm s chain b h.
Proof.
  intros H Hh. unfold poawx_checks.
  rewrite (alike_weights s s'), (alike_candidates s s'), (alike_fraud s s'), (alike_proposer s s') by done.
  unfold validate_block_proposer_registrations. by rewrite (al_queue s s' H).
Qed.

(** *** The effects *)
Definition activated_keys (b : FullBlock) (h : Z) : list (bytes * bytes) :=
  if proposer_registration_active env h
  then from_option activation_keys [] (proposer_reg_section_from_block b) else [].

(** What connecting a block makes of the parts. *)
Record connected (s s' : PoawxState) (b : FullBlock) (h : Z) : Prop := {
  cn_dominance : dominance s' = if anti_domination_active env h
    then apply_events (dominance s) (dominance_events_from_block env b h) h else dominance s;
  cn_registry : proposer_registry s' = register_all
    (if proposer_vrf_active env h
     then register_all (proposer_registry s) (proposer_keys_from_block b (proposer_registration_active env h)) h
     else proposer_registry s) (activated_keys b h) h;
  cn_queue : proposer_reg_queue s' = if proposer_registration_active env h
    then drop (length (activated b)) (proposer_reg_queue s) ++ announced b else proposer_reg_queue s;
  cn_penalty : penalty s' = if fraud_proof_enforced env h
    then apply_slashes (penalty s) (fraud_events_from_block b) h else penalty s
}.

Lemma connect_parts s chain b h : connected s (poawx_connect env s (chain ++ [b]) h) b h.
Proof.
  unfold poawx_connect. rewrite last_snoc. cbn zeta.
  unfold update_adaptive_mode, apply_block_fraud_slashing, apply_block_proposer_registrations,
    apply_block_proposer_registry, apply_block_dominance.
  split; unfold activated_keys, activated, announced; destruct (anti_domination_active env h), (proposer_vrf_active env h), (proposer_registration_active env h),
    (fraud_proof_enforced env h), (adaptive_mode_active env h), (proposer_reg_section_from_block b);
    cbn [negb set_posture set_penalty set_proposers set_dominance from_option dominance proposer_registry
      proposer_reg_queue penalty length drop]; rewrite ?app_nil_r; done.
Qed.

(** What disconnecting a block makes of the parts. *)
Record disconnected (s s' : PoawxState) (b : FullBlock) (h : Z) : Prop := {
  dc_dominance : dominance s' = if anti_domination_active env h
    then revert_events (dominance s) (dominance_events_from_block env b h) h else dominance s;
  dc_registry : proposer_registry s' = if proposer_vrf_active env h
    then unregister_all (unregister_all (proposer_registry s) (activated_keys b h) h)
           (proposer_keys_from_block b (proposer_registration_active env h)) h
    else unregister_all (proposer_registry s) (activated_keys b h) h;
  dc_queue : proposer_reg_queue s' = if proposer_registration_active env h
    then match proposer_reg_section_from_block b with
         | Some sec => activations sec
             ++ take (length (proposer_reg_queue s) - length (announces sec)) (proposer_reg_queue s)
         | None => proposer_reg_queue s
         end else proposer_reg_queue s;
  dc_penalty : penalty s' = if fraud_proof_enforced env h
    then revert_slashes (penalty s) (fraud_events_from_block b) else penalty s
}.

Lemma disconnect_parts s b h : disconnected s (poawx_disconnect env s b h) b h.
Proof.
  unfold poawx_disconnect. cbn zeta.
  unfold revert_block_fraud_slashing, revert_block_proposer_registrations,
    revert_block_proposer_registry, revert_block_dominance.
  split; unfold activated_keys; destruct (anti_domination_active env h), (proposer_vrf_active env h), (proposer_registration_active env h),
    (fraud_proof_enforced env h), (proposer_reg_section_from_block b);
    cbn [negb set_posture set_penalty set_proposers set_dominance from_option dominance proposer_registry
      proposer_reg_queue penalty]; done.
Qed.

(** The rewards of a block are not negative. *)
Lemma rewards_nonneg b h : Forall (fun ev : RewardEvent => 0 <= ev.2) (dominance_events_from_block env b h).
Proof.
  unfold dominance_events_from_block. apply Forall_concat, Forall_fmap, Forall_true. intros [r x]. cbn.
  unfold multi_role_amounts. cbn. assert (forall n k, 0 <= bps_of n k) by (intros; unfold bps_of, as_u64; apply Z.mod_pos; lia).
  repeat (apply Forall_cons; split); try apply Forall_nil; cbn; try done. unfold wadd64. apply Z.mod_pos. lia.
Qed.

Lemma floor_at_nonneg : 0 <= floor_at.
Proof. unfold floor_at, sat_sub. lia. Qed.

Lemma alike_connect s s' chain h : alike s s' -> alike (poawx_connect env s chain h) (poawx_connect env s' chain h).
Proof.
  intros H. destruct chain as [|b chain _] using rev_ind; [done|].
  destruct (connect_parts s chain b h) as [Ed Er Eq Ep], (connect_parts s' chain b h) as [Ed' Er' Eq' Ep'], H as [Hd Hr Hq Ho].
  split; rewrite ?Ed, ?Ed', ?Er, ?Er', ?Eq, ?Eq', ?Ep, ?Ep', ?Hq; [|intros k|done|].
  - destruct (anti_domination_active env h); [|done]. apply dom_like_apply; [apply floor_at_nonneg | apply rewards_nonneg | done].
  - rewrite !reg_heights_register_all. destruct (proposer_vrf_active env h); rewrite ?reg_heights_register_all, Hr; done.
  - destruct (fraud_proof_enforced env h); [|done]. by rewrite !offences_apply_slashes, Ho.
Qed.

Lemma alike_disconnect s s' b h : alike s s' -> alike (poawx_disconnect env s b h) (poawx_disconnect env s' b h).
Proof.
  intros H.
  destruct (disconnect_parts s b h) as [Ed Er Eq Ep], (disconnect_parts s' b h) as [Ed' Er' Eq' Ep'], H as [Hd Hr Hq Ho].
  split; rewrite ?Ed, ?Ed', ?Er, ?Er', ?Eq, ?Eq', ?Ep, ?Ep', ?Hq; [|intros k|done|].
  - destruct (anti_domination_active env h); [|done]. apply dom_like_revert; [apply rewards_nonneg | done].
  - destruct (proposer_vrf_active env h); by rewrite !reg_heights_unregister_all, Hr.
  - destruct (fraud_proof_enforced env h); [|done]. by rewrite !offences_revert_slashes, Ho.
Qed.

(** The block registers keys at a height at which none is registered, and its
    rewards do not overflow the counters. *)
Definition fresh_poawx (s : PoawxState) (b : FullBlock) (h : Z) : Prop :=
  (forall k, h ∉ reg_heights (proposer_registry s) k) /\
  (anti_domination_active env h = true -> fits (dominance s) (dominance_events_from_block env b h) h).

Lemma disconnect_dominance s chain b h : in_span h -> alike s s ->
  (anti_domination_active env h = true -> fits (dominance s) (dominance_events_from_block env b h) h) ->
  dom_like wl lb floor_at (dominance (poawx_disconnect env (poawx_connect env s (chain ++ [b]) h) b h)) (dominance s).
Proof.
  intros [Hh Hs] [Hd _ _ _] Hf. rewrite (dc_dominance _ _ _ _ (disconnect_parts _ b h)), (cn_dominance _ _ _ _ (connect_parts s chain b h)).
  destruct (anti_domination_active env h); [|done]. apply dom_like_undone; [lia | done | by apply Hf |].
  destruct Hd as [[Hw Hl _] _ Ew El _]. unfold keep_floor, floor_at, window_id, sat_sub. rewrite Ew, El.
  assert (h `div` wl <= top `div` wl) by (apply Z.div_le_mono; lia). lia.
Qed.

Lemma disconnect_queue_any s chain b h : poawx_checks env act adm s chain b h = Ok tt ->
  proposer_reg_queue (poawx_disconnect env (poawx_connect env s (chain ++ [b]) h) b h) = proposer_reg_queue s.
Proof.
  intros Hc. destruct (proposer_registration_active env h) eqn:Hr.
  - apply disconnect_queue; [done|]. by destruct (checked_drains env act adm s chain b h Hr Hc).
  - rewrite (dc_queue _ _ _ _ (disconnect_parts _ b h)), Hr, (cn_queue _ _ _ _ (connect_parts s chain b h)). by rewrite Hr.
Qed.

Lemma alike_undone s chain b h : in_span h -> alike s s -> poawx_checks env act adm s chain b h = Ok tt ->
  fresh_poawx s b h -> alike (poawx_disconnect env (poawx_connect env s (chain ++ [b]) h) b h) s.
Proof.
  intros Hh Hs Hc [Hk Hf]. split; [by apply disconnect_dominance | | symmetry; by apply disconnect_queue_any |].
  - intros k. symmetry. by apply disconnect_heights.
  - symmetry. by eapply disconnect_offences.
Qed.

(** The running extension keeps the laws. *)
#[export] Instance poawx_running_laws : PoawxLaws (poawx_running env act adm).
Proof.
  refine {| pequiv := alike : relation (PState (Poawx := poawx_running env act adm)); pscope := in_span;
            pfresh := fresh_poawx |}.
  - intros s s' c b h Hh H. symmetry. by apply alike_checks.
  - intros s s' c h _. apply alike_connect.
  - intros s s' c b h _. apply alike_disconnect.
  - intros s c b h. apply alike_undone.
Defined.
End alike.

(** ** The theorem *)
Section restored.
Context `{C : Crypto} `{V : Vrf} (env : Env) (p : ChainParams) (act : Z) (adm : NodeCandidateAdmissionCache).
Context (now window wl lb top : Z).
#[local] Instance running : Poawx PoawxBlockReceipt := poawx_running env act adm.
#[local] Instance running_laws : PoawxLaws running := poawx_running_laws env act adm wl lb top.

(** C7: A failed reorganisation is undone, with PoAW-X running.  Let the state be one
    whose part up to the fork a node can reach, with the blocks above it connected
    one by one since; let these and the blocks of the new branch repeat no block, no
    output and no height of registration, lie within eight windows of rewards of the
    height [top], and not overflow the counters of rewards; and let the new branch
    carry no header batches (which a refused block leaves applied), the fork height
    of the block time, if set, and the heights on file not be negative, and the
    record of rewards be in range.  Then whatever goes wrong the blocks, the coins,
    the claims and relays, the supply, the work and the undo logs are as before, no
    block is set aside, and so are the queue of registrations, the heights at which
    every key was registered, who may propose at any height, the offences on record
    and the weight of every miner at every height of that span. *)
Theorem failed_reorg_restores (st st' : ChainState PoawxBlockReceipt) tip aside e :
  fork_wf env -> map_Forall (fun _ k => 0 <= k) (heights st) ->
  dom_ok (dominance (poawx_state st)) -> window_len (dominance (poawx_state st)) = wl ->
  lookback (dominance (poawx_state st)) = lb ->
  (forall a branch, find_reorg_path act st tip = Some (Ok (a, branch)) ->
    built env p act window now a st /\
    Forall (fun b => existsb carries_batch (transactions b) = false) branch /\
    forall st1 d, disconnect_to act (length (chain st)) a st [] = (st1, Ok d) ->
      fresh_run env p act window now st1 branch) ->
  reorg_to_tip env p act now window st tip = Some (st', aside, Err e) ->
  (ledger st' = ledger st /\ height st' = height st /\ chain st' = chain st /\ total_work st' = total_work st /\
   issued st' = issued st /\ undo_logs st' = undo_logs st /\ aside = []) /\
  let s := poawx_state st in
  let s' := poawx_state st' in
  proposer_reg_queue s' = proposer_reg_queue s /\
  (forall k, reg_heights (proposer_registry s') k = reg_heights (proposer_registry s) k) /\
  (forall k h, is_eligible env (proposer_registry s') k h = is_eligible env (proposer_registry s) k h) /\
  offences (penalty s') = offences (penalty s) /\
  (forall pkh h, in_span wl top h ->
    weight (dominance s') DOMINANCE_BASE_WORK_SCORE pkh h = weight (dominance s) DOMINANCE_BASE_WORK_SCORE pkh h).
Proof.
  intros Hf Hn Hd Hw Hl Hb H. assert (alike wl lb top (poawx_state st) (poawx_state st)) as Hs by (split; [by split | done..]).
  destruct (reorg_undone _ _ _ _ Hf _ _ _ _ _ _ Hn Hb Hs H) as [[El Eh Ec Ew Ei Eu Ep] ->].
  split; [by split_and!|]. cbv zeta. pose proof Ep as [_ Er Eq Eo]. split_and!; [done | done | | done |].
  - intros k h. by apply (alike_eligible env wl lb top).
  - intros pkh h Hh. by apply (alike_weight wl lb top).
Qed.
End restored.

(** ** Sample: a test network with a key waiting in the queue

    The block on the genesis block registers the key.  A fork does so as well;
    its second block takes too much, so that the fork has to be undone. *)
#[local] Existing Instance no_vrf.
#[local] Instance queue_poawx : Poawx PoawxBlockReceipt := running queue_env 0 no_admitted.
#[local] Instance queue_laws : PoawxLaws queue_poawx := running_laws queue_env 0 no_admitted 10 2 2.

Definition root_of (txs : list Transaction) (rs : option (list PoawxBlockReceipt)) : bytes :=
  block_merkle_root {| bheader := sample_header; transactions := txs; auxpow := None; poawx_receipts := rs |}.
Definition q_block (prev : bytes) (rs : option (list PoawxBlockReceipt)) (v t n : Z) : FullBlock :=
  {| bheader := demo_header prev (root_of [sample_coinbase v] rs) t n;
     transactions := [sample_coinbase v]; auxpow := None; poawx_receipts := rs |}.

Definition q_genesis : FullBlock :=
  {| bheader := bheader demo_genesis; transactions := transactions demo_genesis; auxpow := None; poawx_receipts := None |}.
Definition genesis_hash : bytes := Eval vm_compute in hash_for_height 0 (bheader q_genesis) 0.
Definition q_first : FullBlock := q_block genesis_hash (poawx_receipts queue_block) 5000 1600 16.
Definition q_fork1 : FullBlock := q_block genesis_hash (poawx_receipts queue_block) 4000 1700 0.
Definition q_fork1_hash : bytes := Eval vm_compute in hash_for_height 0 (bheader q_fork1) 1.
Definition q_fork2 : FullBlock := q_block q_fork1_hash None 6000000000 2300 0.
Definition q_fork2_hash : bytes := Eval vm_compute in hash_for_height 0 (bheader q_fork2) 2.

Definition q_none : ChainState PoawxBlockReceipt :=
  {| ledger := empty_ledger; height := 0; chain := []; total_work := 0; issued := 0; block_store := ∅;
     heights := ∅; cumulative_work := ∅; best_tip := []; undo_logs := ∅; poawx_state := queue_state;
     finalized_height := 0 |}.
Definition q_start : ChainState PoawxBlockReceipt :=
  match new_chain queue_env demo_params 0 1000 q_genesis queue_state with Ok st => st | _ => q_none end.
Definition q_connected : ChainState PoawxBlockReceipt := (connect_block queue_env demo_params 0 1000 0 q_start q_first).1.
(** The chain with the fork on file *)
Definition q_forked : ChainState PoawxBlockReceipt :=
  store_block (store_block q_connected q_fork1_hash q_fork1 1 4) q_fork2_hash q_fork2 2 6.

Abbreviation q_reorg := (reorg_to_tip queue_env demo_params 0 1000 0 q_forked q_fork2_hash).
Definition q_after : ChainState PoawxBlockReceipt := match q_reorg with Some (st, _, _) => st | None => q_none end.

Lemma q_start_ok : new_chain queue_env demo_params 0 1000 q_genesis queue_state = Ok q_start.
Proof.
  assert (is_ok (new_chain queue_env demo_params 0 1000 q_genesis queue_state) = true) as H by (vm_compute; reflexivity).
  unfold q_start. by destruct (new_chain _ _ _ _ _ _).
Qed.

Lemma q_connected_ok : connect_block queue_env demo_params 0 1000 0 q_start q_first = (q_connected, Ok tt).
Proof.
  apply (pair_ok (connect_block queue_env demo_params 0 1000 0 q_start q_first)). vm_compute. reflexivity.
Qed.

Lemma q_wire : Forall wire_tx [sample_coinbase 4000; sample_coinbase 5000; sample_coinbase 6000000000; sample_coinbase 7000].
Proof.
  unfold sample_coinbase, wire_tx, wire_input, wf_input, wf_output.
  repeat (constructor; [cbn [tx_version tx_inputs tx_outputs tx_locktime]; wf_compute|]). constructor.
Qed.

Lemma q_wire_at i tx : [sample_coinbase 4000; sample_coinbase 5000; sample_coinbase 6000000000; sample_coinbase 7000] !! i = Some tx ->
  Forall wire_tx [tx].
Proof. intros H. constructor; [|constructor]. exact (proj1 (Forall_lookup _ _) q_wire i tx H). Qed.

(** What is to be shown of a block that repeats nothing, as a test *)
Definition unregistered (s : PoawxState) (h : Z) : bool :=
  forallb (fun kr => negb (bool_decide (h ∈ kr_heights kr.2))) (map_to_list (proposer_registry s)).

Lemma unregistered_ok s b h : unregistered s h = true -> anti_domination_active queue_env h = false ->
  fresh_poawx queue_env s b h.
Proof.
  intros H Ha. split; [|by rewrite Ha]. intros k Hin. unfold reg_heights in Hin.
  destruct (proposer_registry s !! k) as [kr|] eqn:Hk; [|by apply not_elem_of_empty in Hin].
  unfold unregistered in H. rewrite forallb_forall in H. specialize (H (k, kr)).
  apply negb_true_iff, bool_decide_eq_false in H; [done|]. by apply list_elem_of_In, elem_of_map_to_list.
Qed.

Definition fresh_test (st st' : ChainState PoawxBlockReceipt) (b : FullBlock) : bool :=
  let hash := hash_for_height 0 (bheader b) (height st) in
  bool_decide (undo_logs st !! hash = None) && all_fresh (ledger st) (undo_logs st' !! hash)
  && unregistered (poawx_state st) (height st).

Lemma fresh_tested st st' b : Forall wire_tx (transactions b) -> fresh_test st st' b = true ->
  anti_domination_active queue_env (height st) = false ->
  fresh_block 0 st st' b /\ pfresh (poawx_state st) b (height st).
Proof.
  intros Hw [[Hu Ha]%andb_true_iff Hr]%andb_true_iff Hd. split; [|by apply unregistered_ok].
  split_and!; [done | by apply bool_decide_eq_true in Hu |]. intros undo Hundo. by eapply all_fresh_ok.
Qed.

Lemma q_relays : relays_ok demo_params (ledger q_start).
Proof.
  assert (btc (ledger q_start) = RelayState_new /\ ltc (ledger q_start) = RelayState_new) as [Hb Hl] by (vm_compute; done).
  split; [rewrite Hb | rewrite Hl]; apply relay_inv_new.
Qed.

Lemma q_start_alike : alike 10 2 2 (poawx_state q_start) (poawx_state q_start).
Proof.
  assert (poawx_state q_start = queue_state) as -> by (vm_compute; reflexivity).
  assert (dom_ok (dominance queue_state)) as Hd
    by (split; [vm_compute; congruence | vm_compute; split; congruence | intros k b Hb; cbn in Hb; by rewrite lookup_empty in Hb]).
  split; [by split | done..].
Qed.

Lemma in_span_test h : (0 <=? h) && (h <=? 2) = true -> in_span 10 2 h.
Proof.
  intros [? ?]%andb_true_iff. split; [lia|]. assert (0 <= h `div` 10) by (apply Z.div_pos; lia).
  change (2 `div` 10) with 0. unfold PRUNE_MARGIN_WINDOWS. lia.
Qed.

Lemma q_base : built queue_env demo_params 0 0 1000 0 q_start.
Proof.
  apply built_base; [| exact q_relays | vm_compute; reflexivity | exact q_start_alike].
  refine (reach_genesis queue_env demo_params 0 0 1000 q_genesis queue_state q_start _ q_start_ok).
  apply (q_wire_at 3). reflexivity.
Qed.

Lemma q_built : built queue_env demo_params 0 0 1000 0 q_connected.
Proof.
  destruct (fresh_tested q_start q_connected q_first) as [Hf Hp];
    [by apply (q_wire_at 1) | vm_compute; reflexivity..|].
  refine (built_connect queue_env demo_params 0 0 1000 0 1000 q_start q_first q_connected (Z.le_refl _) q_base q_connected_ok Hf _ Hp).
  apply in_span_test. vm_compute. reflexivity.
Qed.

Lemma q_fork_wf : fork_wf queue_env.
Proof. vm_compute. exact I. Qed.

Lemma q_forked_built : built queue_env demo_params 0 0 1000 0 q_forked.
Proof.
  exact (built_store queue_env demo_params 0 0 q_fork_wf 1000 0 _ q_fork2_hash q_fork2 2 6
    (built_store queue_env demo_params 0 0 q_fork_wf 1000 0 q_connected q_fork1_hash q_fork1 1 4 q_built)).
Qed.

Lemma q_path : find_reorg_path 0 q_forked q_fork2_hash = Some (Ok (0, [q_fork1; q_fork2])).
Proof. vm_compute. reflexivity. Qed.

Lemma q_fails : q_reorg = Some (q_after, [], Err (NReorg (Msg "Coinbase transaction exceeds allowed reward"))).
Proof.
  assert (match q_reorg with Some (_, [], Err (NReorg (Msg s))) => bool_decide (s = "Coinbase transaction exceeds allowed reward"%string)
          | _ => false end = true) as H by (vm_compute; reflexivity).
  unfold q_after. destruct q_reorg as [[[st [|]] [[]|e|]]|]; try discriminate H.
  destruct e as [|e|e]; try discriminate H; destruct e; try discriminate H. by apply bool_decide_eq_true in H as ->.
Qed.

Lemma q_run st1 d : disconnect_to 0 (length (chain q_forked)) 0 q_forked [] = (st1, Ok d) ->
  fresh_run queue_env demo_params 0 0 1000 st1 [q_fork1; q_fork2].
Proof.
  intros Hd. apply (f_equal fst) in Hd. cbn [fst] in Hd. subst st1. set (st := (disconnect_to _ _ _ _ _).1).
  set (c := connect_block queue_env demo_params 0 1000 0 st q_fork1).
  assert (is_ok c.2 && fresh_test st c.1 q_fork1 && negb (is_ok (connect_block queue_env demo_params 0 1000 0 c.1 q_fork2).2) = true) as H
    by (vm_compute; reflexivity).
  apply andb_true_iff in H as [[Hc Ht]%andb_true_iff H2]. cbn [fresh_run]. fold c. rewrite (pair_ok c Hc).
  assert (anti_domination_active queue_env (height st) = false /\ (0 <=? height st) && (height st <=? 2) = true) as [Hd Hh]
    by (vm_compute; split; reflexivity).
  clearbody st. destruct (fresh_tested st c.1 q_fork1 (q_wire_at 0 _ eq_refl) Ht Hd) as [Hf Hp].
  refine (conj Hf (conj (in_span_test _ Hh) (conj Hp _))).
  destruct (connect_block _ _ _ _ _ c.1 q_fork2) as [t [| |]]; [discriminate H2 | done..].
Qed.

Lemma q_dom_ok : dom_ok (dominance (poawx_state q_forked)).
Proof.
  assert (dominance (poawx_state q_forked) = PersistentDominance_new 10 2) as -> by (vm_compute; reflexivity).
  split; [vm_compute; congruence | vm_compute; split; congruence |]. intros k b Hb. cbn in Hb. by rewrite lookup_empty in Hb.
Qed.

Lemma failed_reorg_restores_witness :
  proposer_reg_queue (poawx_state q_after) = proposer_reg_queue (poawx_state q_forked) /\
  reg_heights (proposer_registry (poawx_state q_after)) (pr_vrf_pubkey sample_registration) = {[1]}.
Proof.
  destruct (failed_reorg_restores queue_env demo_params 0 no_admitted 1000 0 10 2 2 q_forked q_after q_fork2_hash []
    (NReorg (Msg "Coinbase transaction exceeds allowed reward")) q_fork_wf) as (_ & Hq & Hr & _).
  - apply heights_nonneg_ok. vm_compute. reflexivity.
  - exact q_dom_ok.
  - vm_compute. reflexivity.
  - vm_compute. reflexivity.
  - intros a branch Hp. pose proof (eq_trans (eq_sym q_path) Hp) as E. clear Hp. apply Some_inj, Ok_inj, pair_eq in E as [<- <-]. split_and!.
    + exact q_forked_built.
    + constructor; [vm_compute; reflexivity | constructor; [vm_compute; reflexivity | constructor]].
    + exact q_run.
  - exact q_fails.
  - split; [exact Hq|]. rewrite Hr. vm_compute. reflexivity.
Defined.
