(* ===== verification/Agreement.v ===== *)
(** * Agreement: the agreements that settlement is about
    ([src/src/settlement.rs], lines 22 to 270 and 1246 to 1304, 2264 to 2736)

    An agreement names the parties, the amount, the milestones and the
    conditions of a trade that is settled on the chain.  Its hash is anchored in
    transactions, and so are events about the parties; both are short texts in an
    output that cannot be spent.

    A [String] of the code is the [string] of its bytes.  JSON and hexadecimal
    digits are code of third-party crates ([serde_json], [hex]): the classes
    [AgreementJson] and [Hex], with what the code relies on in [HexLaws].

    Shown here: a valid agreement has two different parties that pay and are
    paid and resolvers who leave something over; its milestones add up to the
    total, but only modulo 2^64; an anchor and an event are read back as they
    were written, if no colon stands in the milestone. *)

From Stdlib Require Import Ascii.
From stdpp Require Import pretty.
From S2P Require Import Prelude Crypto TxCodec Activation.

Open Scope string_scope.
Open Scope Z_scope.

(** ** Third-party code *)
Class Hex := {
  hex_encode : bytes -> string;
  hex_decode : string -> option bytes
}.

Definition is_hex_digit (c : ascii) : bool :=
  let n := Z.of_N (N_of_ascii c) in (48 <=? n) && (n <=? 57) || (65 <=? n) && (n <=? 70) || (97 <=? n) && (n <=? 102).

Fixpoint all_chars (f : ascii -> bool) (s : string) : bool :=
  match s with
  | EmptyString => true
  | String c s => f c && all_chars f s
  end.

(** [hex]: two digits for a byte; only digits are decoded. *)
Class HexLaws (H : Hex) : Prop := {
  hex_decode_encode b : wf_bytes b -> hex_decode (hex_encode b) = Some b;
  hex_encode_len b : String.length (hex_encode b) = (2 * length b)%nat;
  hex_decode_digits s b : hex_decode s = Some b -> all_chars is_hex_digit s = true;
  hex_decode_bytes s b : hex_decode s = Some b -> wf_bytes b /\ String.length s = (2 * length b)%nat
}.

(** ** Text *)
Definition slen (s : string) : Z := Z.of_nat (String.length s).
Definition is_blank (s : string) : bool := bool_decide (trim s = EmptyString).

(** [hex::decode(s).is_ok()] for the digits of 32 bytes *)
Definition is_hex32 `{Hex} (s : string) : bool := (slen s =? 64) && bool_decide (is_Some (hex_decode s)).

(** [str::split(':')]: at least one part. *)
Fixpoint split_colon (s : string) : list string :=
  match s with
  | EmptyString => [EmptyString]
  | String c s' =>
      if bool_decide (c = ":"%char) then EmptyString :: split_colon s' else
      match split_colon s' with
      | part :: parts => String c part :: parts
      | [] => [String c EmptyString]
      end
  end.

Fixpoint strip_prefix (p s : string) : option string :=
  match p, s with
  | EmptyString, _ => Some s
  | String c p, String d s => if bool_decide (c = d) then strip_prefix p s else None
  | String _ _, EmptyString => None
  end.

(** [str::from_utf8]: the text of the bytes if they are well-formed UTF-8. *)
Definition cont (b : Z) : bool := (128 <=? b) && (b <=? 191).
Definition between (lo hi b : Z) : bool := (lo <=? b) && (b <=? hi).

Fixpoint utf8 (s : bytes) : bool :=
  match s with
  | [] => true
  | a :: s =>
      if a <=? 127 then utf8 s else
      match s with
      | [] => false
      | b :: s =>
          if between 194 223 a then cont b && utf8 s else
          match s with
          | [] => false
          | c :: s =>
              if a =? 224 then between 160 191 b && cont c && utf8 s else
              if a =? 237 then between 128 159 b && cont c && utf8 s else
              if between 225 239 a then cont b && cont c && utf8 s else
              match s with
              | [] => false
              | d :: s =>
                  if a =? 240 then between 144 191 b && cont c && cont d && utf8 s else
                  if between 241 243 a then cont b && cont c && cont d && utf8 s else
                  if a =? 244 then between 128 143 b && cont c && cont d && utf8 s else false
              end
          end
      end
  end.

Fixpoint text (s : bytes) : string :=
  match s with
  | [] => EmptyString
  | b :: s => String (ascii_of_N (Z.to_N b)) (text s)
  end.
Definition from_utf8 (s : bytes) : option string := if utf8 s then Some (text s) else None.

(** ** Data *)
Definition AGREEMENT_OBJECT_VERSION : Z := 1.
Definition AGREEMENT_NETWORK_MARKER : string := "IRIUM".
Definition AGREEMENT_SCHEMA_ID_V1 : string := "irium.phase1.canonical.v1".
Definition AGREEMENT_SIGNATURE_TYPE_SECP256K1 : string := "secp256k1_ecdsa_sha256".
Definition AGREEMENT_ANCHOR_PREFIX : string := "agr1:".
Definition REPUTATION_EVENT_PREFIX : string := "rep1:".

Inductive AgreementTemplateType :=
| SimpleReleaseRefund | MilestoneSettlement | RefundableDeposit | OtcSettlement
| MerchantDelayedSettlement | ContractorMilestone.

Record AgreementParty := { party_id : string; display_name : string; address : string; ap_role : option string }.
Record AgreementDeadlines := {
  settlement_deadline : option Z; refund_deadline : option Z; dispute_window : option Z
}.
Record AgreementReleaseCondition := {
  mode : string; rel_secret_hash_hex : option string; release_authorizer : option string; rel_notes : option string
}.
Record AgreementRefundCondition := { rc_refund_address : string; rc_timeout_height : Z; rc_notes : option string }.
Record AgreementMilestone := {
  milestone_id : string; title : string; amount : Z; recipient_address : string; refund_address : string;
  secret_hash_hex : string; timeout_height : Z; ms_metadata_hash : option string
}.
Record AgreementDepositRule := {
  dr_amount : Z; beneficiary_address : string; dr_refund_address : string; dr_timeout_height : Z; dr_notes : option string
}.

Record AgreementObject := {
  agreement_id : string;
  ag_version : Z;
  ag_schema_id : option string;
  template_type : AgreementTemplateType;
  parties : list AgreementParty;
  payer : string;
  payee : string;
  mediator_reference : option string;
  total_amount : Z;
  network_marker : string;
  creation_time : Z;
  deadlines : AgreementDeadlines;
  release_conditions : list AgreementReleaseCondition;
  refund_conditions : list AgreementRefundCondition;
  milestones : list AgreementMilestone;
  deposit_rule : option AgreementDepositRule;
  proof_policy_reference : option string;
  asset_reference : option string;
  payment_reference : option string;
  purpose_reference : option string;
  release_summary : option string;
  refund_summary : option string;
  attestor_reference : option string;
  resolver_reference : option string;
  ag_notes : option string;
  document_hash : string;
  metadata_hash : option string;
  invoice_reference : option string;
  external_reference : option string;
  disputed_metadata_only : bool;
  primary_resolver : option string;
  fallback_resolver : option string;
  primary_resolver_fee : option Z;
  fallback_resolver_fee : option Z
}.

(** [agreement_canonical_bytes]: [serde_json] with sorted keys. *)
Class AgreementJson := { agreement_canonical_bytes : AgreementObject -> res string bytes }.

(** ** [AgreementObject::validate] *)
Section validate.
Context `{Hex}.

Definition num (n : Z) : string := pretty (Z.to_N n).

Definition validate_optional_text_field (name : string) (v : option string) : res string unit :=
  ensure (negb (from_option is_blank false v)) (name +:+ " must not be empty when provided").

Definition validate_party (seen : gset string) (p : AgreementParty) : res string (gset string) :=
  _ ← ensure (negb (is_blank (party_id p))) "party_id required";
  _ ← ensure (negb (is_blank (display_name p))) ("display_name required for " +:+ party_id p);
  _ ← ensure (negb (is_blank (address p))) ("address required for " +:+ party_id p);
  _ ← ensure (bool_decide (party_id p ∉ seen)) ("duplicate party_id " +:+ party_id p);
  Ok ({[party_id p]} ∪ seen).

(** [Iterator::sum] in the release profile wraps. *)
Definition sum_amounts (ms : list AgreementMilestone) : Z := foldl (fun s m => wadd64 s (amount m)) 0 ms.

Definition validate_milestone_sum (a : AgreementObject) : res string unit :=
  match template_type a with
  | MilestoneSettlement | ContractorMilestone =>
      _ ← ensure (negb (bool_decide (length (milestones a) = 0%nat))) "milestone template requires milestones";
      ensure (sum_amounts (milestones a) =? total_amount a) "milestone amounts must sum to total_amount"
  | _ =>
      if bool_decide (length (milestones a) = 0%nat) then Ok tt else
      ensure (sum_amounts (milestones a) =? total_amount a) "milestone amounts must sum to total_amount when present"
  end.

Definition validate_release_condition (c : AgreementReleaseCondition) : res string unit :=
  _ ← ensure (negb (is_blank (mode c))) "release condition mode required";
  if bool_decide (mode c = "secret_preimage") then
    h ← ok_or (rel_secret_hash_hex c) "secret_preimage release condition requires secret_hash_hex";
    ensure (is_hex32 h) "release secret_hash_hex must be 32-byte hex"
  else Ok tt.

Definition validate_refund_condition (c : AgreementRefundCondition) : res string unit :=
  _ ← ensure (negb (is_blank (rc_refund_address c))) "refund address required";
  ensure (negb (rc_timeout_height c =? 0)) "refund timeout_height must be > 0".

Definition validate_milestone (seen : gset string) (m : AgreementMilestone) : res string (gset string) :=
  let id := milestone_id m in
  _ ← ensure (negb (is_blank id)) "milestone_id required";
  _ ← ensure (bool_decide (id ∉ seen)) ("duplicate milestone_id " +:+ id);
  _ ← ensure (negb (is_blank (title m))) ("milestone title required for " +:+ id);
  _ ← ensure (negb (amount m =? 0)) "milestone amount must be > 0";
  _ ← ensure (negb (is_blank (recipient_address m))) ("milestone recipient_address required for " +:+ id);
  _ ← ensure (negb (is_blank (refund_address m))) ("milestone refund_address required for " +:+ id);
  _ ← ensure (is_hex32 (secret_hash_hex m)) ("invalid milestone secret_hash_hex for " +:+ id);
  _ ← ensure (negb (timeout_height m =? 0)) ("milestone timeout_height must be > 0 for " +:+ id);
  Ok ({[id]} ∪ seen).

Definition validate_deposit (r : AgreementDepositRule) : res string unit :=
  _ ← ensure (negb (dr_amount r =? 0)) "deposit amount must be > 0";
  _ ← ensure (negb (is_blank (beneficiary_address r))) "deposit beneficiary_address required";
  _ ← ensure (negb (is_blank (dr_refund_address r))) "deposit refund_address required";
  ensure (negb (dr_timeout_height r =? 0)) "deposit timeout_height must be > 0".

Definition resolver_eligible (t : AgreementTemplateType) : bool :=
  match t with OtcSettlement | MilestoneSettlement | ContractorMilestone => true | _ => false end.

Definition validate_primary (a : AgreementObject) : res string unit :=
  match primary_resolver a with
  | Some addr =>
      fee ← ok_or (primary_resolver_fee a) "primary_resolver_fee required when primary_resolver is set";
      _ ← ensure (negb (fee =? 0)) "primary_resolver_fee must be > 0";
      _ ← ensure (fee <? total_amount a) "primary_resolver_fee must be < total_amount";
      ensure (negb (is_blank addr)) "primary_resolver address required"
  | None => ensure (negb (bool_decide (is_Some (primary_resolver_fee a)))) "primary_resolver_fee set without primary_resolver"
  end.

Definition validate_fallback (a : AgreementObject) : res string unit :=
  match fallback_resolver a with
  | Some addr =>
      primary ← ok_or (primary_resolver a) "fallback_resolver requires primary_resolver";
      fee ← ok_or (fallback_resolver_fee a) "fallback_resolver_fee required when fallback_resolver is set";
      _ ← ensure (negb (fee =? 0)) "fallback_resolver_fee must be > 0";
      _ ← ensure (negb (is_blank addr)) "fallback_resolver address required";
      _ ← ensure (negb (bool_decide (trim addr = trim primary))) "fallback_resolver must differ from primary_resolver";
      ensure (sat_add64 (default 0 (primary_resolver_fee a)) fee <? total_amount a)
        "primary + fallback resolver fees must be < total_amount"
  | None => ensure (negb (bool_decide (is_Some (fallback_resolver_fee a)))) "fallback_resolver_fee set without fallback_resolver"
  end.

Definition validate_agreement (a : AgreementObject) : res string unit :=
  _ ← ensure (ag_version a =? AGREEMENT_OBJECT_VERSION) ("unsupported agreement version " +:+ num (ag_version a));
  _ ← match ag_schema_id a with
      | Some id => ensure (bool_decide (id = AGREEMENT_SCHEMA_ID_V1)) ("unsupported agreement schema_id " +:+ id)
      | None => Ok tt
      end;
  _ ← ensure (bool_decide (trim (network_marker a) = AGREEMENT_NETWORK_MARKER)) "network_marker must be IRIUM";
  _ ← ensure (negb (is_blank (agreement_id a))) "agreement_id required";
  _ ← ensure (negb (total_amount a =? 0)) "total_amount must be > 0";
  _ ← ensure (2 <=? len (parties a)) "at least two parties required";
  _ ← fold_res validate_party ∅ (parties a);
  _ ← ensure (negb (bool_decide (payer a = payee a))) "payer and payee must differ";
  _ ← ensure (bool_decide (payer a ∈ party_id <$> parties a)) "payer must reference a declared party";
  _ ← ensure (bool_decide (payee a ∈ party_id <$> parties a)) "payee must reference a declared party";
  _ ← validate_optional_text_field "asset_reference" (asset_reference a);
  _ ← validate_optional_text_field "payment_reference" (payment_reference a);
  _ ← validate_optional_text_field "purpose_reference" (purpose_reference a);
  _ ← validate_optional_text_field "release_summary" (release_summary a);
  _ ← validate_optional_text_field "refund_summary" (refund_summary a);
  _ ← validate_optional_text_field "attestor_reference" (attestor_reference a);
  _ ← validate_optional_text_field "resolver_reference" (resolver_reference a);
  _ ← validate_optional_text_field "notes" (ag_notes a);
  _ ← ensure (is_hex32 (document_hash a)) "document_hash must be 32-byte hex";
  _ ← ensure (from_option is_hex32 true (metadata_hash a)) "metadata_hash must be 32-byte hex";
  _ ← ensure (negb (bool_decide (length (release_conditions a) = 0%nat))) "at least one release condition required";
  _ ← ensure (negb (bool_decide (length (refund_conditions a) = 0%nat))) "at least one refund condition required";
  _ ← match settlement_deadline (deadlines a), refund_deadline (deadlines a) with
      | Some s, Some r => ensure (s <=? r) "settlement_deadline must be <= refund_deadline"
      | _, _ => Ok tt
      end;
  _ ← validate_milestone_sum a;
  _ ← check_all validate_release_condition (release_conditions a);
  _ ← check_all validate_refund_condition (refund_conditions a);
  _ ← fold_res validate_milestone ∅ (milestones a);
  _ ← from_option validate_deposit (Ok tt) (deposit_rule a);
  _ ← ensure (resolver_eligible (template_type a) ||
        negb (bool_decide (is_Some (primary_resolver a)) || bool_decide (is_Some (fallback_resolver a)) ||
              bool_decide (is_Some (primary_resolver_fee a)) || bool_decide (is_Some (fallback_resolver_fee a))))
        "resolver fields are only allowed on OTC, milestone, and contractor templates";
  _ ← validate_primary a;
  validate_fallback a.

Definition compute_agreement_hash `{Crypto} `{AgreementJson} (a : AgreementObject) : res string bytes :=
  _ ← validate_agreement a;
  bytes ← agreement_canonical_bytes a;
  Ok (sha256 bytes).

Definition compute_agreement_hash_hex `{Crypto} `{AgreementJson} (a : AgreementObject) : res string string :=
  hex_encode <$> compute_agreement_hash a.
End validate.

(** ** Anchors *)
Inductive AgreementAnchorRole :=
| RFunding | RRelease | RRefund | RMilestoneRelease | RDepositLock | RCollateralLock | ROtcSettlement
| RMerchantSettlement | RDisputeRaise | RDisputeEvidence | RDisputeResolve | RResolverRegister.

Definition role_code (r : AgreementAnchorRole) : string :=
  match r with
  | RFunding => "f" | RRelease => "l" | RRefund => "r" | RMilestoneRelease => "m" | RDepositLock => "d"
  | RCollateralLock => "c" | ROtcSettlement => "o" | RMerchantSettlement => "t" | RDisputeRaise => "e"
  | RDisputeEvidence => "v" | RDisputeResolve => "x" | RResolverRegister => "y"
  end.

Definition role_of_code (v : string) : option AgreementAnchorRole :=
  if String.eqb v "f" then Some RFunding else if String.eqb v "l" then Some RRelease else
  if String.eqb v "r" then Some RRefund else if String.eqb v "m" then Some RMilestoneRelease else
  if String.eqb v "d" then Some RDepositLock else if String.eqb v "c" then Some RCollateralLock else
  if String.eqb v "o" then Some ROtcSettlement else if String.eqb v "t" then Some RMerchantSettlement else
  if String.eqb v "e" then Some RDisputeRaise else if String.eqb v "v" then Some RDisputeEvidence else
  if String.eqb v "x" then Some RDisputeResolve else if String.eqb v "y" then Some RResolverRegister else None.

Record AgreementAnchor := { aa_hash : string; aa_role : AgreementAnchorRole; aa_milestone : option string }.

(** An output that cannot be spent, with a short text. *)
Definition op_return (payload : bytes) : TxOutput :=
  {| value := 0; script_pubkey := [106; as_u8 (len payload)] ++ payload |}.

Definition op_return_text (script : bytes) : option string :=
  match script with
  | op :: n :: payload =>
      if negb (op =? 106) then None else
      if negb (len script =? n + 2) then None else from_utf8 payload
  | _ => None
  end.

Definition build_agreement_anchor_payload `{Hex} (a : AgreementAnchor) : res string bytes :=
  _ ← ensure (is_hex32 (aa_hash a)) "agreement hash must be 32-byte hex";
  let payload := AGREEMENT_ANCHOR_PREFIX +:+ aa_hash a +:+ ":" +:+ role_code (aa_role a)
                 +:+ from_option (fun m => ":" +:+ m) "" (aa_milestone a) in
  _ ← ensure (slen payload <=? 75) "agreement anchor payload too large";
  Ok (byte_string payload).

Definition build_agreement_anchor_output `{Hex} (a : AgreementAnchor) : res string TxOutput :=
  op_return <$> build_agreement_anchor_payload a.

Definition parse_agreement_anchor (script : bytes) : option AgreementAnchor :=
  payload ← op_return_text script;
  rest ← strip_prefix AGREEMENT_ANCHOR_PREFIX payload;
  match split_colon rest with
  | [h; r] => r ← role_of_code r; Some {| aa_hash := h; aa_role := r; aa_milestone := None |}
  | [h; r; m] => r ← role_of_code r; Some {| aa_hash := h; aa_role := r; aa_milestone := Some m |}
  | _ => None
  end.

(** ** Events about the parties *)
Inductive ReputationEventKind := SuccessfulTrade | DisputeWin | DisputeLoss | ResolverNonResponse.

Definition event_code (k : ReputationEventKind) : string :=
  match k with SuccessfulTrade => "s" | DisputeWin => "w" | DisputeLoss => "l" | ResolverNonResponse => "n" end.

Definition event_of_code (v : string) : option ReputationEventKind :=
  if String.eqb v "s" then Some SuccessfulTrade else if String.eqb v "w" then Some DisputeWin else
  if String.eqb v "l" then Some DisputeLoss else if String.eqb v "n" then Some ResolverNonResponse else None.

Definition carries_agreement_short_hash (k : ReputationEventKind) : bool :=
  match k with ResolverNonResponse => true | _ => false end.

Record ReputationEvent := { ev_kind : ReputationEventKind; ev_address : string; agreement_short_hash : option string }.

Definition short_hash_ok (h : string) : bool := (slen h =? 16) && all_chars is_hex_digit h.

Definition build_reputation_event_payload (e : ReputationEvent) : res string bytes :=
  _ ← ensure (negb (is_blank (ev_address e))) "reputation event address must not be empty";
  _ ← ensure (all_chars (fun c => negb (bool_decide (c = ":"%char))) (ev_address e))
        "reputation event address must not contain ':'";
  tail ← (if carries_agreement_short_hash (ev_kind e) then
            h ← ok_or (agreement_short_hash e) "ResolverNonResponse requires agreement_short_hash";
            _ ← ensure (short_hash_ok h) "agreement_short_hash must be 16 hex chars (8 bytes)";
            Ok (":" +:+ h)
          else
            _ ← ensure (negb (bool_decide (is_Some (agreement_short_hash e))))
                  "agreement_short_hash is only valid for ResolverNonResponse events";
            Ok "");
  let payload := REPUTATION_EVENT_PREFIX +:+ event_code (ev_kind e) +:+ ":" +:+ ev_address e +:+ tail in
  _ ← ensure (slen payload <=? 75) ("reputation event payload too large (" +:+ num (slen payload) +:+ " > 75 bytes)");
  Ok (byte_string payload).

Definition build_reputation_event_output (e : ReputationEvent) : res string TxOutput :=
  op_return <$> build_reputation_event_payload e.

Definition parse_reputation_event (script : bytes) : option ReputationEvent :=
  payload ← op_return_text script;
  rest ← strip_prefix REPUTATION_EVENT_PREFIX payload;
  match split_colon rest with
  | k :: addr :: parts =>
      k ← event_of_code k;
      if bool_decide (addr = EmptyString) then None else
      if carries_agreement_short_hash k then
        match parts with
        | [h] => if short_hash_ok h then Some {| ev_kind := k; ev_address := addr; agreement_short_hash := Some h |} else None
        | _ => None
        end
      else match parts with
           | [] => Some {| ev_kind := k; ev_address := addr; agreement_short_hash := None |}
           | _ => None
           end
  | _ => None
  end.

Definition agreement_short_hash_from_full (full : string) : res string string :=
  _ ← ensure ((slen full =? 64) && all_chars is_hex_digit full) "agreement hash must be 64 hex chars";
  Ok (String.substring 0 16 full).

(** ** Text in outputs *)
Definition no_colon (s : string) : bool := all_chars (fun c => negb (bool_decide (c = ":"%char))) s.

Lemma append_cons c s t : String c s +:+ t = String c (s +:+ t).
Proof. done. Qed.

Lemma slen_app s t : slen (s +:+ t) = slen s + slen t.
Proof. unfold slen. induction s as [|c s IH]; [done|]. rewrite append_cons. cbn [String.length] in *. lia. Qed.

Lemma len_byte_string s : len (byte_string s) = slen s.
Proof. unfold len, slen, byte_string. rewrite length_fmap. f_equal. induction s; cbn; congruence. Qed.

Lemma byte_string_app s t : byte_string (s +:+ t) = (byte_string s ++ byte_string t)%list.
Proof. unfold byte_string. rewrite <- fmap_app. f_equal. induction s as [|c s IH]; [done|].
  rewrite append_cons. cbn. by rewrite IH. Qed.

Lemma byte_string_cons c s : byte_string (String c s) = Z.of_N (N_of_ascii c) :: byte_string s.
Proof. done. Qed.

Lemma text_byte_string s : text (byte_string s) = s.
Proof. induction s as [|c s IH]; [done|]. rewrite byte_string_cons. cbn. by rewrite IH, N2Z.id, ascii_N_embedding. Qed.

(** The first character decides how many bytes belong to it. *)
Lemma utf8_app_n n : forall s t, (length s <= n)%nat -> utf8 s = true -> utf8 (s ++ t)%list = utf8 t.
Proof.
  induction n as [|n IH]; intros s t Hl Hs; (destruct s as [|a s]; [done|]); cbn [length] in Hl; [lia|].
  cbn [utf8 app] in *. destruct (a <=? 127); [apply IH; [lia|done]|].
  destruct s as [|b s]; [done|]. cbn [app length] in *. destruct (between 194 223 a).
  { apply andb_true_iff in Hs as [-> Hs]. apply IH; [lia|done]. }
  destruct s as [|c s]; [done|]. cbn [app length] in *.
  repeat (case_match; [apply andb_true_iff in Hs as [-> Hs]; apply IH; [lia|done]|]).
  destruct s as [|d s]; [done|]. cbn [app length] in *.
  repeat (case_match; [apply andb_true_iff in Hs as [-> Hs]; apply IH; [lia|done]|]). done.
Qed.

Lemma utf8_app s t : utf8 s = true -> utf8 t = true -> utf8 (s ++ t)%list = true.
Proof. intros Hs Ht. by rewrite (utf8_app_n (length s)). Qed.

Definition utf8_string (s : string) : bool := utf8 (byte_string s).

Lemma utf8_string_app s t : utf8_string s = true -> utf8_string t = true -> utf8_string (s +:+ t) = true.
Proof. unfold utf8_string. rewrite byte_string_app. apply utf8_app. Qed.

Lemma hex_digits_utf8 s : all_chars is_hex_digit s = true -> utf8_string s = true.
Proof.
  unfold utf8_string. induction s as [|c s IH]; [done|]. intros H. cbn [all_chars] in H. apply andb_true_iff in H as [Hc Hs].
  rewrite byte_string_cons. cbn [utf8]. unfold is_hex_digit in Hc. replace (_ <=? 127) with true by lia. by apply IH.
Qed.

Lemma hex_digits_no_colon s : all_chars is_hex_digit s = true -> no_colon s = true.
Proof.
  unfold no_colon. induction s as [|c s IH]; [done|]. cbn [all_chars]. intros H. apply andb_true_iff in H as [Hc Hs].
  rewrite IH by done. rewrite andb_true_r. by destruct (decide (c = ":"%char)) as [->|Hn]; [|rewrite bool_decide_false].
Qed.

Lemma split_no_colon s : no_colon s = true -> split_colon s = [s].
Proof.
  unfold no_colon. induction s as [|c s IH]; [done|]. cbn [all_chars split_colon]. intros H. apply andb_true_iff in H as [Hc Hs].
  destruct (bool_decide _); [done|]. by rewrite IH.
Qed.

Lemma split_at_colon s t : no_colon s = true -> split_colon (s +:+ String ":"%char t) = s :: split_colon t.
Proof.
  unfold no_colon. induction s as [|c s IH]; [done|]. intros H. cbn [all_chars] in H. apply andb_true_iff in H as [Hc Hs].
  rewrite append_cons. cbn [split_colon].
  destruct (bool_decide _); [done|]. by rewrite IH.
Qed.

Lemma split_with_colon s : no_colon s = false -> (2 <= length (split_colon s))%nat.
Proof.
  unfold no_colon. assert (forall s, (1 <= length (split_colon s))%nat) as H1.
  { intros t. destruct t as [|c t]; cbn; [lia|]. destruct (bool_decide _); cbn; [lia|]. destruct (split_colon t); cbn; lia. }
  induction s as [|c s IH]; [done|]. cbn [all_chars split_colon]. destruct (bool_decide _); cbn [negb andb length].
  - intros _. specialize (H1 s). lia.
  - intros H. specialize (IH H). destruct (split_colon s); cbn in *; lia.
Qed.

Lemma strip_prefix_app p s : strip_prefix p (p +:+ s) = Some s.
Proof. induction p as [|c p IH]; [done|]. rewrite append_cons. cbn. by rewrite bool_decide_true. Qed.

Lemma op_return_text_of s : slen s <= 75 -> utf8_string s = true -> op_return_text (script_pubkey (op_return (byte_string s))) = Some s.
Proof.
  intros Hl Hu. unfold op_return, op_return_text. cbn [script_pubkey app]. rewrite Z.eqb_refl. cbn [negb].
  pose proof (len_nonneg (byte_string s)). rewrite len_byte_string in *. rewrite as_u8_small by (unfold u8; lia).
  rewrite !len_cons, len_byte_string. replace (_ =? _) with true by lia. cbn [negb].
  unfold from_utf8. unfold utf8_string in Hu. by rewrite Hu, text_byte_string.
Qed.

Lemma role_of_code_code r : role_of_code (role_code r) = Some r.
Proof. by destruct r. Qed.
Lemma role_code_text r : no_colon (role_code r) = true /\ utf8_string (role_code r) = true.
Proof. by destruct r. Qed.
Lemma event_of_code_code k : event_of_code (event_code k) = Some k.
Proof. by destruct k. Qed.
Lemma event_code_text k : no_colon (event_code k) = true /\ utf8_string (event_code k) = true.
Proof. by destruct k. Qed.

(** ** Valid agreements *)
Section valid.
Context `{Hex}.

Lemma parties_distinct ps : forall seen seen', fold_res validate_party seen ps = Ok seen' ->
  NoDup (party_id <$> ps) /\ Forall (fun p => party_id p ∉ seen) ps.
Proof.
  induction ps as [|p ps IH]; intros seen seen' Hf; cbn [fold_res] in Hf; [split; constructor|].
  destruct (validate_party seen p) as [s1| |] eqn:Hp; [|discriminate Hf..]. cbn [mbind res_bind] in Hf.
  unfold validate_party in Hp. repeat accepted_step Hp. injection Hp as <-.
  match goal with Hx : bool_decide _ = true |- _ => apply bool_decide_eq_true in Hx end.
  apply IH in Hf as [Hn Hs]. rewrite Forall_forall in Hs. rewrite fmap_cons. split.
  - apply NoDup_cons. split; [|done]. intros (q & He & Hq)%list_elem_of_fmap. specialize (Hs q Hq). set_solver.
  - constructor; [done|]. apply Forall_forall. intros q Hq. specialize (Hs q Hq). set_solver.
Qed.

Lemma milestones_distinct ms : forall seen seen', fold_res validate_milestone seen ms = Ok seen' ->
  NoDup (milestone_id <$> ms) /\ Forall (fun m => milestone_id m ∉ seen /\ amount m <> 0) ms.
Proof.
  induction ms as [|m ms IH]; intros seen seen' Hf; cbn [fold_res] in Hf; [split; constructor|].
  destruct (validate_milestone seen m) as [s1| |] eqn:Hp; [|discriminate Hf..]. cbn [mbind res_bind] in Hf.
  unfold validate_milestone in Hp. repeat accepted_step Hp. injection Hp as <-.
  match goal with Hx : bool_decide (_ ∉ _) = true |- _ => apply bool_decide_eq_true in Hx end.
  apply IH in Hf as [Hn Hs]. rewrite Forall_forall in Hs. rewrite fmap_cons. split.
  - apply NoDup_cons. split; [|done]. intros (q & He & Hq)%list_elem_of_fmap. specialize (Hs q Hq). set_solver.
  - constructor; [split; [done|lia]|]. apply Forall_forall. intros q Hq. specialize (Hs q Hq). set_solver.
Qed.

Lemma sum_amounts_wraps ms : exists k, sum_amounts ms = foldr Z.add 0 (amount <$> ms) + k * 2 ^ 64.
Proof.
  assert (forall acc, exists k, foldl (fun s m => wadd64 s (amount m)) acc ms = acc + foldr Z.add 0 (amount <$> ms) + k * 2 ^ 64) as Hg;
    [|destruct (Hg 0) as [k Hk]; exists k; unfold sum_amounts; lia].
  induction ms as [|m ms IH]; intros acc; cbn [foldl fmap list_fmap foldr]; [exists 0; lia|].
  destruct (IH (wadd64 acc (amount m))) as [k ->]. unfold wadd64. exists (k - (acc + amount m) / 2 ^ 64).
  pose proof (Z.div_mod (acc + amount m) (2 ^ 64) ltac:(lia)). lia.
Qed.

Lemma milestones_sum a : u64 (total_amount a) -> validate_milestone_sum a = Ok tt -> milestones a <> [] ->
  foldr Z.add 0 (amount <$> milestones a) mod 2 ^ 64 = total_amount a.
Proof.
  intros Ht Hv Hn. assert (sum_amounts (milestones a) = total_amount a) as He.
  { assert (bool_decide (length (milestones a) = 0%nat) = false) as Hb
      by (apply bool_decide_eq_false; by destruct (milestones a)).
    unfold validate_milestone_sum in Hv. rewrite Hb in Hv.
    destruct (template_type a); cbn [negb ensure mbind res_bind] in Hv; apply ensure_ok in Hv; lia. }
  destruct (sum_amounts_wraps (milestones a)) as [k Hk]. unfold u64 in Ht.
  replace (foldr _ _ _) with (total_amount a + (- k) * 2 ^ 64) by lia. rewrite Z_mod_plus_full. apply Z.mod_small. lia.
Qed.

Lemma fees_leave a : u64 (total_amount a) -> total_amount a <> 0 ->
  from_option u64 True (primary_resolver_fee a) -> from_option u64 True (fallback_resolver_fee a) ->
  validate_primary a = Ok tt -> validate_fallback a = Ok tt ->
  default 0 (primary_resolver_fee a) + default 0 (fallback_resolver_fee a) < total_amount a.
Proof.
  unfold validate_primary, validate_fallback, u64. intros Ht Hn Hf1 Hf2 Hp Hf.
  destruct (primary_resolver a) as [pa|]; destruct (primary_resolver_fee a) as [pf|];
    destruct (fallback_resolver a) as [fa|]; destruct (fallback_resolver_fee a) as [ff|]; cbn in Hf1, Hf2;
    repeat accepted_step Hp; repeat accepted_step Hf; try discriminate Hp; try discriminate Hf; cbn [default id]; try lia.
  all: simplify_eq; apply ensure_ok in Hf; unfold sat_add64, U64_MAX in Hf; cbn [default id] in Hf; lia.
Qed.
End valid.

(** ** Theorems *)

(** A valid agreement makes sense: the payer and the payee are different
    parties of it, all parties and milestones have names of their own, no
    milestone is worth nothing, the milestones add up to the total, but only
    modulo 2^64, and the resolvers' fees leave something over. *)
Theorem agreement_well_formed `{Hex} a : u64 (total_amount a) ->
  from_option u64 True (primary_resolver_fee a) -> from_option u64 True (fallback_resolver_fee a) ->
  validate_agreement a = Ok tt ->
  (payer a <> payee a /\ payer a ∈ party_id <$> parties a /\ payee a ∈ party_id <$> parties a) /\
  NoDup (party_id <$> parties a) /\ NoDup (milestone_id <$> milestones a) /\
  Forall (fun m => amount m <> 0) (milestones a) /\
  (milestones a <> [] -> foldr Z.add 0 (amount <$> milestones a) mod 2 ^ 64 = total_amount a) /\
  default 0 (primary_resolver_fee a) + default 0 (fallback_resolver_fee a) < total_amount a.
Proof.
  intros Ht Hf1 Hf2 Hv. unfold validate_agreement in Hv. repeat accepted_step Hv.
  repeat match goal with Hx : _ = Ok ?u |- _ => is_var u; destruct u end.
  split_and!; [by apply negb_true_iff, bool_decide_eq_false in Heqb4 | by apply bool_decide_eq_true in Heqb5
    | by apply bool_decide_eq_true in Heqb6 | by eapply parties_distinct | by eapply milestones_distinct | | |].
  - eapply milestones_distinct in Heqr13 as [_ Hm]. eapply Forall_impl; [exact Hm|]. by intros m [_ ?].
  - by apply milestones_sum.
  - apply fees_leave; (done || lia).
Qed.

Lemma anchor_read_back {H : Hex} {HL : HexLaws H} a out :
  from_option (fun m => utf8_string m = true) True (aa_milestone a) -> build_agreement_anchor_output a = Ok out ->
  parse_agreement_anchor (script_pubkey out) =
    if from_option no_colon true (aa_milestone a) then Some a else None.
Proof.
  intros Hu Hb. unfold build_agreement_anchor_output, build_agreement_anchor_payload in Hb.
  destruct (is_hex32 (aa_hash a)) eqn:Hh; [|discriminate Hb]. cbn [ensure mbind res_bind] in Hb. set (payload := _ +:+ _) in Hb.
  destruct (slen payload <=? 75) eqn:Hl; [|discriminate Hb]. injection Hb as <-.
  unfold is_hex32 in Hh. apply andb_true_iff in Hh as [_ Hh]. apply bool_decide_eq_true in Hh as [b Hh].
  apply hex_decode_digits in Hh. destruct (role_code_text (aa_role a)) as [Hc Hcu].
  unfold parse_agreement_anchor. rewrite op_return_text_of; [|lia|].
  2:{ unfold payload. repeat apply utf8_string_app; [done | by apply hex_digits_utf8 | done | done |].
      destruct (aa_milestone a); [|done]. cbn [from_option] in *. by apply utf8_string_app. }
  cbn [mbind option_bind]. unfold payload. rewrite strip_prefix_app. cbn [mbind option_bind].
  rewrite (append_cons ":"), split_at_colon by by apply hex_digits_no_colon.
  destruct a as [h r [m|]]; cbn [aa_hash aa_role aa_milestone from_option] in *.
  - change ("" +:+ ?s) with s. rewrite (append_cons ":" "" m). change ("" +:+ m) with m. rewrite split_at_colon by done.
    destruct (no_colon m) eqn:Hm; [by rewrite split_no_colon, role_of_code_code|].
    apply split_with_colon in Hm. destruct (split_colon m) as [|x [|y l]]; cbn in Hm; [lia..|done].
  - destruct r; reflexivity.
Qed.

(** An anchor travels: what the builder makes of it is read back as it was
    written when its milestone has no colon, and is not read at all when it has
    one, though the builder accepts it. *)
Theorem agreement_anchor_roundtrip {H : Hex} {HL : HexLaws H} a out :
  from_option (fun m => utf8_string m = true) True (aa_milestone a) -> build_agreement_anchor_output a = Ok out ->
  parse_agreement_anchor (script_pubkey out) =
    if from_option no_colon true (aa_milestone a) then Some a else None.
Proof. apply anchor_read_back. Qed.

(** An event travels: what the builder makes of it is read back as it was
    written. *)
Theorem reputation_event_roundtrip e out :
  utf8_string (ev_address e) = true -> build_reputation_event_output e = Ok out ->
  parse_reputation_event (script_pubkey out) = Some e.
Proof.
  intros Hu Hb. unfold build_reputation_event_output, build_reputation_event_payload in Hb.
  destruct (is_blank (ev_address e)) eqn:Hbl; [discriminate Hb|]. cbn [negb ensure mbind res_bind] in Hb.
  destruct (all_chars _ (ev_address e)) eqn:Hnc in Hb; [|discriminate Hb]. cbn [ensure mbind res_bind] in Hb.
  destruct (event_code_text (ev_kind e)) as [Hc Hcu].
  assert (ev_address e <> EmptyString) as Hne by (intros He; by rewrite He in Hbl).
  destruct e as [k addr oh]; cbn [ev_kind ev_address agreement_short_hash] in *.
  assert (exists tail, ((k = ResolverNonResponse /\ exists h, oh = Some h /\ short_hash_ok h = true /\ tail = String ":" h) \/
      (k <> ResolverNonResponse /\ oh = None /\ tail = "")) /\ slen (REPUTATION_EVENT_PREFIX +:+ event_code k +:+ ":" +:+ addr +:+ tail) <= 75 /\
      out = op_return (byte_string (REPUTATION_EVENT_PREFIX +:+ event_code k +:+ ":" +:+ addr +:+ tail)))
    as (tail & Ht & Hl & ->).
  { destruct (carries_agreement_short_hash k) eqn:Hk.
    - destruct oh as [h|]; [|discriminate Hb]. cbn [ok_or mbind res_bind] in Hb.
      destruct (short_hash_ok h) eqn:Hh; [|discriminate Hb]. cbn [ensure mbind res_bind] in Hb.
      destruct (slen _ <=? 75) eqn:Hl in Hb; [|discriminate Hb]. injection Hb as <-. exists (String ":" h).
      split; [|split; [by apply Z.leb_le | done]]. left. split; [by destruct k | by eauto].
    - destruct oh as [h|]; [discriminate Hb|]. cbn [ensure mbind res_bind negb] in Hb.
      rewrite bool_decide_false in Hb by (by intros []). cbn [negb ensure mbind res_bind] in Hb.
      destruct (slen _ <=? 75) eqn:Hl in Hb; [|discriminate Hb]. injection Hb as <-. exists "".
      split; [|split; [by apply Z.leb_le | done]]. right. by destruct k. }
  unfold parse_reputation_event. rewrite op_return_text_of; [|done|].
  2:{ repeat apply utf8_string_app; try done. destruct Ht as [(_ & h & _ & Hh & ->) | (_ & _ & ->)]; [|done].
      apply (utf8_string_app ":"); [done|]. apply hex_digits_utf8. unfold short_hash_ok in Hh. by apply andb_true_iff in Hh as [_ ?]. }
  cbn [mbind option_bind]. rewrite strip_prefix_app. cbn [mbind option_bind].
  rewrite (append_cons ":"), split_at_colon by done. change ("" +:+ ?s) with s.
  destruct Ht as [(-> & h & -> & Hh & ->) | (Hk & -> & ->)].
  - rewrite split_at_colon by done. rewrite split_no_colon.
    + rewrite event_of_code_code. cbn [mbind option_bind]. rewrite bool_decide_false by done.
      cbn [carries_agreement_short_hash]. by rewrite Hh.
    + unfold short_hash_ok in Hh. apply andb_true_iff in Hh as [_ Hh]. by apply hex_digits_no_colon.
  - assert (addr +:+ "" = addr) as -> by (clear; induction addr as [|c s IH]; [done|]; rewrite append_cons; by rewrite IH).
    rewrite split_no_colon, event_of_code_code by done. cbn [mbind option_bind]. rewrite bool_decide_false by done.
    by destruct k.
Qed.

(** ** Hexadecimal digits, for the examples *)
Definition hex_digit (n : Z) : ascii := ascii_of_N (Z.to_N (if n <? 10 then 48 + n else 87 + n)).
Definition digit_of (c : ascii) : option Z :=
  let n := Z.of_N (N_of_ascii c) in
  if (48 <=? n) && (n <=? 57) then Some (n - 48) else
  if (65 <=? n) && (n <=? 70) then Some (n - 55) else
  if (97 <=? n) && (n <=? 102) then Some (n - 87) else None.
Definition plain_encode (b : bytes) : string :=
  foldr (fun x s => String (hex_digit (x / 16)) (String (hex_digit (x mod 16)) s)) EmptyString b.
Fixpoint plain_decode (s : string) : option bytes :=
  match s with
  | EmptyString => Some []
  | String c (String d s) => x ← digit_of c; y ← digit_of d; b ← plain_decode s; Some (16 * x + y :: b)
  | String _ EmptyString => None
  end.
Definition plain_hex : Hex := {| hex_encode := plain_encode; hex_decode := plain_decode |}.

Lemma digit_of_digit n : 0 <= n < 16 -> digit_of (hex_digit n) = Some n.
Proof.
  intros Hn. assert (n ∈ seqZ 0 16) as Hin by (by apply elem_of_seqZ). revert n Hn Hin.
  assert (Forall (fun n => digit_of (hex_digit n) = Some n) (seqZ 0 16)) as Hf by decided.
  rewrite Forall_forall in Hf. intros n _ Hin. by apply Hf.
Qed.

Lemma digit_of_is_digit c x : digit_of c = Some x -> is_hex_digit c = true.
Proof. unfold digit_of, is_hex_digit. repeat case_match; intros; try done; lia. Qed.

Lemma digit_of_range c x : digit_of c = Some x -> 0 <= x < 16.
Proof. unfold digit_of. repeat case_match; intros [= <-]; lia. Qed.

#[export] Instance plain_hex_laws : HexLaws plain_hex.
Proof.
  split; cbn [hex_encode hex_decode plain_hex].
  - induction b as [|x b IH]; [done|]. intros [Hx Hb]%Forall_cons. cbn. unfold u8 in Hx.
    pose proof (Z.div_mod x 16 ltac:(lia)). pose proof (Z.mod_pos_bound x 16 ltac:(lia)).
    rewrite !digit_of_digit by (lia || (split; [apply Z.div_pos; lia | apply Z.div_lt_upper_bound; lia])).
    cbn [mbind option_bind]. fold (plain_encode b). rewrite IH by done. cbn [mbind option_bind]. do 2 f_equal. lia.
  - induction b as [|x b IH]; [done|]. cbn. fold (plain_encode b). rewrite IH. lia.
  - fix IH 1. intros [|c [|d s]] b; [done..|]. cbn [plain_decode]. intros Hd.
    destruct (digit_of c) as [x|] eqn:Hc; [|discriminate Hd]. destruct (digit_of d) as [y|] eqn:Hy; [|discriminate Hd].
    destruct (plain_decode s) as [b'|] eqn:Hs; [|discriminate Hd]. cbn [all_chars].
    by rewrite (digit_of_is_digit c x Hc), (digit_of_is_digit d y Hy), (IH s b' Hs).
  - fix IH 1. intros [|c [|d s]] b; cbn [plain_decode]; [intros [= <-]; split; [constructor|done] | done |]. intros Hd.
    destruct (digit_of c) as [x|] eqn:Hc; [|discriminate Hd]. destruct (digit_of d) as [y|] eqn:Hy; [|discriminate Hd].
    destruct (plain_decode s) as [b'|] eqn:Hs; [|discriminate Hd]. injection Hd as <-. destruct (IH s b' Hs) as [Hw Hl].
    split; [constructor; [|done] | cbn; lia]. apply digit_of_range in Hc, Hy. unfold u8. lia.
Qed.

Definition zero_hash : string := plain_encode (zeros 32).
Definition sample_milestone (id : string) (v : Z) : AgreementMilestone :=
  {| milestone_id := id; title := "part"; amount := v; recipient_address := "bob"; refund_address := "alice";
     secret_hash_hex := zero_hash; timeout_height := 100; ms_metadata_hash := None |}.
Definition sample_party (id : string) : AgreementParty :=
  {| party_id := id; display_name := id; address := id; ap_role := None |}.

(** Two milestones, for a total. *)
Definition sample_agreement (v w total : Z) : AgreementObject :=
  {| agreement_id := "trade"; ag_version := 1; ag_schema_id := None; template_type := MilestoneSettlement;
     parties := [sample_party "alice"; sample_party "bob"]; payer := "alice"; payee := "bob"; mediator_reference := None;
     total_amount := total; network_marker := "IRIUM"; creation_time := 0;
     deadlines := {| settlement_deadline := None; refund_deadline := None; dispute_window := None |};
     release_conditions := [{| mode := "proof"; rel_secret_hash_hex := None; release_authorizer := None; rel_notes := None |}];
     refund_conditions := [{| rc_refund_address := "alice"; rc_timeout_height := 100; rc_notes := None |}];
     milestones := [sample_milestone "first" v; sample_milestone "second" w]; deposit_rule := None;
     proof_policy_reference := None; asset_reference := None; payment_reference := None; purpose_reference := None;
     release_summary := None; refund_summary := None; attestor_reference := None; resolver_reference := None;
     ag_notes := None; document_hash := zero_hash; metadata_hash := None; invoice_reference := None;
     external_reference := None; disputed_metadata_only := false; primary_resolver := Some "carol";
     fallback_resolver := None; primary_resolver_fee := Some 1; fallback_resolver_fee := None |}.

Lemma agreement_well_formed_witness :
  foldr Z.add 0 (amount <$> milestones (sample_agreement 30 70 100)) mod 2 ^ 64 = 100.
Proof.
  assert (u64 100) as Ht by (split; lia). assert (u64 1) as H1 by (split; lia).
  assert (validate_agreement (H := plain_hex) (sample_agreement 30 70 100) = Ok tt) as Hv by (vm_compute; reflexivity).
  apply (agreement_well_formed (H := plain_hex) (sample_agreement 30 70 100) Ht H1 I Hv). discriminate.
Defined.

(** A milestone may be worth more than the whole agreement. *)
Example milestone_above_total :
  validate_agreement (H := plain_hex) (sample_agreement U64_MAX 3 2) = Ok tt /\
  total_amount (sample_agreement U64_MAX 3 2) < amount (sample_milestone "first" U64_MAX).
Proof. split; [by vm_compute | done]. Qed.

Definition sample_anchor (m : string) : AgreementAnchor := {| aa_hash := zero_hash; aa_role := RMilestoneRelease; aa_milestone := Some m |}.
Definition anchor_output (a : AgreementAnchor) : TxOutput :=
  match build_agreement_anchor_output (H := plain_hex) a with Ok out => out | _ => op_return [] end.

Lemma agreement_anchor_roundtrip_witness :
  parse_agreement_anchor (script_pubkey (anchor_output (sample_anchor "m1"))) = Some (sample_anchor "m1") /\
  parse_agreement_anchor (script_pubkey (anchor_output (sample_anchor "a:b"))) = None.
Proof.
  split; (match goal with |- parse_agreement_anchor (script_pubkey (anchor_output ?a)) = _ =>
    exact (agreement_anchor_roundtrip (HL := plain_hex_laws) a (anchor_output a) eq_refl eq_refl) end).
Defined.

Definition sample_event : ReputationEvent :=
  {| ev_kind := ResolverNonResponse; ev_address := "Qcarol"; agreement_short_hash := Some "0123456789abcdef" |}.

Lemma reputation_event_roundtrip_witness :
  match build_reputation_event_output sample_event with
  | Ok out => parse_reputation_event (script_pubkey out) = Some sample_event
  | _ => False
  end.
Proof. exact (reputation_event_roundtrip sample_event _ eq_refl eq_refl). Defined.
