(* ===== verification/Settlement.v ===== *)
(** * Settlement: who is paid when
    ([src/src/settlement.rs], lines 4222 to 4462 and 4484 to 5740)

    A policy says which proofs release the money of an agreement to the payee,
    from which attestors and how many of them, and what happens at which height
    when they do not come: the money goes back, or out.  [evaluate_policy] judges
    the proofs at hand.  The node keeps the proofs it was sent ([ProofStore]) and
    a policy for each agreement ([PolicyStore]).

    A [HashMap] is a [gmap].  The files behind the stores are left out: a failed
    write is only logged.  [str::to_lowercase] is taken on ASCII letters; what it
    is applied to are hexadecimal hashes.

    Shown here: release and refund exclude each other; a release is earned by
    enough distinct attestors, for good; a refund that is due stays due; the
    stores keep what was checked.  Shown too where the code goes wrong: a proof
    is known by its identifier alone, and its time is compared with a height. *)

From Stdlib Require Import Ascii.
From stdpp Require Import sorting pretty.
From S2P Require Import Prelude Crypto TxCodec Activation Anchors Agreement.

Open Scope string_scope.
Open Scope list_scope.
Open Scope Z_scope.

(** ** Data *)
Definition SETTLEMENT_PROOF_SCHEMA_ID : string := "irium.phase2.settlement_proof.v1".

Inductive ProofResolution := Release | Refund | MilestoneRelease.
Inductive NoResponseTrigger := FundedAndNoRelease | DisputedAndNoResponse.
Inductive HoldbackOutcome := Pending | Held | Released.
Inductive PolicyOutcome := Satisfied | Timeout | Unsatisfied.
#[export] Instance ProofResolution_eq_dec : EqDecision ProofResolution.
Proof. solve_decision. Defined.
#[export] Instance PolicyOutcome_eq_dec : EqDecision PolicyOutcome.
Proof. solve_decision. Defined.

Record NoResponseRule := {
  rule_id : string; rule_deadline : Z; rule_trigger : NoResponseTrigger; rule_resolution : ProofResolution;
  rule_milestone : option string; rule_notes : option string
}.
Record ApprovedAttestor := {
  attestor_id : string; att_pubkey_hex : string; att_display_name : option string; att_domain : option string
}.
Record ProofRequirement := {
  requirement_id : string; req_proof_type : string; required_by : option Z; required_attestor_ids : list string;
  resolution : ProofResolution; req_milestone : option string; req_threshold : option Z
}.
Record PolicyHoldback := { holdback_bps : Z; release_requirement_id : option string; hb_deadline : option Z }.
Record PolicyMilestone := { pm_id : string; pm_label : option string; pm_holdback : option PolicyHoldback }.
Record ProofPolicy := {
  policy_id : string; pol_schema_id : string; pol_agreement_hash : string; required_proofs : list ProofRequirement;
  no_response_rules : list NoResponseRule; attestors : list ApprovedAttestor; pol_notes : option string;
  pol_expires_at_height : option Z; pol_milestones : list PolicyMilestone; pol_holdback : option PolicyHoldback
}.

(** JSON values of [serde_json], as far as the code looks into them. *)
Class Json := {
  Value : Type;
  as_object : Value -> option (gmap string Value);
  is_null : Value -> bool
}.

Record TypedProofPayload `{Json} := {
  proof_kind : string; content_hash : option string; reference_id : option string; attributes : option Value
}.
Record ProofSignatureEnvelope := {
  signature_type : string; pubkey_hex : string; signature_hex : string; payload_hash : string
}.
(** The fields that are signed. *)
Record SignedFields := {
  proof_id : string; schema_id : string; proof_type : string; agreement_hash : string; sp_milestone : option string;
  attested_by : string; attestation_time : Z; evidence_hash : option string; evidence_summary : option string
}.
Record SettlementProof `{Json} := {
  signed :> SignedFields; signature : ProofSignatureEnvelope; expires_at_height : option Z;
  typed_payload : option TypedProofPayload
}.
(** [settlement_proof_payload_bytes]: [json!] of those fields, with sorted keys. *)
Class ProofJson := { settlement_proof_payload_bytes : SignedFields -> res string bytes }.

Record RequirementThresholdResult := {
  thr_requirement_id : string; threshold_required : Z; approved_attestor_count : Z; matched_attestor_ids : list string;
  threshold_satisfied : bool
}.
Record HoldbackEvaluationResult := {
  holdback_present : bool; holdback_released : bool; he_holdback_bps : Z; immediate_release_bps : Z;
  holdback_outcome : HoldbackOutcome; holdback_reason : string; he_deadline_height : option Z
}.
Record MilestoneEvaluationResult := {
  mr_id : string; mr_label : option string; mr_outcome : PolicyOutcome; mr_release_eligible : bool;
  mr_refund_eligible : bool; mr_matched_proof_ids : list string; mr_reason : string;
  mr_holdback : option HoldbackEvaluationResult; mr_threshold_results : list RequirementThresholdResult
}.
Record PolicyEvaluationResult := {
  outcome : PolicyOutcome; release_eligible : bool; refund_eligible : bool; reason : string;
  evaluated_rules : list string; matched_proof_ids : list string; milestone_results : list MilestoneEvaluationResult;
  completed_milestone_count : Z; total_milestone_count : Z; holdback : option HoldbackEvaluationResult;
  threshold_results : list RequirementThresholdResult
}.

(** ** Checking a proof *)
Section proofs.
Context `{C : Crypto} `{Hex} `{Json} `{ProofJson}.

Definition is_lower_hex (c : ascii) : bool := is_hex_digit c && negb (let n := Z.of_N (N_of_ascii c) in (65 <=? n) && (n <=? 90)).

Definition validate_typed_proof_payload (p : TypedProofPayload) (evidence : option string) : res string unit :=
  _ ← ensure (negb (is_blank (proof_kind p))) "typed_payload.proof_kind must not be empty";
  _ ← match content_hash p with
      | None => Ok tt
      | Some ch =>
          _ ← ensure ((slen ch =? 64) && all_chars is_lower_hex ch)
                ("typed_payload.content_hash must be 64 lowercase hex chars, got: " +:+ ch);
          match evidence with
          | None => Ok tt
          | Some eh => ensure (bool_decide (ch = eh))
                         ("typed_payload.content_hash " +:+ ch +:+ " does not match proof evidence_hash " +:+ eh)
          end
      end;
  match attributes p with
  | None => Ok tt
  | Some a => ensure (bool_decide (is_Some (as_object a))) "typed_payload.attributes must be a JSON object"
  end.

Definition STANDARD_PROOF_SCHEMAS : list (string * list string) :=
  [("payment_received", ["payment_method"; "payment_reference"; "amount"; "currency"; "timestamp"]);
   ("delivery_confirmed", ["delivery_method"; "tracking_reference"; "delivery_address_hash"; "timestamp"]);
   ("work_completed", ["deliverable_hash"; "completion_notes"; "timestamp"]);
   ("milestone_delivered", ["milestone_id"; "deliverable_hash"; "completion_notes"; "timestamp"]);
   ("deposit_conditions_met", ["condition_description"; "evidence_hash"; "timestamp"])].

Definition lookup_proof_schema (t : string) : option (string * list string) :=
  snd <$> list_find (fun s => s.1 = t) STANDARD_PROOF_SCHEMAS.

(** [Vec<&str>::join(", ")] *)
Fixpoint join (l : list string) : string :=
  match l with
  | [] => ""
  | [s] => s
  | s :: l => s +:+ ", " +:+ join l
  end.

Definition field_missing (obj : gmap string Value) (field : string) : bool :=
  match obj !! field with None => true | Some v => is_null v end.

Definition validate_proof_against_schema (p : SettlementProof) : res string unit :=
  match lookup_proof_schema (proof_type p) with
  | None => Ok tt
  | Some (t, fields) =>
      tp ← ok_or (typed_payload p) ("proof_type '" +:+ t +:+ "' requires typed_payload with attributes: [" +:+ join fields +:+ "]");
      attrs ← ok_or (attributes tp) ("proof_type '" +:+ t
        +:+ "' requires typed_payload.attributes (got None); required: [" +:+ join fields +:+ "]");
      obj ← ok_or (as_object attrs) ("proof_type '" +:+ t +:+ "': typed_payload.attributes must be a JSON object");
      let missing := List.filter (field_missing obj) fields in
      ensure (bool_decide (missing = []))
        ("proof_type '" +:+ t +:+ "' missing required field(s): [" +:+ join missing +:+ "]")
  end.

(** The signature over the signed fields, under the key in the envelope. *)
Definition verify_signature (p : SettlementProof) : res string unit :=
  payload ← settlement_proof_payload_bytes p;
  pk ← ok_or (hex_decode (pubkey_hex (signature p))) "pubkey_hex must be hex-encoded SEC1 bytes";
  vk ← ok_or (VerifyingKey_from_sec1_bytes pk) "pubkey_hex must be a valid secp256k1 SEC1 public key";
  sg ← ok_or (hex_decode (signature_hex (signature p))) "signature_hex must be 64-byte hex";
  parsed ← ok_or (Signature_from_slice sg) "signature_hex must be valid compact secp256k1 bytes";
  ensure (verify_prehash vk (sha256 payload) parsed) "proof signature verification failed".

Definition check_signature_type (p : SettlementProof) : res string unit :=
  ensure (bool_decide (signature_type (signature p) = AGREEMENT_SIGNATURE_TYPE_SECP256K1))
    ("unsupported signature type: " +:+ signature_type (signature p)).

Definition approved (policy : ProofPolicy) (p : SettlementProof) : bool :=
  existsb (fun a => bool_decide (attestor_id a = attested_by p) && bool_decide (att_pubkey_hex a = pubkey_hex (signature p)))
    (attestors policy).

Definition verify_settlement_proof (p : SettlementProof) (policy : ProofPolicy) : res string unit :=
  _ ← check_signature_type p;
  _ ← ensure (approved policy p) ("attestor '" +:+ attested_by p +:+ "' is not approved in this policy");
  verify_signature p.

Definition verify_settlement_proof_signature_only (p : SettlementProof) : res string unit :=
  _ ← check_signature_type p;
  _ ← ensure (negb (is_blank (proof_id p))) "proof_id must not be empty";
  _ ← ensure (negb (is_blank (agreement_hash p))) "agreement_hash must not be empty";
  verify_signature p.
End proofs.

(** ** Requirements *)
Section requirements.
Context `{Json}.

(** Does the proof count towards the requirement? [satisfied] are the
    identifiers of the proofs that passed. *)
Definition milestone_fits (req : ProofRequirement) (p : SettlementProof) : bool :=
  bool_decide (sp_milestone p = None) || bool_decide (req_milestone req = None)
  || bool_decide (req_milestone req = sp_milestone p).
Definition proof_counts (req : ProofRequirement) (satisfied : list string) (p : SettlementProof) : bool :=
  bool_decide (proof_id p ∈ satisfied) && bool_decide (proof_type p = req_proof_type req)
  && bool_decide (attested_by p ∈ required_attestor_ids req) && milestone_fits req p.

(** The loop that stops at the threshold. *)
Fixpoint reaches (threshold : Z) (req : ProofRequirement) (satisfied : list string) (seen : gset string)
    (proofs : list SettlementProof) : bool :=
  match proofs with
  | [] => false
  | p :: proofs =>
      if proof_counts req satisfied p then
        let seen := {[attested_by p]} ∪ seen in
        if threshold <=? Z.of_nat (size seen) then true else reaches threshold req satisfied seen proofs
      else reaches threshold req satisfied seen proofs
  end.

Definition req_satisfied_threshold (req : ProofRequirement) (proofs : list SettlementProof) (satisfied : list string) : bool :=
  let threshold := Z.max (default 1 (req_threshold req)) 1 in
  if threshold =? 1 then existsb (proof_counts req satisfied) proofs else reaches threshold req satisfied ∅ proofs.

(** The distinct attestors of the proofs that count, in order. *)
Fixpoint counting_attestors (req : ProofRequirement) (satisfied : list string) (seen : gset string)
    (proofs : list SettlementProof) : list string :=
  match proofs with
  | [] => []
  | p :: proofs =>
      if proof_counts req satisfied p && bool_decide (attested_by p ∉ seen)
      then attested_by p :: counting_attestors req satisfied ({[attested_by p]} ∪ seen) proofs
      else counting_attestors req satisfied seen proofs
  end.

Definition build_threshold_result (proofs : list SettlementProof) (satisfied : list string) (req : ProofRequirement)
    : option RequirementThresholdResult :=
  t ← req_threshold req;
  let threshold := Z.max t 1 in
  let ids := counting_attestors req satisfied ∅ proofs in
  Some {| thr_requirement_id := requirement_id req; threshold_required := as_u32 threshold;
          approved_attestor_count := len ids; matched_attestor_ids := ids; threshold_satisfied := threshold <=? len ids |}.

(** ** Deadlines *)
Definition is_release (r : ProofResolution) : bool := match r with Refund => false | _ => true end.

(** [Iterator::min] *)
Definition minimum (l : list Z) : option Z :=
  match l with [] => None | x :: l => Some (foldl Z.min x l) end.

Definition refund_cutoff (rules : list NoResponseRule) : option Z :=
  minimum (rule_deadline <$> List.filter (fun r => negb (is_release (rule_resolution r))) rules).

(** The proofs that came before the money was due back. *)
Definition timely (cutoff : option Z) (proofs : list SettlementProof) (satisfied : list string) : list string :=
  match cutoff with
  | None => satisfied
  | Some cutoff =>
      List.filter (fun id => existsb (fun p : SettlementProof => bool_decide (proof_id p = id) && (attestation_time p <=? cutoff)) proofs) satisfied
  end.

Definition all_met (reqs : list ProofRequirement) (proofs : list SettlementProof) (satisfied : list string) : bool :=
  negb (bool_decide (length reqs = 0%nat)) && forallb (fun r => req_satisfied_threshold r proofs satisfied) reqs.

Definition trigger_label (t : NoResponseTrigger) : string :=
  match t with FundedAndNoRelease => "funded_and_no_release" | DisputedAndNoResponse => "disputed_and_no_response" end.

Definition rule_label (r : NoResponseRule) (tip : Z) : string :=
  "no_response_rule '" +:+ rule_id r +:+ "' deadline " +:+ num (rule_deadline r) +:+ " reached at tip " +:+ num tip
  +:+ " trigger " +:+ trigger_label (rule_trigger r).

Definition missed_label (req : ProofRequirement) (deadline tip : Z) : string :=
  "requirement '" +:+ requirement_id req +:+ "' refund deadline " +:+ num deadline +:+ " reached at tip " +:+ num tip
  +:+ " with no satisfying proof".

(** The first rule whose deadline has come. *)
Definition fired (rules : list NoResponseRule) (tip : Z) : option NoResponseRule :=
  snd <$> list_find (fun r => rule_deadline r <= tip) rules.

(** ** One milestone *)
Record Verdict := {
  v_outcome : PolicyOutcome; v_release : bool; v_refund : bool; v_reason : string; v_matched : list string;
  v_thresholds : list RequirementThresholdResult
}.

Definition missed (req : ProofRequirement) (proofs : list SettlementProof) (satisfied : list string) (tip : Z) : option Z :=
  d ← required_by req;
  if negb (req_satisfied_threshold req proofs satisfied) && (d <=? tip) then Some d else None.

Fixpoint first_missed (reqs : list ProofRequirement) (proofs : list SettlementProof) (satisfied : list string) (tip : Z)
    : option (ProofRequirement * Z) :=
  match reqs with
  | [] => None
  | r :: reqs =>
      match missed r proofs satisfied tip with Some d => Some (r, d) | None => first_missed reqs proofs satisfied tip end
  end.

Definition eval_milestone_subset (release_reqs refund_reqs : list ProofRequirement) (rules : list NoResponseRule)
    (proofs : list SettlementProof) (satisfied : list string) (tip : Z) : Verdict :=
  let thr ids := omap (build_threshold_result proofs ids) (release_reqs ++ refund_reqs) in
  let timely := timely (refund_cutoff rules) proofs satisfied in
  if all_met release_reqs proofs timely then
    let matched := proof_id ∘ signed <$> List.filter (fun p : SettlementProof => bool_decide (proof_id p ∈ timely)
        && existsb (fun r => bool_decide (proof_type p = req_proof_type r)
                             && bool_decide (attested_by p ∈ required_attestor_ids r)) release_reqs) proofs in
    {| v_outcome := Satisfied; v_release := true; v_refund := false;
       v_reason := "all release requirements satisfied by verified proofs"; v_matched := matched; v_thresholds := thr timely |}
  else
  match fired rules tip with
  | Some rule =>
      {| v_outcome := Timeout; v_release := is_release (rule_resolution rule); v_refund := negb (is_release (rule_resolution rule));
         v_reason := rule_label rule tip; v_matched := []; v_thresholds := thr satisfied |}
  | None =>
      match first_missed refund_reqs proofs satisfied tip with
      | Some (req, deadline) =>
          {| v_outcome := Timeout; v_release := false; v_refund := true; v_reason := missed_label req deadline tip;
             v_matched := []; v_thresholds := thr satisfied |}
      | None =>
          {| v_outcome := Unsatisfied; v_release := false; v_refund := false;
             v_reason := "no release or refund condition was met"; v_matched := []; v_thresholds := thr satisfied |}
      end
  end.

(** ** Money held back *)
Definition evaluate_holdback (hb : PolicyHoldback) (base_satisfied : bool) (scope : list ProofRequirement)
    (proofs : list SettlementProof) (satisfied : list string) (tip : Z) : HoldbackEvaluationResult :=
  let result released immediate out why := {| holdback_present := true; holdback_released := released;
    he_holdback_bps := holdback_bps hb; immediate_release_bps := immediate; holdback_outcome := out;
    holdback_reason := why; he_deadline_height := hb_deadline hb |} in
  if negb base_satisfied then result false 0 Pending "base condition not yet satisfied" else
  let proved := match release_requirement_id hb with
                | Some id => existsb (fun r => bool_decide (requirement_id r = id) && req_satisfied_threshold r proofs satisfied) scope
                | None => false
                end in
  if proved then result true 10000 Released ("holdback released by requirement '" +:+ default "" (release_requirement_id hb) +:+ "'") else
  match hb_deadline hb with
  | Some d => if d <=? tip then result true 10000 Released ("holdback released by deadline at height " +:+ num d)
              else result false (sat_sub 10000 (holdback_bps hb)) Held "base satisfied; holdback pending release condition"
  | None => result false (sat_sub 10000 (holdback_bps hb)) Held "base satisfied; holdback pending release condition"
  end.
End requirements.

(** ** [evaluate_policy] *)
Section evaluate.
Context `{C : Crypto} `{Hex} `{Json} `{ProofJson} `{AgreementJson}.

Definition outcome_debug (o : PolicyOutcome) : string :=
  match o with Satisfied => "Satisfied" | Timeout => "Timeout" | Unsatisfied => "Unsatisfied" end.

(** Step 1: what is said of each proof, and the identifiers of those that passed. *)
Definition check_proof (policy : ProofPolicy) (hash : string) (p : SettlementProof) : string * option string :=
  if negb (eq_ignore_ascii_case (agreement_hash p) hash)
  then ("proof '" +:+ proof_id p +:+ "' rejected: agreement_hash mismatch (proof=" +:+ agreement_hash p
        +:+ ", expected=" +:+ hash +:+ ")", None)
  else match verify_settlement_proof p policy with
       | Ok _ => ("proof '" +:+ proof_id p +:+ "' verified ok", Some (proof_id p))
       | Err e => ("proof '" +:+ proof_id p +:+ "' rejected: " +:+ e, None)
       | Panic => ("", None)
       end.

Definition verified (policy : ProofPolicy) (hash : string) (proofs : list SettlementProof) : list string :=
  omap (fun p => (check_proof policy hash p).2) proofs.

Definition of_milestone (id : string) (m : option string) : bool := bool_decide (m = Some id).

Definition evaluate_milestone (policy : ProofPolicy) (proofs : list SettlementProof) (satisfied : list string) (tip : Z)
    (ms : PolicyMilestone) : MilestoneEvaluationResult :=
  let id := pm_id ms in
  let mine r := of_milestone id (req_milestone r) in
  let releases := List.filter (fun r => mine r && is_release (resolution r)) (required_proofs policy) in
  let refunds := List.filter (fun r => mine r && negb (is_release (resolution r))) (required_proofs policy) in
  let rules := List.filter (fun r => of_milestone id (rule_milestone r)) (no_response_rules policy) in
  let v := eval_milestone_subset releases refunds rules proofs satisfied tip in
  {| mr_id := id; mr_label := pm_label ms; mr_outcome := v_outcome v; mr_release_eligible := v_release v;
     mr_refund_eligible := v_refund v; mr_matched_proof_ids := v_matched v; mr_reason := v_reason v;
     mr_holdback := (fun hb => evaluate_holdback hb (bool_decide (v_outcome v = Satisfied)) releases proofs satisfied tip)
                    <$> pm_holdback ms;
     mr_threshold_results := v_thresholds v |}.

(** [filter(|id| seen.insert(id))]: the first occurrences. *)
Fixpoint firsts (seen : gset string) (l : list string) : list string :=
  match l with
  | [] => []
  | id :: l => if bool_decide (id ∈ seen) then firsts seen l else id :: firsts ({[id]} ∪ seen) l
  end.

Definition aggregate (rs : list MilestoneEvaluationResult) (completed total : Z) : PolicyOutcome * bool * bool * string :=
  if (0 <? total) && (completed =? total) then (Satisfied, true, false, "all milestones satisfied") else
  match list_find (fun r => mr_outcome r = Timeout) rs with
  | Some (_, r) => (Timeout, mr_release_eligible r, mr_refund_eligible r,
                    "milestone '" +:+ mr_id r +:+ "' timed out: " +:+ mr_reason r)
  | None => (Unsatisfied, false, false, num completed +:+ " of " +:+ num total +:+ " milestones satisfied; "
             +:+ num (total - completed) +:+ " unsatisfied")
  end.

Definition evaluate_milestones (policy : ProofPolicy) (proofs : list SettlementProof) (rules satisfied : list string)
    (tip : Z) : PolicyEvaluationResult :=
  let rs := evaluate_milestone policy proofs satisfied tip <$> pol_milestones policy in
  let completed := len (List.filter (fun r => bool_decide (mr_outcome r = Satisfied)) rs) in
  let total := len rs in
  let '(o, release, refund, why) := aggregate rs completed total in
  {| outcome := o; release_eligible := release; refund_eligible := refund; reason := why;
     evaluated_rules := rules ++ ((fun r => "milestone '" +:+ mr_id r +:+ "' outcome " +:+ outcome_debug (mr_outcome r)) <$> rs);
     matched_proof_ids := firsts ∅ (concat (mr_matched_proof_ids <$> rs)); milestone_results := rs;
     completed_milestone_count := completed; total_milestone_count := total; holdback := None; threshold_results := [] |}.

(** Step 4: the loop notes the deadlines that were met and stops at the first
    that was missed. *)
Fixpoint refund_deadlines (reqs : list ProofRequirement) (proofs : list SettlementProof) (satisfied : list string) (tip : Z)
    : list string * bool :=
  match reqs with
  | [] => ([], false)
  | r :: reqs =>
      match required_by r with
      | Some d =>
          if d <=? tip then
            if req_satisfied_threshold r proofs satisfied then
              let '(notes, hit) := refund_deadlines reqs proofs satisfied tip in
              (("requirement '" +:+ requirement_id r +:+ "' refund deadline " +:+ num d +:+ " reached but satisfied") :: notes, hit)
            else ([missed_label r d tip], true)
          else refund_deadlines reqs proofs satisfied tip
      | None => refund_deadlines reqs proofs satisfied tip
      end
  end.

(** Step 5 *)
Definition release_notes (reqs : list ProofRequirement) (proofs : list SettlementProof) (satisfied : list string) (tip : Z)
    : list string :=
  omap (fun r => d ← missed r proofs satisfied tip;
    Some ("requirement '" +:+ requirement_id r +:+ "' release deadline " +:+ num d +:+ " missed at tip " +:+ num tip)) reqs.

Definition evaluate_whole (policy : ProofPolicy) (proofs : list SettlementProof) (rules satisfied : list string) (tip : Z)
    : PolicyEvaluationResult :=
  let releases := List.filter (fun r => is_release (resolution r)) (required_proofs policy) in
  let refunds := List.filter (fun r => negb (is_release (resolution r))) (required_proofs policy) in
  let cutoff := refund_cutoff (List.filter (fun r => bool_decide (rule_milestone r = None)) (no_response_rules policy)) in
  let on_time := timely cutoff proofs satisfied in
  let rules := rules ++ omap (fun id => if bool_decide (id ∈ on_time) then None else
    Some ("proof '" +:+ id +:+ "' excluded from release eligibility: attestation_time exceeds refund deadline "
          +:+ num (default 0 cutoff))) satisfied in
  let thr ids := omap (build_threshold_result proofs ids) (required_proofs policy) in
  let result o release refund why rules matched hb thr :=
    {| outcome := o; release_eligible := release; refund_eligible := refund; reason := why; evaluated_rules := rules;
       matched_proof_ids := matched; milestone_results := []; completed_milestone_count := 0; total_milestone_count := 0;
       holdback := hb; threshold_results := thr |} in
  if all_met releases proofs on_time then
    result Satisfied true false "all release requirements satisfied by verified proofs" rules on_time
      ((fun hb => evaluate_holdback hb true releases proofs on_time tip) <$> pol_holdback policy) (thr on_time)
  else
  match fired (no_response_rules policy) tip with
  | Some rule =>
      let label := rule_label rule tip in
      let release := is_release (rule_resolution rule) in
      result Timeout release (negb release) label (rules ++ [label]) satisfied None (thr satisfied)
  | None =>
      let '(notes, hit) := refund_deadlines refunds proofs satisfied tip in
      let rules := rules ++ notes in
      if hit then result Timeout false true (List.last notes "") rules satisfied None (thr satisfied) else
      result Unsatisfied false false "no release or refund condition was met"
        (rules ++ release_notes releases proofs satisfied tip) satisfied None (thr satisfied)
  end.

Definition evaluate_policy (agreement : AgreementObject) (policy : ProofPolicy) (proofs : list SettlementProof) (tip : Z)
    : res string PolicyEvaluationResult :=
  bytes ← agreement_canonical_bytes agreement;
  let hash := hex_encode (sha256 bytes) in
  _ ← ensure (eq_ignore_ascii_case (pol_agreement_hash policy) hash)
        ("policy agreement_hash '" +:+ pol_agreement_hash policy +:+ "' does not match the supplied agreement '" +:+ hash +:+ "'");
  let rules := (fun p => (check_proof policy hash p).1) <$> proofs in
  let satisfied := verified policy hash proofs in
  Ok (if bool_decide (length (pol_milestones policy) = 0%nat) then evaluate_whole policy proofs rules satisfied tip
      else evaluate_milestones policy proofs rules satisfied tip).
End evaluate.

(** ** The stores *)
Section stores.
Context `{C : Crypto} `{Hex} `{Json} `{ProofJson}.

Abbreviation ProofStore := (gmap string SettlementProof).

Record SubmitProofOutcome := {
  spo_proof_id : string; spo_agreement_hash : string; spo_accepted : bool; duplicate : bool; spo_message : string
}.

Definition check_submission (p : SettlementProof) : res string unit :=
  _ ← ensure (bool_decide (schema_id p = SETTLEMENT_PROOF_SCHEMA_ID)) ("proof schema_id must be " +:+ SETTLEMENT_PROOF_SCHEMA_ID);
  _ ← match typed_payload p with
      | Some tp => map_err (fun e => "typed_payload validation: " +:+ e) (validate_typed_proof_payload tp (evidence_hash p))
      | None => Ok tt
      end;
  _ ← map_err (fun e => "schema validation: " +:+ e) (validate_proof_against_schema p);
  verify_settlement_proof_signature_only p.

Definition submit (store : ProofStore) (p : SettlementProof) : res string SubmitProofOutcome * ProofStore :=
  match check_submission p with
  | Err e => (Err e, store)
  | Panic => (Panic, store)
  | Ok _ =>
      let out accepted := Ok {| spo_proof_id := proof_id p; spo_agreement_hash := agreement_hash p; spo_accepted := accepted;
        duplicate := negb accepted; spo_message := if accepted then "proof accepted" else "proof already stored" |} in
      match store !! proof_id p with
      | Some _ => (out false, store)
      | None => (out true, <[proof_id p := p]> store)
      end
  end.

(** By the time of attestation, then the identifier. *)
Definition str_le (s t : string) : Prop := bytes_ltb (byte_string t) (byte_string s) = false.
#[export] Instance str_le_dec : RelDecision str_le.
Proof. unfold str_le. intros s t. apply _. Defined.
Definition proof_le (p q : SettlementProof) : Prop :=
  attestation_time p < attestation_time q \/ (attestation_time p = attestation_time q /\ str_le (proof_id p) (proof_id q)).
#[export] Instance proof_le_dec : RelDecision proof_le.
Proof. unfold proof_le. intros p q. apply _. Defined.

Definition stored (store : ProofStore) : list SettlementProof := snd <$> map_to_list store.

Definition list_by_agreement (store : ProofStore) (hash : string) : list SettlementProof :=
  merge_sort proof_le
    (List.filter (fun p : SettlementProof => bool_decide (to_ascii_lowercase (agreement_hash p) = to_ascii_lowercase hash)) (stored store)).
Definition list_all (store : ProofStore) : list SettlementProof := merge_sort proof_le (stored store).

(** [load_from_disk], from the parsed file. *)
Definition load_proofs (ps : list SettlementProof) : ProofStore :=
  foldl (fun (m : ProofStore) (p : SettlementProof) => <[proof_id p := p]> m) ∅ ps.

Abbreviation PolicyStore := (gmap string ProofPolicy).

Record StorePolicyOutcome := {
  sto_policy_id : string; sto_agreement_hash : string; sto_accepted : bool; updated : bool; sto_message : string
}.

Definition check_milestone_id (seen : gset string) (ms : PolicyMilestone) : res string (gset string) :=
  _ ← ensure (negb (is_blank (pm_id ms))) "milestone_id must not be empty";
  _ ← ensure (bool_decide (pm_id ms ∉ seen)) ("duplicate milestone_id '" +:+ pm_id ms +:+ "'");
  Ok ({[pm_id ms]} ∪ seen).

Definition holdback_range (hb : PolicyHoldback) : bool := negb ((holdback_bps hb =? 0) || (10000 <=? holdback_bps hb)).
Definition holdback_ends (hb : PolicyHoldback) : bool :=
  negb (bool_decide (release_requirement_id hb = None) && bool_decide (hb_deadline hb = None)).

Definition check_holdback (policy : ProofPolicy) (hb : PolicyHoldback) : res string unit :=
  _ ← ensure (holdback_range hb) "holdback_bps must be between 1 and 9999";
  _ ← ensure (holdback_ends hb)
        "holdback must specify at least one release condition (release_requirement_id or deadline_height)";
  match release_requirement_id hb with
  | None => Ok tt
  | Some id => ensure (existsb (fun r => bool_decide (requirement_id r = id)) (required_proofs policy))
                 ("holdback release_requirement_id '" +:+ id +:+ "' not found in policy requirements")
  end.

Definition check_milestone_holdback (policy : ProofPolicy) (ms : PolicyMilestone) : res string unit :=
  match pm_holdback ms with
  | None => Ok tt
  | Some hb =>
      _ ← ensure (holdback_range hb) ("milestone '" +:+ pm_id ms +:+ "' holdback_bps must be between 1 and 9999");
      _ ← ensure (holdback_ends hb)
            ("milestone '" +:+ pm_id ms +:+ "' holdback must specify at least one release condition");
      match release_requirement_id hb with
      | None => Ok tt
      | Some id =>
          ensure (existsb (fun r => bool_decide (requirement_id r = id) && of_milestone (pm_id ms) (req_milestone r))
                    (required_proofs policy))
            ("milestone '" +:+ pm_id ms +:+ "' holdback release_requirement_id '" +:+ id
             +:+ "' not found in milestone requirements")
      end
  end.

Definition check_threshold (r : ProofRequirement) : res string unit :=
  match req_threshold r with
  | None => Ok tt
  | Some t =>
      let n := len (required_attestor_ids r) in
      _ ← ensure (negb (t =? 0)) ("requirement '" +:+ requirement_id r +:+ "' threshold must be >= 1");
      _ ← ensure (negb (n =? 0)) ("requirement '" +:+ requirement_id r +:+ "' has threshold but no required_attestor_ids");
      ensure (t <=? n) ("requirement '" +:+ requirement_id r +:+ "' threshold " +:+ num t
                        +:+ " exceeds required_attestor_ids count " +:+ num n)
  end.

(** The code has the loop over the thresholds twice. *)
Definition check_policy (policy : ProofPolicy) : res string unit :=
  _ ← ensure (negb (is_blank (pol_agreement_hash policy))) "policy.agreement_hash must not be empty";
  _ ← fold_res check_milestone_id ∅ (pol_milestones policy);
  _ ← from_option (check_holdback policy) (Ok tt) (pol_holdback policy);
  _ ← check_all (check_milestone_holdback policy) (pol_milestones policy);
  _ ← check_all check_threshold (required_proofs policy);
  check_all check_threshold (required_proofs policy).

Definition store_policy (store : PolicyStore) (policy : ProofPolicy) (replace : bool)
    : res string StorePolicyOutcome * PolicyStore :=
  match check_policy policy with
  | Err e => (Err e, store)
  | Panic => (Panic, store)
  | Ok _ =>
      let key := to_ascii_lowercase (pol_agreement_hash policy) in
      let out accepted updated message := Ok {| sto_policy_id := policy_id policy;
        sto_agreement_hash := pol_agreement_hash policy; sto_accepted := accepted; updated := updated; sto_message := message |} in
      let put := <[key := policy]> store in
      match store !! key with
      | Some old =>
          if bool_decide (policy_id old = policy_id policy)
          then (out false false "policy already stored (same policy_id)", store) else
          if negb replace then (out false false ("a policy '" +:+ policy_id old
            +:+ "' already exists for this agreement; use --replace to overwrite"), store) else
          (out true true "policy replaced", put)
      | None => (out true false "policy accepted", put)
      end
  end.

Definition get_policy (store : PolicyStore) (hash : string) : option ProofPolicy := store !! to_ascii_lowercase hash.

Definition load_policies (ps : list ProofPolicy) : PolicyStore :=
  foldl (fun m p => <[to_ascii_lowercase (pol_agreement_hash p) := p]> m) ∅ ps.
End stores.

(** ** Requirements, as statements *)
Section requirement_facts.
Context `{Json}.

Definition counted (req : ProofRequirement) (satisfied : list string) (proofs : list SettlementProof) : gset string :=
  list_to_set ((fun p : SettlementProof => attested_by p) <$> List.filter (proof_counts req satisfied) proofs).

Lemma elem_of_counted req sat ps a :
  a ∈ counted req sat ps <-> exists p : SettlementProof, p ∈ ps /\ attested_by p = a /\ proof_counts req sat p = true.
Proof.
  unfold counted. rewrite elem_of_list_to_set, list_elem_of_fmap. split.
  - intros (p & -> & Hp%list_elem_of_In%filter_In). destruct Hp. exists p. by rewrite list_elem_of_In.
  - intros (p & Hp & <- & Hc). exists p. split; [done|]. apply list_elem_of_In, filter_In. by rewrite <- list_elem_of_In.
Qed.

Lemma counted_cons req sat p ps :
  counted req sat (p :: ps) = if proof_counts req sat p then {[attested_by p]} ∪ counted req sat ps else counted req sat ps.
Proof. unfold counted. cbn [List.filter]. by destruct (proof_counts req sat p). Qed.

Lemma reaches_spec t req sat ps : forall seen, Z.of_nat (size seen) < t ->
  reaches t req sat seen ps = true <-> t <= Z.of_nat (size (seen ∪ counted req sat ps)).
Proof.
  induction ps as [|p ps IH]; intros seen Hs.
  - cbn. replace (seen ∪ counted req sat []) with seen by (unfold counted; cbn; set_solver). split; [done|lia].
  - cbn [reaches]. rewrite counted_cons. destruct (proof_counts req sat p); [|by apply IH].
    replace (seen ∪ ({[attested_by p]} ∪ counted req sat ps)) with (({[attested_by p]} ∪ seen) ∪ counted req sat ps) by set_solver.
    destruct (t <=? _) eqn:Ht; [|apply IH; lia]. split; [|done]. intros _.
    assert (size ({[attested_by p]} ∪ seen) <= size (({[attested_by p]} ∪ seen) ∪ counted req sat ps))%nat
      by (apply subseteq_size; set_solver). lia.
Qed.

Definition needed (req : ProofRequirement) : Z := Z.max (default 1 (req_threshold req)) 1.

(** A requirement is met by enough distinct attestors. *)
Lemma threshold_met req ps sat :
  req_satisfied_threshold req ps sat = true <-> needed req <= Z.of_nat (size (counted req sat ps)).
Proof.
  unfold req_satisfied_threshold. fold (needed req). destruct (needed req =? 1) eqn:Ht.
  - replace (needed req) with 1 by lia. rewrite existsb_exists. split.
    + intros (p & Hp & Hc). assert (attested_by p ∈ counted req sat ps) as Hin.
      { apply elem_of_counted. exists p. by rewrite list_elem_of_In. }
      assert (size (counted req sat ps) <> 0%nat); [|lia]. intros Hz. apply size_empty_inv in Hz. set_solver.
    + intros Hs. destruct (set_choose_or_empty (counted req sat ps)) as [[a Ha]|He].
      * apply elem_of_counted in Ha as (p & Hp & _ & Hc). exists p. by rewrite <- list_elem_of_In.
      * rewrite He in Hs. rewrite size_empty in Hs. lia.
  - rewrite reaches_spec; [|rewrite size_empty; unfold needed in *; lia]. by replace (∅ ∪ counted req sat ps) with (counted req sat ps) by set_solver.
Qed.

Lemma counts_mono req sat sat' p : sat ⊆ sat' -> proof_counts req sat p = true -> proof_counts req sat' p = true.
Proof.
  unfold proof_counts. intros Hs Hc. repeat (apply andb_true_iff in Hc as [Hc ?]). rewrite !andb_true_iff.
  split_and!; try done. apply bool_decide_eq_true in Hc. apply bool_decide_eq_true. by apply Hs.
Qed.

Lemma met_mono req ps ps' sat sat' : ps ⊆ ps' -> sat ⊆ sat' ->
  req_satisfied_threshold req ps sat = true -> req_satisfied_threshold req ps' sat' = true.
Proof.
  rewrite !threshold_met. intros Hp Hs Hn. etransitivity; [exact Hn|]. apply inj_le, subseteq_size.
  intros a (p & Hin & Ha & Hc)%elem_of_counted. apply elem_of_counted. exists p. eauto using counts_mono.
Qed.

Lemma all_met_mono reqs ps ps' sat sat' : ps ⊆ ps' -> sat ⊆ sat' -> all_met reqs ps sat = true -> all_met reqs ps' sat' = true.
Proof.
  unfold all_met. rewrite !andb_true_iff, !forallb_forall. intros Hp Hs [Hn Hm]. split; [done|].
  intros r Hr. eapply met_mono; eauto.
Qed.

Lemma elem_of_timely cutoff ps sat id : id ∈ timely cutoff ps sat <->
  id ∈ sat /\ match cutoff with Some c => exists p : SettlementProof, p ∈ ps /\ proof_id p = id /\ attestation_time p <= c | None => True end.
Proof.
  destruct cutoff as [c|]; cbn [timely]; [|naive_solver]. rewrite list_elem_of_In, filter_In, <- list_elem_of_In, existsb_exists.
  split; intros [Hs Hp]; (split; [done|]).
  - destruct Hp as (p & Hp & Hc). exists p. rewrite list_elem_of_In. apply andb_true_iff in Hc as [Hc Ht].
    apply bool_decide_eq_true in Hc. split_and!; [done|done|lia].
  - destruct Hp as (p & Hp & <- & Ht). exists p. rewrite <- list_elem_of_In. split; [done|]. rewrite bool_decide_true by done. lia.
Qed.

Lemma timely_mono cutoff ps ps' sat sat' : ps ⊆ ps' -> sat ⊆ sat' -> timely cutoff ps sat ⊆ timely cutoff ps' sat'.
Proof. intros Hp Hs id. rewrite !elem_of_timely. destruct cutoff; naive_solver. Qed.
End requirement_facts.

(** ** Verdicts *)
Section verdicts.
Context `{C : Crypto} `{Hex} `{Json} `{ProofJson} `{AgreementJson}.

(** What a verdict may be. *)
Definition coherent (o : PolicyOutcome) (release refund : bool) : Prop :=
  match o with
  | Satisfied => release = true /\ refund = false
  | Timeout => refund = negb release
  | Unsatisfied => release = false /\ refund = false
  end.

Lemma milestone_coherent rel ref rules ps sat tip :
  let v := eval_milestone_subset rel ref rules ps sat tip in coherent (v_outcome v) (v_release v) (v_refund v).
Proof. unfold eval_milestone_subset. cbv zeta. by repeat case_match. Qed.

Lemma aggregate_coherent policy ps sat tip l n m :
  let '(o, a, b, _) := aggregate (evaluate_milestone policy ps sat tip <$> l) n m in coherent o a b.
Proof.
  unfold aggregate. destruct (_ && _); [done|]. destruct (list_find _ _) as [[i r]|] eqn:Hf; [|done].
  apply list_find_Some in Hf as (Hl & Ho & _). apply list_lookup_fmap_Some in Hl as (ms & -> & _).
  pose proof (milestone_coherent
    (List.filter (fun r => of_milestone (pm_id ms) (req_milestone r) && is_release (resolution r)) (required_proofs policy))
    (List.filter (fun r => of_milestone (pm_id ms) (req_milestone r) && negb (is_release (resolution r))) (required_proofs policy))
    (List.filter (fun r => of_milestone (pm_id ms) (rule_milestone r)) (no_response_rules policy)) ps sat tip) as Hc.
  cbv zeta in Hc. unfold evaluate_milestone in Ho |- *. cbn [mr_outcome mr_release_eligible mr_refund_eligible] in *. by rewrite Ho in Hc.
Qed.

Lemma whole_coherent policy ps rules sat tip :
  let r := evaluate_whole policy ps rules sat tip in coherent (outcome r) (release_eligible r) (refund_eligible r).
Proof. unfold evaluate_whole. cbv zeta. by repeat case_match. Qed.

Lemma evaluated policy agreement ps tip r : evaluate_policy agreement policy ps tip = Ok r ->
  exists payload, agreement_canonical_bytes agreement = Ok payload /\
    let hash := hex_encode (sha256 payload) in
    eq_ignore_ascii_case (pol_agreement_hash policy) hash = true /\
    let rules := (fun p => (check_proof policy hash p).1) <$> ps in
    r = if bool_decide (length (pol_milestones policy) = 0%nat)
        then evaluate_whole policy ps rules (verified policy hash ps) tip
        else evaluate_milestones policy ps rules (verified policy hash ps) tip.
Proof.
  unfold evaluate_policy. intros Hr. destruct (agreement_canonical_bytes agreement) as [b| |]; [|discriminate Hr..].
  cbn [mbind res_bind] in Hr. exists b. split; [done|]. cbv zeta.
  destruct (eq_ignore_ascii_case _ _); [|discriminate Hr]. split; [done|]. by injection Hr as <-.
Qed.

(** The groups of release requirements a policy asks for, each with the time up
    to which proofs are taken: those of each milestone, or all of them. *)
Definition releases_of (policy : ProofPolicy) (ms : PolicyMilestone) : list ProofRequirement :=
  List.filter (fun r => of_milestone (pm_id ms) (req_milestone r) && is_release (resolution r)) (required_proofs policy).
Definition cutoff_of (policy : ProofPolicy) (m : option string) : option Z :=
  refund_cutoff (List.filter (fun r => bool_decide (rule_milestone r = m)) (no_response_rules policy)).
Definition governing (policy : ProofPolicy) : list (list ProofRequirement * option Z) :=
  match pol_milestones policy with
  | [] => [(List.filter (fun r => is_release (resolution r)) (required_proofs policy), cutoff_of policy None)]
  | ms => (fun m => (releases_of policy m, cutoff_of policy (Some (pm_id m)))) <$> ms
  end.

Definition group_met (ps : list SettlementProof) (sat : list string) (g : list ProofRequirement * option Z) : Prop :=
  all_met g.1 ps (timely g.2 ps sat) = true.

Lemma subset_satisfied rel ref rules ps sat tip :
  v_outcome (eval_milestone_subset rel ref rules ps sat tip) = Satisfied <-> group_met ps sat (rel, refund_cutoff rules).
Proof. unfold eval_milestone_subset, group_met. cbn [fst snd]. by repeat case_match. Qed.

Lemma milestone_satisfied policy ps sat tip m :
  mr_outcome (evaluate_milestone policy ps sat tip m) = Satisfied
  <-> group_met ps sat (releases_of policy m, cutoff_of policy (Some (pm_id m))).
Proof. unfold evaluate_milestone. cbn [mr_outcome]. apply subset_satisfied. Qed.

Lemma cutoff_whole policy :
  refund_cutoff (List.filter (fun r => bool_decide (rule_milestone r = None)) (no_response_rules policy)) = cutoff_of policy None.
Proof. unfold cutoff_of. f_equal. apply List.filter_ext. intros r. by apply bool_decide_ext. Qed.

Lemma whole_satisfied policy ps rules sat tip :
  outcome (evaluate_whole policy ps rules sat tip) = Satisfied
  <-> group_met ps sat (List.filter (fun r => is_release (resolution r)) (required_proofs policy), cutoff_of policy None).
Proof. unfold evaluate_whole, group_met. rewrite cutoff_whole. cbv zeta. cbn [fst snd]. by repeat case_match. Qed.

Lemma filter_length_forall {A} (f : A -> bool) l : length (List.filter f l) = length l <-> Forall (fun x => f x = true) l.
Proof.
  induction l as [|x l IH]; [done|]. cbn [List.filter]. rewrite Forall_cons. destruct (f x) eqn:Hf; cbn [length].
  - rewrite <- IH. intuition lia.
  - pose proof (List.filter_length_le f l). split; [lia|]. by intros [? _].
Qed.

Lemma milestones_satisfied policy ps rules sat tip : pol_milestones policy <> [] ->
  outcome (evaluate_milestones policy ps rules sat tip) = Satisfied
  <-> Forall (fun m => mr_outcome (evaluate_milestone policy ps sat tip m) = Satisfied) (pol_milestones policy).
Proof.
  intros Hm. unfold evaluate_milestones. cbv zeta.
  pose proof (filter_length_forall (fun r => bool_decide (mr_outcome r = Satisfied))
                (evaluate_milestone policy ps sat tip <$> pol_milestones policy)) as Hf.
  rewrite Forall_fmap in Hf. unfold compose in Hf. setoid_rewrite bool_decide_eq_true in Hf. rewrite <- Hf.
  set (rs := evaluate_milestone policy ps sat tip <$> pol_milestones policy) in *.
  assert (0 < len rs) as Hlen.
  { unfold rs, len. rewrite length_fmap. destruct (pol_milestones policy); [done|]. cbn. lia. }
  unfold aggregate. destruct (_ && _) eqn:Hb; cbn [outcome].
  - split; [|done]. intros _. apply andb_true_iff in Hb as [_ Hb]. unfold len in Hb. lia.
  - destruct (list_find _ rs) as [[i r]|] eqn:Hl; cbn [outcome]; (split; [discriminate|]); intros He; exfalso;
      apply andb_false_iff in Hb as [Hb|Hb]; unfold len in *; lia.
Qed.

Lemma satisfied_iff agreement policy ps tip r : evaluate_policy agreement policy ps tip = Ok r ->
  exists payload, agreement_canonical_bytes agreement = Ok payload /\
    let hash := hex_encode (sha256 payload) in
    eq_ignore_ascii_case (pol_agreement_hash policy) hash = true /\
    (outcome r = Satisfied <-> Forall (group_met ps (verified policy hash ps)) (governing policy)).
Proof.
  intros (b & Hb & Hh & Hr)%evaluated. exists b. split; [done|]. cbv zeta in *. split; [done|]. rewrite Hr.
  unfold governing. destruct (pol_milestones policy) as [|m l] eqn:Hm.
  - rewrite bool_decide_true by done. rewrite whole_satisfied, Forall_singleton. done.
  - rewrite bool_decide_false by done. rewrite milestones_satisfied, Forall_fmap by (by rewrite Hm). rewrite Hm.
    apply Forall_proper; [|done]. intros x. apply milestone_satisfied.
Qed.

Lemma evaluate_ok agreement policy ps ps' tip tip' r :
  evaluate_policy agreement policy ps tip = Ok r -> exists r', evaluate_policy agreement policy ps' tip' = Ok r'.
Proof.
  intros (b & Hb & Hh & _)%evaluated. unfold evaluate_policy. rewrite Hb. cbn [mbind res_bind]. cbv zeta in Hh. rewrite Hh.
  cbn. eauto.
Qed.

Lemma elem_of_verified policy hash ps id : id ∈ verified policy hash ps <->
  exists p : SettlementProof, p ∈ ps /\ proof_id p = id /\ eq_ignore_ascii_case (agreement_hash p) hash = true /\
    verify_settlement_proof p policy = Ok tt.
Proof.
  unfold verified. rewrite list_elem_of_omap. unfold check_proof. split.
  - intros (p & Hp & Hc). exists p. destruct (eq_ignore_ascii_case _ _); [|discriminate Hc]. cbn in Hc.
    destruct (verify_settlement_proof p policy) as [[]| |]; [|discriminate Hc..]. cbn in Hc. by simplify_eq.
  - intros (p & Hp & <- & He & Hv). exists p. by rewrite He, Hv.
Qed.

Lemma verified_mono policy hash ps ps' : ps ⊆ ps' -> verified policy hash ps ⊆ verified policy hash ps'.
Proof. intros Hp id. rewrite !elem_of_verified. naive_solver. Qed.
End verdicts.

(** ** What the verdicts promise *)
Section promises.
Context `{C : Crypto} `{Hex} `{Json} `{ProofJson} `{AgreementJson}.

Lemma verdict_coherent agreement policy ps tip r : evaluate_policy agreement policy ps tip = Ok r ->
  coherent (outcome r) (release_eligible r) (refund_eligible r).
Proof.
  intros (b & _ & _ & ->)%evaluated. destruct (bool_decide _); [apply whole_coherent|].
  unfold evaluate_milestones. cbv zeta. set (sat := verified policy _ ps).
  set (n := len (List.filter _ _)). set (m := len _).
  pose proof (aggregate_coherent policy ps sat tip (pol_milestones policy) n m) as Ha.
  by destruct (aggregate _ _ _) as [[[o x] y] z].
Qed.

(** release and refund exclude each other.  A satisfied policy releases; an
    expired one does the one or the other; otherwise the money stays. *)
Theorem verdict_exclusive agreement policy ps tip r : evaluate_policy agreement policy ps tip = Ok r ->
  match outcome r with
  | Satisfied => release_eligible r = true /\ refund_eligible r = false
  | Timeout => refund_eligible r = negb (release_eligible r)
  | Unsatisfied => release_eligible r = false /\ refund_eligible r = false
  end.
Proof. apply verdict_coherent. Qed.

Lemma group_met_mono ps ps' sat sat' g : ps ⊆ ps' -> sat ⊆ sat' -> group_met ps sat g -> group_met ps' sat' g.
Proof. unfold group_met. intros Hp Hs. apply all_met_mono; [done|]. by apply timely_mono. Qed.

(** a release is final: whatever proofs are added, and however the chain
    grows, a policy that was satisfied stays satisfied. *)
Theorem release_is_final agreement policy ps ps' tip tip' r :
  evaluate_policy agreement policy ps tip = Ok r -> outcome r = Satisfied -> ps ⊆ ps' ->
  exists r', evaluate_policy agreement policy ps' tip' = Ok r' /\ outcome r' = Satisfied /\
    release_eligible r' = true /\ refund_eligible r' = false.
Proof.
  intros He Ho Hp. destruct (evaluate_ok _ _ _ ps' _ tip' _ He) as [r' He'].
  destruct (satisfied_iff _ _ _ _ _ He) as (b & Hb & _ & Hs). destruct (satisfied_iff _ _ _ _ _ He') as (b' & Hb' & _ & Hs').
  rewrite Hb in Hb'. injection Hb' as <-. exists r'. split; [done|]. cbv zeta in *.
  assert (outcome r' = Satisfied) as Ho'.
  { apply Hs'. apply Hs in Ho. eapply Forall_impl; [exact Ho|]. intros g. apply group_met_mono; [done|]. by apply verified_mono. }
  apply verdict_coherent in He'. by rewrite Ho' in *.
Qed.

(** What stands behind a release: the proof is of the asked type, for the
    agreement and the milestone, on time, signed with a key the policy approves
    for the attestor. *)
Definition evidence (policy : ProofPolicy) (hash : string) (req : ProofRequirement) (cutoff : option Z) (p : SettlementProof) : Prop :=
  eq_ignore_ascii_case (agreement_hash p) hash = true /\ proof_type p = req_proof_type req /\ milestone_fits req p = true /\
  (exists a, a ∈ attestors policy /\ attestor_id a = attested_by p /\ att_pubkey_hex a = pubkey_hex (signature p)) /\
  verify_signature p = Ok tt /\ match cutoff with Some c => attestation_time p <= c | None => True end.

Lemma same_id (ps : list SettlementProof) (p q : SettlementProof) :
  NoDup ((fun p : SettlementProof => proof_id p) <$> ps) -> p ∈ ps -> q ∈ ps -> proof_id p = proof_id q -> p = q.
Proof.
  intros Hd (i & Hi)%list_elem_of_lookup (j & Hj)%list_elem_of_lookup He.
  assert (i = j) as <-.
  { eapply NoDup_lookup; [exact Hd| |]; rewrite list_lookup_fmap; [rewrite Hi|rewrite Hj]; cbn; [done|by rewrite He]. }
  by simplify_eq.
Qed.

Lemma counted_evidence policy hash req cutoff ps p : NoDup ((fun p : SettlementProof => proof_id p) <$> ps) -> p ∈ ps ->
  proof_counts req (timely cutoff ps (verified policy hash ps)) p = true ->
  attested_by p ∈ required_attestor_ids req /\ evidence policy hash req cutoff p.
Proof.
  intros Hd Hp Hc. unfold proof_counts in Hc. rewrite !andb_true_iff, !bool_decide_eq_true in Hc.
  destruct Hc as [[[Hi Ht] Ha] Hm]. split; [done|]. apply elem_of_timely in Hi as [(q & Hq & Hqp & Hh & Hv)%elem_of_verified Hl].
  assert (q = p) as -> by (eapply same_id; eauto). unfold verify_settlement_proof, check_signature_type in Hv.
  do 2 accepted_step Hv. match goal with H : approved policy p = true |- _ => rename H into Happ end.
  split_and!; [done..| |done|].
  - unfold approved in Happ. rewrite existsb_exists in Happ. destruct Happ as (a & Hain & Hab). exists a.
    by rewrite andb_true_iff, !bool_decide_eq_true, <- list_elem_of_In in *.
  - destruct cutoff as [c|]; [|done]. destruct Hl as (p' & Hp' & He & Hc). by assert (p' = p) as -> by (eapply same_id; eauto).
Qed.

(** Each requirement in force has as many distinct attestors of its list as it
    asks for, each with a proof of his own among [ps]. *)
Definition earned (policy : ProofPolicy) (hash : string) (ps : list SettlementProof) : Prop :=
  Forall (fun g => g.1 <> [] /\ Forall (fun req => exists who : gset string, needed req <= Z.of_nat (size who) /\
      forall a, a ∈ who -> a ∈ required_attestor_ids req /\
        exists p : SettlementProof, p ∈ ps /\ attested_by p = a /\ evidence policy hash req g.2 p) g.1)
    (governing policy).

Lemma satisfied_earned agreement policy ps tip r :
  NoDup ((fun p : SettlementProof => proof_id p) <$> ps) -> evaluate_policy agreement policy ps tip = Ok r -> outcome r = Satisfied ->
  exists payload, agreement_canonical_bytes agreement = Ok payload /\ earned policy (hex_encode (sha256 payload)) ps.
Proof.
  intros Hd (b & Hb & _ & Hs)%satisfied_iff Ho. exists b. split; [done|]. cbv zeta in Hs. apply Hs in Ho.
  eapply Forall_impl; [exact Ho|]. intros [reqs cutoff] Hg. unfold group_met, all_met in Hg. cbn [fst snd] in *.
  apply andb_true_iff in Hg as [Hn Hg]. split; [intros ->; by rewrite bool_decide_true in Hn|]. rewrite forallb_forall in Hg.
  apply Forall_forall. intros req Hreq%list_elem_of_In%Hg%threshold_met.
  eexists. split; [exact Hreq|]. intros a (p & Hp & <- & Hc)%elem_of_counted.
  destruct (counted_evidence _ _ _ _ _ _ Hd Hp Hc) as [Hr He]. split; [done|]. eauto.
Qed.

(** C25: a release is earned.  When no two proofs carry the same identifier, a
    satisfied policy means that each requirement in force has as many distinct
    attestors of its list as it asks for, each with a proof of his own: of the asked
    type, for this agreement, on time, under a key the policy approves. *)
Theorem release_earned agreement policy ps tip r :
  NoDup ((fun p : SettlementProof => proof_id p) <$> ps) -> evaluate_policy agreement policy ps tip = Ok r -> outcome r = Satisfied ->
  exists payload, agreement_canonical_bytes agreement = Ok payload /\ earned policy (hex_encode (sha256 payload)) ps.
Proof. apply satisfied_earned. Qed.

Lemma min_elem l : forall x, foldl Z.min x l ∈ x :: l.
Proof.
  induction l as [|y l IH]; intros x; cbn [foldl]; [by left|].
  specialize (IH (Z.min x y)). apply elem_of_cons in IH as [->|IH]; [|by do 2 right].
  destruct (Z.min_spec x y) as [[_ ->]|[_ ->]]; set_solver.
Qed.

Lemma minimum_elem l c : minimum l = Some c -> c ∈ l.
Proof. destruct l as [|x l]; [done|]. cbn [minimum]. intros [= <-]. apply min_elem. Qed.

(** Once the first refund deadline has come, some rule fires. *)
Lemma cutoff_fires policy m c tip : cutoff_of policy m = Some c -> c <= tip ->
  exists rule, rule ∈ no_response_rules policy /\ fired (no_response_rules policy) tip = Some rule.
Proof.
  intros Hc Ht. unfold cutoff_of, refund_cutoff in Hc. apply minimum_elem, list_elem_of_fmap in Hc as (r & -> & Hr).
  apply list_elem_of_In, filter_In in Hr as [Hr _]. apply filter_In in Hr as [Hr _]. rewrite <- list_elem_of_In in Hr.
  unfold fired. destruct (list_find _ (no_response_rules policy)) as [[i rule]|] eqn:Hf; cbn [fmap option_fmap option_map snd].
  - exists rule. apply list_find_Some in Hf as (Hf & _ & _). split; [|done]. by eapply list_elem_of_lookup_2.
  - exfalso. apply list_find_None in Hf. rewrite Forall_forall in Hf. by apply (Hf r Hr).
Qed.

Lemma fired_rule rules tip rule : fired rules tip = Some rule -> rule ∈ rules /\ rule_deadline rule <= tip.
Proof.
  unfold fired. destruct (list_find _ rules) as [[i r]|] eqn:Hf; cbn; [|done]. intros [= <-].
  apply list_find_Some in Hf as (Hf & Hd & _). split; [by eapply list_elem_of_lookup_2 | done].
Qed.

(** Without proofs the payee is paid by a rule whose deadline has come. *)
Lemma timeout_release agreement policy ps tip r : evaluate_policy agreement policy ps tip = Ok r -> outcome r = Timeout ->
  release_eligible r = true ->
  exists rule, rule ∈ no_response_rules policy /\ rule_deadline rule <= tip /\ is_release (rule_resolution rule) = true.
Proof.
  intros (b & _ & _ & ->)%evaluated. cbv zeta. destruct (bool_decide _).
  - unfold evaluate_whole. cbv zeta. destruct (all_met _ _ _); [done|]. destruct (fired _ _) as [rule|] eqn:Hf.
    + cbn [release_eligible outcome]. apply fired_rule in Hf as [Hr Hd]. intros _ Hl. by exists rule.
    + destruct (refund_deadlines _ _ _ _) as [notes hit]. by destruct hit.
  - unfold evaluate_milestones, aggregate. cbv zeta. destruct (_ && _); [done|].
    destruct (list_find _ _) as [[i m]|] eqn:Hf; cbn [release_eligible outcome]; [|done]. intros _ Hl.
    apply list_find_Some in Hf as (Hm & Ho & _). apply list_lookup_fmap_Some in Hm as (ms & -> & _).
    unfold evaluate_milestone in *. cbn [mr_outcome mr_release_eligible] in *. unfold eval_milestone_subset in *. cbv zeta in *.
    destruct (all_met _ _ _); [done|]. destruct (fired _ _) as [rule|] eqn:Hf.
    + cbn [v_release] in Hl. apply fired_rule in Hf as [Hr Hd]. exists rule. split_and!; [|done..].
      apply list_elem_of_In, filter_In in Hr as [Hr _]. by apply list_elem_of_In.
    + by destruct (first_missed _ _ _ _) as [[? ?]|].
Qed.

(** Proofs that come after the time, under identifiers of their own. *)
Definition only_late (c : Z) (ps ps' : list SettlementProof) : Prop :=
  forall p : SettlementProof, p ∈ ps' -> p ∈ ps \/ (c < attestation_time p /\ forall q : SettlementProof, q ∈ ps -> proof_id q <> proof_id p).

Lemma late_timely policy hash c ps ps' : only_late c ps ps' ->
  timely (Some c) ps' (verified policy hash ps') ⊆ timely (Some c) ps (verified policy hash ps).
Proof.
  intros Hl id. rewrite !elem_of_timely, !elem_of_verified. intros [(q & Hq & <- & Hv) (p & Hp & Hpq & Ht)].
  destruct (Hl p Hp) as [Hp'|[Hlt _]]; [|lia].
  destruct (Hl q Hq) as [Hq'|[_ Hn]]; [|by destruct (Hn p Hp')]. split; [by exists q | by exists p].
Qed.

Lemma late_met policy hash c ps ps' reqs : only_late c ps ps' ->
  group_met ps' (verified policy hash ps') (reqs, Some c) -> group_met ps (verified policy hash ps) (reqs, Some c).
Proof.
  intros Hl. unfold group_met, all_met. cbn [fst snd]. rewrite !andb_true_iff, !forallb_forall. intros [Hn Hm]. split; [done|].
  intros req Hr. specialize (Hm req Hr). rewrite !threshold_met in *. etransitivity; [exact Hm|]. apply inj_le, subseteq_size.
  intros a (p & Hp & Ha & Hc)%elem_of_counted. apply elem_of_counted. exists p.
  apply (counts_mono _ _ _ _ (late_timely policy hash c ps ps' Hl)) in Hc. split_and!; [|done..].
  unfold proof_counts in Hc. rewrite !andb_true_iff, !bool_decide_eq_true in Hc. destruct Hc as [[[Hi _] _] _].
  apply elem_of_timely in Hi as [(q & Hq & He & _)%elem_of_verified _]. destruct (Hl p Hp) as [Hp'|[_ Hd]]; [done|].
  by destruct (Hd q Hq).
Qed.

(** C26: a refund is final.  Take a policy without milestones all of whose rules
    for the case of no response are refunds, and let [c], the earliest deadline that
    its refund rules set for the requirements, have come.  If it was not satisfied
    by some proofs at some time, then by those of them that are left, and any more
    that are all dated after [c] and bear none of their identifiers, it is not
    satisfied either: the outcome is the timeout, nothing is released and the money
    goes back. *)
Theorem refund_is_final agreement policy ps ps' tip tip' r c :
  pol_milestones policy = [] -> Forall (fun r => rule_resolution r = Refund) (no_response_rules policy) ->
  cutoff_of policy None = Some c -> c <= tip' ->
  evaluate_policy agreement policy ps tip = Ok r -> outcome r <> Satisfied -> only_late c ps ps' ->
  exists r', evaluate_policy agreement policy ps' tip' = Ok r' /\ outcome r' = Timeout /\
    release_eligible r' = false /\ refund_eligible r' = true.
Proof.
  intros Hm Hr Hc Ht He Ho Hl. destruct (evaluate_ok _ _ _ ps' _ tip' _ He) as [r' He']. exists r'. split; [done|].
  apply evaluated in He as (b & Hb & _ & ->), He' as (b' & Hb' & _ & ->). rewrite Hb in Hb'. injection Hb' as <-.
  cbv zeta in *. rewrite Hm in *. cbn [length] in *. rewrite bool_decide_true in * by done.
  rewrite whole_satisfied, Hc in Ho. unfold evaluate_whole. cbv zeta. rewrite cutoff_whole, Hc.
  destruct (all_met _ ps' _) eqn:Ha; [by destruct Ho; apply (late_met _ _ _ _ ps')|].
  destruct (cutoff_fires _ _ _ _ Hc Ht) as (rule & Hin & ->). rewrite Forall_forall in Hr.
  cbn [outcome release_eligible refund_eligible]. by rewrite (Hr rule Hin).
Qed.

(** proofs dated after the refund deadline of their group never release,
    whoever signs them. *)
Theorem late_proofs_never_release agreement policy ps tip r reqs c :
  evaluate_policy agreement policy ps tip = Ok r -> (reqs, Some c) ∈ governing policy ->
  Forall (fun p : SettlementProof => c < attestation_time p) ps -> outcome r <> Satisfied.
Proof.
  intros (b & _ & _ & Hs)%satisfied_iff Hg Hl Ho. apply Hs in Ho. rewrite Forall_forall in Ho. specialize (Ho _ Hg).
  rewrite Forall_forall in Hl. apply (late_met _ _ c []) in Ho.
  - unfold group_met, all_met in Ho. cbn [fst snd] in Ho. apply andb_true_iff in Ho as [Hn Hm].
    destruct reqs as [|req reqs]; [by rewrite bool_decide_true in Hn|]. cbn [forallb] in Hm. apply andb_true_iff in Hm as [Hm _].
    apply threshold_met in Hm. unfold counted, needed in Hm. cbn in Hm. rewrite size_empty in Hm. lia.
  - intros p Hp. right. split; [by apply Hl | set_solver].
Qed.
End promises.

(** ** What the stores promise *)
Section store_promises.
Context `{C : Crypto} `{Hex} `{Json} `{ProofJson}.

(** The store after a run of submissions. *)
Definition submitted (ps : list SettlementProof) : gmap string SettlementProof := foldl (fun s p => (submit s p).2) ∅ ps.
Definition admissible (p : SettlementProof) : bool := match check_submission p with Ok _ => true | _ => false end.

Lemma submit_store s p : (submit s p).2 =
  if admissible p then match s !! proof_id p with Some _ => s | None => <[proof_id p := p]> s end else s.
Proof. unfold submit, admissible. destruct (check_submission p); [|done..]. by destruct (s !! proof_id p). Qed.

Lemma submitted_lookup ps id :
  submitted ps !! id = List.find (fun p : SettlementProof => admissible p && bool_decide (proof_id p = id)) ps.
Proof.
  unfold submitted. assert (forall s : gmap string SettlementProof, foldl (fun s p => (submit s p).2) s ps !! id =
    match s !! id with Some p => Some p
    | None => List.find (fun p : SettlementProof => admissible p && bool_decide (proof_id p = id)) ps end) as Hg;
    [|by rewrite Hg, lookup_empty].
  induction ps as [|p ps IH]; intros s; cbn [foldl List.find]; [by destruct (s !! id)|]. rewrite IH, submit_store.
  destruct (admissible p); cbn [andb]; [|done]. case_bool_decide as Hid.
  - subst id. destruct (s !! proof_id p) eqn:Hs; [by rewrite Hs | by rewrite lookup_insert_eq].
  - destruct (s !! proof_id p); [done|]. by rewrite lookup_insert_ne.
Qed.

(** the proof store after any run of submissions, from none: under an
    identifier it holds the first proof of that identifier that passes every check,
    and nothing else; its listing has no identifier twice. *)
Theorem proof_store_first_wins ps :
  (forall id, submitted ps !! id = List.find (fun p : SettlementProof => admissible p && bool_decide (proof_id p = id)) ps) /\
  Forall (fun p : SettlementProof => p ∈ ps /\ check_submission p = Ok tt) (list_all (submitted ps)) /\
  NoDup ((fun p : SettlementProof => proof_id p) <$> list_all (submitted ps)).
Proof.
  split; [apply submitted_lookup|].
  assert (forall id p, submitted ps !! id = Some p -> p ∈ ps /\ check_submission p = Ok tt /\ proof_id p = id) as Hk.
  { intros id p. rewrite submitted_lookup. intros [Hp Hc]%find_some. apply andb_true_iff in Hc as [Ha Hi].
    apply bool_decide_eq_true in Hi. rewrite list_elem_of_In. split_and!; [done| |done]. unfold admissible in Ha.
    destruct (check_submission p) as [[]| |]; done. }
  unfold list_all. split.
  - apply Forall_forall. intros p. rewrite merge_sort_Permutation. unfold stored.
    intros ([id q] & -> & Hq%elem_of_map_to_list)%list_elem_of_fmap. apply Hk in Hq as (? & ? & _). done.
  - rewrite merge_sort_Permutation. unfold stored. rewrite <- list_fmap_compose.
    rewrite (list_fmap_ext _ fst); [apply NoDup_fst_map_to_list|].
    intros i [id p] Hp%list_elem_of_lookup_2%elem_of_map_to_list. by apply Hk in Hp as (_ & _ & ?).
Qed.

(** The policies after a run of requests. *)
Definition policies (reqs : list (ProofPolicy * bool)) : gmap string ProofPolicy := foldl (fun s r => (store_policy s r.1 r.2).2) ∅ reqs.

Lemma store_policy_store s p replace id q : (store_policy s p replace).2 !! id = Some q ->
  s !! id = Some q \/ (q = p /\ id = to_ascii_lowercase (pol_agreement_hash p) /\ check_policy p = Ok tt /\
                      (s !! id = None \/ replace = true)).
Proof.
  unfold store_policy. destruct (check_policy p) as [[]| |]; [|by left..]. cbv zeta.
  destruct (s !! to_ascii_lowercase (pol_agreement_hash p)) eqn:Hs.
  - case_bool_decide; [by left|]. destruct replace; cbn [negb snd]; [|by left].
    rewrite lookup_insert_Some. intros [[<- <-]|[_ Hq]]; [right; auto | by left].
  - cbn [snd]. rewrite lookup_insert_Some. intros [[<- <-]|[_ Hq]]; [right; auto | by left].
Qed.

(** the policy store after any run of requests: each agreement has at most
    one policy, filed under its own hash, that passed every check; and a request
    that does not ask to replace leaves the policies that are there. *)
Theorem policy_store_invariant reqs p :
  (forall id q, policies reqs !! id = Some q -> id = to_ascii_lowercase (pol_agreement_hash q) /\ check_policy q = Ok tt /\
     q ∈ reqs.*1) /\
  policies reqs ⊆ policies (reqs ++ [(p, false)]).
Proof.
  split.
  - unfold policies. assert (forall s : gmap string ProofPolicy,
      (forall id q, s !! id = Some q -> id = to_ascii_lowercase (pol_agreement_hash q) /\ check_policy q = Ok tt) ->
      forall id q, foldl (fun s r => (store_policy s r.1 r.2).2) s reqs !! id = Some q ->
        id = to_ascii_lowercase (pol_agreement_hash q) /\ check_policy q = Ok tt /\ (s !! id = Some q \/ q ∈ reqs.*1)) as Hg.
    { induction reqs as [|[p' rep] reqs IH]; intros s Hs id q; cbn [foldl fmap list_fmap fst snd].
      - intros Hq. destruct (Hs _ _ Hq). auto.
      - intros Hq. apply IH in Hq as (Hi & Hc & Hin).
        + split_and!; [done..|]. destruct Hin as [Hin|Hin]; [|set_solver]. apply store_policy_store in Hin. set_solver.
        + intros id' q' [Hq'|(-> & -> & Hc & _)]%store_policy_store; [by apply Hs | done]. }
    intros id q Hq. apply Hg in Hq as (? & ? & [Hq|Hq]); [by rewrite lookup_empty in Hq | done | by intros id' q' He; rewrite lookup_empty in He].
  - unfold policies. rewrite foldl_snoc. cbn [fst snd]. unfold store_policy.
    destruct (check_policy p) as [[]| |]; [|done..]. cbv zeta.
    destruct (_ !! to_ascii_lowercase (pol_agreement_hash p)) eqn:Hs.
    + case_bool_decide; done.
    + by apply insert_subseteq.
Qed.
End store_promises.

Section reachable.
Context `{Json}.

(** A threshold above the number of distinct attestors is never met. *)
Lemma threshold_unreachable req ps sat :
  Z.of_nat (size (list_to_set (C := gset string) (required_attestor_ids req))) < needed req -> req_satisfied_threshold req ps sat = false.
Proof.
  intros Hn. apply not_true_is_false. rewrite threshold_met. intros Hm.
  assert (size (counted req sat ps) <= size (list_to_set (C := gset string) (required_attestor_ids req)))%nat; [|lia].
  apply subseteq_size. intros a (p & _ & <- & Hc)%elem_of_counted. rewrite elem_of_list_to_set.
  unfold proof_counts in Hc. rewrite !andb_true_iff, !bool_decide_eq_true in Hc. naive_solver.
Qed.
End reachable.

(** ** Examples

    JSON objects whose values do not matter, signed bytes that are the fields
    one after the other, agreements known by their identifier. *)
Definition plain_json : Json :=
  {| Value := list string; as_object keys := Some (list_to_map ((fun k => (k, [])) <$> keys)); is_null _ := false |}.
Definition plain_proof_json : ProofJson := {| settlement_proof_payload_bytes f :=
  Ok (byte_string (proof_id f) ++ byte_string (proof_type f) ++ byte_string (agreement_hash f) ++ byte_string (attested_by f)
      ++ le_bytes 8 (attestation_time f)) |}.
Definition plain_agreement_json : AgreementJson := {| agreement_canonical_bytes a := Ok (byte_string (agreement_id a)) |}.
#[local] Existing Instances plain_hex plain_json plain_proof_json plain_agreement_json.

Definition trade : AgreementObject := sample_agreement 30 70 100.
Definition trade_hash : string := hex_encode (sha256 (byte_string (agreement_id trade))).

Definition fields (id who : string) (time : Z) : SignedFields :=
  {| proof_id := id; schema_id := SETTLEMENT_PROOF_SCHEMA_ID; proof_type := "delivered"; agreement_hash := trade_hash;
     sp_milestone := None; attested_by := who; attestation_time := time; evidence_hash := None; evidence_summary := None |}.
Definition pubkey (key : Z) : string := hex_encode (repeat key 33).
Definition sign_with (key : Z) (f : SignedFields) : SettlementProof :=
  {| signed := f; expires_at_height := None; typed_payload := None;
     signature := {| signature_type := AGREEMENT_SIGNATURE_TYPE_SECP256K1; pubkey_hex := pubkey key; payload_hash := "";
       signature_hex := match settlement_proof_payload_bytes f with
                        | Ok b => hex_encode (repeat key 32 ++ sha256 b) | _ => "" end |} |}.
(** A proof that nobody signed. *)
Definition forged (f : SignedFields) : SettlementProof :=
  {| signed := f; expires_at_height := None; typed_payload := None;
     signature := {| signature_type := ""; pubkey_hex := ""; signature_hex := ""; payload_hash := "" |} |}.

Definition attestor (id : string) (key : Z) : ApprovedAttestor :=
  {| attestor_id := id; att_pubkey_hex := pubkey key; att_display_name := None; att_domain := None |}.

(** Delivery, attested by so many of alice and bob, or the money back at 100. *)
Definition delivery (threshold : Z) (ids : list string) : ProofRequirement :=
  {| requirement_id := "req"; req_proof_type := "delivered"; required_by := Some 100; required_attestor_ids := ids;
     resolution := Release; req_milestone := None; req_threshold := Some threshold |}.
Definition back_at (height : Z) : NoResponseRule :=
  {| rule_id := "back"; rule_deadline := height; rule_trigger := FundedAndNoRelease; rule_resolution := Refund;
     rule_milestone := None; rule_notes := None |}.
Definition escrow (reqs : list ProofRequirement) (rules : list NoResponseRule) (hb : option PolicyHoldback) : ProofPolicy :=
  {| policy_id := "escrow"; pol_schema_id := ""; pol_agreement_hash := trade_hash; required_proofs := reqs;
     no_response_rules := rules; attestors := [attestor "alice" 1; attestor "bob" 2]; pol_notes := None;
     pol_expires_at_height := None; pol_milestones := []; pol_holdback := hb |}.
Definition two_of_two : ProofPolicy := escrow [delivery 2 ["alice"; "bob"]] [back_at 100] None.

Definition verdict (policy : ProofPolicy) (ps : list SettlementProof) (tip : Z) : option (PolicyOutcome * bool * bool) :=
  match evaluate_policy trade policy ps tip with
  | Ok r => Some (outcome r, release_eligible r, refund_eligible r)
  | _ => None
  end.
Definition result_of (policy : ProofPolicy) (ps : list SettlementProof) (tip : Z) : PolicyEvaluationResult :=
  match evaluate_policy trade policy ps tip with
  | Ok r => r
  | _ => evaluate_whole policy ps [] [] tip
  end.
Definition both : list SettlementProof := [sign_with 1 (fields "p1" "alice" 10); sign_with 2 (fields "p2" "bob" 20)].

Example two_release : verdict two_of_two both 50 = Some (Satisfied, true, false).
Proof. by vm_compute. Qed.
Example one_waits : verdict two_of_two (take 1 both) 50 = Some (Unsatisfied, false, false).
Proof. by vm_compute. Qed.
Example one_refunds : verdict two_of_two (take 1 both) 100 = Some (Timeout, false, true).
Proof. by vm_compute. Qed.

(** A proof is known by its identifier alone: an unsigned copy under another
    name counts, once the identifier has passed. *)
Example one_attestor_meets_two :
  verdict two_of_two [sign_with 1 (fields "p1" "alice" 10); forged (fields "p1" "bob" 10)] 50 = Some (Satisfied, true, false).
Proof. by vm_compute. Qed.

(** ... and an unsigned copy dated earlier makes a late proof timely. *)
Example backdated_by_a_copy :
  verdict (escrow [delivery 1 ["alice"]] [back_at 100] None) [sign_with 1 (fields "p1" "alice" 101)] 100
    = Some (Timeout, false, true) /\
  verdict (escrow [delivery 1 ["alice"]] [back_at 100] None)
    [sign_with 1 (fields "p1" "alice" 101); forged (fields "p1" "eve" 0)] 100 = Some (Satisfied, true, false).
Proof. split; by vm_compute. Qed.

(** The time of a proof is a time of day (1,700,000,000 seconds); the deadline is
    a height. *)
Example dated_proofs_never_release :
  verdict (escrow [delivery 1 ["alice"]] [back_at 30000] None) [sign_with 1 (fields "p1" "alice" 1700000000)] 20000
    = Some (Unsatisfied, false, false) /\
  verdict (escrow [delivery 1 ["alice"]] [] None) [sign_with 1 (fields "p1" "alice" 1700000000)] 20000
    = Some (Satisfied, true, false).
Proof. split; by vm_compute. Qed.

(** The store takes a threshold that no one can meet. *)
Example unreachable_policy_stored :
  check_policy (escrow [delivery 2 ["alice"; "alice"]] [] None) = Ok tt /\
  (forall ps sat, req_satisfied_threshold (delivery 2 ["alice"; "alice"]) ps sat = false).
Proof. split; [by vm_compute|]. intros ps sat. apply threshold_unreachable. by vm_compute. Qed.

(** Whoever submits first takes the identifier. *)
Example identifier_taken :
  list_all (submitted [sign_with 9 (fields "p1" "eve" 5); sign_with 1 (fields "p1" "alice" 10)]) = [sign_with 9 (fields "p1" "eve" 5)].
Proof. by vm_compute. Qed.

Lemma trade_verdict policy ps tip : eq_ignore_ascii_case (pol_agreement_hash policy) trade_hash = true ->
  evaluate_policy trade policy ps tip = Ok (result_of policy ps tip).
Proof.
  intros He. unfold result_of. destruct (evaluate_policy trade policy ps tip) as [r| |] eqn:Hr; [done| |];
    exfalso; revert Hr; unfold evaluate_policy; cbn [agreement_canonical_bytes plain_agreement_json mbind res_bind];
    fold trade_hash; rewrite He; cbn; by intros.
Qed.

Lemma two_ok ps tip : evaluate_policy trade two_of_two ps tip = Ok (result_of two_of_two ps tip).
Proof. apply trade_verdict. by vm_compute. Qed.

Lemma verdict_exclusive_witness :
  release_eligible (result_of two_of_two both 50) = true /\ refund_eligible (result_of two_of_two both 50) = false.
Proof. exact (verdict_exclusive trade two_of_two both 50 _ (two_ok both 50)). Defined.

Lemma satisfied_both : outcome (result_of two_of_two both 50) = Satisfied.
Proof. by vm_compute. Qed.

Lemma release_is_final_witness : exists r,
  evaluate_policy trade two_of_two (both ++ [sign_with 9 (fields "p3" "eve" 5)]) 1000 = Ok r /\ outcome r = Satisfied /\
  release_eligible r = true /\ refund_eligible r = false.
Proof.
  apply (release_is_final trade two_of_two both _ 50 1000 _ (two_ok both 50) satisfied_both). intros p Hp. by apply elem_of_app; left.
Defined.

Lemma release_earned_witness : exists payload, agreement_canonical_bytes trade = Ok payload /\
  earned two_of_two (hex_encode (sha256 payload)) both.
Proof.
  refine (release_earned trade two_of_two both 50 _ _ (two_ok both 50) satisfied_both). repeat constructor; set_solver.
Defined.

Lemma refund_is_final_witness : exists r,
  evaluate_policy trade two_of_two (take 1 both ++ [sign_with 2 (fields "p2" "bob" 101)]) 150 = Ok r /\ outcome r = Timeout /\
  release_eligible r = false /\ refund_eligible r = true.
Proof.
  refine (refund_is_final trade two_of_two (take 1 both) _ 100 150 _ 100 eq_refl _ eq_refl ltac:(lia) (two_ok _ 100) _ _).
  - by repeat constructor.
  - by vm_compute.
  - intros p [Hp|Hp]%elem_of_app; [by left|]. apply list_elem_of_singleton in Hp as ->. right. split; [done|].
    intros q Hq. apply list_elem_of_singleton in Hq as ->. by vm_compute.
Defined.

Lemma late_proofs_never_release_witness :
  let policy := escrow [delivery 1 ["alice"]] [back_at 30000] None in
  outcome (result_of policy [sign_with 1 (fields "p1" "alice" 1700000000)] 20000) <> Satisfied.
Proof.
  refine (late_proofs_never_release trade _ [sign_with 1 (fields "p1" "alice" 1700000000)] 20000 _ [delivery 1 ["alice"]] 30000
    (trade_verdict _ _ _ _) _ _); [by vm_compute | by left | by repeat constructor].
Defined.
