(* ===== verification/Templates.v ===== *)
(** * Templates: the policies the wallet offers
    ([src/src/settlement.rs], lines 10440 to 10837)

    Three commercial policies, built from the parts of [Settlement]: milestones
    for a contractor, a deposit for a preorder, an escrow for a trade over the
    counter. Each checks its parameters first.

    Shown here: what a template gives is always accepted by the policy store; and
    what the escrow and the preorder mean: with enough attestors on time the money
    goes out, past the deadline it goes back, before it stays. *)

From Stdlib Require Import Ascii.
From stdpp Require Import sorting pretty.
From S2P Require Import Prelude Crypto TxCodec Activation Anchors Agreement Settlement.

Open Scope string_scope.
Open Scope list_scope.
Open Scope Z_scope.

Definition PROOF_POLICY_SCHEMA_ID : string := "irium.phase2.proof_policy.v1".

Record TemplateAttestor := { ta_id : string; ta_pubkey_hex : string; ta_display_name : option string }.
Record MilestoneSpec := {
  spec_id : string; spec_label : option string; spec_proof_type : string; spec_deadline : option Z;
  spec_holdback_bps : option Z; spec_holdback_release_height : option Z
}.

(** ** The checks the three share; [who] is the template's name *)
Definition check_attestor (who : string) (a : TemplateAttestor) : res string unit :=
  _ ← ensure (negb (is_blank (ta_id a))) (who +:+ ": attestor_id must not be empty");
  ensure (negb (is_blank (ta_pubkey_hex a))) (who +:+ ": pubkey_hex must not be empty").

Definition check_attestors (who : string) (l : list TemplateAttestor) : res string unit :=
  _ ← ensure (negb (bool_decide (length l = 0%nat))) (who +:+ ": attestors must not be empty");
  check_all (check_attestor who) l.

Definition bps_in_range (bps : Z) : bool := negb ((bps =? 0) || (10000 <=? bps)).

Definition approve (a : TemplateAttestor) : ApprovedAttestor :=
  {| attestor_id := ta_id a; att_pubkey_hex := ta_pubkey_hex a; att_display_name := ta_display_name a; att_domain := None |}.

Definition timed_holdback (bps : option Z) (height : option Z) : option PolicyHoldback :=
  (fun bps => {| holdback_bps := bps; release_requirement_id := None; hb_deadline := height |}) <$> bps.

(** ** Template 1: milestones for a contractor *)
Definition check_spec (seen : gset string) (ms : MilestoneSpec) : res string (gset string) :=
  _ ← ensure (negb (is_blank (spec_id ms))) "contractor_milestone_template: milestone_id must not be empty";
  _ ← ensure (bool_decide (spec_id ms ∉ seen))
        ("contractor_milestone_template: duplicate milestone_id '" +:+ spec_id ms +:+ "'");
  _ ← ensure (negb (is_blank (spec_proof_type ms)))
        ("contractor_milestone_template: milestone '" +:+ spec_id ms +:+ "' proof_type must not be empty");
  _ ← match spec_holdback_bps ms with
      | None => Ok tt
      | Some bps =>
          _ ← ensure (bps_in_range bps) ("contractor_milestone_template: milestone '" +:+ spec_id ms +:+ "' holdback_bps "
                +:+ num bps +:+ " out of range (1-9999)");
          ensure (bool_decide (is_Some (spec_holdback_release_height ms)))
            ("contractor_milestone_template: milestone '" +:+ spec_id ms
             +:+ "' holdback_bps set but holdback_release_height not supplied")
      end;
  Ok ({[spec_id ms]} ∪ seen).

Definition spec_requirement (ids : list string) (ms : MilestoneSpec) : ProofRequirement :=
  {| requirement_id := "req-" +:+ spec_id ms; req_proof_type := spec_proof_type ms; required_by := spec_deadline ms;
     required_attestor_ids := ids; resolution := MilestoneRelease; req_milestone := Some (spec_id ms);
     req_threshold := None |}.
Definition spec_rule (ms : MilestoneSpec) : option NoResponseRule :=
  dl ← spec_deadline ms;
  Some {| rule_id := "rule-" +:+ spec_id ms; rule_deadline := dl; rule_trigger := FundedAndNoRelease; rule_resolution := Refund;
          rule_milestone := Some (spec_id ms); rule_notes := Some ("timeout refund for milestone '" +:+ spec_id ms +:+ "'") |}.
Definition spec_milestone (ms : MilestoneSpec) : PolicyMilestone :=
  {| pm_id := spec_id ms; pm_label := spec_label ms;
     pm_holdback := timed_holdback (spec_holdback_bps ms) (spec_holdback_release_height ms) |}.

Definition contractor_milestone_template (id hash : string) (attestors : list TemplateAttestor)
    (milestones : list MilestoneSpec) (notes : option string) : res string ProofPolicy :=
  let who := "contractor_milestone_template" in
  _ ← ensure (negb (is_blank id)) (who +:+ ": policy_id must not be empty");
  _ ← check_attestors who attestors;
  _ ← ensure (negb (bool_decide (length milestones = 0%nat))) (who +:+ ": milestones must not be empty");
  _ ← fold_res check_spec ∅ milestones;
  Ok {| policy_id := id; pol_schema_id := PROOF_POLICY_SCHEMA_ID; pol_agreement_hash := hash;
        required_proofs := spec_requirement (ta_id <$> attestors) <$> milestones; no_response_rules := omap spec_rule milestones;
        attestors := approve <$> attestors; pol_notes := notes; pol_expires_at_height := None;
        pol_milestones := spec_milestone <$> milestones; pol_holdback := None |}.

(** ** Template 2: a preorder's deposit *)
Definition check_preorder_holdback (bps height : option Z) : res string unit :=
  match bps with
  | None => Ok tt
  | Some bps =>
      _ ← ensure (bps_in_range bps) ("preorder_deposit_template: holdback_bps " +:+ num bps +:+ " out of range (1-9999)");
      ensure (bool_decide (is_Some height))
        "preorder_deposit_template: holdback_bps set but holdback_release_height not supplied"
  end.

Definition release_requirement (id type : string) (deadline : Z) (ids : list string) (threshold : option Z) : ProofRequirement :=
  {| requirement_id := id; req_proof_type := type; required_by := Some deadline; required_attestor_ids := ids;
     resolution := Release; req_milestone := None; req_threshold := threshold |}.
Definition timeout_refund (deadline : Z) (notes : string) : NoResponseRule :=
  {| rule_id := "rule-timeout-refund"; rule_deadline := deadline; rule_trigger := FundedAndNoRelease; rule_resolution := Refund;
     rule_milestone := None; rule_notes := Some notes |}.

Definition preorder_deposit_template (id hash : string) (attestors : list TemplateAttestor) (type : string) (deadline : Z)
    (bps height : option Z) (notes : option string) : res string ProofPolicy :=
  let who := "preorder_deposit_template" in
  _ ← ensure (negb (is_blank id)) (who +:+ ": policy_id must not be empty");
  _ ← ensure (negb (is_blank type)) (who +:+ ": delivery_proof_type must not be empty");
  _ ← check_attestors who attestors;
  _ ← check_preorder_holdback bps height;
  Ok {| policy_id := id; pol_schema_id := PROOF_POLICY_SCHEMA_ID; pol_agreement_hash := hash;
        required_proofs := [release_requirement "req-delivery" type deadline (ta_id <$> attestors) None];
        no_response_rules := [timeout_refund deadline "refund buyer if delivery proof not provided by deadline"];
        attestors := approve <$> attestors; pol_notes := notes; pol_expires_at_height := None; pol_milestones := [];
        pol_holdback := timed_holdback bps height |}.

(** ** Template 3: escrow for a trade over the counter *)
Definition basic_otc_escrow_template (id hash : string) (attestors : list TemplateAttestor) (type : string) (deadline : Z)
    (threshold : option Z) (notes : option string) : res string ProofPolicy :=
  let who := "basic_otc_escrow_template" in
  _ ← ensure (negb (is_blank id)) (who +:+ ": policy_id must not be empty");
  _ ← ensure (negb (is_blank type)) (who +:+ ": release_proof_type must not be empty");
  _ ← check_attestors who attestors;
  _ ← ensure (negb (bool_decide (threshold = Some 0))) (who +:+ ": threshold must be >= 1");
  let eff := Z.max (default 1 threshold) 1 in
  _ ← ensure (eff <=? len attestors) (who +:+ ": threshold " +:+ num eff +:+ " exceeds attestor count " +:+ num (len attestors));
  Ok {| policy_id := id; pol_schema_id := PROOF_POLICY_SCHEMA_ID; pol_agreement_hash := hash;
        required_proofs := [release_requirement "req-release" type deadline (ta_id <$> attestors)
                              (if 1 <? eff then Some eff else None)];
        no_response_rules := [timeout_refund deadline "refund if release proof quorum not reached by deadline"];
        attestors := approve <$> attestors; pol_notes := notes; pol_expires_at_height := None; pol_milestones := [];
        pol_holdback := None |}.

(** ** Templates are accepted *)
Section accepted.

(** What is known of a milestone that passed. *)
Definition spec_fine (m : MilestoneSpec) : Prop :=
  match spec_holdback_bps m with
  | None => True
  | Some bps => bps_in_range bps = true /\ is_Some (spec_holdback_release_height m)
  end.

Lemma spec_checked seen m s : check_spec seen m = Ok s -> check_milestone_id seen (spec_milestone m) = Ok s /\ spec_fine m.
Proof.
  unfold check_spec. intros Hc. repeat accepted_step Hc. injection Hc as <-. unfold check_milestone_id.
  cbn [pm_id spec_milestone].
  repeat match goal with H : negb (is_blank (spec_id m)) = true |- _ => rewrite H; clear H
                       | H : bool_decide (_ ∉ _) = true |- _ => rewrite H; clear H end.
  split; [done|]. unfold spec_fine. destruct (spec_holdback_bps m) as [bps|]; [|done].
  match goal with H : _ = Ok _ |- _ => accepted_step H; apply ensure_ok, bool_decide_eq_true in H end. done.
Qed.

Lemma specs_checked ms : forall seen s, fold_res check_spec seen ms = Ok s ->
  fold_res check_milestone_id seen (spec_milestone <$> ms) = Ok s /\ Forall spec_fine ms.
Proof.
  induction ms as [|m ms IH]; intros seen s Hf; [split; [done|constructor]|].
  cbn [fold_res fmap list_fmap] in *. destruct (check_spec seen m) as [s'| |] eqn:Hc; [|discriminate Hf..].
  apply spec_checked in Hc as [-> Hm]. cbn [mbind res_bind] in *. apply IH in Hf as [Hf Ha]. by constructor; [|constructor].
Qed.

Lemma check_holdback_timed policy bps height : match bps with None => True | Some b => bps_in_range b = true /\ is_Some height end ->
  from_option (check_holdback policy) (Ok tt) (timed_holdback bps height) = Ok tt.
Proof.
  destruct bps as [b|]; cbn [timed_holdback fmap option_fmap option_map from_option]; [|done]. intros [Hb [h ->]].
  unfold check_holdback, holdback_range. cbn [holdback_bps release_requirement_id]. unfold bps_in_range in Hb. by rewrite Hb.
Qed.

Lemma check_milestone_holdback_fine policy m : spec_fine m -> check_milestone_holdback policy (spec_milestone m) = Ok tt.
Proof.
  unfold spec_fine, check_milestone_holdback. cbn [pm_holdback spec_milestone]. unfold timed_holdback.
  destruct (spec_holdback_bps m) as [b|]; [|done]. intros [Hb [h Hh]]. cbn [fmap option_fmap option_map].
  unfold holdback_range. cbn [holdback_bps release_requirement_id]. unfold bps_in_range in Hb. rewrite Hb. cbn [mbind res_bind ensure].
  unfold holdback_ends. cbn [hb_deadline release_requirement_id]. by rewrite Hh.
Qed.

Lemma check_threshold_fine r : match req_threshold r with None => True | Some t => 0 < t <= len (required_attestor_ids r) end ->
  check_threshold r = Ok tt.
Proof.
  unfold check_threshold. destruct (req_threshold r) as [t|]; [|done]. intros Ht.
  assert (t =? 0 = false) as -> by lia. assert (len (required_attestor_ids r) =? 0 = false) as -> by lia.
  assert (t <=? len (required_attestor_ids r) = true) as -> by lia. done.
Qed.

(** The policy of a template, in the three cases. *)
Inductive from_template (hash : string) (policy : ProofPolicy) : Prop :=
| from_contractor id ats ms notes : contractor_milestone_template id hash ats ms notes = Ok policy -> from_template hash policy
| from_preorder id ats type d bps h notes : preorder_deposit_template id hash ats type d bps h notes = Ok policy -> from_template hash policy
| from_otc id ats type d t notes : basic_otc_escrow_template id hash ats type d t notes = Ok policy -> from_template hash policy.

(** what a template gives, the policy store takes. *)
Theorem template_accepted hash policy : from_template hash policy -> is_blank hash = false -> check_policy policy = Ok tt.
Proof.
  intros Ht Hb. destruct Ht as [id ats ms notes Ht|id ats type d bps h notes Ht|id ats type d t notes Ht].
  - unfold contractor_milestone_template in Ht. repeat accepted_step Ht. injection Ht as <-. unfold check_policy.
    cbn [pol_agreement_hash pol_milestones pol_holdback required_proofs]. rewrite Hb.
    match goal with H : fold_res _ _ _ = _ |- _ => apply specs_checked in H as [-> Hf] end.
    cbn [mbind res_bind ensure negb from_option].
    rewrite (proj2 (check_all_ok _ (spec_milestone <$> ms)))
      by (apply Forall_fmap; eapply Forall_impl; [exact Hf|]; intros m; apply check_milestone_holdback_fine).
    by rewrite (proj2 (check_all_ok _ (spec_requirement _ <$> ms))) by (by apply Forall_fmap, Forall_true).
  - unfold preorder_deposit_template in Ht. repeat accepted_step Ht. injection Ht as <-. unfold check_policy.
    cbn [pol_agreement_hash pol_milestones pol_holdback required_proofs fold_res]. rewrite Hb. cbn [mbind res_bind ensure negb].
    rewrite check_holdback_timed; [done|]. destruct bps as [b|]; [|done].
    match goal with H : check_preorder_holdback _ _ = _ |- _ => unfold check_preorder_holdback in H; accepted_step H;
      apply ensure_ok, bool_decide_eq_true in H end. done.
  - unfold basic_otc_escrow_template in Ht. repeat accepted_step Ht. injection Ht as <-. unfold check_policy.
    cbn [pol_agreement_hash pol_milestones pol_holdback required_proofs fold_res from_option check_all]. rewrite Hb.
    cbn [mbind res_bind ensure negb]. rewrite check_threshold_fine; [done|].
    cbn [req_threshold required_attestor_ids release_requirement]. unfold len in *. rewrite length_fmap.
    destruct (1 <? _) eqn:He; [lia|done].
Qed.
End accepted.

(** ** What an escrow means *)
Section meaning.
Context `{C : Crypto} `{Hex} `{Json} `{ProofJson} `{AgreementJson}.

(** The attestors of the list with a valid proof of the type, dated in time. *)
Definition good_proof (policy : ProofPolicy) (hash type : string) (ids : list string) (deadline : Z) (p : SettlementProof) : bool :=
  eq_ignore_ascii_case (agreement_hash p) hash && bool_decide (verify_settlement_proof p policy = Ok tt)
  && bool_decide (proof_type p = type) && bool_decide (attested_by p ∈ ids) && (attestation_time p <=? deadline).
Definition quorum (policy : ProofPolicy) (hash type : string) (ids : list string) (deadline : Z) (ps : list SettlementProof) : gset string :=
  list_to_set ((fun p : SettlementProof => attested_by p) <$> List.filter (good_proof policy hash type ids deadline) ps).

Lemma counts_good policy hash rid type d ids t ps p : NoDup ((fun p : SettlementProof => proof_id p) <$> ps) -> p ∈ ps ->
  proof_counts (release_requirement rid type d ids t) (timely (Some d) ps (verified policy hash ps)) p
  = good_proof policy hash type ids d p.
Proof.
  intros Hd Hp. apply eq_bool_prop_intro. rewrite !Is_true_true. unfold proof_counts, good_proof, milestone_fits.
  cbn [req_proof_type required_attestor_ids req_milestone release_requirement].
  rewrite !andb_true_iff, !orb_true_iff, !bool_decide_eq_true, elem_of_timely, elem_of_verified. split.
  - intros [[[[(q & Hq & He & Hh & Hv) (q' & Hq' & He' & Ht)] Hty] Ha] _].
    assert (q = p) as -> by (eapply same_id; eauto). assert (q' = p) as -> by (eapply same_id; eauto). split_and!; (done || lia).
  - intros [[[[Hh Hv] Hty] Ha] Ht]. split_and!; [by exists p | exists p; split_and!; (done || lia) | done | done | auto].
Qed.

Lemma counted_quorum policy hash rid type d ids t ps : NoDup ((fun p : SettlementProof => proof_id p) <$> ps) ->
  counted (release_requirement rid type d ids t) (timely (Some d) ps (verified policy hash ps)) ps = quorum policy hash type ids d ps.
Proof.
  intros Hd. unfold counted, quorum. do 2 f_equal. apply List.filter_ext_in. intros p Hp%list_elem_of_In. by apply counts_good.
Qed.

(** One requirement, one deadline. *)
Lemma escrow_verdict agreement policy rid type d ids t notes ps tip r :
  required_proofs policy = [release_requirement rid type d ids t] -> no_response_rules policy = [timeout_refund d notes] ->
  pol_milestones policy = [] -> NoDup ((fun p : SettlementProof => proof_id p) <$> ps) ->
  evaluate_policy agreement policy ps tip = Ok r ->
  exists payload, agreement_canonical_bytes agreement = Ok payload /\
    (outcome r, release_eligible r, refund_eligible r) =
      if Z.max (default 1 t) 1 <=? Z.of_nat (size (quorum policy (hex_encode (sha256 payload)) type ids d ps))
      then (Satisfied, true, false) else if d <=? tip then (Timeout, false, true) else (Unsatisfied, false, false).
Proof.
  intros Hr Hn Hm Hd (b & Hb & _ & ->)%evaluated. exists b. split; [done|]. cbv zeta. rewrite Hm, bool_decide_true by done.
  rewrite <- (counted_quorum _ _ rid type d ids t) by done. set (hash := hex_encode _).
  unfold evaluate_whole. cbv zeta. rewrite Hr, Hn.
  cbn [List.filter is_release resolution release_requirement rule_milestone timeout_refund negb].
  rewrite bool_decide_true by done.
  cbn [refund_cutoff List.filter rule_resolution timeout_refund is_release negb fmap list_fmap rule_deadline minimum foldl].
  unfold all_met. rewrite bool_decide_false by done. cbn [forallb negb andb]. rewrite andb_true_r.
  pose proof (threshold_met (release_requirement rid type d ids t) ps (timely (Some d) ps (verified policy hash ps))) as Ht.
  unfold needed in Ht. cbn [req_threshold release_requirement] in Ht.
  destruct (req_satisfied_threshold _ _ _).
  - assert (_ <=? _ = true) as -> by (by apply Z.leb_le, Ht). done.
  - match goal with |- _ = (if ?b then _ else _) => assert (b = false) as -> end.
    { apply Z.leb_gt, Z.nle_gt. intros Hle. by apply Ht in Hle. }
    unfold fired, list_find. cbn [rule_deadline timeout_refund]. case_decide as Hdl; cbn [fmap option_fmap option_map snd].
    + by assert (d <=? tip = true) as -> by lia.
    + by assert (d <=? tip = false) as -> by lia.
Qed.

(** C12: what an escrow (or a preorder, with one attestor) decides on proofs whose
    identifiers are all different, as those of the store are: with as many distinct
    attestors as the threshold, each with a valid proof of the type dated in time,
    it releases; if not, past the deadline it refunds, and before the deadline it
    does neither.  Of proofs that a caller repeats under one identifier this is not
    so: see [one_attestor_meets_two] and [backdated_by_a_copy] in Settlement.v. *)
Theorem escrow_meaning agreement policy ats type d t ps tip r :
  ((exists id hash notes, basic_otc_escrow_template id hash ats type d t notes = Ok policy) \/
   (t = None /\ exists id hash bps h notes, preorder_deposit_template id hash ats type d bps h notes = Ok policy)) ->
  NoDup ((fun p : SettlementProof => proof_id p) <$> ps) -> evaluate_policy agreement policy ps tip = Ok r ->
  exists payload, agreement_canonical_bytes agreement = Ok payload /\
    (outcome r, release_eligible r, refund_eligible r) =
      if Z.max (default 1 t) 1 <=? Z.of_nat (size (quorum policy (hex_encode (sha256 payload)) type (ta_id <$> ats) d ps))
      then (Satisfied, true, false) else if d <=? tip then (Timeout, false, true) else (Unsatisfied, false, false).
Proof.
  intros [(pid & hash & notes & Ht)|(-> & pid & hash & bps & h & notes & Ht)] Hd He.
  - unfold basic_otc_escrow_template in Ht. repeat accepted_step Ht. injection Ht as <-.
    assert (Z.max (default 1 (if 1 <? Z.max (default 1 t) 1 then Some (Z.max (default 1 t) 1) else None)) 1
            = Z.max (default 1 t) 1) as Hk.
    { clear. assert (1 <= Z.max (default 1 t) 1) by lia. revert H. generalize (Z.max (default 1 t) 1). intros k Hk.
      destruct (1 <? k) eqn:?; cbn; lia. }
    rewrite <- Hk. by eapply escrow_verdict in He; [|done..].
  - unfold preorder_deposit_template in Ht. repeat accepted_step Ht. injection Ht as <-.
    by eapply escrow_verdict in He; [|done..].
Qed.
End meaning.

(** ** Examples *)
#[local] Existing Instances plain_hex plain_json plain_proof_json plain_agreement_json.

Definition ta (id : string) (key : Z) : TemplateAttestor := {| ta_id := id; ta_pubkey_hex := pubkey key; ta_display_name := None |}.
Definition otc (ids : list TemplateAttestor) (t : option Z) : res string ProofPolicy :=
  basic_otc_escrow_template "otc" trade_hash ids "delivered" 100 t None.
Definition otc_policy : ProofPolicy :=
  match otc [ta "alice" 1; ta "bob" 2] (Some 2) with Ok p => p | _ => two_of_two end.

Lemma otc_built : otc [ta "alice" 1; ta "bob" 2] (Some 2) = Ok otc_policy.
Proof. by vm_compute. Qed.

Lemma template_accepted_witness : check_policy otc_policy = Ok tt.
Proof.
  apply (template_accepted trade_hash otc_policy); [eapply from_otc; exact otc_built | by vm_compute].
Defined.

Lemma escrow_meaning_witness : exists payload, agreement_canonical_bytes trade = Ok payload /\
  (outcome (result_of otc_policy both 50), release_eligible (result_of otc_policy both 50), refund_eligible (result_of otc_policy both 50)) =
    if 2 <=? Z.of_nat (size (quorum otc_policy (hex_encode (sha256 payload)) "delivered" ["alice"; "bob"] 100 both))
    then (Satisfied, true, false) else if 100 <=? 50 then (Timeout, false, true) else (Unsatisfied, false, false).
Proof.
  refine (escrow_meaning trade otc_policy [ta "alice" 1; ta "bob" 2] "delivered" 100 (Some 2) both 50 _ _ _ (trade_verdict _ _ _ _)).
  - left. exists "otc", trade_hash, None. exact otc_built.
  - repeat constructor; set_solver.
  - by vm_compute.
Defined.

Example otc_releases : verdict otc_policy both 50 = Some (Satisfied, true, false).
Proof. by vm_compute. Qed.

(** The template compares the threshold with the number of attestors listed, and
    lists the same attestor twice: such an escrow can only be refunded. *)
Example otc_unreachable : exists p, otc [ta "alice" 1; ta "alice" 1] (Some 2) = Ok p /\
  forall ps sat, forallb (fun r => req_satisfied_threshold r ps sat) (required_proofs p) = false.
Proof.
  eexists. split; [by vm_compute|]. intros ps sat. cbn [required_proofs forallb]. rewrite threshold_unreachable; [done|]. by vm_compute.
Qed.
