(* ===== verification/Payout.v ===== *)
(** * Payout: the node's settlement desk
    ([src/src/bin/iriumd.rs], the handlers of the settlement service, and
    [derive_lifecycle] of [src/src/settlement.rs])

    The node keeps the proofs, the policies, and for each proof the height of the
    chain when it came. Proofs are submitted to it or gossiped; on request it judges
    an agreement by the policy and the unexpired proofs it has stored, and says which
    payments that makes. Rate limits, authentication, events and broadcast of what
    was accepted are left out; what links the agreement to transactions of the
    chain is an argument.

    Shown here: the handlers keep the stores sound; a payment to the payee is
    either earned by proofs in the store or granted by a rule whose deadline has
    come; what the payments add up to, and that they add up to too much when money
    that was held back is released; and what a status says that the policy does
    not. *)

From Stdlib Require Import Ascii.
From stdpp Require Import sorting pretty.
From S2P Require Import Prelude Crypto TxCodec Activation Anchors Agreement Settlement.

Open Scope string_scope.
Open Scope list_scope.
Open Scope Z_scope.

(** ** Lifecycle of an agreement, from its transactions *)
Inductive AgreementLifecycleState :=
| Draft | Proposed | Funded | PartiallyReleased | AllReleased | Refunded | Expired | Cancelled | DisputedMetadataOnly.

Record AgreementLinkedTx := {
  lt_txid : string; lt_role : AgreementAnchorRole; lt_milestone : option string; lt_height : option Z; lt_confirmed : bool;
  lt_value : Z
}.
Record AgreementMilestoneStatus := {
  ls_milestone : string; ls_title : string; ls_amount : Z; ls_funded : bool; ls_released : bool; ls_refunded : bool
}.
Record AgreementLifecycleView := {
  lv_state : AgreementLifecycleState; lv_hash : string; funded_amount : Z; released_amount : Z; refunded_amount : Z;
  lv_milestones : list AgreementMilestoneStatus; lv_linked : list AgreementLinkedTx
}.

Definition funds (r : AgreementAnchorRole) : bool :=
  match r with RFunding | RDepositLock | ROtcSettlement | RMerchantSettlement => true | _ => false end.
Definition releases (r : AgreementAnchorRole) : bool :=
  match r with RRelease | RMilestoneRelease => true | _ => false end.
Definition refunds (r : AgreementAnchorRole) : bool := match r with RRefund => true | _ => false end.

(** [sum] on [u64] *)
Definition linked_sum (f : AgreementAnchorRole -> bool) (txs : list AgreementLinkedTx) : Z :=
  foldl (fun s t => as_u64 (s + lt_value t)) 0 (List.filter (fun t => f (lt_role t)) txs).

Definition milestone_status (txs : list AgreementLinkedTx) (m : AgreementMilestone) : AgreementMilestoneStatus :=
  let has f := existsb (fun t => f (lt_role t) && bool_decide (lt_milestone t = Some (milestone_id m))) txs in
  {| ls_milestone := milestone_id m; ls_title := title m; ls_amount := amount m;
     ls_funded := has (fun r => match r with RFunding => true | _ => false end);
     ls_released := has (fun r => match r with RMilestoneRelease => true | _ => false end); ls_refunded := has refunds |}.

Definition lifecycle_state (a : AgreementObject) (txs : list AgreementLinkedTx) (funded released refunded tip : Z)
    : AgreementLifecycleState :=
  if disputed_metadata_only a then DisputedMetadataOnly else
  if (0 <? refunded) || existsb (fun t => refunds (lt_role t)) txs then Refunded else
  if (total_amount a <=? released) && (0 <? released) then AllReleased else
  if 0 <? released then PartiallyReleased else
  if 0 <? funded then
    if default U64_MAX (minimum (rc_timeout_height <$> refund_conditions a)) <=? tip then Expired else Funded
  else match settlement_deadline (deadlines a) with
       | Some d => if d <=? tip then Expired else Proposed
       | None => Proposed
       end.

Definition derive_lifecycle (a : AgreementObject) (hash : string) (txs : list AgreementLinkedTx) (tip : Z)
    : AgreementLifecycleView :=
  let funded := linked_sum funds txs in
  let released := linked_sum releases txs in
  let refunded := linked_sum refunds txs in
  {| lv_state := lifecycle_state a txs funded released refunded tip; lv_hash := hash; funded_amount := funded;
     released_amount := released; refunded_amount := refunded; lv_milestones := milestone_status txs <$> milestones a;
     lv_linked := txs |}.

(** ** The desk *)
Section desk.
Context `{C : Crypto} `{Hex} `{Json} `{ProofJson} `{AgreementJson}.

Record Desk := {
  proof_store : gmap string SettlementProof; policy_store : gmap string ProofPolicy; proof_heights : gmap string Z;
  tip_height : Z
}.

Definition empty_desk : Desk := {| proof_store := ∅; policy_store := ∅; proof_heights := ∅; tip_height := 0 |}.

Record SubmitProofResponse := { sr_outcome : SubmitProofOutcome; sr_tip : Z; sr_expired : bool; sr_status : string }.

Definition past_expiry (h : option Z) (tip : Z) : bool := match h with None => false | Some h => h <=? tip end.
Definition proof_lifecycle_status (h : option Z) (tip : Z) : string := if past_expiry h tip then "expired" else "active".

(** The height is noted first, whatever comes of the proof. *)
Definition submit_proof_rpc (d : Desk) (p : SettlementProof) : res string SubmitProofResponse * Desk :=
  let '(out, store) := submit (proof_store d) p in
  let tip := tip_height d in
  (o ← out; Ok {| sr_outcome := o; sr_tip := tip; sr_expired := past_expiry (expires_at_height p) tip;
                  sr_status := proof_lifecycle_status (expires_at_height p) tip |},
   {| proof_store := store; policy_store := policy_store d; proof_heights := <[proof_id p := tip]> (proof_heights d);
      tip_height := tip |}).

(** One proof of the gossip inbox: the height is noted when it was accepted. *)
Definition gossip_proof (d : Desk) (p : SettlementProof) : Desk :=
  let '(out, store) := submit (proof_store d) p in
  {| proof_store := store; policy_store := policy_store d; tip_height := tip_height d;
     proof_heights := match out with
                      | Ok o => if spo_accepted o then <[proof_id p := tip_height d]> (proof_heights d) else proof_heights d
                      | _ => proof_heights d
                      end |}.

Definition store_policy_rpc (d : Desk) (p : ProofPolicy) (replace : bool) : res string StorePolicyOutcome * Desk :=
  let '(out, store) := store_policy (policy_store d) p replace in
  (out, {| proof_store := proof_store d; policy_store := store; proof_heights := proof_heights d; tip_height := tip_height d |}).

Inductive Request :=
| Submit (p : SettlementProof) | Gossip (ps : list SettlementProof) | StorePolicy (p : ProofPolicy) (replace : bool) | Tip (h : Z).

Definition handle (d : Desk) (r : Request) : Desk :=
  match r with
  | Submit p => (submit_proof_rpc d p).2
  | Gossip ps => foldl gossip_proof d ps
  | StorePolicy p replace => (store_policy_rpc d p replace).2
  | Tip h => {| proof_store := proof_store d; policy_store := policy_store d; proof_heights := proof_heights d; tip_height := h |}
  end.
Definition desk_after (rs : list Request) : Desk := foldl handle empty_desk rs.

(** ** Judging *)
Definition active_proofs (d : Desk) (hash : string) : list SettlementProof :=
  List.filter (fun p => negb (past_expiry (expires_at_height p) (tip_height d))) (list_by_agreement (proof_store d) hash).

Definition expiry_notes (d : Desk) (hash : string) : list string :=
  omap (fun p : SettlementProof => h ← expires_at_height p; if h <=? tip_height d
    then Some ("proof '" +:+ proof_id p +:+ "' skipped: expired at height " +:+ num h +:+ " (tip " +:+ num (tip_height d) +:+ ")")
    else None) (list_by_agreement (proof_store d) hash).

Record EvaluatePolicyResponse := {
  ep_agreement_hash : string; ep_policy_found : bool; ep_policy_id : option string; ep_tip : Z; ep_proof_count : Z;
  ep_expired_count : Z; ep_expired : bool; ep_matched_count : Z; ep_result : PolicyEvaluationResult
}.

Definition idle_result (why : string) (rules : list string) : PolicyEvaluationResult :=
  {| outcome := Unsatisfied; release_eligible := false; refund_eligible := false; reason := why; evaluated_rules := rules;
     matched_proof_ids := []; milestone_results := []; completed_milestone_count := 0; total_milestone_count := 0;
     holdback := None; threshold_results := [] |}.

Definition with_rules (r : PolicyEvaluationResult) (rules : list string) : PolicyEvaluationResult :=
  {| outcome := outcome r; release_eligible := release_eligible r; refund_eligible := refund_eligible r; reason := reason r;
     evaluated_rules := rules; matched_proof_ids := matched_proof_ids r; milestone_results := milestone_results r;
     completed_milestone_count := completed_milestone_count r; total_milestone_count := total_milestone_count r;
     holdback := holdback r; threshold_results := threshold_results r |}.

Definition hash_of (a : AgreementObject) : res string string :=
  map_err (fun e => "agreement_hash_failed:" +:+ e) (compute_agreement_hash_hex a).
Definition judge (a : AgreementObject) (policy : ProofPolicy) (ps : list SettlementProof) (tip : Z) : res string PolicyEvaluationResult :=
  map_err (fun e => "policy_eval_failed:" +:+ e) (evaluate_policy a policy ps tip).

Definition evaluate_policy_rpc (d : Desk) (a : AgreementObject) : res string EvaluatePolicyResponse :=
  let tip := tip_height d in
  hash ← hash_of a;
  let response found id count skipped expired r :=
    {| ep_agreement_hash := hash; ep_policy_found := found; ep_policy_id := id; ep_tip := tip; ep_proof_count := count;
       ep_expired_count := skipped; ep_expired := expired; ep_matched_count := len (matched_proof_ids r); ep_result := r |} in
  match get_policy (policy_store d) hash with
  | None => Ok (response false None 0 0 false (idle_result "no policy stored for this agreement" []))
  | Some policy =>
      let notes := expiry_notes d hash in
      let ps := active_proofs d hash in
      let respond expired r := response true (Some (policy_id policy)) (len ps) (len notes) expired r in
      if past_expiry (pol_expires_at_height policy) tip then
        Ok (respond true (idle_result ("policy expired at height " +:+ num (default 0 (pol_expires_at_height policy))) notes))
      else r ← judge a policy ps tip; Ok (respond false (with_rules r (notes ++ evaluated_rules r)))
  end.

(** The caller brings the policy and the proofs. *)
Definition check_policy_rpc (d : Desk) (a : AgreementObject) (policy : ProofPolicy) (ps : list SettlementProof)
    : res string (string * PolicyEvaluationResult) :=
  hash ← hash_of a; r ← judge a policy ps (tip_height d); Ok (hash, r).

(** ** Paying *)
Record SettlementAction := {
  action : string; recipient_label : string; recipient_address : string; amount_bps : Z; amount_sat : Z; executable : bool;
  hold_reason : option string; executable_after_height : option Z
}.

Definition address_of (a : AgreementObject) (id : string) : string :=
  match list_find (fun p => party_id p = id) (parties a) with Some (_, p) => address p | None => id end.

(** [(total as u128 * bps as u128 / 10000) as u64] *)
Definition share (total bps : Z) : Z := as_u64 (total * bps / 10000).

Definition full (act label addr : string) (total : Z) : SettlementAction :=
  {| action := act; recipient_label := label; recipient_address := addr; amount_bps := 10000; amount_sat := total;
     executable := true; hold_reason := None; executable_after_height := None |}.

Definition holdback_actions (addr : string) (total : Z) (hb : HoldbackEvaluationResult) : list SettlementAction :=
  {| action := "release"; recipient_label := "payee (immediate)"; recipient_address := addr;
     amount_bps := immediate_release_bps hb; amount_sat := share total (immediate_release_bps hb); executable := true;
     hold_reason := None; executable_after_height := None |} ::
  if 0 <? he_holdback_bps hb then
    [{| action := "release"; recipient_label := "payee (holdback)"; recipient_address := addr; amount_bps := he_holdback_bps hb;
        amount_sat := share total (he_holdback_bps hb); executable := holdback_released hb;
        hold_reason := if holdback_released hb then None else Some (holdback_reason hb);
        executable_after_height := if holdback_released hb then None else he_deadline_height hb |}]
  else [].

Definition settlement_actions (a : AgreementObject) (r : PolicyEvaluationResult) : list SettlementAction :=
  let total := total_amount a in
  if release_eligible r then
    match holdback r with
    | Some hb => holdback_actions (address_of a (payee a)) total hb
    | None => [full "release" "payee" (address_of a (payee a)) total]
    end
  else if refund_eligible r then [full "refund" "payer" (address_of a (payer a)) total] else [].

Record BuildSettlementTxResponse := {
  bs_agreement_hash : string; bs_policy_found : bool; bs_tip : Z; bs_result : PolicyEvaluationResult; bs_total : Z;
  actions : list SettlementAction
}.

Definition build_settlement_tx_rpc (d : Desk) (a : AgreementObject) : res string BuildSettlementTxResponse :=
  let tip := tip_height d in
  hash ← hash_of a;
  let response found r acts := {| bs_agreement_hash := hash; bs_policy_found := found; bs_tip := tip; bs_result := r;
    bs_total := total_amount a; actions := acts |} in
  match get_policy (policy_store d) hash with
  | None => Ok (response false (idle_result "no policy stored for this agreement" []) [])
  | Some policy =>
      r ← judge a policy (active_proofs d hash) tip;
      Ok (response true r (settlement_actions a r))
  end.

(** ** Status *)
Record AgreementStatusResponse := {
  as_hash : string; lifecycle : AgreementLifecycleView; proof_depth : option Z; proof_final : bool; as_release_eligible : bool
}.

(** From the least height of the agreement's proofs. *)
Definition proof_finality (d : Desk) (hash : string) (finality_depth : Z) : option Z * bool :=
  match minimum (omap (fun p : SettlementProof => proof_heights d !! proof_id p) (list_by_agreement (proof_store d) hash)) with
  | None => (None, false)
  | Some h => let depth := sat_sub (tip_height d) h in (Some depth, finality_depth <=? depth)
  end.

Definition agreement_status (d : Desk) (finality_depth : Z) (a : AgreementObject) (linked : list AgreementLinkedTx)
    : res string AgreementStatusResponse :=
  hash ← compute_agreement_hash_hex a;
  let view := derive_lifecycle a hash linked (tip_height d) in
  let '(depth, final) := proof_finality d hash finality_depth in
  Ok {| as_hash := hash; lifecycle := view; proof_depth := depth; proof_final := final;
        as_release_eligible := final && match lv_state view with Funded | PartiallyReleased => true | _ => false end |}.
End desk.

(** ** The stores stay sound *)
Section sound.
Context `{C : Crypto} `{Hex} `{Json} `{ProofJson} `{AgreementJson}.

Definition sound_proofs (s : gmap string SettlementProof) : Prop :=
  forall id (p : SettlementProof), s !! id = Some p -> proof_id p = id /\ check_submission p = Ok tt.
Definition sound_policies (s : gmap string ProofPolicy) : Prop :=
  forall id p, s !! id = Some p -> id = to_ascii_lowercase (pol_agreement_hash p) /\ check_policy p = Ok tt.

Lemma submit_sound s p : sound_proofs s -> sound_proofs (submit s p).2.
Proof.
  intros Hs. rewrite submit_store. unfold admissible. destruct (check_submission p) as [[]| |] eqn:Hc; [|done..].
  destruct (s !! proof_id p) eqn:Hl; [done|]. intros id q. rewrite lookup_insert_Some. intros [[<- <-]|[_ Hq]]; [done|].
  by apply Hs in Hq.
Qed.

Lemma store_policy_sound s p replace : sound_policies s -> sound_policies (store_policy s p replace).2.
Proof. intros Hs id q [Hq|(-> & -> & Hc & _)]%store_policy_store; [by apply Hs | done]. Qed.

Lemma submit_rpc_store d p : proof_store (submit_proof_rpc d p).2 = (submit (proof_store d) p).2.
Proof. unfold submit_proof_rpc. by destruct (submit _ _). Qed.
Lemma gossip_store d p : proof_store (gossip_proof d p) = (submit (proof_store d) p).2 /\ policy_store (gossip_proof d p) = policy_store d.
Proof. unfold gossip_proof. by destruct (submit _ _). Qed.

Lemma gossips_sound ps : forall d, sound_proofs (proof_store d) ->
  sound_proofs (proof_store (foldl gossip_proof d ps)) /\ policy_store (foldl gossip_proof d ps) = policy_store d.
Proof.
  induction ps as [|p ps IH]; intros d Hd; [done|]. cbn [foldl]. destruct (gossip_store d p) as [He Hp].
  destruct (IH (gossip_proof d p)) as [Hs Hq]; [rewrite He; by apply submit_sound|]. split; [done|]. by rewrite Hq.
Qed.

Lemma handle_sound d r : sound_proofs (proof_store d) -> sound_policies (policy_store d) ->
  sound_proofs (proof_store (handle d r)) /\ sound_policies (policy_store (handle d r)).
Proof.
  intros Hp Hq. destruct r as [p|ps|p replace|h]; cbn [handle].
  - rewrite submit_rpc_store. split; [by apply submit_sound|]. unfold submit_proof_rpc. by destruct (submit _ _).
  - destruct (gossips_sound ps d Hp) as [Hs He]. by rewrite He.
  - pose proof (store_policy_sound (policy_store d) p replace Hq) as Hs. unfold store_policy_rpc.
    by destruct (store_policy _ _ _).
  - done.
Qed.

Lemma desk_sound rs : sound_proofs (proof_store (desk_after rs)) /\ sound_policies (policy_store (desk_after rs)).
Proof.
  unfold desk_after. assert (sound_proofs (proof_store empty_desk) /\ sound_policies (policy_store empty_desk)) as Hd
    by (split; intros id p; cbn; by rewrite lookup_empty).
  revert Hd. generalize empty_desk. induction rs as [|r rs IH]; intros d [Hp Hq]; [done|]. cbn [foldl].
  apply IH. by apply handle_sound.
Qed.

(** What the desk judges: stored proofs of the agreement, unexpired, each once. *)
Lemma elem_of_active d hash (p : SettlementProof) : p ∈ active_proofs d hash <->
  (exists id, proof_store d !! id = Some p) /\ to_ascii_lowercase (agreement_hash p) = to_ascii_lowercase hash /\
  past_expiry (expires_at_height p) (tip_height d) = false.
Proof.
  unfold active_proofs, list_by_agreement, stored. rewrite list_elem_of_In, filter_In, <- list_elem_of_In, merge_sort_Permutation.
  rewrite list_elem_of_In, filter_In, <- list_elem_of_In, bool_decide_eq_true, negb_true_iff, list_elem_of_fmap.
  assert ((exists x, p = x.2 /\ x ∈ map_to_list (proof_store d)) <-> exists id, proof_store d !! id = Some p) as ->; [|tauto].
  split.
  - intros ([id q] & -> & Hq%elem_of_map_to_list). by exists id.
  - intros [id Hq]. exists (id, p). by rewrite elem_of_map_to_list.
Qed.

Lemma nodup_filter {A B} (f : A -> B) (g : A -> bool) l : NoDup (f <$> l) -> NoDup (f <$> List.filter g l).
Proof.
  induction l as [|x l IH]; [done|]. cbn [fmap list_fmap List.filter]. intros [Hx Hl]%NoDup_cons. destruct (g x); [|by apply IH].
  cbn [fmap list_fmap]. apply NoDup_cons. split; [|by apply IH]. intros (y & Hy & Hin)%list_elem_of_fmap.
  apply Hx. rewrite Hy. apply list_elem_of_fmap_2. apply list_elem_of_In, filter_In in Hin as [Hin _]. by apply list_elem_of_In.
Qed.

Lemma active_nodup d hash : sound_proofs (proof_store d) ->
  NoDup ((fun p : SettlementProof => proof_id p) <$> active_proofs d hash).
Proof.
  intros Hd. unfold active_proofs. apply nodup_filter. unfold list_by_agreement. rewrite merge_sort_Permutation.
  apply nodup_filter. unfold stored. rewrite <- list_fmap_compose.
  rewrite (list_fmap_ext _ fst); [apply NoDup_fst_map_to_list|].
  intros i [id p] Hp%list_elem_of_lookup_2%elem_of_map_to_list. by apply Hd in Hp as (? & _).
Qed.
End sound.

(** ** Who is paid *)
Section paying.
Context `{C : Crypto} `{Hex} `{Json} `{ProofJson} `{AgreementJson}.

Lemma hash_of_ok a hash : hash_of a = Ok hash -> exists payload, validate_agreement a = Ok tt /\
  agreement_canonical_bytes a = Ok payload /\ hash = hex_encode (sha256 payload).
Proof.
  unfold hash_of, compute_agreement_hash_hex, compute_agreement_hash. intros Hh.
  destruct (validate_agreement a) as [[]| |]; [|discriminate Hh..]. cbn [mbind res_bind] in Hh.
  destruct (agreement_canonical_bytes a) as [b| |]; [|discriminate Hh..]. exists b. by injection Hh as <-.
Qed.

Lemma judge_ok a policy ps tip r : judge a policy ps tip = Ok r -> evaluate_policy a policy ps tip = Ok r.
Proof. unfold judge. by destruct (evaluate_policy _ _ _ _). Qed.

Lemma built d a resp : build_settlement_tx_rpc d a = Ok resp -> actions resp <> [] -> exists payload policy,
  agreement_canonical_bytes a = Ok payload /\ let hash := hex_encode (sha256 payload) in
  get_policy (policy_store d) hash = Some policy /\
  evaluate_policy a policy (active_proofs d hash) (tip_height d) = Ok (bs_result resp) /\
  actions resp = settlement_actions a (bs_result resp).
Proof.
  unfold build_settlement_tx_rpc. intros Hb Ha. destruct (hash_of a) as [hash| |] eqn:Hh; [|discriminate Hb..].
  apply hash_of_ok in Hh as (payload & _ & Hc & ->). cbn [mbind res_bind] in Hb.
  destruct (get_policy _ _) as [policy|] eqn:Hp; [|injection Hb as <-; done].
  destruct (judge _ _ _ _) as [r| |] eqn:Hj; [|discriminate Hb..]. cbn [mbind res_bind] in Hb. injection Hb as <-.
  exists payload, policy. cbn. by apply judge_ok in Hj.
Qed.

Lemma release_action a r act : act ∈ settlement_actions a r -> action act = "release" -> release_eligible r = true.
Proof.
  unfold settlement_actions. cbv zeta. destruct (release_eligible r); [done|]. destruct (refund_eligible r); [|set_solver].
  intros Ha. apply list_elem_of_singleton in Ha as ->. discriminate.
Qed.

(** C10: a payment to the payee that the node builds, after any requests, is
    either earned by proofs it has stored for the agreement, unexpired, under a
    policy that passed its checks; or granted by a rule of that policy whose
    deadline the chain has reached. *)
Theorem payee_paid_when_due rs a resp act : let d := desk_after rs in
  build_settlement_tx_rpc d a = Ok resp -> act ∈ actions resp -> action act = "release" ->
  exists payload policy, agreement_canonical_bytes a = Ok payload /\ let hash := hex_encode (sha256 payload) in
    get_policy (policy_store d) hash = Some policy /\ check_policy policy = Ok tt /\
    (earned policy hash (active_proofs d hash) \/
     exists rule, rule ∈ no_response_rules policy /\ rule_deadline rule <= tip_height d /\
       is_release (rule_resolution rule) = true).
Proof.
  intros d Hb Hin Hact. destruct (built d a resp Hb) as (payload & policy & Hc & Hp & He & Ha); [by intros Hn; rewrite Hn in Hin; apply not_elem_of_nil in Hin|].
  exists payload, policy. split; [done|]. cbv zeta in *. split; [done|]. destruct (desk_sound rs) as [Hsp Hsq]. fold d in Hsp, Hsq.
  split; [by apply Hsq in Hp as [_ ?]|]. rewrite Ha in Hin. pose proof (release_action _ _ _ Hin Hact) as Hr.
  pose proof (verdict_coherent _ _ _ _ _ He) as Hco. destruct (outcome (bs_result resp)) eqn:Ho; cbn [coherent] in Hco.
  - left. destruct (satisfied_earned _ _ _ _ _ (active_nodup d _ Hsp) He Ho) as (payload' & Hc' & Hea).
    rewrite Hc in Hc'. by injection Hc' as <-.
  - right. by eapply timeout_release.
  - destruct Hco as [Hco _]. by rewrite Hr in Hco.
Qed.

Definition paid (l : list SettlementAction) : Z := foldr Z.add 0 (amount_sat <$> l).

Lemma share_small total bps : u64 total -> 0 <= bps <= 10000 -> share total bps = total * bps / 10000.
Proof. intros Ht Hb. unfold share, as_u64. unfold u64 in Ht. apply Z.mod_small. split; [apply Z.div_pos; lia|]. apply Z.div_lt_upper_bound; nia. Qed.

Lemma holdback_split hb base scope ps sat tip : let e := evaluate_holdback hb base scope ps sat tip in
  0 < holdback_bps hb < 10000 -> base = true ->
  he_holdback_bps e = holdback_bps hb /\
  immediate_release_bps e = if holdback_released e then 10000 else 10000 - holdback_bps hb.
Proof.
  intros e Hb ->. unfold e, evaluate_holdback. cbn [negb]. destruct (match release_requirement_id hb with Some _ => _ | None => _ end); [done|].
  destruct (hb_deadline hb); [destruct (_ <=? _)|]; cbn; unfold sat_sub; split; lia.
Qed.

Lemma whole_holdback policy ps rules sat tip hb e : let r := evaluate_whole policy ps rules sat tip in
  holdback r = Some e -> pol_holdback policy = Some hb -> 0 < holdback_bps hb < 10000 ->
  he_holdback_bps e = holdback_bps hb /\
  immediate_release_bps e = if holdback_released e then 10000 else 10000 - holdback_bps hb.
Proof.
  unfold evaluate_whole. cbv zeta. destruct (all_met _ _ _).
  - cbn [holdback]. intros He Hp Hb. rewrite Hp in He. injection He as <-. by apply holdback_split.
  - destruct (fired _ _); [done|]. destruct (refund_deadlines _ _ _ _) as [notes []]; done.
Qed.

Lemma checked_holdback policy hb : check_policy policy = Ok tt -> pol_holdback policy = Some hb -> 0 <= holdback_bps hb ->
  0 < holdback_bps hb < 10000.
Proof.
  unfold check_policy. intros Hc Hp Hb. do 3 accepted_step Hc. rewrite Hp in *. cbn [from_option] in *.
  match goal with H : check_holdback _ _ = Ok _ |- _ => unfold check_holdback in H; accepted_step H end.
  unfold holdback_range in *. lia.
Qed.

Lemma evaluated_holdback a policy ps tip r e : evaluate_policy a policy ps tip = Ok r -> holdback r = Some e ->
  pol_milestones policy = [] /\ release_eligible r = true /\ is_Some (pol_holdback policy) /\
  exists rules sat, r = evaluate_whole policy ps rules sat tip.
Proof.
  intros (b & _ & _ & ->)%evaluated. cbv zeta. case_bool_decide as Hm.
  - intros He. split; [by destruct (pol_milestones policy)|]. split_and!; [| |eauto]; revert He; unfold evaluate_whole; cbv zeta;
      (destruct (all_met _ _ _); [|destruct (fired _ _); [done|]; destruct (refund_deadlines _ _ _ _) as [notes []]; done]).
    + done.
    + cbn [holdback]. by destruct (pol_holdback policy).
  - unfold evaluate_milestones. cbv zeta. by destruct (aggregate _ _ _) as [[[? ?] ?] ?].
Qed.

Lemma split_sum total b : 0 <= total -> 0 < b < 10000 ->
  total - 1 <= total * (10000 - b) / 10000 + total * b / 10000 <= total.
Proof.
  intros Ht Hb. pose proof (Z.div_mod (total * (10000 - b)) 10000 ltac:(lia)). pose proof (Z.mod_pos_bound (total * (10000 - b)) 10000 ltac:(lia)).
  pose proof (Z.div_mod (total * b) 10000 ltac:(lia)). pose proof (Z.mod_pos_bound (total * b) 10000 ltac:(lia)). nia.
Qed.

(** C27: what the payments add up to.  Without money held back: the total, or
    nothing.  While it is held back: the total but for a rounding of one unit, of
    which only the immediate part may be paid.  Once it is released: the total and
    the part held back on top. *)
Theorem payouts a policy ps tip r : u64 (total_amount a) -> (forall hb, pol_holdback policy = Some hb -> 0 <= holdback_bps hb) ->
  check_policy policy = Ok tt -> evaluate_policy a policy ps tip = Ok r ->
  let acts := settlement_actions a r in
  let total := total_amount a in
  match holdback r with
  | None => paid acts = if release_eligible r || refund_eligible r then total else 0
  | Some e =>
      if holdback_released e then paid acts = total + total * he_holdback_bps e / 10000
      else total - 1 <= paid acts <= total /\
        paid (List.filter executable acts) = total * (10000 - he_holdback_bps e) / 10000
  end.
Proof.
  intros Ht Hb Hc He. cbv zeta. unfold settlement_actions. destruct (holdback r) as [e|] eqn:Hh.
  - destruct (evaluated_holdback _ _ _ _ _ _ He Hh) as (_ & -> & [hb Hp] & rules & sat & ->).
    pose proof (checked_holdback _ _ Hc Hp (Hb _ Hp)) as Hr. destruct (whole_holdback _ _ _ _ _ _ _ Hh Hp Hr) as [Hbps Himm].
    unfold holdback_actions. rewrite Hbps, Himm. assert (0 <? holdback_bps hb = true) as -> by lia.
    unfold paid. destruct (holdback_released e); cbn [List.filter executable fmap list_fmap foldr amount_sat].
    + rewrite !share_small by (done || lia). rewrite Z.div_mul by lia. lia.
    + rewrite !share_small by (done || lia). pose proof (split_sum (total_amount a) (holdback_bps hb) (proj1 Ht) Hr). lia.
  - destruct (release_eligible r), (refund_eligible r); cbn; lia.
Qed.
End paying.

(** ** Examples *)
#[local] Existing Instances plain_hex plain_json plain_proof_json plain_agreement_json.

Definition desk_with (policy : ProofPolicy) (ps : list SettlementProof) (tip : Z) : Desk :=
  desk_after (StorePolicy policy false :: (Submit <$> ps) ++ [Tip tip]).
Definition payment (d : Desk) : BuildSettlementTxResponse :=
  match build_settlement_tx_rpc d trade with
  | Ok resp => resp
  | _ => {| bs_agreement_hash := ""; bs_policy_found := false; bs_tip := 0; bs_result := idle_result "" []; bs_total := 0; actions := [] |}
  end.
Definition amounts (d : Desk) : list (string * Z * bool) :=
  (fun act => (recipient_label act, amount_sat act, executable act)) <$> actions (payment d).

Example two_paid : amounts (desk_with two_of_two both 50) = [("payee", 100, true)].
Proof. by vm_compute. Qed.
Example one_not_paid : amounts (desk_with two_of_two (take 1 both) 50) = [].
Proof. by vm_compute. Qed.
Example one_sent_back : amounts (desk_with two_of_two (take 1 both) 100) = [("payer", 100, true)].
Proof. by vm_compute. Qed.

Definition held : PolicyHoldback := {| holdback_bps := 1000; release_requirement_id := None; hb_deadline := Some 60 |}.
Definition held_policy : ProofPolicy := escrow [delivery 1 ["alice"]] [] (Some held).

(** Of 100, 90 are paid at once; when the 10 held back are released, 110 are. *)
Example holdback_overpays :
  amounts (desk_with held_policy both 50) = [("payee (immediate)", 90, true); ("payee (holdback)", 10, false)] /\
  amounts (desk_with held_policy both 60) = [("payee (immediate)", 100, true); ("payee (holdback)", 10, true)].
Proof. split; by vm_compute. Qed.

Definition amend (policy : ProofPolicy) (expiry : option Z) (ms : list PolicyMilestone) (reqs : list ProofRequirement) : ProofPolicy :=
  {| policy_id := policy_id policy; pol_schema_id := pol_schema_id policy; pol_agreement_hash := pol_agreement_hash policy;
     required_proofs := reqs; no_response_rules := no_response_rules policy; attestors := attestors policy;
     pol_notes := pol_notes policy; pol_expires_at_height := expiry; pol_milestones := ms; pol_holdback := pol_holdback policy |}.

(** A policy that has expired is no ground for a release, and pays. *)
Example expired_policy_pays :
  let d := desk_with (amend two_of_two (Some 40) [] (required_proofs two_of_two)) both 50 in
  match evaluate_policy_rpc d trade with Ok resp => ep_expired resp && negb (release_eligible (ep_result resp)) | _ => false end = true /\
  amounts d = [("payee", 100, true)].
Proof. split; by vm_compute. Qed.

(** What a milestone holds back is paid at once. *)
Definition part (hb : option PolicyHoldback) : PolicyMilestone := {| pm_id := "part"; pm_label := None; pm_holdback := hb |}.
Definition part_delivery : ProofRequirement :=
  {| requirement_id := "req"; req_proof_type := "delivered"; required_by := None; required_attestor_ids := ["alice"];
     resolution := MilestoneRelease; req_milestone := Some "part"; req_threshold := None |}.
Example milestone_holdback_paid :
  let d := desk_with (amend two_of_two None [part (Some held)] [part_delivery]) both 50 in
  (mr_holdback <$> milestone_results (bs_result (payment d))) = [Some {| holdback_present := true; holdback_released := false;
    he_holdback_bps := 1000; immediate_release_bps := 9000; holdback_outcome := Held;
    holdback_reason := "base satisfied; holdback pending release condition"; he_deadline_height := Some 60 |}] /\
  amounts d = [("payee", 100, true)].
Proof. split; by vm_compute. Qed.

(** The expiry of a proof is not signed: a copy with another one, sent first,
    keeps the proof out. *)
Definition expiring (p : SettlementProof) (h : Z) : SettlementProof :=
  {| signed := signed p; signature := signature p; expires_at_height := Some h; typed_payload := typed_payload p |}.
Definition alice_proof : SettlementProof := sign_with 1 (fields "p1" "alice" 10).
Definition one_of_one : ProofPolicy := escrow [delivery 1 ["alice"]] [back_at 100] None.
Example expired_copy_blocks :
  amounts (desk_with one_of_one [alice_proof] 50) = [("payee", 100, true)] /\
  amounts (desk_with one_of_one [expiring alice_proof 0; alice_proof] 50) = [] /\
  amounts (desk_with one_of_one [expiring alice_proof 0; alice_proof] 100) = [("payer", 100, true)].
Proof. split_and!; by vm_compute. Qed.

(** A funded agreement and a proof of a stranger, six blocks old: the status says
    that it can be released; its policy does not. *)
Definition funding : AgreementLinkedTx :=
  {| lt_txid := "tx"; lt_role := RFunding; lt_milestone := None; lt_height := Some 1; lt_confirmed := true; lt_value := 100 |}.
Definition says_releasable (d : Desk) : bool :=
  match agreement_status d 6 trade [funding] with Ok s => as_release_eligible s | _ => false end.
Example stranger_makes_status_eligible :
  let d := desk_with one_of_one [sign_with 9 (fields "p9" "eve" 5)] 6 in says_releasable d = true /\ amounts d = [].
Proof. split; by vm_compute. Qed.

(** An old proof of anyone makes a proof that has just come final; ... *)
Example new_proof_final :
  says_releasable (desk_after [Submit (sign_with 9 (fields "p9" "eve" 5)); Tip 6; Submit alice_proof]) = true /\
  says_releasable (desk_after [Tip 6; Submit alice_proof]) = false.
Proof. split; by vm_compute. Qed.

(** ... and a proof sent again, even if refused, is new again. *)
Example resubmission_resets :
  says_releasable (desk_after [Submit alice_proof; Tip 6]) = true /\
  says_releasable (desk_after [Submit alice_proof; Tip 6; Submit (forged (fields "p1" "alice" 10))]) = false.
Proof. split; by vm_compute. Qed.

Lemma payee_paid_when_due_witness : exists payload policy, agreement_canonical_bytes trade = Ok payload /\
  let d := desk_with two_of_two both 50 in let hash := hex_encode (sha256 payload) in
  get_policy (policy_store d) hash = Some policy /\ check_policy policy = Ok tt /\
  (earned policy hash (active_proofs d hash) \/
   exists rule, rule ∈ no_response_rules policy /\ rule_deadline rule <= tip_height d /\ is_release (rule_resolution rule) = true).
Proof.
  refine (payee_paid_when_due _ trade (payment (desk_with two_of_two both 50))
    (full "release" "payee" (address_of trade (payee trade)) 100) _ _ eq_refl).
  - by vm_compute.
  - vm_compute. by left.
Defined.

Lemma payouts_witness :
  match holdback (result_of held_policy both 50) with
  | None => paid (settlement_actions trade (result_of held_policy both 50)) = 100
  | Some e => 100 - 1 <= paid (settlement_actions trade (result_of held_policy both 50)) <= 100 /\
      paid (List.filter executable (settlement_actions trade (result_of held_policy both 50))) = 100 * (10000 - he_holdback_bps e) / 10000
  end.
Proof.
  refine (payouts trade held_policy both 50 _ _ _ _ (trade_verdict _ _ _ _)); [by split | | by vm_compute..].
  intros hb [= <-]. cbn. lia.
Defined.
