(* ===== verification/Funding.v ===== *)
(** * Funding: the money of an agreement on the chain
    ([src/src/settlement.rs], [build_funding_legs] and
    [extract_agreement_funding_leg_refs_from_tx]; [src/src/bin/iriumd.rs],
    [fund_agreement], [resolve_agreement_leg_ref],
    [evaluate_agreement_spend_eligibility] and [spend_htlc_with_optional_payout])

    An agreement is funded by hash-locked outputs, one for each milestone or one for
    all, each followed by an output that names the agreement. The node finds the
    legs in a transaction again, says whether one may be spent, and builds the
    transaction that spends it: with the secret, to the payee; past the timeout, back
    to the payer. Choice of coins and fees for the funding transaction are left out.

    Shown here: the legs are worth the agreement; they are found again as they were
    made; and what the node builds for a leg passes the check of the chain ([Spend]). *)

From Stdlib Require Import Ascii.
From stdpp Require Import sorting pretty.
From S2P Require Import Prelude Crypto TxCodec Activation Anchors Agreement Script.
From S2P Require Import Witness BtcTx Spv Spend.

Open Scope string_scope.
Open Scope list_scope.
Open Scope Z_scope.

(** Crate [bs58]. *)
Class Base58 := { bs58_encode : bytes -> string; bs58_decode : string -> option bytes }.

(** ** The legs *)
Record SettlementFundingLeg := {
  leg_role : AgreementAnchorRole; leg_milestone : option string; leg_amount : Z; leg_output : TxOutput
}.

Section legs.
Context `{Hex}.

(** [copy_from_slice] panics on another length. *)
Definition lock (hash : bytes) (payee_pkh payer_pkh : bytes) (timeout : Z) : res string HtlcV1Output :=
  if len hash =? 32 then
    Ok {| h1_expected_hash := hash; h1_recipient_pkh := payee_pkh; h1_refund_pkh := payer_pkh; h1_timeout_height := timeout |}
  else Panic.

Definition make_leg (role : AgreementAnchorRole) (m : option string) (amount : Z) (htlc : HtlcV1Output) : SettlementFundingLeg :=
  {| leg_role := role; leg_milestone := m; leg_amount := amount;
     leg_output := {| value := amount; script_pubkey := encode_htlcv1_script htlc |} |}.

Definition milestone_leg (payer_pkh payee_pkh : bytes) (m : AgreementMilestone) : res string SettlementFundingLeg :=
  hash ← ok_or (hex_decode (secret_hash_hex m)) "invalid milestone secret hash";
  htlc ← lock hash payee_pkh payer_pkh (timeout_height m);
  Ok (make_leg RFunding (Some (milestone_id m)) (amount m) htlc).

Fixpoint milestone_legs (payer_pkh payee_pkh : bytes) (ms : list AgreementMilestone) : res string (list SettlementFundingLeg) :=
  match ms with
  | [] => Ok []
  | m :: ms => leg ← milestone_leg payer_pkh payee_pkh m; legs ← milestone_legs payer_pkh payee_pkh ms; Ok (leg :: legs)
  end.

Definition whole_role (t : AgreementTemplateType) : AgreementAnchorRole :=
  match t with
  | RefundableDeposit => RDepositLock | OtcSettlement => ROtcSettlement | MerchantDelayedSettlement => RMerchantSettlement
  | _ => RFunding
  end.

Definition whole_leg (a : AgreementObject) (payer_pkh payee_pkh : bytes) : res string SettlementFundingLeg :=
  release ← ok_or (snd <$> list_find (fun c => mode c = "secret_preimage") (release_conditions a))
              "simple agreement requires secret_preimage release condition";
  hex ← ok_or (rel_secret_hash_hex release) "secret_preimage release condition requires secret_hash_hex";
  hash ← ok_or (hex_decode hex) "invalid secret_hash_hex";
  refund ← ok_or (head (refund_conditions a)) "refund condition required";
  htlc ← lock hash payee_pkh payer_pkh (rc_timeout_height refund);
  Ok (make_leg (whole_role (template_type a)) None (total_amount a) htlc).

Definition by_milestones (t : AgreementTemplateType) : bool :=
  match t with MilestoneSettlement | ContractorMilestone => true | _ => false end.

Definition build_funding_legs (a : AgreementObject) (payer_pkh payee_pkh : bytes) : res string (list SettlementFundingLeg) :=
  _ ← validate_agreement a;
  if by_milestones (template_type a) then milestone_legs payer_pkh payee_pkh (milestones a)
  else leg ← whole_leg a payer_pkh payee_pkh; Ok [leg].

(** [fund_agreement]: the leg, and the output that says whose it is. *)
Definition leg_anchor (hash : string) (leg : SettlementFundingLeg) : AgreementAnchor :=
  {| aa_hash := hash; aa_role := leg_role leg; aa_milestone := leg_milestone leg |}.
Fixpoint funding_outputs (hash : string) (legs : list SettlementFundingLeg) : res string (list TxOutput) :=
  match legs with
  | [] => Ok []
  | leg :: legs =>
      anchor ← map_err (fun _ => "build_agreement_anchor_failed") (build_agreement_anchor_output (leg_anchor hash leg));
      outs ← funding_outputs hash legs;
      Ok (leg_output leg :: anchor :: outs)
  end.

(** One milestone alone, if asked for. *)
Definition target_legs (a : AgreementObject) (target : option string) (legs : list SettlementFundingLeg)
    : res string (list SettlementFundingLeg) :=
  match target with
  | None => Ok legs
  | Some id =>
      _ ← ensure (existsb (fun m => bool_decide (milestone_id m = id)) (milestones a)) "milestone_id_not_found_in_agreement";
      let legs := List.filter (fun l => bool_decide (leg_milestone l = Some id)) legs in
      _ ← ensure (negb (bool_decide (length legs = 0%nat))) "milestone_id_has_no_funding_leg";
      _ ← ensure (bool_decide (length legs = 1%nat)) "milestone_id_matched_multiple_legs";
      Ok legs
  end.
End legs.

(** ** Finding them again *)
Record AgreementFundingLegRef := {
  funding_txid : string; htlc_vout : Z; anchor_vout : Z; fr_role : AgreementAnchorRole; fr_milestone : option string;
  fr_amount : Z; fr_timeout : Z; fr_expected_hash : string; fr_recipient_address : string; fr_refund_address : string
}.

Section refs.
Context `{C : Crypto} `{Hex} `{Base58} `{AgreementJson}.

Definition base58_p2pkh_from_hash (pkh : bytes) : string :=
  let body := 0x00 :: pkh in bs58_encode (body ++ take 4 (sha256 (sha256 body))).

Definition htlc_of (o : TxOutput) : option HtlcV1Output :=
  match parse_htlcv1_script (script_pubkey o) with Ok h => Some h | _ => None end.

Definition leg_ref (txid : string) (idx : Z) (o : TxOutput) (htlc : HtlcV1Output) (an : AgreementAnchor) : AgreementFundingLegRef :=
  {| funding_txid := txid; htlc_vout := as_u32 idx; anchor_vout := as_u32 (idx + 1); fr_role := aa_role an;
     fr_milestone := aa_milestone an; fr_amount := value o; fr_timeout := h1_timeout_height htlc;
     fr_expected_hash := hex_encode (h1_expected_hash htlc);
     fr_recipient_address := base58_p2pkh_from_hash (h1_recipient_pkh htlc);
     fr_refund_address := base58_p2pkh_from_hash (h1_refund_pkh htlc) |}.

Fixpoint leg_refs (txid hash : string) (idx : Z) (outs : list TxOutput) : list AgreementFundingLegRef :=
  match outs with
  | [] => []
  | o :: rest =>
      match htlc_of o, rest with
      | Some htlc, anchor :: _ =>
          match parse_agreement_anchor (script_pubkey anchor) with
          | Some an => if bool_decide (aa_hash an = hash) then [leg_ref txid idx o htlc an] else []
          | None => []
          end
      | _, _ => []
      end ++ leg_refs txid hash (idx + 1) rest
  end.

Definition extract_agreement_funding_leg_refs_from_tx (tx : Transaction) (hash : string) : list AgreementFundingLegRef :=
  leg_refs (hex_encode (txid tx)) hash 0 (tx_outputs tx).

Definition is_funding_leg_role (r : AgreementAnchorRole) : bool :=
  match r with RFunding | RDepositLock | ROtcSettlement | RMerchantSettlement => true | _ => false end.

Definition deposit_amount (a : AgreementObject) (r : AgreementAnchorRole) : Z :=
  match r with
  | RDepositLock | RCollateralLock => from_option dr_amount (total_amount a) (deposit_rule a)
  | _ => total_amount a
  end.
Definition find_milestone (a : AgreementObject) (id : string) : option AgreementMilestone :=
  snd <$> list_find (fun m => milestone_id m = id) (milestones a).
Definition expected_amount (a : AgreementObject) (r : AgreementFundingLegRef) : Z :=
  match fr_milestone r with
  | Some id => from_option amount (total_amount a) (find_milestone a id)
  | None => deposit_amount a (fr_role r)
  end.

(** From the transaction found on the chain on. *)
Definition resolve_agreement_leg_ref (a : AgreementObject) (hash : string) (tx : Transaction) (vout : option Z) (m : option string)
    : res string AgreementFundingLegRef :=
  let refs := extract_agreement_funding_leg_refs_from_tx tx hash in
  let refs := List.filter (fun r => is_funding_leg_role (fr_role r)) refs in
  let refs := match vout with Some v => List.filter (fun r => htlc_vout r =? v) refs | None => refs end in
  let refs := match m with Some id => List.filter (fun r => bool_decide (fr_milestone r = Some id)) refs | None => refs end in
  match refs with
  | [] => Err "agreement_funding_leg_not_found_or_not_htlc_backed"
  | [r] => _ ← ensure (fr_amount r =? expected_amount a r) "agreement_leg_amount_mismatch"; Ok r
  | _ => Err "agreement_funding_leg_ambiguous"
  end.

(** What a linked transaction is taken to be worth. *)
Definition agreement_anchor_value (a : AgreementObject) (r : AgreementAnchorRole) (m : option string) : Z :=
  match m ≫= find_milestone a with Some ms => amount ms | None => deposit_amount a r end.
End refs.

(** ** Spending a leg *)
Class WalletSigner (C : Crypto) (S : Signer C) := {
  SigningKey_from_bytes : bytes -> option SigningKey;
  (** [sign_prehash], [normalize_s], [to_der] *)
  sign_der : SigningKey -> bytes -> bytes
}.

(** What the code relies on: a signature made so is a DER string of a few
    dozen bytes, low in [s], that verifies under the compressed public key. *)
Class WalletSignerLaws {C : Crypto} {S : Signer C} (W : WalletSigner C S) : Prop := {
  sign_der_len sk d : arr 32 d -> 1 <= len (sign_der sk d) <= 72;
  sign_der_verifies sk d : arr 32 d -> exists vk sg,
    VerifyingKey_from_sec1_bytes (public_key sk) = Some vk /\ Signature_from_der (sign_der sk d) = Some sg /\
    normalize_s_is_some sg = false /\ verify_prehash vk d sg = true
}.

Record WalletKey := { wk_pkh : string; wk_privkey : string }.
Inductive StatusCode := BAD_REQUEST | FORBIDDEN.

Record AgreementSpendEligibility := {
  el_unspent : bool; timeout_reached : bool; destination_address : option string; eligible : bool; reasons : list string
}.

Section spending.
Context `{C : Crypto} {S : Signer C} {W : WalletSigner C S} `{Hex} `{Base58}.

(** [evaluate_agreement_spend_eligibility], from the leg on. *)
Definition spend_eligibility (claim unspent : bool) (tip : Z) (leg : AgreementFundingLegRef) (secret_hex dest : option string)
    : res string AgreementSpendEligibility :=
  let reached := fr_timeout leg <=? tip in
  let gone := if unspent then [] else ["funding_leg_already_spent_or_missing"] in
  why ← (if claim then
           match secret_hex with
           | Some s =>
               preimage ← ok_or (hex_decode (trim s)) "secret_hex_invalid_hex";
               Ok (if bool_decide (hex_encode (sha256 preimage) = fr_expected_hash leg) then [] else ["secret_hash_mismatch"])
           | None => Ok ["secret_hex_required_for_release"]
           end
         else Ok (if reached then [] else ["refund_timeout_not_reached"]));
  let why := gone ++ why in
  let dest := match dest with
              | Some d => d
              | None => if claim then fr_recipient_address leg else fr_refund_address leg
              end in
  Ok {| el_unspent := unspent; timeout_reached := reached; destination_address := Some dest;
        eligible := bool_decide (length why = 0%nat); reasons := why |}.

Definition base58_p2pkh_to_hash (addr : string) : option bytes :=
  data ← bs58_decode addr;
  if len data <? 25 then None else
  let body := take (length data - 4) data in
  if negb (beqb (take 4 (sha256 (sha256 body))) (drop (length data - 4) data)) then None else
  if len body <? 21 then None else
  let payload := drop 1 body in
  if negb (len payload =? 20) then None else Some payload.

Fixpoint find_key (keys : list WalletKey) (pkh : bytes) : res StatusCode (option WalletKey) :=
  match keys with
  | [] => Ok None
  | k :: keys =>
      b ← ok_or (hex_decode (wk_pkh k)) BAD_REQUEST;
      if (len b =? 20) && beqb b pkh then Ok (Some k) else find_key keys pkh
  end.

Definition address_pkh (addr : string) : res StatusCode bytes :=
  pkh ← ok_or (base58_p2pkh_to_hash addr) BAD_REQUEST;
  _ ← ensure (len pkh =? 20) BAD_REQUEST;
  Ok pkh.

Definition estimate_tx_size (inputs outputs : Z) : Z := 10 + inputs * 148 + outputs * 34.

Definition pay (v : Z) (pkh : bytes) : TxOutput := {| value := v; script_pubkey := p2pkh_script pkh |}.

Definition spend_outputs (total fee : Z) (dest_pkh : bytes) (payout : option (string * Z)) : res StatusCode (list TxOutput) :=
  match payout with
  | Some (resolver_addr, resolver_fee) =>
      _ ← ensure (negb (resolver_fee =? 0)) BAD_REQUEST;
      _ ← ensure (sat_add64 resolver_fee fee <? total) BAD_REQUEST;
      resolver_pkh ← address_pkh resolver_addr;
      Ok [pay (total - fee - resolver_fee) dest_pkh; pay resolver_fee resolver_pkh]
  | None => Ok [pay (total - fee) dest_pkh]
  end.

Definition spend_witness (claim : bool) (sig pubkey : bytes) (secret_hex : option string) : res StatusCode bytes :=
  if claim then
    s ← ok_or secret_hex BAD_REQUEST;
    preimage ← ok_or (hex_decode (trim s)) BAD_REQUEST;
    ok_or (encode_htlcv1_claim_witness sig pubkey preimage) BAD_REQUEST
  else ok_or (encode_htlcv1_refund_witness sig pubkey) BAD_REQUEST.

Definition with_script (txid : bytes) (vout : Z) (script : bytes) (outs : list TxOutput) : Transaction :=
  {| tx_version := 1; tx_locktime := 0; tx_outputs := outs;
     tx_inputs := [{| prev_txid := txid; prev_index := vout; script_sig := script; sequence := 0xfffffffe |}] |}.

(** [spend_htlc_with_optional_payout], up to the transaction it signs. *)
Definition spend_htlc (claim : bool) (txid : bytes) (vout : Z) (funding : TxOutput) (tip : Z) (keys : list WalletKey)
    (dest : string) (fee_per_byte : option Z) (secret_hex : option string) (payout : option (string * Z))
    : res StatusCode Transaction :=
  htlc ← ok_or (htlc_of funding) BAD_REQUEST;
  let signer_pkh := if claim then h1_recipient_pkh htlc else h1_refund_pkh htlc in
  _ ← ensure (negb (negb claim && (tip <? h1_timeout_height htlc))) BAD_REQUEST;
  found ← find_key keys signer_pkh;
  key ← ok_or found FORBIDDEN;
  dest_pkh ← address_pkh dest;
  let fee := sat_mul64 (estimate_tx_size 1 (if bool_decide (is_Some payout) then 2 else 1)) (Z.max (default 1 fee_per_byte) 1) in
  _ ← ensure (negb (value funding <=? fee)) BAD_REQUEST;
  outs ← spend_outputs (value funding) fee dest_pkh payout;
  let digest := signature_digest (with_script txid vout [] outs) 0 (script_pubkey funding) in
  priv ← ok_or (hex_decode (wk_privkey key)) BAD_REQUEST;
  _ ← ensure (len priv =? 32) BAD_REQUEST;
  sk ← ok_or (SigningKey_from_bytes priv) BAD_REQUEST;
  script ← spend_witness claim (sign_der sk digest ++ [0x01]) (public_key sk) secret_hex;
  Ok (with_script txid vout script outs).
End spending.

(** ** The legs are worth the agreement *)
Section worth.
Context `{H : Hex} {HL : HexLaws H}.

Lemma hex32_decoded s b : is_hex32 s = true -> hex_decode s = Some b -> arr 32 b.
Proof.
  unfold is_hex32, slen. intros [Hl _]%andb_true_iff Hb. apply hex_decode_bytes in Hb as [Hw Hn]. split; [|done].
  unfold len. lia.
Qed.

Lemma is_hex32_decodes s : is_hex32 s = true -> exists b, hex_decode s = Some b.
Proof. unfold is_hex32. intros [_ Hb]%andb_true_iff. apply bool_decide_eq_true in Hb. by destruct Hb as [b Hb]; exists b. Qed.

Lemma milestone_secrets ms : forall seen seen', fold_res validate_milestone seen ms = Ok seen' ->
  Forall (fun m => is_hex32 (secret_hash_hex m) = true) ms.
Proof.
  induction ms as [|m ms IH]; intros seen seen' Hf; [constructor|]. cbn [fold_res] in Hf. accepted_step Hf.
  constructor; [|by eapply IH]. unfold validate_milestone in Heqr. by repeat accepted_step Heqr.
Qed.

Lemma validated a : validate_agreement a = Ok tt ->
  Forall (fun m => is_hex32 (secret_hash_hex m) = true) (milestones a) /\
  Forall (fun c => validate_release_condition c = Ok tt) (release_conditions a) /\
  validate_milestone_sum a = Ok tt /\ refund_conditions a <> [].
Proof.
  intros Hv. unfold validate_agreement in Hv. repeat accepted_step Hv.
  repeat match goal with Hx : _ = Ok ?u |- _ => is_var u; destruct u end. split_and!.
  - by eapply milestone_secrets.
  - by apply check_all_ok.
  - done.
  - intros He. by rewrite He in Heqb10.
Qed.

Definition locked (payer_pkh payee_pkh : bytes) (timeout : Z) (secret_hash : string) (leg : SettlementFundingLeg) : Prop :=
  exists b, hex_decode secret_hash = Some b /\ arr 32 b /\
    leg_output leg = {| value := leg_amount leg; script_pubkey := encode_htlcv1_script
      {| h1_expected_hash := b; h1_recipient_pkh := payee_pkh; h1_refund_pkh := payer_pkh; h1_timeout_height := timeout |} |}.

Lemma lock_ok b x y t : arr 32 b -> lock b x y t =
  Ok {| h1_expected_hash := b; h1_recipient_pkh := x; h1_refund_pkh := y; h1_timeout_height := t |}.
Proof. intros [Hb _]. unfold lock. by rewrite Hb. Qed.

Lemma milestone_legs_locked payer_pkh payee_pkh ms : Forall (fun m => is_hex32 (secret_hash_hex m) = true) ms ->
  exists legs, milestone_legs payer_pkh payee_pkh ms = Ok legs /\
    Forall2 (fun m leg => leg_role leg = RFunding /\ leg_milestone leg = Some (milestone_id m) /\ leg_amount leg = amount m /\
      locked payer_pkh payee_pkh (timeout_height m) (secret_hash_hex m) leg) ms legs.
Proof.
  induction 1 as [|m ms Hm _ (legs & Hl & Hf)]; [by exists []|]. destruct (is_hex32_decodes _ Hm) as [b Hb].
  pose proof (hex32_decoded _ _ Hm Hb) as Ha. cbn [milestone_legs]. unfold milestone_leg. rewrite Hb. cbn [ok_or mbind res_bind].
  rewrite lock_ok by done. cbn [mbind res_bind]. rewrite Hl. cbn [mbind res_bind]. eexists. split; [done|].
  constructor; [|done]. split_and!; [done..|]. by exists b.
Qed.

Lemma whole_leg_locked a payer_pkh payee_pkh : validate_agreement a = Ok tt ->
  match whole_leg a payer_pkh payee_pkh with
  | Ok leg => leg_role leg = whole_role (template_type a) /\ leg_milestone leg = None /\ leg_amount leg = total_amount a /\
      exists c h r rest, c ∈ release_conditions a /\ rel_secret_hash_hex c = Some h /\ refund_conditions a = r :: rest /\
        locked payer_pkh payee_pkh (rc_timeout_height r) h leg
  | Err _ => forall c, c ∈ release_conditions a -> mode c <> "secret_preimage"
  | Panic => False
  end.
Proof.
  intros (_ & Hc & _ & Hr)%validated. unfold whole_leg.
  destruct (list_find _ (release_conditions a)) as [[i c]|] eqn:Hf; cbn [fmap option_fmap option_map snd ok_or mbind res_bind].
  - apply list_find_Some in Hf as (Hi & Hm & _). apply list_elem_of_lookup_2 in Hi.
    rewrite Forall_forall in Hc. specialize (Hc c Hi). unfold validate_release_condition in Hc. accepted_step Hc.
    rewrite bool_decide_true in Hc by done. accepted_step Hc. apply ensure_ok in Hc.
    destruct (is_hex32_decodes _ Hc) as [b Hb]. pose proof (hex32_decoded _ _ Hc Hb) as Ha.
    cbn [ok_or mbind res_bind]. rewrite Hb. cbn [ok_or mbind res_bind].
    destruct (refund_conditions a) as [|r rest]; [done|]. cbn [head ok_or mbind res_bind]. rewrite lock_ok by done.
    cbn [mbind res_bind]. split_and!; [done..|]. exists c, s, r, rest. split_and!; [done..|]. by exists b.
  - apply list_find_None in Hf. by rewrite Forall_forall in Hf.
Qed.

Lemma legs_built a payer_pkh payee_pkh : validate_agreement a = Ok tt -> by_milestones (template_type a) = true ->
  exists legs, build_funding_legs a payer_pkh payee_pkh = Ok legs /\
    Forall2 (fun m leg => leg_role leg = RFunding /\ leg_milestone leg = Some (milestone_id m) /\ leg_amount leg = amount m /\
      locked payer_pkh payee_pkh (timeout_height m) (secret_hash_hex m) leg) (milestones a) legs.
Proof.
  intros Hv Ht. unfold build_funding_legs. rewrite Hv, Ht. cbn [mbind res_bind].
  apply milestone_legs_locked. by apply validated in Hv as [? _].
Qed.

(** the legs are worth the agreement.  Building them never panics; with
    milestones, a valid agreement always has legs, one for each milestone, locked
    to its secret and its timeout, and they add up to the total but for a multiple
    of 2^64; without, the one leg is worth the total. *)
Theorem legs_worth_agreement a payer_pkh payee_pkh : u64 (total_amount a) -> validate_agreement a = Ok tt ->
  match build_funding_legs a payer_pkh payee_pkh with
  | Ok legs =>
      foldr Z.add 0 (leg_amount <$> legs) mod 2 ^ 64 = total_amount a /\
      if by_milestones (template_type a) then
        Forall2 (fun m leg => leg_milestone leg = Some (milestone_id m) /\ leg_amount leg = amount m /\
          locked payer_pkh payee_pkh (timeout_height m) (secret_hash_hex m) leg) (milestones a) legs
      else exists leg c h r rest, legs = [leg] /\ c ∈ release_conditions a /\ rel_secret_hash_hex c = Some h /\
        refund_conditions a = r :: rest /\ locked payer_pkh payee_pkh (rc_timeout_height r) h leg
  | Err _ => by_milestones (template_type a) = false /\ forall c, c ∈ release_conditions a -> mode c <> "secret_preimage"
  | Panic => False
  end.
Proof.
  intros Hu Hv. destruct (by_milestones (template_type a)) eqn:Ht.
  - destruct (legs_built a payer_pkh payee_pkh Hv Ht) as (legs & -> & Hf). split.
    + assert (leg_amount <$> legs = amount <$> milestones a) as -> by (clear -Hf; induction Hf as [|m leg ms legs (_ & _ & Hl & _) _ IH]; [done|]; cbn; by rewrite Hl, IH).
      apply validated in Hv as (_ & _ & Hs & _). apply milestones_sum; [done..|]. intros He. unfold validate_milestone_sum in Hs.
      rewrite He in Hs. by destruct (template_type a).
    + eapply Forall2_impl; [exact Hf|]. naive_solver.
  - unfold build_funding_legs. rewrite Hv, Ht. cbn [mbind res_bind]. pose proof (whole_leg_locked a payer_pkh payee_pkh Hv) as Hw.
    destruct (whole_leg a payer_pkh payee_pkh) as [leg|e|]; cbn [mbind res_bind]; [|done..].
    destruct Hw as (_ & _ & Ha & c & h & r & rest & Hc & Hh & Hr & Hl). split; [|by exists leg, c, h, r, rest].
    cbn. rewrite Ha, Z.add_0_r. by apply Z.mod_small.
Qed.
End worth.

(** ** The legs are found again *)
Section found.
Context `{C : Crypto} {H : Hex} {HL : HexLaws H} `{Base58}.

Lemma anchor_no_htlc a out : build_agreement_anchor_output a = Ok out -> htlc_of out = None.
Proof.
  unfold build_agreement_anchor_output, htlc_of. destruct (build_agreement_anchor_payload a) as [p| |]; cbn; [|done..].
  intros [= <-]. cbn [script_pubkey op_return]. unfold parse_htlcv1_script. by destruct (negb _).
Qed.

Lemma pay_no_htlc v pkh : arr 20 pkh -> htlc_of (pay v pkh) = None.
Proof.
  intros [Hl _]. unfold htlc_of, parse_htlcv1_script, pay, p2pkh_script. cbn [script_pubkey].
  assert (len ([118] ++ [169] ++ [20] ++ pkh ++ [136] ++ [172]) = 25) as ->; [|done].
  rewrite !len_app, Hl. done.
Qed.

(** A leg that can be told apart: its script is an HTLC, its milestone's name
    fits an anchor. *)
Definition readable (leg : SettlementFundingLeg) : Prop :=
  (exists htlc, htlc_of (leg_output leg) = Some htlc) /\ value (leg_output leg) = leg_amount leg /\
  from_option (fun m => utf8_string m = true /\ no_colon m = true) True (leg_milestone leg).

Definition ref_terms (r : AgreementFundingLegRef) : Z * Z * AgreementAnchorRole * option string * Z :=
  (htlc_vout r, anchor_vout r, fr_role r, fr_milestone r, fr_amount r).
Definition leg_terms (i : Z) (leg : SettlementFundingLeg) : Z * Z * AgreementAnchorRole * option string * Z :=
  (2 * i, 2 * i + 1, leg_role leg, leg_milestone leg, leg_amount leg).

Lemma refs_of_legs t hash rest legs : Forall readable legs -> forall outs i, funding_outputs hash legs = Ok outs ->
  0 <= i -> 2 * (i + len legs) < 2 ^ 32 ->
  ref_terms <$> leg_refs t hash (2 * i) (outs ++ rest) =
    imap (fun k leg => leg_terms (i + Z.of_nat k) leg) legs ++ (ref_terms <$> leg_refs t hash (2 * (i + len legs)) rest).
Proof.
  induction 1 as [|leg legs ((htlc & Hh) & Hv & Hm) _ IH]; intros outs i Ho Hi Hn.
  - injection Ho as <-. by rewrite Z.add_0_r.
  - cbn [funding_outputs] in Ho. destruct (build_agreement_anchor_output (leg_anchor hash leg)) as [an| |] eqn:Ha; [|discriminate Ho..].
    cbn [map_err mbind res_bind] in Ho. destruct (funding_outputs hash legs) as [outs'| |] eqn:Ho'; [|discriminate Ho..].
    injection Ho as <-. cbn [app leg_refs]. rewrite Hh.
    rewrite (anchor_read_back (leg_anchor hash leg) an) by (cbn [leg_anchor aa_milestone]; first [done | destruct (leg_milestone leg); naive_solver]).
    assert (from_option no_colon true (aa_milestone (leg_anchor hash leg)) = true) as ->
      by (cbn [leg_anchor aa_milestone]; destruct (leg_milestone leg); naive_solver).
    rewrite bool_decide_true by done. rewrite (anchor_no_htlc _ _ Ha). cbn [app].
    rewrite len_cons in Hn. cbn [fmap list_fmap].
    replace (2 * i + 1 + 1) with (2 * (i + 1)) by lia. rewrite (IH outs' (i + 1)) by (done || lia).
    cbn [imap]. rewrite len_cons. replace (i + 1 + len legs) with (i + (1 + len legs)) by lia.
    cbn [app]. f_equal.
    + unfold ref_terms, leg_ref, leg_terms. cbn [htlc_vout anchor_vout fr_role fr_milestone fr_amount leg_anchor aa_role aa_milestone].
      unfold as_u32. pose proof (len_nonneg legs). rewrite !Z.mod_small by lia. rewrite Hv. replace (i + Z.of_nat 0) with i by lia. done.
    + f_equal. apply imap_ext. intros k x _. unfold compose. f_equal. lia.
Qed.

Lemma refs_of_change t hash change : forall i, Forall (fun o => exists v pkh, arr 20 pkh /\ o = pay v pkh) change ->
  leg_refs t hash i change = [].
Proof.
  induction change as [|o change IH]; intros i Hf; [done|]. inversion_clear Hf as [|? ? (v & pkh & Hp & ->) Hc].
  cbn [leg_refs]. rewrite (pay_no_htlc v pkh Hp). by apply IH.
Qed.

Lemma locked_readable payer_pkh payee_pkh timeout secret leg : arr 20 payer_pkh -> arr 20 payee_pkh -> u64 timeout ->
  from_option (fun m => utf8_string m = true /\ no_colon m = true) True (leg_milestone leg) ->
  locked payer_pkh payee_pkh timeout secret leg -> readable leg.
Proof.
  intros Hx Hy Ht Hm (b & _ & Hb & Ho). unfold readable. rewrite Ho. split_and!; [|done|done].
  eexists. unfold htlc_of. cbn [script_pubkey]. by rewrite parse_encode_htlcv1.
Qed.

(** the legs are found again: of a transaction with the legs, each followed
    by its anchor, and payments after them, the node reads each leg back in order,
    with its output, its role, its milestone and its amount, and nothing else. *)
Theorem legs_found_again a payer_pkh payee_pkh legs hash outs tx change :
  arr 20 payer_pkh -> arr 20 payee_pkh ->
  Forall (fun m => u64 (timeout_height m) /\ utf8_string (milestone_id m) = true /\ no_colon (milestone_id m) = true) (milestones a) ->
  Forall (fun r => u64 (rc_timeout_height r)) (refund_conditions a) ->
  build_funding_legs a payer_pkh payee_pkh = Ok legs -> funding_outputs hash legs = Ok outs ->
  tx_outputs tx = outs ++ change -> Forall (fun o => exists v pkh, arr 20 pkh /\ o = pay v pkh) change ->
  2 * len legs < 2 ^ 32 ->
  ref_terms <$> extract_agreement_funding_leg_refs_from_tx tx hash = imap (fun k leg => leg_terms (Z.of_nat k) leg) legs.
Proof.
  intros Hx Hy Hm Hr Hb Ho Ht Hc Hn. unfold extract_agreement_funding_leg_refs_from_tx. rewrite Ht.
  assert (Forall readable legs) as Hf.
  { unfold build_funding_legs in Hb. destruct (validate_agreement a) as [[]| |] eqn:Hv; [|discriminate Hb..]. cbn [mbind res_bind] in Hb.
    destruct (by_milestones (template_type a)) eqn:Hby.
    - destruct (legs_built a payer_pkh payee_pkh Hv Hby) as (legs' & Hb' & Hf). unfold build_funding_legs in Hb'.
      rewrite Hv, Hby in Hb'. cbn [mbind res_bind] in Hb'. rewrite Hb in Hb'. injection Hb' as <-.
      clear -Hx Hy Hm Hf. induction Hf as [|m leg ms legs (_ & Hi & _ & Hl) _ IH]; [constructor|]. apply Forall_cons in Hm as [(Hu & Hs) Hm].
      constructor; [|by apply IH]. eapply locked_readable; [exact Hx|exact Hy|exact Hu| |exact Hl]. by rewrite Hi.
    - pose proof (whole_leg_locked a payer_pkh payee_pkh Hv) as Hw. destruct (whole_leg a payer_pkh payee_pkh) as [leg| |]; [|done..].
      injection Hb as <-. destruct Hw as (_ & Hi & _ & c & h & r & rest & _ & _ & He & Hl). constructor; [|constructor].
      rewrite He in Hr. apply Forall_cons in Hr as [Hr _]. eapply locked_readable; [exact Hx|exact Hy|exact Hr| |exact Hl]. by rewrite Hi. }
  change 0 with (2 * 0) at 1. rewrite (refs_of_legs _ _ change legs Hf outs 0 Ho) by lia. rewrite refs_of_change by done.
  cbn [fmap list_fmap]. rewrite app_nil_r. apply imap_ext. intros k leg _. done.
Qed.

Lemma slen_nonneg s : 0 <= slen s.
Proof. unfold slen. lia. Qed.

(** An anchor has 75 bytes; 72 are taken. *)
Lemma anchor_fits hash r m : is_hex32 hash = true ->
  (exists out, build_agreement_anchor_output {| aa_hash := hash; aa_role := r; aa_milestone := Some m |} = Ok out) <-> slen m <= 3.
Proof.
  intros Hh. unfold build_agreement_anchor_output, build_agreement_anchor_payload. cbn [aa_hash aa_role aa_milestone from_option].
  rewrite Hh. cbn [ensure mbind res_bind]. set (payload := _ +:+ _). assert (slen payload = 72 + slen m) as Hl.
  { unfold payload. rewrite !slen_app. unfold is_hex32 in Hh. apply andb_true_iff in Hh as [Hh _]. apply Z.eqb_eq in Hh. rewrite Hh.
    assert (slen (role_code r) = 1) as -> by (by destruct r). change (slen AGREEMENT_ANCHOR_PREFIX) with 5. change (slen ":") with 1. lia. }
  destruct (slen payload <=? 75) eqn:Hp; cbn; (split; [intros [out Ho] | intros Hm]); [lia | eauto | discriminate Ho | lia].
Qed.

Lemma outputs_built hash legs : (exists outs, funding_outputs hash legs = Ok outs) <->
  Forall (fun leg => exists out, build_agreement_anchor_output (leg_anchor hash leg) = Ok out) legs.
Proof.
  induction legs as [|leg legs IH]; [split; [constructor | by exists []]|]. rewrite Forall_cons, <- IH. cbn [funding_outputs].
  destruct (build_agreement_anchor_output _) as [an| |]; cbn [map_err mbind res_bind].
  - destruct (funding_outputs hash legs) as [outs| |]; cbn [mbind res_bind]; naive_solver.
  - naive_solver.
  - naive_solver.
Qed.

(** an agreement with milestones can be funded only when their names have at
    most three bytes: a longer name does not fit the anchor. *)
Theorem milestone_names_fit a payer_pkh payee_pkh hash : is_hex32 hash = true -> validate_agreement a = Ok tt ->
  by_milestones (template_type a) = true ->
  (exists legs outs, build_funding_legs a payer_pkh payee_pkh = Ok legs /\ funding_outputs hash legs = Ok outs) <->
  Forall (fun m => slen (milestone_id m) <= 3) (milestones a).
Proof.
  intros Hh Hv Ht. destruct (legs_built a payer_pkh payee_pkh Hv Ht) as (legs & Hb & Hf).
  assert ((exists legs outs, build_funding_legs a payer_pkh payee_pkh = Ok legs /\ funding_outputs hash legs = Ok outs)
          <-> exists outs, funding_outputs hash legs = Ok outs) as -> by (rewrite Hb; naive_solver).
  rewrite outputs_built. clear -Hf Hh. induction Hf as [|m leg ms legs (Hr & Hi & _) _ IH]; [by split; constructor|].
  rewrite !Forall_cons, IH. unfold leg_anchor. rewrite Hi. by rewrite anchor_fits.
Qed.
End found.

(** ** A spend the node builds passes the check of the chain *)
Section passes.
Context {C : Crypto} {CL : CryptoLaws C} {S : Signer C} {SL : SignerLaws S} {W : WalletSigner C S} {WL : WalletSignerLaws W}.
Context {H : Hex} {HL : HexLaws H} `{Base58}.

(** The wallet's keys are filed under the hashes of their public keys. *)
Definition wallet_sound (keys : list WalletKey) : Prop :=
  forall k pkh priv sk, k ∈ keys -> hex_decode (wk_pkh k) = Some pkh -> hex_decode (wk_privkey k) = Some priv ->
    SigningKey_from_bytes priv = Some sk -> hash160 (public_key sk) = pkh.

Lemma find_key_spec keys pkh k : find_key keys pkh = Ok (Some k) -> k ∈ keys /\ hex_decode (wk_pkh k) = Some pkh.
Proof.
  induction keys as [|k' keys IH]; [discriminate|]. cbn [find_key]. destruct (hex_decode (wk_pkh k')) as [b|] eqn:Hb; [|discriminate].
  cbn [ok_or mbind res_bind]. destruct ((len b =? 20) && beqb b pkh) eqn:He.
  - intros [= <-]. apply andb_true_iff in He as [_ He]. apply bool_decide_eq_true in He as ->. split; [by left|done].
  - intros Hf. apply IH in Hf as [? ?]. split; [by right|done].
Qed.

Lemma signature_verifies txid vout script outs sp sk :
  let tx := with_script txid vout script outs in
  let sig := sign_der sk (signature_digest (with_script txid vout [] outs) 0 sp) ++ [0x01] in
  verify_sig_with_pubkey tx 0 sp sig (public_key sk) = true.
Proof.
  intros tx sig. change (signature_digest (with_script txid vout [] outs) 0 sp) with (signature_digest tx 0 sp) in sig.
  set (d := signature_digest tx 0 sp) in *. assert (arr 32 d) as Hd by (apply sha256d_arr).
  destruct (sign_der_len sk d Hd) as [Hl _]. destruct (public_key_arr sk) as [Hpk _].
  destruct (sign_der_verifies sk d Hd) as (vk & sg & Hvk & Hsg & Hn & Hv).
  unfold verify_sig_with_pubkey. fold d. unfold sig. rewrite len_app. change (len [1]) with 1.
  assert (len (sign_der sk d) + 1 <? 2 = false) as -> by lia. rewrite last_snoc, bool_decide_true by done. cbn [negb orb].
  rewrite Hpk. cbn [Z.eqb Pos.eqb orb negb]. replace (len (tx_inputs tx) <=? 0) with false by done.
  rewrite length_app. cbn [length]. rewrite take_app_length' by lia. by rewrite Hsg, Hn, Hvk.
Qed.

Definition secret_fits (secret_hex : option string) : Prop :=
  forall s p, secret_hex = Some s -> hex_decode (trim s) = Some p -> len p <= 64.

Lemma eligible_secret unspent tip leg secret dest el : spend_eligibility true unspent tip leg secret dest = Ok el -> eligible el = true ->
  exists s p, secret = Some s /\ hex_decode (trim s) = Some p /\ hex_encode (sha256 p) = fr_expected_hash leg.
Proof.
  unfold spend_eligibility. destruct secret as [s|]; [|cbn; intros [= <-]; by destruct unspent].
  destruct (hex_decode (trim s)) as [p|] eqn:Hp; [|discriminate]. cbn [ok_or mbind res_bind]. intros [= <-]. cbn [eligible].
  rewrite bool_decide_eq_true, length_app. case_bool_decide as He; cbn [length]; [|lia]. intros _. by exists s, p.
Qed.

Lemma hex_encode_inj x y : wf_bytes x -> wf_bytes y -> hex_encode x = hex_encode y -> x = y.
Proof. intros Hx Hy He. apply (f_equal hex_decode) in He. rewrite !hex_decode_encode in He by done. by simplify_eq. Qed.

(** How a spend is built. *)
Lemma spend_built claim txid vout funding htlc tip keys dest fpb secret payout tx : htlc_of funding = Some htlc -> wallet_sound keys ->
  spend_htlc claim txid vout funding tip keys dest fpb secret payout = Ok tx ->
  exists outs sk script, tx = with_script txid vout script outs /\ (claim = false -> h1_timeout_height htlc <= tip) /\
    hash160 (public_key sk) = (if claim then h1_recipient_pkh htlc else h1_refund_pkh htlc) /\
    spend_witness claim (sign_der sk (signature_digest (with_script txid vout [] outs) 0 (script_pubkey funding)) ++ [0x01])
      (public_key sk) secret = Ok script.
Proof.
  intros Hh Hk Hb. unfold spend_htlc in Hb. rewrite Hh in Hb. cbn [ok_or mbind res_bind] in Hb. repeat accepted_step Hb. injection Hb as <-.
  subst. match goal with F : find_key _ _ = Ok _ |- _ => apply find_key_spec in F as [Hin Hp] end.
  eexists _, _, _. split_and!; [done| |by eapply Hk|done]. intros ->. cbn [negb andb] in *. lia.
Qed.

Lemma htlc_encumbrance o htlc : wf_bytes (script_pubkey o) -> htlc_of o = Some htlc ->
  encode_htlcv1_script htlc = script_pubkey o /\ wf_htlcv1 htlc /\ parse_output_encumbrance (script_pubkey o) = Ok (EncHtlcV1 htlc).
Proof.
  unfold htlc_of. intros Hw Hh. destruct (parse_htlcv1_script (script_pubkey o)) as [h| |] eqn:Hp; [|done..]. injection Hh as ->.
  destruct (encode_parse_htlcv1 _ _ Hw Hp) as [He Hf]. split_and!; [done..|]. rewrite <- He. by apply parse_encumbrance_script.
Qed.

(** C11: what the node builds, the chain accepts.  If the node says that a leg may
    be released (its secret of at most 64 bytes) or refunded, and builds the
    transaction, the transaction passes the chain's check of its input at any
    height from the tip on, whatever the state of the relays. *)
Theorem built_spend_accepted a claim t idx an txid vout funding htlc tip height keys dest fpb secret payout el tx view bu lu :
  htlcv1_active a = true -> wf_bytes (script_pubkey funding) -> htlc_of funding = Some htlc -> wallet_sound keys -> tip <= height ->
  spend_eligibility claim true tip (leg_ref t idx funding htlc an) secret (Some dest) = Ok el -> eligible el = true ->
  secret_fits secret -> spend_htlc claim txid vout funding tip keys dest fpb secret payout = Ok tx ->
  verify_transaction_signature a tx 0 (input_of tx 0) funding height view bu lu = Ok (bu, lu).
Proof.
  intros Ha Hw Hh Hk Ht He Hel Hs Hb. destruct (spend_built _ _ _ _ _ _ _ _ _ _ _ _ Hh Hk Hb) as (outs & sk & script & -> & Hto & Hpk & Hwit).
  destruct (htlc_encumbrance _ _ Hw Hh) as (Henc & Hf & Hpo). unfold verify_transaction_signature. rewrite Hpo, Ha. cbn [mbind res_bind when_active].
  pose proof (signature_verifies txid vout script outs (script_pubkey funding) sk) as Hv. cbv zeta in Hv.
  unfold verify_htlcv1. change (script_sig (input_of (with_script txid vout script outs) 0)) with script. rewrite Henc.
  unfold spend_witness in Hwit. destruct claim.
  - destruct (eligible_secret _ _ _ _ _ _ He Hel) as (s & p & -> & Hp & Hx). cbn [ok_or mbind res_bind] in Hwit. rewrite Hp in Hwit.
    cbn [ok_or mbind res_bind] in Hwit. destruct (encode_htlcv1_claim_witness _ _ p) as [w|] eqn:Hcw; [|discriminate Hwit]. injection Hwit as ->.
    rewrite (parse_encode_htlcv1_claim _ _ _ _ Hcw). cbn [mbind res_bind].
    assert (len p <> 0) as Hp0 by (unfold encode_htlcv1_claim_witness, bad_len in Hcw; destruct (len p =? 0) eqn:Hz; [rewrite !orb_true_r in Hcw; discriminate Hcw|lia]).
    pose proof (Hs _ _ eq_refl Hp). assert ((len p =? 0) || (64 <? len p) = false) as -> by lia.
    cbn [fr_expected_hash leg_ref] in Hx. apply hex_encode_inj in Hx; [|apply sha256_arr|apply Hf]. rewrite Hx, Hpk.
    unfold beqb. rewrite !bool_decide_true by done. cbn [negb]. by rewrite Hv.
  - destruct (encode_htlcv1_refund_witness _ _) as [w|] eqn:Hcw; [|discriminate Hwit]. injection Hwit as ->.
    rewrite (parse_encode_htlcv1_refund _ _ _ Hcw). cbn [mbind res_bind]. specialize (Hto eq_refl).
    assert (height <? h1_timeout_height htlc = false) as -> by lia. rewrite Hpk. unfold beqb. rewrite bool_decide_true by done.
    cbn [negb]. by rewrite Hv.
Qed.
End passes.

(** ** Examples *)
#[export] Instance toy_wallet_signer : WalletSigner toy_crypto toy_signer := {|
  SigningKey_from_bytes b := match b with x :: _ => Byte.of_N (Z.to_N x) | [] => None end;
  sign_der k d := public_key k ++ d
|}.

#[export] Instance toy_wallet_signer_laws : WalletSignerLaws toy_wallet_signer.
Proof.
  assert (forall k d, arr 32 d -> len (public_key k ++ d) = 65) as Hl.
  { intros k d [Hd _]. destruct (public_key_arr k) as [Hk _]. by rewrite len_app, Hk, Hd. }
  split; intros k d Hd; cbn [sign_der toy_wallet_signer]; pose proof (Hl k d Hd) as Hn; [lia|].
  eexists _, _. destruct (public_key_arr k) as [Hk _].
  cbn [VerifyingKey_from_sec1_bytes Signature_from_der normalize_s_is_some verify_prehash toy_crypto]. rewrite Hk, Hn.
  split_and!; [done..|]. apply orb_true_iff. left. by apply bool_decide_eq_true.
Qed.

#[local] Existing Instance plain_hex.
Definition plain_base58 : Base58 := {| bs58_encode := plain_encode; bs58_decode := plain_decode |}.
#[local] Existing Instance plain_base58.

Definition alice_key : Byte.byte := Byte.x01.
Definition bob_key : Byte.byte := Byte.x02.
Definition alice_pkh : bytes := hash160 (public_key alice_key).
Definition bob_pkh : bytes := hash160 (public_key bob_key).
Definition wallet_key (k : Byte.byte) : WalletKey :=
  {| wk_pkh := hex_encode (hash160 (public_key k)); wk_privkey := hex_encode (replicate 32 (Z.of_N (Byte.to_N k))) |}.

(** A sale, or a deposit, with one secret. *)
Definition secret_sale (t : AgreementTemplateType) (secret : bytes) (deposit : option Z) : AgreementObject :=
  let a := sample_agreement 30 70 100 in
  {| agreement_id := "sale"; ag_version := 1; ag_schema_id := None; template_type := t;
     parties := parties a; payer := "alice"; payee := "bob"; mediator_reference := None;
     total_amount := 100000; network_marker := "IRIUM"; creation_time := 0; deadlines := deadlines a;
     release_conditions := [{| mode := "secret_preimage"; rel_secret_hash_hex := Some (hex_encode (sha256 secret));
                               release_authorizer := None; rel_notes := None |}];
     refund_conditions := refund_conditions a; milestones := [];
     deposit_rule := (fun v => {| dr_amount := v; beneficiary_address := "bob"; dr_refund_address := "alice";
                                  dr_timeout_height := 100; dr_notes := None |}) <$> deposit;
     proof_policy_reference := None; asset_reference := None; payment_reference := None; purpose_reference := None;
     release_summary := None; refund_summary := None; attestor_reference := None; resolver_reference := None;
     ag_notes := None; document_hash := zero_hash; metadata_hash := None; invoice_reference := None;
     external_reference := None; disputed_metadata_only := false; primary_resolver := None;
     fallback_resolver := None; primary_resolver_fee := None; fallback_resolver_fee := None |}.

Definition legs_of (a : AgreementObject) : list SettlementFundingLeg :=
  match build_funding_legs a alice_pkh bob_pkh with Ok l => l | _ => [] end.
Definition outputs_of (a : AgreementObject) : list TxOutput :=
  match funding_outputs zero_hash (legs_of a) with Ok l => l | _ => [] end.
Definition funding_tx (a : AgreementObject) : Transaction := sample_tx [[]] (outputs_of a ++ [pay 5 alice_pkh]).

Definition sale : AgreementObject := secret_sale SimpleReleaseRefund [7; 7; 7] None.
Definition in_parts (ids : list string) : AgreementObject :=
  let a := sample_agreement 30 70 100 in
  {| agreement_id := "parts"; ag_version := 1; ag_schema_id := None; template_type := MilestoneSettlement;
     parties := parties a; payer := "alice"; payee := "bob"; mediator_reference := None;
     total_amount := 50 * len ids; network_marker := "IRIUM"; creation_time := 0; deadlines := deadlines a;
     release_conditions := release_conditions a; refund_conditions := refund_conditions a;
     milestones := (fun id => sample_milestone id 50) <$> ids; deposit_rule := None;
     proof_policy_reference := None; asset_reference := None; payment_reference := None; purpose_reference := None;
     release_summary := None; refund_summary := None; attestor_reference := None; resolver_reference := None;
     ag_notes := None; document_hash := zero_hash; metadata_hash := None; invoice_reference := None;
     external_reference := None; disputed_metadata_only := false; primary_resolver := None;
     fallback_resolver := None; primary_resolver_fee := None; fallback_resolver_fee := None |}.
Definition parts : AgreementObject := in_parts ["m1"; "m2"].

Lemma parts_valid : validate_agreement parts = Ok tt /\ validate_agreement (in_parts ["ms-1"]) = Ok tt /\ is_hex32 zero_hash = true.
Proof. split_and!; by vm_compute. Qed.

Lemma legs_worth_agreement_witness : foldr Z.add 0 (leg_amount <$> legs_of parts) mod 2 ^ 64 = 100.
Proof.
  assert (u64 (total_amount parts)) as Ht by wf_compute.
  exact (proj1 (legs_worth_agreement (HL := plain_hex_laws) parts alice_pkh bob_pkh Ht (proj1 parts_valid))).
Defined.

Lemma legs_found_again_witness :
  ref_terms <$> extract_agreement_funding_leg_refs_from_tx (funding_tx parts) zero_hash =
    [(0, 1, RFunding, Some "m1", 50); (2, 3, RFunding, Some "m2", 50)].
Proof.
  refine (legs_found_again (HL := plain_hex_laws) parts alice_pkh bob_pkh (legs_of parts) zero_hash (outputs_of parts) (funding_tx parts)
    [pay 5 alice_pkh] _ _ _ _ _ _ eq_refl _ _).
  - apply hash160_arr.
  - apply hash160_arr.
  - by decided.
  - by decided.
  - by vm_compute.
  - by vm_compute.
  - constructor; [|constructor]. exists 5, alice_pkh. split; [apply hash160_arr|done].
  - by vm_compute.
Defined.

Lemma milestone_names_fit_witness :
  (exists legs outs, build_funding_legs parts alice_pkh bob_pkh = Ok legs /\ funding_outputs zero_hash legs = Ok outs) /\
  ~ (exists legs outs, build_funding_legs (in_parts ["ms-1"]) alice_pkh bob_pkh = Ok legs /\ funding_outputs zero_hash legs = Ok outs).
Proof.
  destruct parts_valid as (Hp & Hq & Hz). split.
  - apply (milestone_names_fit (HL := plain_hex_laws) parts alice_pkh bob_pkh zero_hash Hz Hp eq_refl). by decided.
  - intros He. apply (milestone_names_fit (HL := plain_hex_laws) (in_parts ["ms-1"]) alice_pkh bob_pkh zero_hash Hz Hq eq_refl) in He.
    inversion_clear He as [|? ? Hle _]. vm_compute in Hle. by apply Hle.
Defined.

Definition sale_output : TxOutput := nth 0 (outputs_of sale) (pay 0 []).
Definition sale_htlc : HtlcV1Output := default sample_htlc (htlc_of sale_output).
Definition sale_leg : AgreementFundingLegRef :=
  leg_ref "" 0 sale_output sale_htlc {| aa_hash := zero_hash; aa_role := RFunding; aa_milestone := None |}.
Definition address (k : Byte.byte) : string := base58_p2pkh_from_hash (hash160 (public_key k)).
Definition claim_sale (secret : string) : res StatusCode Transaction :=
  spend_htlc true (txid (funding_tx sale)) 0 sale_output 50 [wallet_key bob_key] (address bob_key) None (Some secret) None.
Definition sale_eligibility (secret : string) : res string AgreementSpendEligibility :=
  spend_eligibility true true 50 sale_leg (Some secret) (Some (address bob_key)).

Definition tx_of (r : res StatusCode Transaction) : Transaction := match r with Ok tx => tx | _ => sample_tx [] [] end.
Definition eligibility_of (r : res string AgreementSpendEligibility) : AgreementSpendEligibility :=
  match r with Ok e => e | _ => {| el_unspent := false; timeout_reached := false; destination_address := None; eligible := false; reasons := [] |} end.

Lemma built_spend_accepted_witness :
  verify_transaction_signature all_active (tx_of (claim_sale "070707")) 0 (input_of (tx_of (claim_sale "070707")) 0) sale_output 60
    empty_view [] [] = Ok ([], []).
Proof.
  refine (built_spend_accepted (HL := plain_hex_laws) all_active true "" 0 {| aa_hash := zero_hash; aa_role := RFunding; aa_milestone := None |}
    (txid (funding_tx sale)) 0 sale_output sale_htlc 50 60 [wallet_key bob_key] (address bob_key) None (Some "070707") None
    (eligibility_of (sale_eligibility "070707")) _ empty_view [] [] eq_refl _ _ _ _ _ _ _ _).
  - wf_compute.
  - by vm_compute.
  - intros k pkh priv sk Hk%list_elem_of_singleton. subst k. intros Hp Hs Hb. vm_compute in Hp, Hs. simplify_eq. vm_compute in Hb. by simplify_eq.
  - lia.
  - by vm_compute.
  - by vm_compute.
  - intros s p [= <-] Hp. vm_compute in Hp. simplify_eq. by vm_compute.
  - by vm_compute.
Defined.

(** A secret of more than 64 bytes opens no lock, though the node says it would. *)
Definition long_secret : bytes := replicate 65 7.
Example long_secret_eligible :
  let a := secret_sale SimpleReleaseRefund long_secret None in
  let o := nth 0 (outputs_of a) (pay 0 []) in
  let leg := leg_ref "" 0 o (default sample_htlc (htlc_of o)) {| aa_hash := zero_hash; aa_role := RFunding; aa_milestone := None |} in
  let hex := hex_encode long_secret in
  eligible (eligibility_of (spend_eligibility true true 50 leg (Some hex) None)) = true /\
  let tx := tx_of (spend_htlc true (txid (funding_tx a)) 0 o 50 [wallet_key bob_key] (address bob_key) None (Some hex) None) in
  verify_transaction_signature all_active tx 0 (input_of tx 0) o 60 empty_view [] [] = NoneR.
Proof. split; by vm_compute. Qed.

(** A deposit of 40,000 under an agreement for 100,000: the leg is worth the
    agreement, and is refused for not being worth the deposit. *)
Example deposit_leg_refused :
  let a := secret_sale RefundableDeposit [7; 7; 7] (Some 40000) in
  validate_agreement a = Ok tt /\ (leg_amount <$> legs_of a) = [100000] /\
  resolve_agreement_leg_ref a zero_hash (funding_tx a) None None = Err "agreement_leg_amount_mismatch".
Proof. split_and!; by vm_compute. Qed.
