(* ===== verification/Dispute.v ===== *)
(** * Dispute: what the parties and the resolvers of a dispute sign, and how
    the node anchors it
    ([src/src/settlement.rs], the types of a dispute and their [validate];
    [src/src/bin/iriumd.rs], [verify_envelope_signature], the payload hashes,
    [address_is_recent_miner] and [build_and_broadcast_anchor_tx])

    A party raises a dispute over an agreement, both may give evidence, and a
    resolver decides. Each message is signed over the hash of its canonical form
    with the signature left empty. The node notes each on the chain in a transaction
    of its own wallet that carries the agreement's hash.

    Shown here: a signature that is accepted was made for that address; whose
    addresses count as recent miners; and that the transaction of an anchor carries
    a fee far below what the node's own mempool takes. *)

From Stdlib Require Import Ascii Floats.SpecFloat.
From stdpp Require Import sorting pretty.
From S2P Require Import Prelude Crypto TxCodec Activation Constants Agreement Script.
From S2P Require Import Spv Spend Ledger Chain Mempool Funding.

Open Scope string_scope.
Open Scope list_scope.
Open Scope Z_scope.

(** ** Messages *)
Definition DISPUTE_RAISE_SCHEMA_ID : string := "irium.phase3.dispute_raise.v1".
Definition DISPUTE_RAISE_VERSION : Z := 1.
Definition DISPUTE_EVIDENCE_SCHEMA_ID : string := "irium.phase3.dispute_evidence.v1".
Definition DISPUTE_EVIDENCE_VERSION : Z := 1.
Definition DISPUTE_RESOLUTION_SCHEMA_ID : string := "irium.phase3.dispute_resolution.v1".
Definition DISPUTE_RESOLUTION_VERSION : Z := 1.
Definition RESOLVER_REGISTRATION_SCHEMA_ID : string := "irium.phase3.resolver_registration.v1".
Definition RESOLVER_REGISTRATION_VERSION : Z := 1.
Definition DISPUTE_RERESOLVE_SCHEMA_ID : string := "irium.phase3.dispute_reresolve.v1".
Definition DISPUTE_RERESOLVE_VERSION : Z := 1.

Inductive AgreementSignatureTargetType := TargetAgreement | TargetBundle.

Record AgreementSignatureEnvelope := {
  se_version : Z; target_type : AgreementSignatureTargetType; target_hash : string; signer_public_key : string;
  signer_address : option string; se_signature_type : string; timestamp : option Z; signer_role : option string;
  se_signature : string
}.

Record DisputeRaise := {
  dr_version : Z; dr_schema_id : option string; dr_agreement_hash : string; raising_party : string;
  raised_at_height : Z; raised_at_unix : Z; reason : string; initial_evidence_hash : string;
  dr_signature : AgreementSignatureEnvelope
}.

Record DisputeEvidence := {
  de_version : Z; de_schema_id : option string; de_agreement_hash : string; submitter_party : string;
  submitted_at_height : Z; evidence_type : string; evidence_payload : string; de_evidence_hash : string;
  de_message : option string; de_signature : AgreementSignatureEnvelope
}.

Record DisputeResolution := {
  rs_version : Z; rs_schema_id : option string; rs_agreement_hash : string; resolver_address : string;
  resolver_role : string; rs_outcome : string; resolved_at_height : Z; rs_message : string;
  rs_signature : AgreementSignatureEnvelope
}.

Record ResolverRegistration := {
  rr_version : Z; rr_schema_id : option string; rr_address : string; registered_at_height : Z;
  rr_display_name : option string; bio : option string; fee_bps_self_quoted : option Z;
  rr_signature : AgreementSignatureEnvelope
}.

Record DisputeReResolverNomination := {
  dn_version : Z; dn_schema_id : option string; dn_agreement_hash : string; new_primary_resolver : string;
  new_fallback_resolver : option string; nominated_at_height : Z; party_a_signature : AgreementSignatureEnvelope;
  party_b_signature : AgreementSignatureEnvelope
}.

(** The canonical bytes: [serde_json] with sorted keys. *)
Class DisputeJson := {
  dispute_raise_canonical_bytes : DisputeRaise -> res string bytes;
  dispute_evidence_canonical_bytes : DisputeEvidence -> res string bytes;
  dispute_resolution_canonical_bytes : DisputeResolution -> res string bytes;
  resolver_registration_canonical_bytes : ResolverRegistration -> res string bytes;
  dispute_reresolve_canonical_bytes : DisputeReResolverNomination -> res string bytes
}.

(** ** [validate] *)
Section validation.
Context `{Hex}.

Definition validate_hex_hash (field value : string) : res string unit :=
  ensure (is_hex32 value) (field +:+ " must be 32-byte hex").

Definition check_header (kind : string) (expected version : Z) (schema : string) (sid : option string) : res string unit :=
  _ ← ensure (version =? expected) ("unsupported " +:+ kind +:+ " version " +:+ num version);
  match sid with
  | Some sid => ensure (bool_decide (sid = schema)) ("unsupported " +:+ kind +:+ " schema_id " +:+ sid)
  | None => Ok tt
  end.

Definition at_most (n : Z) (s : option string) : bool := match s with Some s => slen s <=? n | None => true end.

Definition validate_raise (d : DisputeRaise) : res string unit :=
  _ ← check_header "dispute_raise" DISPUTE_RAISE_VERSION (dr_version d) DISPUTE_RAISE_SCHEMA_ID (dr_schema_id d);
  _ ← validate_hex_hash "agreement_hash" (dr_agreement_hash d);
  _ ← validate_hex_hash "initial_evidence_hash" (initial_evidence_hash d);
  _ ← ensure (negb (is_blank (raising_party d))) "raising_party required";
  _ ← ensure (negb (is_blank (reason d))) "reason required";
  ensure (slen (reason d) <=? 4096) "reason too long (max 4096 chars)".

Definition evidence_kind (t : string) : bool :=
  bool_decide (t ∈ ["payment_proof"; "delivery_proof"; "communication_proof"]).

Definition validate_evidence (d : DisputeEvidence) : res string unit :=
  _ ← check_header "dispute_evidence" DISPUTE_EVIDENCE_VERSION (de_version d) DISPUTE_EVIDENCE_SCHEMA_ID (de_schema_id d);
  _ ← validate_hex_hash "agreement_hash" (de_agreement_hash d);
  _ ← validate_hex_hash "evidence_hash" (de_evidence_hash d);
  _ ← ensure (negb (is_blank (submitter_party d))) "submitter_party required";
  _ ← ensure (evidence_kind (evidence_type d))
        ("evidence_type must be payment_proof|delivery_proof|communication_proof (got " +:+ evidence_type d +:+ ")");
  _ ← ensure (negb (bool_decide (evidence_payload d = EmptyString))) "evidence_payload required";
  ensure (at_most 4096 (de_message d)) "message too long (max 4096 chars)".

Definition validate_resolution (d : DisputeResolution) : res string unit :=
  _ ← check_header "dispute_resolution" DISPUTE_RESOLUTION_VERSION (rs_version d) DISPUTE_RESOLUTION_SCHEMA_ID (rs_schema_id d);
  _ ← validate_hex_hash "agreement_hash" (rs_agreement_hash d);
  _ ← ensure (negb (is_blank (resolver_address d))) "resolver_address required";
  _ ← ensure (bool_decide (resolver_role d ∈ ["primary"; "fallback"]))
        ("resolver_role must be primary|fallback (got " +:+ resolver_role d +:+ ")");
  _ ← ensure (bool_decide (rs_outcome d ∈ ["release"; "refund"])) ("outcome must be release|refund (got " +:+ rs_outcome d +:+ ")");
  ensure (slen (rs_message d) <=? 4096) "message too long (max 4096 chars)".

Definition validate_resolver_registration (r : ResolverRegistration) : res string unit :=
  _ ← check_header "resolver_registration" RESOLVER_REGISTRATION_VERSION (rr_version r) RESOLVER_REGISTRATION_SCHEMA_ID (rr_schema_id r);
  _ ← ensure (negb (is_blank (rr_address r))) "resolver_address required";
  _ ← ensure (match fee_bps_self_quoted r with Some bps => bps <=? 10000 | None => true end)
        "fee_bps_self_quoted must be <= 10000 (100%)";
  _ ← ensure (at_most 128 (rr_display_name r)) "display_name too long (max 128 chars)";
  ensure (at_most 1024 (bio r)) "bio too long (max 1024 chars)".

Definition validate_nomination (d : DisputeReResolverNomination) : res string unit :=
  _ ← check_header "dispute_reresolve" DISPUTE_RERESOLVE_VERSION (dn_version d) DISPUTE_RERESOLVE_SCHEMA_ID (dn_schema_id d);
  _ ← ensure (is_hex32 (dn_agreement_hash d)) "agreement_hash must be 32-byte hex";
  _ ← ensure (negb (is_blank (new_primary_resolver d))) "new_primary_resolver required";
  ensure (match new_fallback_resolver d with
          | Some fb => negb (bool_decide (trim fb = trim (new_primary_resolver d)))
          | None => true
          end) "new_fallback_resolver must differ from new_primary_resolver".
End validation.

(** ** Signatures *)
Section signing.
Context `{C : Crypto} `{Hex} `{Base58} `{DisputeJson}.

Definition unsigned (e : AgreementSignatureEnvelope) : AgreementSignatureEnvelope :=
  {| se_version := se_version e; target_type := target_type e; target_hash := target_hash e;
     signer_public_key := signer_public_key e; signer_address := signer_address e; se_signature_type := se_signature_type e;
     timestamp := timestamp e; signer_role := signer_role e; se_signature := EmptyString |}.

Definition dispute_raise_payload_hash (d : DisputeRaise) : res string bytes :=
  sha256 <$> dispute_raise_canonical_bytes
    {| dr_version := dr_version d; dr_schema_id := dr_schema_id d; dr_agreement_hash := dr_agreement_hash d;
       raising_party := raising_party d; raised_at_height := raised_at_height d; raised_at_unix := raised_at_unix d;
       reason := reason d; initial_evidence_hash := initial_evidence_hash d; dr_signature := unsigned (dr_signature d) |}.

Definition dispute_evidence_payload_hash (d : DisputeEvidence) : res string bytes :=
  sha256 <$> dispute_evidence_canonical_bytes
    {| de_version := de_version d; de_schema_id := de_schema_id d; de_agreement_hash := de_agreement_hash d;
       submitter_party := submitter_party d; submitted_at_height := submitted_at_height d; evidence_type := evidence_type d;
       evidence_payload := evidence_payload d; de_evidence_hash := de_evidence_hash d; de_message := de_message d;
       de_signature := unsigned (de_signature d) |}.

Definition dispute_resolution_payload_hash (d : DisputeResolution) : res string bytes :=
  sha256 <$> dispute_resolution_canonical_bytes
    {| rs_version := rs_version d; rs_schema_id := rs_schema_id d; rs_agreement_hash := rs_agreement_hash d;
       resolver_address := resolver_address d; resolver_role := resolver_role d; rs_outcome := rs_outcome d;
       resolved_at_height := resolved_at_height d; rs_message := rs_message d; rs_signature := unsigned (rs_signature d) |}.

Definition resolver_registration_payload_hash (r : ResolverRegistration) : res string bytes :=
  sha256 <$> resolver_registration_canonical_bytes
    {| rr_version := rr_version r; rr_schema_id := rr_schema_id r; rr_address := rr_address r;
       registered_at_height := registered_at_height r; rr_display_name := rr_display_name r; bio := bio r;
       fee_bps_self_quoted := fee_bps_self_quoted r; rr_signature := unsigned (rr_signature r) |}.

Definition dispute_reresolve_payload_hash (n : DisputeReResolverNomination) : res string bytes :=
  sha256 <$> dispute_reresolve_canonical_bytes
    {| dn_version := dn_version n; dn_schema_id := dn_schema_id n; dn_agreement_hash := dn_agreement_hash n;
       new_primary_resolver := new_primary_resolver n; new_fallback_resolver := new_fallback_resolver n;
       nominated_at_height := nominated_at_height n; party_a_signature := unsigned (party_a_signature n);
       party_b_signature := unsigned (party_b_signature n) |}.

Definition verify_envelope_signature (e : AgreementSignatureEnvelope) (digest : bytes) (expected : string) : res string unit :=
  _ ← ensure (bool_decide (se_signature_type e = AGREEMENT_SIGNATURE_TYPE_SECP256K1))
        ("unsupported signature type: " +:+ se_signature_type e);
  _ ← ensure (bool_decide (signer_address e = Some expected)) "signer_address_mismatch";
  pk ← ok_or (hex_decode (signer_public_key e)) "signer_public_key_decode";
  vk ← ok_or (VerifyingKey_from_sec1_bytes pk) "signer_public_key_invalid";
  _ ← ensure (bool_decide (base58_p2pkh_from_hash (hash160 pk) = expected)) "pubkey_does_not_match_signer_address";
  sg ← ok_or (hex_decode (se_signature e)) "signature_decode";
  parsed ← ok_or (Signature_from_slice sg) "signature_format";
  ensure (verify_prehash vk digest parsed) "signature_verify_failed".

(** What an accepted signature says: somebody signed it with a key of that address. *)
Definition signed_for (e : AgreementSignatureEnvelope) (digest : bytes) (addr : string) : Prop :=
  signer_address e = Some addr /\
  exists pk vk sg, hex_decode (signer_public_key e) = Some pk /\ VerifyingKey_from_sec1_bytes pk = Some vk /\
    base58_p2pkh_from_hash (hash160 pk) = addr /\ hex_decode (se_signature e) ≫= Signature_from_slice = Some sg /\
    verify_prehash vk digest sg = true.

Lemma verify_envelope_ok e digest addr :
  verify_envelope_signature e digest addr = Ok tt <->
  se_signature_type e = AGREEMENT_SIGNATURE_TYPE_SECP256K1 /\ signed_for e digest addr.
Proof.
  unfold verify_envelope_signature, signed_for. split.
  - intros Hv. repeat accepted_step Hv. apply ensure_ok in Hv. rewrite !bool_decide_eq_true in *.
    split; [done|]. split; [done|]. by do 3 eexists.
  - intros (Ht & Ha & pk & vk & sg & Hpk & Hvk & Hb & Hsg & Hver).
    rewrite (bool_decide_true (_ = _) Ht), (bool_decide_true (_ = _) Ha).
    cbn [ensure mbind res_bind]. rewrite Hpk. cbn [ok_or mbind res_bind]. rewrite Hvk. cbn [ok_or mbind res_bind]. rewrite (bool_decide_true (_ = _) Hb).
    cbn [ensure mbind res_bind].
    destruct (hex_decode (se_signature e)) as [s|]; [|done]. cbn [mbind option_bind] in Hsg.
    cbn [ensure ok_or mbind res_bind]. rewrite Hsg. cbn [ok_or mbind res_bind]. by rewrite Hver.
Qed.
End signing.

(** ** Anchoring *)
Definition DISPUTE_RESOLVER_RESPONSE_WINDOW : Z := 288.
Definition MINER_RECENCY_WINDOW : Z := 2016.
Definition DISPUTE_ANCHOR_FEE_PER_BYTE : Z := 1.

Definition p2pkh_hash_from_script (script : bytes) : option bytes :=
  if (len script =? 25) && beqb (take 3 script) [0x76; 0xa9; 0x14] && beqb (drop 23 script) [0x88; 0xac]
  then Some (take 20 (drop 3 script)) else None.

Record WalletUtxo := { wu_outpoint : OutPoint; wu_output : TxOutput; wu_height : Z; wu_is_coinbase : bool; wu_pkh : bytes }.

(** The stable sort by value. *)
Fixpoint insert_by_value (u : WalletUtxo) (l : list WalletUtxo) : list WalletUtxo :=
  match l with
  | [] => [u]
  | v :: l' => if value (wu_output v) <? value (wu_output u) then v :: insert_by_value u l' else u :: l
  end.
Definition sort_by_value (l : list WalletUtxo) : list WalletUtxo := foldr insert_by_value [] l.

Section anchoring.
Context `{C : Crypto} {S : Signer C} {W : WalletSigner C S} `{Hex} `{Base58} `{P : Poawx R} (env : Env) (p : ChainParams).
(** The order of two [HashMap]s; writing the mempool. *)
Context (walk_utxos : gmap OutPoint UtxoEntry -> list (OutPoint * UtxoEntry))
        (walk_pool : gmap bytes MempoolEntry -> list (bytes * MempoolEntry))
        (persist : gmap bytes MempoolEntry -> res string unit).

Definition pays_to (target : bytes) (o : TxOutput) : bool := bool_decide (p2pkh_hash_from_script (script_pubkey o) = Some target).

Definition address_is_recent_miner (st : ChainState R) (addr : string) : bool :=
  match base58_p2pkh_to_hash addr with
  | None => false
  | Some target =>
      let tip := Chain.tip_height st in
      let start := sat_sub tip MINER_RECENCY_WINDOW in
      (len target =? 20) &&
      existsb (fun b => match transactions b with
                        | coinbase :: _ => existsb (pays_to target) (tx_outputs coinbase)
                        | [] => false
                        end) (take (Z.to_nat (tip + 1 - start)) (drop (Z.to_nat start) (chain st)))
  end.

(** What the node reads when it handles a request: the chain, the keys of its
    wallet if they can be read, what writing a file comes to, the clock. *)
Record World := { w_chain : ChainState R; w_keys : option (list WalletKey); w_disk : res string unit; w_now : Z }.

Definition key_step (m : gmap bytes WalletKey) (k : WalletKey) : res string (gmap bytes WalletKey) :=
  b ← ok_or (hex_decode (wk_pkh k)) "wallet_key_pkh_decode_failed";
  Ok (if len b =? 20 then <[b := k]> m else m).

Definition wallet_utxo (m : gmap bytes WalletKey) (oe : OutPoint * UtxoEntry) : option WalletUtxo :=
  pkh ← p2pkh_hash_from_script (script_pubkey (ue_output oe.2));
  match m !! pkh with
  | Some _ => Some {| wu_outpoint := oe.1; wu_output := ue_output oe.2; wu_height := ue_height oe.2;
                      wu_is_coinbase := ue_is_coinbase oe.2; wu_pkh := pkh |}
  | None => None
  end.

Definition spendable (tip fee : Z) (u : WalletUtxo) : bool :=
  negb (wu_is_coinbase u && (sat_sub tip (wu_height u) <? coinbase_maturity env)) && (fee <? value (wu_output u)).

Definition from_wallet (u : WalletUtxo) (script : bytes) (outs : list TxOutput) : Transaction :=
  {| tx_version := 1; tx_locktime := 0; tx_outputs := outs;
     tx_inputs := [{| prev_txid := (wu_outpoint u).1; prev_index := (wu_outpoint u).2; script_sig := script; sequence := 0xffffffff |}] |}.

Definition metadata_fee (outs : list TxOutput) : Z :=
  sat_mul64 (estimate_tx_size 1 (len outs + 1)) DISPUTE_ANCHOR_FEE_PER_BYTE.

(** A transaction of the wallet with these outputs and the change, and its fee. *)
Definition metadata_tx (w : World) (outs : list TxOutput) : res string (Transaction * Z) :=
  keys ← ok_or (w_keys w) "wallet_keys_unavailable";
  km ← fold_res key_step ∅ keys;
  _ ← ensure (negb (bool_decide (km = ∅))) "wallet_key_map_empty";
  let us := omap (wallet_utxo km) (walk_utxos (utxos (ledger (w_chain w)))) in
  _ ← ensure (negb (len us =? 0)) "wallet_utxo_set_empty";
  let fee := metadata_fee outs in
  u ← ok_or (List.find (spendable (Chain.tip_height (w_chain w)) fee) (sort_by_value us))
        "insufficient_spendable_funds_or_immature_coinbase";
  let outs := outs ++ [pay (sat_sub (value (wu_output u)) fee) (wu_pkh u)] in
  key ← ok_or (km !! wu_pkh u) "wallet_key_for_pkh_missing";
  priv ← ok_or (hex_decode (wk_privkey key)) "wallet_priv_decode";
  _ ← ensure (len priv =? 32) "wallet_priv_len";
  sk ← ok_or (SigningKey_from_bytes priv) "signing_key";
  let digest := signature_digest (from_wallet u [] outs) 0 (p2pkh_script (wu_pkh u)) in
  let sig := sign_der sk digest ++ [0x01] in
  let tx := from_wallet u ([as_u8 (len sig)] ++ sig ++ [as_u8 (len (public_key sk))] ++ public_key sk) outs in
  fee ← map_err (fun e => "fee_validate: " +:+ e) (calculate_fees env p (ledger (w_chain w)) (height (w_chain w)) tx);
  Ok (tx, fee).

(** Into the mempool, whatever the mempool says. *)
Definition offer (w : World) (m : MempoolManager) (outs : list TxOutput) : res string string * MempoolManager :=
  match metadata_tx w outs with
  | Ok (tx, fee) =>
      let '(m, r) := add_transaction walk_pool persist m tx (serialize tx) fee (w_now w) (w_now w) (w_now w) in
      (match r with Panic => Panic | _ => Ok (hex_encode (txid tx)) end, m)
  | Err e => (Err e, m)
  | Panic => (Panic, m)
  end.

Definition build_and_broadcast_anchor_tx (w : World) (m : MempoolManager) (hash : string) (role : AgreementAnchorRole)
    (extra : list TxOutput) : res string string * MempoolManager :=
  match build_agreement_anchor_output {| aa_hash := hash; aa_role := role; aa_milestone := None |} with
  | Ok anchor => offer w m (anchor :: extra)
  | Err e => (Err ("anchor_payload: " +:+ e), m)
  | Panic => (Panic, m)
  end.

Definition build_and_broadcast_rep_event_tx (w : World) (m : MempoolManager) (outs : list TxOutput)
    : res string string * MempoolManager :=
  if len outs =? 0 then (Err "rep_outputs_empty", m) else offer w m outs.
End anchoring.

(** ** The fee of an anchor *)
Lemma insert_by_value_perm u l : insert_by_value u l ≡ₚ u :: l.
Proof. induction l as [|v l IH]; cbn; [done|]. case_match; [|done]. rewrite IH. apply perm_swap. Qed.

Lemma sort_by_value_perm l : sort_by_value l ≡ₚ l.
Proof. induction l as [|u l IH]; [done|]. cbn. by rewrite insert_by_value_perm, IH. Qed.

Lemma as_i64_congruent x : exists k, as_i64 x = x + k * 2 ^ 64.
Proof.
  exists (- ((x + 2 ^ 63) / 2 ^ 64)). unfold as_i64. pose proof (Z.div_mod (x + 2 ^ 63) (2 ^ 64) ltac:(lia)). lia.
Qed.

Lemma fee_of_change v e : 0 <= e < 2 ^ 63 ->
  as_u64 (wadd_i64 0 (as_i64 (wadd_i64 0 (as_i64 v) - wadd_i64 0 (as_i64 (v - e))))) = e.
Proof.
  intros He. unfold wadd_i64, as_u64. cbn [Z.add].
  repeat match goal with |- context [as_i64 ?x] =>
    lazymatch x with context [as_i64 _] => fail | _ => let k := fresh "k" in destruct (as_i64_congruent x) as [k ->] end end.
  replace (_ + _) with (e + (k + k0 - k1 - k2 + k3 + k4) * 2 ^ 64) by ring. rewrite Z.mod_add by lia. apply Z.mod_small. lia.
Qed.

Section fee.
Context `{C : Crypto} {S : Signer C} {W : WalletSigner C S} `{Hex} `{Base58} `{P : Poawx R} (env : Env) (p : ChainParams).
Context (walk_utxos : gmap OutPoint UtxoEntry -> list (OutPoint * UtxoEntry))
        (walk_pool : gmap bytes MempoolEntry -> list (bytes * MempoolEntry))
        (persist : gmap bytes MempoolEntry -> res string unit).
Context (Hwalk : forall us, walk_utxos us ≡ₚ map_to_list us).

Definition worthless (outs : list TxOutput) : Prop := Forall (fun o => value o = 0) outs.

Lemma check_outputs_change h outs c t : worthless outs -> check_outputs p h (outs ++ [c]) 0 = Ok t ->
  t = wadd_i64 0 (as_i64 (value c)).
Proof.
  intros Hz. induction Hz as [|o outs Ho Hz IH]; cbn [app check_outputs].
  - intros Hc. accepted_step Hc. by injection Hc.
  - intros Hc. accepted_step Hc. rewrite Ho in Hc. by apply IH.
Qed.

Lemma fee_spent l h u e script outs c f : utxos l !! wu_outpoint u = Some e -> ue_output e = wu_output u -> worthless outs ->
  calculate_fees env p l h (from_wallet u script (outs ++ [c])) = Ok f ->
  f = as_u64 (wadd_i64 0 (as_i64 (wadd_i64 0 (as_i64 (value (wu_output u))) - wadd_i64 0 (as_i64 (value c))))).
Proof.
  intros He Hu Hz Hc. unfold calculate_fees, validate_transaction_internal in Hc.
  cbn [tx_inputs tx_outputs from_wallet check_inputs] in Hc. unfold check_input in Hc. cbn [prev_txid prev_index] in Hc.
  rewrite <- surjective_pairing, He in Hc.
  repeat first [progress (cbn [mbind res_bind ok_or] in Hc) | case_match; [discriminate Hc|]].
  destruct (verify_transaction_signature _ _ _ _ _ _ _ _ _) as [[bu lu]| |]; [|discriminate Hc..]. cbn [map_err mbind res_bind] in Hc.
  destruct (check_outputs p h _ 0) as [t| |] eqn:Ht; [|discriminate Hc..]. apply check_outputs_change in Ht as ->; [|done].
  cbn [mbind res_bind fees no_spending] in Hc. repeat (case_match; [discriminate Hc|]). injection Hc as <-. by rewrite <- Hu.
Qed.

Lemma wallet_coin w km fee u : 
  List.find (spendable env (Chain.tip_height (w_chain w)) fee) (sort_by_value (omap (wallet_utxo km) (walk_utxos (utxos (ledger (w_chain w)))))) = Some u ->
  fee < value (wu_output u) /\ exists e, utxos (ledger (w_chain w)) !! wu_outpoint u = Some e /\ ue_output e = wu_output u.
Proof.
  intros [Hin Hs]%List.find_some. unfold spendable in Hs. split; [lia|].
  apply list_elem_of_In in Hin. rewrite sort_by_value_perm in Hin. apply list_elem_of_omap in Hin as ((o & e) & Hin & Hu).
  rewrite Hwalk in Hin. apply elem_of_map_to_list in Hin. unfold wallet_utxo in Hu. cbn [fst snd] in Hu.
  destruct (p2pkh_hash_from_script _) as [pkh|]; [|discriminate Hu]. cbn [mbind option_bind] in Hu.
  destruct (km !! pkh); [|discriminate Hu]. injection Hu as <-. by exists e.
Qed.

Lemma fee_of_metadata w outs tx fee : worthless outs -> 0 <= metadata_fee outs < 2 ^ 63 ->
  metadata_tx env p walk_utxos w outs = Ok (tx, fee) -> fee = metadata_fee outs.
Proof.
  intros Hz Hf Hm. unfold metadata_tx in Hm. repeat accepted_step Hm. injection Hm as _ <-.
  match goal with Hu : List.find _ _ = Some ?u |- _ => apply wallet_coin in Hu as (Hv & e & He & Heu) end.
  match goal with Hc : map_err _ ?m = Ok _ |- _ => destruct m as [f| |] eqn:Hfee; [|discriminate Hc..]; injection Hc as -> end.
  eapply fee_spent in Hfee; [|done..]. rewrite Hfee. cbn [value pay]. unfold sat_sub. rewrite Z.max_r by lia. by apply fee_of_change.
Qed.

Lemma check_batches_no_panic a b es : check_batches a b es <> Panic.
Proof. induction es as [|[k e] es IH]; [done|]. cbn. by repeat case_match. Qed.

Lemma low_fee_refused m tx raw fee now : fee < min_total_fee m ->
  exists e, add_transaction walk_pool persist m tx raw fee now now now = (m, Err e).
Proof.
  intros Hf. unfold add_transaction, add_transaction_with_priority. cbv zeta. case_match; [by eexists|].
  assert (forall r : res string unit, r <> Panic -> (exists e, r = Err e) \/ r = Ok tt) as Hr.
  { intros [[]| |]; [by right | intros _; left; by eexists | done]. }
  match goal with |- context [if ?b then check_batches ?x ?y ?es else Ok tt] =>
    destruct (Hr (if b then check_batches x y es else Ok tt)) as [[e ->]| ->] end;
    [case_match; [apply check_batches_no_panic|done] | by eexists |].
  cbn [limited_ip check_rate]. rewrite (bool_decide_true (Standard = Standard)) by done. cbn [andb].
  case_match; [by eexists|]. rewrite (proj2 (Z.ltb_lt _ _)) by done. by eexists.
Qed.

(** An output of metadata moves no coins. *)
Lemma anchor_worthless hash role m out :
  build_agreement_anchor_output {| aa_hash := hash; aa_role := role; aa_milestone := m |} = Ok out -> value out = 0.
Proof. unfold build_agreement_anchor_output. destruct (build_agreement_anchor_payload _); [|done..]. by intros [= <-]. Qed.

Lemma event_worthless ev out : build_reputation_event_output ev = Ok out -> value out = 0.
Proof. unfold build_reputation_event_output. destruct (build_reputation_event_payload _); [|done..]. by intros [= <-]. Qed.

Lemma metadata_fee_value outs : len outs <= 100 -> metadata_fee outs = 192 + 34 * len outs.
Proof.
  intros Hl. pose proof (len_nonneg outs). unfold metadata_fee, sat_mul64, estimate_tx_size, DISPUTE_ANCHOR_FEE_PER_BYTE, U64_MAX. lia.
Qed.

Lemma offer_refused w m outs r m' : worthless outs -> len outs <= 100 -> 192 + 34 * len outs < min_total_fee m ->
  offer env p walk_utxos walk_pool persist w m outs = (r, m') -> m' = m.
Proof.
  intros Hz Hl Hf. unfold offer. destruct (metadata_tx _ _ _ _ _) as [[tx fee]| |] eqn:Ht; [|by intros [= _ <-]..].
  pose proof (len_nonneg outs).
  apply fee_of_metadata in Ht; [|done | rewrite metadata_fee_value by done; lia]. rewrite metadata_fee_value in Ht by done.
  destruct (low_fee_refused m tx (serialize tx) fee (w_now w)) as [e ->]; [lia|]. by intros [= _ <-].
Qed.
End fee.
