(* ===== verification/Resolver.v ===== *)
(** * Resolver: disputes over agreements, as a node keeps and decides them
    ([src/src/bin/iriumd.rs], "Dispute and Resolver System")

    The node keeps one dispute for each agreement, in memory and in a file. A party
    raises it, the parties give evidence, and the resolver that the agreement names
    decides; when the response window has passed without a decision, the fallback
    may decide too, and the two parties together may name others. What was anchored
    is found again in new blocks. Other nodes send the same messages. While a dispute
    is open nothing of the agreement may be spent; then only as it was decided.

    A handler is an action on the node: it reads and changes it, and may fail at any
    point, with the changes made so far. Handlers run one at a time. Rate limits,
    authentication, events and broadcast are left out. The JSON file of a dispute is
    modelled as the record that is written: [save_dispute_state] and
    [load_all_disputes_at_startup] have no step that prints or parses, so a text
    that serde writes and does not read back is outside this model.

    Shown here: the invariant of the disputes; who decides, and that a decision stays;
    what may be spent; that an unanswered dispute reaches the fallback; that a restart
    forgets nothing; and, on concrete inputs, where strangers decide, where a decision
    is lost and where the wrong resolver is paid. *)

From Stdlib Require Import Ascii Floats.SpecFloat.
From stdpp Require Import sorting pretty.
From S2P Require Import Prelude Crypto TxCodec Activation Constants Agreement Script.
From S2P Require Import Header Spv Spend Ledger Chain Mempool Funding Dispute.

Open Scope string_scope.
Open Scope list_scope.
Open Scope Z_scope.

(** ** State of a dispute *)
Record DisputeEvidenceRecord := { er_evidence : DisputeEvidence; er_anchor_txid : option string; er_anchored : option Z }.

Record DisputeState := {
  raise : DisputeRaise; raise_anchor_txid : option string; raise_anchored_at_height : option Z;
  evidence : list DisputeEvidenceRecord;
  ds_resolution : option DisputeResolution; resolution_anchor_txid : option string; resolution_anchored_at_height : option Z;
  escalated_to_fallback : bool; escalated_at_height : option Z; reresolve_nomination : option DisputeReResolverNomination
}.

Record ResolverRegistrationRecord := { rg_registration : ResolverRegistration; rg_anchor_txid : option string; rg_anchored : option Z }.

Definition is_open (d : DisputeState) : bool := match ds_resolution d with None => true | Some _ => false end.

Definition new_dispute (r : DisputeRaise) (anchor : option string) : DisputeState :=
  {| raise := r; raise_anchor_txid := anchor; raise_anchored_at_height := None; evidence := []; ds_resolution := None;
     resolution_anchor_txid := None; resolution_anchored_at_height := None; escalated_to_fallback := false;
     escalated_at_height := None; reresolve_nomination := None |}.

Definition with_raise_anchor (d : DisputeState) (txid : string) (h : Z) : DisputeState :=
  {| raise := raise d; raise_anchor_txid := Some txid; raise_anchored_at_height := Some h; evidence := evidence d;
     ds_resolution := ds_resolution d; resolution_anchor_txid := resolution_anchor_txid d;
     resolution_anchored_at_height := resolution_anchored_at_height d; escalated_to_fallback := escalated_to_fallback d;
     escalated_at_height := escalated_at_height d; reresolve_nomination := reresolve_nomination d |}.

Definition with_evidence (d : DisputeState) (es : list DisputeEvidenceRecord) : DisputeState :=
  {| raise := raise d; raise_anchor_txid := raise_anchor_txid d; raise_anchored_at_height := raise_anchored_at_height d;
     evidence := es; ds_resolution := ds_resolution d; resolution_anchor_txid := resolution_anchor_txid d;
     resolution_anchored_at_height := resolution_anchored_at_height d; escalated_to_fallback := escalated_to_fallback d;
     escalated_at_height := escalated_at_height d; reresolve_nomination := reresolve_nomination d |}.

Definition with_resolution (d : DisputeState) (r : DisputeResolution) (anchor : option string) : DisputeState :=
  {| raise := raise d; raise_anchor_txid := raise_anchor_txid d; raise_anchored_at_height := raise_anchored_at_height d;
     evidence := evidence d; ds_resolution := Some r; resolution_anchor_txid := anchor;
     resolution_anchored_at_height := resolution_anchored_at_height d; escalated_to_fallback := escalated_to_fallback d;
     escalated_at_height := escalated_at_height d; reresolve_nomination := reresolve_nomination d |}.

Definition with_resolution_anchor (d : DisputeState) (txid : string) (h : Z) : DisputeState :=
  {| raise := raise d; raise_anchor_txid := raise_anchor_txid d; raise_anchored_at_height := raise_anchored_at_height d;
     evidence := evidence d; ds_resolution := ds_resolution d; resolution_anchor_txid := Some txid;
     resolution_anchored_at_height := Some h; escalated_to_fallback := escalated_to_fallback d;
     escalated_at_height := escalated_at_height d; reresolve_nomination := reresolve_nomination d |}.

Definition with_escalation (d : DisputeState) (h : option Z) : DisputeState :=
  {| raise := raise d; raise_anchor_txid := raise_anchor_txid d; raise_anchored_at_height := raise_anchored_at_height d;
     evidence := evidence d; ds_resolution := ds_resolution d; resolution_anchor_txid := resolution_anchor_txid d;
     resolution_anchored_at_height := resolution_anchored_at_height d; escalated_to_fallback := bool_decide (is_Some h);
     escalated_at_height := h; reresolve_nomination := reresolve_nomination d |}.

Definition with_nomination (d : DisputeState) (n : DisputeReResolverNomination) : DisputeState :=
  with_escalation
  {| raise := raise d; raise_anchor_txid := raise_anchor_txid d; raise_anchored_at_height := raise_anchored_at_height d;
     evidence := evidence d; ds_resolution := ds_resolution d; resolution_anchor_txid := resolution_anchor_txid d;
     resolution_anchored_at_height := resolution_anchored_at_height d; escalated_to_fallback := escalated_to_fallback d;
     escalated_at_height := escalated_at_height d; reresolve_nomination := Some n |} None.

(** ** The node, and actions on it *)
Section node.
Context `{C : Crypto} {S : Signer C} {W : WalletSigner C S} `{Hex} `{Base58} `{AgreementJson} `{DisputeJson} `{P : Poawx R}.
Context (env : Env) (p : ChainParams).
Context (walk_utxos : gmap OutPoint UtxoEntry -> list (OutPoint * UtxoEntry))
        (walk_pool : gmap bytes MempoolEntry -> list (bytes * MempoolEntry))
        (persist : gmap bytes MempoolEntry -> res string unit).

Record Node := {
  disputes : gmap string DisputeState; resolvers : gmap string ResolverRegistrationRecord;
  dispute_files : gmap string DisputeState; resolver_files : gmap string ResolverRegistrationRecord;
  pool : MempoolManager; world : World
}.

Definition set_disputes (n : Node) (ds : gmap string DisputeState) : Node :=
  {| disputes := ds; resolvers := resolvers n; dispute_files := dispute_files n; resolver_files := resolver_files n;
     pool := pool n; world := world n |}.
Definition put_dispute (hash : string) (d : DisputeState) (n : Node) : Node := set_disputes n (<[hash := d]> (disputes n)).
Definition put_resolver (addr : string) (r : ResolverRegistrationRecord) (n : Node) : Node :=
  {| disputes := disputes n; resolvers := <[addr := r]> (resolvers n); dispute_files := dispute_files n;
     resolver_files := resolver_files n; pool := pool n; world := world n |}.
Definition set_pool (m : MempoolManager) (n : Node) : Node :=
  {| disputes := disputes n; resolvers := resolvers n; dispute_files := dispute_files n; resolver_files := resolver_files n;
     pool := m; world := world n |}.
Definition set_world (w : World) (n : Node) : Node :=
  {| disputes := disputes n; resolvers := resolvers n; dispute_files := dispute_files n; resolver_files := resolver_files n;
     pool := pool n; world := w |}.

Definition Act (A : Type) : Type := Node -> res string A * Node.
#[local] Instance act_ret : MRet Act := fun A a n => (Ok a, n).
#[local] Instance act_bind : MBind Act := fun A B f m n =>
  match m n with (Ok a, n) => f a n | (Err e, n) => (Err e, n) | (Panic, n) => (Panic, n) end.

Definition lift {A} (r : res string A) : Act A := fun n => (r, n).
Definition read {A} (f : Node -> A) : Act A := fun n => (Ok (f n), n).
Definition update (f : Node -> Node) : Act unit := fun n => (Ok tt, f n).
Definition failing {A} (label : string) (m : Act A) : Act A := fun n => let '(r, n) := m n in (map_err (fun e => label +:+ e) r, n).
Definition ignore {A} (m : Act A) : Act unit := fun n => let '(r, n) := m n in (match r with Panic => Panic | _ => Ok tt end, n).
Definition labelled {A} (label : string) (r : res string A) : res string A := map_err (fun e => label +:+ e) r.

Definition anchor (hash : string) (role : AgreementAnchorRole) (extra : list TxOutput) : Act string := failing "anchor_tx:" (fun n =>
  let '(r, m) := build_and_broadcast_anchor_tx env p walk_utxos walk_pool persist (world n) (pool n) hash role extra in
  (r, set_pool m n)).

Definition save_dispute_state (d : DisputeState) : Act unit := fun n =>
  match w_disk (world n) with
  | Ok _ => (Ok tt, {| disputes := disputes n; resolvers := resolvers n; resolver_files := resolver_files n; pool := pool n;
                       world := world n; dispute_files := <[dr_agreement_hash (raise d) := d]> (dispute_files n) |})
  | r => (r, n)
  end.

Definition save_resolver_record (r : ResolverRegistrationRecord) : Act unit := fun n =>
  match w_disk (world n) with
  | Ok _ => (Ok tt, {| disputes := disputes n; resolvers := resolvers n; dispute_files := dispute_files n; pool := pool n;
                       world := world n; resolver_files := <[rr_address (rg_registration r) := r]> (resolver_files n) |})
  | e => (e, n)
  end.

(** ** Requests *)
Definition dispute_eligible (t : AgreementTemplateType) : bool :=
  match t with OtcSettlement | MilestoneSettlement | ContractorMilestone => true | _ => false end.

Definition find_party (a : AgreementObject) (id : string) : option AgreementParty :=
  List.find (fun q => bool_decide (party_id q = id)) (parties a).

Definition agreement_hash_is (a : AgreementObject) (hash e : string) : res string string :=
  h ← map_err (fun _ => "agreement_hash_failed") (compute_agreement_hash_hex a);
  _ ← ensure (bool_decide (h = hash)) e;
  Ok h.

Definition signed_as (env : AgreementSignatureEnvelope) (payload : res string bytes) (addr : string) : res string unit :=
  digest ← labelled "payload_hash:" payload;
  labelled "signature:" (verify_envelope_signature env digest addr).

Definition check_raise (d : DisputeRaise) (a : AgreementObject) : res string string :=
  _ ← validate_raise d;
  _ ← validate_agreement a;
  hash ← agreement_hash_is a (dr_agreement_hash d) "dispute_agreement_hash_mismatch";
  _ ← ensure (dispute_eligible (template_type a)) "dispute_template_not_eligible";
  party ← ok_or (find_party a (raising_party d)) "raising_party_not_in_agreement";
  _ ← signed_as (dr_signature d) (dispute_raise_payload_hash d) (Agreement.address party);
  Ok hash.

Definition raise_dispute (d : DisputeRaise) (a : AgreementObject) : Act (string * string) :=
  hash ← lift (check_raise d a);
  existing ← read (fun n => disputes n !! hash);
  _ ← lift (ensure (negb (from_option is_open false existing)) "dispute_already_open");
  txid ← anchor hash RDisputeRaise [];
  let st := new_dispute d (Some txid) in
  _ ← failing "persist:" (save_dispute_state st);
  _ ← update (put_dispute hash st);
  mret (hash, txid).

Definition check_evidence (e : DisputeEvidence) (a : AgreementObject) : res string string :=
  _ ← validate_evidence e;
  _ ← validate_agreement a;
  hash ← agreement_hash_is a (de_agreement_hash e) "evidence_agreement_hash_mismatch";
  party ← ok_or (find_party a (submitter_party e)) "submitter_party_not_in_agreement";
  _ ← signed_as (de_signature e) (dispute_evidence_payload_hash e) (Agreement.address party);
  Ok hash.

(** The dispute that a message is about, if it is open. *)
Definition open_dispute (hash : string) : Act DisputeState :=
  o ← read (fun n => disputes n !! hash);
  d ← lift (ok_or o "no_open_dispute");
  _ ← lift (ensure (is_open d) "dispute_already_resolved");
  mret d.

Definition change_dispute (hash : string) (f : DisputeState -> DisputeState) : Act DisputeState :=
  o ← read (fun n => disputes n !! hash);
  d ← lift (ok_or o "no_open_dispute");
  _ ← update (put_dispute hash (f d));
  mret (f d).

Definition submit_dispute_evidence (e : DisputeEvidence) (a : AgreementObject) : Act (string * string) :=
  hash ← lift (check_evidence e a);
  _ ← open_dispute hash;
  txid ← anchor hash RDisputeEvidence [];
  let record := {| er_evidence := e; er_anchor_txid := Some txid; er_anchored := None |} in
  snapshot ← change_dispute hash (fun d => with_evidence d (evidence d ++ [record]));
  _ ← failing "persist:" (save_dispute_state snapshot);
  mret (de_evidence_hash e, txid).

(** A nomination by both parties takes the place of the agreement's resolvers. *)
Definition effective (o : option DisputeState) (a : AgreementObject) : option string * option string :=
  match o ≫= reresolve_nomination with
  | Some nom => (Some (new_primary_resolver nom), new_fallback_resolver nom)
  | None => (primary_resolver a, fallback_resolver a)
  end.

Definition expected_resolver (role : string) (primary fallback : option string) : res string string :=
  if bool_decide (role = "primary") then ok_or primary "agreement_has_no_primary_resolver" else
  if bool_decide (role = "fallback") then ok_or fallback "agreement_has_no_fallback_resolver" else
  Err "invalid_resolver_role".

Definition check_resolution (r : DisputeResolution) (a : AgreementObject) : res string string :=
  _ ← validate_resolution r;
  _ ← validate_agreement a;
  agreement_hash_is a (rs_agreement_hash r) "resolution_agreement_hash_mismatch".

Definition check_resolver (r : DisputeResolution) (a : AgreementObject) (o : option DisputeState) : res string unit :=
  let '(primary, fallback) := effective o a in
  expected ← expected_resolver (resolver_role r) primary fallback;
  _ ← ensure (bool_decide (expected = resolver_address r)) "resolver_address_mismatch";
  signed_as (rs_signature r) (dispute_resolution_payload_hash r) expected.

Definition party_address (a : AgreementObject) (id : string) : string := from_option Agreement.address EmptyString (find_party a id).

Definition event_output (kind : ReputationEventKind) (addr : string) : list TxOutput :=
  if bool_decide (addr = EmptyString) then [] else
  match build_reputation_event_output {| ev_kind := kind; ev_address := addr; agreement_short_hash := None |} with
  | Ok out => [out]
  | _ => []
  end.

Definition outcome_outputs (a : AgreementObject) (outcome : string) : list TxOutput :=
  let payer := party_address a (payer a) in
  let payee := party_address a (payee a) in
  let '(winner, loser) :=
    if bool_decide (outcome = "release") then (payee, payer) else
    if bool_decide (outcome = "refund") then (payer, payee) else (EmptyString, EmptyString) in
  event_output DisputeWin winner ++ event_output DisputeLoss loser.

Definition resolve_dispute (r : DisputeResolution) (a : AgreementObject) : Act (string * string * string) :=
  hash ← lift (check_resolution r a);
  o ← read (fun n => disputes n !! hash);
  _ ← lift (check_resolver r a o);
  d ← open_dispute hash;
  _ ← lift (ensure (negb (bool_decide (resolver_role r = "fallback") && negb (escalated_to_fallback d))) "fallback_not_yet_escalated");
  txid ← anchor hash RDisputeResolve (outcome_outputs a (rs_outcome r));
  snapshot ← change_dispute hash (fun d => with_resolution d r (Some txid));
  _ ← failing "persist:" (save_dispute_state snapshot);
  mret (txid, rs_outcome r, resolver_role r).

Definition register_resolver (g : ResolverRegistration) : Act (string * string) :=
  _ ← lift (validate_resolver_registration g);
  _ ← lift (signed_as (rr_signature g) (resolver_registration_payload_hash g) (rr_address g));
  recent ← read (fun n => address_is_recent_miner (w_chain (world n)) (rr_address g));
  _ ← lift (ensure recent "resolver_not_recent_miner");
  txid ← anchor (rr_address g) RResolverRegister [];
  let record := {| rg_registration := g; rg_anchor_txid := Some txid; rg_anchored := None |} in
  _ ← failing "persist:" (save_resolver_record record);
  _ ← update (put_resolver (rr_address g) record);
  mret (rr_address g, txid).

(** The window from the anchor of the raise; [tip] is the node's. *)
Definition window_over (tip raised : Z) : bool := sat_add64 raised DISPUTE_RESOLVER_RESPONSE_WINDOW <=? tip.

Definition node_tip (n : Node) : Z := Chain.tip_height (w_chain (world n)).

Definition broadcast_reputation_non_response (addr hash : string) : Act string :=
  _ ← lift (ensure (negb (is_blank addr)) "resolver_address_empty");
  _ ← lift (ensure ((slen hash =? 64) && all_chars is_hex_digit hash) "agreement_hash_invalid");
  o ← read (fun n => disputes n !! hash);
  d ← lift (ok_or o "dispute_not_found");
  raised ← lift (ok_or (raise_anchored_at_height d) "dispute_raise_not_anchored");
  _ ← lift (ensure (is_open d) "dispute_already_resolved");
  tip ← read node_tip;
  _ ← lift (ensure (window_over tip raised) "response_window_not_elapsed");
  short ← lift (map_err (fun _ => "agreement_short_hash_failed") (agreement_short_hash_from_full hash));
  out ← lift (labelled "rep1_payload:" (build_reputation_event_output
    {| ev_kind := ResolverNonResponse; ev_address := addr; agreement_short_hash := Some short |}));
  failing "anchor_tx:" (fun n =>
    let '(r, m) := build_and_broadcast_rep_event_tx env p walk_utxos walk_pool persist (world n) (pool n) [out] in
    (r, set_pool m n)).

Definition co_signed (n : DisputeReResolverNomination) (digest : bytes) (sa sb : string) (pair : string * string) : bool :=
  bool_decide (sa = pair.1) && bool_decide (sb = pair.2)
  && is_ok (verify_envelope_signature (party_a_signature n) digest pair.1)
  && is_ok (verify_envelope_signature (party_b_signature n) digest pair.2).

Definition check_nomination (n : DisputeReResolverNomination) (a : AgreementObject) : res string string :=
  _ ← validate_nomination n;
  _ ← validate_agreement a;
  hash ← agreement_hash_is a (dn_agreement_hash n) "reresolve_agreement_hash_mismatch";
  _ ← ensure (2 <=? len (parties a)) "agreement_must_have_two_parties";
  pa ← idx (parties a) 0;
  pb ← idx (parties a) 1;
  digest ← labelled "payload_hash:" (dispute_reresolve_payload_hash n);
  sa ← ok_or (signer_address (party_a_signature n)) "party_a_signature_missing_address";
  sb ← ok_or (signer_address (party_b_signature n)) "party_b_signature_missing_address";
  _ ← ensure (existsb (co_signed n digest sa sb) [(Agreement.address pa, Agreement.address pb); (Agreement.address pb, Agreement.address pa)]) "co_signatures_invalid";
  Ok hash.

Definition reresolve_agreement (nom : DisputeReResolverNomination) (a : AgreementObject) : Act string :=
  hash ← lift (check_nomination nom a);
  recent ← read (fun n addr => address_is_recent_miner (w_chain (world n)) addr);
  _ ← lift (ensure (recent (new_primary_resolver nom)) "new_primary_resolver_not_recent_miner");
  _ ← lift (ensure (from_option recent true (new_fallback_resolver nom)) "new_fallback_resolver_not_recent_miner");
  _ ← open_dispute hash;
  snapshot ← change_dispute hash (fun d => with_nomination d nom);
  _ ← ignore (save_dispute_state snapshot);
  mret hash.

(** ** Messages of other nodes

    They must be signed, by whoever. What parses is given here; the rest changes
    nothing. *)
Definition signed_by_sender (e : AgreementSignatureEnvelope) (payload : res string bytes) : bool :=
  match signer_address e, payload with
  | Some addr, Ok digest => is_ok (verify_envelope_signature e digest addr)
  | _, _ => false
  end.

(** [let _ = save_dispute_state(..)] *)
Definition saved (d : DisputeState) (n : Node) : Node := (save_dispute_state d n).2.

Definition process_received_dispute_raise (d : DisputeRaise) (n : Node) : Node :=
  if is_ok (validate_raise d) && signed_by_sender (dr_signature d) (dispute_raise_payload_hash d) then
    match disputes n !! dr_agreement_hash d with
    | Some _ => n
    | None => let st := new_dispute d None in put_dispute (dr_agreement_hash d) st (saved st n)
    end
  else n.

(** A change of the dispute of [hash], if it meets [ok], and its file. *)
Definition revise (hash : string) (ok : DisputeState -> bool) (f : DisputeState -> DisputeState) (n : Node) : Node :=
  match disputes n !! hash with
  | Some d => if ok d then saved (f d) (put_dispute hash (f d) n) else n
  | None => n
  end.

Definition has_evidence (h : string) (d : DisputeState) : bool :=
  existsb (fun r => bool_decide (de_evidence_hash (er_evidence r) = h)) (evidence d).

Definition process_received_dispute_evidence (e : DisputeEvidence) (n : Node) : Node :=
  if is_ok (validate_evidence e) && signed_by_sender (de_signature e) (dispute_evidence_payload_hash e) then
    revise (de_agreement_hash e) (fun d => is_open d && negb (has_evidence (de_evidence_hash e) d))
      (fun d => with_evidence d (evidence d ++ [{| er_evidence := e; er_anchor_txid := None; er_anchored := None |}])) n
  else n.

Definition process_received_dispute_resolved (r : DisputeResolution) (n : Node) : Node :=
  if is_ok (validate_resolution r) && signed_by_sender (rs_signature r) (dispute_resolution_payload_hash r) then
    revise (rs_agreement_hash r) is_open (fun d => with_resolution d r (resolution_anchor_txid d)) n
  else n.

(** The two fields, if they have the right type. *)
Definition process_received_dispute_escalated (hash : option string) (at_height : option Z) (n : Node) : Node :=
  match hash with
  | Some hash => revise hash (fun d => is_open d && negb (escalated_to_fallback d)) (fun d => with_escalation d (Some (default 0 at_height))) n
  | None => n
  end.

(** ** New blocks *)
Fixpoint anchor_evidence (txid : string) (h : Z) (es : list DisputeEvidenceRecord) : list DisputeEvidenceRecord * bool :=
  match es with
  | [] => ([], false)
  | e :: es =>
      if bool_decide (er_anchor_txid e = Some txid) && bool_decide (er_anchored e = None)
      then ({| er_evidence := er_evidence e; er_anchor_txid := er_anchor_txid e; er_anchored := Some h |} :: es, true)
      else let '(es, b) := anchor_evidence txid h es in (e :: es, b)
  end.

(** The first record of the transaction that is not anchored, in the order of
    the map, which is taken to be that of [map_to_list]. *)
Definition anchor_registration (txid : string) (h : Z) (n : Node) : Node :=
  match List.find (fun kr => bool_decide (rg_anchor_txid kr.2 = Some txid) && bool_decide (rg_anchored kr.2 = None)) (map_to_list (resolvers n)) with
  | Some (addr, r) =>
      let r := {| rg_registration := rg_registration r; rg_anchor_txid := rg_anchor_txid r; rg_anchored := Some h |} in
      (save_resolver_record r (put_resolver addr r n)).2
  | None => n
  end.

Definition scan_output (h : Z) (txid : string) (n : Node) (o : TxOutput) : Node :=
  match parse_agreement_anchor (script_pubkey o) with
  | None => n
  | Some an =>
      match aa_role an with
      | RDisputeRaise =>
          revise (aa_hash an) (fun d => bool_decide (raise_anchored_at_height d = None)) (fun d => with_raise_anchor d txid h) n
      | RDisputeEvidence =>
          revise (aa_hash an) (fun d => (anchor_evidence txid h (evidence d)).2)
            (fun d => with_evidence d (anchor_evidence txid h (evidence d)).1) n
      | RDisputeResolve =>
          revise (aa_hash an) (fun d => bool_decide (resolution_anchored_at_height d = None)) (fun d => with_resolution_anchor d txid h) n
      | RResolverRegister => anchor_registration txid h n
      | _ => n
      end
  end.

Definition scan_block (n : Node) (hb : Z * Block R) : Node :=
  foldl (fun n tx => foldl (scan_output hb.1 (hex_encode (txid tx))) n (tx_outputs tx)) n (transactions hb.2).

Definition blocks_between (from to : Z) (bs : list (Block R)) : list (Z * Block R) :=
  let start := sat_add64 from 1 in
  let stop := Z.min to (sat_sub (len bs) 1) in
  if stop <? start then [] else
  omap (fun h => (fun b => (h, b)) <$> bs !! Z.to_nat h) (seqZ start (stop + 1 - start)).

Definition scan_new_blocks_for_dispute_anchors (from to : Z) (n : Node) : Node :=
  foldl scan_block n (blocks_between from to (chain (w_chain (world n)))).

Definition overdue (tip : Z) (d : DisputeState) : bool :=
  is_open d && negb (escalated_to_fallback d) && from_option (window_over tip) false (raise_anchored_at_height d).

Definition escalation_tick (tip : Z) (n : Node) : Node :=
  foldl (fun n hash => revise hash (fun _ => true) (fun d => with_escalation d (Some tip)) n) n
    (map_to_list (filter (fun hd => overdue tip hd.2 = true) (disputes n))).*1.

(** ** Restart *)
Definition load_all_disputes_at_startup (files : gmap string DisputeState) : gmap string DisputeState :=
  foldl (fun out st => <[dr_agreement_hash (raise st) := st]> out) ∅ (map_to_list files).*2.

Definition load_all_resolvers_at_startup (files : gmap string ResolverRegistrationRecord) : gmap string ResolverRegistrationRecord :=
  foldl (fun out r => <[rr_address (rg_registration r) := r]> out) ∅ (map_to_list files).*2.

Definition restart (n : Node) : Node :=
  {| disputes := load_all_disputes_at_startup (dispute_files n); resolvers := load_all_resolvers_at_startup (resolver_files n);
     dispute_files := dispute_files n; resolver_files := resolver_files n; pool := pool n; world := world n |}.

(** ** What may be spent *)
Definition block_spend (why : string) (resp : AgreementSpendEligibility) : AgreementSpendEligibility :=
  {| el_unspent := el_unspent resp; timeout_reached := timeout_reached resp; destination_address := destination_address resp;
     eligible := false; reasons := if bool_decide (why ∈ reasons resp) then reasons resp else reasons resp ++ [why] |}.

Definition branch_allowed (claim : bool) (r : DisputeResolution) : bool :=
  (claim && bool_decide (rs_outcome r = "release")) || (negb claim && bool_decide (rs_outcome r = "refund")).

Definition apply_dispute_status_to_eligibility (n : Node) (a : AgreementObject) (claim : bool) (resp : AgreementSpendEligibility)
    : AgreementSpendEligibility :=
  match compute_agreement_hash_hex a with
  | Ok hash =>
      match disputes n !! hash with
      | None => resp
      | Some d =>
          match ds_resolution d with
          | None => block_spend "dispute_open" resp
          | Some r => if branch_allowed claim r then resp else block_spend "dispute_resolution_blocks_branch" resp
          end
      end
  | _ => resp
  end.

(** The resolver's fee, in the transaction that spends ([build_agreement_spend_internal]). *)
Definition resolver_payout (n : Node) (a : AgreementObject) : res string (option (string * Z)) :=
  hash ← map_err (fun _ => "agreement_hash_failed") (compute_agreement_hash_hex a);
  Ok (d ← disputes n !! hash;
      r ← ds_resolution d;
      let '(addr, fee) :=
        if bool_decide (resolver_role r = "primary") then (primary_resolver a, primary_resolver_fee a) else
        if bool_decide (resolver_role r = "fallback") then (fallback_resolver a, fallback_resolver_fee a) else (None, None) in
      addr ← addr;
      fee ← fee;
      if 0 <? fee then Some (addr, fee) else None).

(** ** Histories *)
Inductive Event :=
| Raise (d : DisputeRaise) (a : AgreementObject) | Evidence (e : DisputeEvidence) (a : AgreementObject)
| Resolve (r : DisputeResolution) (a : AgreementObject) | Register (g : ResolverRegistration)
| ReResolve (nom : DisputeReResolverNomination) (a : AgreementObject) | NonResponse (addr hash : string)
| PeerRaise (d : DisputeRaise) | PeerEvidence (e : DisputeEvidence) | PeerResolved (r : DisputeResolution)
| PeerEscalated (hash : option string) (at_height : option Z)
| Scan (from to : Z) | Tick | World_is (w : World) | Pool_is (m : MempoolManager) | Restart.

Definition react (n : Node) (e : Event) : Node :=
  match e with
  | Raise d a => (raise_dispute d a n).2
  | Evidence e a => (submit_dispute_evidence e a n).2
  | Resolve r a => (resolve_dispute r a n).2
  | Register g => (register_resolver g n).2
  | ReResolve nom a => (reresolve_agreement nom a n).2
  | NonResponse addr hash => (broadcast_reputation_non_response addr hash n).2
  | PeerRaise d => process_received_dispute_raise d n
  | PeerEvidence e => process_received_dispute_evidence e n
  | PeerResolved r => process_received_dispute_resolved r n
  | PeerEscalated hash h => process_received_dispute_escalated hash h n
  | Scan from to => scan_new_blocks_for_dispute_anchors from to n
  | Tick => escalation_tick (node_tip n) n
  | World_is w => set_world w n
  | Pool_is m => set_pool m n
  | Restart => restart n
  end.

Definition first_node (m : MempoolManager) (w : World) : Node :=
  {| disputes := ∅; resolvers := ∅; dispute_files := ∅; resolver_files := ∅; pool := m; world := w |}.
Definition node_after (n : Node) (es : list Event) : Node := foldl react n es.
End node.

(** ** The life of a dispute

    What can happen to the dispute of an agreement, whatever the node is asked.
    [again]: whether it may be raised when there was one already. *)
Section life.
Context `{C : Crypto} {S : Signer C} {W : WalletSigner C S} `{Hex} `{Base58} `{AgreementJson} `{DisputeJson} `{P : Poawx R}.

Inductive Move (again : Prop) (h : string) : option DisputeState -> DisputeState -> Prop :=
| raised o d txid : validate_raise d = Ok tt -> dr_agreement_hash d = h ->
    signed_by_sender (dr_signature d) (dispute_raise_payload_hash d) = true ->
    (o = None \/ again /\ exists d0, o = Some d0 /\ is_open d0 = false) -> Move again h o (new_dispute d txid)
| argued d e txid : is_open d = true -> validate_evidence e = Ok tt -> de_agreement_hash e = h ->
    signed_by_sender (de_signature e) (dispute_evidence_payload_hash e) = true ->
    Move again h (Some d) (with_evidence d (evidence d ++ [{| er_evidence := e; er_anchor_txid := txid; er_anchored := None |}]))
| decided_by d r txid : is_open d = true -> validate_resolution r = Ok tt -> rs_agreement_hash r = h ->
    signed_by_sender (rs_signature r) (dispute_resolution_payload_hash r) = true -> Move again h (Some d) (with_resolution d r txid)
| escalated d at_height : is_open d = true -> escalated_to_fallback d = false -> Move again h (Some d) (with_escalation d (Some at_height))
| nominated d nom : is_open d = true -> validate_nomination nom = Ok tt -> dn_agreement_hash nom = h ->
    Move again h (Some d) (with_nomination d nom)
| raise_anchored d txid at_height : raise_anchored_at_height d = None -> Move again h (Some d) (with_raise_anchor d txid at_height)
| evidence_anchored d txid at_height : Move again h (Some d) (with_evidence d (anchor_evidence txid at_height (evidence d)).1)
| decision_anchored d txid at_height : resolution_anchored_at_height d = None ->
    Move again h (Some d) (with_resolution_anchor d txid at_height).

(** A dispute that came about so. *)
Inductive Lived (h : string) : DisputeState -> Prop :=
| lived again o d : (forall d0, o = Some d0 -> Lived h d0) -> Move again h o d -> Lived h d.

(** At most one dispute of the node moves, and its file with it if it can be written. *)
Inductive Touch (again : Prop) (n n' : Node (R := R)) : Prop :=
| untouched : disputes n' = disputes n -> dispute_files n' = dispute_files n -> world n' = world n -> Touch again n n'
| touched h d : Move again h (disputes n !! h) d -> disputes n' = <[h := d]> (disputes n) -> world n' = world n ->
    dispute_files n' = (if is_ok (w_disk (world n)) then <[dr_agreement_hash (raise d) := d]> (dispute_files n) else dispute_files n) ->
    Touch again n n'.

(** *** Running actions: [E] when it fails, [K] when it succeeds *)
Definition runs {A} (m : Act (R := R) A) (n : Node) (E : Node -> Prop) (K : A -> Node -> Prop) : Prop :=
  match m n with (Ok a, n') => K a n' | (_, n') => E n' end.

#[local] Existing Instances act_ret act_bind.

Lemma runs_bind {A B} (m : Act A) (f : A -> Act B) n E K :
  runs m n E (fun a n' => runs (f a) n' E K) -> runs (m ≫= f) n E K.
Proof. unfold runs, mbind, act_bind. by destruct (m n) as [[] ?]. Qed.

Lemma runs_ret {A} (a : A) n E (K : A -> Node -> Prop) : K a n -> runs (mret a) n E K.
Proof. done. Qed.

Lemma runs_lift {A} (r : res string A) n E (K : A -> Node -> Prop) : E n -> (forall a, r = Ok a -> K a n) -> runs (lift r) n E K.
Proof. unfold runs, lift. destruct r; auto. Qed.

Lemma runs_read {A} f n E (K : A -> Node -> Prop) : K (f n) n -> runs (read f) n E K.
Proof. done. Qed.

Lemma runs_update f n E (K : unit -> Node -> Prop) : K tt (f n) -> runs (update f) n E K.
Proof. done. Qed.

Lemma runs_failing {A} label (m : Act A) n E K : runs m n E K -> runs (failing label m) n E K.
Proof. unfold runs, failing. by destruct (m n) as [[] ?]. Qed.

Lemma runs_fst {A} (m : Act A) n (E : Node -> Prop) : runs m n E (fun _ => E) -> E (m n).2.
Proof. unfold runs. by destruct (m n) as [[] ?]. Qed.

Context (env : Env) (p : ChainParams).
Context (walk_utxos : gmap OutPoint UtxoEntry -> list (OutPoint * UtxoEntry))
        (walk_pool : gmap bytes MempoolEntry -> list (bytes * MempoolEntry))
        (persist : gmap bytes MempoolEntry -> res string unit).

Lemma runs_anchor hash role extra n (E : Node -> Prop) (K : string -> Node -> Prop) :
  (forall m, E (set_pool m n)) -> (forall m txid, K txid (set_pool m n)) ->
  runs (anchor env p walk_utxos walk_pool persist hash role extra) n E K.
Proof.
  intros He Hk. apply runs_failing. unfold runs. destruct (build_and_broadcast_anchor_tx _ _ _ _ _ _ _ _ _ _) as [[] m]; [apply Hk | apply He..].
Qed.

Lemma runs_save {d} n (E : Node -> Prop) (K : unit -> Node -> Prop) :
  (is_ok (w_disk (world n)) = false -> E n) -> (is_ok (w_disk (world n)) = true -> K tt (saved d n)) ->
  runs (save_dispute_state d) n E K.
Proof. intros He Hk. unfold runs, saved, save_dispute_state in *. destruct (w_disk (world n)); [by apply Hk | by apply He..]. Qed.

Lemma runs_change hash f n E (K : DisputeState -> Node -> Prop) :
  E n -> (forall d, disputes n !! hash = Some d -> K (f d) (put_dispute hash (f d) n)) -> runs (change_dispute hash f) n E K.
Proof.
  intros He Hk. apply runs_bind, runs_read, runs_bind, runs_lift; [done|]. intros d Hd. apply runs_bind, runs_update, runs_ret, Hk.
  by destruct (disputes n !! hash); [injection Hd as -> |].
Qed.

Lemma runs_open hash n E (K : DisputeState -> Node -> Prop) :
  E n -> (forall d, disputes n !! hash = Some d -> is_open d = true -> K d n) -> runs (open_dispute hash) n E K.
Proof.
  intros He Hk. apply runs_bind, runs_read, runs_bind, runs_lift; [done|]. intros d Hd. apply runs_bind, runs_lift; [done|].
  intros u Hu%ensure_ok. apply runs_ret, Hk; [|done]. by destruct (disputes n !! hash); [injection Hd as -> |].
Qed.

Lemma signed_as_sender e payload addr u : signed_as e payload addr = Ok u -> signed_by_sender e payload = true.
Proof.
  unfold signed_as, signed_by_sender. destruct payload as [digest| |]; [|done..]. cbn [labelled map_err mbind res_bind].
  destruct (verify_envelope_signature e digest addr) as [[]| |] eqn:Hv; [|done..]. intros _.
  pose proof (proj1 (verify_envelope_ok _ _ _) Hv) as (_ & -> & _). by rewrite Hv.
Qed.

(** *** Every event is a sequence of moves *)
Lemma touch_saved again h d n : Move again h (disputes n !! h) d -> Touch again n (saved d (put_dispute h d n)).
Proof.
  intros Hm. unfold saved, save_dispute_state. cbn [world put_dispute set_disputes]. destruct (w_disk (world n)) eqn:Hd;
    (eapply touched; [exact Hm | done..| by rewrite Hd]).
Qed.

Lemma revise_touch again h ok f n : (forall d, disputes n !! h = Some d -> ok d = true -> Move again h (Some d) (f d)) ->
  Touch again n (revise h ok f n).
Proof.
  intros Hm. unfold revise. destruct (disputes n !! h) as [d|] eqn:Hd; [|by apply untouched]. case_match eqn:Hok; [|by apply untouched].
  apply touch_saved. rewrite Hd. by apply Hm.
Qed.

Ltac run_step :=
  lazymatch goal with
  | |- runs (mbind _ _) _ _ _ => simple apply runs_bind
  | |- runs (mret _) _ _ _ => simple apply runs_ret
  | |- runs (lift _) _ _ _ => simple apply runs_lift; [|intros ??]
  | |- runs (read _) _ _ _ => simple apply runs_read
  | |- runs (update _) _ _ _ => simple apply runs_update
  | |- runs (failing _ _) _ _ _ => simple apply runs_failing
  | |- runs (anchor _ _ _ _ _ _ _ _) _ _ _ => simple apply runs_anchor; [intros ?|intros ??]
  | |- runs (open_dispute _) _ _ _ => simple apply runs_open; [|intros ???]
  | |- runs (change_dispute _ _) _ _ _ => simple apply runs_change; [|intros ??]
  | |- runs (save_dispute_state _) _ _ _ => simple apply runs_save; [intros ?|intros ?]
  | |- runs (let x := _ in _) _ _ _ => cbv zeta
  end.
Ltac run_act := repeat run_step; try by apply untouched.
(** ... up to the change *)
Ltac run_to_change :=
  repeat (lazymatch goal with |- runs (mbind _ (change_dispute _ _)) _ _ _ => fail | _ => run_step end); try by apply untouched.

Lemma agreement_hash_is_ok a hash e h : agreement_hash_is a hash e = Ok h -> h = hash /\ compute_agreement_hash_hex a = Ok h.
Proof.
  unfold agreement_hash_is. intros Ha. repeat accepted_step Ha. injection Ha as <-. rewrite bool_decide_eq_true in *. split; [done|].
  by destruct (compute_agreement_hash_hex a); simplify_eq/=.
Qed.

Lemma check_raise_ok d a h : check_raise d a = Ok h ->
  validate_raise d = Ok tt /\ dr_agreement_hash d = h /\ signed_by_sender (dr_signature d) (dispute_raise_payload_hash d) = true.
Proof.
  unfold check_raise. intros Hc. destruct (validate_raise d) as [[]| |]; [|done..]. repeat accepted_step Hc. injection Hc as ->.
  split_and!; [done | by edestruct agreement_hash_is_ok | by eapply signed_as_sender].
Qed.

Lemma check_evidence_ok e a h : check_evidence e a = Ok h ->
  validate_evidence e = Ok tt /\ de_agreement_hash e = h /\ signed_by_sender (de_signature e) (dispute_evidence_payload_hash e) = true.
Proof.
  unfold check_evidence. intros Hc. destruct (validate_evidence e) as [[]| |]; [|done..]. repeat accepted_step Hc. injection Hc as ->.
  split_and!; [done | by edestruct agreement_hash_is_ok | by eapply signed_as_sender].
Qed.

Lemma check_resolution_ok r a h : check_resolution r a = Ok h ->
  validate_resolution r = Ok tt /\ rs_agreement_hash r = h /\ compute_agreement_hash_hex a = Ok h.
Proof.
  unfold check_resolution. intros Hc. destruct (validate_resolution r) as [[]| |]; [|done..]. repeat accepted_step Hc.
  cbn [mbind res_bind] in Hc. apply agreement_hash_is_ok in Hc as [-> Hc]. by rewrite Hc.
Qed.

Lemma check_resolver_ok r a o u : check_resolver r a o = Ok u ->
  expected_resolver (resolver_role r) (effective o a).1 (effective o a).2 = Ok (resolver_address r) /\
  signed_as (rs_signature r) (dispute_resolution_payload_hash r) (resolver_address r) = Ok tt.
Proof.
  unfold check_resolver. destruct (effective o a) as [pr fb]. intros Hc. repeat accepted_step Hc. rewrite bool_decide_eq_true in *.
  subst. cbn [fst snd]. split; [done|]. by destruct u.
Qed.

Lemma check_nomination_ok nom a h : check_nomination nom a = Ok h -> validate_nomination nom = Ok tt /\ dn_agreement_hash nom = h.
Proof.
  unfold check_nomination. intros Hc. destruct (validate_nomination nom) as [[]| |]; [|done..]. repeat accepted_step Hc.
  injection Hc as <-. split; [done|]. by edestruct agreement_hash_is_ok.
Qed.

Lemma disputes_saved d n : disputes (saved d n) = disputes n.
Proof. unfold saved, save_dispute_state. by destruct (w_disk (world n)). Qed.
Lemma world_saved d n : world (saved d n) = world n.
Proof. unfold saved, save_dispute_state. by destruct (w_disk (world n)). Qed.
Lemma files_saved d n : dispute_files (saved d n) =
  if is_ok (w_disk (world n)) then <[dr_agreement_hash (raise d) := d]> (dispute_files n) else dispute_files n.
Proof. unfold saved, save_dispute_state. by destruct (w_disk (world n)). Qed.

Lemma touched_put again h d n : Move again h (disputes n !! h) d -> Touch again n (put_dispute h d (saved d n)).
Proof.
  intros Hm. eapply touched; [exact Hm | cbn [disputes put_dispute set_disputes]; by rewrite disputes_saved | apply world_saved | apply files_saved].
Qed.

(** A change in memory whose file is not written. *)
Lemma touched_unsaved again h d n : is_ok (w_disk (world n)) = false -> Move again h (disputes n !! h) d -> Touch again n (put_dispute h d n).
Proof. intros Hd Hm. eapply touched; [exact Hm | done..|]. by rewrite Hd. Qed.

Lemma touch_pool again m n n' : Touch again (set_pool m n) n' -> Touch again n n'.
Proof. intros [? ? ?|h d ? ? ? ?]; [by apply untouched | by eapply (touched again n n' h d)]. Qed.

(** How an answered request ends: memory, then the file. *)
Lemma runs_changed {A} again hash f d label (x : A) n m : disputes n !! hash = Some d -> Move again hash (Some d) (f d) ->
  runs (snapshot ← change_dispute hash f; _ ← failing label (save_dispute_state snapshot); mret x) (set_pool m n)
    (Touch again n) (fun _ => Touch again n).
Proof.
  intros Hd Hm. rewrite <- Hd in Hm.
  apply runs_bind, runs_change; [by apply untouched|]. intros d' Hd'. cbn [disputes set_pool] in Hd'. simplify_eq.
  apply runs_bind, runs_failing, runs_save; intros Hk; [|apply runs_ret];
    apply (touch_pool _ m); [by apply touched_unsaved | by apply touch_saved].
Qed.

Lemma raise_touch d a n : Touch True n (raise_dispute env p walk_utxos walk_pool persist d a n).2.
Proof.
  apply runs_fst. unfold raise_dispute. run_act.
  match goal with Hc : check_raise d a = Ok ?x, Ho : ensure _ _ = Ok _ |- _ => apply check_raise_ok in Hc as (Hv & <- & Hs); apply ensure_ok in Ho end.
  apply (touch_pool _ m), touched_put, raised; [done..|]. cbn [disputes set_pool].
  destruct (disputes n !! dr_agreement_hash d) as [d0|]; [right; split; [done|] | by left]. exists d0. split; [done|].
  match goal with Ho : negb _ = true |- _ => by apply negb_true_iff in Ho end.
Qed.

Lemma evidence_touch again e a n : Touch again n (submit_dispute_evidence env p walk_utxos walk_pool persist e a n).2.
Proof.
  apply runs_fst. unfold submit_dispute_evidence. run_to_change.
  match goal with Hc : check_evidence _ _ = Ok _ |- _ => apply check_evidence_ok in Hc as (Hv & <- & Hs) end.
  eapply runs_changed; [done|]. by apply argued.
Qed.

Lemma resolve_touch again r a n : Touch again n (resolve_dispute env p walk_utxos walk_pool persist r a n).2.
Proof.
  apply runs_fst. unfold resolve_dispute. run_to_change.
  match goal with Hc : check_resolution _ _ = Ok _, Hs : check_resolver _ _ _ = Ok _ |- _ =>
    apply check_resolution_ok in Hc as (Hv & <- & _); apply check_resolver_ok in Hs as [_ Hs%signed_as_sender] end.
  eapply (runs_changed _ _ (fun d => with_resolution d r (Some txid))); [done|]. by apply decided_by.
Qed.

Lemma register_touch again g n : Touch again n (register_resolver env p walk_utxos walk_pool persist g n).2.
Proof.
  apply runs_fst. unfold register_resolver. run_act.
  unfold runs, save_resolver_record. destruct (w_disk (world (set_pool m n))); by apply untouched.
Qed.

Lemma reresolve_touch again nom a n : Touch again n (reresolve_agreement nom a n).2.
Proof.
  apply runs_fst. unfold reresolve_agreement. run_to_change.
  match goal with Hc : check_nomination _ _ = Ok _ |- _ => apply check_nomination_ok in Hc as (Hv & <-) end.
  apply runs_bind, runs_change; [by apply untouched|]. intros d' Hd'. simplify_eq. apply runs_bind. unfold runs, ignore.
  match goal with |- context [save_dispute_state ?x ?y] => assert (Touch again n (save_dispute_state x y).2) as Ht end.
  { apply touch_saved. match goal with Hd : disputes n !! _ = Some _ |- _ => rewrite Hd end. by apply nominated. }
  by destruct (save_dispute_state _ _) as [[] ?].
Qed.

Lemma non_response_touch again addr hash n :
  Touch again n (broadcast_reputation_non_response env p walk_utxos walk_pool persist addr hash n).2.
Proof.
  apply runs_fst. unfold broadcast_reputation_non_response. run_act.
  unfold runs. destruct (build_and_broadcast_rep_event_tx _ _ _ _ _ _ _ _) as [[] ?]; by apply untouched.
Qed.

Lemma peer_raise_touch d n : Touch False n (process_received_dispute_raise d n).
Proof.
  unfold process_received_dispute_raise. case_match eqn:Hs; [|by apply untouched]. apply andb_true_iff in Hs as [Hv Hs].
  destruct (disputes n !! dr_agreement_hash d) eqn:Hd; [by apply untouched|]. apply touched_put, raised; auto.
  by destruct (validate_raise d) as [[]| |].
Qed.

Lemma peer_evidence_touch again e n : Touch again n (process_received_dispute_evidence e n).
Proof.
  unfold process_received_dispute_evidence. case_match eqn:Hs; [|by apply untouched]. apply andb_true_iff in Hs as [Hv Hs].
  apply revise_touch. intros d _ [Ho _]%andb_true_iff. apply argued; auto. by destruct (validate_evidence e) as [[]| |].
Qed.

Lemma peer_resolved_touch again r n : Touch again n (process_received_dispute_resolved r n).
Proof.
  unfold process_received_dispute_resolved. case_match eqn:Hs; [|by apply untouched]. apply andb_true_iff in Hs as [Hv Hs].
  apply revise_touch. intros d _ Ho. apply decided_by; auto. by destruct (validate_resolution r) as [[]| |].
Qed.

Lemma peer_escalated_touch again hash h n : Touch again n (process_received_dispute_escalated hash h n).
Proof.
  unfold process_received_dispute_escalated. destruct hash as [hash|]; [|by apply untouched].
  apply revise_touch. intros d _ [Ho He%negb_true_iff]%andb_true_iff. by apply escalated.
Qed.

Lemma register_anchor_touch again txid h n : Touch again n (anchor_registration txid h n).
Proof.
  unfold anchor_registration. destruct (List.find _ _) as [[addr r]|]; [|by apply untouched].
  unfold save_resolver_record. case_match; by apply untouched.
Qed.

Lemma scan_output_touch again h txid n o : Touch again n (scan_output h txid n o).
Proof.
  unfold scan_output. destruct (parse_agreement_anchor _) as [an|]; [|by apply untouched].
  destruct (aa_role an); try by apply untouched.
  - apply revise_touch. intros d _ Ho%bool_decide_eq_true. by apply raise_anchored.
  - apply revise_touch. intros d _ _. apply evidence_anchored.
  - apply revise_touch. intros d _ Ho%bool_decide_eq_true. by apply decision_anchored.
  - apply register_anchor_touch.
Qed.

Lemma foldl_touch {A} again (f : Node -> A -> Node) (l : list A) :
  (forall n a, a ∈ l -> rtc (Touch again) n (f n a)) -> forall n, rtc (Touch again) n (foldl f n l).
Proof.
  induction l as [|a l IH]; intros Hf n; [done|]. cbn. etrans; [apply Hf; constructor|]. apply IH. intros n' a' Ha. apply Hf. by constructor.
Qed.

Lemma scan_touch again from to n : rtc (Touch again) n (scan_new_blocks_for_dispute_anchors from to n).
Proof.
  apply foldl_touch. intros n1 hb _. apply foldl_touch. intros n2 tx _. apply foldl_touch. intros n3 o _.
  apply rtc_once, scan_output_touch.
Qed.

Definition escalate_one (tip : Z) (n : Node) (hash : string) : Node :=
  revise hash (fun _ => true) (fun d => with_escalation d (Some tip)) n.

Lemma revise_lookup_ne h k ok f n : k <> h -> disputes (revise h ok f n) !! k = disputes n !! k.
Proof.
  intros Hk. unfold revise. destruct (disputes n !! h); [|done]. case_match; [|done].
  rewrite disputes_saved. cbn. by rewrite lookup_insert_ne.
Qed.

Definition due (tip : Z) (n : Node) : list string := (map_to_list (filter (fun hd => overdue tip hd.2 = true) (disputes n))).*1.

Lemma due_spec tip n h : h ∈ due tip n <-> exists d, disputes n !! h = Some d /\ overdue tip d = true.
Proof.
  unfold due. rewrite list_elem_of_fmap. split.
  - intros ([k d] & -> & Hin). apply elem_of_map_to_list, map_lookup_filter_Some in Hin as [? ?]. by exists d.
  - intros (d & Hd & Ho). exists (h, d). split; [done|]. by apply elem_of_map_to_list, map_lookup_filter_Some.
Qed.

Lemma due_NoDup tip n : NoDup (due tip n).
Proof. apply NoDup_fst_map_to_list. Qed.

Lemma escalate_touch again tip l : NoDup l -> forall n, (forall h, h ∈ l -> exists d, disputes n !! h = Some d /\ overdue tip d = true) ->
  rtc (Touch again) n (foldl (escalate_one tip) n l).
Proof.
  induction 1 as [|h l Hh Hl IH]; intros n Hd; [done|]. cbn. etrans; [apply rtc_once|apply IH].
  - apply revise_touch. intros d Hlook _. destruct (Hd h) as (d' & Hd' & Ho); [set_solver|]. simplify_eq.
    unfold overdue in Ho. rewrite !andb_true_iff, negb_true_iff in Ho. destruct Ho as [[? ?] _]. by apply escalated.
  - intros k Hk. unfold escalate_one. rewrite revise_lookup_ne by set_solver. apply Hd. set_solver.
Qed.

Lemma escalate_lookup tip l : NoDup l -> forall n h,
  disputes (foldl (escalate_one tip) n l) !! h =
  if bool_decide (h ∈ l) then (fun d => with_escalation d (Some tip)) <$> disputes n !! h else disputes n !! h.
Proof.
  induction 1 as [|k l Hk Hl IH]; intros n h; cbn; [by rewrite bool_decide_false by set_solver|]. rewrite IH. destruct (decide (h = k)) as [->|Hne].
  - rewrite (bool_decide_false (k ∈ l)), (bool_decide_true (k ∈ k :: l)) by set_solver. unfold escalate_one, revise.
    destruct (disputes n !! k) as [d|] eqn:Hd; [|by rewrite Hd]. rewrite disputes_saved. cbn. by rewrite lookup_insert_eq.
  - unfold escalate_one at 1 2. rewrite revise_lookup_ne by done. do 2 case_bool_decide; set_solver.
Qed.

Lemma tick_touch again tip n : rtc (Touch again) n (escalation_tick tip n).
Proof. apply escalate_touch; [apply due_NoDup|]. intros h. apply due_spec. Qed.

Abbreviation after := (react env p walk_utxos walk_pool persist).

(** Events that are not the outside world changing, nor a restart. *)
Definition handled (e : Event (R := R)) : Prop := match e with World_is _ | Pool_is _ | Restart => False | _ => True end.
Definition raises (e : Event (R := R)) : Prop := match e with Raise _ _ => True | _ => False end.

Lemma touch_again again n n' : Touch again n n' -> forall again' : Prop, (again -> again') -> Touch again' n n'.
Proof.
  intros [? ? ?|h d Hm ? ? ?] again' Hi; [by apply untouched|]. eapply touched; [|done..].
  destruct Hm; [apply raised; auto | by constructor..]. naive_solver.
Qed.

Lemma handled_touches e n : handled e -> rtc (Touch (raises e)) n (after n e).
Proof.
  destruct e; cbn [handled react raises]; intros Hh; try done.
  - apply rtc_once, raise_touch.
  - apply rtc_once, evidence_touch.
  - apply rtc_once, resolve_touch.
  - apply rtc_once, register_touch.
  - apply rtc_once, reresolve_touch.
  - apply rtc_once, non_response_touch.
  - apply rtc_once, peer_raise_touch.
  - apply rtc_once, peer_evidence_touch.
  - apply rtc_once, peer_resolved_touch.
  - apply rtc_once, peer_escalated_touch.
  - apply scan_touch.
  - apply tick_touch.
Qed.

(** *** What every dispute is like *)
Definition sound_evidence (h : string) (r : DisputeEvidenceRecord) : Prop :=
  let e := er_evidence r in validate_evidence e = Ok tt /\ de_agreement_hash e = h /\
  signed_by_sender (de_signature e) (dispute_evidence_payload_hash e) = true.
Definition sound_resolution (h : string) (r : DisputeResolution) : Prop :=
  validate_resolution r = Ok tt /\ rs_agreement_hash r = h /\
  signed_by_sender (rs_signature r) (dispute_resolution_payload_hash r) = true.
Record sound_dispute (h : string) (d : DisputeState) : Prop := {
  sound_key : dr_agreement_hash (raise d) = h;
  sound_raise : validate_raise (raise d) = Ok tt /\ signed_by_sender (dr_signature (raise d)) (dispute_raise_payload_hash (raise d)) = true;
  sound_evidences : Forall (sound_evidence h) (evidence d);
  sound_decision : from_option (sound_resolution h) True (ds_resolution d);
  sound_escalation : escalated_to_fallback d = bool_decide (is_Some (escalated_at_height d));
  sound_nomination : from_option (fun nom => validate_nomination nom = Ok tt /\ dn_agreement_hash nom = h) True (reresolve_nomination d)
}.

Lemma anchor_evidence_same txid h es : er_evidence <$> (anchor_evidence txid h es).1 = er_evidence <$> es.
Proof.
  induction es as [|e es IH]; [done|]. cbn. case_match; [done|]. destruct (anchor_evidence txid h es) as [es' b]. cbn in *. by rewrite IH.
Qed.

Lemma sound_by_evidence h es es' : er_evidence <$> es' = er_evidence <$> es -> Forall (sound_evidence h) es -> Forall (sound_evidence h) es'.
Proof.
  pose (Q e := validate_evidence e = Ok tt /\ de_agreement_hash e = h /\
    signed_by_sender (de_signature e) (dispute_evidence_payload_hash e) = true).
  intros Hs Hf. change (Forall (Q ∘ er_evidence) es') . rewrite <- Forall_fmap, Hs. by apply Forall_fmap.
Qed.

Lemma lived_sound h d : Lived h d -> sound_dispute h d.
Proof.
  induction 1 as [again o d Ho IH Hm]. destruct Hm as [o d txid Hv Hh Hs _|d e txid Hop Hv Hh Hs|d r txid Hop Hv Hh Hs|d k Hop Hn|d nom Hop Hv Hh
    |d txid k Hn|d txid k|d txid k Hn]; [by split|destruct (IH d eq_refl)..]; split; try done.
  - apply Forall_app. split; [done|]. by apply Forall_singleton.
  - by eapply sound_by_evidence; [apply anchor_evidence_same|].
Qed.

Definition Sound (n : Node) : Prop :=
  map_Forall Lived (disputes n) /\ map_Forall Lived (dispute_files n).

Lemma touch_sound again n n' : Touch again n n' -> Sound n -> Sound n'.
Proof.
  intros [Hd Hf _|h d Hm Hd _ Hf] [Hs Hs']; unfold Sound; rewrite Hd, Hf; [done|].
  assert (Lived h d) as Hl by (eapply lived; [|exact Hm]; intros d0; apply Hs).
  rewrite (sound_key _ _ (lived_sound _ _ Hl)). split; [by apply map_Forall_insert_2|]. case_match; [by apply map_Forall_insert_2|done].
Qed.

Lemma touches_sound again n n' : rtc (Touch again) n n' -> Sound n -> Sound n'.
Proof. induction 1; eauto using touch_sound. Qed.

(** *** Restart *)
Lemma foldl_insert_own {V} (key : V -> string) (l : list (string * V)) : Forall (fun kv => key kv.2 = kv.1) l -> NoDup l.*1 ->
  forall (m : gmap string V) h, foldl (fun out v => <[key v := v]> out) m l.*2 !! h = from_option Some (m !! h) (list_to_map (M := gmap string V) l !! h).
Proof.
  induction 1 as [|[k v] l Hk Hf IH]; intros Hn m h; [done|]. apply NoDup_cons in Hn as [Hnk Hn]. cbn in *. rewrite IH by done. rewrite Hk.
  destruct (decide (h = k)) as [->|Hne].
  - rewrite !lookup_insert_eq. rewrite (proj1 (not_elem_of_list_to_map l k)) by done. done.
  - by rewrite !lookup_insert_ne.
Qed.

Lemma load_own {V} (key : V -> string) (files : gmap string V) : (forall k v, files !! k = Some v -> key v = k) ->
  foldl (fun out v => <[key v := v]> out) ∅ (map_to_list files).*2 = files.
Proof.
  intros Hk. apply map_eq. intros h. rewrite foldl_insert_own; [|apply Forall_forall; intros [k v] Hin%elem_of_map_to_list; by apply Hk
    |apply NoDup_fst_map_to_list]. rewrite list_to_map_to_list. by destruct (files !! h).
Qed.

Lemma sound_restart n : Sound n -> disputes (restart n) = dispute_files n.
Proof.
  intros [_ Hf]. cbn. apply (load_own (fun d => dr_agreement_hash (raise d))). intros k d Hd. apply (sound_key _ _ (lived_sound _ _ (Hf k d Hd))).
Qed.

Lemma event_sound n e : Sound n -> Sound (after n e).
Proof.
  intros Hs. assert (handled e -> Sound (after n e)) as Hh by (intros Hh; by eapply touches_sound, Hs; apply handled_touches).
  destruct e; try (by apply Hh); try exact Hs.
  cbn [react]. unfold Sound. rewrite sound_restart by done. by destruct Hs.
Qed.

Lemma run_sound es n : Sound n -> Sound (node_after env p walk_utxos walk_pool persist n es).
Proof. revert n. induction es as [|e es IH]; intros n Hs; [done|]. cbn. by apply IH, event_sound. Qed.

Lemma first_sound m w : Sound (first_node m w).
Proof. split; apply map_Forall_empty. Qed.

(** *** A decision stays *)
Lemma raise_elsewhere d a n h : dr_agreement_hash d <> h ->
  disputes (raise_dispute env p walk_utxos walk_pool persist d a n).2 !! h = disputes n !! h.
Proof.
  intros Hh. apply (runs_fst _ _ (fun n' => disputes n' !! h = disputes n !! h)). unfold raise_dispute. repeat run_step; try done.
  match goal with Hc : check_raise _ _ = Ok _ |- _ => apply check_raise_ok in Hc as (_ & <- & _) end.
  cbn [disputes put_dispute set_disputes]. by rewrite lookup_insert_ne, disputes_saved.
Qed.

Lemma move_keeps_decision h o d d' r : Move False h o d' -> o = Some d -> ds_resolution d = Some r -> ds_resolution d' = Some r.
Proof.
  intros Hm -> Hr. assert (is_open d = false) as Ho by (unfold is_open; by rewrite Hr).
  inversion Hm; subst; try done; try congruence. naive_solver.
Qed.

Lemma touches_keep_decision n n' : rtc (Touch False) n n' -> forall h d r, disputes n !! h = Some d -> ds_resolution d = Some r ->
  exists d', disputes n' !! h = Some d' /\ ds_resolution d' = Some r.
Proof.
  induction 1 as [n|n n1 n' Ht _ IH]; intros h d r Hd Hr; [by exists d|].
  destruct Ht as [He _ _|k d1 Hm He _ _]; [rewrite <- He in Hd; by eapply IH|].
  destruct (decide (k = h)) as [->|Hne].
  - apply (IH h d1); [rewrite He; by rewrite lookup_insert_eq | by eapply move_keeps_decision].
  - apply (IH h d); [rewrite He; by rewrite lookup_insert_ne | done].
Qed.

(** Neither raised again here, nor read back from the files. *)
Definition leaves (h : string) (e : Event (R := R)) : Prop :=
  match e with Raise d _ => dr_agreement_hash d <> h | Restart => False | _ => True end.

Lemma leaves_decision h e n d r : leaves h e -> disputes n !! h = Some d -> ds_resolution d = Some r ->
  exists d', disputes (after n e) !! h = Some d' /\ ds_resolution d' = Some r.
Proof.
  intros Hl Hd Hr. assert (handled e -> ~ raises e -> exists d', disputes (after n e) !! h = Some d' /\ ds_resolution d' = Some r) as Hh.
  { intros He Hn. eapply touches_keep_decision, Hr; [|exact Hd]. pose proof (handled_touches e n He) as Ht.
    by eapply (rtc_congruence id), Ht; intros x y Hxy; eapply touch_again. }
  destruct e; cbn [leaves] in Hl; try (by apply Hh; cbn; auto); try done; try by exists d.
  exists d. split; [|done]. cbn [react]. by rewrite raise_elsewhere.
Qed.

Abbreviation history := (node_after env p walk_utxos walk_pool persist).
Abbreviation resolve := (resolve_dispute env p walk_utxos walk_pool persist).

Lemma history_keeps_decision h es : Forall (leaves h) es -> forall n d r, disputes n !! h = Some d -> ds_resolution d = Some r ->
  exists d', disputes (history n es) !! h = Some d' /\ ds_resolution d' = Some r.
Proof.
  induction 1 as [|e es He _ IH]; intros n d r Hd Hr; [by exists d|]. destruct (leaves_decision h e n d r He Hd Hr) as (d' & Hd' & Hr').
  by apply (IH _ d').
Qed.

(** *** Who decides *)
Definition appointed (d : DisputeState) (a : AgreementObject) (role who : string) : Prop :=
  (role = "primary" /\ (effective (Some d) a).1 = Some who) \/
  (role = "fallback" /\ (effective (Some d) a).2 = Some who /\ escalated_to_fallback d = true).

Lemma expected_ok role pr fb who : expected_resolver role pr fb = Ok who ->
  (role = "primary" /\ pr = Some who) \/ (role = "fallback" /\ fb = Some who).
Proof.
  unfold expected_resolver. case_bool_decide; [destruct pr; intros [= <-]; auto|]. case_bool_decide; [destruct fb; intros [= <-]; auto | done].
Qed.

Lemma appointed_ok d a role who :
  (role = "primary" /\ (effective (Some d) a).1 = Some who) \/ (role = "fallback" /\ (effective (Some d) a).2 = Some who) ->
  negb (bool_decide (role = "fallback") && negb (escalated_to_fallback d)) = true -> appointed d a role who.
Proof.
  intros [?|[-> Hf]]; [by left|]. rewrite bool_decide_true by done. cbn [andb]. rewrite negb_involutive. by right.
Qed.

Lemma signed_as_for e payload addr : signed_as e payload addr = Ok tt -> exists digest, payload = Ok digest /\ signed_for e digest addr.
Proof.
  unfold signed_as. destruct payload as [digest| |]; [|done..]. cbn [labelled map_err mbind res_bind].
  destruct (verify_envelope_signature e digest addr) as [[]| |] eqn:Hv; [|done..]. intros _. exists digest. split; [done|].
  by apply verify_envelope_ok in Hv as [_ ?].
Qed.

Lemma runs_ok {A} (m : Act A) n (K : A -> Node -> Prop) a n' : runs m n (fun _ => True) K -> m n = (Ok a, n') -> K a n'.
Proof. unfold runs. intros Hr Hm. by rewrite Hm in Hr. Qed.

(** C16: of every dispute that a node ever keeps, in memory or in its files, whatever requests, messages, blocks and restarts it
    saw: it is filed under the agreement it is about; the raise, each piece of evidence and the decision are well formed, about that
    agreement, and signed by their sender; and it counts as escalated exactly when a height of escalation is noted. *)
Theorem disputes_sound m w es h d :
  disputes (history (first_node m w) es) !! h = Some d \/ dispute_files (history (first_node m w) es) !! h = Some d -> sound_dispute h d.
Proof. destruct (run_sound es _ (first_sound m w)) as [Hs Hf]. intros [Hd|Hd]; apply lived_sound; [by apply Hs | by apply Hf]. Qed.

(** C15: a decision stays: once the dispute of an agreement is decided, no evidence, no other decision, no escalation, no message and no
    block changes the decision, for any further history in which the dispute is not raised again and the node not restarted. *)
Theorem decision_stays h es n d r : Forall (leaves h) es -> disputes n !! h = Some d -> ds_resolution d = Some r ->
  exists d', disputes (history n es) !! h = Some d' /\ ds_resolution d' = Some r.
Proof. intros Hl. by apply history_keeps_decision. Qed.

(** C14: a decision that the node accepts from its own clients was made, on a dispute that was open, by the resolver whose turn it is: the
    primary one, or the fallback once the dispute is escalated, of the agreement, or of the nomination of the parties if there is one;
    it is signed with a key of that resolver's address; and it changes that dispute alone, by the decision. *)
Theorem resolver_decides r a n out n' : resolve r a n = (Ok out, n') ->
  exists h d digest txid, compute_agreement_hash_hex a = Ok h /\ rs_agreement_hash r = h /\ disputes n !! h = Some d /\ is_open d = true /\
    appointed d a (resolver_role r) (resolver_address r) /\
    dispute_resolution_payload_hash r = Ok digest /\ signed_for (rs_signature r) digest (resolver_address r) /\
    disputes n' = <[h := with_resolution d r (Some txid)]> (disputes n).
Proof.
  intros Hr. pattern n'. match goal with |- ?Q n' => apply (runs_ok (resolve r a) n (fun _ => Q) out n'); [clear Hr | exact Hr] end.
  unfold resolve_dispute. run_to_change; try done.
  match goal with Hc : check_resolution _ _ = Ok _, Hs : check_resolver _ _ _ = Ok _ |- _ =>
    apply check_resolution_ok in Hc as (Hv & <- & Hh); apply check_resolver_ok in Hs as [Hx%expected_ok (digest & Hdg & Hsg)%signed_as_for] end.
  match goal with Hd : disputes n !! _ = Some ?x, Hf : ensure _ "fallback_not_yet_escalated" = Ok _ |- _ =>
    apply ensure_ok in Hf; rewrite Hd in Hx end.
  repeat run_step; try done; intros; exists (rs_agreement_hash r), d, digest, txid; cbn [disputes set_pool] in *; simplify_eq;
    (split_and!; [done..| by apply appointed_ok | done | done | by rewrite disputes_saved]).
Qed.

(** *** What may be spent *)
Lemma block_spend_ineligible why resp : eligible (block_spend why resp) = false.
Proof. done. Qed.

(** C13: the money follows the decision: at a node with any history, while the dispute of an agreement is open neither branch may be
    spent; once it is decided, the branch it was decided for is as eligible as it was and the other branch is not; and an agreement
    without a dispute is left alone. *)
Theorem spend_as_decided m w es a h : let n := history (first_node m w) es in compute_agreement_hash_hex a = Ok h ->
  match disputes n !! h with
  | None => forall claim resp, apply_dispute_status_to_eligibility n a claim resp = resp
  | Some d =>
      match ds_resolution d with
      | None => forall claim resp, eligible (apply_dispute_status_to_eligibility n a claim resp) = false
      | Some r => exists claim : bool, rs_outcome r = (if claim then "release" else "refund") /\ forall resp,
          apply_dispute_status_to_eligibility n a claim resp = resp /\
          eligible (apply_dispute_status_to_eligibility n a (negb claim) resp) = false
      end
  end.
Proof.
  intros n Hh. unfold apply_dispute_status_to_eligibility. rewrite Hh. destruct (disputes n !! h) as [d|] eqn:Hd; [|done].
  destruct (ds_resolution d) as [r|] eqn:Hr; [|done].
  destruct (run_sound es _ (first_sound m w)) as [Hs _]. specialize (Hs h d Hd). apply lived_sound, sound_decision in Hs. rewrite Hr in Hs.
  destruct Hs as [Hv _]. assert (rs_outcome r = "release" \/ rs_outcome r = "refund") as Ho.
  { unfold validate_resolution in Hv. repeat accepted_step Hv. rewrite bool_decide_eq_true in *. set_solver. }
  unfold branch_allowed. destruct Ho as [-> | ->]; [exists true | exists false]; by cbn.
Qed.

(** *** Silence *)
Lemma bind_run {A B} (m : Act A) (f : A -> Act B) n a n1 : m n = (Ok a, n1) -> (m ≫= f) n = f a n1.
Proof. unfold mbind, act_bind. by intros ->. Qed.

Lemma open_run h d n : disputes n !! h = Some d -> is_open d = true -> open_dispute h n = (Ok d, n).
Proof. intros Hd Ho. unfold open_dispute, mbind, act_bind, read, lift. rewrite Hd. cbn [ok_or]. by rewrite Ho. Qed.

Lemma change_run h d f n : disputes n !! h = Some d -> change_dispute h f n = (Ok (f d), put_dispute h (f d) n).
Proof. intros Hd. unfold change_dispute, mbind, act_bind, read, lift. by rewrite Hd. Qed.

Lemma save_run d n : is_ok (w_disk (world n)) = true -> save_dispute_state d n = (Ok tt, saved d n).
Proof. unfold saved, save_dispute_state. by destruct (w_disk (world n)). Qed.

Lemma anchor_run hash role extra n txid : (anchor env p walk_utxos walk_pool persist hash role extra n).1 = Ok txid ->
  exists m, anchor env p walk_utxos walk_pool persist hash role extra n = (Ok txid, set_pool m n).
Proof.
  unfold anchor, failing. destruct (build_and_broadcast_anchor_tx _ _ _ _ _ _ _ _ _ _) as [r m]. cbn [fst]. intros ->. by eexists.
Qed.

Lemma tick_lookup n h d : disputes n !! h = Some d ->
  disputes (escalation_tick (node_tip n) n) !! h = Some (if overdue (node_tip n) d then with_escalation d (Some (node_tip n)) else d).
Proof.
  intros Hd. unfold escalation_tick. etrans; [apply escalate_lookup, (due_NoDup (node_tip n) n)|]. rewrite Hd.
  destruct (overdue (node_tip n) d) eqn:Ho; [rewrite bool_decide_true | rewrite bool_decide_false]; try done.
  - apply (due_spec (node_tip n) n h). by exists d.
  - intros (d' & Hd' & Ho')%(due_spec (node_tip n) n h). congruence.
Qed.

Lemma touches_world again n n' : rtc (Touch again) n n' -> world n' = world n.
Proof. induction 1 as [|n n1 n' [] _ IH]; congruence. Qed.

(** C17: silence is answered: when the window after the anchor of the raise has passed on a node without a decision, the next turn of its
    clock opens the dispute to the fallback resolver; the decision of the fallback is then accepted and recorded, if it is well formed,
    signed by whom the agreement, or the nomination, names as fallback, and the node can anchor and write it. *)
Theorem silence_reaches_fallback n a h d raised r txid :
  disputes n !! h = Some d -> is_open d = true -> raise_anchored_at_height d = Some raised ->
  sat_add64 raised DISPUTE_RESOLVER_RESPONSE_WINDOW <= node_tip n -> is_ok (w_disk (world n)) = true ->
  check_resolution r a = Ok h -> resolver_role r = "fallback" -> check_resolver r a (Some d) = Ok tt ->
  let n1 := after n Tick in
  (anchor env p walk_utxos walk_pool persist h RDisputeResolve (outcome_outputs a (rs_outcome r)) n1).1 = Ok txid ->
  exists n2 d2, resolve r a n1 = (Ok (txid, rs_outcome r, "fallback"), n2) /\
    disputes n2 !! h = Some d2 /\ ds_resolution d2 = Some r.
Proof.
  intros Hd Ho Hr Hw Hdisk Hc Hrole Hs n1 (m & Ha)%anchor_run.
  assert (exists d1, disputes n1 !! h = Some d1 /\ is_open d1 = true /\ escalated_to_fallback d1 = true /\
    reresolve_nomination d1 = reresolve_nomination d) as (d1 & Hd1 & Ho1 & He1 & Hn1).
  { eexists. split; [by apply tick_lookup|]. unfold overdue. rewrite Ho, Hr. cbn [from_option]. unfold window_over.
    rewrite (proj2 (Z.leb_le _ _)) by done. destruct (escalated_to_fallback d) eqn:He; cbn; [by rewrite He|]. done. }
  exists (saved (with_resolution d1 r (Some txid)) (put_dispute h (with_resolution d1 r (Some txid)) (set_pool m n1))), (with_resolution d1 r (Some txid)).
  assert (is_ok (w_disk (world n1)) = true) as Hdisk1 by (unfold n1; by rewrite (touches_world False n) by apply (tick_touch False)).
  assert (check_resolver r a (disputes n1 !! h) = Ok tt) as Hs1.
  { rewrite Hd1. unfold check_resolver, effective in *. cbn [mbind option_bind] in *. by rewrite Hn1. }
  split; [|split; [rewrite disputes_saved; apply lookup_insert_eq | done]].
  unfold resolve_dispute. rewrite (bind_run _ _ _ h n1) by (unfold lift; by rewrite Hc). rewrite (bind_run _ _ _ (disputes n1 !! h) n1) by done.
  rewrite (bind_run _ _ _ tt n1) by (unfold lift; by rewrite Hs1). rewrite (bind_run _ _ _ d1 n1) by (by apply open_run).
  rewrite (bind_run _ _ _ tt n1) by (unfold lift; by rewrite He1, andb_false_r).
  rewrite (bind_run _ _ _ txid (set_pool m n1)) by exact Ha.
  rewrite (bind_run _ _ _ _ _ (change_run h d1 _ (set_pool m n1) Hd1)).
  erewrite bind_run; [by rewrite Hrole|]. unfold failing. by rewrite save_run.
Qed.

(** *** Restarts *)
Definition writable (e : Event (R := R)) : Prop := match e with World_is w => is_ok (w_disk w) = true | _ => True end.
Definition synced (n : Node) : Prop := dispute_files n = disputes n /\ is_ok (w_disk (world n)) = true.

Lemma touches_synced again n n' : rtc (Touch again) n n' -> Sound n -> synced n -> synced n'.
Proof.
  induction 1 as [n|n n1 n' Ht _ IH]; intros Hs [Hf Hw]; [done|]. apply IH; [by eapply touch_sound|].
  assert (Sound n1) as [Hs1 _] by (by eapply touch_sound).
  destruct Ht as [He Hf' Hw'|h d Hm He Hw' Hf']; unfold synced; rewrite Hw'; (split; [|done]); rewrite He, Hf'; [done|].
  rewrite Hw, Hf, (sound_key h d); [done|]. apply lived_sound, Hs1. by rewrite He, lookup_insert_eq.
Qed.

Lemma event_synced n e : writable e -> Sound n -> synced n -> synced (after n e).
Proof.
  intros Hw Hs Hn. assert (handled e -> synced (after n e)) as Hh by (intros Hh; by eapply touches_synced, Hn; [apply handled_touches|]).
  destruct e; try (by apply Hh); try exact Hn; [by destruct Hn|]. destruct Hn as [Hf Hd]. split; [|done].
  cbn [react]. by rewrite sound_restart.
Qed.

Lemma history_synced es n : Forall writable es -> Sound n -> synced n -> synced (history n es).
Proof. intros Hw. revert n. induction Hw as [|e es He _ IH]; intros n Hs Hn; [done|]. apply IH; [by apply event_sound | by apply event_synced]. Qed.

(** C18: a restart forgets nothing: as long as its files can be written, a node that is stopped at any point of any history and started
    again reads from its files exactly the disputes it knew, decisions, evidence, anchors and escalations included. *)
Theorem restart_restores m w es : is_ok (w_disk w) = true -> Forall writable es ->
  disputes (restart (history (first_node m w) es)) = disputes (history (first_node m w) es).
Proof.
  intros Hw He. rewrite sound_restart by apply run_sound, first_sound. by apply history_synced; [|apply first_sound|].
Qed.

(** *** What the code does not mean *)
Context {CL : CryptoLaws C}.
(** A text in Base58 is shorter than two digits a byte, as hexadecimal is. *)
Context (bs58_short : forall b, len b = 25 -> slen (bs58_encode b) < 64).

Lemma address_short pkh : len pkh = 20 -> slen (base58_p2pkh_from_hash pkh) < 64.
Proof.
  intros Hl. unfold base58_p2pkh_from_hash. apply bs58_short. destruct (sha256_arr (sha256 (0 :: pkh))) as [Hs _].
  change ((0 :: pkh) ++ ?t) with (0 :: (pkh ++ t)). unfold len in *. cbn [length]. rewrite length_app, length_take. lia.
Qed.

Lemma anchor_short hash role extra n (E : Node -> Prop) (K : string -> Node -> Prop) : slen hash < 64 -> E n ->
  runs (anchor env p walk_utxos walk_pool persist hash role extra) n E K.
Proof.
  intros Hl He. apply runs_failing. unfold runs, build_and_broadcast_anchor_tx, build_agreement_anchor_output, build_agreement_anchor_payload.
  cbn [aa_hash]. assert (is_hex32 hash = false) as ->; [|by destruct n]. unfold is_hex32. rewrite (proj2 (Z.eqb_neq _ _)) by lia. done.
Qed.

(** C19: nobody can register as a resolver: for every request, at every node, registration fails. A registration has to be signed for the
    resolver's address, and it is anchored under that address where the anchor wants a hash of 64 digits, which no address has. *)
Theorem registration_never_succeeds g n : is_ok (register_resolver env p walk_utxos walk_pool persist g n).1 = false.
Proof.
  assert (runs (register_resolver env p walk_utxos walk_pool persist g) n (fun _ => True) (fun _ _ => False)) as Hr.
  { unfold register_resolver.
    repeat (lazymatch goal with |- runs (mbind _ (anchor _ _ _ _ _ _ _ _)) _ _ _ => fail | _ => run_step end); try done.
    match goal with Hs : signed_as _ _ _ = Ok ?u |- _ => destruct u; apply signed_as_for in Hs as (digest & _ & _ & pk & vk & sg & _ & _ & Ha & _) end.
    apply runs_bind, anchor_short; [|done]. rewrite <- Ha. apply address_short. by destruct (ripemd160_arr (sha256 pk)). }
  unfold runs in Hr. by destruct (register_resolver _ _ _ _ _ _ _) as [[] ?].
Qed.

Context (Hwalk : forall us, walk_utxos us ≡ₚ map_to_list us).

(** *** What is anchored *)
Lemma quiet_anchor hash role extra n E (K : string -> Node -> Prop) :
  10000 <= min_total_fee (pool n) -> worthless extra -> len extra <= 2 -> E n -> (forall txid, K txid n) ->
  runs (anchor env p walk_utxos walk_pool persist hash role extra) n E K.
Proof.
  intros Hm Hz Hl He Hk. apply runs_failing. unfold runs, build_and_broadcast_anchor_tx.
  assert (set_pool (pool n) n = n) as Hn by (by destruct n).
  destruct (build_agreement_anchor_output _) as [out| |] eqn:Hout; [|by rewrite Hn..]. apply anchor_worthless in Hout.
  destruct (offer _ _ _ _ _ _ _ _) as [r m'] eqn:Ho.
  apply offer_refused in Ho as ->; [|done | by constructor | rewrite len_cons; lia | rewrite len_cons; lia].
  rewrite Hn. by destruct r.
Qed.

Lemma event_outputs kind a : worthless (event_output kind a) /\ len (event_output kind a) <= 1.
Proof.
  unfold event_output. case_match; [by split; [constructor|]|].
  destruct (build_reputation_event_output _) eqn:He; [|by split; [constructor|]..]. apply event_worthless in He.
  split; [by repeat constructor | done].
Qed.

Lemma outcome_worthless a o : worthless (outcome_outputs a o) /\ len (outcome_outputs a o) <= 2.
Proof.
  unfold outcome_outputs. match goal with |- context [let '(_, _) := ?x in _] => destruct x as [winner loser] end.
  destruct (event_outputs DisputeWin winner), (event_outputs DisputeLoss loser). rewrite len_app.
  split; [by apply Forall_app | lia].
Qed.

Lemma pool_saved d n : pool (saved d n) = pool n.
Proof. unfold saved, save_dispute_state. by destruct (w_disk (world n)). Qed.

Ltac quiet := intros Hm; apply (runs_fst _ _ (fun n' => pool n' = pool _));
  repeat (lazymatch goal with
  | |- runs (anchor _ _ _ _ _ _ _ _) _ _ _ => apply quiet_anchor; [exact Hm| | | |intros ?]
  | _ => run_step end);
  try (change (pool (put_dispute ?h ?d ?n')) with (pool n')); rewrite ?pool_saved; try done; try apply outcome_worthless; try constructor.

Lemma raise_quiet d a n : 10000 <= min_total_fee (pool n) -> pool (raise_dispute env p walk_utxos walk_pool persist d a n).2 = pool n.
Proof. unfold raise_dispute. quiet. Qed.
Lemma evidence_quiet e a n : 10000 <= min_total_fee (pool n) -> pool (submit_dispute_evidence env p walk_utxos walk_pool persist e a n).2 = pool n.
Proof. unfold submit_dispute_evidence. quiet. Qed.
Lemma resolve_quiet r a n : 10000 <= min_total_fee (pool n) -> pool (resolve_dispute env p walk_utxos walk_pool persist r a n).2 = pool n.
Proof. unfold resolve_dispute. quiet. Qed.

(** C20: what the node anchors never gets into its own mempool: with the least total fee that the node sets, 10,000, the mempool is the
    same before and after it raises a dispute, takes evidence, or decides, whatever the request and the outcome, and before and after any
    anchor with up to two more outputs that carry no coins; the fee of the transaction that is built for such an anchor is at most 294. *)
Theorem anchors_never_pending n : 10000 <= min_total_fee (pool n) ->
  (forall d a, pool (raise_dispute env p walk_utxos walk_pool persist d a n).2 = pool n) /\
  (forall e a, pool (submit_dispute_evidence env p walk_utxos walk_pool persist e a n).2 = pool n) /\
  (forall r a, pool (resolve_dispute env p walk_utxos walk_pool persist r a n).2 = pool n) /\
  (forall hash role extra, Forall (fun o => value o = 0) extra -> len extra <= 2 ->
    pool (anchor env p walk_utxos walk_pool persist hash role extra n).2 = pool n /\
    forall out tx fee, build_agreement_anchor_output {| aa_hash := hash; aa_role := role; aa_milestone := None |} = Ok out ->
      metadata_tx env p walk_utxos (world n) (out :: extra) = Ok (tx, fee) -> fee <= 294).
Proof.
  intros Hm. split_and!; [by intros; apply raise_quiet | by intros; apply evidence_quiet | by intros; apply resolve_quiet |].
  intros hash role extra Hz Hl. split.
  - by apply (runs_fst _ _ (fun n' => pool n' = pool n)), quiet_anchor.
  - intros out tx fee Ho Ht. apply anchor_worthless in Ho. pose proof (len_nonneg extra).
    assert (metadata_fee (out :: extra) = 192 + 34 * len (out :: extra)) as Hf by (apply metadata_fee_value; rewrite len_cons; lia).
    rewrite len_cons in Hf. apply fee_of_metadata in Ht; [lia | done | by constructor | lia].
Qed.
End life.

(** ** Examples

    Alice sells to Bob for 100,000. Carol is to decide, and if she is silent Dave;
    Frank and Grace have mined. Eve has nothing to do with it. *)
Definition plain_dispute_json : DisputeJson := {|
  dispute_raise_canonical_bytes d := Ok (byte_string (dr_agreement_hash d +:+ raising_party d +:+ reason d));
  dispute_evidence_canonical_bytes e := Ok (byte_string (de_agreement_hash e +:+ submitter_party e +:+ evidence_payload e));
  dispute_resolution_canonical_bytes r := Ok (byte_string (rs_agreement_hash r +:+ resolver_role r +:+ rs_outcome r));
  resolver_registration_canonical_bytes g := Ok (byte_string (rr_address g));
  dispute_reresolve_canonical_bytes n := Ok (byte_string (dn_agreement_hash n +:+ new_primary_resolver n))
|}.
Definition named_agreement_json : AgreementJson := {| agreement_canonical_bytes a := Ok (byte_string (agreement_id a)) |}.
#[local] Existing Instances plain_hex plain_base58 plain_dispute_json named_agreement_json.

Definition carol : Byte.byte := Byte.x03.
Definition dave : Byte.byte := Byte.x04.
Definition eve : Byte.byte := Byte.x05.
Definition frank : Byte.byte := Byte.x06.
Definition grace : Byte.byte := Byte.x07.
Definition addr (k : Byte.byte) : string := Funding.address k.

Definition quarrel : AgreementObject :=
  let a := sample_agreement 30 70 100 in
  let party id k := {| party_id := id; display_name := id; Agreement.address := addr k; ap_role := None |} in
  {| agreement_id := "quarrel"; ag_version := 1; ag_schema_id := None; template_type := OtcSettlement;
     parties := [party "alice" alice_key; party "bob" bob_key]; payer := "bob"; payee := "alice"; mediator_reference := None;
     total_amount := 100000; network_marker := "IRIUM"; creation_time := 0; deadlines := deadlines a;
     release_conditions := [{| mode := "secret_preimage"; rel_secret_hash_hex := Some zero_hash; release_authorizer := None; rel_notes := None |}];
     refund_conditions := refund_conditions a; milestones := []; deposit_rule := None;
     proof_policy_reference := None; asset_reference := Some "coins"; payment_reference := Some "cash"; purpose_reference := None;
     release_summary := None; refund_summary := None; attestor_reference := None; resolver_reference := None;
     ag_notes := None; document_hash := zero_hash; metadata_hash := None; invoice_reference := None;
     external_reference := None; disputed_metadata_only := false; primary_resolver := Some (addr carol);
     fallback_resolver := Some (addr dave); primary_resolver_fee := Some 1000; fallback_resolver_fee := Some 2000 |}.
Definition value_or {A} (d : A) (r : res string A) : A := match r with Ok a => a | _ => d end.
Definition quarrel_hash : string := value_or "" (compute_agreement_hash_hex quarrel).

Definition envelope (k : Byte.byte) (payload : res string bytes) : AgreementSignatureEnvelope :=
  {| se_version := 1; target_type := TargetAgreement; target_hash := ""; signer_public_key := hex_encode (public_key k);
     signer_address := Some (addr k); se_signature_type := AGREEMENT_SIGNATURE_TYPE_SECP256K1; timestamp := None; signer_role := None;
     se_signature := match payload with Ok d => hex_encode (sign_prehash k d) | _ => "" end |}.

Definition raise_by (k : Byte.byte) (party why : string) : DisputeRaise :=
  let d e := {| dr_version := 1; dr_schema_id := None; dr_agreement_hash := quarrel_hash; raising_party := party; raised_at_height := 0;
                raised_at_unix := 0; reason := why; initial_evidence_hash := zero_hash; dr_signature := e |} in
  d (envelope k (dispute_raise_payload_hash (d (envelope k (Err ""))))).
Definition evidence_by (k : Byte.byte) (party what : string) : DisputeEvidence :=
  let d e := {| de_version := 1; de_schema_id := None; de_agreement_hash := quarrel_hash; submitter_party := party; submitted_at_height := 0;
                evidence_type := "payment_proof"; evidence_payload := what; de_evidence_hash := zero_hash; de_message := None;
                de_signature := e |} in
  d (envelope k (dispute_evidence_payload_hash (d (envelope k (Err ""))))).
Definition decision_by (k : Byte.byte) (who role outcome : string) : DisputeResolution :=
  let d e := {| rs_version := 1; rs_schema_id := None; rs_agreement_hash := quarrel_hash; resolver_address := who; resolver_role := role;
                rs_outcome := outcome; resolved_at_height := 0; rs_message := ""; rs_signature := e |} in
  d (envelope k (dispute_resolution_payload_hash (d (envelope k (Err ""))))).
Definition nomination (primary fallback : Byte.byte) : DisputeReResolverNomination :=
  let d e e' := {| dn_version := 1; dn_schema_id := None; dn_agreement_hash := quarrel_hash; new_primary_resolver := addr primary;
                   new_fallback_resolver := Some (addr fallback); nominated_at_height := 0; party_a_signature := e; party_b_signature := e' |} in
  let payload := dispute_reresolve_payload_hash (d (envelope alice_key (Err "")) (envelope bob_key (Err ""))) in
  d (envelope alice_key payload) (envelope bob_key payload).
Definition registration_of (k : Byte.byte) : ResolverRegistration :=
  let d e := {| rr_version := 1; rr_schema_id := None; rr_address := addr k; registered_at_height := 0; rr_display_name := None; bio := None;
                fee_bps_self_quoted := None; rr_signature := e |} in
  d (envelope k (resolver_registration_payload_hash (d (envelope k (Err ""))))).

(** A chain whose first coinbase pays Frank and Grace and whose later block has
    these outputs; Alice's coin. *)
Definition block_with (outs : list TxOutput) : Block Empty_set :=
  {| bheader := sample_header; transactions := [sample_tx [[]] outs]; auxpow := None; poawx_receipts := None |}.
Definition world_at (tip : Z) (coins : list Z) (outs : list TxOutput) : World (R := Empty_set) :=
  {| w_chain :=
       {| ledger := {| utxos := list_to_map (imap (fun i v => ((replicate 32 (Z.of_nat i), 0),
                         {| ue_output := pay v alice_pkh; ue_height := 1; ue_is_coinbase := false |})) coins);
                       btc := RelayState_new; claimed_btc_outpoints := ∅; ltc := RelayState_new; claimed_ltc_outpoints := ∅ |};
          height := tip + 1; chain := [block_with [pay 5 (hash160 (public_key frank)); pay 5 (hash160 (public_key grace))]; block_with outs];
          total_work := 0; issued := 0; block_store := ∅; heights := ∅; cumulative_work := ∅; best_tip := []; undo_logs := ∅;
          poawx_state := tt; finalized_height := 0 |};
     w_keys := Some [wallet_key alice_key]; w_disk := Ok tt; w_now := 0 |}.
Definition alices : World := world_at 10 [50; 100000] [].
(** [MempoolManager::new(.., 1000, 100.0, 10_000)] in [main] *)
Definition node_pool : MempoolManager := MempoolManager_new 1000 (f64_of 100) 10000.

Abbreviation history := (node_after no_env sample_params map_to_list map_to_list (fun _ => Ok tt)).
Abbreviation raise_it := (raise_dispute no_env sample_params map_to_list map_to_list (fun _ => Ok tt)).
Abbreviation resolve_it := (resolve_dispute no_env sample_params map_to_list map_to_list (fun _ => Ok tt)).
Definition idle : Node := first_node node_pool alices.
Definition quarrel_at (n : Node (R := Empty_set)) : option DisputeState := disputes n !! quarrel_hash.
Definition spendable_for (n : Node (R := Empty_set)) (claim : bool) : bool :=
  eligible (apply_dispute_status_to_eligibility n quarrel claim
    {| el_unspent := true; timeout_reached := true; destination_address := None; eligible := true; reasons := [] |}).

(** The course that the code intends: Bob complains, Carol decides for him. *)
Definition complaint : Event (R := Empty_set) := PeerRaise (raise_by bob_key "bob" "nothing came").
Definition carols : DisputeResolution := decision_by carol (addr carol) "primary" "refund".
Definition both_ways (n : Node (R := Empty_set)) : bool * bool := (spendable_for n true, spendable_for n false).
Example carol_decides :
  (let n := history idle [complaint] in let '(out, n1) := resolve_it carols quarrel n in (both_ways idle, both_ways n, is_ok out, both_ways n1)) =
  ((true, true), (false, false), true, (false, true)).
Proof. by vm_compute. Qed.

(** A stranger signs a complaint, and a decision in Carol's name: the signatures
    are the stranger's, and the money goes where the stranger says. *)
Definition stranger : list (Event (R := Empty_set)) :=
  [PeerRaise (raise_by eve "nobody" "mine"); PeerResolved (decision_by eve (addr carol) "primary" "release")].
Example stranger_decides :
  both_ways (history idle (take 1 stranger)) = (false, false) /\ both_ways (history idle stranger) = (true, false).
Proof. split; by vm_compute. Qed.

(** The message that escalates a dispute is not even signed: Dave need not wait. *)
Definition daves : DisputeResolution := decision_by dave (addr dave) "fallback" "release".
Example unsigned_escalation :
  (let n := history idle [complaint] in
   ((resolve_it daves quarrel n).1, is_ok (resolve_it daves quarrel (history n [PeerEscalated (Some quarrel_hash) None])).1)) =
  (Err "fallback_not_yet_escalated", true).
Proof. by vm_compute. Qed.

(** Who lost complains again, and the decision is gone; other nodes keep it. *)
Definition alices_raise : DisputeRaise := raise_by alice_key "alice" "unfair".
Example decision_undone :
  (let n := history idle [complaint; PeerResolved carols] in
   (both_ways n, both_ways (raise_it alices_raise quarrel n).2, both_ways (history n [PeerRaise alices_raise]))) =
  ((false, true), (false, false), (false, true)).
Proof. by vm_compute. Qed.

(** Frank is nominated and decides; the fee is Carol's. *)
Definition franks : DisputeResolution := decision_by frank (addr frank) "primary" "refund".
Example fee_of_absent_resolver :
  (let n := history idle [complaint; ReResolve (nomination frank grace) quarrel] in let '(out, n) := resolve_it franks quarrel n in
   (is_ok out, resolver_payout n quarrel, bool_decide (addr carol = addr frank))) = (true, Ok (Some (addr carol, 1000)), false).
Proof. by vm_compute. Qed.

(** The complaint is anchored at 1, the chain is at 300. *)
Definition anchor_of (role : AgreementAnchorRole) : list TxOutput :=
  value_or [] ((fun o => [o]) <$> build_agreement_anchor_output {| aa_hash := quarrel_hash; aa_role := role; aa_milestone := None |}).
Definition much_later : list (Event (R := Empty_set)) :=
  [complaint; World_is (world_at 300 [100000] (anchor_of RDisputeRaise)); Scan 0 1].
Definition escalation (n : Node (R := Empty_set)) : option (option Z) := escalated_at_height <$> quarrel_at n.
Example waited_in_vain :
  (let n := history idle much_later in (raise_anchored_at_height <$> quarrel_at n, node_tip n, escalation n, escalation (history n [Tick]))) =
  (Some (Some 1), 300, Some None, Some (Some 300)).
Proof. by vm_compute. Qed.

(** The nominated resolvers get no time: the window is still that of the raise. *)
Example nomination_escalates_at_once :
  (let n := history idle (much_later ++ [Tick; ReResolve (nomination frank grace) quarrel]) in (escalation n, escalation (history n [Tick]))) =
  (Some None, Some (Some 300)).
Proof. by vm_compute. Qed.

(** Anyone can be named as the resolver that did not answer. *)
Example anyone_indicted :
  is_ok (broadcast_reputation_non_response no_env sample_params map_to_list map_to_list (fun _ => Ok tt) "anyone" quarrel_hash
    (history idle much_later)).1 = true.
Proof. by vm_compute. Qed.

(** An output of anyone anchors a decision that has not been made. *)
Example decision_anchored_before_made :
  (fun d => (resolution_anchored_at_height d, ds_resolution d)) <$>
    quarrel_at (history idle [complaint; World_is (world_at 10 [100000] (anchor_of RDisputeResolve)); Scan 0 1]) = Some (Some 1, None).
Proof. by vm_compute. Qed.

Definition dispute_or (o : option DisputeState) : DisputeState := default (new_dispute (raise_by bob_key "" "") None) o.
Lemma kept_dispute n : is_Some (quarrel_at n) -> disputes n !! quarrel_hash = Some (dispute_or (quarrel_at n)).
Proof. unfold quarrel_at. by intros [d ->]. Qed.

Lemma disputes_sound_witness : sound_dispute quarrel_hash (dispute_or (quarrel_at (history idle (complaint :: stranger)))).
Proof.
  refine (disputes_sound no_env sample_params map_to_list map_to_list (fun _ => Ok tt) node_pool alices (complaint :: stranger) _ _ (or_introl _)).
  apply kept_dispute. by decided.
Defined.

Lemma decision_stays_witness : exists d,
  disputes (history (history idle [complaint; PeerResolved carols]) (stranger ++ [Tick])) !! quarrel_hash = Some d /\ ds_resolution d = Some carols.
Proof.
  refine (decision_stays no_env sample_params map_to_list map_to_list (fun _ => Ok tt) quarrel_hash _ _ _ carols _ (kept_dispute _ _) _).
  - by repeat constructor.
  - by decided.
  - by vm_compute.
Defined.

Lemma answered {A} (m : res string A * Node (R := Empty_set)) : is_ok m.1 = true -> exists a, m = (Ok a, m.2).
Proof. destruct m as [[a| |] n]; [by eexists | done..]. Qed.

Definition complained : Node := history idle [complaint].
Lemma resolver_decides_witness : exists h d digest txid,
  compute_agreement_hash_hex quarrel = Ok h /\ rs_agreement_hash carols = h /\ disputes complained !! h = Some d /\
  is_open d = true /\ appointed d quarrel (resolver_role carols) (resolver_address carols) /\
  dispute_resolution_payload_hash carols = Ok digest /\ signed_for (rs_signature carols) digest (resolver_address carols) /\
  disputes (resolve_it carols quarrel complained).2 = <[h := with_resolution d carols (Some txid)]> (disputes complained).
Proof.
  assert (is_ok (resolve_it carols quarrel complained).1 = true) as [out Hr]%answered by (by vm_compute).
  exact (resolver_decides no_env sample_params map_to_list map_to_list (fun _ => Ok tt) carols quarrel complained out _ Hr).
Defined.

Abbreviation refunded := (history (first_node node_pool alices) [complaint; PeerResolved carols]).
Lemma spend_as_decided_witness : exists claim : bool, rs_outcome carols = (if claim then "release" else "refund") /\ forall resp,
  apply_dispute_status_to_eligibility refunded quarrel claim resp = resp /\
  eligible (apply_dispute_status_to_eligibility refunded quarrel (negb claim) resp) = false.
Proof.
  assert (compute_agreement_hash_hex quarrel = Ok quarrel_hash) as Hh by (by vm_compute).
  assert (is_Some (quarrel_at refunded)) as Hq by (by decided).
  assert (ds_resolution (dispute_or (quarrel_at refunded)) = Some carols) as Hr by (by vm_compute).
  pose proof (spend_as_decided no_env sample_params map_to_list map_to_list (fun _ => Ok tt) node_pool alices [complaint; PeerResolved carols]
    quarrel quarrel_hash Hh) as Hs.
  by rewrite (kept_dispute refunded Hq), Hr in Hs.
Defined.

Definition late : Node := history idle much_later.
Definition ticked : Node := react no_env sample_params map_to_list map_to_list (fun _ => Ok tt) late Tick.
Lemma silence_reaches_fallback_witness : exists txid n2 d2,
  resolve_it daves quarrel ticked = (Ok (txid, rs_outcome daves, "fallback"), n2) /\
  disputes n2 !! quarrel_hash = Some d2 /\ ds_resolution d2 = Some daves.
Proof.
  assert (is_ok (anchor no_env sample_params map_to_list map_to_list (fun _ => Ok tt) quarrel_hash RDisputeResolve
    (outcome_outputs quarrel (rs_outcome daves)) ticked).1 = true) as [txid Ha]%answered by (by vm_compute).
  apply (f_equal fst) in Ha. exists txid.
  assert (is_Some (quarrel_at late)) as Hq by (by decided).
  pose proof (silence_reaches_fallback no_env sample_params map_to_list map_to_list (fun _ => Ok tt) late quarrel quarrel_hash
    (dispute_or (quarrel_at late)) 1 daves txid (kept_dispute late Hq)) as Hs. cbv zeta in Hs. fold ticked in Hs.
  apply Hs; [by vm_compute ..|exact Ha].
Defined.

Lemma restart_restores_witness : disputes (restart (history idle much_later)) = disputes (history idle much_later).
Proof. refine (restart_restores no_env sample_params map_to_list map_to_list (fun _ => Ok tt) node_pool alices much_later _ _); by repeat constructor. Defined.

Lemma registration_never_succeeds_witness : is_ok (register_resolver no_env sample_params map_to_list map_to_list (fun _ => Ok tt)
  (registration_of frank) idle).1 = false.
Proof.
  refine (registration_never_succeeds no_env sample_params map_to_list map_to_list (fun _ => Ok tt) _ (registration_of frank) idle).
  intros b Hb. cbn [bs58_encode plain_base58]. unfold slen. pose proof (hex_encode_len (HexLaws := plain_hex_laws) b) as Hl.
  cbn [hex_encode plain_hex] in Hl. unfold slen in Hl. unfold len in Hb. lia.
Defined.

Lemma anchors_never_pending_witness :
  pool (raise_dispute no_env sample_params map_to_list map_to_list (fun _ => Ok tt) alices_raise quarrel idle).2 = node_pool /\
  pool (anchor no_env sample_params map_to_list map_to_list (fun _ => Ok tt) quarrel_hash RDisputeRaise [] idle).2 = node_pool.
Proof.
  destruct (anchors_never_pending no_env sample_params map_to_list map_to_list (fun _ => Ok tt) (fun _ => Permutation_refl _) idle
    ltac:(done)) as (Hr & _ & _ & Ha).
  split; [apply Hr | apply (Ha quarrel_hash RDisputeRaise []); [constructor | done]].
Defined.
(** ... though the node says that it is on its way. *)
Example anchor_announced :
  is_ok (anchor no_env sample_params map_to_list map_to_list (fun _ => Ok tt) quarrel_hash RDisputeRaise [] idle).1 = true.
Proof. by vm_compute. Qed.
