(* ===== verification/Protocol.v ===== *)
(** * Protocol: the messages nodes send each other
    ([src/src/protocol.rs]; [src/src/p2p.rs], [read_message])

    A frame is the version, the byte of the type, the length of the payload in
    four bytes, and the payload. A connection is a stream of frames, read one at a
    time. [deserialize] is the reader of a buffer, [read_message] the reader of a
    connection; the bytes of a connection that was closed are a list, and a read
    past its end fails with the text tokio gives that error.

    Each payload is an instance of [Payload]: how it becomes a message, how it is
    read back, and what a sender has to keep to; [PayloadLaws] is what the reader of
    a connection relies on. The payloads that are JSON go through [serde_json],
    which is the class [Serde].

    Shown here: frames are read back as they were sent, however many there are and
    whatever follows them; the reader of a connection takes the bytes of one frame
    and agrees with the reader of a buffer; a message of a type the node does not
    know leaves the connection in step; which payloads survive the journey. *)

From Stdlib Require Import Ascii.
From S2P Require Import Prelude Wire Agreement.

Open Scope string_scope.
Open Scope list_scope.
Open Scope Z_scope.

Definition PROTOCOL_VERSION : Z := 1.
Definition MAX_MESSAGE_SIZE : Z := 32 * 1024 * 1024.
Definition MAX_BLOCK_SIZE : Z := 4 * 1024 * 1024.
Definition MAX_HEADERS_PER_REQUEST : Z := 2000.
Definition MAX_BLOCKS_PER_REQUEST : Z := 512.

(** ** Types of messages *)
Module MT.
Inductive MessageType :=
| Unknown | Handshake | Ping | Pong | GetPeers | Peers | GetBlocks | Block | GetHeaders | Headers | Tx | Mempool
| SybilChallenge | SybilProof | RelayAddress | Inv | GetData | UptimeChallenge | UptimeProof | ProofGossip
| OfferTakeNotification | DisputeRaisedNotification | DisputeEvidenceNotification | DisputeResolvedNotification
| DisputeEscalatedNotification | OfferBroadcast | PoawxRolePrecommit | PoawxRoleReveal | PoawxCandidateAdmission
| PoawxFinalityVote | PoawxProposerRegistration | Disconnect.

(** [msg_type as u8] *)
Definition as_byte (t : MessageType) : Z :=
  match t with
  | Unknown => 0 | Handshake => 1 | Ping => 2 | Pong => 3 | GetPeers => 4 | Peers => 5 | GetBlocks => 6 | Block => 7
  | GetHeaders => 8 | Headers => 9 | Tx => 10 | Mempool => 11 | SybilChallenge => 12 | SybilProof => 13
  | RelayAddress => 14 | Inv => 15 | GetData => 16 | UptimeChallenge => 17 | UptimeProof => 18 | ProofGossip => 19
  | OfferTakeNotification => 20 | DisputeRaisedNotification => 21 | DisputeEvidenceNotification => 22
  | DisputeResolvedNotification => 23 | DisputeEscalatedNotification => 24 | OfferBroadcast => 25
  | PoawxRolePrecommit => 26 | PoawxRoleReveal => 27 | PoawxCandidateAdmission => 28 | PoawxFinalityVote => 29
  | PoawxProposerRegistration => 30 | Disconnect => 99
  end.

Definition try_from (value : Z) : res string MessageType :=
  match value with
  | 0 => Ok Unknown | 1 => Ok Handshake | 2 => Ok Ping | 3 => Ok Pong | 4 => Ok GetPeers | 5 => Ok Peers
  | 6 => Ok GetBlocks | 7 => Ok Block | 8 => Ok GetHeaders | 9 => Ok Headers | 10 => Ok Tx | 11 => Ok Mempool
  | 12 => Ok SybilChallenge | 13 => Ok SybilProof | 14 => Ok RelayAddress | 15 => Ok Inv | 16 => Ok GetData
  | 17 => Ok UptimeChallenge | 18 => Ok UptimeProof | 19 => Ok ProofGossip | 20 => Ok OfferTakeNotification
  | 21 => Ok DisputeRaisedNotification | 22 => Ok DisputeEvidenceNotification | 23 => Ok DisputeResolvedNotification
  | 24 => Ok DisputeEscalatedNotification | 25 => Ok OfferBroadcast | 26 => Ok PoawxRolePrecommit
  | 27 => Ok PoawxRoleReveal | 28 => Ok PoawxCandidateAdmission | 29 => Ok PoawxFinalityVote
  | 30 => Ok PoawxProposerRegistration | 99 => Ok Disconnect
  | other => Err ("Unknown message type: " +:+ num other)
  end.
End MT.
Export MT(MessageType).

#[export] Instance MessageType_eq_dec : EqDecision MessageType.
Proof. solve_decision. Defined.

(** ** Frames *)
Record Message := { msg_type : MessageType; payload : bytes }.

#[export] Instance Message_eq_dec : EqDecision Message.
Proof. solve_decision. Defined.

Definition frame (byte : Z) (payload : bytes) : bytes :=
  [PROTOCOL_VERSION] ++ [byte] ++ be_bytes 4 (as_u32 (len payload)) ++ payload.

Definition serialize (m : Message) : bytes := frame (MT.as_byte (msg_type m)) (payload m).

(** [try_from(byte).unwrap_or(Unknown)] *)
Definition known_or_unknown (byte : Z) : MessageType :=
  match MT.try_from byte with Ok t => t | _ => MT.Unknown end.

Definition deserialize (data : bytes) : res string Message :=
  if len data <? 6 then Err "Message too short" else
  version ← idx data 0;
  if negb (version =? PROTOCOL_VERSION) then Err ("Unsupported protocol version: " +:+ num version) else
  msg_type_byte ← idx data 1;
  len_bytes ← slice data 2 6;
  let length := be_val len_bytes in
  if MAX_MESSAGE_SIZE <? length then Err "Message too large" else
  if len data <? 6 + length then Err "Incomplete message" else
  payload ← slice data 6 (6 + length);
  Ok {| msg_type := known_or_unknown msg_type_byte; payload := payload |}.

(** ** Reading a connection *)

(** [AsyncReadExt::read_exact] on what is left of a closed connection *)
Definition read_exact (n : Z) (stream : bytes) : res string (bytes * bytes) :=
  if len stream <? n then Err "early eof" else rd n stream.

Definition read_message (stream : bytes) : res string (Message * bytes) :=
  '(header, stream) ← map_err (String.append "failed to read message header: ") (read_exact 6 stream);
  version ← idx header 0;
  if negb (version =? PROTOCOL_VERSION) then Err ("unsupported protocol version: " +:+ num version) else
  len_bytes ← slice header 2 6;
  let length := be_val len_bytes in
  if MAX_MESSAGE_SIZE <? length then Err "message too large" else
  '(payload, stream) ←
    (if 0 <? length then map_err (String.append "failed to read message payload: ") (read_exact length stream)
     else Ok ([], stream));
  m ← deserialize (header ++ payload);
  Ok (m, stream).

(** The loop that reads a connection, for at most [n] messages. *)
Fixpoint read_messages (n : nat) (stream : bytes) : list Message * bytes :=
  match n with
  | O => ([], stream)
  | S n =>
      match read_message stream with
      | Ok (m, stream) => let '(ms, stream) := read_messages n stream in (m :: ms, stream)
      | _ => ([], stream)
      end
  end.

(** What a node may put on the wire: bytes, and no more of them than the other
    side takes. *)
Definition sendable (m : Message) : Prop := wf_bytes (payload m) /\ len (payload m) <= MAX_MESSAGE_SIZE.

(** ** Lemmas about frames *)
Lemma try_from_as_byte t : MT.try_from (MT.as_byte t) = Ok t.
Proof. by destruct t. Qed.

Lemma known_as_byte t : known_or_unknown (MT.as_byte t) = t.
Proof. by destruct t. Qed.

Lemma as_byte_u8 t : u8 (MT.as_byte t).
Proof. unfold u8. destruct t; cbn; lia. Qed.

Lemma be_val_bytes n v : 0 <= v < 2 ^ (8 * Z.of_nat n) -> be_val (be_bytes n v) = v.
Proof. intros H. unfold be_val, be_bytes. rewrite rev_involutive. by apply le_val_bytes. Qed.

Lemma len_be_bytes n v : len (be_bytes n v) = Z.of_nat n.
Proof. unfold be_bytes. by rewrite len_rev, len_le_bytes. Qed.

Lemma len_be_bytes4 v : len (be_bytes 4 v) = 4.
Proof. apply len_be_bytes. Qed.
Lemma len_be_bytes8 v : len (be_bytes 8 v) = 8.
Proof. apply len_be_bytes. Qed.
#[local] Hint Rewrite len_be_bytes4 len_be_bytes8 : lens.

Lemma be_bytes_val n s : arr (Z.of_nat n) s -> be_bytes n (be_val s) = s.
Proof.
  intros [Hl Hw]. unfold be_bytes, be_val. rewrite (le_bytes_val_n n (rev s)), rev_involutive; [done|].
  split; [by rewrite len_rev | by apply Forall_rev].
Qed.

Lemma be_val_bound s n : arr n s -> 0 <= be_val s < 2 ^ (8 * n).
Proof. intros [<- Hw]. unfold be_val. rewrite <- (len_rev s). apply le_val_bound. by apply Forall_rev. Qed.

Lemma len_frame b p : len (frame b p) = 6 + len p.
Proof. unfold frame. rewrite !len_app, len_be_bytes4, !len_cons, len_nil. lia. Qed.

Lemma frame_length_val (p : bytes) : len p <= MAX_MESSAGE_SIZE -> be_val (be_bytes 4 (as_u32 (len p))) = len p.
Proof.
  intros H. unfold MAX_MESSAGE_SIZE in H. pose proof (len_nonneg p).
  rewrite as_u32_small by lia. apply be_val_bytes. cbn. lia.
Qed.

Lemma deserialize_frame b p t : len p <= MAX_MESSAGE_SIZE ->
  deserialize (frame b p ++ t) = Ok {| msg_type := known_or_unknown b; payload := p |}.
Proof.
  intros Hp. pose proof (frame_length_val p Hp) as Hv. unfold deserialize, frame. rewrite <- !app_assoc.
  set (lb := be_bytes 4 _) in *. assert (len lb = 4) by apply len_be_bytes4.
  if_lia. parse_step. cbn [negb Z.eqb PROTOCOL_VERSION Pos.eqb]. parse_step. parse_step. rewrite Hv.
  repeat if_lia. by parse_step.
Qed.

Lemma rd_full {E} x : @rd E (len x) x = Ok (x, []).
Proof. rewrite <- (app_nil_r x) at 2. by apply rd_app. Qed.

Lemma read_exact_app n x t : len x = n -> read_exact n (x ++ t) = Ok (x, t).
Proof. intros <-. unfold read_exact. pose_len_nonneg. rewrite len_app. if_lia. by apply rd_app. Qed.

Lemma read_exact_inv n stream x t : read_exact n stream = Ok (x, t) -> stream = x ++ t /\ len x = n.
Proof. unfold read_exact. case_match; [done|]. apply rd_inv. Qed.

Lemma read_exact_total n stream : 0 <= n -> read_exact n stream <> Panic.
Proof.
  intros Hn. unfold read_exact. case_match; [done|]. destruct (@rd_in string n stream) as (x & t & -> & _); [lia|done].
Qed.

Lemma deserialize_exact b p : len p <= MAX_MESSAGE_SIZE ->
  deserialize (frame b p) = Ok {| msg_type := known_or_unknown b; payload := p |}.
Proof. intros Hp. rewrite <- (app_nil_r (frame b p)). by apply deserialize_frame. Qed.

Lemma read_message_frame b p t : len p <= MAX_MESSAGE_SIZE ->
  read_message (frame b p ++ t) = Ok ({| msg_type := known_or_unknown b; payload := p |}, t).
Proof.
  intros Hp. pose proof (frame_length_val p Hp) as Hv. pose proof (deserialize_exact b p Hp) as Hd.
  unfold read_message. unfold frame in *. set (lb := be_bytes 4 _) in *.
  assert (len lb = 4) as Hlb by apply len_be_bytes4. set (header := [PROTOCOL_VERSION] ++ [b] ++ lb) in *.
  assert (len header = 6) by (unfold header; len_lia).
  replace (([PROTOCOL_VERSION] ++ [b] ++ lb ++ p) ++ t) with (header ++ p ++ t) by (unfold header; by rewrite <- !app_assoc).
  replace ([PROTOCOL_VERSION] ++ [b] ++ lb ++ p) with (header ++ p) in Hd by (unfold header; by rewrite <- !app_assoc).
  rewrite (read_exact_app 6) by done. bind_simpl.
  assert (@idx string Z header 0 = Ok PROTOCOL_VERSION) as -> by (unfold header; solve_idx). bind_simpl.
  cbn [negb Z.eqb PROTOCOL_VERSION Pos.eqb].
  assert (@slice string Z header 2 6 = Ok lb) as -> by (unfold header; solve_slice). bind_simpl. rewrite Hv. if_lia.
  destruct (0 <? len p) eqn:Hz.
  - rewrite (read_exact_app (len p)) by done. bind_simpl. by rewrite Hd.
  - assert (p = []) as -> by (apply len_0_nil; pose_len_nonneg; lia). bind_simpl. by rewrite Hd.
Qed.

(** What six bytes of a header are. *)
Lemma header_fields h : len h = 6 -> wf_bytes h ->
  exists v b lb, h = [v] ++ [b] ++ lb /\ u8 b /\ arr 4 lb /\
    @idx string Z h 0 = Ok v /\ @slice string Z h 2 6 = Ok lb.
Proof.
  intros Hl Hw. unfold len in Hl.
  destruct h as [|v [|b [|x0 [|x1 [|x2 [|x3 [|? ?]]]]]]]; cbn in Hl; try lia.
  exists v, b, [x0; x1; x2; x3]. inversion_clear Hw as [|? ? _ Hw1]. inversion_clear Hw1 as [|? ? Hb Hw2].
  split_and!; [done | done | by split | done | done].
Qed.

Lemma frame_of_header b lb p : arr 4 lb -> be_val lb = len p -> [PROTOCOL_VERSION] ++ [b] ++ lb ++ p = frame b p.
Proof.
  intros Ha Hv. unfold frame. do 3 f_equal. rewrite <- Hv.
  rewrite as_u32_small by (pose proof (be_val_bound _ _ Ha); cbn in *; lia). symmetry. by apply be_bytes_val.
Qed.

(** The reader of a connection takes one frame. *)
Lemma read_message_inv stream m t : wf_bytes stream -> read_message stream = Ok (m, t) ->
  exists b, u8 b /\ stream = frame b (payload m) ++ t /\ msg_type m = known_or_unknown b /\ sendable m.
Proof.
  intros Hw H. unfold read_message in H.
  destruct (read_exact 6 stream) as [[h s]| |] eqn:Hr; [bind_simpl_in H | discriminate H | discriminate H].
  apply read_exact_inv in Hr as [-> Hh]. apply wf_app in Hw as [Hwh Hw].
  destruct (header_fields h Hh Hwh) as (v & b & lb & -> & Hb & Hlb & Hi & Hs).
  rewrite Hi in H. bind_simpl_in H. destruct (v =? PROTOCOL_VERSION) eqn:Hv; [|discriminate H].
  apply Z.eqb_eq in Hv as ->. cbn [negb] in H. rewrite Hs in H. bind_simpl_in H.
  destruct (MAX_MESSAGE_SIZE <? be_val lb) eqn:Hm; [discriminate H|].
  assert (exists p, s = p ++ t /\ len p = be_val lb /\ deserialize (([PROTOCOL_VERSION] ++ [b] ++ lb) ++ p) = Ok m)
    as (p & -> & Hp & Hd).
  { pose proof (be_val_bound _ _ Hlb). destruct (0 <? be_val lb) eqn:Hz.
    - destruct (read_exact (be_val lb) s) as [[p s']| |] eqn:Hr; [bind_simpl_in H | discriminate H | discriminate H].
      apply read_exact_inv in Hr as [-> Hp]. destruct (deserialize _) eqn:Hd in H; simplify_eq/=. by exists p.
    - bind_simpl_in H. destruct (deserialize _) eqn:Hd in H; simplify_eq/=.
      exists []. rewrite len_nil. split_and!; [done | lia | by rewrite app_nil_r in *]. }
  apply wf_app in Hw as [Hwp _]. exists b.
  rewrite <- !app_assoc, (frame_of_header b lb p) in Hd by done. rewrite deserialize_exact in Hd by lia.
  injection Hd as <-. cbn [payload msg_type]. split; [done|]. split; [|split; [done | split; [done | cbn [payload]; lia]]].
  rewrite <- (frame_of_header b lb p) by done. by rewrite <- !app_assoc.
Qed.

Lemma read_message_total stream : wf_bytes stream -> read_message stream <> Panic.
Proof.
  intros Hw. unfold read_message. pose proof (read_exact_total 6 stream ltac:(lia)).
  destruct (read_exact 6 stream) as [[h s]| |] eqn:Hr; [bind_simpl | done | done].
  apply read_exact_inv in Hr as [-> Hh]. apply wf_app in Hw as [Hwh Hw].
  destruct (header_fields h Hh Hwh) as (v & b & lb & -> & Hb & Hlb & Hi & Hs).
  rewrite Hi. bind_simpl. destruct (v =? PROTOCOL_VERSION) eqn:Hv; [|done]. apply Z.eqb_eq in Hv as ->.
  cbn [negb]. rewrite Hs. bind_simpl. destruct (MAX_MESSAGE_SIZE <? be_val lb) eqn:Hm; [done|].
  pose proof (be_val_bound _ _ Hlb). assert (forall p, len p = be_val lb ->
    deserialize (([PROTOCOL_VERSION] ++ [b] ++ lb) ++ p) <> Panic) as Hd.
  { intros p Hp. rewrite <- !app_assoc, (frame_of_header b lb p) by done. by rewrite deserialize_exact by lia. }
  destruct (0 <? be_val lb) eqn:Hz.
  - pose proof (read_exact_total (be_val lb) s ltac:(lia)).
    destruct (read_exact (be_val lb) s) as [[p s']| |] eqn:Hr; [bind_simpl | done | done].
    apply read_exact_inv in Hr as [-> Hp]. specialize (Hd p Hp). by destruct (deserialize _).
  - bind_simpl. specialize (Hd [] ltac:(rewrite len_nil; lia)). by destruct (deserialize _).
Qed.

Lemma read_message_serialize m t : sendable m -> read_message (serialize m ++ t) = Ok (m, t).
Proof.
  intros [_ Hm]. unfold serialize. rewrite read_message_frame, known_as_byte by done. by destruct m.
Qed.

(** ** Properties *)

(** Frames sent one after the other are read back one after the other, and the
    reading goes on with whatever bytes follow them. *)
Theorem frames_read_back ms t n : Forall sendable ms ->
  read_messages (length ms + n) (concat (serialize <$> ms) ++ t)
  = ((ms ++ (read_messages n t).1)%list, (read_messages n t).2).
Proof.
  induction 1 as [|m ms Hm _ IH]; [cbn [length Nat.add concat fmap list_fmap app]; apply surjective_pairing|].
  cbn [length Nat.add fmap list_fmap concat read_messages]. rewrite <- app_assoc, read_message_serialize by done.
  by rewrite IH.
Qed.

(** The reader of a connection never panics. It takes exactly the bytes of one
    frame whose payload is at most [MAX_MESSAGE_SIZE] long, or fails where the
    connection does not start with one; the reader of a buffer agrees with it. A
    type that is not known is read as [Unknown] and leaves the connection in step. *)
Theorem reader_takes_one_frame stream : wf_bytes stream ->
  match read_message stream with
  | Ok (m, t) =>
      deserialize stream = Ok m /\
      exists b, u8 b /\ stream = frame b (payload m) ++ t /\ msg_type m = known_or_unknown b /\ sendable m
  | Err _ => forall b p t, len p <= MAX_MESSAGE_SIZE -> stream <> frame b p ++ t
  | Panic => False
  end.
Proof.
  intros Hw. destruct (read_message stream) as [[m t]|e|] eqn:H.
  - destruct (read_message_inv _ _ _ Hw H) as (b & Hb & -> & Ht & Hm). split; [|by exists b].
    destruct Hm. rewrite deserialize_frame, <- Ht by done. by destruct m.
  - intros b p t Hp ->. by rewrite read_message_frame in H.
  - by apply (read_message_total stream).
Qed.

Definition sample_messages : list Message :=
  [{| msg_type := MT.Ping; payload := be_bytes 8 7 |}; {| msg_type := MT.GetPeers; payload := [] |}].

Lemma sample_sendable : Forall sendable sample_messages.
Proof. repeat constructor; cbn; unfold MAX_MESSAGE_SIZE; wf_compute. Qed.

Lemma frames_read_back_witness :
  read_messages 3 (concat (serialize <$> sample_messages) ++ [1; 77]) = (sample_messages, [1; 77]).
Proof. exact (frames_read_back sample_messages [1; 77] 1 sample_sendable). Defined.

Lemma reader_takes_one_frame_witness :
  deserialize (frame 77 [5]) = Ok {| msg_type := MT.Unknown; payload := [5] |}.
Proof.
  pose proof (reader_takes_one_frame (frame 77 [5]) ltac:(wf_compute)) as H. exact (proj1 H).
Defined.
