(* ===== verification/Payloads.v ===== *)
(** * Payloads: what the messages between nodes carry
    ([src/src/protocol.rs], the payload types and their [to_message] and
    [from_message])

    One instance of [Payload] per type. Three families: fixed or bounded binary
    payloads (pings, uptime proofs, requests for blocks and headers), bytes passed
    on as they are (blocks, transactions, gossip), and JSON, written and read by the
    crate [serde_json], which is the class [Serde]. A text is UTF-8; the reader of a
    disconnect message says where the bytes stop being so. *)

From Stdlib Require Import Ascii.
From S2P Require Import Prelude Wire Agreement Protocol.

Open Scope string_scope.
Open Scope list_scope.
Open Scope Z_scope.

(** ** The interface *)
Class Payload (P : Type) := {
  to_message : P -> res string Message;
  from_message : Message -> res string P;
  (** what a sender has to keep to *)
  payload_ok : P -> Prop
}.

(** The other side reads back what was sent. *)
Class PayloadLaws {P} (I : Payload P) : Prop := {
  payload_wf p m : payload_ok p -> to_message p = Ok m -> wf_bytes (payload m);
  payload_read p m : payload_ok p -> to_message p = Ok m -> from_message m = Ok p
}.

(** Only what a sender may send is read, and it has one form. *)
Class CanonicalPayload {P} (I : Payload P) : Prop := {
  payload_canonical m p : sendable m -> from_message m = Ok p -> payload_ok p /\ to_message p = Ok m;
  payload_total m : from_message m <> Panic
}.

Definition of_type (t : MessageType) (m : Message) : bool := bool_decide (msg_type m = t).

(** ** UTF-8, as [String::from_utf8] walks it *)
Inductive Scan :=
| Char (width : nat)
| BadBytes (n : Z)
| CutShort.

Definition second_ok (a b : Z) : bool :=
  if a =? 224 then between 160 191 b else
  if a =? 237 then between 128 159 b else
  if a =? 240 then between 144 191 b else
  if a =? 244 then between 128 143 b else cont b.

Definition scan_char (s : bytes) : Scan :=
  match s with
  | [] => CutShort
  | a :: s =>
      if a <=? 127 then Char 1 else
      if negb (between 194 244 a) then BadBytes 1 else
      match s with
      | [] => CutShort
      | b :: s =>
          if negb (second_ok a b) then BadBytes 1 else
          if a <=? 223 then Char 2 else
          match s with
          | [] => CutShort
          | c :: s =>
              if negb (cont c) then BadBytes 2 else
              if a <=? 239 then Char 3 else
              match s with
              | [] => CutShort
              | d :: _ => if cont d then Char 4 else BadBytes 3
              end
          end
      end
  end.

(** The text of the [Utf8Error] of the bytes from [at], if there is one. *)
Fixpoint utf8_error (fuel : nat) (at_ : Z) (s : bytes) : option string :=
  match fuel, s with
  | _, [] | O, _ => None
  | S fuel, _ =>
      match scan_char s with
      | Char w => utf8_error fuel (at_ + Z.of_nat w) (drop w s)
      | BadBytes n => Some ("invalid utf-8 sequence of " +:+ num n +:+ " bytes from index " +:+ num at_)
      | CutShort => Some ("incomplete utf-8 byte sequence from index " +:+ num at_)
      end
  end.

Definition String_from_utf8 (s : bytes) : res string string :=
  match utf8_error (length s) 0 s with None => Ok (text s) | Some e => Err e end.

(** ** Binary payloads *)
Record PingPayload := { nonce : Z }.

#[export] Instance Ping : Payload PingPayload := {|
  to_message p := Ok {| msg_type := MT.Ping; payload := be_bytes 8 (nonce p) |};
  from_message m :=
    if negb (of_type MT.Ping m) then Err "Not a ping message" else
    if negb (len (payload m) =? 8) then Err "Invalid ping payload length" else
    Ok {| nonce := be_val (payload m) |};
  payload_ok p := u64 (nonce p)
|}.

Record UptimeChallengePayload := { uc_nonce : bytes; uc_timestamp : Z }.

#[export] Instance UptimeChallenge : Payload UptimeChallengePayload := {|
  to_message p := Ok {| msg_type := MT.UptimeChallenge; payload := uc_nonce p ++ be_bytes 8 (uc_timestamp p) |};
  from_message m :=
    if negb (of_type MT.UptimeChallenge m) then Err "Not an uptime challenge message" else
    if negb (len (payload m) =? 40) then Err "Invalid uptime challenge payload length" else
    nonce ← slice (payload m) 0 32;
    ts_bytes ← slice (payload m) 32 40;
    Ok {| uc_nonce := nonce; uc_timestamp := be_val ts_bytes |};
  payload_ok p := arr 32 (uc_nonce p) /\ u64 (uc_timestamp p)
|}.

Record UptimeProofPayload := { up_nonce : bytes; up_timestamp : Z; up_hmac : bytes }.

#[export] Instance UptimeProof : Payload UptimeProofPayload := {|
  to_message p :=
    Ok {| msg_type := MT.UptimeProof; payload := up_nonce p ++ be_bytes 8 (up_timestamp p) ++ up_hmac p |};
  from_message m :=
    if negb (of_type MT.UptimeProof m) then Err "Not an uptime proof message" else
    if negb (len (payload m) =? 72) then Err "Invalid uptime proof payload length" else
    nonce ← slice (payload m) 0 32;
    ts_bytes ← slice (payload m) 32 40;
    hmac ← slice (payload m) 40 72;
    Ok {| up_nonce := nonce; up_timestamp := be_val ts_bytes; up_hmac := hmac |};
  payload_ok p := arr 32 (up_nonce p) /\ u64 (up_timestamp p) /\ arr 32 (up_hmac p)
|}.

(** *** Requests *)
Definition request_payload (count : Z) (start_hash : bytes) : bytes := be_bytes 4 count ++ start_hash.

Definition read_request (max : Z) (what : string) (m : Message) : res string (bytes * Z) :=
  if len (payload m) <? 4 then Err (what +:+ " payload too short") else
  count_bytes ← slice (payload m) 0 4;
  let count := be_val count_bytes in
  start_hash ← slice (payload m) 4 (len (payload m));
  if negb (bool_decide (start_hash = [])) && negb (len start_hash =? 32) then Err (what +:+ " start_hash invalid") else
  if (count =? 0) || (max <? count) then Err (what +:+ " count out of range") else
  Ok (start_hash, count).

Definition request_ok (max : Z) (start_hash : bytes) (count : Z) : Prop :=
  (start_hash = [] \/ arr 32 start_hash) /\ 1 <= count <= max.

Record GetBlocksPayload := { gb_start_hash : bytes; gb_count : Z }.

#[export] Instance GetBlocks : Payload GetBlocksPayload := {|
  to_message p := Ok {| msg_type := MT.GetBlocks; payload := request_payload (gb_count p) (gb_start_hash p) |};
  from_message m :=
    if negb (of_type MT.GetBlocks m) then Err "Not a get_blocks message" else
    '(start_hash, count) ← read_request MAX_BLOCKS_PER_REQUEST "get_blocks" m;
    Ok {| gb_start_hash := start_hash; gb_count := count |};
  payload_ok p := request_ok MAX_BLOCKS_PER_REQUEST (gb_start_hash p) (gb_count p)
|}.

Record GetHeadersPayload := { gh_start_hash : bytes; gh_count : Z }.

#[export] Instance GetHeaders : Payload GetHeadersPayload := {|
  to_message p := Ok {| msg_type := MT.GetHeaders; payload := request_payload (gh_count p) (gh_start_hash p) |};
  from_message m :=
    if negb (of_type MT.GetHeaders m) then Err "Not a get_headers message" else
    '(start_hash, count) ← read_request MAX_HEADERS_PER_REQUEST "get_headers" m;
    Ok {| gh_start_hash := start_hash; gh_count := count |};
  payload_ok p := request_ok MAX_HEADERS_PER_REQUEST (gh_start_hash p) (gh_count p)
|}.

(** ** Bytes passed on *)
Definition pass_on (t : MessageType) (raw : bytes) : res string Message := Ok {| msg_type := t; payload := raw |}.
Definition take_raw (t : MessageType) (e : string) (m : Message) : res string bytes :=
  if negb (of_type t m) then Err e else Ok (payload m).

Record BlockPayload := { block_data : bytes }.

#[export] Instance BlockMessage : Payload BlockPayload := {|
  to_message p := pass_on MT.Block (block_data p);
  from_message m :=
    if negb (of_type MT.Block m) then Err "Not a block message" else
    if MAX_BLOCK_SIZE <? as_u32 (len (payload m)) then Err "Block payload too large" else
    Ok {| block_data := payload m |};
  payload_ok p := wf_bytes (block_data p) /\ len (block_data p) <= MAX_BLOCK_SIZE
|}.

Record TxPayload := { tx_data : bytes }.
#[export] Instance TxMessage : Payload TxPayload := {|
  to_message p := pass_on MT.Tx (tx_data p);
  from_message m := raw ← take_raw MT.Tx "Not a tx message" m; Ok {| tx_data := raw |};
  payload_ok p := wf_bytes (tx_data p)
|}.

Record HeadersPayload := { headers : bytes }.
#[export] Instance HeadersMessage : Payload HeadersPayload := {|
  to_message p := pass_on MT.Headers (headers p);
  from_message m := raw ← take_raw MT.Headers "Not a headers message" m; Ok {| headers := raw |};
  payload_ok p := wf_bytes (headers p)
|}.

Record ProofGossipPayload := { proof_json : bytes }.
#[export] Instance ProofGossip : Payload ProofGossipPayload := {|
  to_message p := pass_on MT.ProofGossip (proof_json p);
  from_message m := raw ← take_raw MT.ProofGossip "Not a proof gossip message" m; Ok {| proof_json := raw |};
  payload_ok p := wf_bytes (proof_json p)
|}.

Record OfferTakeNotificationPayload := { take_json : bytes }.
#[export] Instance OfferTake : Payload OfferTakeNotificationPayload := {|
  to_message p := pass_on MT.OfferTakeNotification (take_json p);
  from_message m := raw ← take_raw MT.OfferTakeNotification "Not an offer-take notification" m; Ok {| take_json := raw |};
  payload_ok p := wf_bytes (take_json p)
|}.

Record DisputeRaisedNotificationPayload := { raised_json : bytes }.
#[export] Instance DisputeRaised : Payload DisputeRaisedNotificationPayload := {|
  to_message p := pass_on MT.DisputeRaisedNotification (raised_json p);
  from_message m := raw ← take_raw MT.DisputeRaisedNotification "Not a dispute raised notification" m; Ok {| raised_json := raw |};
  payload_ok p := wf_bytes (raised_json p)
|}.

Record DisputeEvidenceNotificationPayload := { evidence_json : bytes }.
#[export] Instance DisputeEvidenceNotice : Payload DisputeEvidenceNotificationPayload := {|
  to_message p := pass_on MT.DisputeEvidenceNotification (evidence_json p);
  from_message m := raw ← take_raw MT.DisputeEvidenceNotification "Not a dispute evidence notification" m; Ok {| evidence_json := raw |};
  payload_ok p := wf_bytes (evidence_json p)
|}.

Record DisputeResolvedNotificationPayload := { resolved_json : bytes }.
#[export] Instance DisputeResolved : Payload DisputeResolvedNotificationPayload := {|
  to_message p := pass_on MT.DisputeResolvedNotification (resolved_json p);
  from_message m := raw ← take_raw MT.DisputeResolvedNotification "Not a dispute resolved notification" m; Ok {| resolved_json := raw |};
  payload_ok p := wf_bytes (resolved_json p)
|}.

Record DisputeEscalatedNotificationPayload := { escalated_json : bytes }.
#[export] Instance DisputeEscalated : Payload DisputeEscalatedNotificationPayload := {|
  to_message p := pass_on MT.DisputeEscalatedNotification (escalated_json p);
  from_message m := raw ← take_raw MT.DisputeEscalatedNotification "Not a dispute escalated notification" m; Ok {| escalated_json := raw |};
  payload_ok p := wf_bytes (escalated_json p)
|}.

Record OfferBroadcastPayload := { offer_json : bytes }.
#[export] Instance OfferBroadcast : Payload OfferBroadcastPayload := {|
  to_message p := pass_on MT.OfferBroadcast (offer_json p);
  from_message m := raw ← take_raw MT.OfferBroadcast "Not an offer broadcast" m; Ok {| offer_json := raw |};
  payload_ok p := wf_bytes (offer_json p)
|}.

Record PoawxRolePrecommitPayload := { precommit_json : bytes }.
#[export] Instance RolePrecommit : Payload PoawxRolePrecommitPayload := {|
  to_message p := pass_on MT.PoawxRolePrecommit (precommit_json p);
  from_message m := raw ← take_raw MT.PoawxRolePrecommit "Not a poawx role precommit" m; Ok {| precommit_json := raw |};
  payload_ok p := wf_bytes (precommit_json p)
|}.

Record PoawxRoleRevealPayload := { reveal_json : bytes }.
#[export] Instance RoleReveal : Payload PoawxRoleRevealPayload := {|
  to_message p := pass_on MT.PoawxRoleReveal (reveal_json p);
  from_message m := raw ← take_raw MT.PoawxRoleReveal "Not a poawx role reveal" m; Ok {| reveal_json := raw |};
  payload_ok p := wf_bytes (reveal_json p)
|}.

Record PoawxCandidateAdmissionPayload := { admission_bytes : bytes }.
#[export] Instance CandidateAdmissionMessage : Payload PoawxCandidateAdmissionPayload := {|
  to_message p := pass_on MT.PoawxCandidateAdmission (admission_bytes p);
  from_message m := raw ← take_raw MT.PoawxCandidateAdmission "Not a poawx candidate admission" m; Ok {| admission_bytes := raw |};
  payload_ok p := wf_bytes (admission_bytes p)
|}.

Record PoawxProposerRegistrationPayload := { reg_bytes : bytes }.
#[export] Instance ProposerRegistrationMessage : Payload PoawxProposerRegistrationPayload := {|
  to_message p := pass_on MT.PoawxProposerRegistration (reg_bytes p);
  from_message m := raw ← take_raw MT.PoawxProposerRegistration "Not a poawx proposer registration" m; Ok {| reg_bytes := raw |};
  payload_ok p := wf_bytes (reg_bytes p)
|}.

Record PoawxFinalityVotePayload := { vote_bytes : bytes }.
#[export] Instance FinalityVoteMessage : Payload PoawxFinalityVotePayload := {|
  to_message p := pass_on MT.PoawxFinalityVote (vote_bytes p);
  from_message m := raw ← take_raw MT.PoawxFinalityVote "Not a poawx finality vote" m; Ok {| vote_bytes := raw |};
  payload_ok p := wf_bytes (vote_bytes p)
|}.

(** *** Text *)
Record DisconnectPayload := { reason : string }.

#[export] Instance Disconnect : Payload DisconnectPayload := {|
  to_message p := pass_on MT.Disconnect (byte_string (reason p));
  from_message m :=
    if negb (of_type MT.Disconnect m) then Err "Not a disconnect message" else
    reason ← String_from_utf8 (payload m);
    Ok {| reason := reason |};
  payload_ok p := utf8 (byte_string (reason p)) = true
|}.

(** ** JSON *)

(** [serde_json::to_vec] and [serde_json::from_slice], with the text of their
    errors. What the code relies on: what was written is read back. *)
Class Serde (P : Type) := {
  to_vec : P -> res string bytes;
  from_slice : bytes -> res string P
}.
Class SerdeLaws {P} (S : Serde P) : Prop := {
  serde_read p b : to_vec p = Ok b -> from_slice b = Ok p;
  serde_bytes p b : to_vec p = Ok b -> wf_bytes b
}.

Definition to_json {P} `{Serde P} (t : MessageType) (p : P) : res string Message :=
  json ← to_vec p; Ok {| msg_type := t; payload := json |}.
Definition of_json {P} `{Serde P} (t : MessageType) (e : string) (m : Message) : res string P :=
  if negb (of_type t m) then Err e else from_slice (payload m).

Record HandshakePayload := {
  hs_version : Z; agent : string; hs_height : Z; hs_timestamp : Z; port : Z; checkpoint_height : option Z;
  checkpoint_hash : option string; relay_address : option string; node_id : option string; hs_tip_hash : option string;
  capabilities : option (list string); marketplace_feed : option string; external_endpoint : option string
}.
Record PeersPayload := { peers : list string }.
Record MempoolPayload := { tx_hashes : list string }.
Record RelayAddressPayload := { ra_txid : string; ra_address : string }.
Record InvPayload := { inv_txids : list string }.
Record GetDataPayload := { gd_txids : list string }.

#[export] Instance HandshakeMessage `{Serde HandshakePayload} : Payload HandshakePayload := {|
  to_message := to_json MT.Handshake;
  from_message := of_json MT.Handshake "Not a handshake message";
  payload_ok _ := True
|}.

#[export] Instance PeersMessage `{Serde PeersPayload} : Payload PeersPayload := {|
  to_message := to_json MT.Peers;
  from_message := of_json MT.Peers "Not a peers message";
  payload_ok _ := True
|}.

#[export] Instance MempoolMessage `{Serde MempoolPayload} : Payload MempoolPayload := {|
  to_message := to_json MT.Mempool;
  from_message := of_json MT.Mempool "Not a mempool message";
  payload_ok _ := True
|}.

#[export] Instance RelayAddressMessage `{Serde RelayAddressPayload} : Payload RelayAddressPayload := {|
  to_message := to_json MT.RelayAddress;
  from_message := of_json MT.RelayAddress "Not a relay address message";
  payload_ok _ := True
|}.

#[export] Instance InvMessage `{Serde InvPayload} : Payload InvPayload := {|
  to_message := to_json MT.Inv;
  from_message := of_json MT.Inv "Not an inv message";
  payload_ok _ := True
|}.

#[export] Instance GetDataMessage `{Serde GetDataPayload} : Payload GetDataPayload := {|
  to_message := to_json MT.GetData;
  from_message := of_json MT.GetData "Not a getdata message";
  payload_ok _ := True
|}.

(** [EmptyPayload::to_message]: a message without a body. *)
Definition empty_message (t : MessageType) : res string Message := Ok {| msg_type := t; payload := [] |}.


















(** ** Laws *)
Lemma of_type_iff t m : of_type t m = true <-> msg_type m = t.
Proof. unfold of_type. by rewrite bool_decide_eq_true. Qed.

Lemma of_type_made t b : of_type t {| msg_type := t; payload := b |} = true.
Proof. by apply of_type_iff. Qed.

Lemma wf_be_bytes n v : wf_bytes (be_bytes n v).
Proof. apply Forall_rev, wf_le_bytes. Qed.

#[local] Hint Resolve wf_be_bytes : core.
#[local] Hint Rewrite len_be_bytes4 len_be_bytes8 : lens.

(** [read_made]: a reader on the message a sender made. *)
Ltac read_made :=
  cbn [from_message Ping UptimeChallenge UptimeProof GetBlocks GetHeaders BlockMessage payload msg_type]; rewrite ?of_type_made; cbn [negb];
  repeat first [if_lia | progress cbn [negb] | parse_step]; rewrite ?be_val_bytes by assumption.

Ltac sent H :=
  cbn [to_message pass_on Ping UptimeChallenge UptimeProof GetBlocks GetHeaders BlockMessage TxMessage HeadersMessage ProofGossip OfferTake
  DisputeRaised DisputeEvidenceNotice DisputeResolved DisputeEscalated OfferBroadcast RolePrecommit RoleReveal
  CandidateAdmissionMessage ProposerRegistrationMessage FinalityVoteMessage Disconnect] in H;
  apply Ok_inj in H; subst; cbn [payload].

#[export] Instance Ping_laws : PayloadLaws Ping.
Proof. split; intros p m Hp H; sent H; [apply wf_be_bytes|]. cbn in Hp. read_made. by destruct p. Qed.

#[export] Instance UptimeChallenge_laws : PayloadLaws UptimeChallenge.
Proof.
  split; intros p m [[Hl Hw] Ht] H; sent H; [rewrite wf_app; auto|]. read_made. by destruct p.
Qed.

#[export] Instance UptimeProof_laws : PayloadLaws UptimeProof.
Proof.
  split; intros p m ([Hl Hw] & Ht & [Hl' Hw']) H; sent H; [rewrite !wf_app; auto|]. read_made. by destruct p.
Qed.

Lemma read_request_made max what t p c : max <= U32_MAX -> request_ok max p c ->
  read_request max what {| msg_type := t; payload := request_payload c p |} = Ok (p, c).
Proof.
  intros Hm [Hp Hc]. unfold U32_MAX in Hm. unfold read_request, request_payload. cbn [payload].
  assert (len p = 0 \/ len p = 32) as Hl by (destruct Hp as [-> | [Hl _]]; [by left | by right]).
  rewrite len_app, len_be_bytes4. if_lia. parse_step. rewrite be_val_bytes by (cbn; lia). parse_step.
  replace (negb (bool_decide (p = [])) && negb (len p =? 32)) with false.
  2: { destruct Hp as [-> | [-> _]]; [done | by rewrite andb_false_r]. }
  replace ((c =? 0) || (max <? c)) with false by lia. done.
Qed.

Lemma request_wf max p c : request_ok max p c -> wf_bytes (request_payload c p).
Proof.
  intros [Hp _]. apply wf_app. split; [apply wf_be_bytes|]. destruct Hp as [-> | [_ Hw]]; [constructor | done].
Qed.

#[export] Instance GetBlocks_laws : PayloadLaws GetBlocks.
Proof.
  split; intros p m Hp H; sent H; [exact (request_wf _ _ _ Hp)|]. cbn [from_message GetBlocks].
  rewrite of_type_made. cbn [negb]. rewrite (read_request_made MAX_BLOCKS_PER_REQUEST _ _ _ _ ltac:(done) Hp). by destruct p.
Qed.

#[export] Instance GetHeaders_laws : PayloadLaws GetHeaders.
Proof.
  split; intros p m Hp H; sent H; [exact (request_wf _ _ _ Hp)|]. cbn [from_message GetHeaders].
  rewrite of_type_made. cbn [negb]. rewrite (read_request_made MAX_HEADERS_PER_REQUEST _ _ _ _ ltac:(done) Hp). by destruct p.
Qed.

#[export] Instance BlockMessage_laws : PayloadLaws BlockMessage.
Proof.
  split; intros p m [Hw Hl] H; sent H; [done|]. unfold MAX_BLOCK_SIZE in Hl. pose proof (len_nonneg (block_data p)).
  read_made. rewrite as_u32_small by lia. unfold MAX_BLOCK_SIZE. if_lia. by destruct p.
Qed.

Lemma take_raw_made t e b : take_raw t e {| msg_type := t; payload := b |} = Ok b.
Proof. unfold take_raw. by rewrite of_type_made. Qed.

Ltac passed_on := split; intros [raw] m Hp H; sent H; [exact Hp | reflexivity].

#[export] Instance TxMessage_laws : PayloadLaws TxMessage. Proof. passed_on. Qed.
#[export] Instance HeadersMessage_laws : PayloadLaws HeadersMessage. Proof. passed_on. Qed.
#[export] Instance ProofGossip_laws : PayloadLaws ProofGossip. Proof. passed_on. Qed.
#[export] Instance OfferTake_laws : PayloadLaws OfferTake. Proof. passed_on. Qed.
#[export] Instance DisputeRaised_laws : PayloadLaws DisputeRaised. Proof. passed_on. Qed.
#[export] Instance DisputeEvidenceNotice_laws : PayloadLaws DisputeEvidenceNotice. Proof. passed_on. Qed.
#[export] Instance DisputeResolved_laws : PayloadLaws DisputeResolved. Proof. passed_on. Qed.
#[export] Instance DisputeEscalated_laws : PayloadLaws DisputeEscalated. Proof. passed_on. Qed.
#[export] Instance OfferBroadcast_laws : PayloadLaws OfferBroadcast. Proof. passed_on. Qed.
#[export] Instance RolePrecommit_laws : PayloadLaws RolePrecommit. Proof. passed_on. Qed.
#[export] Instance RoleReveal_laws : PayloadLaws RoleReveal. Proof. passed_on. Qed.
#[export] Instance CandidateAdmissionMessage_laws : PayloadLaws CandidateAdmissionMessage. Proof. passed_on. Qed.
#[export] Instance ProposerRegistrationMessage_laws : PayloadLaws ProposerRegistrationMessage. Proof. passed_on. Qed.
#[export] Instance FinalityVoteMessage_laws : PayloadLaws FinalityVoteMessage. Proof. passed_on. Qed.

(** A message in JSON. *)
Lemma json_made {P} `{S : Serde P} {L : SerdeLaws S} t e p m :
  to_json t p = Ok m -> wf_bytes (payload m) /\ of_json t e m = Ok p.
Proof.
  unfold to_json, of_json. intros H. destruct (to_vec p) as [b| |] eqn:Hb; cbn in H; simplify_eq.
  rewrite of_type_made. cbn. split; [by eapply serde_bytes | by apply serde_read].
Qed.

Ltac in_json :=
  split; intros p m _ H; [exact (proj1 (json_made _ EmptyString _ _ H)) | exact (proj2 (json_made _ _ _ _ H))].

Section json.
Context `{SH : Serde HandshakePayload} {LH : SerdeLaws SH} `{SP : Serde PeersPayload} {LP : SerdeLaws SP}.
Context `{SM : Serde MempoolPayload} {LM : SerdeLaws SM} `{SR : Serde RelayAddressPayload} {LR : SerdeLaws SR}.
Context `{SI : Serde InvPayload} {LI : SerdeLaws SI} `{SG : Serde GetDataPayload} {LG : SerdeLaws SG}.

#[export] Instance HandshakeMessage_laws : PayloadLaws HandshakeMessage.
Proof. in_json. Qed.
#[export] Instance PeersMessage_laws : PayloadLaws PeersMessage.
Proof. in_json. Qed.
#[export] Instance MempoolMessage_laws : PayloadLaws MempoolMessage.
Proof. in_json. Qed.
#[export] Instance RelayAddressMessage_laws : PayloadLaws RelayAddressMessage.
Proof. in_json. Qed.
#[export] Instance InvMessage_laws : PayloadLaws InvMessage.
Proof. in_json. Qed.
#[export] Instance GetDataMessage_laws : PayloadLaws GetDataMessage.
Proof. in_json. Qed.
End json.

(** *** Text *)

Ltac scan_tests :=
  repeat (case_match; try discriminate; try (exfalso; lia)); simplify_eq; rewrite ?skipn_cons, ?drop_0;
  repeat match goal with |- context [utf8 ?s] => generalize (utf8 s); intros [] end; lia.

Lemma scan_char_width s w : scan_char s = Char w -> (1 <= w <= length s)%nat.
Proof. unfold scan_char. intros H. repeat (case_match; simplify_eq/=; try lia). Qed.

(** The scanner and the recogniser of [Agreement] accept the same bytes. *)
Lemma utf8_step s : s <> [] ->
  utf8 s = match scan_char s with Char w => utf8 (drop w s) | _ => false end.
Proof.
  intros Hs. destruct s as [|a s]; [done|]. cbn [utf8 scan_char]. unfold second_ok, cont, between.
  destruct (a <=? 127) eqn:?, (a =? 224) eqn:?, (a =? 237) eqn:?, (a =? 240) eqn:?, (a =? 244) eqn:?;
    try (exfalso; lia); scan_tests.
Qed.

Lemma utf8_error_none fuel : forall n s, (length s <= fuel)%nat -> utf8_error fuel n s = None <-> utf8 s = true.
Proof.
  induction fuel as [|fuel IH]; intros n s Hf; [destruct s; [done | cbn in Hf; lia]|].
  destruct (decide (s = [])) as [->|Hs]; [done|]. rewrite (utf8_step s Hs).
  replace (utf8_error (S fuel) n s) with
    (match scan_char s with
     | Char w => utf8_error fuel (n + Z.of_nat w) (drop w s)
     | BadBytes k => Some ("invalid utf-8 sequence of " +:+ num k +:+ " bytes from index " +:+ num n)
     | CutShort => Some ("incomplete utf-8 byte sequence from index " +:+ num n)
     end) by (by destruct s).
  destruct (scan_char s) as [w| |] eqn:Hw; [|done..]. apply IH. rewrite length_drop.
  apply scan_char_width in Hw. lia.
Qed.

Lemma from_utf8_text s : utf8 (byte_string s) = true -> String_from_utf8 (byte_string s) = Ok s.
Proof. intros H. unfold String_from_utf8. rewrite (proj2 (utf8_error_none _ 0 _ (le_n _)) H). by rewrite text_byte_string. Qed.

Lemma wf_byte_string s : wf_bytes (byte_string s).
Proof.
  unfold byte_string. apply Forall_fmap, Forall_true. intros c. unfold u8. cbn.
  pose proof (N_ascii_bounded c). lia.
Qed.

Lemma byte_string_text s : wf_bytes s -> byte_string (text s) = s.
Proof.
  induction 1 as [|b s Hb _ IH]; [done|]. cbn [text]. rewrite byte_string_cons, IH. f_equal.
  unfold u8 in Hb. rewrite N_ascii_embedding by lia. lia.
Qed.

#[export] Instance Disconnect_laws : PayloadLaws Disconnect.
Proof.
  split; intros [r] m Hp H; sent H; [apply wf_byte_string|].
  cbn [from_message Disconnect msg_type payload reason]. rewrite of_type_made. cbn [negb].
  by rewrite (from_utf8_text r Hp).
Qed.

(** *** One form only *)
Lemma halves x a b y z : @slice string Z x 0 a = Ok y -> @slice string Z x a b = Ok z -> b = len x -> x = y ++ z.
Proof.
  intros Hy Hz Hb. symmetry. eapply slice_full_inv; [eapply slice_cat; eassumption | done].
Qed.

Lemma canonical_made t m : of_type t m = true -> {| msg_type := t; payload := payload m |} = m.
Proof. intros H. apply of_type_iff in H. destruct m. cbn in *. by subst. Qed.

#[export] Instance Ping_canonical : CanonicalPayload Ping.
Proof.
  split; [intros m p [Hw _] H | intros m]; cbn [from_message to_message payload_ok Ping] in *; [|no_panic].
  invert_parser H. apply Ok_inj in H. subst p. cbn [nonce]. apply negb_false_iff in Heqb, Heqb0.
  assert (arr 8 (payload m)) as Ha by (split; [lia | done]). split; [exact (be_val_bound _ _ Ha)|].
  rewrite (be_bytes_val 8) by done. by rewrite canonical_made.
Qed.

Lemma read_request_inv max what m p c : wf_bytes (payload m) -> read_request max what m = Ok (p, c) ->
  request_ok max p c /\ payload m = request_payload c p.
Proof.
  intros Hw H. unfold read_request in H. invert_parser H. apply Ok_inj in H. injection H as <- <-.
  assert (arr 4 a) as Ha by (exact (slice_arr _ _ _ _ 4 Hw Heqr eq_refl)). pose proof (be_val_bound _ _ Ha).
  split; [split; [|lia]|].
  - apply andb_false_iff in Heqb0 as [Hn|Hn]; apply negb_false_iff in Hn.
    + left. by apply bool_decide_eq_true in Hn.
    + right. split; [lia | by eapply slice_Forall].
  - unfold request_payload. rewrite (be_bytes_val 4) by done. by eapply halves.
Qed.

Lemma read_request_total max what m : read_request max what m <> Panic.
Proof. unfold read_request. no_panic. Qed.

#[export] Instance GetBlocks_canonical : CanonicalPayload GetBlocks.
Proof.
  split; [intros m p [Hw _] H | intros m]; cbn [from_message to_message payload_ok GetBlocks] in *.
  - destruct (of_type _ m) eqn:Ht; [cbn [negb] in H | discriminate H].
    destruct (read_request _ _ m) as [[h c]| |] eqn:Hr; [|discriminate H..]. apply Ok_inj in H. subst p. cbn.
    destruct (read_request_inv _ _ _ _ _ Hw Hr) as [Hok Hp]. split; [done|]. rewrite <- Hp. by rewrite canonical_made.
  - case_match; [done|]. pose proof (read_request_total MAX_BLOCKS_PER_REQUEST "get_blocks" m).
    by destruct (read_request _ _ m) as [[]| |].
Qed.

#[export] Instance GetHeaders_canonical : CanonicalPayload GetHeaders.
Proof.
  split; [intros m p [Hw _] H | intros m]; cbn [from_message to_message payload_ok GetHeaders] in *.
  - destruct (of_type _ m) eqn:Ht; [cbn [negb] in H | discriminate H].
    destruct (read_request _ _ m) as [[h c]| |] eqn:Hr; [|discriminate H..]. apply Ok_inj in H. subst p. cbn.
    destruct (read_request_inv _ _ _ _ _ Hw Hr) as [Hok Hp]. split; [done|]. rewrite <- Hp. by rewrite canonical_made.
  - case_match; [done|]. pose proof (read_request_total MAX_HEADERS_PER_REQUEST "get_headers" m).
    by destruct (read_request _ _ m) as [[]| |].
Qed.
#[export] Instance UptimeChallenge_canonical : CanonicalPayload UptimeChallenge.
Proof.
  split; [intros m p [Hw _] H | intros m]; cbn [from_message to_message payload_ok UptimeChallenge] in *; [|no_panic].
  invert_parser H. apply Ok_inj in H. subst p. cbn. apply negb_false_iff in Heqb, Heqb0.
  pose proof (slice_arr _ _ _ _ 32 Hw Heqr eq_refl) as Hn. pose proof (slice_arr _ _ _ _ 8 Hw Heqr0 eq_refl) as Ht.
  split; [split; [done | exact (be_val_bound _ _ Ht)]|]. rewrite (be_bytes_val 8) by done.
  rewrite <- (halves _ _ _ _ _ Heqr Heqr0) by lia. by rewrite canonical_made.
Qed.

#[export] Instance UptimeProof_canonical : CanonicalPayload UptimeProof.
Proof.
  split; [intros m p [Hw _] H | intros m]; cbn [from_message to_message payload_ok UptimeProof] in *; [|no_panic].
  invert_parser H. apply Ok_inj in H. subst p. cbn. apply negb_false_iff in Heqb, Heqb0.
  pose proof (slice_arr _ _ _ _ 32 Hw Heqr eq_refl) as Hn. pose proof (slice_arr _ _ _ _ 8 Hw Heqr0 eq_refl) as Ht.
  pose proof (slice_arr _ _ _ _ 32 Hw Heqr1 eq_refl) as Hh.
  split; [split_and!; [done | exact (be_val_bound _ _ Ht) | done]|]. rewrite (be_bytes_val 8) by done.
  rewrite app_assoc, <- (halves _ _ _ _ _ (slice_cat _ _ _ _ _ _ Heqr Heqr0) Heqr1) by lia. by rewrite canonical_made.
Qed.

#[export] Instance BlockMessage_canonical : CanonicalPayload BlockMessage.
Proof.
  split; [intros m p [Hw Hl] H | intros m]; cbn [from_message to_message payload_ok BlockMessage] in *; [|no_panic].
  invert_parser H. apply Ok_inj in H. subst p. cbn [block_data]. apply negb_false_iff in Heqb.
  unfold MAX_MESSAGE_SIZE in Hl. pose proof (len_nonneg (payload m)). rewrite as_u32_small in Heqb0 by lia.
  split; [split; [done | lia]|]. unfold pass_on. by rewrite canonical_made.
Qed.

#[export] Instance Disconnect_canonical : CanonicalPayload Disconnect.
Proof.
  split; [intros m p [Hw _] H | intros m]; cbn [from_message to_message payload_ok Disconnect] in *.
  - invert_parser H. apply Ok_inj in H. subst p. cbn [reason]. apply negb_false_iff in Heqb.
    unfold String_from_utf8 in Heqr. destruct (utf8_error _ _ _) eqn:He; [discriminate|]. apply Ok_inj in Heqr. subst.
    apply (utf8_error_none _ 0 _ (le_n _)) in He. rewrite byte_string_text by done. split; [done|].
    unfold pass_on. by rewrite canonical_made.
  - case_match; [done|]. unfold String_from_utf8. by case_match.
Qed.

(** ** Properties *)

(** What the wire does to the payloads of one type: one that its sender may send,
    put on a connection, is read back by the other side, which is then at the
    bytes that follow; a message that the connection can carry is read as a payload
    exactly when it is what the sender of that payload makes of it; and no message
    makes the reader panic. *)
Definition faithful {P} (I : Payload P) : Prop :=
  (forall p m t, payload_ok p -> to_message p = Ok m -> len (payload m) <= MAX_MESSAGE_SIZE ->
    ('(m', t') ← read_message (serialize m ++ t); p' ← from_message m'; Ok (p', t')) = Ok (p, t)) /\
  (forall m p, sendable m -> from_message m = Ok p <-> payload_ok p /\ to_message p = Ok m) /\
  (forall m, from_message m <> Panic).

Lemma payload_faithful {P} (I : Payload P) : PayloadLaws I -> CanonicalPayload I -> faithful I.
Proof.
  intros L K. split_and!.
  - intros p m t Hp Hm Hl. rewrite read_message_serialize by (split; [by eapply payload_wf | done]).
    bind_simpl. by rewrite (payload_read p m Hp Hm).
  - intros m p Hm. split; [by apply payload_canonical | intros [? ?]; by apply payload_read].
  - apply payload_total.
Qed.

(** C37: The payloads with a format of their own arrive and are read in one form
    only: pings, uptime challenges and proofs, requests for 1 to 512 blocks and for 1
    to 2,000 headers from no hash or a hash of 32 bytes, blocks of up to 4 MB and
    the UTF-8 text of a disconnect.  What its sender may send is read back from the
    connection, every message that is read as such a payload is what its sender makes
    of it, everything else is refused, and nothing makes a reader panic. *)
Theorem payloads_arrive :
  faithful Ping /\ faithful UptimeChallenge /\ faithful UptimeProof /\ faithful GetBlocks /\ faithful GetHeaders /\
  faithful BlockMessage /\ faithful Disconnect.
Proof. split_and!; apply payload_faithful; apply _. Qed.

(** A request for blocks that arrives is accepted exactly when it asks for 1 to
    512 blocks from no hash or a hash of 32 bytes, and it is then the message its
    sender would make of it; anything else is refused, without a panic. *)
Theorem block_request_exact m p : sendable m ->
  from_message m = Ok p <->
  to_message p = Ok m /\ (gb_start_hash p = [] \/ arr 32 (gb_start_hash p)) /\ 1 <= gb_count p <= 512.
Proof.
  intros Hm. split.
  - intros H. destruct (payload_canonical m p Hm H) as [Hp Ht]. by split.
  - intros (Ht & Hp). by apply payload_read.
Qed.

Definition sample_request : GetBlocksPayload := {| gb_start_hash := zeros 32; gb_count := 512 |}.
Definition sample_request_message : Message :=
  {| msg_type := MT.GetBlocks; payload := request_payload 512 (zeros 32) |}.

Lemma block_request_exact_witness : from_message sample_request_message = Ok sample_request.
Proof.
  apply (block_request_exact sample_request_message sample_request).
  - split; [wf_compute | vm_compute; congruence].
  - split; [reflexivity|]. split; [right; apply arr_check; vm_compute; reflexivity | vm_compute; split; congruence].
Defined.

(** A sender does not check its own requests: one for no blocks is made, sent and
    refused. *)
Example empty_request_refused :
  (m ← to_message {| gb_start_hash := []; gb_count := 0 |}; @from_message GetBlocksPayload _ m)
  = Err "get_blocks count out of range".
Proof. reflexivity. Qed.

Example bad_text_located :
  @from_message DisconnectPayload _ {| msg_type := MT.Disconnect; payload := [98; 121; 101; 255] |}
  = Err "invalid utf-8 sequence of 1 bytes from index 3".
Proof. reflexivity. Qed.

(** The laws of the JSON crate can be kept: texts written character by character. *)
Fixpoint write_text (s : string) : bytes :=
  match s with EmptyString => [0] | String c s => 1 :: Z.of_N (Ascii.N_of_ascii c) :: write_text s end.
Fixpoint read_texts (b : bytes) (cur : string) : option (list string) :=
  match b with
  | [] => Some []
  | 0 :: b => (fun l => cur :: l) <$> read_texts b EmptyString
  | _ :: c :: b => read_texts b (cur +:+ String (Ascii.ascii_of_N (Z.to_N c)) EmptyString)
  | _ :: [] => None
  end.

Lemma read_write_text s rest : forall cur, read_texts (write_text s ++ rest) cur = (fun l => (cur +:+ s) :: l) <$> read_texts rest EmptyString.
Proof.
  induction s as [|c s IH]; intros cur; cbn [write_text app read_texts].
  - assert (cur +:+ EmptyString = cur) as ->; [|done]. induction cur as [|c cur IHc]; [done|]. exact (f_equal (String c) IHc).
  - rewrite IH, N2Z.id, Ascii.ascii_N_embedding. assert ((cur +:+ String c EmptyString) +:+ s = cur +:+ String c s) as ->; [|done].
    clear. induction cur as [|a cur IHc]; [done|]. exact (f_equal (String a) IHc).
Qed.

#[local] Instance plain_texts : Serde MempoolPayload := {|
  to_vec p := Ok (concat (write_text <$> tx_hashes p));
  from_slice b := l ← ok_or (read_texts b EmptyString) "expected texts"; Ok {| tx_hashes := l |}
|}.

#[local] Instance plain_texts_laws : SerdeLaws plain_texts.
Proof.
  split; intros [l] b [= <-]; cbn [tx_hashes].
  - assert (read_texts (concat (write_text <$> l)) EmptyString = Some l) as H; [|cbn; by rewrite H].
    induction l as [|s l IH]; [done|]. cbn [fmap list_fmap concat]. by rewrite read_write_text, IH.
  - apply Forall_concat, Forall_fmap, Forall_true. intros s. cbn. induction s as [|c s IH]; cbn [write_text].
    + by repeat constructor.
    + repeat (apply Forall_cons; split); [done | | done]. unfold u8. pose proof (N_ascii_bounded c). lia.
Qed.

Example mempool_arrives m : to_message {| tx_hashes := ["ab"; ""; "c"] |} = Ok m ->
  from_message m = Ok {| tx_hashes := ["ab"; ""; "c"] |}.
Proof. by apply payload_read. Qed.
