(* ===== verification/BtcWire.v ===== *)
(** * BtcWire: fetching headers from Bitcoin and Litecoin peers
    ([src/src/p2p_wire.rs], [src/src/btc_p2p.rs], [src/src/ltc_p2p.rs])

    The node learns the headers its relays need from peers of those networks:
    it looks up addresses, tries one after the other, shakes hands, asks for the
    headers after its tip and takes the first [headers] message.

    A connection is the bytes the peer will send and how it ends: closed, or silent
    until the read times out. A write succeeds unless [write_error] says otherwise,
    which sees what was sent before. The clock, the process, DNS, the connecting and
    the memory the allocator can give are parameters. The two networks differ in
    the record [Net] only.

    Shown here: a message is read back as it was made; a session gives headers only
    out of a message with a good checksum behind a [version] and a [verack], within
    60 messages, and does give them with a peer that behaves; and exactly when the
    reader of a [headers] message brings the node down. *)

From Stdlib Require Import Ascii.
From S2P Require Import Prelude Crypto Wire Agreement Protocol Payloads.

Open Scope string_scope.
Open Scope list_scope.
Open Scope Z_scope.

Definition WIRE_PROTOCOL_VERSION : Z := 70015.
Definition USER_AGENT : string := "/iriumd:1.9.66/".
Definition MAX_PAYLOAD : Z := 32 * 1024 * 1024.
Definition MSG_BLOCK : Z := 2.

(** ** Compact integers *)
Definition put_varint (v : Z) : bytes :=
  if v <? 0xfd then [as_u8 v]
  else if v <=? 0xffff then [0xfd] ++ le_bytes 2 (as_u16 v)
  else if v <=? 0xffffffff then [0xfe] ++ le_bytes 4 (as_u32 v)
  else [0xff] ++ le_bytes 8 v.

Definition read_varint_slice (s : bytes) : res string (Z * Z) :=
  if bool_decide (s = []) then Err "varint: empty input" else
  first ← idx s 0;
  if first =? 0xff then
    if len s <? 9 then Err "varint: truncated 0xff (need 9 bytes)" else
    b ← slice s 1 9; Ok (le_val b, 9)
  else if first =? 0xfe then
    if len s <? 5 then Err "varint: truncated 0xfe (need 5 bytes)" else
    b ← slice s 1 5; Ok (le_val b, 5)
  else if first =? 0xfd then
    if len s <? 3 then Err "varint: truncated 0xfd (need 3 bytes)" else
    b ← slice s 1 3; Ok (le_val b, 3)
  else Ok (first, 1).

(** ** Connections *)
Inductive Ending := Closed | Silent.
Record Conn := { incoming : bytes; ending : Ending }.

Inductive WireError :=
| IoError (e : string) | HeaderTimeout | PayloadTimeout | MagicMismatch (got : Z) | PayloadTooLarge (n : Z)
| ChecksumMismatch (command : string) | EmptyChecksum (command : string).

Record P2PMessage := { command : string; p2p_payload : bytes }.

(** [timeout(READ_TIMEOUT, stream.read_exact(..))] *)
Definition timed_read (on_timeout : WireError) (n : Z) (c : Conn) : res WireError (bytes * Conn) :=
  if len (incoming c) <? n
  then Err (match ending c with Closed => IoError "early eof" | Silent => on_timeout end)
  else '(x, rest) ← rd n (incoming c); Ok (x, {| incoming := rest; ending := ending c |}).

(** [String::from_utf8_lossy]: a replacement character for every ill-formed part. *)
Definition REPLACEMENT : bytes := [0xef; 0xbf; 0xbd].

Fixpoint lossy (fuel : nat) (s : bytes) : bytes :=
  match fuel, s with
  | _, [] | O, _ => []
  | S fuel, _ =>
      match scan_char s with
      | Char w => take w s ++ lossy fuel (drop w s)
      | BadBytes n => REPLACEMENT ++ lossy fuel (drop (Z.to_nat n) s)
      | CutShort => REPLACEMENT
      end
  end.
Definition from_utf8_lossy (s : bytes) : string := text (lossy (length s) s).

(** [position(|&b| b == 0)], and the bytes before it *)
Fixpoint until_nul (s : bytes) : bytes :=
  match s with
  | [] => []
  | b :: s => if b =? 0 then [] else b :: until_nul s
  end.

Section wire.
Context `{C : Crypto}.

(** ** Messages *)
Definition cmd_buf (command : string) : bytes :=
  let cmd_bytes := take 12 (byte_string command) in cmd_bytes ++ zeros (12 - length cmd_bytes).

Definition checksum (payload : bytes) : bytes := take 4 (sha256d payload).

Definition wire_frame (magic : Z) (cmd payload : bytes) : bytes :=
  le_bytes 4 magic ++ cmd ++ le_bytes 4 (as_u32 (len payload)) ++ checksum payload ++ payload.

Definition make_message (magic : Z) (command : string) (payload : bytes) : bytes :=
  wire_frame magic (cmd_buf command) payload.

Definition wire_read_message (expected_magic : Z) (c : Conn) : res WireError (P2PMessage * Conn) :=
  '(header, c) ← timed_read HeaderTimeout 24 c;
  magic ← slice header 0 4;
  let magic := le_val magic in
  if negb (magic =? expected_magic) then Err (MagicMismatch magic) else
  cmd_bytes ← slice header 4 16;
  let command := from_utf8_lossy (until_nul cmd_bytes) in
  payload_len ← slice header 16 20;
  let payload_len := le_val payload_len in
  if MAX_PAYLOAD <? payload_len then Err (PayloadTooLarge payload_len) else
  expected_cs ← slice header 20 24;
  if 0 <? payload_len then
    '(payload, c) ← timed_read PayloadTimeout payload_len c;
    if negb (beqb (checksum payload) expected_cs) then Err (ChecksumMismatch command) else
    Ok ({| command := command; p2p_payload := payload |}, c)
  else
    if negb (beqb expected_cs (checksum [])) then Err (EmptyChecksum command) else
    Ok ({| command := command; p2p_payload := [] |}, c).

(** ** Payloads *)
Definition push_netaddr (port : Z) : bytes :=
  le_bytes 8 0 ++ zeros 10 ++ [0xff; 0xff] ++ zeros 4 ++ be_bytes 2 port.

(** the process and the nanoseconds since 1970 *)
Definition rand_nonce (pid nanos : Z) : Z :=
  Z.lxor (wadd64 (as_u64 (pid * 0x10000000001)) (as_u64 nanos)) 0xa5a5a5a5a5a5a5a5.

Definition build_version_payload (now pid nanos start_height port : Z) : bytes :=
  le_bytes 4 WIRE_PROTOCOL_VERSION ++ le_bytes 8 0 ++ le_bytes 8 (as_u64 now) ++ push_netaddr port ++ push_netaddr port
  ++ le_bytes 8 (rand_nonce pid nanos) ++ put_varint (len (byte_string USER_AGENT)) ++ byte_string USER_AGENT
  ++ le_bytes 4 (as_u32 start_height) ++ [0].

Definition build_getdata_payload (invs : list (Z * bytes)) : bytes :=
  put_varint (len invs) ++ concat ((fun i => le_bytes 4 i.1 ++ i.2) <$> invs).

Definition build_getheaders_payload (locator : list bytes) (hash_stop : bytes) : bytes :=
  le_bytes 4 WIRE_PROTOCOL_VERSION ++ put_varint (len locator) ++ concat locator ++ hash_stop.

(** [Vec::with_capacity(n)] for items of [size] bytes: past what the allocator can
    give, the code does not go on. *)
Definition with_capacity {E} (heap n size : Z) : res E unit := if heap <? n * size then Panic else Ok tt.

(** The loop from entry [i] at the bytes from [cur] on. Every entry takes 81 bytes
    or more, so that the length of the payload is fuel enough ([headers_fuel]). *)
Fixpoint read_headers (fuel : nat) (i count cur : Z) (rest : bytes) : res string (list bytes) :=
  if i =? count then Ok [] else
  match fuel with
  | O => Panic
  | S fuel =>
      if len rest <? 80
      then Err ("headers: truncated at entry " +:+ num i +:+ "/" +:+ num count +:+ " (need 80 bytes at offset "
                +:+ num cur +:+ ")") else
      h ← slice rest 0 80;
      rest ← slice rest 80 (len rest);
      '(_, used) ← read_varint_slice rest;
      rest ← slice rest used (len rest);
      hs ← read_headers fuel (i + 1) count (cur + 80 + used) rest;
      Ok (h :: hs)
  end.

Definition parse_headers_payload (heap : Z) (payload : bytes) : res string (list bytes) :=
  '(count, used) ← read_varint_slice payload;
  _ ← with_capacity heap count 80;
  rest ← slice payload used (len payload);
  read_headers (S (length payload)) 0 count used rest.
(** ** A session *)
Record Net := { net_name : string; magic : Z; net_port : Z; seeds : list string }.

Inductive SessionError :=
| ConnectTimeout | ConnectError (e : string) | SendVersion (e : string) | HandshakeRead (e : WireError)
| SendVerack (e : string) | SendPongHandshake (e : string) | IncompleteHandshake (version verack : bool)
| SendGetheaders (e : string) | PostGetheadersRead (e : WireError) | SendPongPost (e : string)
| BadHeaders (e : string) | NoHeaders.

Definition CONNECTED_ATTEMPTS : nat := 20.
Definition MAX_HANDSHAKE_MESSAGES : nat := 30.
Definition MAX_POST_GETHEADERS_MESSAGES : nat := 30.

Context (write_error : list bytes -> option string) (heap : Z).

(** [write_message], behind what was sent before *)
Definition write_message (net : Net) (wrap : string -> SessionError) (command : string) (payload : bytes)
    (sent : list bytes) : res SessionError (list bytes) :=
  match write_error sent with
  | Some e => Err (wrap e)
  | None => Ok (sent ++ [make_message (magic net) command payload])
  end.

Fixpoint shake_hands (net : Net) (n : nat) (got_version got_verack : bool) (sent : list bytes) (c : Conn)
    : res SessionError (bool * bool * list bytes * Conn) :=
  match n with
  | O => Ok (got_version, got_verack, sent, c)
  | S n =>
      if got_version && got_verack then Ok (got_version, got_verack, sent, c) else
      '(msg, c) ← map_err HandshakeRead (wire_read_message (magic net) c);
      if bool_decide (command msg = "version") then
        sent ← write_message net SendVerack "verack" [] sent;
        shake_hands net n true got_verack sent c
      else if bool_decide (command msg = "verack") then shake_hands net n got_version true sent c
      else if bool_decide (command msg = "ping") then
        sent ← write_message net SendPongHandshake "pong" (p2p_payload msg) sent;
        shake_hands net n got_version got_verack sent c
      else shake_hands net n got_version got_verack sent c
  end.

Fixpoint await_headers (net : Net) (n : nat) (sent : list bytes) (c : Conn) : res SessionError (list bytes) :=
  match n with
  | O => Err NoHeaders
  | S n =>
      '(msg, c) ← map_err PostGetheadersRead (wire_read_message (magic net) c);
      if bool_decide (command msg = "headers") then map_err BadHeaders (parse_headers_payload heap (p2p_payload msg))
      else if bool_decide (command msg = "ping") then
        sent ← write_message net SendPongPost "pong" (p2p_payload msg) sent;
        await_headers net n sent c
      else await_headers net n sent c
  end.

(** [try_peer] behind the connecting, whose outcome is [conn]; [vp] is the payload
    of the version message. *)
Definition try_peer_within (handshake_budget headers_budget : nat) (net : Net) (vp tip : bytes)
    (conn : res SessionError Conn) : res SessionError (list bytes) :=
  c ← conn;
  sent ← write_message net SendVersion "version" vp [];
  '(v, a, sent, c) ← shake_hands net handshake_budget false false sent c;
  if negb (v && a) then Err (IncompleteHandshake v a) else
  sent ← write_message net SendGetheaders "getheaders" (build_getheaders_payload [tip] (zeros 32)) sent;
  await_headers net headers_budget sent c.

Definition try_peer : Net -> bytes -> bytes -> res SessionError Conn -> res SessionError (list bytes) :=
  try_peer_within MAX_HANDSHAKE_MESSAGES MAX_POST_GETHEADERS_MESSAGES.

(** ** The peers of a network *)
Section peers.
Context {SocketAddr : Type} `{EqDecision SocketAddr}.
(** [lookup_host]: [None] where it fails or times out *)
Context (lookup_host : string -> option (list SocketAddr)) (session : SocketAddr -> res SessionError (list bytes)).

Definition add_new (out : list SocketAddr) (sa : SocketAddr) : list SocketAddr :=
  if bool_decide (sa ∈ out) then out else out ++ [sa].

Fixpoint discover (port : Z) (seeds : list string) (out : list SocketAddr) : list SocketAddr :=
  match seeds with
  | [] => out
  | seed :: seeds =>
      match lookup_host (seed +:+ ":" +:+ num port) with
      | None => discover port seeds out
      | Some found =>
          let out := foldl add_new out found in
          if (CONNECTED_ATTEMPTS * 2 <=? length out)%nat then out else discover port seeds out
      end
  end.

Definition discover_peers (net : Net) : res string (list SocketAddr) :=
  let out := discover (net_port net) (seeds net) [] in
  if bool_decide (out = []) then Err ("no " +:+ net_name net +:+ " peers resolved from DNS seeds") else Ok out.

(** The outcome: headers, or how many peers were tried and the last error. *)
Fixpoint try_peers (budget : nat) (attempts : Z) (last_err : option (SocketAddr * SessionError)) (peers : list SocketAddr)
    : res (Z * option (SocketAddr * SessionError)) (list bytes) :=
  match peers, budget with
  | [], _ | _, O => Err (attempts, last_err)
  | peer :: peers, S budget =>
      match session peer with
      | Ok h => Ok h
      | Err e => try_peers budget (attempts + 1) (Some (peer, e)) peers
      | Panic => Panic
      end
  end.

Definition fetch_headers (net : Net) : res string (res (Z * option (SocketAddr * SessionError)) (list bytes)) :=
  peers ← discover_peers net;
  Ok (try_peers CONNECTED_ATTEMPTS 0 None peers).
End peers.
End wire.

Definition BTC : Net := {|
  net_name := "BTC"; magic := 0xD9B4BEF9; net_port := 8333;
  seeds := ["seed.bitcoin.sipa.be"; "dnsseed.bluematt.me"; "dnsseed.bitcoin.dashjr.org"; "seed.bitcoinstats.com";
            "seed.bitnodes.io"]
|}.
Definition LTC : Net := {|
  net_name := "LTC"; magic := 0xDBB6C0FB; net_port := 9333;
  seeds := ["seed-a.litecoin.loshan.co.uk"; "dnsseed.thrasher.io"; "dnsseed.litecointools.com"; "seed.ltc.petertodd.org"]
|}.

(** ** Lemmas: integers and headers *)
Lemma len_put_varint v : 1 <= len (put_varint v) <= 9.
Proof. unfold put_varint. repeat case_match; rewrite ?len_app, ?len_le_bytes, ?len_cons, ?len_nil; lia. Qed.

Lemma read_varint_slice_put v rest : u64 v ->
  read_varint_slice (put_varint v ++ rest) = Ok (v, len (put_varint v)).
Proof.
  intros Hn. unfold u64 in Hn. unfold read_varint_slice. rewrite bool_decide_eq_false_2.
  2: { intros Hc%(f_equal len). rewrite len_app, len_nil in Hc. pose proof (len_put_varint v). pose proof (len_nonneg rest). lia. }
  unfold put_varint. destruct (v <? 0xfd) eqn:H1; [|destruct (v <=? 0xffff) eqn:H2;
    [|destruct (v <=? 0xffffffff) eqn:H3]]; rewrite <- ?app_assoc; parse_step; cbv zeta.
  - rewrite as_u8_small by lia. repeat if_lia. done.
  - repeat if_lia. parse_step. unfold as_u16. rewrite Z.mod_small by lia.
    rewrite le_val_u16 by (unfold u16; lia). done.
  - repeat if_lia. parse_step. unfold as_u32. rewrite Z.mod_small by lia.
    rewrite le_val_u32 by (unfold u32; lia). done.
  - repeat if_lia. parse_step. rewrite le_val_u64 by done. done.
Qed.

Lemma varint_slice_used s v used : read_varint_slice s = Ok (v, used) -> 1 <= used <= len s.
Proof.
  unfold read_varint_slice. intros H. invert_parser H; apply Ok_inj in H; injection H as <- <-; try lia.
  all: apply idx_Ok_inv in Heqr as [? _]; lia.
Qed.

Lemma varint_slice_total s : read_varint_slice s <> Panic.
Proof.
  unfold read_varint_slice. destruct s as [|b s]; [done|]. rewrite bool_decide_eq_false_2 by done.
  assert (0 <= 0 < len (b :: s)) by (rewrite len_cons; pose_len_nonneg; lia). no_panic.
Qed.

Lemma varint_slice_u64 s v used : wf_bytes s -> read_varint_slice s = Ok (v, used) -> u64 v.
Proof.
  unfold read_varint_slice. intros Hw H. invert_parser H; apply Ok_inj in H; injection H as <- <-.
  - exact (arr_le_val 8 _ (slice_arr _ _ _ _ 8 Hw Heqr0 eq_refl)).
  - pose proof (arr_le_val 4 _ (slice_arr _ _ _ _ 4 Hw Heqr0 eq_refl)). unfold u64. cbn in *. lia.
  - pose proof (arr_le_val 2 _ (slice_arr _ _ _ _ 2 Hw Heqr0 eq_refl)). unfold u64. cbn in *. lia.
  - pose proof (idx_u8 _ _ _ Hw Heqr) as Hb. unfold u8 in Hb. unfold u64. lia.
Qed.

(** The bytes of the rest of the payload are fuel enough. *)
Lemma headers_fuel fuel : forall i count cur rest, (length rest < fuel)%nat ->
  read_headers fuel i count cur rest <> Panic.
Proof.
  induction fuel as [|fuel IH]; intros i count cur rest Hf; [lia|]. cbn [read_headers].
  destruct (i =? count); [done|]. destruct (len rest <? 80) eqn:Hl; [done|].
  destruct (@slice_in string Z rest 0 80) as (h & -> & _); [lia | lia |]. bind_simpl.
  destruct (@slice_in string Z rest 80 (len rest)) as (r & -> & Hr); [lia | lia |]. bind_simpl.
  pose proof (varint_slice_total r). destruct (read_varint_slice r) as [[v used]| |] eqn:Hv; [|done..]. bind_simpl.
  apply varint_slice_used in Hv. destruct (@slice_in string Z r used (len r)) as (r' & -> & Hr'); [lia | lia |]. bind_simpl.
  specialize (IH (i + 1) count (cur + 80 + used) r').
  destruct (read_headers fuel _ _ _ r'); [done | done |]. unfold len in *. by apply IH; lia.
Qed.

Definition header_entries (hs : list bytes) : bytes := concat ((fun h => h ++ put_varint 0) <$> hs).
Definition headers_payload (hs : list bytes) : bytes := put_varint (len hs) ++ header_entries hs.

Lemma read_headers_entries hs : Forall (fun h => len h = 80) hs -> forall fuel i cur, (length hs <= fuel)%nat ->
  read_headers fuel i (i + len hs) cur (header_entries hs) = Ok hs.
Proof.
  induction 1 as [|h hs Hh _ IH]; intros fuel i cur Hf.
  - rewrite len_nil, Z.add_0_r. destruct fuel; cbn [read_headers]; by rewrite Z.eqb_refl.
  - destruct fuel as [|fuel]; [cbn in Hf; lia|]. cbn in Hf. rewrite len_cons. pose_len_nonneg.
    unfold header_entries in *. cbn [fmap list_fmap concat read_headers]. rewrite <- app_assoc.
    set (rest := concat _) in *. change (put_varint 0) with [0].
    replace (i =? i + (1 + len hs)) with false by lia. if_lia. parse_step. parse_step.
    change (read_varint_slice ([0] ++ rest)) with (@Ok string _ (0, 1)). bind_simpl. parse_step.
    replace (i + (1 + len hs)) with (i + 1 + len hs) by lia. rewrite IH by lia. done.
Qed.

Lemma parse_headers_total heap payload :
  parse_headers_payload heap payload = Panic <->
  exists count used, read_varint_slice payload = Ok (count, used) /\ heap < 80 * count.
Proof.
  unfold parse_headers_payload. pose proof (varint_slice_total payload) as Ht.
  destruct (read_varint_slice payload) as [[count used]| |] eqn:Hv; bind_simpl; [|split; naive_solver..].
  apply varint_slice_used in Hv. unfold with_capacity.
  destruct (heap <? count * 80) eqn:Hh; bind_simpl; [split; [intros _; exists count, used; split; [done | lia] | done]|].
  destruct (@slice_in string Z payload used (len payload)) as (rest & -> & Hr); [lia | lia |]. bind_simpl.
  split; [|intros (? & ? & [= <- <-] & ?); lia]. intros H. exfalso. eapply headers_fuel; [|exact H]. unfold len in *. lia.
Qed.

Lemma len_header_entries hs : Forall (fun h => len h = 80) hs -> len (header_entries hs) = 81 * len hs.
Proof.
  induction 1 as [|h hs Hh _ IH]; [done|]. unfold header_entries in *. cbn [fmap list_fmap concat].
  rewrite !len_app, IH, len_cons. change (len (put_varint 0)) with 1. lia.
Qed.

Lemma parse_headers_made heap hs : Forall (fun h => len h = 80) hs -> len hs < 2 ^ 64 -> 80 * len hs <= heap ->
  parse_headers_payload heap (headers_payload hs) = Ok hs.
Proof.
  intros Hhs Hl Hheap. pose proof (len_nonneg hs). unfold parse_headers_payload, headers_payload.
  rewrite read_varint_slice_put by (unfold u64; lia). bind_simpl. unfold with_capacity. if_lia. bind_simpl.
  rewrite slice_skip by lia. rewrite slice_all by len_lia. bind_simpl.
  pose proof (read_headers_entries hs Hhs (S (length (put_varint (len hs) ++ header_entries hs))) 0 (len (put_varint (len hs)))) as R.
  rewrite Z.add_0_l in R. apply R. rewrite length_app. pose proof (len_header_entries hs Hhs). unfold len in *. lia.
Qed.

(** ** Lemmas: messages *)
Section messages.
Context `{C : Crypto} {CL : CryptoLaws C}.

Lemma checksum_arr p : arr 4 (checksum p).
Proof.
  destruct (sha256d_arr p) as [Hl Hw]. unfold checksum. split; [|by apply Forall_take].
  unfold len in *. rewrite length_take. lia.
Qed.

Lemma timed_read_app e n x c rest : len x = n -> incoming c = x ++ rest ->
  timed_read e n c = Ok (x, {| incoming := rest; ending := ending c |}).
Proof.
  intros Hx Hc. unfold timed_read. rewrite Hc, len_app. pose_len_nonneg. if_lia. by rewrite rd_app.
Qed.

Lemma timed_read_inv e n c x c' : timed_read e n c = Ok (x, c') ->
  incoming c = x ++ incoming c' /\ ending c' = ending c /\ len x = n.
Proof.
  unfold timed_read. case_match; [done|]. destruct (rd n (incoming c)) as [[y r]| |] eqn:Hr; [|done..].
  bind_simpl. intros [= -> <-]. apply rd_inv in Hr as [-> Hl]. done.
Qed.

Lemma wire_header_len mg cmd p : len cmd = 12 -> len p <= MAX_PAYLOAD ->
  len (le_bytes 4 mg ++ cmd ++ le_bytes 4 (as_u32 (len p)) ++ checksum p) = 24.
Proof. intros Hc _. destruct (checksum_arr p). len_lia. Qed.

Lemma wire_read_frame mg cmd p c rest : u32 mg -> len cmd = 12 -> len p <= MAX_PAYLOAD ->
  incoming c = wire_frame mg cmd p ++ rest ->
  wire_read_message mg c =
  Ok ({| command := from_utf8_lossy (until_nul cmd); p2p_payload := p |}, {| incoming := rest; ending := ending c |}).
Proof.
  intros Hm Hcmd Hp Hc. pose proof (wire_header_len mg cmd p Hcmd Hp) as Hh. destruct (checksum_arr p) as [Hcs _].
  unfold wire_frame in Hc. set (lb := le_bytes 4 (as_u32 (len p))) in *.
  assert (len lb = 4) as Hlb by apply len_le_bytes4. set (mb := le_bytes 4 mg) in *.
  assert (len mb = 4) as Hmb by apply len_le_bytes4.
  assert (le_val lb = len p) as Hv.
  { pose proof (len_nonneg p). unfold MAX_PAYLOAD in Hp. unfold lb. rewrite as_u32_small by lia. apply le_val_u32. unfold u32. lia. }
  replace ((mb ++ cmd ++ lb ++ checksum p ++ p) ++ rest) with ((mb ++ cmd ++ lb ++ checksum p) ++ p ++ rest) in Hc
    by (by rewrite <- !app_assoc).
  unfold wire_read_message. rewrite (timed_read_app _ _ _ _ _ Hh Hc). bind_simpl. parse_step.
  replace (le_val mb) with mg by (symmetry; by apply le_val_u32). rewrite Z.eqb_refl. cbn [negb].
  parse_step. parse_step. rewrite Hv. if_lia. parse_step. destruct (0 <? len p) eqn:Hz.
  - rewrite (timed_read_app _ _ p _ rest) by done. bind_simpl. unfold beqb. by rewrite bool_decide_eq_true_2.
  - assert (p = []) as -> by (apply len_0_nil; pose proof (len_nonneg p); lia). unfold beqb.
    by rewrite bool_decide_eq_true_2.
Qed.

(** What a read took: a frame with the network's magic and a good checksum. *)
Definition framed (mg : Z) (m : P2PMessage) (raw : bytes) : Prop :=
  exists cmd, len cmd = 12 /\ command m = from_utf8_lossy (until_nul cmd) /\ len (p2p_payload m) <= MAX_PAYLOAD /\
    raw = wire_frame mg cmd (p2p_payload m).

Lemma header_parts h : len h = 24 -> exists a cmd lb cs, h = a ++ cmd ++ lb ++ cs /\
  len a = 4 /\ len cmd = 12 /\ len lb = 4 /\ len cs = 4 /\
  @slice WireError Z h 0 4 = Ok a /\ @slice WireError Z h 4 16 = Ok cmd /\
  @slice WireError Z h 16 20 = Ok lb /\ @slice WireError Z h 20 24 = Ok cs.
Proof.
  intros Hl. destruct (@slice_in WireError Z h 0 4) as (a & Ha & La); [lia..|].
  destruct (@slice_in WireError Z h 4 16) as (cmd & Hc & Lc); [lia..|].
  destruct (@slice_in WireError Z h 16 20) as (lb & Hlb & Llb); [lia..|].
  destruct (@slice_in WireError Z h 20 24) as (cs & Hcs & Lcs); [lia..|].
  exists a, cmd, lb, cs. split_and!; [| lia | lia | lia | lia | done | done | done | done].
  symmetry. eapply slice_full_inv; [|symmetry; exact Hl].
  eapply slice_cat; [exact Ha|]. eapply slice_cat; [exact Hc|]. eapply slice_cat; [exact Hlb | exact Hcs].
Qed.

Lemma le_bytes4_val x : wf_bytes x -> len x = 4 -> le_bytes 4 (le_val x) = x.
Proof. intros Hw Hl. by apply (le_bytes_val_n 4). Qed.

Lemma wire_read_inv mg c m c' : wf_bytes (incoming c) -> wire_read_message mg c = Ok (m, c') ->
  exists raw, incoming c = raw ++ incoming c' /\ framed mg m raw /\ ending c' = ending c.
Proof.
  intros Hw H. unfold wire_read_message in H.
  destruct (timed_read HeaderTimeout 24 c) as [[h c1]| |] eqn:Hr; [bind_simpl_in H | discriminate H | discriminate H].
  apply timed_read_inv in Hr as (Hc & He & Hh). rewrite Hc in Hw. apply wf_app in Hw as [Hwh Hw].
  destruct (header_parts h Hh) as (a & cmd & lb & cs & -> & La & Lc & Ll & Lcs & Sa & Sc & Sl & Scs).
  rewrite !wf_app in Hwh. destruct Hwh as (Wa & _ & Wl & _).
  rewrite Sa in H. bind_simpl_in H. destruct (le_val a =? mg) eqn:Hmg; [|discriminate H]. cbn [negb] in H.
  rewrite Sc in H. bind_simpl_in H. rewrite Sl in H. bind_simpl_in H.
  destruct (MAX_PAYLOAD <? le_val lb) eqn:Hm; [discriminate H|]. rewrite Scs in H. bind_simpl_in H.
  apply Z.eqb_eq in Hmg as <-.
  assert (exists p, incoming c1 = p ++ incoming c' /\ len p = le_val lb /\ checksum p = cs /\ ending c' = ending c1 /\
    m = {| command := from_utf8_lossy (until_nul cmd); p2p_payload := p |}) as (p & Hp & Lp & <- & He' & ->).
  { destruct (0 <? le_val lb) eqn:Hz.
    - destruct (timed_read PayloadTimeout (le_val lb) c1) as [[p c2]| |] eqn:Hr; [bind_simpl_in H | discriminate H | discriminate H].
      apply timed_read_inv in Hr as (Hp & He2 & Lp). destruct (beqb (checksum p) cs) eqn:Hk; [|discriminate H].
      apply bool_decide_eq_true in Hk. cbn in H. injection H as <- <-. by exists p.
    - destruct (beqb cs (checksum [])) eqn:Hk; [|discriminate H]. apply bool_decide_eq_true in Hk.
      cbn [negb] in H. injection H as <- <-. exists []. split_and!; [done | | done | done | done].
      pose proof (le_val_bound lb Wl). rewrite len_nil. lia. }
  exists (wire_frame (le_val a) cmd p). split_and!; [| |by rewrite He'].
  - rewrite Hc, Hp. unfold wire_frame. rewrite Lp, as_u32_small.
    + rewrite !le_bytes4_val by done. by rewrite <- !app_assoc.
    + pose proof (le_val_bound lb Wl) as Hb. rewrite Ll in Hb. cbn in Hb. lia.
  - exists cmd. cbn [command p2p_payload]. split_and!; [done | done | lia | done].
Qed.

(** ** Lemmas: sessions *)

(** [ms] were read off [c], which is now [c']. *)
Inductive reads (mg : Z) : Conn -> list P2PMessage -> Conn -> Prop :=
| reads_nil c : reads mg c [] c
| reads_cons c m c1 ms c' : wire_read_message mg c = Ok (m, c1) -> reads mg c1 ms c' -> reads mg c (m :: ms) c'.

Lemma reads_app mg c ms c1 ms' c2 : reads mg c ms c1 -> reads mg c1 ms' c2 -> reads mg c (ms ++ ms') c2.
Proof. induction 1; intros H2; [done|]. econstructor; [done | by apply IHreads]. Qed.

Lemma reads_frames mg c ms c' : reads mg c ms c' -> wf_bytes (incoming c) ->
  exists raws, incoming c = concat raws ++ incoming c' /\ Forall2 (framed mg) ms raws.
Proof.
  induction 1 as [c|c m c1 ms c' Hr _ IH]; intros Hw; [by exists []|].
  destruct (wire_read_inv _ _ _ _ Hw Hr) as (raw & Hc & Hf & _). rewrite Hc in Hw. apply wf_app in Hw as [_ Hw].
  destruct (IH Hw) as (raws & Hc1 & Hfs). exists (raw :: raws). split; [|by constructor].
  cbn [concat]. by rewrite Hc, Hc1, app_assoc.
Qed.

Context (write_error : list bytes -> option string) (heap : Z) (net : Net).

Lemma write_message_ok wrap cmd p sent sent' :
  write_message write_error net wrap cmd p sent = Ok sent' -> sent' = sent ++ [make_message (magic net) cmd p].
Proof. unfold write_message. case_match; [done|]. by intros [= <-]. Qed.

Lemma shake_hands_sound n : forall gv ga sent c v a sent' c',
  shake_hands write_error net n gv ga sent c = Ok (v, a, sent', c') ->
  exists ms, reads (magic net) c ms c' /\ (length ms <= n)%nat /\
    (v = true -> gv = true \/ "version" ∈ command <$> ms) /\ (a = true -> ga = true \/ "verack" ∈ command <$> ms).
Proof.
  induction n as [|n IH]; intros gv ga sent c v a sent' c' H; cbn [shake_hands] in H.
  { injection H as -> -> -> ->. exists []. split_and!; [constructor | cbn; lia | by left | by left]. }
  destruct (gv && ga) eqn:Hg.
  { injection H as -> -> -> ->. exists []. split_and!; [constructor | cbn; lia | by left | by left]. }
  destruct (wire_read_message (magic net) c) as [[m c1]| |] eqn:Hr; [bind_simpl_in H | discriminate H | discriminate H].
  assert (exists gv1 ga1 sent1, shake_hands write_error net n gv1 ga1 sent1 c1 = Ok (v, a, sent', c') /\
    (gv1 = true -> gv = true \/ command m = "version") /\ (ga1 = true -> ga = true \/ command m = "verack"))
    as (gv1 & ga1 & sent1 & H1 & Hv & Ha).
  { repeat case_bool_decide; try (destruct (write_message _ _ _ _ _ _) as [s1| |]; [bind_simpl_in H | discriminate H..]);
      eexists _, _, _; (split; [exact H|]); split; auto. }
  destruct (IH _ _ _ _ _ _ _ _ H1) as (ms & Hms & Hl & Hv1 & Ha1). exists (m :: ms). cbn [fmap list_fmap length].
  split_and!; [by econstructor | lia | |]; intros Ht; rewrite elem_of_cons;
    [destruct (Hv1 Ht) as [Hx|Hx]; [destruct (Hv Hx)|] | destruct (Ha1 Ht) as [Hx|Hx]; [destruct (Ha Hx)|]]; auto.
Qed.

Lemma await_headers_sound n : forall sent c hs, await_headers write_error heap net n sent c = Ok hs ->
  exists ms m c', reads (magic net) c (ms ++ [m]) c' /\ (length ms < n)%nat /\ command m = "headers" /\
    parse_headers_payload heap (p2p_payload m) = Ok hs.
Proof.
  induction n as [|n IH]; intros sent c hs H; cbn [await_headers] in H; [discriminate H|].
  destruct (wire_read_message (magic net) c) as [[m c1]| |] eqn:Hr; [bind_simpl_in H | discriminate H | discriminate H].
  destruct (decide (command m = "headers")) as [Hm|Hm].
  { rewrite bool_decide_eq_true_2 in H by done. destruct (parse_headers_payload _ _) eqn:Hp; [|discriminate H..].
    apply Ok_inj in H as <-. exists [], m, c1. cbn. split_and!; [by econstructor; [|constructor] | lia | done | done]. }
  rewrite bool_decide_eq_false_2 in H by done.
  assert (exists sent1, await_headers write_error heap net n sent1 c1 = Ok hs) as (sent1 & H1).
  { case_bool_decide; [|by eexists]. destruct (write_message _ _ _ _ _ _); [bind_simpl_in H; by eexists | discriminate H..]. }
  destruct (IH _ _ _ H1) as (ms & m' & c' & Hms & Hl & Hrest). exists (m :: ms), m', c'.
  split_and!; [by econstructor | cbn; lia | apply Hrest..].
Qed.
End messages.

(** ** Properties *)
Section properties.
Context `{C : Crypto} {CL : CryptoLaws C}.
Context (write_error : list bytes -> option string) (heap : Z) (net : Net).

Lemma handshake_then_headers n1 n2 sent c sent1 c1 sent2 hs : wf_bytes (incoming c) ->
  shake_hands write_error net n1 false false sent c = Ok (true, true, sent1, c1) ->
  await_headers write_error heap net n2 sent2 c1 = Ok hs ->
  exists ms m raws rest, incoming c = concat raws ++ rest /\ Forall2 (framed (magic net)) (ms ++ [m]) raws /\
    (length ms < n1 + n2)%nat /\ "version" ∈ command <$> ms /\ "verack" ∈ command <$> ms /\
    command m = "headers" /\ parse_headers_payload heap (p2p_payload m) = Ok hs.
Proof.
  intros Hw Hs H. destruct (shake_hands_sound _ _ _ _ _ _ _ _ _ _ _ Hs) as (ms1 & R1 & L1 & Hv & Ha).
  destruct (await_headers_sound _ _ _ _ _ _ _ H) as (ms2 & m & c' & R2 & L2 & Hm & Hp).
  destruct (Hv eq_refl) as [?|Hv']; [done|]. destruct (Ha eq_refl) as [?|Ha']; [done|].
  pose proof (reads_app _ _ _ _ _ _ R1 R2) as R. rewrite app_assoc in R.
  destruct (reads_frames _ _ _ _ R Hw) as (raws & Hc & Hf). exists (ms1 ++ ms2), m, raws, (incoming c').
  rewrite length_app, fmap_app, !elem_of_app.
  split_and!; [done | done | lia | by left | by left | done | done].
Qed.

Lemma session_within n1 n2 vp tip conn hs :
  try_peer_within write_error heap n1 n2 net vp tip conn = Ok hs ->
  exists c, conn = Ok c /\ (wf_bytes (incoming c) ->
    exists ms m raws rest, incoming c = concat raws ++ rest /\ Forall2 (framed (magic net)) (ms ++ [m]) raws /\
      (length ms < n1 + n2)%nat /\ "version" ∈ command <$> ms /\ "verack" ∈ command <$> ms /\
      command m = "headers" /\ parse_headers_payload heap (p2p_payload m) = Ok hs).
Proof.
  intros H. unfold try_peer_within in H. destruct conn as [c| |]; [bind_simpl_in H | discriminate H | discriminate H].
  exists c. split; [done|]. intros Hw.
  destruct (write_message _ _ _ _ _ []) as [s0| |]; [bind_simpl_in H | discriminate H | discriminate H].
  destruct (shake_hands _ _ _ _ _ _ _) as [[[[v a] s1] c1]| |] eqn:Hs; [bind_simpl_in H | discriminate H | discriminate H].
  destruct (v && a) eqn:Hva; [cbn [negb] in H | discriminate H]. apply andb_true_iff in Hva as [-> ->].
  destruct (write_message _ _ _ _ _ s1) as [s2| |]; [bind_simpl_in H | discriminate H | discriminate H].
  exact (handshake_then_headers _ _ _ _ _ _ _ _ Hw Hs H).
Qed.

(** C35: A session that gives headers read at most 60 messages, each a frame of the
    network with a good checksum, a [version] and a [verack] among them; the
    headers are those of the last, a [headers] message. *)
Theorem session_gives_checked_headers vp tip conn hs :
  try_peer write_error heap net vp tip conn = Ok hs ->
  exists c, conn = Ok c /\ (wf_bytes (incoming c) ->
    exists ms m raws rest, incoming c = concat raws ++ rest /\ Forall2 (framed (magic net)) (ms ++ [m]) raws /\
      (length ms < 60)%nat /\ "version" ∈ command <$> ms /\ "verack" ∈ command <$> ms /\
      command m = "headers" /\ parse_headers_payload heap (p2p_payload m) = Ok hs).
Proof. exact (session_within 30 30 vp tip conn hs). Qed.

Definition talk (mg : Z) (msgs : list (string * bytes)) : bytes :=
  concat ((fun m => make_message mg m.1 m.2) <$> msgs).

Lemma wire_read_named mg cmd p e r : u32 mg -> len (cmd_buf cmd) = 12 -> from_utf8_lossy (until_nul (cmd_buf cmd)) = cmd ->
  len p <= MAX_PAYLOAD -> wire_read_message mg {| incoming := make_message mg cmd p ++ r; ending := e |}
  = Ok ({| command := cmd; p2p_payload := p |}, {| incoming := r; ending := e |}).
Proof. intros Hm L T Hp. rewrite (wire_read_frame mg (cmd_buf cmd) p _ r) by done. by rewrite T. Qed.

Lemma cooperative_within n1 n2 vp tip their_vp hs rest e :
  u32 (magic net) -> (forall sent, write_error sent = None) -> len their_vp <= MAX_PAYLOAD ->
  Forall (fun h => len h = 80) hs -> len hs <= 400000 -> 80 * len hs <= heap ->
  try_peer_within write_error heap (S (S n1)) (S n2) net vp tip
    (Ok {| incoming := talk (magic net) [("version", their_vp); ("verack", []); ("headers", headers_payload hs)] ++ rest;
           ending := e |}) = Ok hs.
Proof.
  intros Hm Hq Hvp Hhs Hl Hheap. unfold try_peer_within, write_message. rewrite Hq. bind_simpl.
  unfold talk. cbn [fmap list_fmap concat fst snd]. rewrite app_nil_r, <- !app_assoc.
  assert (len (headers_payload hs) <= MAX_PAYLOAD).
  { unfold headers_payload. rewrite len_app, (len_header_entries hs Hhs). pose proof (len_put_varint (len hs)).
    unfold MAX_PAYLOAD. lia. }
  cbn [shake_hands andb]. rewrite wire_read_named by done. bind_simpl. cbn [command].
  rewrite bool_decide_eq_true_2 by done. unfold write_message. rewrite Hq. bind_simpl.
  rewrite wire_read_named by (first [done | unfold MAX_PAYLOAD; rewrite len_nil; lia]). bind_simpl. cbn [command].
  rewrite bool_decide_eq_false_2, bool_decide_eq_true_2 by done.
  assert (forall sent c, shake_hands write_error net n1 true true sent c = Ok (true, true, sent, c)) as -> by (by destruct n1).
  bind_simpl. cbn [negb andb]. rewrite Hq. bind_simpl. cbn [await_headers].
  rewrite wire_read_named by done. bind_simpl. cbn [command p2p_payload]. rewrite bool_decide_eq_true_2 by done.
  rewrite parse_headers_made by (first [done | lia]). done.
Qed.

(** A peer that answers with [version], [verack] and the headers, on a connection
    that takes what is written, gives these headers. *)
Theorem cooperative_peer_serves vp tip their_vp hs rest e :
  u32 (magic net) -> (forall sent, write_error sent = None) -> len their_vp <= MAX_PAYLOAD ->
  Forall (fun h => len h = 80) hs -> len hs <= 400000 -> 80 * len hs <= heap ->
  try_peer write_error heap net vp tip
    (Ok {| incoming := talk (magic net) [("version", their_vp); ("verack", []); ("headers", headers_payload hs)] ++ rest;
           ending := e |}) = Ok hs.
Proof. exact (cooperative_within 28 29 vp tip their_vp hs rest e). Qed.
End properties.

(** C36: The reader of a [headers] message asks for the memory of all the headers the
    message announces before it looks at them: it does not return exactly when
    that is more than the allocator gives. *)
Theorem headers_message_allocates heap payload :
  parse_headers_payload heap payload = Panic <->
  exists count used, read_varint_slice payload = Ok (count, used) /\ heap < 80 * count.
Proof. apply parse_headers_total. Qed.

(** Headers are read back as a peer writes them. *)
Theorem headers_read_back heap hs : Forall (fun h => len h = 80) hs -> len hs < 2 ^ 64 -> 80 * len hs <= heap ->
  parse_headers_payload heap (headers_payload hs) = Ok hs.
Proof. apply parse_headers_made. Qed.

(** ** Concrete runs *)
Definition quiet : list bytes -> option string := fun _ => None.
Definition gigabyte : Z := 2 ^ 30.
Definition sample_headers : list bytes := [replicate 80 7; replicate 80 9].
Definition sample_conn : Conn := {|
  incoming := talk (magic BTC) [("version", [1; 2]); ("verack", []); ("headers", headers_payload sample_headers)] ++ [255];
  ending := Silent
|}.

Lemma sample_headers_len : Forall (fun h => len h = 80) sample_headers.
Proof. repeat constructor. Qed.

Lemma sample_session_within :
  try_peer_within quiet gigabyte 30 30 BTC [] (zeros 32) (Ok sample_conn) = Ok sample_headers.
Proof.
  apply (cooperative_within quiet gigabyte BTC 28 29 [] (zeros 32) [1; 2] sample_headers [255] Silent);
    [vm_compute; split; congruence | done | vm_compute; congruence | apply sample_headers_len | vm_compute; congruence
    | vm_compute; congruence].
Qed.

Lemma sample_conn_wf : wf_bytes (incoming sample_conn).
Proof. apply wf_bytes_check. vm_compute. reflexivity. Qed.

Lemma session_gives_checked_headers_witness : exists ms m raws rest,
  incoming sample_conn = concat raws ++ rest /\ Forall2 (framed (magic BTC)) (ms ++ [m]) raws /\
  (length ms < 60)%nat /\ "version" ∈ command <$> ms /\ "verack" ∈ command <$> ms /\
  command m = "headers" /\ parse_headers_payload gigabyte (p2p_payload m) = Ok sample_headers.
Proof.
  destruct (session_gives_checked_headers quiet gigabyte BTC [] (zeros 32) (Ok sample_conn) sample_headers
    sample_session_within) as (c & Hc & H).
  apply Ok_inj in Hc. subst c. exact (H sample_conn_wf).
Defined.

Lemma cooperative_peer_serves_witness :
  try_peer quiet gigabyte BTC [] (zeros 32) (Ok sample_conn) = Ok sample_headers.
Proof.
  apply (cooperative_peer_serves quiet gigabyte BTC [] (zeros 32) [1; 2] sample_headers [255] Silent);
    [vm_compute; split; congruence | done | vm_compute; congruence | apply sample_headers_len | vm_compute; congruence
    | vm_compute; congruence].
Defined.

Lemma headers_read_back_witness : parse_headers_payload 160 (headers_payload sample_headers) = Ok sample_headers.
Proof. apply (headers_read_back 160 sample_headers sample_headers_len); vm_compute; congruence. Defined.

(** Nine bytes from a peer are enough: no allocator gives the memory for 2^64 - 1
    headers. *)
Example nine_bytes_bring_it_down heap : heap <= I64_MAX -> parse_headers_payload heap (replicate 9 255) = Panic.
Proof.
  intros H. apply parse_headers_total. exists U64_MAX, 9. split; [reflexivity|]. unfold I64_MAX, U64_MAX in *. lia.
Qed.

(** The text of a command that is not UTF-8 *)
Example lossy_command : from_utf8_lossy [118; 255; 101] = text ([118] ++ REPLACEMENT ++ [101]).
Proof. reflexivity. Qed.
