(* ===== verification/Reputation.v ===== *)
(** * Reputation: the standing of a peer, and the limit on requests
    ([src/src/reputation.rs], [src/src/rate_limiter.rs])

    A peer has counters and a score computed from them; a low score bans it. The
    counters are 32-bit, the score a 32-bit signed integer, both with the wrap-around
    of the release profile; times are 64-bit floats. The file of reputations is read
    at the start: the numbers [serde_json] finds in it are a [StoredReputation]. The
    writing of the file is input/output and is left out.

    The limiter of the HTTP server keeps a bucket of tokens per client.

    Shown here: scores stay between 0 and 1000 whatever happened and whatever the
    file said; what the score is worth for counters below a million, and that merely
    unreachable peers do not lose any; that what is recorded under an address with a
    port never counts against the host; which clients the limiter refuses for good. *)

From Stdlib Require Import Ascii Floats.SpecFloat.
From S2P Require Import Prelude Crypto Activation Mempool Agreement.

Open Scope string_scope.
Open Scope list_scope.
Open Scope Z_scope.

(** ** 64-bit floats: subtraction, multiplication, [floor] and [as u32] *)
Definition f64_sub (a b : f64) : f64 := SFsub 53 1024 a b.
Definition f64_mul (a b : f64) : f64 := SFmul 53 1024 a b.

(** The integer part towards minus infinity of a finite float *)
Definition f64_trunc (x : f64) : Z :=
  match x with
  | S754_finite s m e => Z.shiftl (if s then Z.neg m else Z.pos m) e
  | _ => 0
  end.
(** [x.floor() as u32]: saturating, 0 for NaN *)
Definition floor_u32 (x : f64) : Z :=
  match x with
  | S754_infinity false => U32_MAX
  | _ => Z.max 0 (Z.min U32_MAX (f64_trunc x))
  end.

(** ** Signed 32-bit integers *)
Definition I32_MAX : Z := 2147483647.
Definition as_i32 (v : Z) : Z := (v + 2 ^ 31) mod 2 ^ 32 - 2 ^ 31.

(** [str::parse::<i32>] *)
Definition parse_i32 (s : string) : option Z :=
  match s with
  | String "-" EmptyString => None
  | String "-" s' => v ← parse_digits 0 s'; if v <=? 2 ^ 31 then Some (- v) else None
  | _ => v ← parse_u64 s; if v <=? I32_MAX then Some v else None
  end.

Definition clamp (lo hi v : Z) : Z := Z.max lo (Z.min hi v).

(** ** A peer *)
Definition REPUTATION_PRUNE_AFTER_SECS : f64 := f64_of 2592000.
Definition REPUTATION_LOW_ACTIVITY_THRESHOLD : Z := 3.

(** [s.rfind(':')]: the text before and behind the last colon *)
Fixpoint rsplit_colon (s : string) : option (string * string) :=
  match s with
  | EmptyString => None
  | String c s' =>
      match rsplit_colon s' with
      | Some (a, b) => Some (String c a, b)
      | None => if bool_decide (c = ":"%char) then Some (EmptyString, s') else None
      end
  end.

Definition parse_u16 (s : string) : option Z := v ← parse_u64 s; if v <=? U16_MAX then Some v else None.

Definition normalize_peer_id (peer_id : string) : string :=
  match rsplit_colon peer_id with
  | Some (host, port) => if bool_decide (is_Some (parse_u16 port)) then host else peer_id
  | None => peer_id
  end.

Definition reputation_ban_score_threshold (env : Env) : Z :=
  from_option (clamp (-100) 100) 20 (v ← env "IRIUM_REPUTATION_BAN_SCORE_THRESHOLD"; parse_i32 v).

Record PeerReputation := {
  rp_peer_id : string; score : Z; successful_connections : Z; failed_connections : Z; dial_failures : Z;
  blocks_received : Z; invalid_blocks : Z; uptime_proofs : Z; last_seen : f64
}.

Definition new_reputation (peer_id : string) (now : f64) : PeerReputation := {|
  rp_peer_id := peer_id; score := 100; successful_connections := 0; failed_connections := 0; dial_failures := 0;
  blocks_received := 0; invalid_blocks := 0; uptime_proofs := 0; last_seen := now
|}.

(** A step of the sum, on [i32] *)
Definition weigh (score count weight : Z) : Z := as_i32 (score + as_i32 (as_i32 count * weight)).

Definition score_of_counters (r : PeerReputation) : Z :=
  let score := weigh 100 (successful_connections r) 2 in
  let score := weigh score (failed_connections r) (-5) in
  let score := weigh score (blocks_received r) 10 in
  let score := weigh score (invalid_blocks r) (-50) in
  let score := weigh score (uptime_proofs r) 5 in
  let score := if score <? 0 then 0 else score in
  if 1000 <? score then 1000 else score.

Definition set_score (v : Z) (r : PeerReputation) : PeerReputation := {|
  rp_peer_id := rp_peer_id r; score := v; successful_connections := successful_connections r;
  failed_connections := failed_connections r; dial_failures := dial_failures r; blocks_received := blocks_received r;
  invalid_blocks := invalid_blocks r; uptime_proofs := uptime_proofs r; last_seen := last_seen r
|}.

Definition update_score (r : PeerReputation) : PeerReputation := set_score (score_of_counters r) r.

Definition is_trusted (r : PeerReputation) : bool := 80 <? score r.
Definition rep_is_banned (env : Env) (r : PeerReputation) : bool := score r <? reputation_ban_score_threshold env.

Definition total_activity (r : PeerReputation) : Z :=
  sat_add32 (sat_add32 (sat_add32 (sat_add32 (sat_add32 (successful_connections r) (failed_connections r))
    (dial_failures r)) (blocks_received r)) (invalid_blocks r)) (uptime_proofs r).

Definition should_prune (r : PeerReputation) (now : f64) : bool :=
  if SFleb (last_seen r) f64_zero || SFleb now (last_seen r) then false else
  SFleb REPUTATION_PRUNE_AFTER_SECS (f64_sub now (last_seen r))
  && ((successful_connections r =? 0) || (total_activity r <=? REPUTATION_LOW_ACTIVITY_THRESHOLD)).

(** ** The peers of a node *)
Abbreviation Manager := (gmap string PeerReputation).

Inductive Counter := Success | Failure | DialFailure | ValidBlock | InvalidBlock | UptimeProof.

(** A counter raised by one, with [last_seen] *)
Definition bump (c : Counter) (now : f64) (r : PeerReputation) : PeerReputation :=
  let inc (d : Counter -> bool) v := if d c then sat_add32 v 1 else v in
  {| rp_peer_id := rp_peer_id r; score := score r;
     successful_connections := inc (fun c => match c with Success => true | _ => false end) (successful_connections r);
     failed_connections := inc (fun c => match c with Failure => true | _ => false end) (failed_connections r);
     dial_failures := inc (fun c => match c with DialFailure => true | _ => false end) (dial_failures r);
     blocks_received := inc (fun c => match c with ValidBlock => true | _ => false end) (blocks_received r);
     invalid_blocks := inc (fun c => match c with InvalidBlock => true | _ => false end) (invalid_blocks r);
     uptime_proofs := inc (fun c => match c with UptimeProof => true | _ => false end) (uptime_proofs r);
     last_seen := now |}.

(** [entry(peer_id).or_insert_with(..)] *)
Definition get_reputation (peer_id : string) (now : f64) (m : Manager) : PeerReputation :=
  from_option id (new_reputation peer_id now) (m !! peer_id).

Definition record (c : Counter) (rescore : bool) (peer_id : string) (now : f64) (m : Manager) : Manager :=
  let rep := bump c now (get_reputation peer_id now m) in
  <[peer_id := if rescore then update_score rep else rep]> m.

Definition record_success : string -> f64 -> Manager -> Manager := record Success true.
Definition record_failure : string -> f64 -> Manager -> Manager := record Failure true.
Definition record_dial_failure : string -> f64 -> Manager -> Manager := record DialFailure false.
Definition record_block (peer_id : string) (valid : bool) : f64 -> Manager -> Manager :=
  record (if valid then ValidBlock else InvalidBlock) true peer_id.
Definition record_uptime_proof : string -> f64 -> Manager -> Manager := record UptimeProof true.
Definition record_decode_error : string -> f64 -> Manager -> Manager := record InvalidBlock true.

(** A question creates the peer it asks about. *)
Definition is_banned_peer (env : Env) (peer_id : string) (now : f64) (m : Manager) : bool * Manager :=
  let rep := get_reputation peer_id now m in (rep_is_banned env rep, <[peer_id := rep]> m).
Definition score_of (peer_id : string) (now : f64) (m : Manager) : Z * Manager :=
  let rep := get_reputation peer_id now m in (score rep, <[peer_id := rep]> m).
Definition banned_count (env : Env) (m : Manager) : Z :=
  Z.of_nat (size (filter (fun kv => rep_is_banned env kv.2 = true) m)).

(** ** The file *)
Record StoredReputation := {
  st_score : option Z; st_successful : option Z; st_failed : option Z; st_dial_failures : option Z; st_blocks : option Z;
  st_invalid : option Z; st_uptime : option Z; st_last_seen : option f64
}.

Definition stored (v : option Z) : Z := as_u32 (from_option id 0 v).

Definition loaded (key : string) (now : f64) (o : StoredReputation) : PeerReputation :=
  update_score {|
    rp_peer_id := key; score := as_i32 (from_option id 100 (st_score o)); successful_connections := stored (st_successful o);
    failed_connections := stored (st_failed o); dial_failures := stored (st_dial_failures o);
    blocks_received := stored (st_blocks o); invalid_blocks := stored (st_invalid o); uptime_proofs := stored (st_uptime o);
    last_seen := from_option id now (st_last_seen o) |}.

Definition better (rep existing : PeerReputation) : bool :=
  (successful_connections existing <? successful_connections rep)
  || ((successful_connections rep =? successful_connections existing) && (score existing <? score rep)).

Definition load_one (now : f64) (m : Manager) (entry : string * option StoredReputation) : Manager :=
  match entry.2 with
  | None => m
  | Some o =>
      let key := normalize_peer_id entry.1 in
      let rep := loaded key now o in
      if should_prune rep now then m else
      match m !! key with
      | Some existing => if better rep existing then <[key := rep]> m else m
      | None => <[key := rep]> m
      end
  end.

(** The entries in the order of the file; [None] where the value is not an object. *)
Definition load (now : f64) (file : option (list (string * option StoredReputation))) : Manager :=
  foldl (load_one now) ∅ (from_option id [] file).

(** ** Requests per minute *)
Record RateLimiter := {
  requests_per_minute : Z; buckets : gmap string (Z * f64); cleanup_interval : f64; last_cleanup : f64
}.

Definition new_limiter (rpm : Z) (now : f64) : RateLimiter :=
  {| requests_per_minute := rpm; buckets := ∅; cleanup_interval := f64_of 300; last_cleanup := now |}.

Definition cleanup (now : f64) (l : RateLimiter) : RateLimiter := {|
  requests_per_minute := requests_per_minute l;
  buckets := filter (fun kv => SFleb (f64_sub now kv.2.2) (f64_of 3600) = true) (buckets l);
  cleanup_interval := cleanup_interval l; last_cleanup := now
|}.

(** The tokens a gap earns *)
Definition to_add (rpm : Z) (last now : f64) : Z :=
  floor_u32 (f64_mul (f64_sub now last) (f64_div (f64_of rpm) (f64_of 60))).

Definition set_bucket (key : string) (b : Z * f64) (l : RateLimiter) : RateLimiter := {|
  requests_per_minute := requests_per_minute l; buckets := <[key := b]> (buckets l);
  cleanup_interval := cleanup_interval l; last_cleanup := last_cleanup l
|}.

Definition is_allowed (key : string) (now : f64) (l : RateLimiter) : bool * RateLimiter :=
  let l := if SFltb (cleanup_interval l) (f64_sub now (last_cleanup l)) then cleanup now l else l in
  let '(tokens, last_update) := from_option id (requests_per_minute l, now) (buckets l !! key) in
  let tokens := Z.min (requests_per_minute l) (sat_add32 tokens (to_add (requests_per_minute l) last_update now)) in
  if 0 <? tokens then (true, set_bucket key (tokens - 1, now) l) else (false, set_bucket key (0, now) l).

(** The answers to a client that asks at these times *)
Fixpoint answers (key : string) (times : list f64) (l : RateLimiter) : list bool :=
  match times with
  | [] => []
  | now :: times => let '(ok, l) := is_allowed key now l in ok :: answers key times l
  end.

(** ** Histories *)
Inductive Op := Note (c : Counter) (peer : string) (now : f64) | Ask (peer : string) (now : f64).

Definition peer_of (o : Op) : string := match o with Note _ p _ | Ask p _ => p end.

Definition apply_op (m : Manager) (o : Op) : Manager :=
  match o with
  | Note Success p now => record_success p now m
  | Note Failure p now => record_failure p now m
  | Note DialFailure p now => record_dial_failure p now m
  | Note ValidBlock p now => record_block p true now m
  | Note InvalidBlock p now => record_block p false now m
  | Note UptimeProof p now => record_uptime_proof p now m
  | Ask p now => (score_of p now m).2
  end.

(** ** Lemmas *)
Definition in_range (r : PeerReputation) : Prop := 0 <= score r <= 1000.

Lemma update_score_range r : in_range (update_score r).
Proof. unfold in_range, update_score, score_of_counters. cbn [score set_score]. repeat case_match; lia. Qed.

Lemma get_reputation_range p now m : map_Forall (fun _ => in_range) m -> in_range (get_reputation p now m).
Proof.
  intros H. unfold get_reputation. destruct (m !! p) as [r|] eqn:Hp; cbn; [by eapply (H p) | unfold in_range; cbn; lia].
Qed.

Lemma record_range c rescore p now m : map_Forall (fun _ => in_range) m ->
  map_Forall (fun _ => in_range) (record c rescore p now m).
Proof.
  intros H. unfold record. apply map_Forall_insert_2; [|done]. destruct rescore; [apply update_score_range|].
  exact (get_reputation_range p now m H).
Qed.

Lemma load_range now file : map_Forall (fun _ => in_range) (load now file).
Proof.
  unfold load. generalize (from_option id [] file). intros l.
  enough (forall m, map_Forall (fun _ => in_range) m -> map_Forall (fun _ => in_range) (foldl (load_one now) m l)) as Hl
    by (apply Hl; apply map_Forall_empty).
  induction l as [|[k o] l IH]; intros m Hm; [done|]. cbn [foldl]. apply IH. unfold load_one. cbn [fst snd].
  destruct o as [o|]; [|done]. case_match; [done|].
  assert (in_range (loaded (normalize_peer_id k) now o)) by apply update_score_range.
  case_match; [case_match|]; [| done |]; by apply map_Forall_insert_2.
Qed.

Lemma run_range now file ops : map_Forall (fun _ => in_range) (foldl apply_op (load now file) ops).
Proof.
  enough (forall m, map_Forall (fun _ => in_range) m -> map_Forall (fun _ => in_range) (foldl apply_op m ops)) as H
    by exact (H _ (load_range now file)).
  induction ops as [|o ops IH]; intros m Hm; [done|]. cbn [foldl]. apply IH.
  destruct o as [c p t|p t]; [destruct c; by apply record_range|].
  apply map_Forall_insert_2; [by apply get_reputation_range | done].
Qed.

Lemma apply_op_other p o m : peer_of o <> p -> apply_op m o !! p = m !! p.
Proof.
  intros H. destruct o as [c q now|q now]; [destruct c|]; cbn [peer_of apply_op score_of snd] in *;
    unfold record_success, record_failure, record_dial_failure, record_block, record_uptime_proof, record;
    by rewrite lookup_insert_ne.
Qed.

Lemma as_i32_small v : - 2 ^ 31 <= v < 2 ^ 31 -> as_i32 v = v.
Proof. intros H. unfold as_i32. rewrite Z.mod_small by lia. lia. Qed.

Lemma weigh_small s c w : 0 <= c <= 1000000 -> -100 <= w <= 100 -> - 2 ^ 30 <= s <= 2 ^ 30 -> weigh s c w = s + c * w.
Proof. intros Hc Hw Hs. unfold weigh. rewrite (as_i32_small c), (as_i32_small (c * w)) by nia. apply as_i32_small. nia. Qed.

(** ** Properties *)

(** Whatever the file said and whatever was recorded since, every score is
    between 0 and 1000. *)
Theorem scores_in_range now file ops :
  map_Forall (fun _ r => 0 <= score r <= 1000) (foldl apply_op (load now file) ops).
Proof.
  exact (run_range now file ops).
Qed.

Definition counters_below (n : Z) (r : PeerReputation) : Prop :=
  Forall (fun c => 0 <= c <= n)
    [successful_connections r; failed_connections r; blocks_received r; invalid_blocks r; uptime_proofs r].

(** While no counter is above a million, a score is 100, two for a connection, ten
    for a block and five for an uptime proof, less five for a failed handshake and
    fifty for an invalid block, kept between 0 and 1000; that a peer could not be
    reached costs nothing. *)
Theorem score_is_weighted_sum r now : counters_below 1000000 r ->
  score (update_score r) = clamp 0 1000
    (100 + 2 * successful_connections r - 5 * failed_connections r + 10 * blocks_received r
     - 50 * invalid_blocks r + 5 * uptime_proofs r) /\
  score (update_score (bump DialFailure now r)) = score (update_score r).
Proof.
  intros H. unfold counters_below in H. rewrite !Forall_cons in H. destruct H as (H1 & H2 & H3 & H4 & H5 & _).
  cbn [update_score score set_score]. unfold score_of_counters, clamp.
  cbn [bump successful_connections failed_connections blocks_received invalid_blocks uptime_proofs].
  split; [|reflexivity].
  rewrite (weigh_small 100), (weigh_small (100 + _)), (weigh_small (100 + _ + _)), (weigh_small (100 + _ + _ + _)),
    (weigh_small (100 + _ + _ + _ + _)) by lia.
  set (v := 100 + _ + _ + _ + _ + _). replace (100 + 2 * _ - _ + _ - _ + _) with v by (unfold v; lia). clearbody v.
  destruct (v <? 0) eqn:?, (1000 <? v) eqn:?; cbn [Z.ltb Z.compare]; lia.
Qed.

(** What is recorded about the socket address of a connection never changes
    whether the host is banned. *)
Theorem port_hides_host env host port ops now m :
  Forall (fun o => peer_of o = host +:+ ":" +:+ port) ops ->
  (is_banned_peer env host now (foldl apply_op m ops)).1 = (is_banned_peer env host now m).1.
Proof.
  intros H. assert (forall m, foldl apply_op m ops !! host = m !! host) as Hl.
  { induction H as [|o ops Ho _ IH]; intros m'; [done|]. cbn [foldl]. rewrite IH. apply apply_op_other.
    rewrite Ho. intros Hc%(f_equal slen). rewrite !slen_app in Hc. unfold slen in Hc. cbn in Hc. lia. }
  unfold is_banned_peer, get_reputation. cbn [fst]. by rewrite Hl.
Qed.

(** With a threshold of 0 or less nobody is banned, as the setting promises. *)
Theorem bans_can_be_disabled env now file ops p t : reputation_ban_score_threshold env <= 0 ->
  (is_banned_peer env p t (foldl apply_op (load now file) ops)).1 = false.
Proof.
  intros Hth. cbn [is_banned_peer fst]. unfold rep_is_banned. apply Z.ltb_ge.
  enough (in_range (get_reputation p t (foldl apply_op (load now file) ops))) as [? _] by lia.
  apply get_reputation_range. exact (run_range now file ops).
Qed.

(** *** The limiter *)
Definition starving (rpm : Z) (gap : f64 * f64) : Prop :=
  to_add rpm gap.1 gap.2 = 0 /\ SFleb (f64_sub gap.2 gap.1) (f64_of 3600) = true.

Fixpoint gaps (last : f64) (times : list f64) : list (f64 * f64) :=
  match times with [] => [] | now :: times => (last, now) :: gaps now times end.

(** A client without tokens whose requests are each too close to the one before
    to earn a token is refused every time: the clock of its bucket starts anew with
    each refusal. *)
Theorem limiter_starves key times last l : 0 <= requests_per_minute l ->
  buckets l !! key = Some (0, last) -> Forall (starving (requests_per_minute l)) (gaps last times) ->
  answers key times l = replicate (length times) false.
Proof.
  revert last l. induction times as [|now times IH]; intros last l Hr Hb Hg; [done|]. cbn [gaps] in Hg.
  apply Forall_cons in Hg as [[H0 Hk] Hg]. cbn [fst snd] in H0, Hk. cbn [answers length replicate]. unfold is_allowed.
  set (l' := if SFltb _ _ then _ else _).
  assert (requests_per_minute l' = requests_per_minute l /\ buckets l' !! key = Some (0, last)) as [Hr' Hb'].
  { unfold l'. case_match; [|done]. split; [done|]. cbn [buckets cleanup]. by apply map_lookup_filter_Some_2. }
  rewrite Hb'. cbn [from_option id]. rewrite Hr', H0. change (sat_add32 0 0) with 0. rewrite Z.min_r by done.
  cbn [Z.ltb Z.compare]. f_equal. apply (IH now).
  - cbn. by rewrite Hr'.
  - cbn [buckets set_bucket]. by rewrite lookup_insert_eq.
  - cbn. by rewrite Hr'.
Qed.

(** ** Concrete runs *)
Definition f64_ms (ms : Z) : f64 := f64_div (f64_of ms) (f64_of 1000).

Lemma score_is_weighted_sum_witness :
  score (update_score (bump InvalidBlock (f64_of 5) (bump InvalidBlock (f64_of 5) (new_reputation "10.0.0.1" (f64_of 5))))) = 0.
Proof.
  pose proof (score_is_weighted_sum (bump InvalidBlock (f64_of 5) (bump InvalidBlock (f64_of 5) (new_reputation "10.0.0.1" (f64_of 5))))
    (f64_of 6)) as H.
  destruct H as [H _]; [repeat constructor; vm_compute; congruence|]. rewrite H. reflexivity.
Defined.

Definition no_settings : Env := fun _ => None.

Definition attack : list Op := replicate 40 (Note InvalidBlock "10.0.0.1:40000" (f64_of 5)).

Lemma port_hides_host_witness :
  (is_banned_peer no_settings "10.0.0.1" (f64_of 6) (foldl apply_op ∅ attack)).1 = false.
Proof.
  rewrite (port_hides_host no_settings "10.0.0.1" "40000" attack (f64_of 6) ∅).
  - reflexivity.
  - unfold attack. apply Forall_replicate. reflexivity.
Defined.

Definition lenient : Env := fun v => if bool_decide (v = "IRIUM_REPUTATION_BAN_SCORE_THRESHOLD") then Some "-5" else None.

Lemma bans_can_be_disabled_witness :
  (is_banned_peer lenient "10.0.0.1" (f64_of 6)
     (foldl apply_op (load (f64_of 1) None) (replicate 3 (Note InvalidBlock "10.0.0.1" (f64_of 5))))).1 = false.
Proof. apply bans_can_be_disabled. vm_compute. congruence. Defined.

(** A client with 120 requests a minute that has no tokens left and asks every
    0.4 seconds *)
Definition drained_limiter : RateLimiter := set_bucket "10.0.0.1" (0, f64_ms 0) (new_limiter 120 (f64_ms 0)).
Definition steady : list f64 := (fun k => f64_ms (400 * Z.of_nat k)) <$> seq 1 50.

Lemma limiter_starves_witness : answers "10.0.0.1" steady drained_limiter = replicate 50 false.
Proof.
  apply (limiter_starves "10.0.0.1" steady (f64_ms 0) drained_limiter).
  - vm_compute. congruence.
  - reflexivity.
  - apply (Forall_impl (fun g => bool_decide (starving 120 g) = true)); [|intros g Hg; by apply bool_decide_eq_true in Hg].
    repeat constructor; vm_compute; reflexivity.
Defined.

(** Requests 0.45 and 0.59 seconds apart in turn are 115 a minute; with a limit of
    120 half of them end up refused, as the odd gap earns no token. *)
Definition uneven : list f64 :=
  (fun k => f64_ms (520 * Z.of_nat k + (if Nat.even k then 0 else -70))) <$> seq 1 600.

Example below_the_limit_and_refused :
  length (filter (fun ok => ok = true) (drop 500 (answers "10.0.0.1" uneven (new_limiter 120 (f64_ms 0))))) = 50%nat.
Proof. vm_compute. reflexivity. Qed.
