(* ===== verification/Sybil.v ===== *)
(** * Sybil: the work a node asks of those who connect
    ([src/src/sybil.rs]; [src/src/p2p.rs], the challenge an inbound connection gets
    and what becomes of its answer)

    Who connects gets a challenge with a difficulty, finds a number that makes the
    hash of the challenge, the number and its key start with so many zero bits, and
    sends all three back. The difficulty grows with the number of banned peers.

    [solve] tries the numbers in turn; the bound of the code is fuel enough
    ([solve_finds_least]). The clock and the random bytes are parameters.

    Shown here: challenges and proofs are read back as written; the search finds the
    least number that will do or reports that none up to fifty million does; the
    difficulty that is asked for; and what is checked of an answer: the challenge it
    carries, which need not be the one that was sent. *)

From Stdlib Require Import Floats.SpecFloat.
From S2P Require Import Prelude Crypto Wire Activation Mempool Agreement Protocol Payloads.
From S2P Require Import Reputation.

Open Scope string_scope.
Open Scope list_scope.
Open Scope Z_scope.

(** ** Challenges and proofs *)
Record SybilChallenge := { ch_nonce : bytes; ch_timestamp : Z; difficulty : Z }.
Record SybilProof := { challenge : SybilChallenge; solution : Z; peer_pubkey : bytes }.

Definition challenge_to_bytes (c : SybilChallenge) : bytes :=
  ch_nonce c ++ be_bytes 8 (ch_timestamp c) ++ [difficulty c].

Definition challenge_from_bytes (data : bytes) : opt SybilChallenge :=
  if len data <? 41 then NoneR else
  nonce ← slice data 0 32;
  ts_bytes ← slice data 32 40;
  difficulty ← idx data 40;
  Ok {| ch_nonce := nonce; ch_timestamp := be_val ts_bytes; difficulty := difficulty |}.

Definition proof_to_bytes (p : SybilProof) : bytes :=
  challenge_to_bytes (challenge p) ++ be_bytes 8 (solution p) ++ peer_pubkey p.

Definition proof_from_bytes (data : bytes) : opt SybilProof :=
  if len data <? 41 + 8 then NoneR else
  head ← slice data 0 41;
  challenge ← challenge_from_bytes head;
  sol_bytes ← slice data 41 49;
  peer_pubkey ← slice data 49 (len data);
  Ok {| challenge := challenge; solution := be_val sol_bytes; peer_pubkey := peer_pubkey |}.

Definition challenge_ok (c : SybilChallenge) : Prop := arr 32 (ch_nonce c) /\ u64 (ch_timestamp c) /\ u8 (difficulty c).
Definition proof_ok (p : SybilProof) : Prop := challenge_ok (challenge p) /\ u64 (solution p) /\ wf_bytes (peer_pubkey p).

(** [str::contains] *)
Fixpoint contains (needle s : string) : bool :=
  bool_decide (is_Some (strip_prefix needle s)) || match s with EmptyString => false | String _ s' => contains needle s' end.

(** ** Work *)
(** [u8::leading_zeros] *)
Definition leading_zeros8 (b : Z) : Z := if b =? 0 then 8 else 7 - Z.log2 b.

Fixpoint leading_zero_bits (s : bytes) : Z :=
  match s with
  | [] => 0
  | b :: s => if b =? 0 then 8 + leading_zero_bits s else leading_zeros8 b
  end.

Section work.
Context `{C : Crypto}.

Definition verify (p : SybilProof) : bool := difficulty (challenge p) <=? leading_zero_bits (sha256 (proof_to_bytes p)).

Definition MAX_SOLUTION : Z := 50000000.

Definition attempt (c : SybilChallenge) (peer_pubkey : bytes) (solution : Z) : SybilProof :=
  {| challenge := c; solution := solution; peer_pubkey := peer_pubkey |}.

(** The loop from [solution] *)
Fixpoint solve_from (fuel : nat) (c : SybilChallenge) (peer_pubkey : bytes) (solution : Z) : res string SybilProof :=
  match fuel with
  | O => Panic
  | S fuel =>
      let proof := attempt c peer_pubkey solution in
      if verify proof then Ok proof else
      match checked_add64 solution 1 with
      | None => Err "solution counter overflow"
      | Some solution =>
          if MAX_SOLUTION <? solution then Err "Could not solve challenge within 50,000,000 iterations" else
          solve_from fuel c peer_pubkey solution
      end
  end.

Definition solve (c : SybilChallenge) (peer_pubkey : bytes) : res string SybilProof :=
  solve_from (Z.to_nat (MAX_SOLUTION + 1)) c peer_pubkey 0.

(** [SybilResistantHandshake]: the difficulty it was made with is for its own
    challenges; [now] is the clock in seconds, [nonce] the random bytes. *)
Definition create_challenge (difficulty : Z) (nonce : bytes) (now : Z) : SybilChallenge :=
  {| ch_nonce := nonce; ch_timestamp := now; difficulty := difficulty |}.

Definition verify_proof (now : Z) (p : SybilProof) : bool :=
  if 300 <? sat_sub now (ch_timestamp (challenge p)) then false else verify p.

(** ** An inbound connection *)
Section inbound.
Context (env : Env).

Definition parse_u8 (s : string) : option Z := v ← parse_u64 s; if v <=? U8_MAX then Some v else None.

Definition positive_u8 (name : string) (default : Z) : Z :=
  match (s ← env name; parse_u8 s) with Some v => if 0 <? v then v else default | None => default end.

Definition sybil_difficulty : Z := positive_u8 "IRIUM_SYBIL_DIFFICULTY" 8.
Definition sybil_difficulty_max : Z := positive_u8 "IRIUM_SYBIL_DIFFICULTY_MAX" 20.

Definition sybil_banned_bump (banned_count : Z) : Z :=
  let bump := from_option id 2 (s ← env "IRIUM_SYBIL_BANNED_BUMP"; parse_u8 s) in
  if bump =? 0 then 0 else Z.min banned_count bump.

Definition current_sybil_difficulty (rep : gmap string PeerReputation) : Z :=
  Z.min sybil_difficulty_max (Z.min U8_MAX (sybil_difficulty + sybil_banned_bump (as_u8 (banned_count env rep)))).

Definition inbound_difficulty (trusted_seed : bool) (rep : gmap string PeerReputation) : Z :=
  if trusted_seed then sybil_difficulty else current_sybil_difficulty rep.

(** What becomes of the answer of [addr], a port of [host]; [clock] is the time the
    reputation notes. A connection that was closed costs five failures. *)
Definition answer_challenge (host addr : string) (now : Z) (clock : f64) (answer : res string Message)
    (rep : gmap string PeerReputation) : res string bytes * gmap string PeerReputation :=
  match answer with
  | Panic => (Panic, rep)
  | Err e =>
      if contains "early eof" e
      then (Err ("early eof during sybil proof from " +:+ addr +:+ ": " +:+ e), Nat.iter 5 (record_failure host clock) rep)
      else (Err e, rep)
  | Ok msg =>
      if negb (bool_decide (msg_type msg = MT.SybilProof)) then (Err "expected sybil proof from peer", rep) else
      match proof_from_bytes (payload msg) with
      | Panic => (Panic, rep)
      | Err _ => (Err "invalid sybil proof payload", rep)
      | Ok proof =>
          if negb (verify_proof now proof) then (Err "sybil proof verification failed", record_failure host clock rep)
          else (Ok (peer_pubkey proof), record_success host clock rep)
      end
  end.
End inbound.
End work.

(** ** Lemmas *)
Lemma len_challenge c : challenge_ok c -> len (challenge_to_bytes c) = 41.
Proof.
  intros ([Hn _] & _ & _). unfold challenge_to_bytes. rewrite !len_app, Hn, len_be_bytes8, len_cons, len_nil. lia.
Qed.

Lemma wf_challenge c : challenge_ok c -> wf_bytes (challenge_to_bytes c).
Proof.
  intros ([_ Hn] & _ & Hd). unfold challenge_to_bytes. rewrite !wf_app.
  split_and!; [done | apply wf_be_bytes | by constructor].
Qed.

#[local] Hint Rewrite len_be_bytes8 : lens.

Lemma challenge_read c : challenge_ok c -> challenge_from_bytes (challenge_to_bytes c) = Ok c.
Proof.
  intros Hc. pose proof (len_challenge c Hc) as Hl. destruct Hc as ([Hn _] & Ht & _).
  unfold challenge_from_bytes. rewrite Hl. if_lia. unfold challenge_to_bytes. parse_step. parse_step. parse_step.
  rewrite be_val_bytes by done. by destruct c.
Qed.

Lemma proof_read p : proof_ok p -> proof_from_bytes (proof_to_bytes p) = Ok p.
Proof.
  intros (Hc & Hs & _). pose proof (len_challenge _ Hc) as Hl. unfold proof_from_bytes, proof_to_bytes.
  rewrite !len_app, Hl, len_be_bytes8. pose proof (len_nonneg (peer_pubkey p)). if_lia. parse_step.
  rewrite challenge_read by done. bind_simpl. parse_step. parse_step. rewrite be_val_bytes by done. by destruct p.
Qed.

Lemma challenge_inv data c : wf_bytes data -> len data = 41 -> challenge_from_bytes data = Ok c ->
  challenge_ok c /\ challenge_to_bytes c = data.
Proof.
  intros Hw Hl H. unfold challenge_from_bytes in H. invert_parser H. apply Ok_inj in H. subst c.
  pose proof (slice_arr _ _ _ _ 32 Hw Heqr eq_refl) as Hn. pose proof (slice_arr _ _ _ _ 8 Hw Heqr0 eq_refl) as Ht.
  split; [split_and!; [done | exact (be_val_bound _ _ Ht) | exact (idx_u8 _ _ _ Hw Heqr1)]|].
  unfold challenge_to_bytes. cbn [ch_nonce ch_timestamp difficulty]. rewrite (be_bytes_val 8) by done.
  apply (idx_slice _ _ 41) in Heqr1; [|done]. eapply slice_full_inv; [|symmetry; exact Hl].
  eapply slice_cat; [exact Heqr|]. eapply slice_cat; [exact Heqr0 | exact Heqr1].
Qed.

Lemma proof_inv data p : wf_bytes data -> proof_from_bytes data = Ok p -> proof_ok p /\ proof_to_bytes p = data.
Proof.
  intros Hw H. unfold proof_from_bytes in H. invert_parser H. apply Ok_inj in H. subst p.
  destruct (challenge_inv _ _ (proj2 (slice_arr _ _ _ _ 41 Hw Heqr eq_refl)) (slice_Ok_len _ _ _ _ Heqr) Heqr0) as [Hc Hb].
  pose proof (slice_arr _ _ _ _ 8 Hw Heqr1 eq_refl) as Hs.
  split; [split_and!; [done | exact (be_val_bound _ _ Hs) | exact (proj2 (slice_arr _ _ _ _ _ Hw Heqr2 eq_refl))]|].
  unfold proof_to_bytes. cbn [challenge solution peer_pubkey]. rewrite Hb, (be_bytes_val 8) by done.
  eapply slice_full_inv; [|reflexivity]. eapply slice_cat; [exact Heqr|]. eapply slice_cat; [exact Heqr1 | exact Heqr2].
Qed.

Section work_lemmas.
Context `{C : Crypto}.

Lemma leading_zero_bits_nonneg s : wf_bytes s -> 0 <= leading_zero_bits s.
Proof.
  induction 1 as [|b s Hb _ IH]; [done|]. cbn [leading_zero_bits]. case_match; [lia|]. unfold leading_zeros8.
  case_match; [lia|]. unfold u8 in Hb. assert (Z.log2 b < 8) by (apply Z.log2_lt_pow2; lia). lia.
Qed.

Lemma solve_from_least fuel c key : forall n, 0 <= n -> n + Z.of_nat fuel = MAX_SOLUTION + 1 -> (0 < fuel)%nat ->
  match solve_from fuel c key n with
  | Ok p => exists k, n <= k <= MAX_SOLUTION /\ p = attempt c key k /\ verify p = true /\
      forall j, n <= j < k -> verify (attempt c key j) = false
  | Err e => e = "Could not solve challenge within 50,000,000 iterations" /\
      forall j, n <= j <= MAX_SOLUTION -> verify (attempt c key j) = false
  | Panic => False
  end.
Proof.
  induction fuel as [|fuel IH]; intros n Hn Hf H0; [lia|]. cbn [solve_from]. unfold MAX_SOLUTION in *.
  destruct (verify (attempt c key n)) eqn:Hv.
  - exists n. split_and!; [lia | lia | done | done | lia].
  - unfold checked_add64, U64_MAX. if_lia. destruct (50000000 <? n + 1) eqn:Hm.
    + split; [done|]. intros j Hj. by replace j with n by lia.
    + specialize (IH (n + 1) ltac:(lia) ltac:(lia) ltac:(lia)). destruct (solve_from _ _ _ _); [| |done].
      * destruct IH as (k & Hk & -> & Hvk & Hj). exists k. split_and!; [lia | lia | done | done |].
        intros j ?. destruct (decide (j = n)) as [->|]; [done | apply Hj; lia].
      * destruct IH as [-> Hj]. split; [done|]. intros j ?. destruct (decide (j = n)) as [->|]; [done | apply Hj; lia].
Qed.
End work_lemmas.

Lemma parse_digits_nonneg s : forall acc v, 0 <= acc -> parse_digits acc s = Some v -> 0 <= v.
Proof.
  induction s as [|c s IH]; intros acc v Ha H; cbn [parse_digits] in H; [injection H as <-; done|].
  destruct (digit c) as [d|] eqn:Hd; [cbn [mbind option_bind] in H | discriminate H].
  assert (0 <= d) by (unfold digit in Hd; cbv zeta in Hd; destruct (_ && _) eqn:?; simplify_eq; lia).
  destruct (10 * acc + d <=? U64_MAX); [|discriminate H]. eapply IH; [|exact H]. lia.
Qed.

Lemma parse_u64_nonneg s v : parse_u64 s = Some v -> 0 <= v.
Proof.
  intros H. unfold parse_u64 in H. repeat case_match; simplify_eq;
    first [by eapply (parse_digits_nonneg _ 0); [|eassumption] | done].
Qed.

(** ** Properties *)

(** Bytes are read as a proof exactly when they are the form of that proof, and
    reading never panics. *)
Theorem proof_codec_exact data p : wf_bytes data ->
  proof_from_bytes data = Ok p <-> proof_ok p /\ proof_to_bytes p = data.
Proof.
  intros Hw. split; [by apply proof_inv|]. intros [Hp <-]. by apply proof_read.
Qed.

Section properties.
Context `{C : Crypto} {CL : CryptoLaws C}.

(** C39: The search gives the least number from 0 to fifty million that has the work, or
    reports that none has; it ends, and its counter does not overflow. *)
Theorem solve_finds_least c key :
  match solve c key with
  | Ok p => exists k, 0 <= k <= MAX_SOLUTION /\ p = attempt c key k /\ verify p = true /\
      forall j, 0 <= j < k -> verify (attempt c key j) = false
  | Err e => e = "Could not solve challenge within 50,000,000 iterations" /\
      forall j, 0 <= j <= MAX_SOLUTION -> verify (attempt c key j) = false
  | Panic => False
  end.
Proof. apply solve_from_least; unfold MAX_SOLUTION; lia. Qed.

(** An answer that is accepted is a proof with the work its own challenge states,
    not older than five minutes by its own clock; the host is noted a success. *)
Theorem accepted_answer_has_stated_work host addr now clock msg rep key rep' : sendable msg ->
  answer_challenge host addr now clock (Ok msg) rep = (Ok key, rep') ->
  exists p, payload msg = proof_to_bytes p /\ key = peer_pubkey p /\
    difficulty (challenge p) <= leading_zero_bits (sha256 (payload msg)) /\ now - ch_timestamp (challenge p) <= 300 /\
    rep' = record_success host clock rep.
Proof.
  intros [Hw _] H. cbn [answer_challenge] in H. destruct (bool_decide _); cbn [negb] in H; [|discriminate H].
  destruct (proof_from_bytes (payload msg)) as [p| |] eqn:Hp; [|discriminate H..].
  destruct (verify_proof now p) eqn:Hv; cbn [negb] in H; [|discriminate H]. injection H as <- <-.
  apply proof_inv in Hp as [Hok Hb]; [|done]. unfold verify_proof in Hv.
  destruct (300 <? sat_sub now (ch_timestamp (challenge p))) eqn:Ha; [discriminate Hv|]. unfold sat_sub in Ha.
  exists p. rewrite <- Hb. split_and!; [done | done | | lia | done]. unfold verify in Hv. lia.
Qed.

(** The answer for a key that costs no work *)
Definition free_answer (key : bytes) : Message := {|
  msg_type := MT.SybilProof;
  payload := proof_to_bytes (attempt {| ch_nonce := zeros 32; ch_timestamp := U64_MAX; difficulty := 0 |} key 0)
|}.

(** C34: For every key there is an answer without any work that is accepted of every
    host at every time, whatever difficulty was asked for. *)
Theorem no_work_needed host addr now clock rep key : wf_bytes key -> u64 now ->
  answer_challenge host addr now clock (Ok (free_answer key)) rep = (Ok key, record_success host clock rep).
Proof.
  intros Hk Hn. cbn [answer_challenge free_answer msg_type payload].
  rewrite bool_decide_eq_true_2 by done. cbn [negb]. rewrite proof_read.
  - unfold verify_proof, attempt. cbn [challenge ch_timestamp]. unfold u64 in Hn. unfold sat_sub, U64_MAX.
    if_lia. unfold verify. cbn [challenge difficulty].
    set (x := proof_to_bytes _). pose proof (leading_zero_bits_nonneg (sha256 x) (proj2 (sha256_arr x))).
    replace (0 <=? leading_zero_bits (sha256 x)) with true by lia. done.
  - split; [split_and!|split]; cbn [challenge attempt ch_nonce ch_timestamp difficulty solution peer_pubkey];
      [apply arr_check; reflexivity | vm_compute; split; congruence.. | done].
Qed.

(** The difficulty that is asked for is at least one bit and fits its byte; for a
    host that is not trusted it stays at most the configured maximum, and with the
    defaults it is 8 bits and up to two more for banned peers. *)
Theorem difficulty_asked env rep :
  1 <= inbound_difficulty env true rep <= U8_MAX /\
  1 <= inbound_difficulty env false rep <= sybil_difficulty_max env /\
  sybil_difficulty_max env <= U8_MAX /\
  inbound_difficulty (fun _ => None) false rep = 8 + Z.min 2 (as_u8 (banned_count (fun _ => None) rep)).
Proof.
  assert (forall name d, 1 <= d <= U8_MAX -> 1 <= positive_u8 env name d <= U8_MAX) as Hp.
  { intros name d Hd. unfold positive_u8. destruct (env name) as [s|]; cbn; [|done].
    unfold parse_u8. destruct (parse_u64 s) as [v|]; cbn; [|done]. destruct (v <=? U8_MAX) eqn:?; [|done].
    destruct (0 <? v) eqn:?; [lia|done]. }
  assert (1 <= sybil_difficulty env <= U8_MAX) by (apply Hp; unfold U8_MAX; lia).
  assert (1 <= sybil_difficulty_max env <= U8_MAX) by (apply Hp; unfold U8_MAX; lia).
  assert (forall e r, 0 <= as_u8 (banned_count e r) < 256) as Hb by (intros; unfold as_u8; apply Z.mod_pos_bound; lia).
  assert (forall n, 0 <= n -> 0 <= sybil_banned_bump env n) as Hbump.
  { intros n Hn. unfold sybil_banned_bump. destruct (env _) as [s|]; cbn; [|lia].
    unfold parse_u8. destruct (parse_u64 s) as [v|] eqn:Hv; cbn; [|lia].
    pose proof (parse_u64_nonneg s v Hv). destruct (v <=? U8_MAX); cbn; repeat case_match; lia. }
  pose proof (Hbump _ (proj1 (Hb env rep))). unfold inbound_difficulty, current_sybil_difficulty, U8_MAX in *.
  split_and!; [lia | lia | lia | lia | lia |].
  pose proof (Hb (fun _ => None) rep). unfold sybil_difficulty_max, sybil_difficulty, sybil_banned_bump, positive_u8. cbn -[as_u8 banned_count Z.min]. lia.
Qed.
End properties.

(** ** Concrete runs *)
Definition sample_challenge : SybilChallenge := {| ch_nonce := replicate 32 3; ch_timestamp := 1000; difficulty := 1 |}.
Definition sample_key : bytes := replicate 32 5.

Definition sample_proof : SybilProof :=
  match solve_from 20 sample_challenge sample_key 0 with Ok p => p | _ => attempt sample_challenge sample_key 0 end.

Lemma sample_proof_ok : proof_ok sample_proof.
Proof. apply (bool_decide_unpack _). vm_compute. exact I. Qed.

Lemma proof_codec_exact_witness : proof_from_bytes (proof_to_bytes sample_proof) = Ok sample_proof.
Proof.
  apply (proof_codec_exact (proof_to_bytes sample_proof) sample_proof).
  - wf_compute.
  - split; [exact sample_proof_ok | reflexivity].
Defined.

Definition sample_answer : Message := {| msg_type := MT.SybilProof; payload := proof_to_bytes sample_proof |}.

Lemma accepted_answer_has_stated_work_witness : exists p,
  payload sample_answer = proof_to_bytes p /\ sample_key = peer_pubkey p /\
  difficulty (challenge p) <= leading_zero_bits (sha256 (payload sample_answer)) /\
  1200 - ch_timestamp (challenge p) <= 300 /\
  record_success "10.0.0.1" (f64_of 1200) ∅ = record_success "10.0.0.1" (f64_of 1200) ∅.
Proof.
  apply (accepted_answer_has_stated_work "10.0.0.1" "10.0.0.1:40000" 1200 (f64_of 1200) sample_answer ∅ sample_key
    (record_success "10.0.0.1" (f64_of 1200) ∅)).
  - split; [wf_compute | vm_compute; congruence].
  - reflexivity.
Defined.

Lemma no_work_needed_witness :
  answer_challenge "10.0.0.1" "10.0.0.1:40000" 4000000000 (f64_of 5) (Ok (free_answer sample_key)) ∅
  = (Ok sample_key, record_success "10.0.0.1" (f64_of 5) ∅).
Proof. apply no_work_needed; [wf_compute | vm_compute; split; congruence]. Defined.

(** The bump is taken from the low byte of the number of banned peers: with 255 of
    them the difficulty is 10, with 256 it is back at 8. *)
Example bump_wraps :
  (sybil_banned_bump (fun _ => None) (as_u8 255), sybil_banned_bump (fun _ => None) (as_u8 256)) = (2, 0).
Proof. reflexivity. Qed.
