(* ===== verification/Peers.v ===== *)
(** * Peers: whom a node talks to, and what it has seen lately
    ([src/src/p2p.rs])

    A host whose handshakes keep failing is banned for a while; a host that could
    not be reached is left alone for a time that doubles with every failure; a host
    is dialled once at a time. [RecentHashCache] remembers the hashes of blocks and
    headers that were passed on, so that none is passed on twice in a row.

    Times are nanoseconds of a clock that does not go back; a host is an element of
    [IP]. [is_banned] and [record_handshake_failure] are calls under the lock of
    their map, the unit of interleaving of these tasks. Telemetry counters are not
    modelled.

    Shown here: when bans are made and how long they last; that a host is dialled
    once at a time and when it is dialled again; that the cache is its recent
    entries, no more of them than its limit and no two of one hash. *)

From Stdlib Require Import Ascii Sorting.Sorted.
From S2P Require Import Prelude Activation Agreement.
From S2P Require Import Reputation Sybil.

Open Scope string_scope.
Open Scope list_scope.
Open Scope Z_scope.

Definition SEC : Z := 1000000000.

(** [now.duration_since(then)]: 0 where it would be negative *)
Definition duration_since (now since : Z) : Z := sat_sub now since.

(** ** Settings *)
Section settings.
Context (env : Env).

(** [env::var(name).ok().and_then(|v| v.parse().ok()).unwrap_or(d).clamp(lo, hi)],
    for a type with values up to [max] *)
Definition setting (max : Z) (name : string) (d lo hi : Z) : Z :=
  clamp lo hi (from_option id d (s ← env name; v ← parse_u64 s; if v <=? max then Some v else None)).

Definition outbound_dial_base_secs : Z := setting U64_MAX "IRIUM_SEED_DIAL_BASE_SECS" 2 1 30.
Definition outbound_dial_max_secs : Z := setting U64_MAX "IRIUM_SEED_DIAL_MAX_SECS" 300 30 3600.
Definition outbound_dial_banned_secs : Z := setting U64_MAX "IRIUM_SEED_DIAL_BANNED_SECS" 120 30 7200.
Definition dynamic_ban_secs : Z := setting U64_MAX "IRIUM_P2P_TEMP_BAN_SECS" 120 30 3600.
Definition small_network_peer_floor : Z := setting U64_MAX "IRIUM_P2P_SMALL_NETWORK_PEERS" 12 2 64.
Definition small_network_handshake_fail_threshold : Z :=
  setting U32_MAX "IRIUM_P2P_SMALL_NETWORK_HANDSHAKE_FAIL_THRESHOLD" 10 5 50.
Definition handshake_fail_window : Z := 60 * SEC.
Definition handshake_fail_threshold : Z := 5.
Definition recent_block_cache_ttl : Z := setting U64_MAX "IRIUM_P2P_RECENT_BLOCK_TTL_SECS" 30 5 300 * SEC.
Definition recent_block_cache_limit : Z := setting U64_MAX "IRIUM_P2P_RECENT_BLOCK_CACHE_LIMIT" 256 32 4096.

(** ** Hosts *)
Section hosts.
Context {IP : Type} `{Countable IP} (ip_text : IP -> string).

Record Gate := {
  failures : gmap IP (Z * Z); dynamic_bans : gmap IP Z; inflight : gset IP; backoff : gmap IP (Z * Z)
}.

Definition no_hosts : Gate := {| failures := ∅; dynamic_bans := ∅; inflight := ∅; backoff := ∅ |}.

Definition set_failures (f : gmap IP (Z * Z)) (g : Gate) : Gate :=
  {| failures := f; dynamic_bans := dynamic_bans g; inflight := inflight g; backoff := backoff g |}.
Definition set_bans (b : gmap IP Z) (g : Gate) : Gate :=
  {| failures := failures g; dynamic_bans := b; inflight := inflight g; backoff := backoff g |}.
Definition set_inflight (i : gset IP) (g : Gate) : Gate :=
  {| failures := failures g; dynamic_bans := dynamic_bans g; inflight := i; backoff := backoff g |}.
Definition set_backoff (b : gmap IP (Z * Z)) (g : Gate) : Gate :=
  {| failures := failures g; dynamic_bans := dynamic_bans g; inflight := inflight g; backoff := b |}.

(** *** Bans *)

(** The counter of the failure at [now] *)
Definition next_failure (prev : option (Z * Z)) (now : Z) : Z * Z :=
  match prev with
  | Some (count, first) =>
      if duration_since now first <=? handshake_fail_window then (sat_add32 count 1, first) else (1, now)
  | None => (1, now)
  end.

Definition fail_threshold (connected_peers : Z) : Z :=
  if connected_peers <? small_network_peer_floor then small_network_handshake_fail_threshold else handshake_fail_threshold.

Definition record_handshake_failure (ip : IP) (trusted_seed : bool) (connected_peers now : Z) (g : Gate) : Z * bool * Gate :=
  let entry := next_failure (failures g !! ip) now in
  let g := set_failures (<[ip := entry]> (failures g)) g in
  if negb trusted_seed && (fail_threshold connected_peers <=? entry.1)
  then (entry.1, true,
        set_failures (delete ip (failures g)) (set_bans (<[ip := now + dynamic_ban_secs * SEC]> (dynamic_bans g)) g))
  else (entry.1, false, g).

Definition is_banned_ip (ip : IP) (static_bans : gset IP) (now : Z) (g : Gate) : bool * Gate :=
  if bool_decide (ip ∈ static_bans) then (true, g) else
  match dynamic_bans g !! ip with
  | Some until => if now <? until then (true, g) else (false, set_bans (delete ip (dynamic_bans g)) g)
  | None => (false, g)
  end.

Definition is_banned (ip : IP) (static_bans trusted : gset IP) (now : Z) (g : Gate) : bool * Gate :=
  if bool_decide (ip ∈ static_bans) then (true, g) else
  if bool_decide (ip ∈ trusted) then (false, g) else is_banned_ip ip static_bans now g.

(** *** Dialling *)
Definition backing_off (ip : IP) (now : Z) (g : Gate) : bool :=
  match backoff g !! ip with Some (_, until) => now <? until | None => false end.

Definition outbound_dial_allowed (ip : IP) (static_bans trusted connected : gset IP) (now : Z) (g : Gate) : bool * Gate :=
  let '(banned, g) := is_banned ip static_bans trusted now g in
  (negb banned && negb (bool_decide (ip ∈ inflight g)) && negb (backing_off ip now g) && negb (bool_decide (ip ∈ connected)), g).

Definition begin_outbound_dial (ip : IP) (static_bans trusted connected : gset IP) (now : Z) (g : Gate)
    : res string unit * Gate :=
  let '(banned, g) := is_banned ip static_bans trusted now g in
  if banned then (Err ("peer " +:+ ip_text ip +:+ " is banned (banlist)"), g) else
  if bool_decide (ip ∈ connected) then (Err "already connected", g) else
  if backing_off ip now g then (Err "dial backoff", g) else
  if bool_decide (ip ∈ inflight g) then (Err "dial in progress", g) else
  (Ok tt, set_inflight ({[ip]} ∪ inflight g) g).

(** [OutboundDialGuard::drop] *)
Definition end_dial (ip : IP) (g : Gate) : Gate := set_inflight (inflight g ∖ {[ip]}) g.

Definition record_outbound_dial_success (ip : IP) (g : Gate) : Gate := set_backoff (delete ip (backoff g)) g.

Definition classify_outbound_dial_failure (err : string) : string :=
  let lower := to_ascii_lowercase err in
  if contains "dial backoff" lower || contains "dial in progress" lower then "backoff"
  else if contains "timeout" lower then "timeout"
  else if contains "connection refused" lower || contains "refused" lower then "refused"
  else if contains "no route to host" lower then "no_route"
  else if contains "banned" lower then "banned"
  else "other".

(** [2u64.saturating_pow] for exponents up to 10, the saturating product *)
Definition backoff_secs (fails : Z) : Z :=
  Z.min (sat_mul64 outbound_dial_base_secs (2 ^ Z.min fails 10)) outbound_dial_max_secs.

Definition record_outbound_dial_failure (ip : IP) (err : string) (now : Z) (g : Gate) : Gate :=
  if contains "trusted seed: prefer inbound" err
  then set_backoff (<[ip := (1, now + outbound_dial_banned_secs * SEC)]> (backoff g)) g
  else
    let next := sat_add32 (from_option fst 0 (backoff g !! ip)) 1 in
    let secs := if contains "banned" err then outbound_dial_banned_secs else backoff_secs next in
    set_backoff (<[ip := (next, now + secs * SEC)]> (backoff g)) g.
End hosts.
End settings.

(** ** Recent hashes *)
Record RecentHashCache := { ttl : Z; limit : Z; seen_at : gmap bytes Z; order : list (bytes * Z) }.

Definition new_cache (ttl limit : Z) : RecentHashCache := {| ttl := ttl; limit := limit; seen_at := ∅; order := [] |}.

(** The loop of [prune], over the queue *)
Fixpoint prune_loop (ttl limit now : Z) (seen_at : gmap bytes Z) (order : list (bytes * Z)) : gmap bytes Z * list (bytes * Z) :=
  match order with
  | [] => (seen_at, [])
  | (hash, seen) :: rest =>
      if negb (ttl <? duration_since now seen) && negb (limit <? len order) then (seen_at, order) else
      prune_loop ttl limit now (if bool_decide (seen_at !! hash = Some seen) then delete hash seen_at else seen_at) rest
  end.

Definition prune (now : Z) (c : RecentHashCache) : RecentHashCache :=
  let '(seen_at, order) := prune_loop (ttl c) (limit c) now (seen_at c) (order c) in
  {| ttl := ttl c; limit := limit c; seen_at := seen_at; order := order |}.

Definition record_at (hash : bytes) (now : Z) (c : RecentHashCache) : bool * RecentHashCache :=
  let c := prune now c in
  if bool_decide (is_Some (seen_at c !! hash)) then (false, c) else
  (true, prune now {| ttl := ttl c; limit := limit c; seen_at := <[hash := now]> (seen_at c);
                      order := order c ++ [(hash, now)] |}).

(** ** Lemmas: the cache *)
Definition fresh (ttl now : Z) (e : bytes * Z) : bool := duration_since now e.2 <=? ttl.

(** What the cache is to be: of its entries the last [limit], those that are not
    too old. *)
Definition recent (ttl limit now : Z) (l : list (bytes * Z)) : list (bytes * Z) :=
  List.filter (fresh ttl now) (drop (length l - Z.to_nat limit) l).

Definition in_order (now : Z) (l : list (bytes * Z)) : Prop := StronglySorted Z.le (l.*2) /\ Forall (fun e => e.2 <= now) l.

Record cache_ok (c : RecentHashCache) : Prop := {
  cache_nodup : NoDup (order c).*1;
  cache_map : forall h t, seen_at c !! h = Some t <-> (h, t) ∈ order c
}.

Lemma in_order_tail now e l : in_order now (e :: l) -> in_order now l.
Proof.
  intros [Hs Hf]. cbn in Hs. apply StronglySorted_inv in Hs as [Hs _]. by apply Forall_cons in Hf as [_ Hf].
Qed.

Lemma in_order_later now now' l : in_order now l -> now <= now' -> in_order now' l.
Proof. intros [Hs Hf] Hn. split; [done|]. eapply Forall_impl; [exact Hf|]. cbn. lia. Qed.

Lemma fresh_filter ttl now e l : fresh ttl now e = true -> in_order now (e :: l) -> List.filter (fresh ttl now) (e :: l) = e :: l.
Proof.
  intros He [Hs Hf]. cbn in Hs. apply StronglySorted_inv in Hs as [_ Hle]. cbn [List.filter]. rewrite He. f_equal.
  clear Hf. induction l as [|e' l IH]; [done|]. cbn in Hle. apply Forall_cons in Hle as [Hh Hle]. cbn [List.filter].
  replace (fresh ttl now e') with true; [by rewrite IH|]. unfold fresh, duration_since, sat_sub in *. lia.
Qed.

Lemma recent_pop ttl limit now e l :
  0 <= limit -> fresh ttl now e = false \/ limit < len (e :: l) -> recent ttl limit now (e :: l) = recent ttl limit now l.
Proof.
  intros Hl H. unfold recent. rewrite len_cons in H. unfold len in H. cbn [length].
  destruct (decide (Z.of_nat (length l) < limit)).
  - replace (S (length l) - Z.to_nat limit)%nat with 0%nat by lia.
    replace (length l - Z.to_nat limit)%nat with 0%nat by lia. rewrite !drop_0. cbn [List.filter].
    destruct H as [->|]; [done | lia].
  - by replace (S (length l) - Z.to_nat limit)%nat with (S (length l - Z.to_nat limit)) by lia.
Qed.

Lemma prune_loop_recent ttl limit now l : 0 <= limit -> in_order now l -> forall m,
  (prune_loop ttl limit now m l).2 = recent ttl limit now l.
Proof.
  intros Hl. induction l as [|[h t] l IH]; intros Ho m; [done|]. cbn [prune_loop].
  destruct (ttl <? duration_since now t) eqn:He; cbn [negb andb].
  - rewrite recent_pop; [apply IH; by eapply in_order_tail | done | left]. unfold fresh. cbn [snd]. lia.
  - destruct (limit <? len ((h, t) :: l)) eqn:Hlim; cbn [negb].
    + rewrite recent_pop; [apply IH; by eapply in_order_tail | done | right; lia].
    + cbn [snd]. unfold recent. unfold len in Hlim.
      replace (length ((h, t) :: l) - Z.to_nat limit)%nat with 0%nat by lia. rewrite drop_0.
      symmetry. apply fresh_filter; [unfold fresh; cbn [snd]; lia | done].
Qed.

Lemma prune_loop_map ttl limit now l : forall m, NoDup l.*1 -> (forall h t, m !! h = Some t <-> (h, t) ∈ l) ->
  let '(m', l') := prune_loop ttl limit now m l in NoDup l'.*1 /\ forall h t, m' !! h = Some t <-> (h, t) ∈ l'.
Proof.
  induction l as [|[h t] l IH]; intros m Hn Hm; [done|]. cbn [prune_loop]. destruct (negb _ && negb _); [done|].
  pose proof Hn as Hn'. cbn in Hn'. apply NoDup_cons in Hn' as [Hh Hn'].
  rewrite bool_decide_eq_true_2 by (apply Hm; by left). apply IH; [done|]. intros h' t'.
  destruct (decide (h' = h)) as [->|Hne].
  - rewrite lookup_delete_eq. split; [done|]. intros Hin. exfalso. apply Hh. apply list_elem_of_fmap. by exists (h, t').
  - rewrite lookup_delete_ne by done. rewrite Hm, elem_of_cons. split; [|auto]. intros [[= -> ->]|]; done.
Qed.

Lemma prune_ok now c : cache_ok c -> cache_ok (prune now c).
Proof.
  intros [Hn Hm]. unfold prune. pose proof (prune_loop_map (ttl c) (limit c) now (order c) (seen_at c) Hn Hm) as H.
  destruct (prune_loop _ _ _ _ _) as [m l]. by destruct H.
Qed.

Lemma prune_order now c : 0 <= limit c -> in_order now (order c) -> order (prune now c) = recent (ttl c) (limit c) now (order c).
Proof.
  intros Hl Ho. unfold prune. pose proof (prune_loop_recent (ttl c) (limit c) now (order c) Hl Ho (seen_at c)) as H.
  by destruct (prune_loop _ _ _ _ _).
Qed.

Lemma prune_settings now c : ttl (prune now c) = ttl c /\ limit (prune now c) = limit c.
Proof. unfold prune. by destruct (prune_loop _ _ _ _ _). Qed.

Lemma in_cache c h : cache_ok c -> is_Some (seen_at c !! h) <-> h ∈ (order c).*1.
Proof.
  intros [_ Hm]. rewrite list_elem_of_fmap. split.
  - intros [t Ht]. apply Hm in Ht. by exists (h, t).
  - intros ([h' t] & -> & Hin). exists t. by apply Hm.
Qed.

Lemma Forall_sub {A} (P : A -> Prop) l' l : l' `sublist_of` l -> Forall P l -> Forall P l'.
Proof. induction 1; rewrite ?Forall_cons; naive_solver. Qed.

Lemma in_order_sub now l l' : l' `sublist_of` l -> in_order now l -> in_order now l'.
Proof.
  intros Hs [Ho Hf]. split; [|by eapply Forall_sub]. clear Hf.
  induction Hs as [|x l1 l2 Hs IH|x l1 l2 Hs IH]; cbn in *; [done | |];
    apply StronglySorted_inv in Ho as [Ho Hx]; [|by apply IH].
  constructor; [by apply IH|]. rewrite Forall_fmap in *. by eapply Forall_sub.
Qed.

Lemma recent_sub ttl limit now l : recent ttl limit now l `sublist_of` l.
Proof.
  unfold recent. transitivity (drop (length l - Z.to_nat limit) l); [|apply sublist_drop].
  generalize (drop (length l - Z.to_nat limit) l). intros k. induction k as [|e k IH]; [done|]. cbn [List.filter].
  case_match; by constructor.
Qed.

Lemma in_order_snoc now h l : in_order now l -> in_order now (l ++ [(h, now)]).
Proof.
  intros [Ho Hf]. split; [|apply Forall_app; split; [done | by repeat constructor]].
  induction l as [|e l IH]; [repeat constructor|]. cbn in *. apply StronglySorted_inv in Ho as [Ho Hx].
  apply Forall_cons in Hf as [He Hf]. constructor; [by apply IH|]. rewrite fmap_app. apply Forall_app.
  split; [done | by repeat constructor].
Qed.

Lemma length_recent ttl limit now l : 0 <= limit -> len (recent ttl limit now l) <= limit.
Proof.
  intros Hl. unfold recent, len. transitivity (Z.of_nat (length (drop (length l - Z.to_nat limit) l))).
  - apply Nat2Z.inj_le. apply List.filter_length_le.
  - rewrite length_drop. lia.
Qed.

Lemma record_at_spec hash now c :
  0 <= limit c -> cache_ok c -> in_order now (order c) ->
  let kept := recent (ttl c) (limit c) now (order c) in
  let '(accepted, c') := record_at hash now c in
  accepted = negb (bool_decide (hash ∈ kept.*1)) /\
  order c' = (if accepted then recent (ttl c) (limit c) now (kept ++ [(hash, now)]) else kept) /\
  cache_ok c' /\ in_order now (order c') /\ len (order c') <= limit c /\ ttl c' = ttl c /\ limit c' = limit c.
Proof.
  intros Hl Hc Ho. cbn zeta. unfold record_at. pose proof (prune_ok now c Hc) as Hp.
  pose proof (prune_order now c Hl Ho) as Hpo. destruct (prune_settings now c) as [Ht Hlim].
  set (kept := recent _ _ _ _) in *.
  assert (in_order now kept) as Hk by (eapply in_order_sub; [apply recent_sub | exact Ho]).
  case_bool_decide as Hin; rewrite (in_cache _ _ Hp), Hpo in Hin.
  - rewrite bool_decide_eq_true_2 by done. split_and!; [done | done | done | by rewrite Hpo | | done | done].
    rewrite Hpo. by apply length_recent.
  - rewrite bool_decide_eq_false_2 by done. rewrite Ht, Hlim, Hpo. set (c1 := {| order := kept ++ [(hash, now)] |}).
    assert (cache_ok c1) as Hc1.
    { split; cbn [order seen_at c1].
      - rewrite fmap_app. apply NoDup_app. split_and!; [by rewrite <- Hpo; apply Hp | | apply NoDup_singleton].
        intros x Hx Hx'. apply list_elem_of_singleton in Hx' as ->. done.
      - intros h t. rewrite elem_of_app, list_elem_of_singleton. destruct (decide (h = hash)) as [->|Hne].
        + rewrite lookup_insert_eq. split; [intros [= ->]; by right|]. intros [Hx|[= ->]]; [|done]. exfalso. apply Hin.
          apply list_elem_of_fmap. by exists (hash, t).
        + rewrite lookup_insert_ne by done. rewrite (cache_map _ Hp), Hpo. split; [auto|]. intros [|[= ]]; done. }
    pose proof (in_order_snoc now hash kept Hk) as Hk1.
    pose proof (prune_order now c1 Hl Hk1) as Hp1. cbn [ttl limit order c1] in Hp1. destruct (prune_settings now c1) as [Ht1 Hl1].
    split_and!; [done | exact Hp1 | by apply prune_ok | | | exact Ht1 | exact Hl1].
    + rewrite Hp1. eapply in_order_sub; [apply recent_sub | exact Hk1].
    + rewrite Hp1. by apply length_recent.
Qed.

Lemma recent_keeps ttl limit now pre h t post : now - t <= ttl -> 0 <= ttl -> len post < limit ->
  exists pre' post', recent ttl limit now (pre ++ (h, t) :: post) = pre' ++ (h, t) :: post' /\ len post' <= len post.
Proof.
  intros Ht H0 Hl. unfold recent. unfold len in Hl.
  rewrite length_app. cbn [length]. rewrite drop_app_le by lia. rewrite List.filter_app. cbn [List.filter].
  replace (fresh ttl now (h, t)) with true by (unfold fresh, duration_since, sat_sub; cbn [snd]; lia).
  eexists _, _. split; [done|]. unfold len. apply Nat2Z.inj_le. apply List.filter_length_le.
Qed.

Definition calls (c : RecentHashCache) (es : list (bytes * Z)) : RecentHashCache :=
  foldl (fun c e => (record_at e.1 e.2 c).2) c es.

Lemma entry_stays es : forall now c pre h t post, 0 <= ttl c -> cache_ok c -> in_order now (order c) ->
  order c = pre ++ (h, t) :: post -> len post + len es < limit c ->
  StronglySorted Z.le (now :: es.*2) -> Forall (fun e => e.2 - t <= ttl c) es ->
  exists pre' post', order (calls c es) = pre' ++ (h, t) :: post' /\ len post' < limit c /\
    cache_ok (calls c es) /\ in_order (from_option id now (last es.*2)) (order (calls c es)) /\
    ttl (calls c es) = ttl c /\ limit (calls c es) = limit c.
Proof.
  induction es as [|[h' now'] es IH]; intros now c pre h t post H0 Hc Ho Hor Hl Hs Hf.
  { exists pre, post. rewrite len_nil in Hl. split_and!; [done | lia | done | done | done | done]. }
  cbn [calls foldl fst snd]. fold (calls (record_at h' now' c).2 es). cbn [fmap list_fmap snd] in Hs.
  rewrite len_cons in Hl. pose proof (len_nonneg es). pose proof (len_nonneg post).
  apply StronglySorted_inv in Hs as [Hs Hn]. apply Forall_cons in Hn as [Hn _]. apply Forall_cons in Hf as [Hf Hfs].
  cbn [snd] in Hf. assert (in_order now' (order c)) as Ho' by (by eapply in_order_later).
  pose proof (record_at_spec h' now' c ltac:(lia) Hc Ho') as R. cbv zeta in R.
  destruct (record_at h' now' c) as [b c']. cbn [snd]. destruct R as (_ & Hor' & Hc' & Hio & _ & Ht & Hlim).
  assert (exists pre' post', order c' = pre' ++ (h, t) :: post' /\ len post' <= len post + 1) as (pre' & post' & Hcp & Hpl).
  { rewrite Hor in Hor'. destruct (recent_keeps (ttl c) (limit c) now' pre h t post) as (p1 & q1 & Hk & Hq); [lia..|].
    rewrite Hk in Hor'. destruct b; [|exists p1, q1; split; [done | lia]].
    rewrite <- app_assoc in Hor'. cbn [app] in Hor'.
    destruct (recent_keeps (ttl c) (limit c) now' p1 h t (q1 ++ [(h', now')])) as (p2 & q2 & Hk2 & Hq2); [lia | lia | |].
    - rewrite len_app, len_cons, len_nil. lia.
    - rewrite Hk2 in Hor'. exists p2, q2. split; [done|]. rewrite len_app, len_cons, len_nil in Hq2. lia. }
  destruct (IH now' c' pre' h t post') as (p & q & Hq & Hql & Hcq & Hiq & Htq & Hlq);
    [lia | done | done | done | lia | done | by rewrite Ht |].
  exists p, q. rewrite Htq, Hlq, Ht, Hlim in *. split_and!; [done | lia | done | | done | done].
  cbn [fmap list_fmap snd]. rewrite last_cons. by destruct (last es.*2).
Qed.

Lemma sorted_last l x : StronglySorted Z.le (l ++ [x]) -> Forall (fun y => y <= x) l.
Proof.
  induction l as [|y l IH]; intros H; [constructor|]. cbn in H. apply StronglySorted_inv in H as [H Hy].
  apply Forall_app in Hy as [_ Hx]. apply Forall_cons in Hx as [Hx _]. constructor; [done | by apply IH].
Qed.

Lemma sorted_front l x : StronglySorted Z.le (l ++ [x]) -> StronglySorted Z.le l.
Proof.
  induction l as [|y l IH]; intros H; [constructor|]. cbn in H. apply StronglySorted_inv in H as [H Hy].
  apply Forall_app in Hy as [Hy _]. constructor; [by apply IH | done].
Qed.

Lemma last_le t l x : Forall (fun y => y <= x) (t :: l) -> from_option id t (last l) <= x.
Proof.
  intros H. apply Forall_cons in H as [Ht H]. destruct (last l) as [y|] eqn:Hl; [|done]. cbn.
  apply last_Some_elem_of in Hl. by apply (proj1 (Forall_forall _ _) H).
Qed.

(** ** Properties of the cache *)

(** C38: The cache is its recent entries: at every call it holds, of what was accepted,
    the last [limit] that are not older than [ttl]; a hash is accepted exactly when
    it is not among these. It never holds more than [limit], nor a hash twice. *)
Theorem cache_is_recent_entries hash now c :
  0 <= limit c -> cache_ok c -> in_order now (order c) ->
  let kept := recent (ttl c) (limit c) now (order c) in
  let '(accepted, c') := record_at hash now c in
  accepted = negb (bool_decide (hash ∈ kept.*1)) /\
  order c' = (if accepted then recent (ttl c) (limit c) now (kept ++ [(hash, now)]) else kept) /\
  cache_ok c' /\ in_order now (order c') /\ len (order c') <= limit c /\ ttl c' = ttl c /\ limit c' = limit c.
Proof. apply record_at_spec. Qed.


(** A hash that was accepted is refused while it is not older than [ttl], as long
    as fewer than [limit] calls came in between. *)
Theorem cache_suppresses h t1 between t2 c :
  0 <= ttl c -> cache_ok c -> in_order t1 (order c) -> (record_at h t1 c).1 = true ->
  StronglySorted Z.le (t1 :: between.*2 ++ [t2]) -> t2 - t1 <= ttl c -> len between + 1 <= limit c ->
  (record_at h t2 (calls (record_at h t1 c).2 between)).1 = false.
Proof.
  intros H0 Hc Ho Ha Hs Ht Hl. pose proof (len_nonneg between).
  pose proof (record_at_spec h t1 c ltac:(lia) Hc Ho) as R. cbv zeta in R.
  destruct (record_at h t1 c) as [b c1]. cbn [fst snd] in *. subst b. destruct R as (_ & Hor & Hc1 & Ho1 & _ & Htt & Hll).
  destruct (recent_keeps (ttl c) (limit c) t1 (recent (ttl c) (limit c) t1 (order c)) h t1 []) as (pre & post & Hk & Hq);
    [lia | done | rewrite len_nil; lia |]. rewrite Hk in Hor. rewrite len_nil in Hq.
  assert (Forall (fun x => x <= t2) (t1 :: between.*2)) as Hle by (by eapply sorted_last).
  destruct (entry_stays between t1 c1 pre h t1 post) as (p & q & Hq1 & Hql & Hcq & Hiq & Htq & Hlq);
    [lia | done | done | done | lia | by eapply sorted_front | |].
  { apply Forall_cons in Hle as [_ Hle]. rewrite Forall_fmap in Hle. eapply Forall_impl; [exact Hle|]. cbn. lia. }
  assert (in_order t2 (order (calls c1 between))) as Hi2 by (eapply in_order_later; [exact Hiq | by apply last_le]).
  pose proof (record_at_spec h t2 (calls c1 between) ltac:(lia) Hcq Hi2) as R. cbv zeta in R.
  destruct (record_at h t2 _) as [b c2]. cbn [fst]. destruct R as (-> & _). apply negb_false_iff, bool_decide_eq_true_2.
  rewrite Hq1. destruct (recent_keeps (ttl (calls c1 between)) (limit (calls c1 between)) t2 p h t1 q) as (p' & q' & -> & _); [lia..|].
  rewrite fmap_app. cbn. set_solver.
Qed.

(** ** Lemmas: hosts *)
Lemma clamp_range lo hi v : lo <= hi -> lo <= clamp lo hi v <= hi.
Proof. unfold clamp. lia. Qed.

Section host_lemmas.
Context (env : Env) {IP : Type} `{Countable IP}.
Implicit Types (ip x : IP) (g : @Gate IP _ _).

Lemma fail_threshold_range n : 5 <= fail_threshold env n <= 50.
Proof.
  unfold fail_threshold, small_network_handshake_fail_threshold, handshake_fail_threshold, setting.
  case_match; [apply clamp_range|]; lia.
Qed.

Definition fails (ip : IP) (connected_peers : Z) (times : list Z) (g : @Gate IP _ _) : @Gate IP _ _ :=
  foldl (fun g now => (record_handshake_failure env ip false connected_peers now g).2) g times.

Lemma failures_add_up ip n times : forall k t0 (g : @Gate IP _ _), failures g !! ip = Some (k, t0) -> 0 <= k ->
  Forall (fun t => t <= t0 + handshake_fail_window) times -> k + len times < fail_threshold env n ->
  failures (fails ip n times g) !! ip = Some (k + len times, t0) /\ dynamic_bans (fails ip n times g) = dynamic_bans g.
Proof.
  pose proof (fail_threshold_range n) as Hth.
  induction times as [|t times IH]; intros k t0 g Hg Hk Hw Hl.
  { rewrite len_nil, Z.add_0_r. by cbn. }
  rewrite len_cons in Hl. pose proof (len_nonneg times). apply Forall_cons in Hw as [Ht Hw].
  cbn [fails foldl]. fold (fails ip n times (record_handshake_failure env ip false n t g).2).
  assert (record_handshake_failure env ip false n t g = (k + 1, false, set_failures (<[ip := (k + 1, t0)]> (failures g)) g)) as ->.
  { unfold record_handshake_failure, next_failure. rewrite Hg.
    replace (duration_since t t0 <=? handshake_fail_window) with true
      by (unfold duration_since, sat_sub, handshake_fail_window, SEC in *; lia).
    unfold sat_add32, U32_MAX. rewrite Z.min_r by lia. cbn [fst negb andb].
    by replace (fail_threshold env n <=? k + 1) with false by lia. }
  cbn [snd]. destruct (IH (k + 1) t0 (set_failures (<[ip := (k + 1, t0)]> (failures g)) g)) as [Hf Hb];
    [cbn; by rewrite lookup_insert_eq | lia | done | lia |].
  rewrite Hf, Hb, len_cons. split; [do 2 f_equal; lia | done].
Qed.

(** ** Properties of hosts *)

(** A host that is not trusted and fails as often as the threshold, 5 to 50 times,
    within a minute of its first failure is banned, for the configured time; with
    fewer failures nothing is banned. *)
Theorem repeated_failures_ban ip n t0 times t g static trusted :
  failures g !! ip = None -> Forall (fun u => u <= t0 + handshake_fail_window) (times ++ [t]) ->
  ip ∉ static -> ip ∉ trusted -> len (t0 :: times) + 1 = fail_threshold env n ->
  dynamic_bans (fails ip n (t0 :: times) g) = dynamic_bans g /\
  forall now, (is_banned ip static trusted now (fails ip n (t0 :: times ++ [t]) g)).1
              = (now <? t + dynamic_ban_secs env * SEC).
Proof.
  intros Hg Hw Hs Ht Hl. pose proof (fail_threshold_range n) as Hth. apply Forall_app in Hw as [Hw Hwt].
  apply Forall_cons in Hwt as [Hwt _]. rewrite len_cons in Hl. pose proof (len_nonneg times).
  set (g1 := set_failures (<[ip := (1, t0)]> (failures g)) g).
  assert ((record_handshake_failure env ip false n t0 g).2 = g1) as Hg1.
  { unfold record_handshake_failure, next_failure. rewrite Hg. cbn [fst negb andb].
    by replace (fail_threshold env n <=? 1) with false by lia. }
  destruct (failures_add_up ip n times 1 t0 g1) as [Hf Hb]; [cbn; by rewrite lookup_insert_eq | lia | done | lia |].
  assert (fails ip n (t0 :: times) g = fails ip n times g1) as -> by (unfold fails; cbn [foldl]; by rewrite Hg1).
  split; [by rewrite Hb|]. intros now.
  assert (fails ip n (t0 :: times ++ [t]) g = (record_handshake_failure env ip false n t (fails ip n times g1)).2) as ->.
  { unfold fails. cbn [foldl]. by rewrite Hg1, foldl_app. }
  set (g2 := fails ip n times g1) in *. unfold record_handshake_failure, next_failure. rewrite Hf.
  replace (duration_since t t0 <=? handshake_fail_window) with true
    by (unfold duration_since, sat_sub, handshake_fail_window, SEC in *; lia).
  unfold sat_add32, U32_MAX. rewrite Z.min_r by lia. cbn [fst negb andb].
  replace (fail_threshold env n <=? 1 + len times + 1) with true by lia. cbn [snd].
  unfold is_banned, is_banned_ip. rewrite !bool_decide_eq_false_2 by done. cbn [dynamic_bans set_failures set_bans].
  rewrite lookup_insert_eq. by destruct (now <? _).
Qed.

(** Whatever went wrong with a dial, the host is left alone for at least a second
    and at most two hours; for a plain failure the time doubles with every failure
    up to the tenth and stays under the configured maximum. *)
Theorem failed_host_waits ip err now g : 0 <= from_option fst 0 (backoff g !! ip) -> exists secs, 1 <= secs <= 7200 /\
  (forall t, backing_off ip t (record_outbound_dial_failure env ip err now g) = (t <? now + secs * SEC)) /\
  (contains "banned" err = false -> contains "trusted seed: prefer inbound" err = false ->
   secs = Z.min (outbound_dial_base_secs env * 2 ^ Z.min (Z.min U32_MAX (from_option fst 0 (backoff g !! ip) + 1)) 10)
                (outbound_dial_max_secs env)).
Proof.
  intros Hn. assert (1 <= outbound_dial_base_secs env <= 30) by (apply clamp_range; lia).
  assert (30 <= outbound_dial_max_secs env <= 3600) by (apply clamp_range; lia).
  assert (30 <= outbound_dial_banned_secs env <= 7200) by (apply clamp_range; lia).
  unfold record_outbound_dial_failure. destruct (contains "trusted seed: prefer inbound" err).
  { exists (outbound_dial_banned_secs env). split_and!; [lia | lia | | done]. intros t. unfold backing_off. cbn.
    by rewrite lookup_insert_eq. }
  destruct (contains "banned" err).
  { exists (outbound_dial_banned_secs env). split_and!; [lia | lia | | done]. intros t. unfold backing_off. cbn.
    by rewrite lookup_insert_eq. }
  set (next := sat_add32 _ 1). exists (backoff_secs env next).
  assert (0 <= Z.min next 10 <= 10) by (unfold next, sat_add32, U32_MAX; lia).
  assert (2 ^ 0 <= 2 ^ Z.min next 10 <= 2 ^ 10) by (split; apply Z.pow_le_mono_r; lia).
  unfold backoff_secs, sat_mul64, U64_MAX. rewrite (Z.min_r 18446744073709551615) by (cbn in *; nia).
  split_and!; [cbn in *; nia | lia | | done]. intros t. unfold backing_off. cbn [backoff set_backoff].
  by rewrite lookup_insert_eq.
Qed.
Context (ip_text : IP -> string).

(** *** Dials *)
Inductive DialOp :=
| OBegin (ip : IP) (static_bans trusted connected : gset IP) (now : Z)
| OEnd (ip : IP)
| OFailed (ip : IP) (err : string) (now : Z)
| OSucceeded (ip : IP).

Definition dial_op (g : Gate) (o : DialOp) : Gate :=
  match o with
  | OBegin ip s t c now => (begin_outbound_dial ip_text ip s t c now g).2
  | OEnd ip => end_dial ip g
  | OFailed ip err now => record_outbound_dial_failure env ip err now g
  | OSucceeded ip => record_outbound_dial_success ip g
  end.

Lemma is_banned_inflight ip s t now g : inflight (is_banned ip s t now g).2 = inflight g.
Proof. unfold is_banned, is_banned_ip. repeat case_match; done. Qed.

Lemma begin_keeps_inflight x ip s t c now g : x ∈ inflight g -> x ∈ inflight (begin_outbound_dial ip_text ip s t c now g).2.
Proof.
  intros Hx. unfold begin_outbound_dial. pose proof (is_banned_inflight ip s t now g) as Hi.
  destruct (is_banned ip s t now g) as [b g1]. cbn [snd] in Hi. rewrite <- Hi in Hx.
  repeat case_match; cbn; try done. set_solver.
Qed.

Lemma dial_ops_keep_inflight x ops : forall (g : @Gate IP _ _), x ∈ inflight g -> Forall (fun o => o <> OEnd x) ops ->
  x ∈ inflight (foldl dial_op g ops).
Proof.
  induction ops as [|o ops IH]; intros g Hx Ho; [done|]. apply Forall_cons in Ho as [Ho Hos]. cbn [foldl].
  apply IH; [|done]. destruct o as [ip s t c now|ip|ip err now|ip]; cbn [dial_op].
  - by apply begin_keeps_inflight.
  - cbn. assert (x <> ip) by congruence. set_solver.
  - unfold record_outbound_dial_failure. by case_match.
  - done.
Qed.

(** A host that is being dialled is not dialled again before that dial has ended. *)
Theorem dialled_once ip s t c now g ops s' t' c' now' :
  (begin_outbound_dial ip_text ip s t c now g).1 = Ok tt -> Forall (fun o => o <> OEnd ip) ops ->
  (begin_outbound_dial ip_text ip s' t' c' now' (foldl dial_op (begin_outbound_dial ip_text ip s t c now g).2 ops)).1 <> Ok tt.
Proof.
  intros Hb Ho. set (g1 := (begin_outbound_dial ip_text ip s t c now g).2).
  assert (ip ∈ inflight g1) as Hin.
  { unfold g1. unfold begin_outbound_dial in *. destruct (is_banned ip s t now g) as [b g0].
    repeat case_match; try done. cbn. set_solver. }
  pose proof (dial_ops_keep_inflight ip ops g1 Hin Ho) as Hk. set (g2 := foldl dial_op g1 ops) in *.
  unfold begin_outbound_dial. pose proof (is_banned_inflight ip s' t' now' g2) as Hi.
  destruct (is_banned ip s' t' now' g2) as [b g3]. cbn [snd] in Hi. rewrite <- Hi in Hk.
  destruct b; [done|]. destruct (bool_decide (ip ∈ c')); [done|]. destruct (backing_off _ _ _); [done|].
  by rewrite bool_decide_eq_true_2.
Qed.

End host_lemmas.

(** ** Concrete runs *)
Definition home : Env := fun _ => None.
Definition hash_of (k : Z) : bytes := replicate 32 k.

Definition busy_cache : RecentHashCache :=
  calls (new_cache (30 * SEC) 32) [(hash_of 1, 1 * SEC); (hash_of 2, 2 * SEC); (hash_of 1, 3 * SEC)].

Lemma busy_cache_ok : cache_ok busy_cache /\ in_order (4 * SEC) (order busy_cache).
Proof.
  assert (order busy_cache = [(hash_of 1, 1 * SEC); (hash_of 2, 2 * SEC)]) as Ho by reflexivity.
  assert (seen_at busy_cache = list_to_map (order busy_cache)) as Hs by reflexivity.
  split; [split|].
  - rewrite Ho. decided.
  - intros h t. rewrite Hs. rewrite <- elem_of_list_to_map; [done|]. rewrite Ho. decided.
  - rewrite Ho. split; [repeat constructor; vm_compute; congruence | repeat constructor; vm_compute; congruence].
Qed.

Lemma cache_is_recent_entries_witness :
  (record_at (hash_of 1) (4 * SEC) busy_cache).1
  = negb (bool_decide (hash_of 1 ∈ (recent (30 * SEC) 32 (4 * SEC) (order busy_cache)).*1)).
Proof.
  pose proof (cache_is_recent_entries (hash_of 1) (4 * SEC) busy_cache ltac:(vm_compute; congruence)
    (proj1 busy_cache_ok) (proj2 busy_cache_ok)) as H. cbv zeta in H.
  destruct (record_at (hash_of 1) (4 * SEC) busy_cache) as [b c]. exact (proj1 H).
Defined.

Lemma cache_suppresses_witness :
  (record_at (hash_of 7) (20 * SEC)
     (calls (record_at (hash_of 7) (4 * SEC) busy_cache).2 [(hash_of 8, 5 * SEC); (hash_of 9, 9 * SEC)])).1 = false.
Proof.
  apply (cache_suppresses (hash_of 7) (4 * SEC) [(hash_of 8, 5 * SEC); (hash_of 9, 9 * SEC)] (20 * SEC) busy_cache).
  - vm_compute. congruence.
  - exact (proj1 busy_cache_ok).
  - exact (proj2 busy_cache_ok).
  - reflexivity.
  - repeat constructor; vm_compute; congruence.
  - vm_compute. congruence.
  - vm_compute. congruence.
Defined.

Definition nobody : gset Z := ∅.

Lemma repeated_failures_ban_witness :
  (is_banned 7 nobody nobody (100 * SEC) (fails home 7 40 [1 * SEC; 2 * SEC; 3 * SEC; 4 * SEC; 5 * SEC] no_hosts)).1 = true.
Proof.
  pose proof (repeated_failures_ban home 7 40 (1 * SEC) [2 * SEC; 3 * SEC; 4 * SEC] (5 * SEC) no_hosts nobody nobody) as H.
  destruct H as [_ H]; [done | repeat constructor; vm_compute; congruence | set_solver | set_solver | reflexivity|].
  exact (eq_trans (H (100 * SEC)) eq_refl).
Defined.

Lemma dialled_once_witness :
  (begin_outbound_dial (fun _ => "host") 7 nobody nobody nobody (2 * SEC)
     (foldl (dial_op home (fun _ => "host"))
        (begin_outbound_dial (fun _ => "host") 7 nobody nobody nobody (1 * SEC) no_hosts).2 [OEnd 8])).1 <> Ok tt.
Proof.
  apply (dialled_once home (fun _ => "host") 7 nobody nobody nobody (1 * SEC) no_hosts [OEnd 8]).
  - reflexivity.
  - repeat constructor. congruence.
Defined.

Lemma failed_host_waits_witness : exists secs, 1 <= secs <= 7200 /\
  forall t, backing_off 7 t (record_outbound_dial_failure home 7 "connect timeout" (5 * SEC) no_hosts)
            = (t <? 5 * SEC + secs * SEC).
Proof.
  destruct (failed_host_waits home 7 "connect timeout" (5 * SEC) no_hosts) as (secs & Hs & Ht & _); [done|].
  exists secs. split; [exact Hs | exact Ht].
Defined.
